(* ===== verification/_CoqProject ===== *)
-Q . S2P
Prelude.v
Foundation.v
Database.v
Json.v
Encoding.v
Security.v
Aead.v
Provider.v
Transaction.v
IdentityCore.v
Link.v
Merge.v
Organizations.v
Session.v
Profile.v
Wire.v
Authentication.v
Broker.v
Scenario.v
SessionService.v
Policy.v
Application.v
Client.v
Authorization.v
Resource.v
Device.v
Token.v
Pushed.v
Consent.v
Evidence.v
AuditLog.v
Credentials.v
LocalAccounts.v
Double.v
Http.v
Gateway.v
Routing.v
Traffic.v
TrustedContext.v
Enforcement.v
Account.v
AccountSecurity.v
Scim.v
Provisioning.v
Administration.v
Deployment.v
AdministrationStore.v
AdministrationSafety.v
AdministrationProperties.v
SessionTable.v
PersistentSessions.v
TransactionTable.v
TokenTable.v
CodeTable.v
DeviceTable.v
Telemetry.v
Keccak.v
Calendar.v
Web3.v
WalletSignIn.v
