(* ===== verification/Prelude.v ===== *)
(** * OpenProof: a verification development

    OpenProof is an identity and access platform in C++: it signs people in
    through several providers, keeps one canonical identity for each of them in
    each organization, and acts as OAuth authorization server, session store,
    policy-enforcing gateway and provisioning endpoint. This library models the
    decisions of the server, the code under [src/src], and proves what they
    promise. This file holds the generic part of the library; the sections below
    document the whole.

    ** How the program is put together

    An exchange starts in the broker ([authentication/service.cpp]): it opens a
    transaction in a store, lets a provider challenge the user, and turns the
    verified outcome into a canonical identity through the directory of external
    identities, the identity repository and the profiles. A verified
    authentication becomes a session ([session]). A session answers requests at
    the gateway ([gateway]), and is what the authorization server asks for
    before it issues a code ([oauth]), which the token service ([token]) turns
    into opaque tokens for registered clients ([client]) of applications
    ([application]) and protected resources ([resource]). What an identity may do
    in an organization is decided from its membership ([organization]) by the
    policy gate ([policy]). Accounts ([account]) serve users who sign up with a
    local password ([providers/local], [credentials]) and those who sign in with
    an Ethereum wallet or as a Farcaster user ([providers/web3]); SCIM ([enterprise/scim])
    and administration ([administration]) manage the users of an organization.
    Components talk to each other by calls through abstract repositories; the
    audit log ([audit]) is written by most of them.

    ** How the model corresponds to the code

    A C++ class is a Module: its data members are the record [t] of the Module,
    its member functions are definitions of the same names, and its enumerations
    are inductive types with the constructors of the source. A function that
    returns [Result<T>] returns [Result T] of the file Foundation: [Ok], [Err]
    with the error code and both messages of the source, or [Aborted] where the
    code throws or calls [requireInvariant]. A member function that changes an
    object returns the changed object; an operation that changes several stores is
    a program [prog S Error A] (a state and error monad, below), and the failures of
    its steps leave the state as the code leaves it, that is with the effects of
    the steps done so far unless the code undoes them ([orUndo]). An abstract
    repository of the source is a type class of operations with a second class
    that holds its laws ([IdentityRepository] and [IdentityRepositoryLaws]); the
    in-memory implementations are instances, and the theorems about a service are
    proved over every implementation that keeps the laws. Code outside the
    repository is a class or a record of operations as well: OpenSSL with the clock and
    the random generator ([Platform]), key derivation and HMAC-SHA-1
    ([CredentialPlatform]), the authenticated cipher ([AeadPlatform]), the
    curve of Ethereum signatures ([Secp256k1]), one HTTPS exchange with a chain
    ([RpcTransport]), the database server ([Database]), providers, verifiers, transports and
    deliveries. Each has documented laws where proofs need some, and a concrete test
    instance on which the witnesses run.

    ** The files

    Foundations:
    - Prelude: the monads, notations, tactics, hint database and list, text and
      integer lemmas that the components share.
    - Foundation, Json, Encoding: [foundation/error.cpp], [result.cppm],
      [id.cppm], [json.cpp], [encoding.cpp].
    - Security, Aead: [security/random.cpp], [hash.cpp], [aead.cpp].
    - Database: connections, requests and transactions of
      [storage/postgres/postgres.cpp].

    Identities and sign-in:
    - Provider, Transaction: [identity/provider]: outcomes, the registry,
      single-use transactions.
    - IdentityCore, Link, Merge: [identity/core]: canonical identities, the
      links that external identities pass through, merges.
    - Organizations, Profile: [organization], [identity/profile].
    - Session, SessionService: [session/model.cpp], [repository.cpp],
      [service.cpp].
    - Wire, Authentication: [authentication/service.cpp]; Broker has its
      theorems and Scenario a run on a concrete deployment.
    - Credentials, LocalAccounts: [credentials/credentials.cpp],
      [providers/local/local.cpp].
    - Account: [account]; AccountSecurity has its theorems.
    - Keccak, Calendar, Web3: [providers/web3/web3.cpp], with [toIso8601] of
      [foundation/time.cpp]; WalletSignIn has the theorems about the providers.

    Authorization:
    - Policy: [policy/decision.cpp].
    - Application, Client, Resource: [application], [client], [resource].
    - Authorization, Device, Pushed: [oauth/model.cpp], [repository.cpp],
      [service.cpp], [device.cpp], [par.cpp], [jar.cpp], [dpop.cpp].
    - Token, Consent: [token], [consent].
    - Evidence: [evidence] and [trust].

    The gateway:
    - Double: the [double] arithmetic it uses.
    - Http, Gateway: [gateway/gateway.cpp]; theorems in Routing, Traffic,
      TrustedContext and Enforcement.

    Operation:
    - AuditLog: [audit/audit.cpp].
    - Telemetry: [telemetry/telemetry.cpp], with its theorems.
    - Scim: [enterprise/scim/scim.cpp] with its tables; theorems in
      Provisioning.
    - Administration, Deployment, AdministrationStore:
      [administration/administration.cpp] and, of [storage/postgres/postgres.cpp],
      the tables, statements and transactions that carry it out; theorems in
      AdministrationSafety and AdministrationProperties.
    - The stores of [storage/postgres/postgres.cpp], each with the rows, keys and
      checks of its tables, its statements and its theorems: SessionTable
      (theorems in PersistentSessions), TransactionTable, TokenTable, CodeTable
      and DeviceTable.

    ** What the theorems show

    - Sign-in (Broker, Link, Transaction, Merge): whatever the providers answer,
      an authentication is verified only by an outcome that the provider gave for
      the challenge of this transaction, within the assurance the operator
      allows; no run of the broker moves a linked subject to another identity; a
      transaction is redeemed at most once in any sequence of store operations;
      convergence by email attaches to exactly one unblocked candidate; the last
      way to sign in is kept.
    - Sessions (Session, SessionService): a revoked session can never be used
      again, and the index of tokens agrees with the sessions after any sequence
      of operations.
    - The tables: the session table refines the session store, request for
      request, and a member that was signed out by an administrator stays out; a
      transaction, a code and a device grant are redeemed at most once however
      the requests to the server fail; the token tables keep one live refresh
      token in each family, a stored grant reads back as it was, a token rotates
      once, and a revoked family stays revoked. These theorems take each
      transaction as one step; two examples show what the isolation level of
      the source allows when transactions overlap, and the manifest has findings.
    - Authorization (Policy, Authorization, Device, Token, Client, Pushed,
      Consent): a protected operation runs only after an explicit permission; a
      code is redeemed at most once and only with the client, redirect URI
      and verifier it was issued for; a device is served only after its user
      approved, and a patient one is served; every refresh family has at
      most one live token, reuse revokes the family, and an exchange never
      widens scopes.
    - Gateway: a forwarded request was admitted by a session and an explicit
      permission; routing is most specific and balancing exactly weighted; the
      breaker refines a three-state machine; the limiter admits exactly its
      capacity, in the rounding of binary64; a sealed context verifies while
      it is fresh and under its own binding; every response carries the
      security headers.
    - Accounts and credentials: verified addresses and password resets are
      earned by a secret that can be guessed at a bounded number of times; no
      operation transfers a subject; numeric codes are unbiased and complete;
      TOTP accepts exactly the steps of its window that were not used before;
      Base32 agrees with RFC 4648; hashes and sealed credentials round-trip.
    - Administration and provisioning: any sequence of operations, whatever
      request the server fails, keeps an active owner of every organization that
      has one; only an active owner changes anything, and only the member named;
      a change has its effect and ends the sessions of the member; a deployment
      is initialized once; the audit rows stay a chain that verifies, one row for
      each success. Provisioning stays in its organization and with its user, and
      a removed user is locked out.
    - Wallets: the word-parallel Keccak-256 is the one of the standard, stated
      over bits; an accepted signature verifies under the key of the address that
      signs in, over the one message that fits the challenge; a wallet or a
      Farcaster user that signs in time what it was given does sign in.
    - The audit log is tamper-evident: two logs that verify to the same head are
      equal, up to a collision of the keyed digest that the statement exhibits.
    - Telemetry: series never merge, whatever their labels hold; the registry
      stays under its ceiling and counts exactly what it accepted; a trace context
      travels unchanged; a span is recorded once, however it ends.

    ** Bounds and fuel

    Integers have their width: [u32] and [u64] write out the reduction where the source can overflow; instants and durations are
    milliseconds in Z, because the code compares them and adds bounded
    lifetimes only. Recursion that is not structural has a measure or fuel with
    a lemma that it is enough: [to_string] of a number n takes log2 n + 1
    digits; [lower_bound] the length of its list; the JSON reader of the
    specification the length of its text; the drain of Base32 two rounds, since a
    round adds eight bits to fewer than five; the TOTP window its number of
    candidates plus two; [forwardLoop] of the gateway the number of endpoints,
    each of which it excludes once tried; [numericCode] the draws of
    [kDraws], which is at least the number of digits, with the theorem that it
    is complete when each draw has an octet that is not rejected.

    ** What is not modelled, and why

    - Threads. Every store of the source holds its mutex for a whole
      operation; the model takes each as one atomic step, and interleavings
      are sequences of steps. Where the source does not hold it (the accounts
      of [local.cpp]) the manifest has a finding.
    - Concurrent database transactions: transactions run one after
      another, which is what the serializable level promises; what a weaker level
      allows is shown by examples, not by theorems. A connection lost while
      [COMMIT] is answered, when the client cannot know the outcome, counts as
      a failure before the commit.
    - Cryptography, key derivation, JOSE signatures, the HTTP framework, sockets,
      libpq: third-party code.
    - The remaining PostgreSQL repositories (identities and links outside
      administration, profiles, clients, resources, consents, evidence, accounts,
      recovery codes): SQL text behind interfaces whose laws the services are
      proved against. The files of the tables show what such a proof takes.
    - Configuration: a TOML document of a third-party parser, read once at start;
      its values are parameters here.
    - HTTP handlers and listeners (request parsing, rendering), observability, the migrations runner and key rotation, the provider
      adapters other than local accounts and wallets, SDKs, command line, examples.
    - [double] in JSON output, [std::to_chars] of floating-point numbers, secret
      memory wiping, which has no effect on a decision. *)
From Stdlib Require Export ZArith Lia Ascii.
From stdpp Require Export base tactics option list gmap strings sorting.

#[global] Set Default Goal Selector "!".
#[global] Open Scope Z_scope.

Create HintDb openproof discriminated.

(** ** Tactics *)

(** Case analysis on every [match], [if] and decided test of the goal and of
    the hypotheses, closing the contradictory branches on the way. *)
Ltac split_cases :=
  repeat (case_bool_decide || case_match); simplify_eq/=; try done.

(** The same for one hypothesis [H] that equates the outcome of a handler with
    a value: every guard on the way to that outcome becomes a hypothesis. *)
Ltac handler H :=
  repeat match type of H with
  | context [match ?x with _ => _ end] =>
      let Hx := fresh "Hg" in destruct x eqn:Hx; simplify_eq/=
  end; simplify_eq/=.

(** Splits a run at its next [if], naming the guard. *)
Ltac branch H G :=
  match type of H with
  | (if ?c then _ else _) _ = _ => destruct c eqn:G
  | (if ?c then _ else _) = _ => destruct c eqn:G
  end.

(** Turns boolean connectives in the context into propositions. *)
Ltac bool_prop :=
  repeat match goal with
  | H : _ || _ = false |- _ => apply orb_false_iff in H; destruct H
  | H : _ && _ = true |- _ => apply andb_true_iff in H; destruct H
  | H : negb _ = true |- _ => apply negb_true_iff in H
  | H : negb _ = false |- _ => apply negb_false_iff in H
  | H : bool_decide _ = true |- _ => apply bool_decide_eq_true in H
  | H : bool_decide _ = false |- _ => apply bool_decide_eq_false in H
  | H : (_ <=? _) = true |- _ => apply Z.leb_le in H
  | H : (_ <=? _) = false |- _ => apply Z.leb_gt in H
  | H : (_ <? _) = true |- _ => apply Z.ltb_lt in H
  | H : (_ <? _) = false |- _ => apply Z.ltb_ge in H
  | H : (_ =? _) = true |- _ => apply Z.eqb_eq in H
  | H : (_ =? _) = false |- _ => apply Z.eqb_neq in H
  end.

(** ** Results: [std::expected<T, E>]

    [Aborted] is the outcome of a failed [foundation::requireInvariant], which
    calls [std::abort]: the process ends, no value and no error is returned. *)

Inductive result (E A : Type) : Type :=
| Ok (a : A)
| Err (e : E)
| Aborted.
Arguments Ok {E A} a.
Arguments Err {E A} e.
Arguments Aborted {E A}.

Section result.
Context {E : Type}.

#[global] Instance result_ret : MRet (result E) := fun A a => Ok a.
#[global] Instance result_bind : MBind (result E) := fun A B k r =>
  match r with Ok a => k a | Err e => Err e | Aborted => Aborted end.
#[global] Instance result_fmap : FMap (result E) := fun A B f r =>
  match r with Ok a => Ok (f a) | Err e => Err e | Aborted => Aborted end.

#[global] Instance result_eq_dec `{EqDecision E, EqDecision A} : EqDecision (result E A).
Proof. solve_decision. Defined.

Definition is_ok {A} (r : result E A) : bool :=
  match r with Ok _ => true | _ => false end.

Lemma is_ok_spec {A} (r : result E A) : is_ok r = true <-> exists a, r = Ok a.
Proof. destruct r; naive_solver. Qed.

Lemma result_bind_ok {A B} (r : result E A) (k : A -> result E B) b :
  r ≫= k = Ok b <-> exists a, r = Ok a /\ k a = Ok b.
Proof. destruct r; naive_solver. Qed.

Lemma result_bind_err {A B} (r : result E A) (k : A -> result E B) e :
  r ≫= k = Err e <-> r = Err e \/ exists a, r = Ok a /\ k a = Err e.
Proof. destruct r; naive_solver. Qed.
End result.

(** ** Handlers: a state that survives a failure

    A C++ member function returning [Result<T>] may have changed its object
    before it fails, so the state is returned on both outcomes. *)

Definition prog (S E A : Type) : Type := S -> result E A * S.

Section prog.
Context {S E : Type}.

#[global] Instance prog_ret : MRet (prog S E) := fun A a s => (Ok a, s).
#[global] Instance prog_bind : MBind (prog S E) := fun A B k m s =>
  match m s with
  | (Ok a, s') => k a s'
  | (Err e, s') => (Err e, s')
  | (Aborted, s') => (Aborted, s')
  end.

Definition throw {A} (e : E) : prog S E A := fun s => (Err e, s).
Definition get : prog S E S := fun s => (Ok s, s).
Definition lift {A} (r : result E A) : prog S E A := fun s => (r, s).
(** [static_cast<void>(m)]: the outcome is dropped, the effect stays. *)
Definition ignore {A} (m : prog S E A) : prog S E unit := fun s =>
  match m s with (Aborted, s') => (Aborted, s') | (_, s') => (Ok tt, s') end.
(** The outcome as a value, for code that inspects a failure. *)
Definition attempt {A} (m : prog S E A) : prog S E (result E A) :=
  fun s => match m s with (Aborted, s') => (Aborted, s') | (r, s') => (Ok r, s') end.

(** [m]; when it fails, [undo] with its outcome discarded, and the failure. *)
Definition orUndo {A} (undo : prog S E unit) (m : prog S E A) : prog S E A := fun s =>
  match m s with
  | (Err e, s) =>
      match undo s with
      | (Aborted, s) => (Aborted, s)
      | (_, s) => (Err e, s)
      end
  | r => r
  end.

(** A change to a local value: its status, and the changed value. *)
Definition mutate (m : prog S E unit) (s : S) : result E S :=
  match m s with
  | (Ok _, s) => Ok s
  | (Err e, _) => Err e
  | (Aborted, _) => Aborted
  end.

(** A run is its answer and the state it leaves. *)
Lemma run_as {A} (r : result E A * S) (x : result E A) : r.1 = x -> r = (x, r.2).
Proof. destruct r. simpl. congruence. Qed.

Lemma prog_bind_ok {A B} (m : prog S E A) (k : A -> prog S E B) s b s' :
  (m ≫= k) s = (Ok b, s') <->
  exists a s1, m s = (Ok a, s1) /\ k a s1 = (Ok b, s').
Proof.
  unfold mbind, prog_bind. destruct (m s) as [[a|e|] s1]; naive_solver.
Qed.

Lemma prog_bind_err {A B} (m : prog S E A) (k : A -> prog S E B) s e s' :
  (m ≫= k) s = (Err e, s') <->
  m s = (Err e, s') \/ exists a s1, m s = (Ok a, s1) /\ k a s1 = (Err e, s').
Proof.
  unfold mbind, prog_bind. destruct (m s) as [[a|e'|] s1]; naive_solver.
Qed.

(** A sequence ends in its first part or goes on with its value. *)
Lemma prog_bind_inv {A B} (m : prog S E A) (k : A -> prog S E B) s r s' :
  (m ≫= k) s = (r, s') ->
  (exists a s1, m s = (Ok a, s1) /\ k a s1 = (r, s')) \/ (is_ok r = false /\ is_ok (m s).1 = false /\ s' = (m s).2).
Proof. unfold mbind, prog_bind. destruct (m s) as [[a|e|] s1]; naive_solver. Qed.

Lemma bind_run {A B} (m : prog S E A) (k : A -> prog S E B) s a s' :
  m s = (Ok a, s') -> (m ≫= k) s = k a s'.
Proof. unfold mbind, prog_bind. by intros ->. Qed.

Lemma attempt_run {A} (m : prog S E A) s r s' :
  m s = (r, s') -> r <> Aborted -> attempt m s = (Ok r, s').
Proof. unfold attempt. intros ->. by destruct r. Qed.

Lemma attempt_ok {A} (m : prog S E A) s r s' : attempt m s = (Ok r, s') -> m s = (r, s').
Proof. unfold attempt. destruct (m s) as [[]]; congruence. Qed.

Lemma lift_ok {A} (r : result E A) s a s' :
  lift r s = (Ok a, s') <-> r = Ok a /\ s' = s.
Proof. unfold lift. naive_solver. Qed.

Lemma orUndo_ok {A} (undo : prog S E unit) (m : prog S E A) s a s' :
  orUndo undo m s = (Ok a, s') -> m s = (Ok a, s').
Proof. unfold orUndo. destruct (m s) as [[x|e|] s1]; [done| |done]. by destruct (undo s1) as [[] ?]. Qed.

Lemma mutate_ok (m : prog S E unit) s s' : mutate m s = Ok s' <-> m s = (Ok tt, s').
Proof. unfold mutate. destruct (m s) as [[[]|e|] s1]; naive_solver. Qed.

Lemma throw_ok {A} (e : E) s (a : A) s' : throw e s <> (Ok a, s').
Proof. unfold throw. congruence. Qed.

(** Two, three and four outcomes drawn before the first is inspected. *)
Lemma attempt2_ok {A1 A2 B} (m1 : prog S E A1) (m2 : prog S E A2) (k : A1 -> A2 -> prog S E B) s r s' :
  (x ← attempt m1; y ← attempt m2; x ← lift x; y ← lift y; k x y) s = (Ok r, s') ->
  exists a1 s1 a2 s2, m1 s = (Ok a1, s1) /\ m2 s1 = (Ok a2, s2) /\ k a1 a2 s2 = (Ok r, s').
Proof.
  unfold mbind, prog_bind, attempt, lift. destruct (m1 s) as [[a1|e|] s1]; simpl; [|by destruct (m2 s1) as [[]]|done].
  destruct (m2 s1) as [[a2|e|] s2] eqn:H2; simpl; [|done..]. intros Hk. by exists a1, s1, a2, s2.
Qed.

Lemma attempt3_ok {A1 A2 A3 B} (m1 : prog S E A1) (m2 : prog S E A2) (m3 : prog S E A3)
    (k : A1 -> A2 -> A3 -> prog S E B) s r s' :
  (x ← attempt m1; y ← attempt m2; z ← attempt m3; x ← lift x; y ← lift y; z ← lift z; k x y z) s = (Ok r, s') ->
  exists a1 s1 a2 s2 a3 s3, m1 s = (Ok a1, s1) /\ m2 s1 = (Ok a2, s2) /\ m3 s2 = (Ok a3, s3) /\
    k a1 a2 a3 s3 = (Ok r, s').
Proof.
  unfold mbind, prog_bind, attempt, lift. intros Hk.
  destruct (m1 s) as [r1 s1] eqn:H1. destruct r1 as [a1|e1|]; [| |done]; simpl in Hk;
  destruct (m2 s1) as [r2 s2] eqn:H2; (destruct r2 as [a2|e2|]; [| |done]); simpl in Hk;
  destruct (m3 s2) as [r3 s3] eqn:H3; (destruct r3 as [a3|e3|]; [| |done]); simpl in Hk; try done.
  exists a1, s1, a2, s2, a3, s3. done.
Qed.

Lemma attempt4_ok {A1 A2 A3 A4 B} (m1 : prog S E A1) (m2 : prog S E A2) (m3 : prog S E A3)
    (m4 : prog S E A4) (k : A1 -> A2 -> A3 -> A4 -> prog S E B) s r s' :
  (x ← attempt m1; y ← attempt m2; z ← attempt m3; t ← attempt m4;
   x ← lift x; y ← lift y; z ← lift z; t ← lift t; k x y z t) s = (Ok r, s') ->
  exists a1 s1 a2 s2 a3 s3 a4 s4, m1 s = (Ok a1, s1) /\ m2 s1 = (Ok a2, s2) /\
    m3 s2 = (Ok a3, s3) /\ m4 s3 = (Ok a4, s4) /\ k a1 a2 a3 a4 s4 = (Ok r, s').
Proof.
  unfold mbind, prog_bind, attempt, lift. intros Hk.
  destruct (m1 s) as [r1 s1] eqn:H1. destruct r1 as [a1|e1|]; [| |done]; simpl in Hk;
  destruct (m2 s1) as [r2 s2] eqn:H2; (destruct r2 as [a2|e2|]; [| |done]); simpl in Hk;
  destruct (m3 s2) as [r3 s3] eqn:H3; (destruct r3 as [a3|e3|]; [| |done]); simpl in Hk;
  destruct (m4 s3) as [r4 s4] eqn:H4; (destruct r4 as [a4|e4|]; [| |done]); simpl in Hk; try done.
  exists a1, s1, a2, s2, a3, s3, a4, s4. done.
Qed.

(** The errors a handler may fail with. *)
Definition raises (P : E -> Prop) {A} (m : prog S E A) : Prop := forall s e s', m s = (Err e, s') -> P e.

Lemma raises_ret P {A} (a : A) : raises P (mret (M:=prog S E) a).
Proof. by intros s e s'. Qed.

Lemma raises_throw (P : E -> Prop) {A} (e : E) : P e -> raises P (throw (A:=A) e).
Proof. by intros He s e' s' [= <- <-]. Qed.

Lemma raises_lift (P : E -> Prop) {A} (r : result E A) : (forall e, r = Err e -> P e) -> raises P (lift r).
Proof. intros Hr s e s' [= -> <-]. by apply Hr. Qed.

Lemma raises_attempt P {A} (m : prog S E A) : raises P (attempt m).
Proof. intros s e s'. unfold attempt. by destruct (m s) as [[]]. Qed.

(** An outcome that is inspected later. *)
Lemma raises_inspect (P : E -> Prop) {A B} (m : prog S E A) (k : result E A -> prog S E B) :
  raises P m -> (forall r, (forall e, r = Err e -> P e) -> raises P (k r)) -> raises P (attempt m ≫= k).
Proof.
  intros Hm Hk s e s' [H|(r & s1 & H%attempt_ok & Hrun)]%prog_bind_err; [exfalso; revert H; unfold attempt; by destruct (m s) as [[]]|].
  eapply Hk, Hrun. intros e1 ->. by eapply Hm.
Qed.

Lemma raises_bind P {A B} (m : prog S E A) (k : A -> prog S E B) :
  raises P m -> (forall a, raises P (k a)) -> raises P (m ≫= k).
Proof. intros Hm Hk s e s' [H|(a & s1 & _ & H)]%prog_bind_err; [by eapply Hm|by eapply Hk]. Qed.

(** A Hoare-style invariant rule: what every step keeps, the sequence keeps. *)
Definition preserves (I : S -> Prop) {A} (m : prog S E A) : Prop :=
  forall s, I s -> I (m s).2.

(** The relational form: whatever the outcome, the state moved along [R]. *)
Definition advances (R : relation S) {A} (m : prog S E A) : Prop :=
  forall s, R s (m s).2.

Section advances.
Context (R : relation S) `{!PreOrder R}.

Lemma advances_still {A} (m : prog S E A) : (forall s, (m s).2 = s) -> advances R m.
Proof. intros Hm s. by rewrite Hm. Qed.

Lemma advances_bind {A B} (m : prog S E A) (k : A -> prog S E B) :
  advances R m -> (forall a, advances R (k a)) -> advances R (m ≫= k).
Proof.
  intros Hm Hk s. specialize (Hm s). unfold mbind, prog_bind.
  destruct (m s) as [[a|e|] s1]; simpl in *; [|done..]. etrans; [done|]. apply Hk.
Qed.

Lemma advances_ignore {A} (m : prog S E A) : advances R m -> advances R (ignore m).
Proof. intros Hm s. specialize (Hm s). unfold ignore. by destruct (m s) as [[] ?]. Qed.

Lemma advances_orUndo {A} (undo : prog S E unit) (m : prog S E A) :
  advances R undo -> advances R m -> advances R (orUndo undo m).
Proof.
  intros Hu Hm s. specialize (Hm s). unfold orUndo. destruct (m s) as [[a|e|] s1]; simpl in *; [done| |done].
  etrans; [exact Hm|]. specialize (Hu s1). by destruct (undo s1) as [[] ?].
Qed.

Lemma advances_attempt {A} (m : prog S E A) : advances R m -> advances R (attempt m).
Proof. intros Hm s. specialize (Hm s). unfold attempt. by destruct (m s) as [[] ?]. Qed.
End advances.

Lemma preserves_ret I {A} (a : A) : preserves I (mret (M:=prog S E) a).
Proof. intros s Hs. exact Hs. Qed.

Lemma preserves_throw I {A} (e : E) : preserves I (throw (A:=A) e).
Proof. intros s Hs. exact Hs. Qed.

Lemma preserves_lift I {A} (r : result E A) : preserves I (lift r).
Proof. intros s Hs. exact Hs. Qed.

Lemma preserves_bind I {A B} (m : prog S E A) (k : A -> prog S E B) :
  preserves I m -> (forall a, preserves I (k a)) -> preserves I (m ≫= k).
Proof.
  intros Hm Hk s Hs. specialize (Hm s Hs).
  unfold mbind, prog_bind. destruct (m s) as [[a|e|] s1]; [by apply Hk | done..].
Qed.

Lemma preserves_ignore I {A} (m : prog S E A) : preserves I m -> preserves I (ignore m).
Proof.
  intros Hm s Hs. specialize (Hm s Hs). unfold ignore. by destruct (m s) as [[] ?].
Qed.

Lemma preserves_attempt I {A} (m : prog S E A) : preserves I m -> preserves I (attempt m).
Proof.
  intros Hm s Hs. specialize (Hm s Hs). unfold attempt. by destruct (m s) as [[] ?].
Qed.
End prog.

#[export] Hint Resolve preserves_ret preserves_throw preserves_lift preserves_bind
  preserves_ignore preserves_attempt : openproof.

(** Runs a handler on one component of a larger state. *)
Definition zoom {S T E A} (get_part : T -> S) (put_part : S -> T -> T)
    (m : prog S E A) : prog T E A :=
  fun t => let '(r, s') := m (get_part t) in (r, put_part s' t).

Lemma zoom_eq {S T E A} (g : T -> S) (p : S -> T -> T) (m : prog S E A) t r t' :
  zoom g p m t = (r, t') <-> exists s', m (g t) = (r, s') /\ t' = p s' t.
Proof. unfold zoom. destruct (m (g t)) as [r1 s1]. naive_solver. Qed.

(** ** Total orders of map keys ([std::map], [std::ranges::sort]) *)

Class KeyOrder (K : Type) := {
  key_le : relation K;
  #[global] key_le_dec :: RelDecision key_le;
  #[global] key_le_po :: PartialOrder key_le;
  #[global] key_le_total :: Total key_le;
}.

(** The order a class inherits from the member it compares. *)
Program Definition inj_key_order {A K} `{KeyOrder K} (f : A -> K) `{!Inj (=) (=) f} : KeyOrder A :=
  {| key_le a b := key_le (f a) (f b) |}.
Next Obligation. intros A K ? f ? a b. cbv beta. apply _. Defined.
Next Obligation.
  intros A K ? f Hf. split; [split|].
  - intros a. done.
  - intros a b c ??. by etrans.
  - intros a b ??. apply (inj f). by apply (anti_symm key_le).
Qed.
Next Obligation. intros A K ? f ? a b. apply (total key_le (f a) (f b)). Qed.

#[global] Instance string_key_order : KeyOrder string := {| key_le := String.le |}.

Section map_iter.
Context {K V : Type} `{Countable K, !KeyOrder K}.

Definition entry_le (p q : K * V) : Prop := key_le p.1 q.1.
#[global] Instance entry_le_dec : RelDecision entry_le.
Proof. intros p q. unfold entry_le. apply _. Defined.

#[global] Instance entry_le_total : Total entry_le.
Proof. intros p q. apply (total key_le p.1 q.1). Qed.

(** The entries of a [std::map] in the order a range-for visits them. *)
Definition map_iter (m : gmap K V) : list (K * V) := merge_sort entry_le (map_to_list m).

Lemma elem_of_map_iter (m : gmap K V) k v : (k, v) ∈ map_iter m <-> m !! k = Some v.
Proof.
  unfold map_iter. rewrite merge_sort_Permutation. apply elem_of_map_to_list.
Qed.

Lemma map_iter_length (m : gmap K V) : length (map_iter m) = size m.
Proof. unfold map_iter. by rewrite merge_sort_Permutation, length_map_to_list. Qed.

Lemma NoDup_map_iter_fst (m : gmap K V) : NoDup (map_iter m).*1.
Proof.
  unfold map_iter. rewrite merge_sort_Permutation. apply NoDup_fst_map_to_list.
Qed.

#[global] Instance entry_le_trans : Transitive entry_le.
Proof. intros p q r. unfold entry_le. apply transitivity. Qed.

Lemma map_iter_sorted (m : gmap K V) : StronglySorted entry_le (map_iter m).
Proof. apply (StronglySorted_merge_sort entry_le). Qed.

(** A sorted enumeration of the entries is the iteration. *)
Lemma map_iter_unique (m : gmap K V) l :
  NoDup l.*1 -> StronglySorted entry_le l ->
  (forall k v, (k, v) ∈ l <-> m !! k = Some v) -> l = map_iter m.
Proof.
  intros Hnd Hs Hl. apply (StronglySorted_unique_strong entry_le).
  - intros [k1 v1] [k2 v2] H1%Hl H2%elem_of_map_iter H12 H21. unfold entry_le in *. simpl in *.
    assert (k1 = k2) as -> by (by apply (anti_symm key_le)). congruence.
  - done.
  - apply map_iter_sorted.
  - apply NoDup_Permutation.
    + by eapply NoDup_fmap_1.
    + eapply NoDup_fmap_1, NoDup_map_iter_fst.
    + intros [k v]. by rewrite Hl, elem_of_map_iter.
Qed.

Lemma StronglySorted_filter {A} (R : relation A) (P : A -> Prop) `{!forall x, Decision (P x)} l :
  StronglySorted R l -> StronglySorted R (filter P l).
Proof.
  induction 1 as [|x l Hl IH Hx]; [constructor|]. rewrite filter_cons. case_decide; [|done].
  constructor; [done|]. rewrite Forall_forall in *. intros y [_ Hy]%list_elem_of_filter. by apply Hx.
Qed.

Section scan.
Context (P : K * V -> Prop) `{!forall p, Decision (P p)}.

(** Scanning a map for the entries that satisfy [P]. *)
Lemma elem_of_scan (m : gmap K V) k v :
  (k, v) ∈ filter P (map_iter m) <-> P (k, v) /\ m !! k = Some v.
Proof. by rewrite list_elem_of_filter, elem_of_map_iter. Qed.

Lemma map_iter_filter (m : gmap K V) : filter P (map_iter m) = map_iter (filter P m).
Proof.
  apply map_iter_unique.
  - eapply sublist_NoDup; [apply NoDup_map_iter_fst|].
    apply fmap_sublist, sublist_filter.
  - apply StronglySorted_filter, map_iter_sorted.
  - intros k v. rewrite elem_of_scan, map_lookup_filter_Some. naive_solver.
Qed.

Lemma elem_of_scan_keys (m : gmap K V) k :
  k ∈ (filter P (map_iter m)).*1 <-> exists v, m !! k = Some v /\ P (k, v).
Proof.
  rewrite list_elem_of_fmap. split.
  - intros ([k' v] & -> & [? ?]%elem_of_scan). eauto.
  - intros (v & ? & ?). exists (k, v). split; [done|]. by apply elem_of_scan.
Qed.

Lemma scan_keys_sorted (m : gmap K V) : StronglySorted key_le (filter P (map_iter m)).*1.
Proof.
  apply (StronglySorted_fmap _ entry_le key_le); [done|].
  apply StronglySorted_filter, map_iter_sorted.
Qed.

Lemma scan_keys_NoDup (m : gmap K V) : NoDup (filter P (map_iter m)).*1.
Proof. rewrite map_iter_filter. apply NoDup_map_iter_fst. Qed.

Lemma scan_length (m : gmap K V) : (length (filter P (map_iter m)) <= base.size m)%nat.
Proof. rewrite <-map_iter_length. apply length_filter. Qed.
End scan.
End map_iter.

#[global] Program Instance pair_key_order {K1 K2} `{EqDecision K1, KeyOrder K1, KeyOrder K2} :
    KeyOrder (K1 * K2) :=
  {| key_le a b := (a.1 <> b.1 /\ key_le a.1 b.1) \/ (a.1 = b.1 /\ key_le a.2 b.2) |}.
Next Obligation. intros K1 K2 ??? a b. cbv beta. apply _. Defined.
Next Obligation.
  intros K1 K2 ???. split; [split|].
  - intros a. right. done.
  - intros a b c [[Hn1 H1]|[E1 H1]] [[Hn2 H2]|[E2 H2]].
    + left. split; [|by etrans]. intros E. apply Hn2. rewrite E in H1.
      by apply (anti_symm key_le).
    + left. by rewrite <-E2.
    + left. by rewrite E1.
    + right. split; [congruence|by etrans].
  - intros [a1 a2] [b1 b2] [[Hn1 H1]|[E1 H1]] [[Hn2 H2]|[E2 H2]]; simpl in *; subst; try done.
    + destruct Hn1. by apply (anti_symm key_le).
    + f_equal. by apply (anti_symm key_le).
Qed.
Next Obligation.
  intros K1 K2 ??? a b. destruct (decide (a.1 = b.1)) as [E|Hn].
  - destruct (total key_le a.2 b.2); [left|right]; right; by split.
  - destruct (total key_le a.1 b.1); [left|right]; left; split; congruence.
Qed.

(** ** Sorted lists of keys ([std::ranges::sort], [vector::erase]) *)

Section sorted_keys.
Context {K : Type} `{Countable K, !KeyOrder K}.

Definition sort_keys (l : list K) : list K := merge_sort key_le l.

(** [l.erase(std::ranges::find(l, x))]. *)
Fixpoint erase_first (x : K) (l : list K) : list K :=
  match l with
  | [] => []
  | y :: l => if decide (x = y) then l else y :: erase_first x l
  end.

(** A finite set as the sorted list the code keeps for it. *)
Definition sorted_elements (X : gset K) : list K := sort_keys (elements X).

Lemma elem_of_sorted_elements X x : x ∈ sorted_elements X <-> x ∈ X.
Proof. unfold sorted_elements, sort_keys. by rewrite merge_sort_Permutation, elem_of_elements. Qed.

Lemma sort_keys_sorted l : StronglySorted key_le (sort_keys l).
Proof. apply (StronglySorted_merge_sort key_le). Qed.

Lemma NoDup_sorted_elements X : NoDup (sorted_elements X).
Proof. unfold sorted_elements, sort_keys. rewrite merge_sort_Permutation. apply NoDup_elements. Qed.

Lemma sorted_elements_unique X l :
  NoDup l -> StronglySorted key_le l -> (forall x, x ∈ l <-> x ∈ X) -> l = sorted_elements X.
Proof.
  intros Hnd Hs Hl. apply (StronglySorted_unique key_le); [done|apply sort_keys_sorted|].
  apply NoDup_Permutation; [done|apply NoDup_sorted_elements|].
  intros x. by rewrite Hl, elem_of_sorted_elements.
Qed.

Lemma sort_insert X x :
  x ∉ X -> sort_keys (sorted_elements X ++ [x]) = sorted_elements ({[x]} ∪ X).
Proof.
  intros Hx. apply sorted_elements_unique.
  - unfold sort_keys. rewrite merge_sort_Permutation. apply NoDup_app.
    split; [apply NoDup_sorted_elements|]. split; [|apply NoDup_singleton].
    intros y Hy%elem_of_sorted_elements. set_solver.
  - apply sort_keys_sorted.
  - intros y. unfold sort_keys. rewrite merge_sort_Permutation, elem_of_app, elem_of_sorted_elements.
    set_solver.
Qed.

Lemma sublist_erase_first x l : sublist (erase_first x l) l.
Proof.
  induction l as [|y l IH]; simpl; [constructor|]. case_decide; constructor; done.
Qed.

Lemma elem_of_erase_first x l y : NoDup l -> (y ∈ erase_first x l <-> y ∈ l /\ y <> x).
Proof.
  induction 1 as [|z l Hz Hl IH]; simpl; [set_solver|]. case_decide; set_solver.
Qed.

Lemma sublist_StronglySorted (R : relation K) (l l' : list K) :
  sublist l l' -> StronglySorted R l' -> StronglySorted R l.
Proof.
  induction 1 as [|x l l' Hs IH|x l l' Hs IH]; intros Hsort; [done| |].
  - apply StronglySorted_cons in Hsort as [Hf Hsort]. constructor; [by auto|].
    rewrite Forall_forall in *. intros y Hy. apply Hf. by eapply elem_of_submseteq, sublist_submseteq.
  - apply StronglySorted_cons in Hsort as [_ Hsort]. auto.
Qed.

Lemma erase_first_sorted X x : erase_first x (sorted_elements X) = sorted_elements (X ∖ {[x]}).
Proof.
  apply sorted_elements_unique.
  - eapply sublist_NoDup; [apply NoDup_sorted_elements|apply sublist_erase_first].
  - eapply sublist_StronglySorted; [apply sublist_erase_first|apply sort_keys_sorted].
  - intros y. rewrite elem_of_erase_first by apply NoDup_sorted_elements.
    rewrite elem_of_sorted_elements. set_solver.
Qed.
End sorted_keys.

(** ** Search in a sorted vector ([std::unique], [std::ranges::binary_search]) *)

Section binary_search.
Context {K : Type} `{Countable K, !KeyOrder K}.

(** [v.erase(std::unique(v.begin(), v.end()), v.end())]. *)
Fixpoint unique_adjacent (l : list K) : list K :=
  match l with
  | [] => []
  | x :: l' =>
      match l' with
      | y :: _ => if decide (x = y) then unique_adjacent l' else x :: unique_adjacent l'
      | [] => [x]
      end
  end.

Lemma elem_of_unique_adjacent l x : x ∈ unique_adjacent l <-> x ∈ l.
Proof.
  induction l as [|y [|z l] IH]; [done|done|]. cbn [unique_adjacent]. case_decide; [subst|].
  - rewrite IH. set_solver.
  - rewrite elem_of_cons, IH. set_solver.
Qed.

Lemma unique_adjacent_sorted (R : relation K) l : StronglySorted R l -> StronglySorted R (unique_adjacent l).
Proof.
  induction l as [|x [|y l] IH]; [done|done|]. intros [Hx Hs]%StronglySorted_cons. cbn [unique_adjacent].
  case_decide; [by apply IH|]. apply StronglySorted_cons. split; [|by apply IH].
  rewrite Forall_forall in *. intros z Hz. by apply Hx, elem_of_unique_adjacent.
Qed.

(** The halving loop of [std::lower_bound] on [[first, first + len)]. *)
Fixpoint lower_bound (fuel : nat) (l : list K) (first len : nat) (v : K) : nat :=
  match fuel with
  | O => first
  | S fuel =>
      if (len =? 0)%nat then first
      else
        let half := (len / 2)%nat in
        let mid := (first + half)%nat in
        match l !! mid with
        | Some x =>
            if decide (key_le v x) then lower_bound fuel l first half v
            else lower_bound fuel l (S mid) (len - half - 1) v
        | None => first
        end
  end.

Definition binary_search (l : list K) (v : K) : bool :=
  match l !! lower_bound (length l) l 0 (length l) v with
  | Some x => bool_decide (key_le x v)
  | None => false
  end.

Lemma sorted_lookup l i j x y :
  StronglySorted key_le l -> (i <= j)%nat -> l !! i = Some x -> l !! j = Some y -> key_le x y.
Proof.
  intros Hs. revert i j. induction Hs as [|z l Hs IH Hz]; intros i j Hij Hi Hj; [done|].
  destruct i as [|i], j as [|j]; simpl in *; [by simplify_eq| |lia|].
  - injection Hi as <-. rewrite Forall_forall in Hz. apply Hz. by eapply list_elem_of_lookup_2.
  - eapply (IH i j); [lia|done..].
Qed.

(** The loop narrows to the first position that is not below [v]. *)
Lemma lower_bound_spec fuel l first len v :
  StronglySorted key_le l -> (first + len <= length l)%nat -> (len <= fuel)%nat ->
  (forall i x, l !! i = Some x -> (i < first)%nat -> ~ key_le v x) ->
  (forall i x, l !! i = Some x -> (first + len <= i)%nat -> key_le v x) ->
  let r := lower_bound fuel l first len v in
  (forall i x, l !! i = Some x -> (i < r)%nat -> ~ key_le v x) /\
  (forall i x, l !! i = Some x -> (r <= i)%nat -> key_le v x).
Proof.
  intros Hs. revert first len. induction fuel as [|fuel IH]; intros first len Hlen Hf Hlow Hhigh;
    cbn [lower_bound]; cbv zeta.
  { split; [done|]. intros i x Hx Hi. eapply Hhigh; [done|lia]. }
  destruct (Nat.eqb_spec len 0) as [->|Hpos]; [split; [done|]; intros i x Hx Hi; eapply Hhigh; [done|lia]|].
  pose proof (Nat.div_lt len 2 ltac:(lia) ltac:(lia)) as Hhalf. set (half := (len / 2)%nat) in *.
  destruct (lookup_lt_is_Some_2 l (first + half)) as [x Hx]; [lia|]. rewrite Hx.
  case_decide as Hle; apply IH; try lia; try done.
  - intros i y Hy Hi. etrans; [exact Hle|]. by eapply (sorted_lookup l (first + half) i).
  - intros i y Hy Hi Hvy. apply Hle. etrans; [exact Hvy|]. eapply (sorted_lookup l i); [done| |done..]. lia.
  - intros i y Hy Hi. eapply Hhigh; [done|lia].
Qed.

Lemma binary_search_spec l v : StronglySorted key_le l -> binary_search l v = bool_decide (v ∈ l).
Proof.
  intros Hs. unfold binary_search. destruct (lower_bound_spec (length l) l 0 (length l) v) as [Hlow Hhigh];
    [done|lia|lia|intros; lia|by intros i x Hx%lookup_lt_Some Hi; lia|].
  set (r := lower_bound _ _ _ _ _) in *. destruct (l !! r) as [x|] eqn:Hr.
  - apply bool_decide_ext. split.
    + intros Hxv. assert (x = v) as <- by (apply (anti_symm key_le); [done|by eapply Hhigh]).
      by eapply list_elem_of_lookup_2.
    + intros [i Hi]%list_elem_of_lookup. destruct (decide (i < r)%nat) as [Hlt|Hge].
      * destruct (Hlow _ _ Hi Hlt). done.
      * eapply sorted_lookup; [done| |done|done]. lia.
  - symmetry. apply bool_decide_eq_false_2. intros [i Hi]%list_elem_of_lookup.
    destruct (decide (i < r)%nat) as [Hlt|Hge]; [by destruct (Hlow _ _ Hi Hlt)|].
    apply lookup_ge_None in Hr. apply lookup_lt_Some in Hi. lia.
Qed.

(** A vector sorted and cleared of duplicates holds what it was given. *)
Definition sort_unique (l : list K) : list K := unique_adjacent (sort_keys l).

Lemma sort_unique_search l v : binary_search (sort_unique l) v = bool_decide (v ∈ l).
Proof.
  unfold sort_unique. rewrite binary_search_spec by apply unique_adjacent_sorted, sort_keys_sorted.
  apply bool_decide_ext. rewrite elem_of_unique_adjacent. unfold sort_keys. by rewrite merge_sort_Permutation.
Qed.

Lemma unique_adjacent_NoDup l : StronglySorted key_le l -> NoDup (unique_adjacent l).
Proof.
  induction l as [|x [|y l] IH]; intros Hs; [constructor|apply NoDup_singleton|].
  apply StronglySorted_cons in Hs as [Hx Hs]. cbn [unique_adjacent]. case_decide as Hne; [by apply IH|].
  change (NoDup (x :: unique_adjacent (y :: l))). apply NoDup_cons. split; [|by apply IH].
  rewrite elem_of_unique_adjacent. rewrite Forall_forall in Hx.
  intros [->|Hin]%elem_of_cons; [done|]. apply Hne, (anti_symm key_le); [apply Hx; by left|].
  apply StronglySorted_cons in Hs as [Hy _]. rewrite Forall_forall in Hy. by apply Hy.
Qed.

(** It depends on the elements only. *)
Lemma sort_unique_elements l : sort_unique l = sorted_elements (list_to_set l).
Proof.
  apply sorted_elements_unique.
  - apply unique_adjacent_NoDup, sort_keys_sorted.
  - apply unique_adjacent_sorted, sort_keys_sorted.
  - intros x. unfold sort_unique. rewrite elem_of_unique_adjacent. unfold sort_keys. rewrite merge_sort_Permutation. set_solver.
Qed.

Lemma sort_unique_stored l : sort_unique (elements (list_to_set (C:=gset K) (sort_unique l))) = sort_unique l.
Proof.
  rewrite !sort_unique_elements. f_equal. apply leibniz_equiv. intros x.
  rewrite !elem_of_list_to_set, elem_of_elements, elem_of_list_to_set, elem_of_sorted_elements, elem_of_list_to_set. done.
Qed.

(** [std::ranges::adjacent_find(v) != v.end()]. *)
Fixpoint has_adjacent (l : list K) : bool :=
  match l with
  | x :: l' => match l' with y :: _ => bool_decide (x = y) || has_adjacent l' | [] => false end
  | [] => false
  end.

Lemma has_adjacent_sorted l : StronglySorted key_le l -> (has_adjacent l = false <-> NoDup l).
Proof.
  induction 1 as [|x l Hs IH Hx]; [split; [constructor|done]|]. destruct l as [|y l].
  { split; [|done]. intros _. apply NoDup_singleton. }
  cbn [has_adjacent]. rewrite orb_false_iff, IH, bool_decide_eq_false, (NoDup_cons x).
  split; [|intros [Hn Hnd]; split; [set_solver|done]].
  intros [Hxy Hnd]. split; [|done]. rewrite elem_of_cons. intros [?|Hin]; [done|].
  apply Hxy, (anti_symm key_le).
  - rewrite Forall_forall in Hx. apply Hx. set_solver.
  - apply StronglySorted_cons in Hs as [Hy _]. rewrite Forall_forall in Hy. by apply Hy.
Qed.
End binary_search.

(** ** Strings as byte sequences *)

Lemma sapp_cons c s t : String c s +:+ t = String c (s +:+ t).
Proof. reflexivity. Qed.

Lemma sapp_nil_l s : "" +:+ s = s.
Proof. reflexivity. Qed.

Lemma sapp_nil_r s : s +:+ "" = s.
Proof. induction s as [|c s IH]; [done|]. by rewrite sapp_cons, IH. Qed.

Lemma sapp_assoc s t u : (s +:+ t) +:+ u = s +:+ t +:+ u.
Proof. induction s as [|c s IH]; [done|]. by rewrite !sapp_cons, IH. Qed.

Lemma slength_app s t : String.length (s +:+ t) = (String.length s + String.length t)%nat.
Proof. induction s as [|c s IH]; [done|]. rewrite sapp_cons. simpl. by rewrite IH. Qed.

(** [std::ranges::any_of] and [std::ranges::all_of] over the octets of a string. *)
Fixpoint any_octet (p : ascii -> bool) (s : string) : bool :=
  match s with "" => false | String c s => p c || any_octet p s end.
Fixpoint all_octets (p : ascii -> bool) (s : string) : bool :=
  match s with "" => true | String c s => p c && all_octets p s end.

(** A control octet: below 0x20 or DEL. *)
Definition control_octet (symbol : ascii) : bool :=
  let byte := Z.of_N (N_of_ascii symbol) in (byte <? 32) || (byte =? 127).

Lemma any_octet_app p a b : any_octet p (a +:+ b) = any_octet p a || any_octet p b.
Proof. induction a as [|c a IH]; [done|]. rewrite sapp_cons. simpl. by rewrite IH, orb_assoc. Qed.

Lemma all_octets_app p a b : all_octets p (a +:+ b) = all_octets p a && all_octets p b.
Proof. induction a as [|c a IH]; [done|]. rewrite sapp_cons. simpl. by rewrite IH, andb_assoc. Qed.

Lemma all_octets_any p s : all_octets p s = negb (any_octet (fun c => negb (p c)) s).
Proof. induction s as [|c s IH]; [done|]. simpl. rewrite IH. by destruct (p c). Qed.

(** The string before the first octet that satisfies [p], and the rest:
    [s.substr(0, i)] and [s.substr(i)] for [i] the result of [find_first_of],
    and the whole string and nothing when there is none. *)
Fixpoint split_first (p : ascii -> bool) (s : string) : string * string :=
  match s with
  | "" => ("", "")
  | String c s' => if p c then ("", s) else let '(a, b) := split_first p s' in (String c a, b)
  end.

Definition starts_with_octet (p : ascii -> bool) (s : string) : bool :=
  match s with "" => false | String c _ => p c end.

Lemma split_first_spec p s a b :
  split_first p s = (a, b) <->
  s = a +:+ b /\ any_octet p a = false /\ (b = "" \/ starts_with_octet p b = true).
Proof.
  revert a b. induction s as [|c s IH]; intros a b; simpl.
  { split; [intros [= <- <-]; auto|]. intros (E & _). destruct a; [by rewrite sapp_nil_l in E; subst|done]. }
  destruct (p c) eqn:Hc.
  - split; [intros [= <- <-]; simpl; auto|]. intros (E & Ha & Hb).
    destruct a as [|c' a]; [by rewrite sapp_nil_l in E; subst|]. rewrite sapp_cons in E.
    injection E as <- _. simpl in Ha. by rewrite Hc in Ha.
  - destruct (split_first p s) as [a' b'] eqn:Hs. split.
    + intros [= <- <-]. destruct (proj1 (IH a' b') eq_refl) as (-> & Ha & Hb).
      rewrite sapp_cons. simpl. by rewrite Hc, Ha.
    + intros (E & Ha & Hb). destruct a as [|c' a].
      { rewrite sapp_nil_l in E. subst b. destruct Hb as [|Hb]; [done|]. simpl in Hb. congruence. }
      rewrite sapp_cons in E. injection E as <- E. simpl in Ha. rewrite Hc in Ha.
      pose proof (proj2 (IH a b) (conj E (conj Ha Hb))). naive_solver.
Qed.

(** The text before and after the last [c]: [s.substr(0, i)] and
    [s.substr(i + 1)] for [i] the result of [rfind]. *)
Fixpoint split_last (c : ascii) (s : string) : option (string * string) :=
  match s with
  | "" => None
  | String d s =>
      match split_last c s with
      | Some (a, b) => Some (String d a, b)
      | None => if bool_decide (d = c) then Some ("", s) else None
      end
  end.

Lemma split_last_none c s : split_last c s = None <-> any_octet (fun d => bool_decide (d = c)) s = false.
Proof.
  induction s as [|d s IH]; simpl; [done|]. rewrite orb_false_iff, <- IH.
  destruct (split_last c s) as [[]|]; [naive_solver|]. case_bool_decide; naive_solver.
Qed.

Lemma split_last_some c s a b :
  split_last c s = Some (a, b) <->
  s = a +:+ String c b /\ any_octet (fun d => bool_decide (d = c)) b = false.
Proof.
  revert a b. induction s as [|d s IH]; intros a b; simpl.
  { split; [done|]. intros [E _]. by destruct a. }
  destruct (split_last c s) as [[a' b']|] eqn:Hs.
  - destruct (proj1 (IH a' b') eq_refl) as [Es Hb']. split.
    + intros [= <- <-]. by rewrite sapp_cons, Es.
    + intros [E Hb]. destruct a as [|d' a].
      * rewrite sapp_nil_l in E. injection E as -> ->.
        apply split_last_none in Hb. congruence.
      * rewrite sapp_cons in E. injection E as <- E.
        pose proof (proj2 (IH a b) (conj E Hb)). naive_solver.
  - case_bool_decide as Hd.
    + subst d. split.
      * intros [= <- <-]. rewrite sapp_nil_l. split; [done|]. by apply split_last_none.
      * intros [E Hb]. destruct a as [|d' a]; [by rewrite sapp_nil_l in E; naive_solver|].
        rewrite sapp_cons in E. injection E as <- E.
        pose proof (proj2 (IH a b) (conj E Hb)). naive_solver.
    + split; [done|]. intros [E Hb]. destruct a as [|d' a]; [rewrite sapp_nil_l in E; naive_solver|].
      rewrite sapp_cons in E. injection E as <- E.
      pose proof (proj2 (IH a b) (conj E Hb)). naive_solver.
Qed.

(** [s.starts_with(prefix)], with what follows. *)
Fixpoint strip_prefix (prefix s : string) : option string :=
  match prefix, s with
  | "", _ => Some s
  | String c prefix, String d s => if bool_decide (c = d) then strip_prefix prefix s else None
  | _, _ => None
  end.

Lemma strip_prefix_some prefix s rest : strip_prefix prefix s = Some rest <-> s = prefix +:+ rest.
Proof.
  revert s. induction prefix as [|c prefix IH]; intros s; cbn [strip_prefix].
  { rewrite sapp_nil_l. naive_solver. }
  rewrite sapp_cons. destruct s as [|d s]; [naive_solver|]. case_bool_decide; [subst; rewrite IH|]; naive_solver.
Qed.

(** [s.starts_with(prefix)]. *)
Definition starts_with (value prefix : string) : bool := bool_decide (is_Some (strip_prefix prefix value)).

(** The fields between the delimiters; one more than there are delimiters. *)
Fixpoint split_on (value : string) (delimiter : ascii) : list string :=
  match value with
  | "" => [""]
  | String symbol rest =>
      if bool_decide (symbol = delimiter) then "" :: split_on rest delimiter
      else match split_on rest delimiter with
           | field :: fields => String symbol field :: fields
           | [] => [String symbol ""]
           end
  end.

Create Rewrite HintDb sapp.
#[export] Hint Rewrite sapp_cons sapp_nil_l sapp_nil_r sapp_assoc : sapp.

Lemma split_on_app a b d :
  any_octet (fun c => bool_decide (c = d)) a = false -> split_on (a +:+ String d b) d = a :: split_on b d.
Proof.
  induction a as [|c a IH]; simpl; autorewrite with sapp; intros Ha.
  - simpl. by rewrite bool_decide_eq_true_2.
  - apply orb_false_iff in Ha as [Hc Ha]. simpl. rewrite Hc. by rewrite IH.
Qed.

Lemma split_on_last a d : any_octet (fun c => bool_decide (c = d)) a = false -> split_on a d = [a].
Proof.
  induction a as [|c a IH]; simpl; intros Ha; [done|]. apply orb_false_iff in Ha as [Hc Ha].
  rewrite Hc. by rewrite IH.
Qed.

(** [s.substr(n, m)] and [s[n]]. *)

Lemma substring_length n m s : (n + m <= String.length s)%nat -> String.length (String.substring n m s) = m.
Proof.
  revert n m. induction s as [|c s IH]; intros n m H; cbn in *.
  - assert (n = 0%nat) as -> by lia. assert (m = 0%nat) as -> by lia. done.
  - destruct n as [|n]; [|cbn in *; apply IH; lia]. destruct m as [|m]; [done|]. cbn. f_equal. apply (IH 0%nat). lia.
Qed.

Lemma get_app a b n : String.get (String.length a + n) (a +:+ b) = String.get n b.
Proof. induction a as [|c a IH]; [done|]. rewrite sapp_cons. exact IH. Qed.

Lemma substring_prefix m a b : String.length a = m -> String.substring 0 m (a +:+ b) = a.
Proof.
  revert m. induction a as [|c a IH]; intros m <-; [by destruct b|]. rewrite sapp_cons. cbn. f_equal. by apply IH.
Qed.

Lemma substring_app a b n m : String.substring (String.length a + n) m (a +:+ b) = String.substring n m b.
Proof. induction a as [|c a IH]; [done|]. rewrite sapp_cons. exact IH. Qed.

(** ** Reachability under a step relation *)

Section steps.
Context {S : Type} (step : S -> S -> Prop).

Inductive steps : S -> S -> Prop :=
| steps_refl s : steps s s
| steps_cons s1 s2 s3 : step s1 s2 -> steps s2 s3 -> steps s1 s3.

Lemma steps_trans s1 s2 s3 : steps s1 s2 -> steps s2 s3 -> steps s1 s3.
Proof. induction 1; eauto using steps. Qed.

Lemma steps_invariant (I : S -> Prop) :
  (forall s s', I s -> step s s' -> I s') ->
  forall s s', steps s s' -> I s -> I s'.
Proof. intros Hstep s s'. induction 1; eauto. Qed.

(** A reflexive and transitive relation that holds of each step holds of
    every sequence of steps. *)
Lemma steps_relation (R : relation S) `{!PreOrder R} :
  (forall s s', step s s' -> R s s') -> forall s s', steps s s' -> R s s'.
Proof.
  intros Hstep s s'. induction 1 as [s|s1 s2 s3 H12 _ IH]; [done|].
  etrans; [by apply Hstep | done].
Qed.
End steps.

#[export] Hint Constructors steps : openproof.

(** ** Counting the operations of a history

    An operation takes what another gave: when every taking operation uses up
    one of the chances that are open, and only giving operations open one, a
    history never takes more than it was given. *)

Section counting.
Context {S O : Type} (step : O -> S -> S).

Fixpoint count_steps (what : O -> S -> bool) (ops : list O) (s : S) : nat :=
  match ops with
  | [] => 0
  | o :: ops => (if what o s then 1 else 0) + count_steps what ops (step o s)
  end.

Lemma taken_within_given (takes gives : O -> S -> bool) (chances : S -> nat) ops s :
  (forall o s, (if takes o s then 1 else 0) + chances (step o s)
               <= (if gives o s then 1 else 0) + chances s)%nat ->
  (count_steps takes ops s <= count_steps gives ops s + chances s)%nat.
Proof.
  intros Hstep. revert s. induction ops as [|o ops IH]; intros s; simpl; [lia|].
  specialize (IH (step o s)). pose proof (Hstep o s). lia.
Qed.

(** The same under an invariant, when a giving operation opens [n] chances. *)
Lemma taken_within_given_times (Inv : S -> Prop) (n : nat) (takes gives : O -> S -> bool) (chances : S -> nat) ops s :
  (forall o s, Inv s -> Inv (step o s) /\
     (if takes o s then 1 else 0) + chances (step o s) <= n * (if gives o s then 1 else 0) + chances s)%nat ->
  Inv s -> (count_steps takes ops s <= n * count_steps gives ops s + chances s)%nat.
Proof.
  intros Hstep. revert s. induction ops as [|o ops IH]; intros s Hs; simpl; [lia|].
  destruct (Hstep o s Hs) as [Hinv Hle]. specialize (IH (step o s) Hinv). lia.
Qed.
End counting.

(** ** Counting the entries of a map *)

Section count_entries.
Context {K V : Type} `{Countable K} (P : V -> Prop) `{!forall x, Decision (P x)}.
Implicit Types m : gmap K V.

Definition count_entries m : nat := base.size (filter (fun p => P p.2) m).

Lemma count_entries_delete m k v :
  m !! k = Some v -> (count_entries (delete k m) + (if decide (P v) then 1 else 0) = count_entries m)%nat.
Proof.
  intros Hk. unfold count_entries. rewrite map_filter_delete. case_decide as Hv.
  - assert (HF : filter (fun p => P p.2) m !! k = Some v) by (by apply map_lookup_filter_Some).
    rewrite <-(insert_delete_id _ _ _ HF) at 2. rewrite map_size_insert_None by apply lookup_delete_eq. lia.
  - rewrite delete_id; [lia|]. apply map_lookup_filter_None. right. naive_solver.
Qed.

Lemma count_entries_insert m k v :
  m !! k = None -> count_entries (<[k := v]> m) = ((if decide (P v) then 1 else 0) + count_entries m)%nat.
Proof.
  intros Hk. pose proof (count_entries_delete (<[k := v]> m) k v (lookup_insert_eq _ _ _)) as Hd.
  rewrite delete_insert_id in Hd by done. lia.
Qed.

Lemma count_entries_replace m k old v :
  m !! k = Some old ->
  (count_entries (<[k := v]> m) + (if decide (P old) then 1 else 0)
   = (if decide (P v) then 1 else 0) + count_entries m)%nat.
Proof.
  intros Hk. pose proof (count_entries_delete m k old Hk) as Hd.
  rewrite <-insert_delete_eq, count_entries_insert by apply lookup_delete_eq. lia.
Qed.

Lemma count_entries_fmap m (g : V -> V) :
  (forall v, P (g v) -> P v) -> (count_entries (g <$> m) <= count_entries m)%nat.
Proof.
  intros Hg. unfold count_entries. rewrite <-(map_size_fmap g (filter (fun p => P p.2) m)).
  apply map_subseteq_size, map_subseteq_spec. intros k v [Hl Hv]%map_lookup_filter_Some.
  rewrite lookup_fmap in *. destruct (m !! k) as [x|] eqn:Hx; [|done]. simpl in *. injection Hl as <-.
  rewrite (proj2 (map_lookup_filter_Some _ _ k x)); [done|]. split; [done|]. by apply Hg.
Qed.
End count_entries.

(** A property that a sequence of moves brought about was brought about by one
    of the moves. *)
Lemma crossing {X C} (move : C -> X -> X) (Q : X -> Prop) `{!forall x, Decision (Q x)} cs x :
  ~ Q x -> Q (foldl (fun x c => move c x) x cs) ->
  exists cs1 c cs2, cs = cs1 ++ c :: cs2 /\
    ~ Q (foldl (fun x c => move c x) x cs1) /\
    Q (move c (foldl (fun x c => move c x) x cs1)).
Proof.
  intros Hx. induction cs as [|c cs IH] using rev_ind; [done|].
  rewrite foldl_app. simpl. intros HQ.
  destruct (decide (Q (foldl (fun x c => move c x) x cs))) as [Hyes|Hno].
  - destruct (IH Hyes) as (cs1 & c1 & cs2 & -> & ? & ?).
    exists cs1, c1, (cs2 ++ [c]). by rewrite <-app_assoc.
  - by exists cs, c, [].
Qed.

(** ** Machine integers *)

(** [std::uint64_t] arithmetic: the value modulo 2^64. *)
Definition u64 (z : Z) : Z := z mod 2 ^ 64.

Lemma u64_small z : 0 <= z < 2 ^ 64 -> u64 z = z.
Proof. apply Z.mod_small. Qed.
