(* ===== verification/Foundation.v ===== *)
(** * openproof.foundation: errors, identifiers, time and JSON output

    Models [src/src/foundation]: the error vocabulary and its two message
    channels ([error.cpp]), the [Result] helpers ([result.cppm]), phantom-typed
    identifiers ([id.cppm]), instants ([time.cppm]) and the JSON writer that
    produces the client error envelope ([json.cpp]). *)
From S2P Require Export Prelude.

(** ** Errors (error.cppm, error.cpp) *)

Inductive ErrorCode :=
| Unknown
| InvalidArgument
| FailedPrecondition
| NotFound
| AlreadyExists
| Conflict
| AuthenticationRequired
| AuthenticationFailed
| PermissionDenied
| AssuranceInsufficient
| RateLimited
| Timeout
| Unavailable
| NotImplemented
| Internal.

#[global] Instance ErrorCode_eq_dec : EqDecision ErrorCode.
Proof. solve_decision. Defined.

Definition errorCodeName (code : ErrorCode) : string :=
  match code with
  | Unknown => "UNKNOWN"
  | InvalidArgument => "INVALID_ARGUMENT"
  | FailedPrecondition => "FAILED_PRECONDITION"
  | NotFound => "NOT_FOUND"
  | AlreadyExists => "ALREADY_EXISTS"
  | Conflict => "CONFLICT"
  | AuthenticationRequired => "AUTHENTICATION_REQUIRED"
  | AuthenticationFailed => "AUTHENTICATION_FAILED"
  | PermissionDenied => "PERMISSION_DENIED"
  | AssuranceInsufficient => "ASSURANCE_INSUFFICIENT"
  | RateLimited => "RATE_LIMITED"
  | Timeout => "TIMEOUT"
  | Unavailable => "UNAVAILABLE"
  | NotImplemented => "NOT_IMPLEMENTED"
  | Internal => "INTERNAL"
  end.

Definition defaultErrorMessage (code : ErrorCode) : string :=
  match code with
  | Unknown => "An unexpected error occurred."
  | InvalidArgument => "The request was not valid."
  | FailedPrecondition => "The request cannot be performed in the current state."
  | NotFound => "The requested resource was not found."
  | AlreadyExists => "The resource already exists."
  | Conflict => "The request conflicts with the current state of the resource."
  | AuthenticationRequired => "Authentication is required."
  | AuthenticationFailed => "Authentication failed."
  | PermissionDenied => "The request was denied."
  | AssuranceInsufficient => "A stronger authentication is required for this operation."
  | RateLimited => "Too many requests."
  | Timeout => "The request timed out."
  | Unavailable => "The service is temporarily unavailable."
  | NotImplemented => "The requested operation is not supported."
  | Internal => "An internal error occurred."
  end.

Definition errorHttpStatus (code : ErrorCode) : Z :=
  match code with
  | InvalidArgument => 400
  | AuthenticationRequired | AuthenticationFailed => 401
  | PermissionDenied | AssuranceInsufficient => 403
  | NotFound => 404
  | Conflict | AlreadyExists => 409
  | FailedPrecondition => 412
  | RateLimited => 429
  | NotImplemented => 501
  | Unavailable => 503
  | Timeout => 504
  | Unknown | Internal => 500
  end.

Record Error := mkError {
  error_code : ErrorCode;
  error_message : string;          (** client-safe channel *)
  error_internalDetail : string;   (** operator-only channel *)
}.

#[global] Instance Error_eq_dec : EqDecision Error.
Proof. solve_decision. Defined.

(** [Error::Error(code)]. *)
Definition Error_ofCode (c : ErrorCode) : Error := mkError c (defaultErrorMessage c) "".

(** [Error::Error(code, message)]. *)
Definition Error_ofMessage (c : ErrorCode) (msg : string) : Error :=
  mkError c (if bool_decide (msg = "") then defaultErrorMessage c else msg) "".

(** [Error::Error(code, message, internalDetail)]. *)
Definition Error_ofDetail (c : ErrorCode) (msg detail : string) : Error :=
  mkError c (if bool_decide (msg = "") then defaultErrorMessage c else msg) detail.

Definition hasInternalDetail (e : Error) : bool := negb (bool_decide (error_internalDetail e = "")).

Definition withInternalDetail (e : Error) (detail : string) : Error :=
  Error_ofDetail (error_code e) (error_message e) detail.

(** [operator==] of [Error]: the operator-only channel is not compared. *)
Definition Error_eqb (left right : Error) : bool :=
  bool_decide (error_code left = error_code right)
  && bool_decide (error_message left = error_message right).

(** ** Result helpers (result.cppm) *)

Abbreviation Result := (result Error).
Abbreviation Status := (result Error unit).

Definition ok : Status := Ok tt.
Definition failCode {A} (c : ErrorCode) : Result A := Err (Error_ofCode c).
Definition fail {A} (c : ErrorCode) (msg : string) : Result A := Err (Error_ofMessage c msg).
Definition failDetail {A} (c : ErrorCode) (msg detail : string) : Result A :=
  Err (Error_ofDetail c msg detail).

(** [foundation::requireInvariant] (invariant.cpp): aborts the process. *)
Definition requireInvariant (condition : bool) : Status := if condition then Ok tt else Aborted.

(** ** Identifiers (id.cppm) *)

(** [StrongId<Tag>]: the tag makes identifiers of different kinds different
    types; the value is an opaque byte string. *)
Record StrongId (Tag : Type) := mkId { id_value : string }.
Arguments mkId {Tag} id_value.
Arguments id_value {Tag} _.

#[global] Instance StrongId_eq_dec Tag : EqDecision (StrongId Tag).
Proof. solve_decision. Defined.

#[global] Program Instance StrongId_countable Tag : Countable (StrongId Tag) :=
  inj_countable' id_value mkId _.
Next Obligation. by intros ? []. Qed.

Definition id_empty {Tag} (i : StrongId Tag) : bool := bool_decide (id_value i = "").

Lemma mkId_value {Tag} (i : StrongId Tag) : mkId (id_value i) = i.
Proof. by destruct i. Qed.

Lemma id_value_inj {Tag} (i j : StrongId Tag) : id_value i = id_value j -> i = j.
Proof. destruct i, j. simpl. congruence. Qed.

Definition id_le {Tag} (i j : StrongId Tag) : Prop := String.le (id_value i) (id_value j).

#[global] Program Instance StrongId_key_order Tag : KeyOrder (StrongId Tag) :=
  {| key_le := id_le |}.
Next Obligation. intros Tag i j. unfold id_le. apply _. Defined.
Next Obligation.
  intros Tag. split; [split|]; unfold id_le.
  - intros i. done.
  - intros i j k ??. by etrans.
  - intros i j ??. apply id_value_inj. by apply (anti_symm String.le).
Qed.
Next Obligation. intros Tag i j. apply (total String.le (id_value i) (id_value j)). Qed.

Inductive RequestIdTag := .
Inductive CorrelationIdTag := .
Abbreviation RequestId := (StrongId RequestIdTag).
Abbreviation CorrelationId := (StrongId CorrelationIdTag).

(** ** Time (time.cppm)

    [Instant] and [Duration] are signed 64-bit millisecond counts. *)
Abbreviation Instant := Z.
Abbreviation Duration := Z.
Definition milliseconds (n : Z) : Duration := n.
Definition seconds (n : Z) : Duration := n * 1000.
Definition minutes (n : Z) : Duration := n * 60000.
