(* ===== verification/Database.v ===== *)
(** * openproof.storage.postgres: connections, requests and transactions

    Models the helpers of [src/src/storage/postgres/postgres.cpp] that the
    repositories share: the mapping of a failed statement to an error, the pool
    of connections, and transactions. The server and its client library are not
    part of the repository. What goes wrong with a request is the class
    [Database]; the tables are the state of the repository that uses them, and
    each statement is a step on them, which the repository's file writes out
    from the SQL text. *)
From S2P Require Import Prelude Foundation.

(** ** Failures *)

(** The SQLSTATE of a failed statement; [None] when there is no result. *)
Definition databaseError (state : option string) (operation : string) : Error :=
  let detail := operation +:+ " failed" +:+
    match state with None => "." | Some state => " (SQLSTATE " +:+ state +:+ ")." end in
  let code :=
    match state with
    | Some state =>
        if bool_decide (state = "23505") then AlreadyExists
        else if bool_decide (state = "23503") || bool_decide (state = "23514") then FailedPrecondition
        else if bool_decide (state = "40001") then Conflict
        else Unavailable
    | None => Unavailable
    end in
  Error_ofDetail code (defaultErrorMessage code) detail.

Definition authenticationFailure (detail : string) : Error :=
  Error_ofDetail AuthenticationFailed (defaultErrorMessage AuthenticationFailed) detail.

Definition unique_violation : option string := Some "23505".
Definition foreign_key_violation : option string := Some "23503".
Definition check_violation : option string := Some "23514".

(** ** Rows

    [UPDATE ... SET ... WHERE ...] on the rows of a table: the rows that match
    are changed, and [RETURNING] or the number of rows speaks of those. *)

Section rows.
Context `{Countable K} {V : Type}.
Implicit Types (m : gmap K V) (p : V -> bool) (f : V -> V).

Definition matching p m : list V := filter (fun v => p v = true) (map_to_list m).*2.
Definition change_rows p f m : gmap K V := (fun v => if p v then f v else v) <$> m.

Lemma elem_of_matching p m v : v ∈ matching p m <-> p v = true /\ exists k, m !! k = Some v.
Proof.
  unfold matching. rewrite list_elem_of_filter, list_elem_of_fmap. split.
  - intros [Hp ([k x] & -> & Hin)]. split; [done|]. exists k. by apply elem_of_map_to_list.
  - intros [Hp [k Hk]]. split; [done|]. exists (k, v). split; [done|]. by apply elem_of_map_to_list.
Qed.

Lemma lookup_change_rows p f m k : change_rows p f m !! k = (fun v => if p v then f v else v) <$> m !! k.
Proof. apply lookup_fmap. Qed.

(** No row matches. *)
Lemma change_rows_none p f m :
  (forall k v, m !! k = Some v -> p v = false) -> matching p m = [] /\ change_rows p f m = m.
Proof.
  intros Hnone. split.
  - destruct (matching p m) as [|v l] eqn:E; [done|]. exfalso.
    assert (v ∈ matching p m) as [Hp [k Hk]]%elem_of_matching by (rewrite E; by left).
    by rewrite (Hnone k v Hk) in Hp.
  - apply map_eq. intros k. rewrite lookup_change_rows. destruct (m !! k) as [v|] eqn:Hk; [|done].
    cbn. by rewrite (Hnone k v Hk).
Qed.

(** One row matches. *)
Lemma change_rows_one p f m k v :
  m !! k = Some v -> p v = true -> (forall k' v', m !! k' = Some v' -> p v' = true -> k' = k) ->
  matching p m = [v] /\ change_rows p f m = <[k := f v]> m.
Proof.
  intros Hk Hp Hone. split.
  - unfold matching. apply Permutation_singleton_r. rewrite <- (insert_delete_id m k v Hk) at 1.
    rewrite map_to_list_insert by apply lookup_delete_eq. rewrite fmap_cons, filter_cons_True by done.
    destruct (change_rows_none p f (delete k m)) as [E _]; [|unfold matching in E; by rewrite E].
    intros k' v' [Hne Hk']%lookup_delete_Some. destruct (p v') eqn:Hp'; [|done]. by destruct Hne; rewrite (Hone k' v').
  - apply map_eq. intros k'. rewrite lookup_change_rows, lookup_insert. case_decide as E.
    + subst k'. rewrite Hk. cbn. by rewrite Hp.
    + destruct (m !! k') as [v'|] eqn:Hk'; [|done]. cbn. destruct (p v') eqn:Hp'; [|done].
      by destruct E; rewrite (Hone k' v').
Qed.

End rows.

(** [INSERT INTO ...]: a row is checked, then held against the keys of its table,
    then against the rows it refers to. *)
Definition insertRow {T} (operation : string) (checked unique referenced : bool) (put : T -> T) : prog T Error unit :=
  fun t =>
    if negb checked then (Err (databaseError check_violation operation), t)
    else if negb unique then (Err (databaseError unique_violation operation), t)
    else if negb referenced then (Err (databaseError foreign_key_violation operation), t)
    else (ok, put t).

Lemma insertRow_ok {T} operation checked unique referenced (put : T -> T) t b t' :
  insertRow operation checked unique referenced put t = (Ok b, t') ->
  checked = true /\ unique = true /\ referenced = true /\ t' = put t.
Proof. unfold insertRow. destruct checked, unique, referenced; cbn; by intros [=]. Qed.

Lemma raises_insertRow {T} (P : Error -> Prop) operation checked unique referenced (put : T -> T) :
  (forall state, P (databaseError state operation)) -> raises P (insertRow operation checked unique referenced put).
Proof.
  intros Hp t e t'. unfold insertRow. destruct checked, unique, referenced; cbn; by intros [= <- <-].
Qed.

(** ** The pool *)

Module PoolConfig.
Record t := mk { m_connectionString : string; m_connections : nat; m_acquireTimeout : Duration }.

Definition create (connectionString : string) (connections : nat) (acquireTimeout : Duration) : Result t :=
  if bool_decide (connectionString = "") || (connections =? 0)%nat || (256 <? connections)%nat
     || (acquireTimeout <=? 0) then
    fail InvalidArgument "The PostgreSQL pool configuration is invalid."
  else Ok (mk connectionString connections acquireTimeout).
End PoolConfig.

(** [ConnectionPool::Implementation]. A connection is its position in
    [m_connections]; the vector of the connections at rest is a list whose last
    element is its back. *)
Module ConnectionPool.
Record t := mk { m_size : nat; m_available : list nat }.

(** [connects index]: whether [PQconnectdb] gives a usable connection. *)
Fixpoint connectAll (connects : nat -> bool) (indices : list nat) (available : list nat) : Result (list nat) :=
  match indices with
  | [] => Ok available
  | index :: indices =>
      if negb (connects index) then
        failDetail Unavailable "The PostgreSQL database is unavailable."
          "A PostgreSQL pool connection could not be established."
      else connectAll connects indices (available ++ [index])
  end.

Definition create (connects : nat -> bool) (config : PoolConfig.t) : Result t :=
  available ← connectAll connects (seq 0 (PoolConfig.m_connections config)) [];
  Ok (mk (PoolConfig.m_connections config) available).

(** A lease, or the end of the wait when no connection comes back in time. *)
Definition acquire : prog t Error nat := fun pool =>
  match last (m_available pool) with
  | None => (fail Timeout "Timed out waiting for a database connection.", pool)
  | Some connection => (Ok connection, mk (m_size pool) (removelast (m_available pool)))
  end.

(** The end of a lease. [status] is [PQstatus] once the open transaction, if
    any, is rolled back, and [reset] is what it is after [PQreset]. *)
Definition release (connection : nat) (status reset : bool) (pool : t) : t :=
  if negb status && negb reset then pool
  else mk (m_size pool) (m_available pool ++ [connection]).

(** *** Exclusive leases *)

(** The pool and the connections on lease. *)
Record leases := mkLeases { pool : t; leased : list nat }.

Inductive lease_op := Acquire | Release (connection : nat) (status reset : bool).

(** A connection comes back from the lease it is on. *)
Definition lease_step (o : lease_op) (s : leases) : leases :=
  match o with
  | Acquire =>
      match acquire (pool s) with
      | (Ok connection, pool) => mkLeases pool (connection :: leased s)
      | (_, pool) => mkLeases pool (leased s)
      end
  | Release connection status reset =>
      if bool_decide (connection ∈ leased s) then
        mkLeases (release connection status reset (pool s)) (filter (fun x => x <> connection) (leased s))
      else s
  end.

Definition exclusive (s : leases) : Prop :=
  NoDup (m_available (pool s) ++ leased s) /\
  forall c, c ∈ m_available (pool s) ++ leased s -> (c < m_size (pool s))%nat.

Lemma connectAll_ok connects indices available result :
  connectAll connects indices available = Ok result -> result = available ++ indices.
Proof.
  revert available. induction indices as [|i rest IH]; intros available; cbn [connectAll].
  - intros [= <-]. by rewrite app_nil_r.
  - intros H. branch H Hc; [done|]. apply IH in H. by rewrite H, <- app_assoc.
Qed.

Lemma lease_step_exclusive o s : exclusive s -> exclusive (lease_step o s).
Proof.
  intros [Hnd Hlt]. destruct s as [[size available] leased], o as [|c status reset]; unfold exclusive; cbn in *.
  - unfold acquire. cbn. destruct (last available) as [c|] eqn:Hlast; cbn; [|done].
    assert (available ++ leased ≡ₚ removelast available ++ c :: leased) as Hp.
    { induction available as [|x l _] using rev_ind; [done|].
      rewrite last_snoc in Hlast. injection Hlast as ->. rewrite removelast_last.
      by rewrite <- app_assoc. }
    rewrite Hp in Hnd. split; [done|]. intros x. cbn. rewrite <- Hp. apply Hlt.
  - case_bool_decide as Hin; [|done]. cbn. unfold release. cbn.
    assert (forall l : list nat, (forall x, x ∈ l -> x ∈ available ++ leased) -> forall x, x ∈ l -> (x < size)%nat) as Hsub.
    { intros l Hl x Hx. by apply Hlt, Hl. }
    apply NoDup_app in Hnd as (Hav & Hdis & Hle).
    destruct (negb status && negb reset); unfold exclusive; cbn; split.
    + apply NoDup_app. split_and!; [done| |by apply NoDup_filter].
      intros x Hx [_ ?]%list_elem_of_filter. by eapply Hdis.
    + apply Hsub. intros x [Hx | [_ Hx]%list_elem_of_filter]%elem_of_app; apply elem_of_app; tauto.
    + rewrite <- app_assoc. apply NoDup_app. split_and!; [done| |].
      * intros x Hx [-> | [_ ?]%list_elem_of_filter]%elem_of_cons; by eapply Hdis.
      * cbn. apply NoDup_cons. split; [|by apply NoDup_filter]. by intros [? _]%list_elem_of_filter.
    + apply Hsub. intros x. rewrite <- app_assoc.
      intros [Hx | [-> | [_ Hx]%list_elem_of_filter]%elem_of_cons]%elem_of_app; apply elem_of_app; tauto.
Qed.

(** No connection is ever on two leases. A pool that was created has all its
    connections at rest; after any sequence of acquisitions and releases, no
    connection is on lease twice, none is on lease and at rest, and there are
    never more leases than the configuration allows. *)
Theorem leases_are_exclusive connects config start os :
  create connects config = Ok start ->
  let s := foldl (fun s o => lease_step o s) (mkLeases start []) os in
  NoDup (leased s) /\ (forall c, c ∈ leased s -> c ∉ m_available (pool s)) /\
  (length (leased s) <= PoolConfig.m_connections config)%nat.
Proof.
  intros Hcreate. assert (exclusive (mkLeases start []) /\ m_size start = PoolConfig.m_connections config) as [Hstart Hsize].
  { unfold create in Hcreate. destruct (connectAll _ _ _) as [l| |] eqn:Hc; [|done|done]. injection Hcreate as <-.
    apply connectAll_ok in Hc as ->. split; [|done]. split; cbn; rewrite app_nil_r.
    - apply NoDup_seq.
    - intros c Hc%elem_of_seq. lia. }
  assert (forall o s, m_size (pool (lease_step o s)) = m_size (pool s)) as Hkeep.
  { intros [|c status reset] [[size av] l]; cbn.
    - unfold acquire. cbn. by destruct (last av).
    - case_bool_decide; [|done]. unfold release. by destruct (_ && _). }
  rewrite <- Hsize. clear Hcreate Hsize. intros s.
  assert (exclusive s /\ m_size (pool s) = m_size start) as [[Hnd Hlt] Hsz].
  { unfold s. clear s. change (m_size start) with (m_size (pool (mkLeases start []))).
    revert Hstart. generalize (mkLeases start []). induction os as [|o os IH]; intros s Hs; cbn [foldl]; [done|].
    destruct (IH (lease_step o s)) as [? E]; [by apply lease_step_exclusive|]. by rewrite E, Hkeep. }
  clearbody s. apply NoDup_app in Hnd as (? & Hdis & Hle). split; [done|]. split.
  - intros c Hc Hav. by eapply Hdis.
  - rewrite <- (length_seq (m_size start) 0). apply submseteq_length, NoDup_submseteq; [done|].
    intros c Hc. apply elem_of_seq. rewrite <- Hsz. split; [lia|]. apply Hlt, elem_of_app. by right.
Qed.

Definition two_connections : PoolConfig.t := PoolConfig.mk "host=db" 2 5000.
Definition rested : t := mk 2 [0; 1]%nat.

Lemma leases_are_exclusive_witness :
  leased (foldl (fun s o => lease_step o s) (mkLeases rested [])
    [Acquire; Acquire; Acquire; Release 1 true true; Acquire]) = [1; 0]%nat /\ NoDup [1; 0]%nat.
Proof.
  split; [reflexivity|].
  apply (leases_are_exclusive (fun _ => true) two_connections rested
    [Acquire; Acquire; Acquire; Release 1 true true; Acquire]). reflexivity.
Defined.

(** A connection whose reset fails never returns: after an outage during which
    both leases end, the pool has none left, whatever becomes of the server. *)
Example an_outage_empties_the_pool :
  let s := foldl (fun s o => lease_step o s) (mkLeases rested [])
    [Acquire; Acquire; Release 1 false false; Release 0 false false] in
  leased s = [] /\ acquire (pool s) = (fail Timeout "Timed out waiting for a database connection.", pool s).
Proof. split; reflexivity. Qed.
End ConnectionPool.

(** ** Requests and transactions *)

(** What the network and the server do to the requests of a run, by their
    number: [db_busy] leaves one without a connection in time, and [db_fault]
    fails it with a SQLSTATE, or with none when the connection is lost. A
    failure that is a consequence of the tables, such as a violated constraint,
    is part of the statement instead. *)
Class Database := {
  db_busy : Z -> bool;
  db_fault : Z -> option (option string);
}.

(** The tables; the last value drawn from the identity column of the audit
    table, which a rollback does not return; the requests made so far; and the
    platform of the process. *)
Record database (T W : Type) := mkDatabase {
  db_tables : T;
  db_sequence : Z;
  db_requests : Z;
  db_world : W;
}.
Arguments mkDatabase {T W}.
Arguments db_tables {T W}.
Arguments db_sequence {T W}.
Arguments db_requests {T W}.
Arguments db_world {T W}.

Section database.
Context `{Db : Database} {T W : Type}.
Abbreviation state := (database T W).
Abbreviation session B := (prog state Error B).
Implicit Types s : state.

Definition with_tables (t : T) s : state := mkDatabase t (db_sequence s) (db_requests s) (db_world s).
Definition count_request s : state := mkDatabase (db_tables s) (db_sequence s) (db_requests s + 1) (db_world s).

Definition on_tables {B} (m : prog T Error B) : session B := zoom db_tables with_tables m.
Definition on_platform {B} (m : prog W Error B) : session B :=
  zoom db_world (fun w s => mkDatabase (db_tables s) (db_sequence s) (db_requests s) w) m.

(** A statement that is sent: it fails where the server fails it. *)
Definition request {B} (operation : string) (m : session B) : session B := fun s =>
  match db_fault (db_requests s) with
  | Some sqlstate => (Err (databaseError sqlstate operation), count_request s)
  | None => m (count_request s)
  end.

Definition execute {B} (operation : string) (m : prog T Error B) : session B := request operation (on_tables m).
Definition select {B} (operation : string) (f : T -> B) : session B := execute operation (fun t => (Ok (f t), t)).

(** [m_pool->m_implementation->acquire()], with its lease returned when the
    function ends. *)
Definition lease : session unit := fun s =>
  if db_busy (db_requests s) then (fail Timeout "Timed out waiting for a database connection.", count_request s)
  else (ok, count_request s).

(** The next value of the identity column. *)
Definition nextval : session Z := fun s =>
  let n := db_sequence s + 1 in (Ok n, mkDatabase (db_tables s) n (db_requests s) (db_world s)).

(** [commit], or the tables as they were: whatever fails, the transaction is
    rolled back, by the handler or when the lease ends. *)
Definition atomically {B} (body : session B) : session B := fun s =>
  match body s with
  | (Ok value, s') => (Ok value, s')
  | (r, s') => (r, with_tables (db_tables s) s')
  end.

Definition begin : session unit := request "BEGIN" (mret tt).
Definition commit : session unit := request "COMMIT" (mret tt).

(** [beginTransaction], the statements and [commit]. *)
Definition transaction {B} (body : session B) : session B :=
  _ ← lease;
  _ ← begin;
  atomically (value ← body; _ ← commit; mret value).

(** The number of rows, or zero when a request fails. *)
Definition counted (m : session nat) : state -> nat * state := fun s =>
  match m s with (Ok n, s) => (n, s) | (_, s) => (0%nat, s) end.

Lemma counted_state (m : session nat) s : (counted m s).2 = (m s).2.
Proof. unfold counted. by destruct (m s) as [[]]. Qed.

(** *** Their runs *)

Lemma request_ok {B} operation (m : session B) s b s' :
  request operation m s = (Ok b, s') -> m (count_request s) = (Ok b, s').
Proof. unfold request. by destruct (db_fault _). Qed.

Lemma execute_ok {B} operation (m : prog T Error B) s b s' :
  execute operation m s = (Ok b, s') -> exists t, m (db_tables s) = (Ok b, t) /\ s' = with_tables t (count_request s).
Proof. intros (t & Hm & ->)%request_ok%zoom_eq. by exists t. Qed.

Lemma select_ok {B} operation (f : T -> B) s b s' :
  select operation f s = (Ok b, s') -> b = f (db_tables s) /\ s' = count_request s.
Proof. intros (t & [= <- <-] & ->)%execute_ok. by destruct s. Qed.

Lemma on_platform_ok {B} (m : prog W Error B) s b s' :
  on_platform m s = (Ok b, s') -> db_tables s' = db_tables s /\ db_sequence s' = db_sequence s.
Proof. by intros (w & _ & ->)%zoom_eq. Qed.

(** A transaction that succeeds leaves what its statements made of the tables,
    from the tables it found; one that does not leaves the tables it found. *)
Lemma transaction_ok {B} (body : session B) s b s' :
  transaction body s = (Ok b, s') ->
  exists s1 s2, db_tables s1 = db_tables s /\ db_sequence s1 = db_sequence s /\
    body s1 = (Ok b, s2) /\ db_tables s' = db_tables s2 /\ db_sequence s' = db_sequence s2.
Proof.
  unfold transaction. intros (? & s0 & Hl & (? & s1 & Hb & H)%prog_bind_ok)%prog_bind_ok.
  apply request_ok in Hb. injection Hb as <- <-. unfold lease in Hl. branch Hl Hbusy; [done|]. injection Hl as <- <-.
  unfold atomically in H. destruct ((value ← body; _) _) as [[b'|e|] s2] eqn:Hrun; [|done|done]. injection H as -> <-.
  apply prog_bind_ok in Hrun as (b' & s3 & Hbody & (? & s4 & Hc & [= -> <-])%prog_bind_ok).
  apply request_ok in Hc. injection Hc as <- <-. eexists _, s3. split_and!; [| |exact Hbody|done|done]; done.
Qed.

Lemma transaction_not_ok {B} (body : session B) s r s' :
  transaction body s = (r, s') -> is_ok r = false -> db_tables s' = db_tables s.
Proof.
  unfold transaction. intros [(? & s0 & Hl & H) | (_ & _ & ->)]%prog_bind_inv Hr.
  - assert (db_tables s0 = db_tables s) as <-.
    { unfold lease in Hl. branch Hl Hbusy; by simplify_eq/=. }
    apply prog_bind_inv in H as [(? & s1 & Hb & H) | (_ & _ & ->)].
    + apply request_ok in Hb. injection Hb as <- <-. unfold atomically in H.
      by destruct ((value ← body; _) _) as [[b'|e|] s2]; simplify_eq/=.
    + unfold begin, request. by destruct (db_fault _).
  - unfold lease. by destruct (db_busy _).
Qed.

(** *** Their failures *)

Lemma raises_request (P : Error -> Prop) {B} operation (m : session B) :
  (forall state, P (databaseError state operation)) -> raises P m -> raises P (request operation m).
Proof. intros Hp Hm s e s'. unfold request. destruct (db_fault _); [by intros [= <- <-]|apply Hm]. Qed.

Lemma raises_tables (P : Error -> Prop) {B} (m : prog T Error B) : raises P m -> raises P (on_tables m).
Proof. intros Hm s e s' (t & H & _)%zoom_eq. by eapply Hm. Qed.

Lemma raises_execute (P : Error -> Prop) {B} operation (m : prog T Error B) :
  (forall state, P (databaseError state operation)) -> raises P m -> raises P (execute operation m).
Proof. intros Hp Hm. by apply raises_request, raises_tables. Qed.

Lemma raises_select (P : Error -> Prop) {B} operation (f : T -> B) :
  (forall state, P (databaseError state operation)) -> raises P (select operation f).
Proof. intros Hp. apply raises_execute; [done|]. by intros t e t'. Qed.

Lemma raises_transaction (P : Error -> Prop) {B} (body : session B) :
  P (Error_ofMessage Timeout "Timed out waiting for a database connection.") ->
  (forall state, P (databaseError state "BEGIN")) -> (forall state, P (databaseError state "COMMIT")) ->
  raises P body -> raises P (transaction body).
Proof.
  intros Hbusy Hbegin Hcommit Hbody. unfold transaction. apply raises_bind.
  { intros s e s'. unfold lease. destruct (db_busy _); [by intros [= <- <-]|done]. }
  intros _. apply raises_bind; [apply raises_request; [done|apply raises_ret]|intros _].
  intros s e s'. unfold atomically. destruct ((value ← body; _) s) as [[b|e0|] s1] eqn:Hrun; [done| |done].
  intros [= <- <-]. revert Hrun. apply (raises_bind P); [done|]. intros b. apply raises_bind; [|intros _; apply raises_ret].
  apply raises_request; [done|apply raises_ret].
Qed.

(** A failed request is never a refusal to authenticate. *)
Lemma databaseError_code state operation : error_code (databaseError state operation) <> AuthenticationFailed.
Proof. unfold databaseError. destruct state; [|done]. by repeat case_match. Qed.

(** *** What a session that succeeds makes of the tables

    The weakest precondition of a session, from the tables [t]: whenever it
    succeeds, its value and the tables it leaves satisfy [Q]. *)

Definition yields {B} (m : session B) (t : T) (Q : B -> T -> Prop) : Prop :=
  forall s b s', db_tables s = t -> m s = (Ok b, s') -> Q b (db_tables s').

Implicit Types (t : T).

Lemma yields_ret {B} (b : B) t (Q : B -> T -> Prop) : Q b t -> yields (mret b) t Q.
Proof. intros HQ s b' s' <- [= <- <-]. done. Qed.

Lemma yields_throw {B} e t (Q : B -> T -> Prop) : yields (throw e) t Q.
Proof. by intros s b s' _ [=]. Qed.

Lemma yields_lift {B} (r : Result B) t (Q : B -> T -> Prop) : (forall b, r = Ok b -> Q b t) -> yields (lift r) t Q.
Proof. intros HQ s b s' <- [Hr ->]%lift_ok. by apply HQ. Qed.

Lemma yields_bind {B C} (m : session B) (k : B -> session C) t (Q : C -> T -> Prop) :
  yields m t (fun b t' => yields (k b) t' Q) -> yields (m ≫= k) t Q.
Proof. intros Hm s c s' Ht (b & s1 & H1 & H2)%prog_bind_ok. exact (Hm _ _ _ Ht H1 _ _ _ eq_refl H2). Qed.

Lemma yields_mono {B} (m : session B) t (Q Q' : B -> T -> Prop) :
  yields m t Q -> (forall b t', Q b t' -> Q' b t') -> yields m t Q'.
Proof. intros Hm HQ s b s' Ht H. eapply HQ, Hm; done. Qed.

Lemma yields_lease t (Q : unit -> T -> Prop) : Q tt t -> yields lease t Q.
Proof. intros HQ s [] s' <- H. unfold lease in H. destruct (db_busy _); [done|]. by injection H as <-. Qed.

Lemma yields_execute {B} operation (m : prog T Error B) t (Q : B -> T -> Prop) :
  (forall b t', m t = (Ok b, t') -> Q b t') -> yields (execute operation m) t Q.
Proof. intros HQ s b s' <- (t' & Hm & ->)%execute_ok. by apply HQ. Qed.

Lemma yields_select {B} operation (f : T -> B) t (Q : B -> T -> Prop) : Q (f t) t -> yields (select operation f) t Q.
Proof. intros HQ s b s' <- [-> ->]%select_ok. done. Qed.

Lemma yields_attempt {B} (m : session B) t (Q : Result B -> T -> Prop) :
  yields m t (fun b => Q (Ok b)) -> (forall e t', Q (Err e) t') -> yields (attempt m) t Q.
Proof.
  intros Hm He s r s' Ht Hrun. pose proof (attempt_ok _ _ _ _ Hrun) as H. unfold attempt in Hrun. rewrite H in Hrun.
  destruct r as [b|e|]; [exact (Hm _ _ _ Ht H)|done|done].
Qed.

Lemma yields_transaction {B} (body : session B) t (Q : B -> T -> Prop) : yields body t Q -> yields (transaction body) t Q.
Proof.
  intros Hbody s b s' <- (s1 & s2 & E1 & _ & Hb & -> & _)%transaction_ok. exact (Hbody _ _ _ E1 Hb).
Qed.

(** A transaction does all of it, or nothing. *)
Lemma transaction_effect {B} (body : session B) s (Q : B -> T -> Prop) :
  yields body (db_tables s) Q ->
  (exists b, (transaction body s).1 = Ok b /\ Q b (db_tables (transaction body s).2)) \/
  (is_ok (transaction body s).1 = false /\ db_tables (transaction body s).2 = db_tables s).
Proof.
  intros Hbody. destruct (transaction body s) as [r s'] eqn:Hrun. cbn. destruct (is_ok r) eqn:Hr.
  - left. destruct r as [b| |]; [|done|done]. exists b. split; [done|]. exact (yields_transaction _ _ _ Hbody _ _ _ eq_refl Hrun).
  - right. split; [done|]. by eapply transaction_not_ok.
Qed.

(** *** What every run keeps *)

(** The tables move along [R], whatever the outcome. *)
Definition tables_along (R : relation T) : relation state := fun s s' => R (db_tables s) (db_tables s').

#[global] Instance tables_along_preorder (R : relation T) `{!PreOrder R} : PreOrder (tables_along R).
Proof. split; [intros s; unfold tables_along; reflexivity|]. intros s1 s2 s3. unfold tables_along. by etrans. Qed.

Section along.
Context (R : relation T) `{!PreOrder R}.

Lemma along_still {B} (m : session B) : (forall s, db_tables (m s).2 = db_tables s) -> advances (tables_along R) m.
Proof. intros Hm s. unfold tables_along. by rewrite Hm. Qed.

Lemma along_platform {B} (m : prog W Error B) : advances (tables_along R) (on_platform m).
Proof. apply along_still. intros s. unfold on_platform, zoom. by destruct (m _). Qed.

Lemma along_request {B} operation (m : session B) :
  advances (tables_along R) m -> advances (tables_along R) (request operation m).
Proof.
  intros Hm s. unfold request. destruct (db_fault _); [unfold tables_along; reflexivity|apply (Hm (count_request s))].
Qed.

Lemma along_tables {B} (m : prog T Error B) :
  (forall t, R t (m t).2) -> advances (tables_along R) (on_tables m).
Proof.
  intros Hm s. unfold on_tables, zoom, tables_along. specialize (Hm (db_tables s)). by destruct (m (db_tables s)).
Qed.

Lemma along_execute {B} operation (m : prog T Error B) :
  (forall t, R t (m t).2) -> advances (tables_along R) (execute operation m).
Proof. intros Hm. by apply along_request, along_tables. Qed.

Lemma along_select {B} operation (f : T -> B) : advances (tables_along R) (select operation f).
Proof. apply along_execute. intros t. cbn. reflexivity. Qed.

(** A transaction moves the tables as its statements do, or not at all. *)
Lemma along_transaction {B} (body : session B) :
  advances (tables_along R) body -> advances (tables_along R) (transaction body).
Proof.
  intros Hbody s. destruct (transaction body s) as [r s'] eqn:Hrun. unfold tables_along; cbn.
  destruct (is_ok r) eqn:Hr.
  - destruct r as [b| |]; [|done|done]. apply transaction_ok in Hrun as (s1 & s2 & E1 & _ & Hb & E2 & _).
    specialize (Hbody s1). rewrite Hb in Hbody. unfold tables_along in Hbody. cbn in Hbody. by rewrite E2, <- E1.
  - apply transaction_not_ok in Hrun; [|done]. by rewrite Hrun.
Qed.
End along.

(** The identity column only moves up. *)
Definition climbs : relation state := fun s s' => db_sequence s <= db_sequence s'.

#[global] Instance climbs_preorder : PreOrder climbs.
Proof. split; [intros s; unfold climbs; lia|]. intros s1 s2 s3. unfold climbs. lia. Qed.

Lemma climbs_still {B} (m : session B) : (forall s, db_sequence (m s).2 = db_sequence s) -> advances climbs m.
Proof. intros Hm s. unfold climbs. rewrite Hm. lia. Qed.

Lemma climbs_nextval : advances climbs nextval.
Proof. intros s. unfold climbs. cbn. lia. Qed.

Lemma climbs_request {B} operation (m : session B) : advances climbs m -> advances climbs (request operation m).
Proof. intros Hm s. unfold request. destruct (db_fault _); [unfold climbs; cbn; lia|apply (Hm (count_request s))]. Qed.

Lemma climbs_platform {B} (m : prog W Error B) : advances climbs (on_platform m).
Proof. apply climbs_still. intros s. unfold on_platform, zoom. by destruct (m _). Qed.

Lemma climbs_tables {B} (m : prog T Error B) : advances climbs (on_tables m).
Proof. apply climbs_still. intros s. unfold on_tables, zoom. by destruct (m _). Qed.

Lemma climbs_transaction {B} (body : session B) : advances climbs body -> advances climbs (transaction body).
Proof.
  intros Hbody. unfold transaction. apply advances_bind; [exact _| |intros _].
  { apply climbs_still. intros s. unfold lease. by destruct (db_busy _). }
  apply advances_bind; [exact _|by apply climbs_request, climbs_still|intros _].
  assert (advances climbs (value ← body; _ ← commit; mret value)) as Hall.
  { apply advances_bind; [exact _|done|intros value]. apply advances_bind; [exact _|by apply climbs_request, climbs_still|].
    intros _. by apply climbs_still. }
  intros s. specialize (Hall s). unfold atomically. by destruct ((value ← body; _) s) as [[] ?].
Qed.
End database.

(** The same walk for the identity column. *)
Ltac climb :=
  repeat first
  [ match goal with
    | |- forall _, advances _ _ => intros ?
    | |- advances _ (transaction _) => apply climbs_transaction
    | |- advances _ (_ ≫= _) => apply advances_bind; [exact _| |]
    | |- advances _ (select _ _) => unfold select
    | |- advances _ (execute _ _) => unfold execute
    | |- advances _ (request _ _) => apply climbs_request
    | |- advances _ (on_platform _) => apply climbs_platform
    | |- advances _ (on_tables _) => apply climbs_tables
    | |- advances _ nextval => apply climbs_nextval
    | |- advances _ (throw _) => by apply climbs_still
    | |- advances _ (mret _) => by apply climbs_still
    | |- advances _ (lift _) => by apply climbs_still
    | |- advances _ (if ?c then _ else _) => destruct c
    | |- advances _ (match ?x with _ => _ end) => destruct x
    end
  | progress cbn zeta ].

(** Walks through a session, one construct at a time, to its statements. *)
Ltac stride :=
  repeat first
  [ match goal with
    | |- forall _, advances _ _ => intros ?
    | |- advances _ (transaction _) => apply along_transaction; [exact _|]
    | |- advances _ (_ ≫= _) => apply advances_bind; [exact _| |]
    | |- advances _ (select _ _) => apply along_select; exact _
    | |- advances _ (execute _ _) => apply along_execute; [exact _|]; intros ?
    | |- advances _ (request _ _) => apply along_request; [exact _|]
    | |- advances _ (on_platform _) => apply along_platform; exact _
    | |- advances _ (on_tables _) => apply along_tables; intros ?
    | |- advances _ nextval => apply along_still; [exact _|done]
    | |- advances _ (throw _) => apply along_still; [exact _|done]
    | |- advances _ (mret _) => apply along_still; [exact _|done]
    | |- advances _ (lift _) => apply along_still; [exact _|done]
    | |- advances _ (if ?c then _ else _) => destruct c
    | |- advances _ (match ?x with _ => _ end) => destruct x
    end
  | progress cbn zeta ].

(** Reasons about the tables that a session leaves, one construct at a time. *)
Ltac reason :=
  repeat first
  [ match goal with
    | |- yields (transaction _) _ _ => apply yields_transaction
    | |- yields lease _ _ => apply yields_lease
    | |- yields (_ ≫= _) _ _ => apply yields_bind
    | |- yields (select _ _) _ _ => apply yields_select
    | |- yields (execute _ _) _ _ => apply yields_execute; intros ? ? ?
    | |- yields (throw _) _ _ => apply yields_throw
    | |- yields (mret _) _ _ => apply yields_ret
    | |- yields (lift _) _ _ => apply yields_lift; intros ? ?
    | |- yields (if ?c then _ else _) _ _ => let G := fresh "G" in destruct c eqn:G
    | |- yields (match ?x with _ => _ end) _ _ => let G := fresh "G" in destruct x eqn:G
    end
  | progress cbn zeta ].

(** A server that never fails. *)
Module ReliableServer.
#[global] Instance reliable : Database := {| db_busy _ := false; db_fault _ := None |}.
End ReliableServer.
