(* ===== verification/Json.v ===== *)
(** * openproof.foundation:json: string escaping, the object writer and the
    client error envelope

    Models [src/src/foundation/json.cpp] and [toClientJson] of [error.cpp].
    The floating-point overload of [JsonObjectWriter::add] is not modelled: the
    formatting of a [double] is the standard library's.  The specification side
    is a reader for the produced subset of JSON ([scanString], [readMembers]),
    against which the writer is proved to round-trip. *)
From S2P Require Import Prelude Foundation.

Definition dquote : ascii := "034"%char.
Definition backslash : ascii := "092"%char.

Definition charValue (c : ascii) : N := Ascii.N_of_ascii c.

Definition kHexDigits : string := "0123456789abcdef".

Definition hexDigit (n : N) : ascii :=
  default "0"%char (String.get (N.to_nat n) kHexDigits).

(** ** escapeJsonString *)

Definition appendUnicodeEscape (out : string) (character : N) : string :=
  out +:+ String backslash "u00"
      +:+ String (hexDigit (N.land (N.shiftr character 4) 15))
            (String (hexDigit (N.land character 15)) "").

(** One iteration of the loop: what is appended for one character. *)
Definition escapeChar (raw : ascii) : string :=
  match charValue raw with
  | 34 => String backslash (String dquote "")
  | 92 => String backslash (String backslash "")
  | 8 => String backslash "b"
  | 12 => String backslash "f"
  | 10 => String backslash "n"
  | 13 => String backslash "r"
  | 9 => String backslash "t"
  | character =>
      if (character <? 32)%N then appendUnicodeEscape "" character else String raw ""
  end%N.

Fixpoint escapeJsonString (value : string) : string :=
  match value with
  | EmptyString => ""
  | String raw rest => escapeChar raw +:+ escapeJsonString rest
  end.

(** ** JsonObjectWriter: the state is the body between the braces *)

Module JsonObjectWriter.
Record t := mk { m_body : string }.

Definition create : t := mk "".

Definition beginEntry (w : t) (key : string) : Result t :=
  _ ← requireInvariant (negb (bool_decide (key = "")));
  let body := if bool_decide (m_body w = "") then m_body w else m_body w +:+ "," in
  mret (mk (body +:+ String dquote "" +:+ escapeJsonString key +:+ String dquote ":")).

Definition append (w : t) (text : string) : t := mk (m_body w +:+ text).

Definition build (w : t) : string := "{" +:+ m_body w +:+ "}".

Definition empty (w : t) : bool := bool_decide (m_body w = "").

Definition addString (w : t) (key value : string) : Result t :=
  w ← beginEntry w key;
  mret (append w (String dquote "" +:+ escapeJsonString value +:+ String dquote "")).

(** [add(key, const char* )]: a null pointer is the empty string. *)
Definition addCString (w : t) (key : string) (value : option string) : Result t :=
  addString w key (default "" value).

Definition addBool (w : t) (key : string) (value : bool) : Result t :=
  w ← beginEntry w key;
  mret (append w (if value then "true" else "false")).

Definition addObject (w : t) (key : string) (nested : t) : Result t :=
  w ← beginEntry w key; mret (append w (build nested)).

Definition addNull (w : t) (key : string) : Result t :=
  w ← beginEntry w key; mret (append w "null").
End JsonObjectWriter.

(** ** toClientJson (error.cpp) *)

Definition toClientJson (error : Error) (requestId : string) : Result string :=
  body ← JsonObjectWriter.addString JsonObjectWriter.create "code"
           (errorCodeName (error_code error));
  body ← JsonObjectWriter.addString body "message" (error_message error);
  body ← (if bool_decide (requestId = "") then mret body
          else JsonObjectWriter.addString body "request_id" requestId);
  envelope ← JsonObjectWriter.addObject JsonObjectWriter.create "error" body;
  mret (JsonObjectWriter.build envelope).

(** ** A reader for the produced subset, used as the specification *)

(** Reads the body of a string literal up to its closing quotation mark;
    control characters, unknown escapes and a missing mark are rejected. *)
Fixpoint scanString (text : string) : option (string * string) :=
  match text with
  | EmptyString => None
  | String c rest =>
      if bool_decide (c = dquote) then Some ("", rest)
      else if bool_decide (c = backslash) then
        match rest with
        | String e rest' =>
            match charValue e with
            | 117 =>
                match rest' with
                | String "0" (String "0" (String h (String l rest''))) =>
                    match list_find (fun n => hexDigit (N.of_nat n) = h) (seq 0 2),
                          list_find (fun n => hexDigit (N.of_nat n) = l) (seq 0 16) with
                    | Some (_, hi), Some (_, lo) =>
                        '(s, r) ← scanString rest'';
                        Some (String (Ascii.ascii_of_nat (hi * 16 + lo)) s, r)
                    | _, _ => None
                    end
                | _ => None
                end
            | 34 | 92 => '(s, r) ← scanString rest'; Some (String e s, r)
            | 98 => '(s, r) ← scanString rest'; Some (String "008"%char s, r)
            | 102 => '(s, r) ← scanString rest'; Some (String "012"%char s, r)
            | 110 => '(s, r) ← scanString rest'; Some (String "010"%char s, r)
            | 114 => '(s, r) ← scanString rest'; Some (String "013"%char s, r)
            | 116 => '(s, r) ← scanString rest'; Some (String "009"%char s, r)
            | _ => None
            end%N
        | EmptyString => None
        end
      else if (charValue c <? 32)%N then None
      else '(s, r) ← scanString rest; Some (String c s, r)
  end.

Inductive json :=
| JString (s : string)
| JBool (b : bool)
| JNull
| JObject (members : list (string * json)).

Fixpoint stripPrefix (prefix text : string) : option string :=
  match prefix, text with
  | EmptyString, _ => Some text
  | String c prefix, String d text => if bool_decide (c = d) then stripPrefix prefix text else None
  | String _ _, EmptyString => None
  end.

Definition quoted : string := String dquote "".

Section readValue.
Variable readMembers : string -> option (list (string * json) * string).

Definition readValue (text : string) : option (json * string) :=
  match stripPrefix "{}" text with
  | Some rest => Some (JObject [], rest)
  | None =>
  match stripPrefix "{" text with
  | Some rest => '(ms, rest) ← readMembers rest; Some (JObject ms, rest)
  | None =>
  match stripPrefix "true" text with
  | Some rest => Some (JBool true, rest)
  | None =>
  match stripPrefix "false" text with
  | Some rest => Some (JBool false, rest)
  | None =>
  match stripPrefix "null" text with
  | Some rest => Some (JNull, rest)
  | None =>
      rest ← stripPrefix quoted text;
      '(s, rest) ← scanString rest;
      Some (JString s, rest)
  end end end end end.
End readValue.

(** Members of an object after its opening brace, up to its closing brace. *)
Fixpoint readMembers (fuel : nat) (text : string) : option (list (string * json) * string) :=
  match fuel with
  | O => None
  | S fuel =>
      text ← stripPrefix quoted text;
      '(key, text) ← scanString text;
      text ← stripPrefix ":" text;
      '(value, text) ← readValue (readMembers fuel) text;
      match stripPrefix "," text with
      | Some rest => '(ms, rest) ← readMembers fuel rest; Some ((key, value) :: ms, rest)
      | None => rest ← stripPrefix "}" text; Some ([(key, value)], rest)
      end
  end.

Definition readObject (text : string) : option (list (string * json)) :=
  match stripPrefix "{" text with
  | None => None
  | Some rest =>
      if bool_decide (rest = "}") then Some []
      else match readMembers (String.length rest) rest with
           | Some (ms, EmptyString) => Some ms
           | _ => None
           end
  end.

(** The abstract state of a writer: the entries added so far, and their text. *)
Fixpoint renderValue (v : json) : string :=
  match v with
  | JString s => String dquote "" +:+ escapeJsonString s +:+ String dquote ""
  | JBool b => if b then "true" else "false"
  | JNull => "null"
  | JObject ms =>
      "{" +:+ String.concat "," (map (fun '(k, v) =>
        String dquote "" +:+ escapeJsonString k +:+ String dquote ":" +:+ renderValue v) ms)
      +:+ "}"
  end.

Definition renderEntry (kv : string * json) : string :=
  String dquote "" +:+ escapeJsonString kv.1 +:+ String dquote ":" +:+ renderValue kv.2.

Definition renderMembers (ms : list (string * json)) : string :=
  String.concat "," (map renderEntry ms).

Fixpoint jsonSize (v : json) : nat :=
  match v with
  | JObject ms => S (sum_list_with (fun '(_, v) => S (jsonSize v)) ms)
  | _ => 1
  end.

(** ** Escaping round-trips: no value can end its string literal early *)

Lemma scan_escapeChar c t :
  scanString (escapeChar c +:+ t) =
  '(s, r) ← scanString t; Some (String c s, r).
Proof. destruct c as [[] [] [] [] [] [] [] []]; reflexivity. Qed.

Lemma scan_escape_string value rest :
  scanString (escapeJsonString value +:+ String dquote rest) = Some (value, rest).
Proof.
  induction value as [|c value IH]; [reflexivity|].
  simpl. by rewrite sapp_assoc, scan_escapeChar, IH.
Qed.

Lemma renderValue_object ms : renderValue (JObject ms) = "{" +:+ renderMembers ms +:+ "}".
Proof.
  simpl. do 2 f_equal. unfold renderMembers. f_equal. apply map_ext. by intros [].
Qed.

Lemma concat_cons sep x y l :
  String.concat sep (x :: y :: l) = x +:+ sep +:+ String.concat sep (y :: l).
Proof. reflexivity. Qed.

Lemma concat_snoc sep l x :
  String.concat sep (l ++ [x]) =
  match l with [] => x | _ => String.concat sep l +:+ sep +:+ x end.
Proof.
  induction l as [|y [|z l] IH]; [done|done|].
  change ((y :: z :: l) ++ [x]) with (y :: z :: (l ++ [x])).
  rewrite !concat_cons. change (z :: (l ++ [x])) with ((z :: l) ++ [x]).
  rewrite IH. by rewrite !sapp_assoc.
Qed.

Lemma renderMembers_cons kv ms :
  renderMembers (kv :: ms) =
  renderEntry kv +:+ match ms with [] => "" | _ => "," +:+ renderMembers ms end.
Proof.
  unfold renderMembers. destruct ms; simpl map; [simpl; by rewrite sapp_nil_r|].
  by rewrite concat_cons.
Qed.

Lemma strip_prefix_app p t : stripPrefix p (p +:+ t) = Some t.
Proof.
  induction p as [|c p IH]; [done|].
  rewrite sapp_cons. simpl. by rewrite bool_decide_eq_true_2.
Qed.

Lemma strip_prefix_cons c t : stripPrefix (String c "") (String c t) = Some t.
Proof. apply (strip_prefix_app (String c "")). Qed.

(** The text of a rendered value is read back as that value. *)
Lemma read_value_render rm v t :
  (forall ns, v = JObject ns -> ns <> [] ->
    rm (renderMembers ns +:+ String "}" t) = Some (ns, t)) ->
  readValue rm (renderValue v +:+ t) = Some (v, t).
Proof.
  intros Hnest. destruct v as [s|[]| |ns]; [|reflexivity..|].
  - simpl renderValue. autorewrite with sapp. unfold readValue. simpl.
    by rewrite scan_escape_string.
  - rewrite renderValue_object. destruct ns as [|n ns]; [done|].
    assert (Hhd : exists r, renderMembers (n :: ns) = String dquote r).
    { rewrite renderMembers_cons. unfold renderEntry. autorewrite with sapp. eauto. }
    destruct Hhd as [r Hr]. specialize (Hnest _ eq_refl ltac:(done)). revert Hnest.
    rewrite Hr. autorewrite with sapp. intros Hnest.
    unfold readValue. simpl. by rewrite Hnest.
Qed.

(** What follows a value in a member list. *)
Lemma read_members_render fuel : forall ms rest,
  ms <> [] -> (jsonSize (JObject ms) <= S fuel)%nat ->
  readMembers fuel (renderMembers ms +:+ String "}" rest) = Some (ms, rest).
Proof.
  induction fuel as [|fuel IH]; intros [|[k v] ms] rest Hne Hsize; try done.
  { simpl in Hsize. lia. }
  assert (1 <= jsonSize v)%nat by (destruct v; simpl; lia).
  rewrite renderMembers_cons. unfold renderEntry. simpl fst. simpl snd.
  autorewrite with sapp. cbn [readMembers].
  unfold quoted. rewrite strip_prefix_cons. cbn [mbind option_bind].
  rewrite scan_escape_string. cbn [mbind option_bind].
  rewrite strip_prefix_cons. cbn [mbind option_bind].
  rewrite read_value_render; cbn [mbind option_bind].
  - destruct ms as [|m ms].
    + autorewrite with sapp. by rewrite strip_prefix_cons.
    + autorewrite with sapp. rewrite strip_prefix_cons. rewrite IH; [done..|].
      simpl in Hsize |- *. lia.
  - intros ns -> Hns. apply IH; [done|]. simpl in Hsize |- *. lia.
Qed.

Lemma render_members_length k v ms :
  (String.length (renderValue v) + String.length (renderMembers ms) + 3
   <= String.length (renderMembers ((k, v) :: ms)))%nat.
Proof.
  rewrite renderMembers_cons. unfold renderEntry.
  repeat (rewrite slength_app || rewrite sapp_cons || simpl String.length).
  destruct ms; repeat (rewrite slength_app || simpl String.length); simpl; lia.
Qed.

Lemma json_size_members ms :
  Forall (fun kv => jsonSize kv.2 <= String.length (renderValue kv.2))%nat ms ->
  (jsonSize (JObject ms) <= S (String.length (renderMembers ms)))%nat.
Proof.
  induction 1 as [|[k v] ms Hv _ IH]; [simpl; lia|].
  pose proof (render_members_length k v ms). simpl in *. lia.
Qed.

Lemma json_size_render : forall v, (jsonSize v <= String.length (renderValue v))%nat.
Proof.
  fix IH 1. intros [s|[]| |ms]; [simpl; lia..|].
  rewrite renderValue_object, !slength_app.
  enough (jsonSize (JObject ms) <= S (String.length (renderMembers ms)))%nat
    by (simpl String.length; lia).
  apply json_size_members. revert ms. fix IHms 1.
  intros [|[k v] ms]; constructor; [apply IH | apply IHms].
Qed.

Lemma read_object_render ms : readObject ("{" +:+ renderMembers ms +:+ "}") = Some ms.
Proof.
  unfold readObject. rewrite strip_prefix_app. destruct ms as [|[k v] ms]; [done|].
  pose proof (render_members_length k v ms). rewrite bool_decide_eq_false_2.
  - rewrite read_members_render; [done..|]. rewrite slength_app. simpl String.length.
    pose proof (json_size_render (JObject ((k, v) :: ms))) as Hs.
    rewrite renderValue_object, !slength_app in Hs. simpl String.length in Hs. lia.
  - intros Heq. apply (f_equal String.length) in Heq.
    rewrite slength_app in Heq. simpl String.length in Heq. lia.
Qed.

(** ** The writer refines the list of its entries *)

Definition represents (w : JsonObjectWriter.t) (ms : list (string * json)) : Prop :=
  JsonObjectWriter.m_body w = renderMembers ms.

Lemma represents_create : represents JsonObjectWriter.create [].
Proof. reflexivity. Qed.

Lemma render_members_snoc ms kv :
  renderMembers (ms ++ [kv]) =
  match ms with [] => "" | _ => renderMembers ms +:+ "," end +:+ renderEntry kv.
Proof.
  unfold renderMembers. rewrite map_app. simpl map. rewrite concat_snoc.
  destruct ms; [done|]. cbn [map]. by rewrite sapp_assoc.
Qed.

Lemma begin_entry_represents w ms k v w' :
  represents w ms -> JsonObjectWriter.beginEntry w k = Ok w' ->
  represents (JsonObjectWriter.append w' (renderValue v)) (ms ++ [(k, v)]).
Proof.
  unfold represents, JsonObjectWriter.beginEntry, JsonObjectWriter.append, requireInvariant.
  intros Hw Hb. destruct (bool_decide (k = "")); [done|].
  injection Hb as <-. simpl.
  rewrite Hw, render_members_snoc. unfold renderEntry. simpl.
  destruct ms as [|[k' v'] ms]; [by autorewrite with sapp|].
  rewrite bool_decide_eq_false_2; [by autorewrite with sapp|].
  intros Heq. apply (f_equal String.length) in Heq.
  pose proof (render_members_length k' v' ms). simpl in *. lia.
Qed.

Lemma begin_entry_nonempty w k : k <> "" -> exists w', JsonObjectWriter.beginEntry w k = Ok w'.
Proof.
  intros Hk. unfold JsonObjectWriter.beginEntry, requireInvariant.
  rewrite (bool_decide_eq_false_2 (k = "")) by done. simpl. eauto.
Qed.

(** The public operations of the writer, as one step on its entries. *)
Inductive writes : JsonObjectWriter.t -> list (string * json) -> Prop :=
| writes_create : writes JsonObjectWriter.create []
| writes_string w ms k v w' : writes w ms ->
    JsonObjectWriter.addString w k v = Ok w' -> writes w' (ms ++ [(k, JString v)])
| writes_cstring w ms k v w' : writes w ms ->
    JsonObjectWriter.addCString w k v = Ok w' -> writes w' (ms ++ [(k, JString (default "" v))])
| writes_bool w ms k b w' : writes w ms ->
    JsonObjectWriter.addBool w k b = Ok w' -> writes w' (ms ++ [(k, JBool b)])
| writes_null w ms k w' : writes w ms ->
    JsonObjectWriter.addNull w k = Ok w' -> writes w' (ms ++ [(k, JNull)])
| writes_object w ms k n ns w' : writes w ms -> writes n ns ->
    JsonObjectWriter.addObject w k n = Ok w' -> writes w' (ms ++ [(k, JObject ns)]).

Lemma add_value_represents w ms k v w' :
  represents w ms ->
  (w1 ← JsonObjectWriter.beginEntry w k;
   mret (JsonObjectWriter.append w1 (renderValue v))) = Ok w' ->
  represents w' (ms ++ [(k, v)]).
Proof.
  intros Hw (w1 & Hb & Hr)%result_bind_ok. injection Hr as <-.
  by eapply begin_entry_represents.
Qed.

Lemma writes_represents w ms : writes w ms -> represents w ms.
Proof.
  induction 1 as [|w ms k v w' _ IH H|w ms k v w' _ IH H|w ms k b w' _ IH H
                  |w ms k w' _ IH H|w ms k n ns w' _ IH _ IHn H];
    [done|eapply add_value_represents; [exact IH|]..]; try exact H.
  rewrite renderValue_object.
  unfold JsonObjectWriter.addObject, JsonObjectWriter.build in H. by rewrite IHn in H.
Qed.

Lemma writer_reads_back w ms :
  writes w ms -> readObject (JsonObjectWriter.build w) = Some ms.
Proof.
  intros H%writes_represents. unfold JsonObjectWriter.build. rewrite H.
  apply read_object_render.
Qed.

(** JSON output cannot be injected into. Whatever strings, booleans, nulls
    and nested objects are added through the public operations of
    [JsonObjectWriter], the built text reads back as exactly the entries that
    were added, in order. *)
Theorem json_writer_roundtrip w ms :
  writes w ms -> readObject (JsonObjectWriter.build w) = Some ms.
Proof. apply writer_reads_back. Qed.

Lemma json_writer_roundtrip_witness :
  exists w, readObject (JsonObjectWriter.build w)
              = Some ([] ++ [(String dquote "k", JString (String dquote (String backslash "x")))]).
Proof.
  eexists. eapply json_writer_roundtrip, writes_string; [apply writes_create|reflexivity].
Defined.

Lemma add_string_ok w ms k v :
  k <> "" -> writes w ms ->
  exists w', JsonObjectWriter.addString w k v = Ok w' /\ writes w' (ms ++ [(k, JString v)]).
Proof.
  intros Hk Hw. destruct (begin_entry_nonempty w k Hk) as [w1 Hw1].
  eexists. split; [|eapply writes_string; [done|]];
    unfold JsonObjectWriter.addString; rewrite Hw1; reflexivity.
Qed.

Lemma add_request_id w ms requestId :
  writes w ms ->
  exists w', (if bool_decide (requestId = "") then mret w
              else JsonObjectWriter.addString w "request_id" requestId) = Ok w' /\
    writes w' (ms ++ (if bool_decide (requestId = "") then []
                      else [("request_id", JString requestId)])).
Proof.
  intros Hw. case_bool_decide.
  - exists w. by rewrite app_nil_r.
  - by apply add_string_ok.
Qed.

Lemma toClientJson_reads error requestId :
  exists text, toClientJson error requestId = Ok text /\
    readObject text = Some [("error", JObject
      ([("code", JString (errorCodeName (error_code error)));
        ("message", JString (error_message error))]
       ++ (if bool_decide (requestId = "") then [] else [("request_id", JString requestId)])))].
Proof.
  unfold toClientJson.
  edestruct add_string_ok as (b1 & -> & H1); [|apply writes_create|]; [done|].
  cbn [mbind result_bind].
  edestruct add_string_ok as (b2 & -> & H2); [|exact H1|]; [done|]. cbn [mbind result_bind].
  edestruct (add_request_id b2) as (b3 & -> & H3); [exact H2|].
  cbn [mbind result_bind]. eexists. split; [reflexivity|].
  eapply (writer_reads_back _ ([] ++ [(_, _)])), writes_object; [apply writes_create|exact H3|].
  reflexivity.
Qed.

(** The client envelope discloses exactly the code, the client-safe message
    and the correlation identifier: it is always produced (no invariant of the
    writer fails) and reads back as those three fields and nothing else, so the
    operator-only detail of the error does not reach it. *)
Theorem client_json_discloses_only_client_channel error requestId :
  exists text, toClientJson error requestId = Ok text /\
    readObject text = Some [("error", JObject
      ([("code", JString (errorCodeName (error_code error)));
        ("message", JString (error_message error))]
       ++ (if bool_decide (requestId = "") then [] else [("request_id", JString requestId)])))].
Proof. apply toClientJson_reads. Qed.
