(* ===== verification/Encoding.v ===== *)
(** * openproof.foundation:encoding: hexadecimal and base64url

    Models [src/src/foundation/encoding.cpp]. The decode tables are built by the
    loops of the source, 32-bit arithmetic wraps as [std::uint32_t] does, and
    the base64url decoder keeps its accumulator and pending-bit count. *)
From Stdlib Require Import Strings.Byte.
From S2P Require Import Prelude Foundation.

Abbreviation byte := Byte.byte.

(** ** Octets *)

(** [byteValue] and the cast of an integer to [unsigned char]. *)
Definition byteValue (b : byte) : Z := Z.of_N (Byte.to_N b).
Definition toByte (z : Z) : byte := default x00 (Byte.of_N (Z.to_N (z mod 256))).

Definition u32 (z : Z) : Z := z mod 2 ^ 32.

Lemma byteValue_range b : 0 <= byteValue b < 256.
Proof. unfold byteValue. pose proof (Byte.to_N_bounded b). lia. Qed.

Lemma byteValue_toByte z : byteValue (toByte z) = z mod 256.
Proof.
  unfold byteValue, toByte. pose proof (Z.mod_pos_bound z 256 ltac:(lia)) as Hr.
  destruct (Byte.of_N (Z.to_N (z mod 256))) as [b|] eqn:Hb; simpl.
  - apply Byte.to_of_N in Hb. rewrite Hb. lia.
  - apply Byte.of_N_None_iff in Hb. lia.
Qed.

Lemma toByte_byteValue b : toByte (byteValue b) = b.
Proof.
  unfold toByte. rewrite Z.mod_small by apply byteValue_range. unfold byteValue.
  by rewrite N2Z.id, Byte.of_to_N.
Qed.

Lemma byteValue_inj a b : byteValue a = byteValue b -> a = b.
Proof. intros H. by rewrite <- (toByte_byteValue a), H, toByte_byteValue. Qed.

#[global] Instance byte_eq_dec : EqDecision byte := Byte.byte_eq_dec.
#[global] Program Instance byte_countable : Countable byte :=
  inj_countable' byteValue toByte toByte_byteValue.

(** [std::as_bytes] of a string. *)
Definition as_bytes (s : string) : list byte := String.list_byte_of_string s.

(** ** Tables *)

Definition kHexDigitsLower : string := "0123456789abcdef".
Definition kBase64UrlAlphabet : string :=
  "ABCDEFGHIJKLMNOPQRSTUVWXYZabcdefghijklmnopqrstuvwxyz0123456789-_".

(** A character of an alphabet, by index. *)
Definition at_ (alphabet : string) (index : Z) : ascii :=
  default "000"%char (String.get (Z.to_nat index) alphabet).

Definition unsignedChar (c : ascii) : nat := N.to_nat (Ascii.N_of_ascii c).

(** [std::array<std::int8_t, 256>] filled with -1. *)
Abbreviation DecodeTable := (list Z).

Definition makeHexDecodeTable : DecodeTable :=
  let table := replicate 256 (-1) in
  let table := foldl (fun t index => <[(unsignedChar "0" + index)%nat := Z.of_nat index]> t)
                 table (seq 0 10) in
  foldl (fun t index =>
           <[(unsignedChar "A" + index)%nat := 10 + Z.of_nat index]>
             (<[(unsignedChar "a" + index)%nat := 10 + Z.of_nat index]> t))
        table (seq 0 6).

Definition makeBase64UrlDecodeTable : DecodeTable :=
  foldl (fun t index => <[unsignedChar (at_ kBase64UrlAlphabet (Z.of_nat index)) := Z.of_nat index]> t)
        (replicate 256 (-1)) (seq 0 (String.length kBase64UrlAlphabet)).

Definition kHexDecodeTable : DecodeTable := makeHexDecodeTable.
Definition kBase64UrlDecodeTable : DecodeTable := makeBase64UrlDecodeTable.

Definition lookupSymbol (table : DecodeTable) (symbol : ascii) : Z :=
  default (-1) (table !! unsignedChar symbol).

(** ** Hexadecimal *)

Fixpoint toHex (bytes : list byte) : string :=
  match bytes with
  | [] => ""
  | value :: rest =>
      let raw := byteValue value in
      String (at_ kHexDigitsLower (Z.land (Z.shiftr raw 4) 15))
        (String (at_ kHexDigitsLower (Z.land raw 15)) (toHex rest))
  end.

Fixpoint fromHexLoop (text : string) : Result (list byte) :=
  match text with
  | String c0 (String c1 rest) =>
      let high := lookupSymbol kHexDecodeTable c0 in
      let low := lookupSymbol kHexDecodeTable c1 in
      if (high <? 0) || (low <? 0) then
        fail InvalidArgument "Hexadecimal input contains a non-hexadecimal character."
      else
        out ← fromHexLoop rest;
        mret (toByte (Z.lor (Z.shiftl high 4) low) :: out)
  | _ => mret []
  end.

Definition fromHex (text : string) : Result (list byte) :=
  if negb ((String.length text mod 2 =? 0)%nat) then
    fail InvalidArgument "Hexadecimal input must have an even length."
  else fromHexLoop text.

(** ** base64url *)

Definition symbolAt (index : Z) : ascii := at_ kBase64UrlAlphabet index.

Fixpoint toBase64Url (bytes : list byte) : string :=
  match bytes with
  | b0 :: b1 :: b2 :: rest =>
      let triple := Z.lor (Z.lor (u32 (Z.shiftl (byteValue b0) 16)) (u32 (Z.shiftl (byteValue b1) 8)))
                      (byteValue b2) in
      String (symbolAt (Z.land (Z.shiftr triple 18) 63))
        (String (symbolAt (Z.land (Z.shiftr triple 12) 63))
          (String (symbolAt (Z.land (Z.shiftr triple 6) 63))
            (String (symbolAt (Z.land triple 63)) (toBase64Url rest))))
  | [b0; b1] =>
      let first := byteValue b0 in
      let second := byteValue b1 in
      String (symbolAt (Z.land (Z.shiftr first 2) 63))
        (String (symbolAt (Z.land (Z.lor (u32 (Z.shiftl first 4)) (Z.shiftr second 4)) 63))
          (String (symbolAt (Z.land (u32 (Z.shiftl second 2)) 63)) ""))
  | [b0] =>
      let first := byteValue b0 in
      String (symbolAt (Z.land (Z.shiftr first 2) 63))
        (String (symbolAt (Z.land (u32 (Z.shiftl first 4)) 63)) "")
  | [] => ""
  end.

(** [while (!trimmed.empty() && trimmed.back() == '=') trimmed.remove_suffix(1)]. *)
Fixpoint trimPadding (text : string) : string :=
  match text with
  | EmptyString => ""
  | String c rest =>
      let trimmed := trimPadding rest in
      if bool_decide (trimmed = "") && bool_decide (c = "="%char) then "" else String c trimmed
  end.

(** The loop over the symbols: the emitted octets, then the final accumulator
    and pending-bit count. *)
Fixpoint base64Loop (text : string) (accumulator pendingBits : Z) : Result (list byte * (Z * Z)) :=
  match text with
  | EmptyString => mret ([], (accumulator, pendingBits))
  | String symbol rest =>
      let decoded := lookupSymbol kBase64UrlDecodeTable symbol in
      if decoded <? 0 then
        fail InvalidArgument "Base64url input contains an invalid character."
      else
        let accumulator := Z.lor (u32 (Z.shiftl accumulator 6)) decoded in
        let pendingBits := pendingBits + 6 in
        if 8 <=? pendingBits then
          let pendingBits := pendingBits - 8 in
          _ ← requireInvariant (pendingBits <? 8);
          '(out, final) ← base64Loop rest accumulator pendingBits;
          mret (toByte (Z.land (Z.shiftr accumulator pendingBits) 255) :: out, final)
        else base64Loop rest accumulator pendingBits
  end.

Definition fromBase64Url (text : string) : Result (list byte) :=
  let trimmed := trimPadding text in
  if (String.length trimmed mod 4 =? 1)%nat then
    fail InvalidArgument "Base64url input has an impossible length."
  else
    '(out, (accumulator, pendingBits)) ← base64Loop trimmed 0 0;
    let mask := u32 (Z.shiftl 1 pendingBits) - 1 in
    if (0 <? pendingBits) && negb (Z.land accumulator mask =? 0) then
      fail InvalidArgument "Base64url input is not canonically encoded."
    else mret out.

(** ** Arithmetic form of the bit operations *)

Lemma lor_shiftl_add a d n : 0 <= n -> 0 <= d < 2 ^ n -> Z.lor (Z.shiftl a n) d = a * 2 ^ n + d.
Proof.
  intros Hn Hd. rewrite <- Z.shiftl_mul_pow2 by done.
  symmetry. rewrite <- Z.lxor_lor; [apply Z.add_nocarry_lxor|]; apply Z.bits_inj'; intros i Hi;
    rewrite Z.land_spec, Z.bits_0, Z.shiftl_spec by done.
  all: destruct (Z.lt_ge_cases i n); [by rewrite Z.testbit_neg_r by lia|].
  all: rewrite <- (Z.mod_small d (2 ^ n)) by done.
  all: by rewrite Z.mod_pow2_bits_high, andb_false_r by lia.
Qed.

Lemma land_low a n m : 0 <= n -> m = 2 ^ n - 1 -> Z.land a m = a mod 2 ^ n.
Proof. intros Hn ->. rewrite <- Z.land_ones by done. by rewrite Z.ones_equiv, Z.sub_1_r. Qed.

Lemma shiftr_div a n k : 0 <= n -> k = 2 ^ n -> Z.shiftr a n = a / k.
Proof. intros Hn ->. by apply Z.shiftr_div_pow2. Qed.

(** Rewrites every mask and shift of the codec to division and remainder. *)
Ltac bits_to_arith :=
  repeat first
    [ rewrite (land_low _ 4 15) by lia | rewrite (land_low _ 6 63) by lia
    | rewrite (land_low _ 8 255) by lia | rewrite (land_low _ 2 3) by lia
    | rewrite (shiftr_div _ 2 4) by lia | rewrite (shiftr_div _ 4 16) by lia
    | rewrite (shiftr_div _ 6 64) by lia | rewrite (shiftr_div _ 12 4096) by lia
    | rewrite (shiftr_div _ 18 262144) by lia | rewrite Z.shiftr_0_r ].

Ltac div_mod := Z.to_euclidean_division_equations; lia.

(** ** The alphabets and the decode tables agree (checked on every entry) *)

Lemma hex_symbol_decodes d :
  0 <= d < 16 -> lookupSymbol kHexDecodeTable (at_ kHexDigitsLower d) = d.
Proof.
  intros Hd. rewrite <- (Z2Nat.id d) by lia. assert (Hn : (Z.to_nat d < 16)%nat) by lia.
  revert Hn. generalize (Z.to_nat d). clear.
  do 16 (intros [|n]; [reflexivity|]; revert n). lia.
Qed.

Definition hexValue (c : ascii) : option Z :=
  let d := lookupSymbol kHexDecodeTable c in if d <? 0 then None else Some d.

Lemma forall_ascii (test : ascii -> bool) :
  forallb (fun n => test (Ascii.ascii_of_nat n)) (seq 0 256) = true -> forall c, test c = true.
Proof.
  intros Hall c. rewrite forallb_forall in Hall.
  specialize (Hall (Ascii.nat_of_ascii c)).
  rewrite Ascii.ascii_nat_embedding in Hall. apply Hall.
  apply in_seq. pose proof (Ascii.nat_ascii_bounded c). lia.
Qed.

Lemma hex_lookup_range c : lookupSymbol kHexDecodeTable c < 16.
Proof.
  apply Z.ltb_lt. revert c. apply forall_ascii. vm_compute. reflexivity.
Qed.

Lemma symbol_decodes d :
  0 <= d < 64 -> lookupSymbol kBase64UrlDecodeTable (symbolAt d) = d.
Proof.
  intros Hd. rewrite <- (Z2Nat.id d) by lia. assert (Hn : (Z.to_nat d < 64)%nat) by lia.
  revert Hn. generalize (Z.to_nat d). clear.
  do 64 (intros [|n]; [vm_compute; reflexivity|]; revert n). lia.
Qed.

Lemma symbol_lookup_inv c :
  lookupSymbol kBase64UrlDecodeTable c < 0 \/
  (lookupSymbol kBase64UrlDecodeTable c < 64 /\
   symbolAt (lookupSymbol kBase64UrlDecodeTable c) = c).
Proof.
  enough (forall c, bool_decide (lookupSymbol kBase64UrlDecodeTable c < 0 \/
    (lookupSymbol kBase64UrlDecodeTable c < 64 /\
     symbolAt (lookupSymbol kBase64UrlDecodeTable c) = c)) = true) as H.
  { specialize (H c). by apply bool_decide_eq_true in H. }
  clear c. apply forall_ascii. vm_compute. reflexivity.
Qed.

Lemma symbol_not_padding d : 0 <= d < 64 -> symbolAt d <> "="%char.
Proof.
  intros Hd Heq. pose proof (symbol_decodes d Hd) as Hs. rewrite Heq in Hs.
  vm_compute in Hs. lia.
Qed.

(** ** Hexadecimal round trip *)

Lemma toHex_length bytes : String.length (toHex bytes) = (2 * length bytes)%nat.
Proof. induction bytes as [|b bytes IH]; simpl; [done|]. rewrite IH. lia. Qed.

Lemma fromHexLoop_toHex bytes : fromHexLoop (toHex bytes) = Ok bytes.
Proof.
  induction bytes as [|b bytes IH]; [done|]. cbn [toHex fromHexLoop].
  pose proof (byteValue_range b). bits_to_arith. change (2 ^ 4) with 16.
  rewrite !hex_symbol_decodes by div_mod.
  replace (_ || _) with false by (symmetry; apply orb_false_iff; split; apply Z.ltb_ge; div_mod).
  rewrite IH. cbn. do 2 f_equal. rewrite <- (toByte_byteValue b) at 3. f_equal.
  rewrite lor_shiftl_add; [div_mod|lia|div_mod].
Qed.

#[global] Instance toHex_inj : Inj (=) (=) toHex.
Proof. intros a b E. apply (f_equal fromHexLoop) in E. rewrite !fromHexLoop_toHex in E. congruence. Qed.

(** ** base64url: the decoder on one group of four symbols *)

Definition decodes (c : ascii) (d : Z) : Prop :=
  lookupSymbol kBase64UrlDecodeTable c = d /\ 0 <= d < 64.

Lemma decodes_symbolAt d : 0 <= d < 64 -> decodes (symbolAt d) d.
Proof. intros Hd. split; [by apply symbol_decodes | done]. Qed.

Lemma decodes_spelling c d : decodes c d -> c = symbolAt d.
Proof. intros [<- Hd]. destruct (symbol_lookup_inv c) as [|[_ ?]]; [lia|done]. Qed.

Lemma decodes_or_not c : lookupSymbol kBase64UrlDecodeTable c < 0 \/ exists d, decodes c d.
Proof.
  destruct (Z.lt_ge_cases (lookupSymbol kBase64UrlDecodeTable c) 0) as [|Hge]; [by left|].
  right. exists (lookupSymbol kBase64UrlDecodeTable c). split; [done|].
  destruct (symbol_lookup_inv c) as [|[? _]]; lia.
Qed.

(** The accumulator ends in the [k] bits [low]; what is above them is stale. *)
Definition endsIn (acc k low : Z) : Prop := exists q, acc = q * 2 ^ k + low.

Lemma push_symbol acc k low d :
  0 <= k <= 26 -> 0 <= low < 2 ^ k -> 0 <= d < 64 -> endsIn acc k low ->
  endsIn (Z.lor (u32 (Z.shiftl acc 6)) d) (k + 6) (low * 64 + d).
Proof.
  intros Hk Hlow Hd [q ->]. unfold u32.
  assert (Hshift : Z.shiftl (q * 2 ^ k + low) 6 mod 2 ^ 32
                   = Z.shiftl ((q * 2 ^ k + low) mod 2 ^ 26) 6).
  { rewrite !Z.shiftl_mul_pow2 by lia. change (2 ^ 32) with (2 ^ 26 * 2 ^ 6).
    by rewrite Z.mul_mod_distr_r by lia. }
  rewrite Hshift, lor_shiftl_add by lia.
  exists (q mod 2 ^ (26 - k)).
  replace (2 ^ 26) with (2 ^ k * 2 ^ (26 - k)) by (rewrite <- Z.pow_add_r by lia; f_equal; lia).
  assert (0 < 2 ^ k) by lia. assert (0 < 2 ^ (26 - k)) by lia.
  rewrite Z.rem_mul_r by lia.
  replace ((q * 2 ^ k + low) mod 2 ^ k) with low.
  2:{ rewrite Z.add_comm, Z.mod_add, Z.mod_small by lia. done. }
  replace ((q * 2 ^ k + low) / 2 ^ k) with q.
  2:{ rewrite Z.div_add_l, Z.div_small by lia. lia. }
  rewrite Z.pow_add_r by lia. ring.
Qed.

Lemma emitted acc k low p :
  endsIn acc k low -> 0 <= p -> p + 8 = k -> 0 <= low < 2 ^ k ->
  toByte (Z.land (Z.shiftr acc p) 255) = toByte (low / 2 ^ p).
Proof.
  intros [q ->] Hp <- Hlow. rewrite (land_low _ 8 255), Z.shiftr_div_pow2 by lia.
  rewrite Z.pow_add_r by lia. f_equal.
  replace (q * (2 ^ p * 2 ^ 8) + low) with (q * 2 ^ 8 * 2 ^ p + low) by ring.
  rewrite Z.div_add_l, Z.add_comm, Z.mod_add by lia.
  apply Z.mod_small. split; [apply Z.div_pos; lia|].
  apply Z.div_lt_upper_bound; [lia|]. rewrite Z.pow_add_r in Hlow by lia. lia.
Qed.

(** The decoder state after [k] pending bits [low]; one more symbol. *)
Lemma base64Loop_keep c d rest acc k low :
  decodes c d -> endsIn acc k low -> 0 <= k -> k + 6 < 8 -> 0 <= low < 2 ^ k ->
  exists acc', endsIn acc' (k + 6) (low * 64 + d) /\
    base64Loop (String c rest) acc k = base64Loop rest acc' (k + 6).
Proof.
  intros [Hc Hd] Hacc Hk Hk' Hlow. eexists. split; [apply push_symbol; [lia|done..]|].
  cbn [base64Loop]. rewrite Hc.
  rewrite (proj2 (Z.ltb_ge d 0)), (proj2 (Z.leb_gt 8 (k + 6))) by lia. done.
Qed.

Lemma base64Loop_emit c d rest acc k low :
  decodes c d -> endsIn acc k low -> 2 <= k < 8 -> 0 <= low < 2 ^ k ->
  exists acc', endsIn acc' (k - 2) ((low * 64 + d) mod 2 ^ (k - 2)) /\
    base64Loop (String c rest) acc k =
    ('(out, final) ← base64Loop rest acc' (k - 2);
     mret (toByte ((low * 64 + d) / 2 ^ (k - 2)) :: out, final)).
Proof.
  intros [Hc Hd] Hacc Hk Hlow.
  pose proof (push_symbol acc k low d ltac:(lia) Hlow Hd Hacc) as Hpush.
  exists (Z.lor (u32 (Z.shiftl acc 6)) d). split.
  - destruct Hpush as [q Hq].
    exists (q * 2 ^ 8 + (low * 64 + d) / 2 ^ (k - 2)). rewrite Hq.
    replace (k + 6) with (8 + (k - 2)) by lia. rewrite Z.pow_add_r by lia.
    rewrite (Z.div_mod (low * 64 + d) (2 ^ (k - 2))) at 1 by lia. ring.
  - cbn [base64Loop]. rewrite Hc.
    rewrite (proj2 (Z.ltb_ge d 0)), (proj2 (Z.leb_le 8 (k + 6))) by lia.
    replace (k + 6 - 8) with (k - 2) by lia.
    unfold requireInvariant. rewrite (proj2 (Z.ltb_lt (k - 2) 8)) by lia. cbn [mbind result_bind].
    rewrite (emitted _ (k + 6) (low * 64 + d)); [done|done|lia..|].
    rewrite Z.pow_add_r by lia. change (2 ^ 6) with 64. lia.
Qed.

Lemma base64Loop_invalid c rest acc k :
  lookupSymbol kBase64UrlDecodeTable c < 0 -> exists e, base64Loop (String c rest) acc k = Err e.
Proof.
  intros Hc. cbn [base64Loop]. rewrite (proj2 (Z.ltb_lt _ 0)) by done. by eexists.
Qed.

Lemma endsIn_0 acc : endsIn acc 0 0.
Proof. exists acc. lia. Qed.

Lemma base64Loop_quad c0 c1 c2 c3 d0 d1 d2 d3 rest acc :
  decodes c0 d0 -> decodes c1 d1 -> decodes c2 d2 -> decodes c3 d3 ->
  exists acc', base64Loop (String c0 (String c1 (String c2 (String c3 rest)))) acc 0 =
    ('(out, final) ← base64Loop rest acc' 0;
     mret (toByte (d0 * 4 + d1 / 16) :: toByte (d1 mod 16 * 16 + d2 / 4)
             :: toByte (d2 mod 4 * 64 + d3) :: out, final)).
Proof.
  intros H0 H1 H2 H3. pose proof (proj2 H0). pose proof (proj2 H1). pose proof (proj2 H2).
  pose proof (proj2 H3).
  edestruct (base64Loop_keep c0 d0) as (a0 & Ha0 & ->); [done|apply endsIn_0|lia..|].
  change (0 + 6) with 6 in *. change (0 * 64 + d0) with d0 in *.
  edestruct (base64Loop_emit c1 d1) as (a1 & Ha1 & ->); [done|apply Ha0|lia..|].
  change (6 - 2) with 4 in *. change (2 ^ 4) with 16 in *.
  edestruct (base64Loop_emit c2 d2) as (a2 & Ha2 & ->); [done|apply Ha1|lia|div_mod|].
  change (4 - 2) with 2 in *. change (2 ^ 2) with 4 in *.
  edestruct (base64Loop_emit c3 d3) as (a3 & Ha3 & ->); [done|apply Ha2|lia|div_mod|].
  change (2 - 2) with 0 in *. change (2 ^ 0) with 1 in *.
  exists a3. destruct (base64Loop rest a3 0) as [[out final]|e|]; cbn; [|done..].
  replace ((d0 * 64 + d1) / 16) with (d0 * 4 + d1 / 16) by div_mod.
  replace (((d0 * 64 + d1) mod 16 * 64 + d2) / 4) with (d1 mod 16 * 16 + d2 / 4) by div_mod.
  replace (((((d0 * 64 + d1) mod 16 * 64 + d2) mod 4) * 64 + d3) / 1)
    with (d2 mod 4 * 64 + d3) by div_mod.
  done.
Qed.

(** The two tails: two symbols carry one octet, three symbols carry two; the
    bits left over are what the canonicity check looks at. *)
Lemma base64Loop_pair c0 c1 d0 d1 acc :
  decodes c0 d0 -> decodes c1 d1 ->
  exists acc', endsIn acc' 4 (d1 mod 16) /\
    base64Loop (String c0 (String c1 "")) acc 0 = Ok ([toByte (d0 * 4 + d1 / 16)], (acc', 4)).
Proof.
  intros H0 H1. pose proof (proj2 H0). pose proof (proj2 H1).
  edestruct (base64Loop_keep c0 d0) as (a0 & Ha0 & ->); [done|apply endsIn_0|lia..|].
  change (0 + 6) with 6 in *. change (0 * 64 + d0) with d0 in *.
  edestruct (base64Loop_emit c1 d1) as (a1 & Ha1 & ->); [done|apply Ha0|lia..|].
  change (6 - 2) with 4 in *. change (2 ^ 4) with 16 in *.
  exists a1. replace ((d0 * 64 + d1) mod 16) with (d1 mod 16) in Ha1 by div_mod.
  split; [done|]. cbn. do 4 f_equal. div_mod.
Qed.

Lemma base64Loop_triple c0 c1 c2 d0 d1 d2 acc :
  decodes c0 d0 -> decodes c1 d1 -> decodes c2 d2 ->
  exists acc', endsIn acc' 2 (d2 mod 4) /\
    base64Loop (String c0 (String c1 (String c2 ""))) acc 0 =
    Ok ([toByte (d0 * 4 + d1 / 16); toByte (d1 mod 16 * 16 + d2 / 4)], (acc', 2)).
Proof.
  intros H0 H1 H2. pose proof (proj2 H0). pose proof (proj2 H1). pose proof (proj2 H2).
  edestruct (base64Loop_keep c0 d0) as (a0 & Ha0 & ->); [done|apply endsIn_0|lia..|].
  change (0 + 6) with 6 in *. change (0 * 64 + d0) with d0 in *.
  edestruct (base64Loop_emit c1 d1) as (a1 & Ha1 & ->); [done|apply Ha0|lia..|].
  change (6 - 2) with 4 in *. change (2 ^ 4) with 16 in *.
  edestruct (base64Loop_emit c2 d2) as (a2 & Ha2 & ->); [done|apply Ha1|lia|div_mod|].
  change (4 - 2) with 2 in *. change (2 ^ 2) with 4 in *.
  exists a2.
  replace (((d0 * 64 + d1) mod 16 * 64 + d2) mod 4) with (d2 mod 4) in Ha2 by div_mod.
  split; [done|]. cbn. do 3 f_equal; [do 1 f_equal; div_mod | do 2 f_equal; div_mod].
Qed.

(** ** base64url: the encoder, in arithmetic form *)

Ltac same_symbols :=
  repeat match goal with
  | |- String (symbolAt _) _ = String (symbolAt _) _ =>
      apply (f_equal2 String); [apply (f_equal symbolAt); div_mod|]
  | |- _ = _ => reflexivity
  end.

Lemma toBase64Url_quad b0 b1 b2 rest :
  toBase64Url (b0 :: b1 :: b2 :: rest) =
  String (symbolAt (byteValue b0 / 4))
    (String (symbolAt (byteValue b0 mod 4 * 16 + byteValue b1 / 16))
      (String (symbolAt (byteValue b1 mod 16 * 4 + byteValue b2 / 64))
        (String (symbolAt (byteValue b2 mod 64)) (toBase64Url rest)))).
Proof.
  cbn [toBase64Url]. pose proof (byteValue_range b0). pose proof (byteValue_range b1).
  pose proof (byteValue_range b2). unfold u32.
  rewrite !(Z.mod_small (Z.shiftl _ _)) by (rewrite Z.shiftl_mul_pow2 by lia; lia).
  rewrite (Z.lor_comm (Z.shiftl _ 16)).
  replace (Z.lor (Z.shiftl (byteValue b1) 8) (Z.shiftl (byteValue b0) 16))
    with (Z.shiftl (byteValue b0 * 256 + byteValue b1) 8).
  2:{ rewrite Z.lor_comm. change 16 with (8 + 8). rewrite <- Z.shiftl_shiftl by lia.
      rewrite <- Z.shiftl_lor, lor_shiftl_add by lia. done. }
  rewrite lor_shiftl_add by lia. bits_to_arith. change (2 ^ 8) with 256. change (2 ^ 6) with 64.
  same_symbols.
Qed.

Lemma toBase64Url_pair b0 b1 :
  toBase64Url [b0; b1] =
  String (symbolAt (byteValue b0 / 4))
    (String (symbolAt (byteValue b0 mod 4 * 16 + byteValue b1 / 16))
      (String (symbolAt (byteValue b1 mod 16 * 4)) "")).
Proof.
  cbn [toBase64Url]. pose proof (byteValue_range b0). pose proof (byteValue_range b1).
  unfold u32.
  rewrite !(Z.mod_small (Z.shiftl _ _)) by (rewrite Z.shiftl_mul_pow2 by lia; lia).
  bits_to_arith. change (2 ^ 6) with 64.
  rewrite lor_shiftl_add by (change (2 ^ 4) with 16; div_mod).
  rewrite Z.shiftl_mul_pow2 by lia.
  same_symbols.
Qed.

Lemma toBase64Url_single b0 :
  toBase64Url [b0] =
  String (symbolAt (byteValue b0 / 4)) (String (symbolAt (byteValue b0 mod 4 * 16)) "").
Proof.
  cbn [toBase64Url]. pose proof (byteValue_range b0). unfold u32.
  rewrite !(Z.mod_small (Z.shiftl _ _)) by (rewrite Z.shiftl_mul_pow2 by lia; lia).
  bits_to_arith. rewrite Z.shiftl_mul_pow2 by lia. change (2 ^ 6) with 64.
  same_symbols.
Qed.

(** ** base64url: the two round trips *)

Lemma list_ind3 {A} (P : list A -> Prop) :
  P [] -> (forall a, P [a]) -> (forall a b, P [a; b]) ->
  (forall a b c l, P l -> P (a :: b :: c :: l)) -> forall l, P l.
Proof.
  intros H0 H1 H2 H3. fix IH 1. intros [|a [|b [|c l]]]; [done|apply H1|apply H2|].
  apply H3, IH.
Qed.

Lemma string_ind4 (P : string -> Prop) :
  P "" -> (forall a, P (String a "")) -> (forall a b, P (String a (String b ""))) ->
  (forall a b c, P (String a (String b (String c "")))) ->
  (forall a b c d s, P s -> P (String a (String b (String c (String d s))))) -> forall s, P s.
Proof.
  intros H0 H1 H2 H3 H4. fix IH 1.
  intros [|a [|b [|c [|d s]]]]; [done|apply H1|apply H2|apply H3|]. apply H4, IH.
Qed.

Lemma mask_reads_low acc p low :
  endsIn acc p low -> 0 <= p < 8 -> 0 <= low < 2 ^ p ->
  Z.land acc (u32 (Z.shiftl 1 p) - 1) = low.
Proof.
  intros [q ->] Hp Hlow. unfold u32. rewrite Z.shiftl_1_l.
  assert (2 ^ p < 2 ^ 32) by (apply Z.pow_lt_mono_r; lia).
  rewrite (Z.mod_small (2 ^ p)), (land_low _ p) by lia.
  rewrite Z.add_comm, Z.mod_add by lia. by apply Z.mod_small.
Qed.

Lemma toByte_eq z b : z = byteValue b -> toByte z = b.
Proof. intros ->. apply toByte_byteValue. Qed.

Ltac same_bytes :=
  repeat (apply (f_equal2 cons); [apply toByte_eq; div_mod|]); reflexivity.

Lemma base64Loop_toBase64Url bytes : forall acc,
  exists acc' p, endsIn acc' p 0 /\ 0 <= p < 8 /\
    base64Loop (toBase64Url bytes) acc 0 = Ok (bytes, (acc', p)).
Proof.
  induction bytes as [|b0|b0 b1|b0 b1 b2 bytes IH] using list_ind3; intros acc.
  - exists acc, 0. split; [apply endsIn_0|]. split; [lia|done].
  - rewrite toBase64Url_single. pose proof (byteValue_range b0).
    edestruct base64Loop_pair as (acc' & Hacc & ->); [apply decodes_symbolAt; div_mod..|].
    exists acc', 4. replace (_ mod 16) with 0 in Hacc by div_mod.
    split; [done|split; [lia|]]. do 2 f_equal. same_bytes.
  - rewrite toBase64Url_pair. pose proof (byteValue_range b0). pose proof (byteValue_range b1).
    edestruct base64Loop_triple as (acc' & Hacc & ->); [apply decodes_symbolAt; div_mod..|].
    exists acc', 2. replace (_ mod 4) with 0 in Hacc by div_mod.
    split; [done|split; [lia|]]. do 2 f_equal. same_bytes.
  - rewrite toBase64Url_quad. pose proof (byteValue_range b0). pose proof (byteValue_range b1).
    pose proof (byteValue_range b2).
    edestruct base64Loop_quad as (a1 & ->); [apply decodes_symbolAt; div_mod..|].
    destruct (IH a1) as (acc' & p & Hacc & Hp & ->). exists acc', p.
    split; [done|split; [done|]]. cbn [mbind result_bind mret result_ret]. do 2 f_equal. same_bytes.
Qed.

Lemma trimPadding_cons c s :
  c <> "="%char -> trimPadding (String c s) = String c (trimPadding s).
Proof. intros Hc. simpl. by rewrite (bool_decide_eq_false_2 (c = _)), andb_false_r. Qed.

Lemma trimPadding_toBase64Url bytes : trimPadding (toBase64Url bytes) = toBase64Url bytes.
Proof.
  induction bytes as [|b0|b0 b1|b0 b1 b2 bytes IH] using list_ind3; [done|..].
  - rewrite toBase64Url_single. pose proof (byteValue_range b0).
    by rewrite !trimPadding_cons by (apply symbol_not_padding; div_mod).
  - rewrite toBase64Url_pair. pose proof (byteValue_range b0). pose proof (byteValue_range b1).
    by rewrite !trimPadding_cons by (apply symbol_not_padding; div_mod).
  - rewrite toBase64Url_quad. pose proof (byteValue_range b0). pose proof (byteValue_range b1).
    pose proof (byteValue_range b2).
    by rewrite !trimPadding_cons, IH by (apply symbol_not_padding; div_mod).
Qed.

Lemma toBase64Url_length bytes : (String.length (toBase64Url bytes) mod 4 <> 1)%nat.
Proof.
  induction bytes as [|b0|b0 b1|b0 b1 b2 bytes IH] using list_ind3; [done..|].
  rewrite toBase64Url_quad. simpl String.length. revert IH.
  generalize (String.length (toBase64Url bytes)). intros n Hn.
  replace (S (S (S (S n)))) with (n + 1 * 4)%nat by lia. by rewrite Nat.Div0.mod_add.
Qed.

Lemma base64Loop_ok_head c rest acc p r :
  base64Loop (String c rest) acc p = Ok r ->
  (exists d, decodes c d) /\ exists acc' p' r', base64Loop rest acc' p' = Ok r'.
Proof.
  intros Hr. destruct (decodes_or_not c) as [Hc|Hc].
  { destruct (base64Loop_invalid c rest acc p Hc) as [e He]. congruence. }
  split; [done|]. cbn [base64Loop] in Hr. case_match; [done|]. case_match; [|by eauto].
  apply result_bind_ok in Hr as (_ & _ & ([out final] & Hr & _)%result_bind_ok). eauto.
Qed.

Lemma toBase64Url_of_loop text : forall acc out acc' p,
  base64Loop text acc 0 = Ok (out, (acc', p)) ->
  (String.length text mod 4 <> 1)%nat ->
  (0 <? p) && negb (Z.land acc' (u32 (Z.shiftl 1 p) - 1) =? 0) = false ->
  toBase64Url out = text.
Proof.
  induction text as [|c0|c0 c1|c0 c1 c2|c0 c1 c2 c3 text IH] using string_ind4;
    intros acc out acc' p Hloop Hlen Hcheck.
  - by injection Hloop as <- <- <-.
  - by destruct Hlen.
  - pose proof (base64Loop_ok_head _ _ _ _ _ Hloop) as [[d0 H0] (a1 & p1 & r1 & Hr1)].
    pose proof (base64Loop_ok_head _ _ _ _ _ Hr1) as [[d1 H1] _].
    destruct (base64Loop_pair c0 c1 d0 d1 acc H0 H1) as (a2 & Ha2 & Heq).
    rewrite Hloop in Heq. injection Heq as -> -> ->. pose proof (proj2 H0). pose proof (proj2 H1).
    rewrite (mask_reads_low _ _ (d1 mod 16)) in Hcheck by (try done; div_mod).
    apply negb_false_iff, Z.eqb_eq in Hcheck.
    rewrite toBase64Url_single, byteValue_toByte, (decodes_spelling c0 d0 H0), (decodes_spelling c1 d1 H1).
    same_symbols.
  - pose proof (base64Loop_ok_head _ _ _ _ _ Hloop) as [[d0 H0] (a1 & p1 & r1 & Hr1)].
    pose proof (base64Loop_ok_head _ _ _ _ _ Hr1) as [[d1 H1] (a2 & p2 & r2 & Hr2)].
    pose proof (base64Loop_ok_head _ _ _ _ _ Hr2) as [[d2 H2] _].
    destruct (base64Loop_triple c0 c1 c2 d0 d1 d2 acc H0 H1 H2) as (a3 & Ha3 & Heq).
    rewrite Hloop in Heq. injection Heq as -> -> ->.
    pose proof (proj2 H0). pose proof (proj2 H1). pose proof (proj2 H2).
    rewrite (mask_reads_low _ _ (d2 mod 4)) in Hcheck by (try done; div_mod).
    apply negb_false_iff, Z.eqb_eq in Hcheck.
    rewrite toBase64Url_pair, !byteValue_toByte, (decodes_spelling c0 d0 H0),
      (decodes_spelling c1 d1 H1), (decodes_spelling c2 d2 H2).
    same_symbols.
  - pose proof (base64Loop_ok_head _ _ _ _ _ Hloop) as [[d0 H0] (a1 & p1 & r1 & Hr1)].
    pose proof (base64Loop_ok_head _ _ _ _ _ Hr1) as [[d1 H1] (a2 & p2 & r2 & Hr2)].
    pose proof (base64Loop_ok_head _ _ _ _ _ Hr2) as [[d2 H2] (a3 & p3 & r3 & Hr3)].
    pose proof (base64Loop_ok_head _ _ _ _ _ Hr3) as [[d3 H3] _].
    destruct (base64Loop_quad c0 c1 c2 c3 d0 d1 d2 d3 text acc H0 H1 H2 H3) as (a4 & Heq).
    rewrite Hloop in Heq. symmetry in Heq.
    apply result_bind_ok in Heq as ([out' [a5 p5]] & Hrest & Heq).
    injection Heq as <- <- <-.
    assert (Hlen' : (String.length text mod 4 <> 1)%nat).
    { simpl String.length in Hlen. revert Hlen. generalize (String.length text). intros n.
      replace (S (S (S (S n)))) with (n + 1 * 4)%nat by lia. by rewrite Nat.Div0.mod_add. }
    specialize (IH _ _ _ _ Hrest Hlen' Hcheck).
    pose proof (proj2 H0). pose proof (proj2 H1). pose proof (proj2 H2). pose proof (proj2 H3).
    rewrite toBase64Url_quad, IH, !byteValue_toByte, (decodes_spelling c0 d0 H0),
      (decodes_spelling c1 d1 H1), (decodes_spelling c2 d2 H2), (decodes_spelling c3 d3 H3).
    same_symbols.
Qed.

Lemma fromHex_toHex bytes : fromHex (toHex bytes) = Ok bytes.
Proof.
  unfold fromHex. rewrite toHex_length.
  replace ((2 * length bytes) mod 2 =? 0)%nat with true; [apply fromHexLoop_toHex|].
  symmetry. apply Nat.eqb_eq. rewrite Nat.mul_comm. apply Nat.Div0.mod_mul.
Qed.

(** A token survives the wire. Decoding the base64url text of any octets
    gives those octets back, and so does hexadecimal; no decoder invariant
    aborts on encoder output. *)
Theorem encodings_roundtrip bytes :
  fromBase64Url (toBase64Url bytes) = Ok bytes /\ fromHex (toHex bytes) = Ok bytes.
Proof.
  split; [|apply fromHex_toHex].
  - unfold fromBase64Url. rewrite trimPadding_toBase64Url.
    rewrite (proj2 (Nat.eqb_neq _ _)) by apply toBase64Url_length.
    destruct (base64Loop_toBase64Url bytes 0) as (acc & p & Hacc & Hp & ->).
    cbn [mbind result_bind].
    rewrite (mask_reads_low acc p 0) by (done || lia). by rewrite andb_false_r.
Qed.

Lemma fromBase64Url_canonical text bytes :
  fromBase64Url text = Ok bytes -> toBase64Url bytes = trimPadding text.
Proof.
  unfold fromBase64Url. case_match eqn:Hlen; [done|]. apply Nat.eqb_neq in Hlen.
  intros ([out [acc p]] & Hloop & Hres)%result_bind_ok. case_match eqn:Hcheck; [done|].
  injection Hres as <-. by eapply toBase64Url_of_loop.
Qed.

(** The decoder accepts canonical text only. Two texts that decode to the
    same octets are the same text once trailing padding is dropped, and that
    text is the encoder's. *)
Theorem base64url_canonical text1 text2 bytes :
  fromBase64Url text1 = Ok bytes -> fromBase64Url text2 = Ok bytes ->
  trimPadding text1 = toBase64Url bytes /\ trimPadding text1 = trimPadding text2.
Proof. intros H1%fromBase64Url_canonical H2%fromBase64Url_canonical. split; congruence. Qed.

Lemma base64url_canonical_witness :
  trimPadding "AQI" = toBase64Url [x01; x02] /\ trimPadding "AQI" = trimPadding "AQI=".
Proof. apply base64url_canonical; reflexivity. Defined.

(** The padding characters are the exception: a value has one spelling for
    every number of trailing [=], whatever that number is. *)
Lemma padding_is_not_canonical :
  fromBase64Url "AQI" = Ok [x01; x02] /\ fromBase64Url "AQI=" = Ok [x01; x02] /\
  fromBase64Url "AQI=====" = Ok [x01; x02].
Proof. repeat split. Qed.
