(* ===== verification/Security.v ===== *)
(** * openproof.security: the cryptographic boundary

    Models [src/src/security/random.cpp] and [hash.cpp]. OpenSSL and the clock
    are not part of the repository: they are the operations of the class
    [Platform], with the documented behaviour the code relies on as laws. The
    effects of the random generator and of the clock act on an abstract [world]. *)
From S2P Require Import Prelude Foundation Encoding.

(** ** The platform: OpenSSL and the clock *)

Class Platform := {
  world : Type;
  (** [RAND_bytes]: [None] is a status other than 1. *)
  RAND_bytes : nat -> world -> option (list byte) * world;
  (** [EVP_Digest] with [EVP_sha256]: the digest buffer, [None] on failure. *)
  EVP_sha256 : list byte -> option (list byte);
  (** [HMAC] with [EVP_sha256]. *)
  HMAC_sha256 : list byte -> list byte -> option (list byte);
  (** [CRYPTO_memcmp] on two buffers of one length. *)
  CRYPTO_memcmp : list byte -> list byte -> Z;
  (** [ClockSource::now]. *)
  clock_now : world -> Instant * world;
}.

(** The documented behaviour. *)
Class PlatformLaws (P : Platform) := {
  RAND_bytes_length n w bs w' : RAND_bytes n w = (Some bs, w') -> length bs = n;
  CRYPTO_memcmp_zero a b : length a = length b -> CRYPTO_memcmp a b = 0 <-> a = b;
}.

(** [security::Sha256Digest]: an array of 32 octets. *)
Definition kSha256Size : nat := 32.
Abbreviation Sha256Digest := (list byte).
(** [Sha256Digest{}]. *)
Definition zeroDigest : Sha256Digest := replicate kSha256Size (toByte 0).

#[global] Instance bytes_key_order : KeyOrder (list byte).
Proof.
  refine {| key_le := fun a b =>
    String.le (String.string_of_list_byte a) (String.string_of_list_byte b) |}.
  - intros a b. apply _.
  - split; [split|].
    + intros a. done.
    + intros a b c ??. by etrans.
    + intros a b ??. rewrite <- (String.list_byte_of_string_of_list_byte a).
      rewrite <- (String.list_byte_of_string_of_list_byte b). f_equal.
      by apply (anti_symm String.le).
  - intros a b. apply (total String.le).
Defined.

Section security.
Context `{P : Platform}.

Definition intMax : Z := 2147483647.

Definition randomBytes (count : nat) : prog world Error (list byte) :=
  if (count =? 0)%nat then mret []
  else if intMax <? Z.of_nat count then
    lift (fail InvalidArgument "Requested random byte count is too large.")
  else fun w =>
    match RAND_bytes count w with
    | (Some buffer, w) => (Ok buffer, w)
    | (None, w) =>
        (failDetail Internal (defaultErrorMessage Internal)
           "The cryptographic random number generator failed.", w)
    end.

Definition randomTokenBase64Url (byteCount : nat) : prog world Error string :=
  bytes ← randomBytes byteCount;
  mret (toBase64Url bytes).

Definition sha256 (data : list byte) : Result Sha256Digest :=
  match EVP_sha256 data with
  | Some digest =>
      if (length digest =? kSha256Size)%nat then Ok digest
      else failDetail Internal (defaultErrorMessage Internal)
             "SHA-256 computation failed in the cryptographic provider."
  | None => failDetail Internal (defaultErrorMessage Internal)
              "SHA-256 computation failed in the cryptographic provider."
  end.

(** [sha256(std::string_view)]. *)
Definition sha256Text (data : string) : Result Sha256Digest := sha256 (as_bytes data).

Definition hmacSha256 (key data : string) : Result Sha256Digest :=
  if bool_decide (key = "") then fail InvalidArgument "An HMAC key must not be empty."
  else if intMax <? Z.of_nat (String.length key) then
    fail InvalidArgument "The HMAC key is too large."
  else
    match HMAC_sha256 (as_bytes key) (as_bytes data) with
    | Some digest =>
        if (length digest =? kSha256Size)%nat then Ok digest
        else failDetail Internal (defaultErrorMessage Internal)
               "HMAC-SHA-256 computation failed in the cryptographic provider."
    | None => failDetail Internal (defaultErrorMessage Internal)
                "HMAC-SHA-256 computation failed in the cryptographic provider."
    end.

Definition constantTimeEquals (left right : list byte) : bool :=
  if negb (length left =? length right)%nat then false
  else if (length left =? 0)%nat then true
  else CRYPTO_memcmp left right =? 0.

(** The clock reading as a step on the world. *)
Definition now : prog world Error Instant := fun w => let '(t, w) := clock_now w in (Ok t, w).

Context `{!PlatformLaws P}.

Lemma constant_time_equals_spec left right :
  constantTimeEquals left right = bool_decide (left = right).
Proof.
  unfold constantTimeEquals. destruct (length left =? length right)%nat eqn:Hlen; simpl.
  - apply Nat.eqb_eq in Hlen. destruct (length left =? 0)%nat eqn:Hz.
    + apply Nat.eqb_eq in Hz. rewrite Hz in Hlen. symmetry in Hlen.
      apply nil_length_inv in Hz, Hlen. subst. by rewrite bool_decide_eq_true_2.
    + case_bool_decide as Heq.
      * by apply Z.eqb_eq, CRYPTO_memcmp_zero.
      * apply Z.eqb_neq. intros Hc. by apply Heq, CRYPTO_memcmp_zero.
  - apply Nat.eqb_neq in Hlen. rewrite bool_decide_eq_false_2; [done|congruence].
Qed.

(** Failure of the generator is an error; nothing weaker is substituted. *)
Lemma randomBytes_length count w bytes w' :
  randomBytes count w = (Ok bytes, w') -> length bytes = count.
Proof.
  unfold randomBytes. destruct (count =? 0)%nat eqn:Hz.
  { apply Nat.eqb_eq in Hz as ->. by intros [= <- <-]. }
  case_match; [done|]. destruct (RAND_bytes count w) as [[bs|] w1] eqn:Hr; [|done].
  intros [= -> ->]. by eapply RAND_bytes_length.
Qed.

Lemma randomToken_decodes n w token w' :
  randomTokenBase64Url n w = (Ok token, w') ->
  exists bytes, token = toBase64Url bytes /\ length bytes = n.
Proof.
  intros (bytes & w1 & Hb & [= <- <-])%prog_bind_ok.
  exists bytes. split; [done|]. by eapply randomBytes_length.
Qed.

Lemma sha256Text_length data digest : sha256Text data = Ok digest -> length digest = kSha256Size.
Proof.
  unfold sha256Text, sha256. destruct (EVP_sha256 _) as [d|]; [|done].
  destruct (length d =? kSha256Size)%nat eqn:Hl; [|done]. intros [= <-]. by apply Nat.eqb_eq.
Qed.

Lemma hmac_deterministic_length key data digest :
  hmacSha256 key data = Ok digest -> length digest = kSha256Size.
Proof.
  unfold hmacSha256. intros H. handler H. by apply Nat.eqb_eq.
Qed.
End security.

(** A concrete platform for evaluation: a counter for the clock and for the
    random octets, and a checksum in place of the hash functions. *)
Module TestPlatform.
Definition checksum (data : list byte) : list byte :=
  let total := foldl (fun acc b => u32 (acc * 31 + byteValue b + 7)) 1 data in
  (fun i => toByte (total / 2 ^ (8 * Z.of_nat (i mod 4)))) <$> seq 0 kSha256Size.

#[global] Instance test : Platform := {
  world := Z;
  RAND_bytes n w := (Some ((fun i => toByte (w + Z.of_nat i)) <$> seq 0 n), w + 1);
  EVP_sha256 data := Some (checksum data);
  HMAC_sha256 key data := Some (checksum (key ++ data));
  CRYPTO_memcmp a b := if bool_decide (a = b) then 0 else 1;
  clock_now w := (w, w + 1);
}.

#[global] Instance test_laws : PlatformLaws test.
Proof.
  split.
  - intros n w bs w' [= <- _]. by rewrite length_fmap, length_seq.
  - intros a b _. simpl. case_bool_decide; naive_solver.
Qed.
End TestPlatform.

(** ** A store and the platform *)

(** A store behind a reference, and the platform. *)
Record with_world (T W : Type) := mkWith { v_store : T; v_world : W }.
Arguments mkWith {T W}.
Arguments v_store {T W}.
Arguments v_world {T W}.

Section with_world.
Context `{Plat : Platform}.
Context {T : Type}.
Implicit Types s : with_world T world.

Definition in_store {B} (m : prog T Error B) : prog (with_world T world) Error B :=
  zoom v_store (fun x s => mkWith x (v_world s)) m.
Definition in_world {B} (m : prog world Error B) : prog (with_world T world) Error B :=
  zoom v_world (fun x s => mkWith (v_store s) x) m.
Definition query {B} (f : T -> Result B) : prog (with_world T world) Error B := fun s => (f (v_store s), s).

(** The platform moves on. *)
Definition moved s (w : world) : with_world T world := mkWith (v_store s) w.

Lemma in_world_moved {B} (m : prog world Error B) s r s' :
  in_world m s = (r, s') -> exists w, m (v_world s) = (r, w) /\ s' = moved s w.
Proof. intros (w & Hm & ->)%zoom_eq. by exists w. Qed.

Lemma in_now_run s : exists t w, clock_now (v_world s) = (t, w) /\ in_world now s = (Ok t, moved s w).
Proof. unfold in_world, zoom, now. destruct (clock_now _) as [t w]. by exists t, w. Qed.

Lemma in_store_run {B} (m : prog T Error B) s : in_store m s = ((m (v_store s)).1, mkWith (m (v_store s)).2 (v_world s)).
Proof. unfold in_store, zoom. by destruct (m _). Qed.
End with_world.
