(* ===== verification/Aead.v ===== *)
(** * openproof.security: authenticated encryption

    Models [src/src/security/aead.cpp]: the envelopes credentials are stored in.
    An envelope is a nonce, the ciphertext and the tag, one after the other. The
    cipher itself is OpenSSL's, which is not part of the repository: it is the
    class [AeadPlatform]. *)
From S2P Require Import Prelude Foundation Encoding Security.

(** The calls of the cipher that can fail, in order. *)
Inductive EvpStep := ContextAllocation | CipherInitialization | AssociatedDataUpdate | CipherUpdate | CipherFinal.

(** AES-256 in Galois/counter mode, on key, nonce, associated data and text.
    [inr] is the call that failed; an authentication failure is [inl None]. *)
Class AeadPlatform := {
  aes256gcm_seal : list byte -> list byte -> list byte -> list byte -> (list byte * list byte) + EvpStep;
  aes256gcm_open : list byte -> list byte -> list byte -> list byte -> list byte -> option (list byte) + EvpStep;
}.

(** The documented behaviour: the ciphertext is as long as the plaintext, the
    tag has 16 octets, and decryption accepts what encryption yields, nothing
    else. *)
Class AeadPlatformLaws (A : AeadPlatform) := {
  aes256gcm_lengths key nonce ad text cipher tag :
    aes256gcm_seal key nonce ad text = inl (cipher, tag) -> length cipher = length text /\ length tag = 16%nat;
  aes256gcm_open_sealed key nonce ad text cipher tag :
    aes256gcm_open key nonce ad cipher tag = inl (Some text) <->
    aes256gcm_seal key nonce ad text = inl (cipher, tag);
}.

Definition kNonceBytes : nat := 12.
Definition kTagBytes : nat := 16.
Definition kMaximumPlaintextBytes : nat := 4096.

Definition cryptographicFailure (detail : string) : Error :=
  Error_ofDetail Internal "An internal error occurred." detail.

Module AeadKey.
Record t := mk { m_key : string }.

Definition create (key : string) : Result t :=
  if negb (String.length key =? 32)%nat then
    fail InvalidArgument "An authenticated-encryption key must contain exactly 32 bytes."
  else Ok (mk key).

Definition matches `{Platform} (key other : t) : bool :=
  CRYPTO_memcmp (as_bytes (m_key key)) (as_bytes (m_key other)) =? 0.

Lemma create_length key k : create key = Ok k -> m_key k = key /\ String.length (m_key k) = 32%nat.
Proof.
  unfold create. destruct (String.length key =? 32)%nat eqn:Hl; [|done]. intros [= <-].
  split; [done|]. by apply Nat.eqb_eq.
Qed.
End AeadKey.

Section aead.
Context `{Plat : Platform} {A : AeadPlatform}.

(** What [sealAes256Gcm] reports when a call fails. *)
Definition sealFailure (step : EvpStep) : Error :=
  cryptographicFailure
    match step with
    | ContextAllocation => "EVP context allocation failed."
    | CipherInitialization => "AES-GCM initialization failed."
    | AssociatedDataUpdate => "AES-GCM AAD processing failed."
    | CipherUpdate => "AES-GCM encryption failed."
    | CipherFinal => "AES-GCM finalization failed."
    end.

Definition sealAes256Gcm (key : AeadKey.t) (plaintext associatedData : string) : prog world Error (list byte) :=
  if bool_decide (plaintext = "") || (kMaximumPlaintextBytes <? String.length plaintext)%nat
     || (kMaximumPlaintextBytes <? String.length associatedData)%nat then
    throw (Error_ofMessage InvalidArgument "The authenticated-encryption input is invalid.")
  else
    nonce ← randomBytes kNonceBytes;
    match aes256gcm_seal (as_bytes (AeadKey.m_key key)) nonce (as_bytes associatedData) (as_bytes plaintext) with
    | inl (ciphertext, tag) => mret (nonce ++ ciphertext ++ tag)
    | inr step => throw (sealFailure step)
    end.

(** What [openAes256Gcm] reports when a call fails. The final call fails on
    authentication only. *)
Definition openFailure (step : EvpStep) : Error :=
  match step with
  | ContextAllocation => cryptographicFailure "EVP context allocation failed."
  | CipherInitialization => cryptographicFailure "AES-GCM initialization failed."
  | AssociatedDataUpdate => cryptographicFailure "AES-GCM AAD processing failed."
  | CipherUpdate => cryptographicFailure "AES-GCM decryption setup failed."
  | CipherFinal => Error_ofMessage AuthenticationFailed "Encrypted credential authentication failed."
  end.

Definition openAes256Gcm (key : AeadKey.t) (envelope : list byte) (associatedData : string) : Result string :=
  if (length envelope <=? kNonceBytes + kTagBytes)%nat
     || (kNonceBytes + kMaximumPlaintextBytes + kTagBytes <? length envelope)%nat
     || (kMaximumPlaintextBytes <? String.length associatedData)%nat then
    fail InvalidArgument "The encrypted credential envelope is invalid."
  else
    let ciphertextBytes := (length envelope - kNonceBytes - kTagBytes)%nat in
    let nonce := take kNonceBytes envelope in
    let ciphertext := take ciphertextBytes (drop kNonceBytes envelope) in
    let tag := drop (kNonceBytes + ciphertextBytes) envelope in
    match aes256gcm_open (as_bytes (AeadKey.m_key key)) nonce (as_bytes associatedData) ciphertext tag with
    | inl (Some plaintext) => Ok (String.string_of_list_byte plaintext)
    | inl None => Err (openFailure CipherFinal)
    | inr step => Err (openFailure step)
    end.

Context `{!PlatformLaws Plat} `{!AeadPlatformLaws A}.

Lemma as_bytes_length s : length (as_bytes s) = String.length s.
Proof. unfold as_bytes. induction s; cbn; [done|]. by f_equal. Qed.

Lemma as_bytes_of_bytes bs : as_bytes (String.string_of_list_byte bs) = bs.
Proof. unfold as_bytes. apply String.list_byte_of_string_of_list_byte. Qed.

(** The text fits the limits on both ways. *)
Definition sealable (text ad : string) : Prop :=
  text <> "" /\ (String.length text <= kMaximumPlaintextBytes)%nat /\
  (String.length ad <= kMaximumPlaintextBytes)%nat.

(** The three parts of an envelope. *)
Lemma envelope_parts (nonce cipher tag : list byte) :
  length nonce = kNonceBytes -> length tag = kTagBytes ->
  let e := nonce ++ cipher ++ tag in
  let n := (length e - kNonceBytes - kTagBytes)%nat in
  n = length cipher /\ take kNonceBytes e = nonce /\ take n (drop kNonceBytes e) = cipher /\
  drop (kNonceBytes + n) e = tag.
Proof.
  intros Hn Ht e n. assert (n = length cipher) as Hc.
  { unfold n, e. rewrite !length_app, Hn, Ht. lia. }
  split; [done|]. rewrite Hc. unfold e. split_and!.
  - rewrite <- Hn. by rewrite take_app_length.
  - rewrite <- Hn. rewrite drop_app_length. by rewrite take_app_length.
  - rewrite <- Hn, app_assoc, <- length_app. by rewrite drop_app_length.
Qed.

(** What a successful sealing drew and computed. *)
Lemma seal_ok key text ad w envelope w' :
  sealAes256Gcm key text ad w = (Ok envelope, w') ->
  sealable text ad /\ exists nonce cipher tag,
    envelope = nonce ++ cipher ++ tag /\ length nonce = kNonceBytes /\
    aes256gcm_seal (as_bytes (AeadKey.m_key key)) nonce (as_bytes ad) (as_bytes text) = inl (cipher, tag).
Proof.
  unfold sealAes256Gcm. intros H. branch H Hb; [done|]. bool_prop.
  apply prog_bind_ok in H as (nonce & w1 & Hr & H). apply randomBytes_length in Hr.
  destruct (aes256gcm_seal _ _ _ _) as [[cipher tag]|] eqn:Hs; [|done]. injection H as <- <-.
  rewrite !Nat.ltb_ge in *. split; [done|]. by exists nonce, cipher, tag.
Qed.

(** An envelope opens to a text exactly when it is a nonce, and what the cipher
    makes of the text under that nonce, the key and the associated data. *)
Lemma open_ok key nonce cipher tag ad text :
  length nonce = kNonceBytes -> length tag = kTagBytes ->
  openAes256Gcm key (nonce ++ cipher ++ tag) ad = Ok text <->
  sealable text ad /\
  aes256gcm_seal (as_bytes (AeadKey.m_key key)) nonce (as_bytes ad) (as_bytes text) = inl (cipher, tag).
Proof.
  intros Hn Ht. destruct (envelope_parts nonce cipher tag Hn Ht) as (En & Enonce & Ec & Et).
  unfold openAes256Gcm. rewrite Enonce, Ec, Et, <- aes256gcm_open_sealed.
  rewrite !length_app, Hn, Ht. split.
  - intros H. branch H Hb; [done|]. bool_prop. rewrite Nat.leb_gt, !Nat.ltb_ge in *.
    destruct (aes256gcm_open _ _ _ _ _) as [[plain|]|] eqn:Ho; [|done|done]. injection H as <-.
    rewrite as_bytes_of_bytes. split; [|done].
    apply aes256gcm_open_sealed, aes256gcm_lengths in Ho as [Hlen _].
    assert (String.length (String.string_of_list_byte plain) = length plain) as Hl.
    { by rewrite <- as_bytes_length, as_bytes_of_bytes. }
    split_and!; [|lia|done]. intros E. rewrite E in Hl. cbn in Hl. lia.
  - intros [(Hne & Hm & Ha) Ho]. assert (length cipher = String.length text) as Hlen.
    { apply aes256gcm_open_sealed, aes256gcm_lengths in Ho as [? _]. by rewrite <- as_bytes_length. }
    assert (String.length text <> 0%nat) by (by destruct text).
    rewrite (proj2 (Nat.leb_gt _ _)), !(proj2 (Nat.ltb_ge _ _)) by lia. cbn [orb]. rewrite Ho.
    unfold as_bytes. by rewrite String.string_of_list_byte_of_string.
Qed.

(** Sealing and opening are inverse, and nothing else opens. A text that is
    sealed opens under the same key and associated data, to itself. Conversely
    an envelope of the right shape opens to a text only when its ciphertext and
    tag are what the cipher makes of that very text, under that key, that nonce
    and that associated data: an envelope cannot be moved to another owner,
    whose name is the associated data, or altered, unless the cipher itself
    yields the altered octets. *)
Theorem sealed_text_opens key text ad w envelope w' :
  sealAes256Gcm key text ad w = (Ok envelope, w') ->
  openAes256Gcm key envelope ad = Ok text /\
  forall key' nonce cipher tag ad' text',
    length nonce = kNonceBytes -> length tag = kTagBytes -> envelope = nonce ++ cipher ++ tag ->
    openAes256Gcm key' envelope ad' = Ok text' ->
    aes256gcm_seal (as_bytes (AeadKey.m_key key')) nonce (as_bytes ad') (as_bytes text') = inl (cipher, tag).
Proof.
  intros (Hs & nonce & cipher & tag & -> & Hn & He)%seal_ok.
  destruct (aes256gcm_lengths _ _ _ _ _ _ He) as [_ Ht]. split; [by apply open_ok|].
  intros key' nonce' cipher' tag' ad' text' Hn' Ht' -> Ho. by apply open_ok in Ho as [_ Ho].
Qed.
End aead.

(** A cipher for evaluation: the text itself, and a checksum as its tag. *)
Module TestCipher.
Import TestPlatform.

Definition tag (key nonce ad text : list byte) : list byte := take kTagBytes (checksum (key ++ nonce ++ ad ++ text)).

#[global] Instance test_cipher : AeadPlatform := {
  aes256gcm_seal key nonce ad text := inl (text, tag key nonce ad text);
  aes256gcm_open key nonce ad cipher t := inl (if bool_decide (tag key nonce ad cipher = t) then Some cipher else None);
}.

#[global] Instance test_cipher_laws : AeadPlatformLaws test_cipher.
Proof.
  split.
  - intros key nonce ad text cipher t [= <- <-]. split; [done|]. done.
  - intros key nonce ad text cipher t. simpl. case_bool_decide; naive_solver.
Qed.
End TestCipher.

Module AeadWitnesses.
Import TestPlatform TestCipher.

Definition aead_key : AeadKey.t := AeadKey.mk "0123456789abcdef0123456789abcdef".
Definition sealing := sealAes256Gcm (Plat:=test) aead_key "seed" "openproof/totp/v1:alice" 7.

Lemma sealed_text_opens_witness :
  exists envelope, sealing.1 = Ok envelope /\ openAes256Gcm aead_key envelope "openproof/totp/v1:alice" = Ok "seed".
Proof.
  eexists. split; [vm_compute; reflexivity|].
  refine (proj1 (sealed_text_opens (Plat:=test) aead_key "seed" "openproof/totp/v1:alice" 7 _ sealing.2 _)).
  vm_compute. reflexivity.
Defined.

(** The envelope of one owner does not open as the envelope of another. *)
Example envelope_is_bound_to_its_owner :
  match sealing.1 with
  | Ok envelope => openAes256Gcm aead_key envelope "openproof/totp/v1:bob"
  | Err e => Err e
  | Aborted => Aborted
  end = fail AuthenticationFailed "Encrypted credential authentication failed.".
Proof. vm_compute. reflexivity. Qed.
End AeadWitnesses.
