(* ===== verification/Provider.v ===== *)
(** * openproof.identity.provider: the authentication provider interface

    Models [src/src/identity/provider]: assurance levels and factors
    ([assurance]), claims, evidence and outcomes ([outcome]), requests,
    challenges and responses ([authenticator]) and the provider registry
    ([registry]). A provider is code behind a virtual interface: here a record
    of operations that act on the platform's world and may throw. *)
From S2P Require Import Prelude Foundation Encoding Security.

(** ** assurance.cppm, assurance.cpp *)

Inductive AssuranceLevel := Ial0 | Ial1 | Ial2 | Ial3 | Ial4.

#[global] Instance AssuranceLevel_eq_dec : EqDecision AssuranceLevel.
Proof. solve_decision. Defined.

(** [static_cast<std::uint8_t>(level)]. *)
Definition assuranceValue (level : AssuranceLevel) : Z :=
  match level with Ial0 => 0 | Ial1 => 1 | Ial2 => 2 | Ial3 => 3 | Ial4 => 4 end.

Definition assuranceLevelName (level : AssuranceLevel) : string :=
  match level with
  | Ial0 => "ial0" | Ial1 => "ial1" | Ial2 => "ial2" | Ial3 => "ial3" | Ial4 => "ial4"
  end.

Definition meetsAssurance (actual required : AssuranceLevel) : bool :=
  assuranceValue required <=? assuranceValue actual.

(** [std::min] on the scoped enumeration. *)
Definition minAssurance (a b : AssuranceLevel) : AssuranceLevel :=
  if assuranceValue b <? assuranceValue a then b else a.

(** A set of factors is a bit mask of a [std::uint8_t]. *)
Abbreviation AuthenticationFactor := Z.
Definition FactorNone : AuthenticationFactor := 0.
Definition Knowledge : AuthenticationFactor := 1.
Definition Possession : AuthenticationFactor := 2.
Definition Inherence : AuthenticationFactor := 4.

Definition containsFactor (set wanted : AuthenticationFactor) : bool := Z.land set wanted =? wanted.

(** [std::popcount] of an octet. *)
Definition popcount8 (z : Z) : Z :=
  foldr (fun i n => (if Z.testbit z (Z.of_nat i) then 1 else 0) + n) 0 (seq 0 8).

Module AuthenticationStrength.
Record t := mk { factors : AuthenticationFactor; isPhishingResistant : bool }.

#[global] Instance eq_dec : EqDecision t.
Proof. solve_decision. Defined.

Definition none : t := mk FactorNone false.

Definition isMultiFactor (s : t) : bool := 2 <=? popcount8 (factors s).
End AuthenticationStrength.

(** ** outcome.cppm, outcome.cpp *)

Inductive ProviderIdTag := .
Inductive ExternalSubjectTag := .
Abbreviation ProviderId := (StrongId ProviderIdTag).
Abbreviation ExternalSubject := (StrongId ExternalSubjectTag).

Abbreviation AttributeMap := (gmap string string).

Inductive ClaimName :=
| Email | EmailVerified | PhoneNumber | PhoneNumberVerified
| DisplayName | PreferredUsername | Locale | PictureUrl.

Definition claimNameKey (name : ClaimName) : string :=
  match name with
  | Email => "email"
  | EmailVerified => "email_verified"
  | PhoneNumber => "phone_number"
  | PhoneNumberVerified => "phone_number_verified"
  | DisplayName => "display_name"
  | PreferredUsername => "preferred_username"
  | Locale => "locale"
  | PictureUrl => "picture_url"
  end.

Module VerifiedClaims.
Record t := mk { m_claims : AttributeMap }.
Definition create : t := mk ∅.
Definition setExtension (c : t) (key value : string) : t := mk (<[key := value]> (m_claims c)).
Definition set (c : t) (name : ClaimName) (value : string) : t :=
  setExtension c (claimNameKey name) value.
Definition getExtension (c : t) (key : string) : option string := m_claims c !! key.
Definition get (c : t) (name : ClaimName) : option string := getExtension c (claimNameKey name).
Definition isTrue (c : t) (name : ClaimName) : bool :=
  match get c name with
  | Some value => bool_decide (value = "true") || bool_decide (value = "1")
  | None => false
  end.
Definition empty (c : t) : bool := bool_decide (m_claims c = ∅).
Definition size (c : t) : nat := base.size (m_claims c).
End VerifiedClaims.

Module ProviderEvidence.
Record t := mk { m_attributes : AttributeMap }.
Definition create : t := mk ∅.
Definition add (e : t) (key value : string) : t := mk (<[key := value]> (m_attributes e)).
Definition get (e : t) (key : string) : option string := m_attributes e !! key.
Definition empty (e : t) : bool := bool_decide (m_attributes e = ∅).
End ProviderEvidence.

Module AuthenticationOutcome.
Record t := mk {
  provider : ProviderId;
  subject : ExternalSubject;
  claims : VerifiedClaims.t;
  claimedAssurance : AssuranceLevel;
  strength : AuthenticationStrength.t;
  evidence : ProviderEvidence.t;
  verifiedAt : Instant;
}.

Definition create (provider : ProviderId) (subject : ExternalSubject) (claims : VerifiedClaims.t)
    (claimedAssurance : AssuranceLevel) (strength : AuthenticationStrength.t)
    (evidence : ProviderEvidence.t) (verifiedAt : Instant) : Result t :=
  if id_empty provider then
    fail InvalidArgument "An authentication outcome must name its provider."
  else if id_empty subject then
    failDetail InvalidArgument "An authentication outcome must carry a subject identifier."
      "A provider returned an outcome with an empty external subject; accepting it would bind a session to no identity."
  else mret (mk provider subject claims claimedAssurance strength evidence verifiedAt).
End AuthenticationOutcome.

(** ** authenticator.cppm, authenticator.cpp *)

Inductive InteractionModel := Redirect | ChallengeResponse | OutOfBand | Assertion | Delegated.

#[global] Instance InteractionModel_eq_dec : EqDecision InteractionModel.
Proof. solve_decision. Defined.

Definition interactionModelName (model : InteractionModel) : string :=
  match model with
  | Redirect => "redirect"
  | ChallengeResponse => "challenge_response"
  | OutOfBand => "out_of_band"
  | Assertion => "assertion"
  | Delegated => "delegated"
  end.

Inductive ChallengeIdTag := .
Abbreviation ChallengeId := (StrongId ChallengeIdTag).

Module ClientContext.
Record t := mk { remoteAddress : string; userAgent : string }.
Definition create : t := mk "" "".
Definition setRemoteAddress (c : t) (value : string) : t := mk value (userAgent c).
Definition setUserAgent (c : t) (value : string) : t := mk (remoteAddress c) value.
End ClientContext.

Module AuthenticationRequest.
Record t := mk {
  provider : ProviderId;
  client : ClientContext.t;
  requestedAssurance : option AssuranceLevel;
  parameters : AttributeMap;
}.
Definition create (provider : ProviderId) (client : ClientContext.t) : t := mk provider client None ∅.
Definition setRequestedAssurance (r : t) (level : AssuranceLevel) : t :=
  mk (provider r) (client r) (Some level) (parameters r).
Definition setParameter (r : t) (key value : string) : t :=
  mk (provider r) (client r) (requestedAssurance r) (<[key := value]> (parameters r)).
End AuthenticationRequest.

Module AuthenticationChallenge.
Record t := mk { id : ChallengeId; expiresAt : Instant; parameters : AttributeMap }.
Definition create (id : ChallengeId) (expiresAt : Instant) : t := mk id expiresAt ∅.
Definition isExpiredAt (c : t) (now : Instant) : bool := expiresAt c <=? now.
Definition setParameter (c : t) (key value : string) : t :=
  mk (id c) (expiresAt c) (<[key := value]> (parameters c)).
End AuthenticationChallenge.

Module AuthenticationResponse.
(** Parameter values are [CredentialValue]s: move-only secrets. *)
Record t := mk { challengeId : ChallengeId; client : ClientContext.t; parameters : AttributeMap }.
Definition create (challengeId : ChallengeId) (client : ClientContext.t) : t := mk challengeId client ∅.
Definition setParameter (r : t) (key value : string) : t :=
  mk (challengeId r) (client r) (<[key := value]> (parameters r)).
End AuthenticationResponse.

(** The virtual interface of a provider. [None] is a thrown exception. *)
Module AuthenticationProvider.
Record t `{Platform} := mk {
  id : ProviderId;
  interactionModel : InteractionModel;
  maximumClaimableAssurance : AssuranceLevel;
  beginAuthentication : AuthenticationRequest.t ->
    world -> option (Result AuthenticationChallenge.t) * world;
  completeAuthentication : AuthenticationResponse.t ->
    world -> option (Result AuthenticationOutcome.t) * world;
}.
Arguments mk {_}.
End AuthenticationProvider.

(** ** registry.cpp *)

Module ProviderRegistry.
Abbreviation t := (gmap ProviderId AuthenticationProvider.t).

Section registry.
Context `{Platform}.

Definition registerProvider (provider : option AuthenticationProvider.t) : prog t Error unit :=
  fun providers =>
  match provider with
  | None => (fail InvalidArgument "A null authentication provider cannot be registered.", providers)
  | Some provider =>
      let id := AuthenticationProvider.id provider in
      if id_empty id then
        (fail InvalidArgument "An authentication provider must have a non-empty identifier.", providers)
      else if bool_decide (is_Some (providers !! id)) then
        (failDetail AlreadyExists
           "An authentication provider with that identifier is already registered."
           "Duplicate provider registration was rejected rather than replacing the existing provider, because sessions and audit records already reference the identifier.",
         providers)
      else (ok, <[id := provider]> providers)
  end.

Definition find (providers : t) (id : ProviderId) : option AuthenticationProvider.t :=
  providers !! id.

Definition contains (providers : t) (id : ProviderId) : bool :=
  bool_decide (is_Some (providers !! id)).

Definition ids (providers : t) : list ProviderId := (map_iter providers).*1.

Definition size (providers : t) : nat := base.size providers.

(** Every entry is stored under its own, non-empty identifier. *)
Definition well_keyed (providers : t) : Prop :=
  map_Forall (fun id p => AuthenticationProvider.id p = id /\ id_empty id = false) providers.

Lemma register_well_keyed provider : preserves well_keyed (registerProvider provider).
Proof.
  intros providers Hwk. unfold registerProvider. destruct provider as [p|]; [|done].
  destruct (id_empty (AuthenticationProvider.id p)) eqn:He; [done|].
  case_bool_decide; [done|]. by apply map_Forall_insert_2.
Qed.

(** A registered provider is never replaced. *)
Lemma register_keeps provider providers id p :
  providers !! id = Some p -> (registerProvider provider providers).2 !! id = Some p.
Proof.
  intros Hp. unfold registerProvider. destruct provider as [q|]; [|done].
  destruct (id_empty _); [done|]. case_bool_decide as Hin; [done|]. simpl.
  rewrite lookup_insert_ne; [done|]. intros <-. apply Hin. eauto.
Qed.

Lemma elem_of_ids providers id : id ∈ ids providers <-> is_Some (providers !! id).
Proof.
  unfold ids. rewrite list_elem_of_fmap. split.
  - intros ([k v] & -> & Hin). apply elem_of_map_iter in Hin. eauto.
  - intros [v Hv]. exists (id, v). split; [done|]. by apply elem_of_map_iter.
Qed.
End registry.
End ProviderRegistry.

(** ** Order lemmas on assurance levels *)

Lemma meetsAssurance_spec a b : meetsAssurance a b = true <-> assuranceValue b <= assuranceValue a.
Proof. unfold meetsAssurance. apply Z.leb_le. Qed.

Lemma meetsAssurance_refl a : meetsAssurance a a = true.
Proof. by apply meetsAssurance_spec. Qed.

Lemma meetsAssurance_trans a b c :
  meetsAssurance a b = true -> meetsAssurance b c = true -> meetsAssurance a c = true.
Proof. rewrite !meetsAssurance_spec. lia. Qed.

Lemma meetsAssurance_min a b c :
  meetsAssurance (minAssurance a b) c = meetsAssurance a c && meetsAssurance b c.
Proof. by destruct a, b, c. Qed.

Lemma assuranceLevelName_inj a b : assuranceLevelName a = assuranceLevelName b -> a = b.
Proof. by destruct a, b. Qed.

Lemma claimNameKey_inj a b : claimNameKey a = claimNameKey b -> a = b.
Proof. by destruct a, b. Qed.

#[export] Hint Resolve meetsAssurance_refl : openproof.
