(* ===== verification/Transaction.v ===== *)
(** * openproof.identity.provider:transaction: single-use authentication
    transactions

    Models [src/src/identity/provider/transaction.cpp]: the transaction with its
    four states, and the in-memory store. The interface of a store is the class
    [AuthenticationTransactionStore]; the broker is written against it. *)
From S2P Require Import Prelude Foundation Encoding Security Provider.

Inductive TransactionIdTag := .
Abbreviation TransactionId := (StrongId TransactionIdTag).
Abbreviation BindingDigest := Sha256Digest.

Inductive TransactionState := Pending | Consumed | Failed | Expired.

#[global] Instance TransactionState_eq_dec : EqDecision TransactionState.
Proof. solve_decision. Defined.

Definition transactionStateName (state : TransactionState) : string :=
  match state with
  | Pending => "pending"
  | Consumed => "consumed"
  | Failed => "failed"
  | Expired => "expired"
  end.

Module AuthenticationTransaction.
Record t := mk {
  id : TransactionId;
  provider : ProviderId;
  interactionModel : InteractionModel;
  nonceDigest : Sha256Digest;
  binding : BindingDigest;
  correlation : CorrelationId;
  state : TransactionState;
  createdAt : Instant;
  expiresAt : Instant;
  metadata : AttributeMap;
}.

Definition set_state (tx : t) (s : TransactionState) : t :=
  mk (id tx) (provider tx) (interactionModel tx) (nonceDigest tx) (binding tx) (correlation tx)
     s (createdAt tx) (expiresAt tx) (metadata tx).

Section transaction.
Context `{Platform}.

Definition create (id : TransactionId) (provider : ProviderId) (model : InteractionModel)
    (nonce : string) (binding : BindingDigest) (correlation : CorrelationId)
    (createdAt : Instant) (lifetime : Duration) : Result t :=
  if id_empty id then
    fail InvalidArgument "An authentication transaction must have an identifier."
  else if id_empty provider then
    fail InvalidArgument "An authentication transaction must name its provider."
  else if bool_decide (nonce = "") then
    failDetail InvalidArgument "An authentication transaction must carry a nonce."
      "A transaction was created with an empty nonce; every redemption check against it would be trivially satisfiable."
  else if lifetime <=? 0 then
    failDetail InvalidArgument "An authentication transaction must have a positive lifetime."
      "A non-positive lifetime yields a transaction that is expired at issue time."
  else
    nonceDigest ← sha256Text nonce;
    mret (mk id provider model nonceDigest binding correlation Pending createdAt
             (createdAt + lifetime) ∅).

Definition restore (id : TransactionId) (provider : ProviderId) (model : InteractionModel)
    (nonceDigest : Sha256Digest) (binding : BindingDigest) (correlation : CorrelationId)
    (state : TransactionState) (createdAt expiresAt : Instant) (metadata : AttributeMap)
    : Result t :=
  if id_empty id || id_empty provider || id_empty correlation || (expiresAt <=? createdAt) then
    fail InvalidArgument "The persisted authentication transaction is invalid."
  else mret (mk id provider model nonceDigest binding correlation state createdAt expiresAt metadata).

Definition isExpiredAt (tx : t) (now : Instant) : bool := expiresAt tx <=? now.

Definition isPendingAt (tx : t) (now : Instant) : bool :=
  bool_decide (state tx = Pending) && negb (isExpiredAt tx now).

Definition setMetadata (tx : t) (key value : string) : t :=
  mk (id tx) (provider tx) (interactionModel tx) (nonceDigest tx) (binding tx) (correlation tx)
     (state tx) (createdAt tx) (expiresAt tx) (<[key := value]> (metadata tx)).

Definition consume (presentedNonce : string) (presentedBinding : BindingDigest) (now : Instant)
    : prog t Error unit := fun tx =>
  if negb (bool_decide (state tx = Pending)) then
    (failDetail FailedPrecondition "This authentication request is no longer valid."
       ("Transaction redemption refused; state is " +:+ transactionStateName (state tx)
         +:+ ". A transaction is redeemable exactly once."), tx)
  else if isExpiredAt tx now then
    (failDetail FailedPrecondition "This authentication request has expired."
       "Transaction redemption refused: deadline passed.", set_state tx Expired)
  else
    match sha256Text presentedNonce with
    | Err e => (Err e, set_state tx Failed)
    | Aborted => (Aborted, tx)
    | Ok presentedNonceDigest =>
        let nonceMatches := constantTimeEquals (nonceDigest tx) presentedNonceDigest in
        let bindingMatches := constantTimeEquals (binding tx) presentedBinding in
        if negb nonceMatches || negb bindingMatches then
          (failDetail AuthenticationFailed (defaultErrorMessage AuthenticationFailed)
             (if nonceMatches then
                "Transaction binding mismatch: the answer was presented by a different agent than the one that started it."
              else "Transaction nonce mismatch."), set_state tx Failed)
        else (ok, set_state tx Consumed)
    end.

Definition markFailed (tx : t) : t :=
  if bool_decide (state tx = Pending) then set_state tx Failed else tx.

Definition markExpired (tx : t) : t :=
  if bool_decide (state tx = Pending) then set_state tx Expired else tx.

(** *** What a redemption decides *)

(** The condition under which a presented nonce and binding are accepted. *)
Definition redeemable (tx : t) (nonce : string) (bound : BindingDigest) (now : Instant) : Prop :=
  state tx = Pending /\ now < expiresAt tx /\
  sha256Text nonce = Ok (nonceDigest tx) /\ bound = binding tx.

Context `{!PlatformLaws _}.

Lemma consume_ok_iff tx nonce bound now :
  (consume nonce bound now tx).1 = Ok tt <-> redeemable tx nonce bound now.
Proof.
  unfold consume, redeemable, isExpiredAt. rewrite !constant_time_equals_spec.
  case_bool_decide; simpl; [|naive_solver].
  destruct (Z.leb_spec (expiresAt tx) now); [simpl; split; [done|lia]|].
  destruct (sha256Text nonce) as [d|e|] eqn:Hd; simpl; [|naive_solver..].
  rewrite constant_time_equals_spec.
  repeat case_bool_decide; simpl; naive_solver.
Qed.

Lemma consume_ok_state tx nonce bound now r tx' :
  consume nonce bound now tx = (Ok r, tx') -> tx' = set_state tx Consumed.
Proof. unfold consume. intros Hc. by handler Hc. Qed.

(** Whatever the outcome, an attempt on a pending transaction ends it. *)
Lemma consume_leaves_pending tx nonce bound now r tx' :
  consume nonce bound now tx = (r, tx') -> r <> Aborted -> state tx' <> Pending.
Proof. unfold consume. intros Hc Hr. handler Hc; bool_prop; done. Qed.

Lemma sha256Text_not_aborted s : sha256Text s <> Aborted.
Proof. unfold sha256Text, sha256, failDetail. split_cases. Qed.

Lemma consume_frame tx nonce bound now r tx' :
  consume nonce bound now tx = (r, tx') ->
  exists s, tx' = set_state tx s /\ (state tx <> Pending -> tx' = tx).
Proof.
  unfold consume. intros Hc. handler Hc; bool_prop;
    try (eexists; split; [reflexivity|naive_solver]).
  - exists (state tx'). by destruct tx'.
  - exists (state tx'). by destruct tx'.
Qed.
End transaction.
End AuthenticationTransaction.

(** ** The interface of a store *)

Class AuthenticationTransactionStore (T : Type) := {
  ts_begin : AuthenticationTransaction.t -> prog T Error unit;
  ts_consume : TransactionId -> string -> BindingDigest -> Instant ->
    prog T Error AuthenticationTransaction.t;
  ts_find : T -> TransactionId -> Result (option AuthenticationTransaction.t);
  ts_purgeExpired : Instant -> T -> nat * T;
  ts_size : T -> nat;
}.

(** What a client relies on: [ts_view] is the abstract content. *)
Class AuthenticationTransactionStoreLaws `{Platform} (T : Type) `{AuthenticationTransactionStore T} := {
  ts_view : T -> TransactionId -> option AuthenticationTransaction.t;
  ts_consume_ok : forall s id nonce bound now tx s',
    ts_consume id nonce bound now s = (Ok tx, s') ->
    exists tx0, ts_view s id = Some tx0 /\
      AuthenticationTransaction.redeemable tx0 nonce bound now /\
      tx = AuthenticationTransaction.set_state tx0 Consumed /\
      forall id', ts_view s' id' = if decide (id' = id) then Some tx else ts_view s id';
  ts_begin_ok : forall s tx s', ts_begin tx s = (ok, s') ->
    ts_view s (AuthenticationTransaction.id tx) = None /\
    forall id', ts_view s' id' =
      if decide (id' = AuthenticationTransaction.id tx) then Some tx else ts_view s id';
  ts_begin_not_ok : forall s tx, is_ok (ts_begin tx s).1 = false -> ts_view (ts_begin tx s).2 = ts_view s;
}.

Module InMemoryAuthenticationTransactionStore.
Abbreviation t := (gmap TransactionId AuthenticationTransaction.t).

Section store.
Context `{Platform}.

Definition begin (transaction : AuthenticationTransaction.t) : prog t Error unit := fun m =>
  if bool_decide (is_Some (m !! AuthenticationTransaction.id transaction)) then
    (failDetail AlreadyExists "This authentication request could not be started."
       "A transaction identifier was reused. Overwriting the existing entry would discard an in-flight transaction belonging to another subject.", m)
  else (ok, <[AuthenticationTransaction.id transaction := transaction]> m).

Definition consume (id : TransactionId) (presentedNonce : string)
    (presentedBinding : BindingDigest) (now : Instant)
    : prog t Error AuthenticationTransaction.t := fun m =>
  match m !! id with
  | None =>
      (failDetail AuthenticationFailed (defaultErrorMessage AuthenticationFailed)
         "Transaction redemption refused: unknown identifier.", m)
  | Some tx =>
      let '(outcome, tx) := AuthenticationTransaction.consume presentedNonce presentedBinding now tx in
      (match outcome with Ok _ => Ok tx | Err e => Err e | Aborted => Aborted end, <[id := tx]> m)
  end.

Definition find (m : t) (id : TransactionId) : Result (option AuthenticationTransaction.t) :=
  Ok (m !! id).

Definition purgeExpired (now : Instant) (m : t) : nat * t :=
  let kept := filter (fun p => AuthenticationTransaction.isExpiredAt p.2 now = false) m in
  ((base.size m - base.size kept)%nat, kept).

Definition size (m : t) : nat := base.size m.

#[global] Instance store : AuthenticationTransactionStore t := {
  ts_begin := begin;
  ts_consume := consume;
  ts_find := find;
  ts_purgeExpired := purgeExpired;
  ts_size := size;
}.
End store.
End InMemoryAuthenticationTransactionStore.

(** ** Single use, over every interleaving of store operations

    Every member function of the store holds its mutex from entry to return, so
    concurrent callers are an interleaving of whole operations: a list. *)

Inductive store_op :=
| OpBegin (tx : AuthenticationTransaction.t)
| OpConsume (id : TransactionId) (nonce : string) (bound : BindingDigest) (now : Instant)
| OpPurge (now : Instant).

Section single_use.
Context `{Platform}.

Abbreviation store := InMemoryAuthenticationTransactionStore.t.

Definition store_step (o : store_op) (m : store) : store :=
  match o with
  | OpBegin tx => (ts_begin tx m).2
  | OpConsume id nonce bound now => (ts_consume id nonce bound now m).2
  | OpPurge now => (ts_purgeExpired now m).2
  end.

(** Does the operation successfully start, respectively redeem, transaction [id]? *)
Definition starts (id : TransactionId) (o : store_op) (m : store) : bool :=
  match o with
  | OpBegin tx => bool_decide (AuthenticationTransaction.id tx = id) && is_ok (ts_begin tx m).1
  | _ => false
  end.

Definition redeems (id : TransactionId) (o : store_op) (m : store) : bool :=
  match o with
  | OpConsume id' nonce bound now => bool_decide (id' = id) && is_ok (ts_consume id' nonce bound now m).1
  | _ => false
  end.

(** The redemptions still open for [id]: one while it is stored as pending. *)
Definition open_redemptions (id : TransactionId) (m : store) : nat :=
  match m !! id with
  | Some tx => if bool_decide (AuthenticationTransaction.state tx = Pending) then 1 else 0
  | None => 0
  end.

Lemma begin_spec tx m :
  (ts_begin tx m = (ok, <[AuthenticationTransaction.id tx := tx]> m) /\
   m !! AuthenticationTransaction.id tx = None) \/
  (exists e, ts_begin tx m = (Err e, m)).
Proof.
  simpl. unfold InMemoryAuthenticationTransactionStore.begin. case_bool_decide as Hin.
  - right. eexists. reflexivity.
  - left. split; [done|]. by apply eq_None_not_Some.
Qed.

Lemma consume_spec id nonce bound now m :
  (exists e, ts_consume id nonce bound now m = (Err e, m)) \/
  exists tx r tx', m !! id = Some tx /\
    AuthenticationTransaction.consume nonce bound now tx = (r, tx') /\
    (ts_consume id nonce bound now m).2 = <[id := tx']> m /\
    (forall tx'', (ts_consume id nonce bound now m).1 = Ok tx'' <-> r = Ok tt /\ tx'' = tx').
Proof.
  simpl. unfold InMemoryAuthenticationTransactionStore.consume.
  destruct (m !! id) as [tx|]; [|left; eexists; reflexivity].
  right. destruct (AuthenticationTransaction.consume nonce bound now tx) as [r tx'] eqn:Hc.
  exists tx, r, tx'. repeat split; try done; destruct r as [[]| |]; simpl; naive_solver.
Qed.

Lemma count_step id o m :
  ((if redeems id o m then 1 else 0) + open_redemptions id (store_step o m)
   <= (if starts id o m then 1 else 0) + open_redemptions id m)%nat.
Proof.
  destruct o as [tx|id' nonce bound now|now]; cbn [redeems starts store_step].
  - destruct (begin_spec tx m) as [[-> Hnone]|[e ->]]; cbn [fst snd is_ok];
      [|rewrite andb_false_r; lia].
    rewrite andb_true_r. unfold open_redemptions. rewrite lookup_insert.
    case_decide as Hid; [rewrite (bool_decide_eq_true_2 _ Hid)|rewrite (bool_decide_eq_false_2 _ Hid)];
      [repeat case_match; lia|lia].
  - destruct (consume_spec id' nonce bound now m) as [[e ->]|(tx & r & tx' & Hm & Hc & Hs & Hok)].
    { cbn [fst snd is_ok]. rewrite andb_false_r. lia. }
    rewrite Hs. unfold open_redemptions. rewrite lookup_insert. case_decide as Hid.
    + subst id'. rewrite (bool_decide_eq_true_2 (id = id)), Hm by done. rewrite andb_true_l.
      destruct (is_ok _) eqn:Hr.
      * apply is_ok_spec in Hr as [tx'' Hr]. apply Hok in Hr as [-> ->].
        rewrite (AuthenticationTransaction.consume_ok_state _ _ _ _ _ _ Hc).
        unfold AuthenticationTransaction.consume in Hc.
        case_bool_decide as Hp; simpl in Hc; [|by inversion Hc]. done.
      * destruct (AuthenticationTransaction.consume_frame _ _ _ _ _ _ Hc) as (s & _ & Hsame).
        case_bool_decide; [|lia]. case_bool_decide as Hp; [lia|]. by rewrite Hsame in *.
    + rewrite (bool_decide_eq_false_2 _ Hid). simpl. lia.
  - unfold open_redemptions. cbn [ts_purgeExpired]. simpl. rewrite map_lookup_filter.
    destruct (m !! id) as [tx|]; simpl; [|lia]. case_guard; simpl; lia.
Qed.

(** An authentication transaction is redeemable at most once. In every
    sequence of starts, redemptions (with any nonce, binding and time) and
    purges of the in-memory store, the successful redemptions of an identifier
    never outnumber its successful starts. *)
Theorem redeemed_at_most_once id ops :
  (count_steps store_step (redeems id) ops ∅ <= count_steps store_step (starts id) ops ∅)%nat.
Proof.
  pose proof (taken_within_given store_step (redeems id) (starts id) (open_redemptions id) ops ∅
                (count_step id)) as Hcount.
  unfold open_redemptions in Hcount at 1. rewrite lookup_empty in Hcount. lia.
Qed.
End single_use.

Section redemption.
Context `{PlatformLaws}.

Lemma consume_ok_spec id nonce bound now m tx m' :
  ts_consume id nonce bound now m = (Ok tx, m') <->
  exists tx0, m !! id = Some tx0 /\
    AuthenticationTransaction.redeemable tx0 nonce bound now /\
    tx = AuthenticationTransaction.set_state tx0 Consumed /\ m' = <[id := tx]> m.
Proof.
  destruct (consume_spec id nonce bound now m) as [[e He]|(tx0 & r & tx' & Hm & Hc & Hs & Hok)].
  - rewrite He. split; [done|]. intros (tx0 & Hm & Hred & _).
    exfalso. simpl in He. unfold InMemoryAuthenticationTransactionStore.consume in He.
    rewrite Hm in He. apply AuthenticationTransaction.consume_ok_iff in Hred.
    destruct (AuthenticationTransaction.consume nonce bound now tx0). simpl in Hred. by subst.
  - rewrite (surjective_pairing (ts_consume id nonce bound now m)), Hs, pair_equal_spec, Hok.
    pose proof (AuthenticationTransaction.consume_ok_iff tx0 nonce bound now) as Hiff.
    rewrite Hc in Hiff. simpl in Hiff. split.
    + intros [[-> ->] <-]. exists tx0. repeat split; [done|by apply Hiff..|].
      by eapply AuthenticationTransaction.consume_ok_state.
    + intros (tx1 & Hm1 & Hred & -> & ->). rewrite Hm in Hm1. injection Hm1 as <-.
      apply Hiff in Hred as ->.
      by rewrite (AuthenticationTransaction.consume_ok_state _ _ _ _ _ _ Hc).
Qed.

(** What a redemption requires. The in-memory store redeems a transaction
    exactly when it is stored, pending, unexpired, and both the nonce and the
    agent binding are the ones it was started with; the stored transaction is
    then the consumed one, and nothing else of the store changes. *)
Theorem redemption_requires_nonce_and_binding id nonce bound now m tx m' :
  ts_consume id nonce bound now m = (Ok tx, m') <->
  exists tx0, m !! id = Some tx0 /\
    AuthenticationTransaction.redeemable tx0 nonce bound now /\
    tx = AuthenticationTransaction.set_state tx0 Consumed /\ m' = <[id := tx]> m.
Proof. exact (consume_ok_spec id nonce bound now m tx m'). Qed.

#[global] Program Instance store_laws :
    AuthenticationTransactionStoreLaws InMemoryAuthenticationTransactionStore.t :=
  {| ts_view m id := m !! id |}.
Next Obligation.
  intros m id nonce bound now tx m' (tx0 & Hm & Hred & -> & ->)%consume_ok_spec.
  exists tx0. split_and!; [done..|]. intros id'. rewrite lookup_insert.
  case_decide; [subst; by rewrite decide_True|by rewrite decide_False].
Qed.
Next Obligation.
  intros m tx m' Hb. destruct (begin_spec tx m) as [[E Hnone]|[e E]]; rewrite E in Hb; [|done].
  injection Hb as <-. split; [done|]. intros id'. rewrite lookup_insert.
  case_decide; [subst; by rewrite decide_True|by rewrite decide_False].
Qed.
Next Obligation.
  intros m tx Hb. destruct (begin_spec tx m) as [[E _]|[e E]]; rewrite E in *; done.
Qed.

(** A failed redemption burns the transaction. After an unsuccessful
    attempt on a stored transaction that was pending, no later attempt with
    any nonce, binding and time succeeds. *)
Theorem failed_redemption_burns id nonce bound now m e m' nonce' bound' now' :
  is_Some (m !! id) ->
  InMemoryAuthenticationTransactionStore.consume id nonce bound now m = (Err e, m') ->
  is_ok (InMemoryAuthenticationTransactionStore.consume id nonce' bound' now' m').1 = false.
Proof.
  intros [tx Hm] Hc. simpl in *. unfold InMemoryAuthenticationTransactionStore.consume in *.
  rewrite Hm in Hc.
  destruct (AuthenticationTransaction.consume nonce bound now tx) as [r tx'] eqn:Hcons.
  assert (Hnp : AuthenticationTransaction.state tx' <> Pending).
  { eapply AuthenticationTransaction.consume_leaves_pending; [done|]. by destruct r. }
  injection Hc as _ <-. rewrite lookup_insert_eq.
  unfold AuthenticationTransaction.consume. by rewrite bool_decide_eq_false_2.
Qed.
End redemption.

Section redemption_witness.
Import TestPlatform.

Definition sample_transaction : AuthenticationTransaction.t :=
  AuthenticationTransaction.mk (mkId "tx") (mkId "local") ChallengeResponse
    (checksum (as_bytes "nonce")) zeroDigest (mkId "corr") Pending 10 20 ∅.

Lemma redemption_requires_nonce_and_binding_witness :
  is_ok (ts_consume (mkId "tx") "nonce" zeroDigest 12
           ({[ mkId "tx" := sample_transaction ]} : gmap TransactionId _)).1 = true.
Proof.
  rewrite (proj2 (redemption_requires_nonce_and_binding (mkId "tx") "nonce" zeroDigest 12
    {[ mkId "tx" := sample_transaction ]}
    (AuthenticationTransaction.set_state sample_transaction Consumed)
    (<[mkId "tx" := AuthenticationTransaction.set_state sample_transaction Consumed]>
       {[ mkId "tx" := sample_transaction ]}))); [reflexivity|].
  exists sample_transaction. split; [reflexivity|]. split; [|split; reflexivity].
  repeat split; vm_compute; reflexivity.
Defined.

Lemma failed_redemption_burns_witness :
  is_ok (InMemoryAuthenticationTransactionStore.consume (mkId "tx") "nonce" zeroDigest 12
           (InMemoryAuthenticationTransactionStore.consume (mkId "tx") "wrong" zeroDigest 11
              ({[ mkId "tx" := sample_transaction ]} : gmap TransactionId _)).2).1 = false.
Proof.
  eapply (failed_redemption_burns (mkId "tx") "wrong" zeroDigest 11
            {[ mkId "tx" := sample_transaction ]}).
  - eexists. reflexivity.
  - eapply run_as. vm_compute. reflexivity.
Defined.
End redemption_witness.
