(* ===== verification/IdentityCore.v ===== *)
(** * openproof.identity.core:identity and :repository

    Models [src/src/identity/core/identity.cpp] and [repository.cpp]: canonical
    identities, their lifecycle, and the tenant-scoped repository. The class
    [IdentityRepository] is the persistence contract; [IdentityRepositoryLaws]
    states what a client of the contract relies on. *)
From S2P Require Import Prelude Foundation.

Inductive IdentityIdTag := .
Abbreviation IdentityId := (StrongId IdentityIdTag).
Inductive OrganizationIdTag := .
Abbreviation OrganizationId := (StrongId OrganizationIdTag).

Inductive SubjectKind := Human | Service | Workload | Organization.

#[global] Instance SubjectKind_eq_dec : EqDecision SubjectKind.
Proof. solve_decision. Defined.

Definition subjectKindName (kind : SubjectKind) : string :=
  match kind with
  | Human => "human"
  | Service => "service"
  | Workload => "workload"
  | Organization => "organization"
  end.

Inductive IdentityStatus := Active | Suspended | Locked | Deactivated | Deleted | Merged.

#[global] Instance IdentityStatus_eq_dec : EqDecision IdentityStatus.
Proof. solve_decision. Defined.

Definition identityStatusName (status : IdentityStatus) : string :=
  match status with
  | Active => "active"
  | Suspended => "suspended"
  | Locked => "locked"
  | Deactivated => "deactivated"
  | Deleted => "deleted"
  | Merged => "merged"
  end.

Definition permitsAuthentication (status : IdentityStatus) : bool :=
  match status with
  | Active => true
  | Suspended | Locked | Deactivated | Deleted | Merged => false
  end.

Module Identity.
Record t := mk {
  id : IdentityId;
  kind : SubjectKind;
  status : IdentityStatus;
  createdAt : Instant;
}.

#[global] Instance eq_dec : EqDecision t.
Proof. solve_decision. Defined.

Definition create (id : IdentityId) (kind : SubjectKind) (createdAt : Instant) : Result t :=
  if id_empty id then fail InvalidArgument "An identity must have an identifier."
  else Ok (mk id kind Active createdAt).

Definition canAuthenticate (i : t) : bool := permitsAuthentication (status i).

Definition changeStatus (s : IdentityStatus) : prog t Error unit := fun i =>
  if bool_decide (status i = Deleted) then
    (failDetail FailedPrecondition "This identity cannot be modified."
       "A deleted identity cannot change status. Its key may still be referenced by audit records and external associations, so resurrecting it would silently reattach them.", i)
  else if bool_decide (status i = Merged) then
    (failDetail FailedPrecondition "This identity cannot be modified."
       "A merged identity cannot change status. Its associations were transferred to a successor, so reactivating it would produce two live identities claiming the same external accounts.", i)
  else (ok, mk (id i) (kind i) s (createdAt i)).

(** The two statuses nothing leads out of. *)
Definition terminal (s : IdentityStatus) : bool :=
  match s with Deleted | Merged => true | _ => false end.

Lemma changeStatus_spec s i :
  changeStatus s i =
    (if terminal (status i) then
       ((changeStatus s i).1, i)
     else (ok, mk (id i) (kind i) s (createdAt i))).
Proof. unfold changeStatus. destruct (status i) eqn:Hs; simpl; by rewrite ?Hs. Qed.

Lemma changeStatus_ok s i i' :
  changeStatus s i = (ok, i') <->
  terminal (status i) = false /\ i' = mk (id i) (kind i) s (createdAt i).
Proof. unfold changeStatus, ok. destruct (status i); simpl; naive_solver. Qed.

Lemma changeStatus_err s i e i' : changeStatus s i = (Err e, i') -> i' = i /\ terminal (status i) = true.
Proof. unfold changeStatus. destruct (status i); simpl; intros [= <- <-]; done. Qed.

Lemma terminal_cannot_authenticate i : terminal (status i) = true -> canAuthenticate i = false.
Proof. unfold canAuthenticate. by destruct (status i). Qed.
End Identity.

#[export] Hint Resolve Identity.terminal_cannot_authenticate : openproof.

(** ** The persistence contract *)

Class IdentityRepository (T : Type) := {
  ir_add : OrganizationId -> Identity.t -> prog T Error unit;
  ir_findById : T -> OrganizationId -> IdentityId -> Result (option Identity.t);
  ir_changeStatus : OrganizationId -> IdentityId -> IdentityStatus -> prog T Error unit;
  ir_idsOfKind : T -> OrganizationId -> SubjectKind -> Result (list IdentityId);
  ir_countIn : T -> OrganizationId -> Result nat;
}.

(** What a client relies on. [ir_view] is the tenant-scoped abstract content; an
    implementation may fail with any error, but an answer describes the view
    and a failed operation changes nothing of it. *)
Class IdentityRepositoryLaws (T : Type) `{IdentityRepository T} := {
  ir_view : T -> OrganizationId -> IdentityId -> option Identity.t;
  ir_findById_view : forall s org id found,
    ir_findById s org id = Ok found -> found = ir_view s org id;
  ir_add_view : forall s org ident s',
    ir_add org ident s = (ok, s') ->
    forall org' id', ir_view s' org' id' =
      if decide (org' = org /\ id' = Identity.id ident) then Some ident else ir_view s org' id';
  ir_add_fresh : forall s org ident s',
    ir_add org ident s = (ok, s') -> forall org', ir_view s org' (Identity.id ident) = None;
  ir_changeStatus_view : forall s org id status s',
    ir_changeStatus org id status s = (ok, s') ->
    exists i i', ir_view s org id = Some i /\ Identity.changeStatus status i = (ok, i') /\
      forall org' id', ir_view s' org' id' =
        if decide (org' = org /\ id' = id) then Some i' else ir_view s org' id';
  ir_add_not_ok : forall s org ident, is_ok (ir_add org ident s).1 = false ->
    ir_view (ir_add org ident s).2 = ir_view s;
  ir_changeStatus_not_ok : forall s org id status, is_ok (ir_changeStatus org id status s).1 = false ->
    ir_view (ir_changeStatus org id status s).2 = ir_view s;
}.

(** ** The in-memory repository *)

Module InMemoryIdentityRepository.
Record Owned := mkOwned { organization : OrganizationId; identity : Identity.t }.

Abbreviation t := (gmap IdentityId Owned).

Definition add (org : OrganizationId) (ident : Identity.t) : prog t Error unit := fun m_entries =>
  let key := Identity.id ident in
  if bool_decide (is_Some (m_entries !! key)) then
    (failDetail AlreadyExists "That identity already exists."
       "Identity keys are globally unique across organizations; a duplicate was rejected rather than shadowing the existing record.", m_entries)
  else (ok, <[key := mkOwned org ident]> m_entries).

Definition findById (m_entries : t) (org : OrganizationId) (id : IdentityId)
    : Result (option Identity.t) :=
  match m_entries !! id with
  | None => Ok None
  | Some owned => if bool_decide (organization owned = org) then Ok (Some (identity owned)) else Ok None
  end.

Definition changeStatus (org : OrganizationId) (id : IdentityId) (status : IdentityStatus)
    : prog t Error unit := fun m_entries =>
  match m_entries !! id with
  | None => (failCode NotFound, m_entries)
  | Some owned =>
      if negb (bool_decide (organization owned = org)) then (failCode NotFound, m_entries)
      else
        let '(r, ident) := Identity.changeStatus status (identity owned) in
        (r, <[id := mkOwned (organization owned) ident]> m_entries)
  end.

Definition idsOfKind (m_entries : t) (org : OrganizationId) (kind : SubjectKind)
    : Result (list IdentityId) :=
  Ok (filter (fun p => organization p.2 = org /\ Identity.kind (identity p.2) = kind)
        (map_iter m_entries)).*1.

Definition countIn (m_entries : t) (org : OrganizationId) : Result nat :=
  let total := length (filter (fun p => organization p.2 = org) (map_iter m_entries)) in
  _ ← requireInvariant (total <=? base.size m_entries)%nat;
  Ok total.

Definition size (m_entries : t) : nat := base.size m_entries.

#[global] Instance repository : IdentityRepository t := {
  ir_add := add;
  ir_findById := findById;
  ir_changeStatus := changeStatus;
  ir_idsOfKind := idsOfKind;
  ir_countIn := countIn;
}.

(** The tenant-scoped content. *)
Definition view (m : t) (org : OrganizationId) (id : IdentityId) : option Identity.t :=
  owned ← m !! id; if bool_decide (organization owned = org) then Some (identity owned) else None.

Lemma findById_view m org id : findById m org id = Ok (view m org id).
Proof. unfold findById, view. destruct (m !! id); simpl; [|done]. by case_bool_decide. Qed.

Lemma view_insert m key owned org id :
  view (<[key := owned]> m) org id =
  if decide (id = key) then
    (if bool_decide (organization owned = org) then Some (identity owned) else None)
  else view m org id.
Proof.
  unfold view. rewrite lookup_insert. case_decide as Hk; case_decide; simplify_eq; done.
Qed.

Lemma add_ok_iff org ident m m' :
  add org ident m = (ok, m') <->
  m !! Identity.id ident = None /\ m' = <[Identity.id ident := mkOwned org ident]> m.
Proof.
  unfold add. case_bool_decide as Hin; rewrite <-not_eq_None_Some in Hin.
  - split; [done|]. naive_solver.
  - apply dec_stable in Hin. split; [by intros [= <-]|]. by intros [_ ->].
Qed.

Lemma changeStatus_cases org id status m r m' :
  changeStatus org id status m = (r, m') ->
  (r = failCode NotFound /\ m' = m /\ view m org id = None) \/
  exists i i', m !! id = Some (mkOwned org i) /\ Identity.changeStatus status i = (r, i') /\
    m' = <[id := mkOwned org i']> m.
Proof.
  unfold changeStatus, view. destruct (m !! id) as [[org' i]|]; simpl; [|naive_solver].
  case_bool_decide; simpl; [|naive_solver]. subst.
  destruct (Identity.changeStatus status i) as [r' i'] eqn:Hc. intros [= <- <-].
  right. eauto.
Qed.

Lemma changeStatus_never_aborts org id status m : (changeStatus org id status m).1 <> Aborted.
Proof.
  destruct (changeStatus org id status m) as [r m'] eqn:Hc.
  apply changeStatus_cases in Hc as [(-> & _)|(i & i' & _ & Hi & _)]; [done|].
  unfold Identity.changeStatus in Hi. destruct (Identity.status i); by injection Hi as <- _.
Qed.

Lemma changeStatus_not_ok_same org id status m :
  is_ok (changeStatus org id status m).1 = false -> (changeStatus org id status m).2 = m.
Proof.
  destruct (changeStatus org id status m) as [r m'] eqn:Hc. simpl. intros Hr.
  apply changeStatus_cases in Hc as [(_ & -> & _)|(i & i' & Hm & Hi & ->)]; [done|].
  rewrite Identity.changeStatus_spec in Hi. destruct (Identity.terminal _); simplify_eq/=.
  by apply insert_id.
Qed.

Lemma changeStatus_succeeds org id status m i :
  view m org id = Some i -> Identity.terminal (Identity.status i) = false ->
  changeStatus org id status m =
    (ok, <[id := mkOwned org (Identity.mk (Identity.id i) (Identity.kind i) status (Identity.createdAt i))]> m).
Proof.
  unfold view, changeStatus. destruct (m !! id) as [[org' i']|]; simpl; [|done].
  case_bool_decide; [|done]. intros [= ->] Ht. subst. simpl.
  by rewrite (proj2 (Identity.changeStatus_ok status i _) (conj Ht eq_refl)).
Qed.

#[global] Program Instance laws : IdentityRepositoryLaws t := {| ir_view := view |}.
Next Obligation. intros s org id found. cbn. rewrite findById_view. congruence. Qed.
Next Obligation.
  intros s org ident s' [Hn ->]%add_ok_iff org' id'. rewrite view_insert. simpl.
  unfold view. repeat (case_decide || case_bool_decide); simplify_eq; rewrite ?Hn; try done; exfalso; intuition congruence.
Qed.
Next Obligation. intros s org ident s' [Hn _]%add_ok_iff org'. unfold view. by rewrite Hn. Qed.
Next Obligation.
  intros s org id status s' [(? & _)|(i & i' & Hm & Hi & ->)]%changeStatus_cases; [done|].
  exists i, i'. split; [|split; [done|]].
  - unfold view. rewrite Hm. simpl. by rewrite bool_decide_eq_true_2.
  - intros org' id'. rewrite view_insert. simpl. unfold view.
    repeat (case_decide || case_bool_decide); simplify_eq; try done; try (exfalso; intuition congruence).
    rewrite Hm. simpl. by rewrite bool_decide_eq_false_2.
Qed.
Next Obligation.
  intros s org ident. cbn. unfold add. by case_bool_decide.
Qed.
Next Obligation. intros s org id status Hn. cbn in *. by rewrite changeStatus_not_ok_same. Qed.
End InMemoryIdentityRepository.

(** ** What the repository promises

    Every member function holds the mutex from entry to return, so concurrent
    callers are an interleaving of whole operations. *)

Inductive repository_op :=
| RAdd (org : OrganizationId) (ident : Identity.t)
| RFindById (org : OrganizationId) (id : IdentityId)
| RChangeStatus (org : OrganizationId) (id : IdentityId) (status : IdentityStatus)
| RIdsOfKind (org : OrganizationId) (kind : SubjectKind)
| RCountIn (org : OrganizationId).

Inductive repository_answer :=
| AStatus (r : Status)
| AFound (r : Result (option Identity.t))
| AIds (r : Result (list IdentityId))
| ACount (r : Result nat).

Section repository_behaviour.
Import InMemoryIdentityRepository.

Implicit Types m : InMemoryIdentityRepository.t.

Definition op_organization (o : repository_op) : OrganizationId :=
  match o with
  | RAdd org _ | RFindById org _ | RChangeStatus org _ _ | RIdsOfKind org _ | RCountIn org => org
  end.

Definition run_op (o : repository_op) (m : InMemoryIdentityRepository.t)
    : repository_answer * InMemoryIdentityRepository.t :=
  match o with
  | RAdd org ident => let '(r, m') := ir_add org ident m in (AStatus r, m')
  | RFindById org id => (AFound (ir_findById m org id), m)
  | RChangeStatus org id status => let '(r, m') := ir_changeStatus org id status m in (AStatus r, m')
  | RIdsOfKind org kind => (AIds (ir_idsOfKind m org kind), m)
  | RCountIn org => (ACount (ir_countIn m org), m)
  end.

(** The entries one organization owns. *)
Definition only (org : OrganizationId) (m : InMemoryIdentityRepository.t)
    : InMemoryIdentityRepository.t :=
  filter (fun p => organization p.2 = org) m.

Lemma lookup_only org m id :
  only org m !! id = owned ← m !! id; if decide (organization owned = org) then Some owned else None.
Proof.
  unfold only. rewrite map_lookup_filter. destruct (m !! id) as [owned|]; simpl; [|done].
  repeat case_decide || case_guard; done.
Qed.

Lemma only_insert_other org m key owned :
  organization owned <> org ->
  (forall old, m !! key = Some old -> organization old <> org) ->
  only org (<[key := owned]> m) = only org m.
Proof.
  intros Hne Hold. apply map_eq. intros id. rewrite !lookup_only, lookup_insert.
  case_decide; [|done]. subst. simpl. rewrite decide_False by done.
  destruct (m !! id) as [old|] eqn:Hm; [|done]. simpl. by rewrite decide_False by eauto.
Qed.

Lemma only_insert_same org m key owned :
  organization owned = org -> only org (<[key := owned]> m) = <[key := owned]> (only org m).
Proof.
  intros Hown. apply map_eq. intros id. rewrite lookup_only, !lookup_insert.
  case_decide; [|by rewrite lookup_only]. simpl. by rewrite decide_True.
Qed.

Lemma findById_only m org id : findById (only org m) org id = findById m org id.
Proof.
  unfold findById. rewrite lookup_only. destruct (m !! id) as [owned|]; [|done]. simpl.
  case_decide as Hown; [done|]. by rewrite bool_decide_eq_false_2.
Qed.

Lemma changeStatus_only m org id status :
  let '(r, m') := changeStatus org id status m in
  changeStatus org id status (only org m) = (r, only org m').
Proof.
  unfold changeStatus. rewrite lookup_only. destruct (m !! id) as [[org' i]|] eqn:Hm; [|done]. simpl.
  case_decide as Hown; [|by rewrite bool_decide_eq_false_2].
  subst. rewrite !bool_decide_eq_true_2 by done. simpl.
  destruct (Identity.changeStatus status i). simpl. f_equal. symmetry. by apply only_insert_same.
Qed.

Lemma scan_only (P : IdentityId * Owned -> Prop) `{!forall p, Decision (P p)} org m :
  (forall p, P p -> organization p.2 = org) ->
  filter P (map_iter (only org m)) = filter P (map_iter m).
Proof.
  intros HP. rewrite !map_iter_filter. f_equal. unfold only. rewrite map_filter_filter.
  apply map_filter_ext. intros i x Hm. naive_solver.
Qed.

Lemma countIn_spec m org :
  countIn m org = Ok (length (filter (fun p => organization p.2 = org) (map_iter m))).
Proof.
  unfold countIn.
  by rewrite (proj2 (Nat.leb_le _ _) (scan_length (fun p => organization p.2 = org) m)).
Qed.

(** Tenant isolation. An operation of one organization leaves every
    other organization's entries untouched, and, creation apart, its answer
    and its effect are those it has when the other organizations' entries do
    not exist at all: a foreign key is indistinguishable from an absent one. *)
Theorem tenant_isolation o m :
  (forall org, org <> op_organization o -> only org (run_op o m).2 = only org m) /\
  ((forall org ident, o <> RAdd org ident) ->
   run_op o (only (op_organization o) m) =
     ((run_op o m).1, only (op_organization o) (run_op o m).2)).
Proof.
  split.
  - intros org Hne. destruct o as [a ident|a id|a id status|a kind|a]; try done;
      cbn [run_op ir_add ir_changeStatus repository op_organization] in *.
    + unfold add. case_bool_decide as Hin; [done|]. apply only_insert_other; [done|].
      intros old Hold. destruct Hin. eauto.
    + destruct (changeStatus a id status m) as [r m'] eqn:Hc.
      apply changeStatus_cases in Hc as [(_ & -> & _)|(i & i' & Hm & _ & ->)]; [done|].
      apply only_insert_other; [done|]. naive_solver.
  - intros Hadd. destruct o as [a ident|a id|a id status|a kind|a]; [by edestruct Hadd|..];
      cbn [run_op ir_findById ir_changeStatus ir_idsOfKind ir_countIn repository op_organization].
    + by rewrite findById_only.
    + pose proof (changeStatus_only m a id status) as Hc.
      destruct (changeStatus a id status m). by rewrite Hc.
    + unfold idsOfKind. by rewrite scan_only by naive_solver.
    + by rewrite !countIn_spec, scan_only by naive_solver.
Qed.

(** How an entry may evolve: never removed, never moved to another tenant,
    never changed in kind or age, and never again once it is a tombstone. *)
Definition evolves (old new : Owned) : Prop :=
  organization new = organization old /\
  Identity.id (identity new) = Identity.id (identity old) /\
  Identity.kind (identity new) = Identity.kind (identity old) /\
  Identity.createdAt (identity new) = Identity.createdAt (identity old) /\
  (Identity.terminal (Identity.status (identity old)) = true -> new = old).

#[global] Instance evolves_preorder : PreOrder evolves.
Proof. split; [done|]. intros x y z. unfold evolves. naive_solver congruence. Qed.

Definition entries_evolve m m' : Prop :=
  forall id old, m !! id = Some old -> exists new, m' !! id = Some new /\ evolves old new.

#[global] Instance entries_evolve_preorder : PreOrder entries_evolve.
Proof.
  split.
  - intros m id old ?. exists old. split; [done|reflexivity].
  - intros m1 m2 m3 H12 H23 id old (mid & Hmid & Hom)%H12.
    apply H23 in Hmid as (new & Hnew & Hmn). exists new. split; [done|]. by etrans.
Qed.

Lemma entries_evolve_insert m key owned :
  (forall old, m !! key = Some old -> evolves old owned) ->
  entries_evolve m (<[key := owned]> m).
Proof.
  intros Hold id old Hm. rewrite lookup_insert. case_decide; [subst; eauto|].
  exists old. split; [done|reflexivity].
Qed.

Lemma run_op_evolves o m : entries_evolve m (run_op o m).2.
Proof.
  destruct o as [a ident|a id|a id status|a kind|a]; try reflexivity;
    cbn [run_op ir_add ir_changeStatus repository].
  - unfold add. case_bool_decide as Hin; [reflexivity|]. apply entries_evolve_insert.
    intros old Hold. destruct Hin. eauto.
  - destruct (changeStatus a id status m) as [r m'] eqn:Hc.
    apply changeStatus_cases in Hc as [(_ & -> & _)|(i & i' & Hm & Hi & ->)]; [reflexivity|].
    apply entries_evolve_insert. intros old Hold. rewrite Hm in Hold. injection Hold as <-.
    rewrite Identity.changeStatus_spec in Hi. unfold evolves. simpl.
    destruct (Identity.terminal _); injection Hi as _ <-; done.
Qed.

Definition run_ops (ops : list repository_op) m : InMemoryIdentityRepository.t :=
  foldl (fun m o => (run_op o m).2) m ops.

Lemma run_ops_evolve ops m : entries_evolve m (run_ops ops m).
Proof.
  revert m. induction ops as [|o ops IH]; intros m; simpl; [reflexivity|].
  etrans; [apply run_op_evolves | apply IH].
Qed.

(** Tombstones are permanent. Whatever any organization does afterwards,
    a deleted or merged identity stays stored under the same key and tenant
    with the same record, and it can never authenticate again. *)
Theorem tombstones_are_permanent ops m org id i :
  m !! id = Some (mkOwned org i) ->
  Identity.terminal (Identity.status i) = true ->
  ir_findById (run_ops ops m) org id = Ok (Some i) /\ Identity.canAuthenticate i = false.
Proof.
  intros Hm Hterm. split; [|by auto with openproof].
  destruct (run_ops_evolve ops m id _ Hm) as (new & Hnew & _ & _ & _ & _ & Hsame).
  cbn. unfold findById. rewrite Hnew, Hsame by done. by rewrite bool_decide_eq_true_2.
Qed.

(** The listings are exact. [idsOfKind] returns the keys of exactly the
    organization's identities of that kind, in strictly increasing key order,
    and [countIn] returns, without tripping its invariant check, the number
    of the organization's entries. *)
Theorem listings_are_exact m org kind :
  (exists ids, ir_idsOfKind m org kind = Ok ids /\ NoDup ids /\ StronglySorted key_le ids /\
    forall id, id ∈ ids <-> exists i, ir_findById m org id = Ok (Some i) /\ Identity.kind i = kind) /\
  ir_countIn m org = Ok (base.size (only org m)).
Proof.
  cbn [ir_idsOfKind ir_findById ir_countIn repository]. split.
  - eexists. split; [reflexivity|]. split; [apply scan_keys_NoDup|].
    split; [apply scan_keys_sorted|]. intros id. rewrite elem_of_scan_keys. simpl.
    unfold findById. split.
    + intros (owned & -> & Horg & Hkind). exists (identity owned).
      by rewrite bool_decide_eq_true_2.
    + intros (i & Hi & Hkind). destruct (m !! id) as [owned|]; [|done].
      case_bool_decide; [|done]. injection Hi as <-. eauto.
  - by rewrite countIn_spec, map_iter_filter, map_iter_length.
Qed.
End repository_behaviour.

Section repository_witness.
Import InMemoryIdentityRepository.

Definition sample_identity : Identity.t := Identity.mk (mkId "alice") Human Merged 5.

Lemma tombstones_are_permanent_witness :
  ir_findById (run_ops [RChangeStatus (mkId "acme") (mkId "alice") Active]
                 {[ mkId "alice" := mkOwned (mkId "acme") sample_identity ]})
    (mkId "acme") (mkId "alice") = Ok (Some sample_identity) /\
  Identity.canAuthenticate sample_identity = false.
Proof.
  apply (tombstones_are_permanent [RChangeStatus (mkId "acme") (mkId "alice") Active]).
  - vm_compute. reflexivity.
  - reflexivity.
Defined.
End repository_witness.
