(* ===== verification/Link.v ===== *)
(** * openproof.identity.core:link

    Models [src/src/identity/core/link.cpp]: references to external identities,
    the linking state machine, and the directory that records which canonical
    identity owns which external identity. *)
From S2P Require Import Prelude Foundation Encoding Security Provider IdentityCore.

(** ** External references

    Equality and order look at the provider and the subject only; the other
    members are presentation. A [std::map] keyed by references is therefore
    keyed by [ExternalKey], each entry storing the reference it was inserted
    with; the order is that of pairs. *)

Abbreviation ExternalKey := (ProviderId * ExternalSubject)%type.

Module ExternalIdentityRef.
Record t := mk {
  providerId : ProviderId;
  subject : ExternalSubject;
  displayName : option string;
  preferredUsername : option string;
  pictureUrl : option string;
}.

#[global] Instance eq_dec : EqDecision t.
Proof. solve_decision. Defined.

Definition key (r : t) : ExternalKey := (providerId r, subject r).

(** [operator==]. *)
Definition eqb (left right : t) : bool :=
  bool_decide (providerId left = providerId right) && bool_decide (subject left = subject right).

Lemma eqb_key left right : eqb left right = true <-> key left = key right.
Proof.
  unfold eqb, key. rewrite andb_true_iff, !bool_decide_eq_true. split; [|by intros [=]].
  by intros [-> ->].
Qed.
End ExternalIdentityRef.

(** ** The linking state machine *)

Module LinkState.
Inductive t := LinkRequested | VerificationRequired | Verified | Linked | Rejected | Expired | Revoked.

#[global] Instance eq_dec : EqDecision t.
Proof. solve_decision. Defined.
End LinkState.

Definition linkStateName (state : LinkState.t) : string :=
  match state with
  | LinkState.LinkRequested => "link_requested"
  | LinkState.VerificationRequired => "verification_required"
  | LinkState.Verified => "verified"
  | LinkState.Linked => "linked"
  | LinkState.Rejected => "rejected"
  | LinkState.Expired => "expired"
  | LinkState.Revoked => "revoked"
  end.

Definition isTerminalLinkState (state : LinkState.t) : bool :=
  match state with
  | LinkState.Rejected | LinkState.Expired | LinkState.Revoked => true
  | _ => false
  end.

Definition isPermittedTransition (from to : LinkState.t) : bool :=
  match from with
  | LinkState.LinkRequested =>
      bool_decide (to = LinkState.VerificationRequired) || bool_decide (to = LinkState.Rejected)
      || bool_decide (to = LinkState.Expired)
  | LinkState.VerificationRequired =>
      bool_decide (to = LinkState.Verified) || bool_decide (to = LinkState.Rejected)
      || bool_decide (to = LinkState.Expired)
  | LinkState.Verified =>
      bool_decide (to = LinkState.Linked) || bool_decide (to = LinkState.Rejected)
      || bool_decide (to = LinkState.Expired)
  | LinkState.Linked => bool_decide (to = LinkState.Revoked)
  | LinkState.Rejected | LinkState.Expired | LinkState.Revoked => false
  end.

Module IdentityLink.
Record t := mk {
  owner : IdentityId;
  external : ExternalIdentityRef.t;
  state : LinkState.t;
  requestedAt : Instant;
  expiresAt : Instant;
}.

Definition request (owner : IdentityId) (external : ExternalIdentityRef.t)
    (requestedAt : Instant) (lifetime : Duration) : Result t :=
  if id_empty owner then
    fail InvalidArgument "A link request must name the identity it would attach to."
  else if id_empty (ExternalIdentityRef.providerId external)
          || id_empty (ExternalIdentityRef.subject external) then
    failDetail InvalidArgument "A link request must name a provider and an external subject."
      "An external identity is only meaningful as a (provider, subject) pair; a subject without its issuer would match unrelated subjects elsewhere."
  else if lifetime <=? 0 then
    fail InvalidArgument "A link request must have a positive lifetime."
  else Ok (mk owner external LinkState.LinkRequested requestedAt (requestedAt + lifetime)).

Definition isExpiredAt (l : t) (now : Instant) : bool := expiresAt l <=? now.

Definition set_state (l : t) (s : LinkState.t) : t :=
  mk (owner l) (external l) s (requestedAt l) (expiresAt l).

Definition transitionTo (next : LinkState.t) (now : Instant) (honourExpiry : bool)
    : prog t Error unit := fun l =>
  if negb (isPermittedTransition (state l) next) then
    (failDetail FailedPrecondition "This account link cannot be advanced."
       ("Refused link transition " +:+ linkStateName (state l) +:+ " -> "
        +:+ linkStateName next +:+ "."), l)
  else if honourExpiry && isExpiredAt l now then
    (failDetail FailedPrecondition "This account link request has expired."
       "Link transition refused: request deadline passed.", set_state l LinkState.Expired)
  else (ok, set_state l next).

Definition requireVerification (now : Instant) := transitionTo LinkState.VerificationRequired now true.
Definition markVerified (now : Instant) := transitionTo LinkState.Verified now true.
Definition complete (now : Instant) := transitionTo LinkState.Linked now true.
Definition reject (now : Instant) := transitionTo LinkState.Rejected now false.
Definition revoke (now : Instant) := transitionTo LinkState.Revoked now false.
Definition expire (now : Instant) := transitionTo LinkState.Expired now false.

Lemma transitionTo_ok next now honour l :
  isPermittedTransition (state l) next = true -> isExpiredAt l now = false ->
  transitionTo next now honour l = (ok, set_state l next).
Proof. unfold transitionTo. intros -> ->. by rewrite andb_false_r. Qed.

(** A move of the machine, for sequences of calls. *)
Inductive move := RequireVerification | MarkVerified | Complete | Reject | Revoke | Expire.

Definition run_move (c : move * Instant) : prog t Error unit :=
  match c.1 with
  | RequireVerification => requireVerification c.2
  | MarkVerified => markVerified c.2
  | Complete => complete c.2
  | Reject => reject c.2
  | Revoke => revoke c.2
  | Expire => expire c.2
  end.

Definition run_moves (cs : list (move * Instant)) (l : t) : t :=
  foldl (fun l c => (run_move c l).2) l cs.

Lemma run_move_frame c l : exists s, (run_move c l).2 = set_state l s.
Proof.
  destruct c as [[] now], l; unfold run_move; simpl; unfold requireVerification, markVerified,
    complete, reject, revoke, expire, transitionTo; repeat case_match; simpl;
    eexists; unfold set_state; simpl; reflexivity.
Qed.

Lemma run_moves_frame cs l : exists s, run_moves cs l = set_state l s.
Proof.
  revert l. induction cs as [|c cs IH]; intros l; simpl.
  - exists (state l). by destruct l.
  - destruct (run_move_frame c l) as [s Hs]. rewrite Hs. apply (IH (set_state l s)).
Qed.

(** The moves that lead forward, each from one state only and only in time. *)
Definition forward (m : move) : option (LinkState.t * LinkState.t) :=
  match m with
  | RequireVerification => Some (LinkState.LinkRequested, LinkState.VerificationRequired)
  | MarkVerified => Some (LinkState.VerificationRequired, LinkState.Verified)
  | Complete => Some (LinkState.Verified, LinkState.Linked)
  | Reject | Revoke | Expire => None
  end.

Lemma run_move_state m now l :
  state (run_move (m, now) l).2 = state l \/
  (exists from to, forward m = Some (from, to) /\ state l = from /\
     state (run_move (m, now) l).2 = to /\ now < expiresAt l) \/
  isTerminalLinkState (state (run_move (m, now) l).2) = true.
Proof.
  assert (Hlt : isExpiredAt l now = false -> now < expiresAt l)
    by (unfold isExpiredAt; by rewrite Z.leb_gt).
  destruct m, (state l) eqn:Hs; unfold run_move; simpl;
    unfold requireVerification, markVerified, complete, reject, revoke, expire, transitionTo;
    rewrite Hs; simpl; rewrite ?Hs; auto;
    destruct (isExpiredAt l now); simpl; auto; right; left; eauto 10.
Qed.

Lemma terminal_stays cs l :
  isTerminalLinkState (state l) = true -> run_moves cs l = l.
Proof.
  intros Ht. induction cs as [|[m now] cs IH]; [done|]. simpl.
  assert ((run_move (m, now) l).2 = l) as ->; [|done].
  destruct m; unfold run_move; simpl; unfold requireVerification, markVerified, complete,
    reject, revoke, expire, transitionTo; by destruct (state l).
Qed.
End IdentityLink.

(** ** The directory contract *)

Class ExternalIdentityDirectory (T : Type) := {
  ed_attach : IdentityLink.t -> prog T Error unit;
  ed_ownerOf : T -> ExternalIdentityRef.t -> Result (option IdentityId);
  ed_detach : ExternalIdentityRef.t -> IdentityId -> prog T Error unit;
  ed_detachIfAnotherAuthenticationMethod :
    ExternalIdentityRef.t -> IdentityId -> list ProviderId -> prog T Error unit;
  ed_reassign : ExternalIdentityRef.t -> IdentityId -> IdentityId -> prog T Error unit;
  ed_updatePresentation : ExternalIdentityRef.t -> prog T Error unit;
  ed_externalIdentitiesOf : T -> IdentityId -> Result (list ExternalIdentityRef.t);
}.

(** What a client relies on: [ed_owner] is the abstract content, [ed_wf] the
    representation invariant every operation keeps. *)
Class ExternalIdentityDirectoryLaws (T : Type) `{ExternalIdentityDirectory T} := {
  ed_owner : T -> ExternalKey -> option IdentityId;
  ed_wf : T -> Prop;
  ed_ownerOf_owner : forall d r o,
    ed_ownerOf d r = Ok o -> o = ed_owner d (ExternalIdentityRef.key r);
  ed_attach_wf : forall l, preserves ed_wf (ed_attach l);
  ed_attach_ok : forall d l d', ed_attach l d = (ok, d') ->
    IdentityLink.state l = LinkState.Linked /\
    let k := ExternalIdentityRef.key (IdentityLink.external l) in
    (ed_owner d k = None \/ ed_owner d k = Some (IdentityLink.owner l)) /\
    forall k', ed_owner d' k' = if decide (k' = k) then Some (IdentityLink.owner l) else ed_owner d k';
  ed_attach_not_ok : forall d l, is_ok (ed_attach l d).1 = false ->
    ed_owner (ed_attach l d).2 = ed_owner d;
  ed_detach_ok : forall d r expected d', ed_detach r expected d = (ok, d') ->
    let k := ExternalIdentityRef.key r in
    ed_owner d k = Some expected /\
    forall k', ed_owner d' k' = if decide (k' = k) then None else ed_owner d k';
  ed_detach_not_ok : forall d r expected, is_ok (ed_detach r expected d).1 = false ->
    ed_owner (ed_detach r expected d).2 = ed_owner d;
  ed_updatePresentation_wf : forall r, preserves ed_wf (ed_updatePresentation r);
  ed_updatePresentation_owner : forall d r, ed_owner (ed_updatePresentation r d).2 = ed_owner d;
  ed_reassign_wf : forall r old new, preserves ed_wf (ed_reassign r old new);
  ed_reassign_ok : forall d r old new d', ed_reassign r old new d = (ok, d') ->
    let k := ExternalIdentityRef.key r in
    ed_owner d k = Some old /\
    forall k', ed_owner d' k' = if decide (k' = k) then Some new else ed_owner d k';
  ed_reassign_not_ok : forall d r old new, is_ok (ed_reassign r old new d).1 = false ->
    ed_owner (ed_reassign r old new d).2 = ed_owner d;
  ed_externalIdentitiesOf_owner : forall d owner refs, ed_wf d ->
    ed_externalIdentitiesOf d owner = Ok refs ->
    NoDup (ExternalIdentityRef.key <$> refs) /\
    forall k, k ∈ (ExternalIdentityRef.key <$> refs) <-> ed_owner d k = Some owner;
}.

(** ** The in-memory directory *)

Module InMemoryExternalIdentityDirectory.
Record t := mk {
  m_owners : gmap ExternalKey (ExternalIdentityRef.t * IdentityId);
  m_presentations : gmap ExternalKey ExternalIdentityRef.t;
}.

Definition empty : t := mk ∅ ∅.

Abbreviation key := ExternalIdentityRef.key.

Definition attach (link : IdentityLink.t) : prog t Error unit := fun d =>
  if negb (bool_decide (IdentityLink.state link = LinkState.Linked)) then
    (failDetail FailedPrecondition "This account link is not complete."
       ("Refused to attach an external identity from a link in state "
        +:+ linkStateName (IdentityLink.state link)
        +:+ "; only a Linked request may create an association."), d)
  else
    let external := IdentityLink.external link in
    match m_owners d !! key external with
    | Some existing =>
        if bool_decide (existing.2 = IdentityLink.owner link) then (ok, d)
        else (failDetail Conflict "That account is already connected to a different OpenProof identity."
                "Refused to transfer an external identity between canonical identities. Reassignment requires an explicit, separately authorised merge or recovery operation.", d)
    | None =>
        (ok, mk (<[key external := (external, IdentityLink.owner link)]> (m_owners d))
                (<[key external := external]> (m_presentations d)))
    end.

Definition ownerOf (d : t) (external : ExternalIdentityRef.t) : Result (option IdentityId) :=
  match m_owners d !! key external with
  | None => Ok None
  | Some position => Ok (Some position.2)
  end.

Definition detach (external : ExternalIdentityRef.t) (expectedOwner : IdentityId)
    : prog t Error unit := fun d =>
  match m_owners d !! key external with
  | None => (fail NotFound "That connected account was not found.", d)
  | Some position =>
      if negb (bool_decide (position.2 = expectedOwner)) then
        (failDetail PermissionDenied "The request was denied."
           "Refused to detach an external identity owned by a different canonical identity.", d)
      else (ok, mk (delete (key external) (m_owners d)) (delete (key external) (m_presentations d)))
  end.

(** The associations of an owner that can serve to sign in. *)
Definition sign_in_methods (d : t) (owner : IdentityId) (authenticationProviders : list ProviderId)
    : nat :=
  length (filter (fun p => p.2.2 = owner /\
            ExternalIdentityRef.providerId p.2.1 ∈ authenticationProviders) (map_iter (m_owners d))).

Definition detachIfAnotherAuthenticationMethod (external : ExternalIdentityRef.t)
    (expectedOwner : IdentityId) (authenticationProviders : list ProviderId)
    : prog t Error unit := fun d =>
  match m_owners d !! key external with
  | None => (fail NotFound "That connected account was not found.", d)
  | Some position =>
      if negb (bool_decide (position.2 = expectedOwner)) then
        (fail PermissionDenied "The request was denied.", d)
      else if (sign_in_methods d expectedOwner authenticationProviders <=? 1)%nat then
        (fail FailedPrecondition "The last available sign-in method cannot be disconnected.", d)
      else (ok, mk (delete (key external) (m_owners d)) (delete (key external) (m_presentations d)))
  end.

Definition reassign (external : ExternalIdentityRef.t) (expectedCurrentOwner newOwner : IdentityId)
    : prog t Error unit := fun d =>
  match m_owners d !! key external with
  | None => (fail NotFound "That connected account was not found.", d)
  | Some position =>
      if negb (bool_decide (position.2 = expectedCurrentOwner)) then
        (failDetail PermissionDenied "The request was denied."
           "Refused to reassign an external identity owned by a different canonical identity. Naming an association is not evidence of controlling it.", d)
      else
        let m_owners' := <[key external := (position.1, newOwner)]> (m_owners d) in
        (requireInvariant (bool_decide (snd <$> m_owners' !! key external = Some newOwner)),
         mk m_owners' (m_presentations d))
  end.

(** [a.has_value() ? a : b]. *)
Definition value_or_previous (a b : option string) : option string :=
  match a with Some _ => a | None => b end.

Definition updatePresentation (external : ExternalIdentityRef.t) : prog t Error unit := fun d =>
  match m_owners d !! key external with
  | None => (fail NotFound "That connected account was not found.", d)
  | Some _ =>
      let updated :=
        match m_presentations d !! key external with
        | None => external
        | Some previous =>
            ExternalIdentityRef.mk (ExternalIdentityRef.providerId external)
              (ExternalIdentityRef.subject external)
              (value_or_previous (ExternalIdentityRef.displayName external)
                                 (ExternalIdentityRef.displayName previous))
              (value_or_previous (ExternalIdentityRef.preferredUsername external)
                                 (ExternalIdentityRef.preferredUsername previous))
              (if bool_decide (id_value (ExternalIdentityRef.providerId external) = "telegram")
               then ExternalIdentityRef.pictureUrl external
               else value_or_previous (ExternalIdentityRef.pictureUrl external)
                                      (ExternalIdentityRef.pictureUrl previous))
        end in
      (ok, mk (m_owners d) (<[key external := updated]> (m_presentations d)))
  end.

Definition externalIdentitiesOf (d : t) (owner : IdentityId)
    : Result (list ExternalIdentityRef.t) :=
  Ok ((fun entry =>
         match m_presentations d !! entry.1 with
         | None => entry.2.1
         | Some presentation => presentation
         end) <$> filter (fun entry => entry.2.2 = owner) (map_iter (m_owners d))).

Definition size (d : t) : nat := base.size (m_owners d).

#[global] Instance directory : ExternalIdentityDirectory t := {
  ed_attach := attach;
  ed_ownerOf := ownerOf;
  ed_detach := detach;
  ed_detachIfAnotherAuthenticationMethod := detachIfAnotherAuthenticationMethod;
  ed_reassign := reassign;
  ed_updatePresentation := updatePresentation;
  ed_externalIdentitiesOf := externalIdentitiesOf;
}.

(** *** The representation invariant and the abstract content *)

Definition owner (d : t) (k : ExternalKey) : option IdentityId := snd <$> m_owners d !! k.

(** Each entry is stored under the key of the reference it holds. *)
Definition keyed (d : t) : Prop :=
  map_Forall (fun k p => key p.1 = k) (m_owners d) /\
  map_Forall (fun k r => key r = k) (m_presentations d).

Lemma keyed_empty : keyed empty.
Proof. split; apply map_Forall_empty. Qed.

Lemma ownerOf_owner d r : ownerOf d r = Ok (owner d (key r)).
Proof. unfold ownerOf, owner. by destruct (m_owners d !! key r). Qed.

Lemma owner_insert d k v ps k' :
  owner (mk (<[k := v]> (m_owners d)) ps) k' = if decide (k' = k) then Some v.2 else owner d k'.
Proof. unfold owner. simpl. rewrite lookup_insert. repeat case_decide; naive_solver. Qed.

Lemma owner_delete d k ps k' :
  owner (mk (delete k (m_owners d)) ps) k' = if decide (k' = k) then None else owner d k'.
Proof. unfold owner. simpl. rewrite lookup_delete. repeat case_decide; naive_solver. Qed.

Lemma keyed_insert d k v r :
  keyed d -> key v.1 = k -> key r = k ->
  keyed (mk (<[k := v]> (m_owners d)) (<[k := r]> (m_presentations d))).
Proof. intros [? ?] ??. split; simpl; by apply map_Forall_insert_2. Qed.

Lemma keyed_delete d k :
  keyed d -> keyed (mk (delete k (m_owners d)) (delete k (m_presentations d))).
Proof. intros [? ?]. split; simpl; by apply map_Forall_delete. Qed.

Lemma attach_cases link d r d' :
  attach link d = (r, d') ->
  let k := key (IdentityLink.external link) in
  (d' = d /\ (r = ok -> owner d k = Some (IdentityLink.owner link)) /\ r <> Aborted /\
     (r = ok -> IdentityLink.state link = LinkState.Linked)) \/
  (r = ok /\ IdentityLink.state link = LinkState.Linked /\ owner d k = None /\
   d' = mk (<[k := (IdentityLink.external link, IdentityLink.owner link)]> (m_owners d))
           (<[k := IdentityLink.external link]> (m_presentations d))).
Proof.
  unfold attach, owner. case_bool_decide; simpl; [|by intros [= <- <-]; left].
  destruct (m_owners d !! _) as [existing|]; [|by intros [= <- <-]; right].
  case_bool_decide; intros [= <- <-]; left; unfold ok; simpl; naive_solver congruence.
Qed.

Lemma detach_cases external expected d r d' :
  detach external expected d = (r, d') ->
  (d' = d /\ is_ok r = false /\ r <> Aborted) \/
  (r = ok /\ owner d (key external) = Some expected /\
   d' = mk (delete (key external) (m_owners d)) (delete (key external) (m_presentations d))).
Proof.
  unfold detach, owner. destruct (m_owners d !! _); [|by intros [= <- <-]; left].
  case_bool_decide; intros [= <- <-]; [right|left]; unfold ok; simpl; naive_solver congruence.
Qed.

Lemma detachIf_cases external expected providers d r d' :
  detachIfAnotherAuthenticationMethod external expected providers d = (r, d') ->
  (d' = d /\ is_ok r = false /\ r <> Aborted) \/
  (r = ok /\ owner d (key external) = Some expected /\
   (2 <= sign_in_methods d expected providers)%nat /\
   d' = mk (delete (key external) (m_owners d)) (delete (key external) (m_presentations d))).
Proof.
  unfold detachIfAnotherAuthenticationMethod, owner.
  destruct (m_owners d !! _); [|by intros [= <- <-]; left].
  case_bool_decide; simpl; [|by intros [= <- <-]; left].
  destruct (Nat.leb_spec (sign_in_methods d expected providers) 1); intros [= <- <-];
    [left|right]; unfold ok; simpl; naive_solver congruence.
Qed.

Lemma reassign_cases external expected new d r d' :
  reassign external expected new d = (r, d') ->
  (d' = d /\ is_ok r = false /\ r <> Aborted) \/
  (exists ref, m_owners d !! key external = Some (ref, expected) /\ r = ok /\
   d' = mk (<[key external := (ref, new)]> (m_owners d)) (m_presentations d)).
Proof.
  unfold reassign. destruct (m_owners d !! _) as [[ref o]|]; [|by intros [= <- <-]; left].
  case_bool_decide as Ho; simpl in *; [|by intros [= <- <-]; left].
  rewrite lookup_insert_eq. simpl. rewrite bool_decide_eq_true_2 by done.
  intros [= <- <-]. right. exists ref. by subst.
Qed.

Lemma reassign_succeeds external expected new d :
  owner d (key external) = Some expected ->
  exists ref, m_owners d !! key external = Some (ref, expected) /\
    reassign external expected new d =
      (ok, mk (<[key external := (ref, new)]> (m_owners d)) (m_presentations d)).
Proof.
  unfold owner, reassign. destruct (m_owners d !! key external) as [[ref o]|]; intros [= ->].
  exists ref. rewrite bool_decide_eq_true_2, lookup_insert_eq by done. simpl.
  by rewrite bool_decide_eq_true_2.
Qed.

Lemma updatePresentation_cases external d r d' :
  updatePresentation external d = (r, d') ->
  (d' = d /\ is_ok r = false /\ r <> Aborted) \/
  (r = ok /\ is_Some (owner d (key external)) /\ exists u, key u = key external /\
   d' = mk (m_owners d) (<[key external := u]> (m_presentations d))).
Proof.
  unfold updatePresentation, owner. destruct (m_owners d !! _) as [p|]; [|by intros [= <- <-]; left].
  intros [= <- <-]. right. split; [done|]. split; [by eexists|]. eexists. split; [|reflexivity].
  by destruct (m_presentations d !! _).
Qed.

Lemma externalIdentitiesOf_keys d o refs :
  keyed d -> externalIdentitiesOf d o = Ok refs ->
  key <$> refs = (filter (fun entry => entry.2.2 = o) (map_iter (m_owners d))).*1.
Proof.
  intros [Ho Hp] [= <-]. rewrite <-list_fmap_compose. apply list_fmap_ext.
  intros i [k [r o']] Hi%list_elem_of_lookup_2%elem_of_scan. simpl.
  destruct (m_presentations d !! k) as [r'|] eqn:Hk; [by apply Hp in Hk|].
  destruct Hi as [_ Hi]. by apply Ho in Hi.
Qed.

#[global] Program Instance laws : ExternalIdentityDirectoryLaws t :=
  {| ed_owner := owner; ed_wf := keyed |}.
Next Obligation. intros d r o. cbn. rewrite ownerOf_owner. congruence. Qed.
Next Obligation.
  intros l d Hd. cbn. destruct (attach l d) as [r d'] eqn:Hr.
  apply attach_cases in Hr as [(-> & _)|(_ & _ & _ & ->)]; [done|]. by apply keyed_insert.
Qed.
Next Obligation.
  intros d l d' [(-> & Hown & _ & Hl)|(_ & Hl & Hn & ->)]%attach_cases; (split; [by auto|]).
  - specialize (Hown eq_refl). split; [by right|]. intros k'. case_decide; by subst.
  - split; [by left|]. intros k'. by rewrite owner_insert.
Qed.
Next Obligation.
  intros d l. cbn. destruct (attach l d) as [r d'] eqn:Hr.
  apply attach_cases in Hr as [(-> & _)|(-> & _)]; done.
Qed.
Next Obligation.
  intros d r expected d' [(_ & ? & _)|(_ & Hown & ->)]%detach_cases; [done|].
  split; [done|]. intros k'. by rewrite owner_delete.
Qed.
Next Obligation.
  intros d r expected. cbn. destruct (detach r expected d) as [res d'] eqn:Hr.
  apply detach_cases in Hr as [(-> & _)|(-> & _)]; done.
Qed.
Next Obligation.
  intros r d Hd. cbn. destruct (updatePresentation r d) as [res d'] eqn:Hr.
  apply updatePresentation_cases in Hr as [(-> & _)|(_ & _ & u & Hu & ->)]; [done|].
  destruct Hd. split; [done|]. simpl. by apply map_Forall_insert_2.
Qed.
Next Obligation.
  intros d r. cbn. destruct (updatePresentation r d) as [res d'] eqn:Hr.
  by apply updatePresentation_cases in Hr as [(-> & _)|(_ & _ & u & Hu & ->)].
Qed.
Next Obligation.
  intros r old new d Hd. cbn. destruct (reassign r old new d) as [res d'] eqn:Hr.
  apply reassign_cases in Hr as [(-> & _)|(ref & Hm & _ & ->)]; [done|].
  destruct Hd as [Ho Hp]. split; [|done]. simpl. apply map_Forall_insert_2; [|done].
  simpl. by apply Ho in Hm.
Qed.
Next Obligation.
  intros d r old new d' [(_ & ? & _)|(ref & Hm & _ & ->)]%reassign_cases; [done|].
  split; [unfold owner; by rewrite Hm|]. intros k'. by rewrite (owner_insert _ _ _ _ k').
Qed.
Next Obligation.
  intros d r old new. cbn. destruct (reassign r old new d) as [res d'] eqn:Hr.
  apply reassign_cases in Hr as [(-> & _)|(ref & Hm & -> & _)]; done.
Qed.
Next Obligation.
  intros d o refs Hd Hr. cbn in Hr. rewrite (externalIdentitiesOf_keys _ _ _ Hd Hr).
  split; [apply scan_keys_NoDup|]. intros k. rewrite elem_of_scan_keys. unfold owner.
  destruct (m_owners d !! k) as [[? ?]|]; naive_solver.
Qed.
End InMemoryExternalIdentityDirectory.

(** ** A link is established only through verification *)

Section link_history.
Import IdentityLink.

(** The last time a link advanced into [to], it came from [from], in time. *)
Lemma advanced_through m from to cs l :
  forward m = Some (from, to) -> isTerminalLinkState to = false ->
  state l <> to -> state (run_moves cs l) = to ->
  exists cs1 now cs2, cs = cs1 ++ (m, now) :: cs2 /\
    state (run_moves cs1 l) = from /\ now < expiresAt l.
Proof.
  intros Hm Hto Hl Hs.
  destruct (crossing (fun c l => (run_move c l).2) (fun l => state l = to) cs l Hl Hs)
    as (cs1 & [m' now] & cs2 & -> & Hno & Hyes). fold (run_moves cs1 l) in *.
  destruct (run_move_state m' now (run_moves cs1 l)) as [E|[(from' & to' & Hf & E1 & E2 & Hlt)|Ht]];
    [congruence| |congruence].
  assert (m' = m /\ from' = from) as [-> ->] by (destruct m, m'; naive_solver congruence).
  destruct (run_moves_frame cs1 l) as [s Hs1]. rewrite Hs1 in Hlt. eauto 10.
Qed.

(** A link is established only through verification. If any sequence of
    calls on a fresh request, at any times, leaves it [Linked], then the
    sequence contains [requireVerification], [markVerified] and [complete] in
    this order, each before the deadline; and the request still names the
    owner and the external identity it was opened for. *)
Theorem linked_only_through_verified owner0 ext t0 lifetime l cs :
  request owner0 ext t0 lifetime = Ok l -> state (run_moves cs l) = LinkState.Linked ->
  (exists c0 t1 c1 t2 c2 t3 c3,
    cs = c0 ++ (RequireVerification, t1) :: c1 ++ (MarkVerified, t2) :: c2
            ++ (Complete, t3) :: c3 /\
    t1 < t0 + lifetime /\ t2 < t0 + lifetime /\ t3 < t0 + lifetime) /\
  owner (run_moves cs l) = owner0 /\ external (run_moves cs l) = ext.
Proof.
  intros Hr Hs. unfold request in Hr. handler Hr.
  destruct (run_moves_frame cs (mk owner0 ext LinkState.LinkRequested t0 (t0 + lifetime)))
    as [s Hf]. split; [|by rewrite Hf].
  apply (advanced_through Complete LinkState.Verified) in Hs
    as (cs3 & t3 & c3 & -> & Hs & H3); [|done..].
  apply (advanced_through MarkVerified LinkState.VerificationRequired) in Hs
    as (cs2 & t2 & c2 & -> & Hs & H2); [|done..].
  apply (advanced_through RequireVerification LinkState.LinkRequested) in Hs
    as (c0 & t1 & c1 & -> & _ & H1); [|done..].
  exists c0, t1, c1, t2, c2, t3, c3. split_and!; [|done..].
  by rewrite <-!app_assoc.
Qed.
End link_history.

(** ** Ownership of external identities *)

Inductive directory_op :=
| DAttach (link : IdentityLink.t)
| DDetach (external : ExternalIdentityRef.t) (expectedOwner : IdentityId)
| DDetachIf (external : ExternalIdentityRef.t) (expectedOwner : IdentityId) (providers : list ProviderId)
| DReassign (external : ExternalIdentityRef.t) (expectedCurrentOwner newOwner : IdentityId)
| DUpdatePresentation (external : ExternalIdentityRef.t).

Section ownership.
Import InMemoryExternalIdentityDirectory.

Implicit Types d : InMemoryExternalIdentityDirectory.t.

Definition run_directory_op (o : directory_op) : prog InMemoryExternalIdentityDirectory.t Error unit :=
  match o with
  | DAttach link => ed_attach link
  | DDetach external owner => ed_detach external owner
  | DDetachIf external owner providers =>
      ed_detachIfAnotherAuthenticationMethod external owner providers
  | DReassign external old new => ed_reassign external old new
  | DUpdatePresentation external => ed_updatePresentation external
  end.

Definition run_directory_ops (os : list directory_op) d : InMemoryExternalIdentityDirectory.t :=
  foldl (fun d o => (run_directory_op o d).2) d os.

Lemma run_directory_op_keyed o : preserves keyed (run_directory_op o).
Proof.
  destruct o as [link|ext own|ext own ps|ext old new|ext]; cbn [run_directory_op].
  - exact (ed_attach_wf (ExternalIdentityDirectoryLaws:=laws) link).
  - intros d Hd. cbn. destruct (detach ext own d) as [r d'] eqn:Hr.
    apply detach_cases in Hr as [(-> & _)|(_ & _ & ->)]; [done|by apply keyed_delete].
  - intros d Hd. cbn. destruct (detachIfAnotherAuthenticationMethod ext own ps d) as [r d'] eqn:Hr.
    apply detachIf_cases in Hr as [(-> & _)|(_ & _ & _ & ->)]; [done|by apply keyed_delete].
  - exact (ed_reassign_wf (ExternalIdentityDirectoryLaws:=laws) ext old new).
  - exact (ed_updatePresentation_wf (ExternalIdentityDirectoryLaws:=laws) ext).
Qed.

(** Ownership of an external identity changes only by its owner. When
    an operation of the directory changes the owner of an external identity
    [k], either [k] was unowned and the operation attached a completed link
    for it; or the operation named the current owner and released [k]; or it
    was the explicit reassignment that named the current owner. In particular
    no attachment transfers an owned identity. *)
Theorem ownership_changes_only_by_owner o d k :
  owner (run_directory_op o d).2 k <> owner d k ->
  match owner d k, owner (run_directory_op o d).2 k with
  | None, Some new => exists link, o = DAttach link /\
      ExternalIdentityRef.key (IdentityLink.external link) = k /\
      IdentityLink.owner link = new /\ IdentityLink.state link = LinkState.Linked
  | Some old, None => exists external, ExternalIdentityRef.key external = k /\
      (o = DDetach external old \/ exists providers, o = DDetachIf external old providers)
  | Some old, Some new => exists external, ExternalIdentityRef.key external = k /\
      o = DReassign external old new
  | None, None => False
  end.
Proof.
  destruct (run_directory_op o d) as [r d'] eqn:Hr. simpl. intros Hch.
  destruct o as [link|ext own|ext own ps|ext old new|ext]; cbn in Hr.
  - apply attach_cases in Hr as [(-> & _)|(_ & Hl & Hn & ->)]; [done|].
    rewrite owner_insert in *. case_decide; [subst|done]. rewrite Hn. simpl. eauto.
  - apply detach_cases in Hr as [(-> & _)|(_ & Hown & ->)]; [done|].
    rewrite owner_delete in *. case_decide; [subst|done]. rewrite Hown. eauto.
  - apply detachIf_cases in Hr as [(-> & _)|(_ & Hown & _ & ->)]; [done|].
    rewrite owner_delete in *. case_decide; [subst|done]. rewrite Hown. eauto.
  - apply reassign_cases in Hr as [(-> & _)|(ref & Hm & _ & ->)]; [done|].
    rewrite owner_insert in *. case_decide; [subst|done]. unfold owner. rewrite Hm. simpl. eauto.
  - by apply updatePresentation_cases in Hr as [(-> & _)|(_ & _ & u & _ & ->)].
Qed.

(** *** The last sign-in method *)

Definition is_method (o : IdentityId) (providers : list ProviderId)
    (p : ExternalKey * (ExternalIdentityRef.t * IdentityId)) : Prop :=
  p.2.2 = o /\ ExternalIdentityRef.providerId p.2.1 ∈ providers.

#[global] Instance is_method_dec o providers p : Decision (is_method o providers p).
Proof. unfold is_method. apply _. Defined.

Lemma sign_in_methods_size d o providers :
  sign_in_methods d o providers = base.size (filter (is_method o providers) (m_owners d)).
Proof.
  unfold sign_in_methods. rewrite <-map_iter_length, <-map_iter_filter. done.
Qed.

Lemma sign_in_methods_insert d o providers k v ps :
  m_owners d !! k = None ->
  (sign_in_methods d o providers
   <= sign_in_methods (mk (<[k := v]> (m_owners d)) ps) o providers)%nat.
Proof.
  intros Hk. rewrite !sign_in_methods_size. simpl.
  apply map_subseteq_size, map_filter_subseteq_mono. by apply insert_subseteq.
Qed.

Lemma sign_in_methods_delete d o providers k ps :
  (sign_in_methods d o providers
   <= S (sign_in_methods (mk (delete k (m_owners d)) ps) o providers))%nat.
Proof.
  rewrite !sign_in_methods_size. simpl. rewrite map_filter_delete, map_size_delete.
  case_match; unfold id; lia.
Qed.

Lemma sign_in_methods_delete_other d o own providers k ps :
  owner d k = Some own -> own <> o ->
  sign_in_methods (mk (delete k (m_owners d)) ps) o providers = sign_in_methods d o providers.
Proof.
  intros Hk Hne. rewrite !sign_in_methods_size. simpl. rewrite map_filter_delete, delete_id; [done|].
  rewrite map_lookup_filter_None. right. intros x Hx [Ho _]. unfold owner in Hk.
  rewrite Hx in Hk. simpl in *. congruence.
Qed.

(** An operation that respects the rule of [detachIfAnotherAuthenticationMethod]
    for [o]: no unconditional detachment and no reassignment away from [o], and
    conditional detachments of [o] that count the configured providers. *)
Definition self_service (o : IdentityId) (providers : list ProviderId) (op : directory_op) : Prop :=
  match op with
  | DAttach _ | DUpdatePresentation _ => True
  | DDetachIf _ own ps => own = o -> ps = providers
  | DDetach _ own => own <> o
  | DReassign _ _ _ => False
  end.

Lemma self_service_step o providers op d :
  self_service o providers op -> (1 <= sign_in_methods d o providers)%nat ->
  (1 <= sign_in_methods (run_directory_op op d).2 o providers)%nat.
Proof.
  intros Hop H1. destruct (run_directory_op op d) as [r d'] eqn:Hr. simpl.
  destruct op as [link|ext own|ext own ps|ext old new|ext]; cbn in Hr; simpl in Hop.
  - apply attach_cases in Hr as [(-> & _)|(_ & Hl & Hn & ->)]; [done|].
    etrans; [exact H1|]. apply sign_in_methods_insert. unfold owner in Hn.
    by destruct (m_owners d !! _).
  - apply detach_cases in Hr as [(-> & _)|(_ & Hown & ->)]; [done|].
    by rewrite (sign_in_methods_delete_other _ _ own).
  - apply detachIf_cases in Hr as [(-> & _)|(_ & Hown & H2 & ->)]; [done|].
    destruct (decide (own = o)) as [->|Hne].
    + rewrite Hop in H2 by done.
      pose proof (sign_in_methods_delete d o providers (ExternalIdentityRef.key ext)
        (delete (ExternalIdentityRef.key ext) (m_presentations d))). lia.
    + by rewrite (sign_in_methods_delete_other _ _ own).
  - done.
  - by apply updatePresentation_cases in Hr as [(-> & _)|(_ & _ & u & _ & ->)].
Qed.

End ownership.

(** Two corners of the table: a verified request may still expire, and a
    completed link, which is not terminal, cannot be rejected. *)
Lemma link_table_corners :
  isPermittedTransition LinkState.Verified LinkState.Expired = true /\
  isTerminalLinkState LinkState.Linked = false /\
  isPermittedTransition LinkState.Linked LinkState.Rejected = false.
Proof. done. Qed.

Section link_witnesses.
Import IdentityLink.

Definition sample_external : ExternalIdentityRef.t :=
  ExternalIdentityRef.mk (mkId "google") (mkId "12345") None None None.
Definition sample_external2 : ExternalIdentityRef.t :=
  ExternalIdentityRef.mk (mkId "github") (mkId "7") None None None.
Definition sample_moves : list (move * Instant) :=
  [(RequireVerification, 11); (MarkVerified, 12); (Complete, 13)].
Definition sample_link : IdentityLink.t :=
  mk (mkId "alice") sample_external LinkState.Linked 10 70.
Definition sample_directory : InMemoryExternalIdentityDirectory.t :=
  run_directory_ops
    [DAttach sample_link; DAttach (mk (mkId "alice") sample_external2 LinkState.Linked 10 70)]
    InMemoryExternalIdentityDirectory.empty.

Lemma linked_only_through_verified_witness :
  owner (run_moves sample_moves (mk (mkId "alice") sample_external LinkState.LinkRequested 10 70))
    = mkId "alice".
Proof.
  apply (linked_only_through_verified (mkId "alice") sample_external 10 60).
  - reflexivity.
  - vm_compute. reflexivity.
Defined.

Lemma ownership_changes_only_by_owner_witness :
  exists external, ExternalIdentityRef.key external = ExternalIdentityRef.key sample_external /\
    DReassign sample_external (mkId "alice") (mkId "bob")
      = DReassign external (mkId "alice") (mkId "bob").
Proof.
  apply (ownership_changes_only_by_owner (DReassign sample_external (mkId "alice") (mkId "bob"))
           sample_directory (ExternalIdentityRef.key sample_external)).
  vm_compute. discriminate.
Defined.

End link_witnesses.
