(* ===== verification/Merge.v ===== *)
(** * openproof.identity.core:merge

    Models [src/src/identity/core/merge.cpp]: the merge state machine and
    [applyMerge], written against the repository and directory contracts. *)
From S2P Require Import Prelude Foundation Encoding Security Provider IdentityCore Link.

Module MergeState.
Inductive t := Requested | VerificationRequired | Verified | Applied | Rejected | Expired.

#[global] Instance eq_dec : EqDecision t.
Proof. solve_decision. Defined.
End MergeState.

Definition mergeStateName (state : MergeState.t) : string :=
  match state with
  | MergeState.Requested => "requested"
  | MergeState.VerificationRequired => "verification_required"
  | MergeState.Verified => "verified"
  | MergeState.Applied => "applied"
  | MergeState.Rejected => "rejected"
  | MergeState.Expired => "expired"
  end.

Definition isTerminalMergeState (state : MergeState.t) : bool :=
  match state with
  | MergeState.Requested | MergeState.VerificationRequired | MergeState.Verified => false
  | MergeState.Applied | MergeState.Rejected | MergeState.Expired => true
  end.

Module IdentityMerge.
Record t := mk {
  organization : OrganizationId;
  source : IdentityId;
  target : IdentityId;
  state : MergeState.t;
  requestedAt : Instant;
  expiresAt : Instant;
}.

Definition request (organization : OrganizationId) (source target : IdentityId)
    (now : Instant) (validFor : Duration) : Result t :=
  if id_empty organization then fail InvalidArgument "A merge must name an organization."
  else if id_empty source || id_empty target then
    fail InvalidArgument "A merge must name both identities."
  else if bool_decide (source = target) then
    failDetail InvalidArgument "An identity cannot be merged into itself."
      "Source and target were the same key. Applying it would mark the surviving identity as merged and disable the account the operation was meant to keep."
  else if validFor <=? 0 then
    failDetail InvalidArgument "A merge request must have a positive lifetime."
      "A non-positive lifetime yields a request that is already expired, which would either be unusable or, if expiry were ignored, never expire at all."
  else Ok (mk organization source target MergeState.Requested now (now + validFor)).

Definition set_state (m : t) (s : MergeState.t) : t :=
  mk (organization m) (source m) (target m) s (requestedAt m) (expiresAt m).

Definition isExpiredAt (m : t) (now : Instant) : bool := expiresAt m <=? now.

Definition transitionTo (next : MergeState.t) (now : Instant) (honourExpiry : bool)
    : prog t Error unit := fun m =>
  if isTerminalMergeState (state m) then
    (failDetail FailedPrecondition "This merge request can no longer be changed."
       "Refused to transition out of a terminal merge state.", m)
  else if honourExpiry && isExpiredAt m now then
    (fail FailedPrecondition "This merge request has expired.", set_state m MergeState.Expired)
  else (ok, set_state m next).

Definition requireVerification (now : Instant) : prog t Error unit := fun m =>
  if negb (bool_decide (state m = MergeState.Requested)) then
    (fail FailedPrecondition "This merge request is not awaiting verification.", m)
  else transitionTo MergeState.VerificationRequired now true m.

Definition markVerified (now : Instant) : prog t Error unit := fun m =>
  if negb (bool_decide (state m = MergeState.VerificationRequired)) then
    (failDetail FailedPrecondition "This merge request cannot be marked verified."
       "Verification may only follow an explicit verification requirement. Allowing it from any other state would make the requirement optional.", m)
  else transitionTo MergeState.Verified now true m.

Definition markApplied (now : Instant) : prog t Error unit := fun m =>
  if negb (bool_decide (state m = MergeState.Verified)) then
    (failDetail FailedPrecondition "This merge request has not been verified."
       "Refused to apply a merge that did not pass through the Verified state.", m)
  else transitionTo MergeState.Applied now true m.

Definition reject (now : Instant) : prog t Error unit := transitionTo MergeState.Rejected now false.
Definition expire (now : Instant) : prog t Error unit := transitionTo MergeState.Expired now false.

Inductive move := RequireVerification | MarkVerified | MarkApplied | Reject | Expire.

Definition run_move (c : move * Instant) : prog t Error unit :=
  match c.1 with
  | RequireVerification => requireVerification c.2
  | MarkVerified => markVerified c.2
  | MarkApplied => markApplied c.2
  | Reject => reject c.2
  | Expire => expire c.2
  end.

Definition run_moves (cs : list (move * Instant)) (m : t) : t :=
  foldl (fun m c => (run_move c m).2) m cs.

(** The moves that lead forward, each from one state only and only in time. *)
Definition forward (m : move) : option (MergeState.t * MergeState.t) :=
  match m with
  | RequireVerification => Some (MergeState.Requested, MergeState.VerificationRequired)
  | MarkVerified => Some (MergeState.VerificationRequired, MergeState.Verified)
  | MarkApplied => Some (MergeState.Verified, MergeState.Applied)
  | Reject | Expire => None
  end.

Lemma merge_move_frame c m : exists s, (run_move c m).2 = set_state m s.
Proof.
  destruct c as [[] now], m; unfold run_move; simpl; unfold requireVerification, markVerified,
    markApplied, reject, expire, transitionTo; repeat case_match; simpl;
    eexists; unfold set_state; simpl; reflexivity.
Qed.

Lemma merge_moves_frame cs m : exists s, run_moves cs m = set_state m s.
Proof.
  revert m. induction cs as [|c cs IH]; intros m; simpl.
  - exists (state m). by destruct m.
  - destruct (merge_move_frame c m) as [s Hs]. rewrite Hs. apply (IH (set_state m s)).
Qed.

(** A move keeps the state, leads forward in time, or closes the request. *)
Lemma merge_move_state c now m :
  state (run_move (c, now) m).2 = state m \/
  (exists from to, forward c = Some (from, to) /\ state m = from /\
     state (run_move (c, now) m).2 = to /\ now < expiresAt m) \/
  state (run_move (c, now) m).2 = MergeState.Rejected \/
  state (run_move (c, now) m).2 = MergeState.Expired.
Proof.
  assert (Hlt : isExpiredAt m now = false -> now < expiresAt m)
    by (unfold isExpiredAt; by rewrite Z.leb_gt).
  destruct c, (state m) eqn:Hs; unfold run_move; simpl;
    unfold requireVerification, markVerified, markApplied, reject, expire, transitionTo;
    rewrite Hs; simpl; rewrite ?Hs; auto;
    destruct (isExpiredAt m now); simpl; auto; right; left; eauto 10.
Qed.

Lemma merge_advanced_through c from to cs m :
  forward c = Some (from, to) -> state m <> to -> state (run_moves cs m) = to ->
  exists cs1 now cs2, cs = cs1 ++ (c, now) :: cs2 /\
    state (run_moves cs1 m) = from /\ now < expiresAt m.
Proof.
  intros Hc Hm Hs.
  destruct (crossing (fun c m => (run_move c m).2) (fun m => state m = to) cs m Hm Hs)
    as (cs1 & [c' now] & cs2 & -> & Hno & Hyes). fold (run_moves cs1 m) in *.
  destruct (merge_move_state c' now (run_moves cs1 m)) as [E|[(from' & to' & Hf & E1 & E2 & Hlt)|Ht]];
    [congruence| |destruct c; naive_solver congruence].
  assert (c' = c /\ from' = from) as [-> ->] by (destruct c, c'; naive_solver congruence).
  destruct (merge_moves_frame cs1 m) as [s Hs1]. rewrite Hs1 in Hlt. eauto 10.
Qed.

Lemma markApplied_succeeds now m :
  state m = MergeState.Verified -> isExpiredAt m now = false ->
  markApplied now m = (ok, set_state m MergeState.Applied).
Proof. unfold markApplied, transitionTo. intros -> ->. reflexivity. Qed.
End IdentityMerge.

Module MergeRecord.
Record t := mk {
  organization : OrganizationId;
  source : IdentityId;
  target : IdentityId;
  appliedAt : Instant;
  movedAssociations : list ExternalIdentityRef.t;
}.
End MergeRecord.

Definition isTerminalIdentityStatus (status : IdentityStatus) : bool :=
  bool_decide (status = Deleted) || bool_decide (status = Merged).

Section apply_merge.
Context {I D : Type} `{IdentityRepository I, ExternalIdentityDirectory D}.

(** The objects [applyMerge] takes by reference. *)
Record merge_world := mkWorld { merge : IdentityMerge.t; identities : I; directory : D }.

(** The loop that moves the associations. *)
Fixpoint moveAssociations (source target : IdentityId) (owned moved : list ExternalIdentityRef.t)
    : prog D Error (list ExternalIdentityRef.t) :=
  match owned with
  | [] => mret moved
  | external :: owned =>
      _ ← ed_reassign external source target;
      moveAssociations source target owned (moved ++ [external])
  end.

Definition applyMerge (now : Instant) : prog merge_world Error MergeRecord.t := fun w =>
  let m := merge w in
  if negb (bool_decide (IdentityMerge.state m = MergeState.Verified)) then
    (failDetail FailedPrecondition "This merge request has not been verified."
       "applyMerge refused a request that had not passed through the Verified state.", w)
  else if IdentityMerge.isExpiredAt m now then
    (fail FailedPrecondition "This merge request has expired.",
     mkWorld (IdentityMerge.expire now m).2 (identities w) (directory w))
  else
    match ir_findById (identities w) (IdentityMerge.organization m) (IdentityMerge.source m) with
    | Err e => (Err e, w) | Aborted => (Aborted, w)
    | Ok sourceLookup =>
    match ir_findById (identities w) (IdentityMerge.organization m) (IdentityMerge.target m) with
    | Err e => (Err e, w) | Aborted => (Aborted, w)
    | Ok targetLookup =>
    match sourceLookup, targetLookup with
    | Some s, Some t =>
        if isTerminalIdentityStatus (Identity.status s)
           || isTerminalIdentityStatus (Identity.status t) then
          (failDetail FailedPrecondition "One of the identities in this merge can no longer be modified."
             "Refused to merge into or out of a deleted or already-merged identity. Doing so would either resurrect a retired key or produce a chain of merges whose final owner is ambiguous.", w)
        else
          match ed_externalIdentitiesOf (directory w) (IdentityMerge.source m) with
          | Err e => (Err e, w) | Aborted => (Aborted, w)
          | Ok owned =>
          match moveAssociations (IdentityMerge.source m) (IdentityMerge.target m) owned [] (directory w) with
          | (Err e, d) => (Err e, mkWorld m (identities w) d)
          | (Aborted, d) => (Aborted, mkWorld m (identities w) d)
          | (Ok moved, d) =>
          match ir_changeStatus (IdentityMerge.organization m) (IdentityMerge.source m) Merged (identities w) with
          | (Err e, i) => (Err e, mkWorld m i d)
          | (Aborted, i) => (Aborted, mkWorld m i d)
          | (Ok _, i) =>
          match IdentityMerge.markApplied now m with
          | (Err e, m') => (Err e, mkWorld m' i d)
          | (Aborted, m') => (Aborted, mkWorld m' i d)
          | (Ok _, m') =>
              ((_ ← requireInvariant (bool_decide (IdentityMerge.state m' = MergeState.Applied));
                _ ← requireInvariant (length moved =? length owned)%nat;
                mret (MergeRecord.mk (IdentityMerge.organization m') (IdentityMerge.source m')
                        (IdentityMerge.target m') now moved)),
               mkWorld m' i d)
          end end end end
    | _, _ =>
        (failDetail NotFound "One of the identities in this merge was not found."
           "Either a key does not exist or it belongs to another organization; the two are deliberately indistinguishable here.", w)
    end end end.
End apply_merge.
Arguments merge_world : clear implicits.
Arguments mkWorld {I D} merge identities directory.

(** ** A merge is applied only after verification *)

Section merge_history.
Import IdentityMerge.

(** A merge request reaches [Applied] only through verification. If any
    sequence of calls on a fresh request, at any times, leaves it [Applied],
    the sequence contains [requireVerification], [markVerified] and
    [markApplied] in this order, each before the deadline; the parties are
    still those named at the request, and they are two different identities. *)
Theorem applied_only_through_verified org src tgt t0 validFor m cs :
  request org src tgt t0 validFor = Ok m -> state (run_moves cs m) = MergeState.Applied ->
  (exists c0 t1 c1 t2 c2 t3 c3,
    cs = c0 ++ (RequireVerification, t1) :: c1 ++ (MarkVerified, t2) :: c2
            ++ (MarkApplied, t3) :: c3 /\
    t1 < t0 + validFor /\ t2 < t0 + validFor /\ t3 < t0 + validFor) /\
  organization (run_moves cs m) = org /\ source (run_moves cs m) = src /\
  target (run_moves cs m) = tgt /\ src <> tgt.
Proof.
  intros Hr Hs. unfold request in Hr. handler Hr. bool_prop.
  destruct (merge_moves_frame cs (mk org src tgt MergeState.Requested t0 (t0 + validFor)))
    as [s Hf]. split; [|by rewrite Hf].
  apply (merge_advanced_through MarkApplied MergeState.Verified) in Hs
    as (cs3 & t3 & c3 & -> & Hs & H3); [|done..].
  apply (merge_advanced_through MarkVerified MergeState.VerificationRequired) in Hs
    as (cs2 & t2 & c2 & -> & Hs & H2); [|done..].
  apply (merge_advanced_through RequireVerification MergeState.Requested) in Hs
    as (c0 & t1 & c1 & -> & _ & H1); [|done..].
  exists c0, t1, c1, t2, c2, t3, c3. split_and!; [|done..].
  by rewrite <-!app_assoc.
Qed.
End merge_history.

(** ** [applyMerge] against the contracts *)

Section apply_merge_laws.
Context {I D : Type} `{IdentityRepositoryLaws I, ExternalIdentityDirectoryLaws D}.

Abbreviation keys refs := (ExternalIdentityRef.key <$> refs).
Implicit Types w : merge_world I D.

Lemma moveAssociations_ok src tgt owned moved d mv d' :
  moveAssociations src tgt owned moved d = (Ok mv, d') ->
  mv = moved ++ owned /\
  forall k, ed_owner d' k = if decide (k ∈ keys owned) then Some tgt else ed_owner d k.
Proof.
  revert moved d. induction owned as [|r owned IH]; intros moved d Hm; simpl in Hm.
  - injection Hm as <- <-. split; [by rewrite app_nil_r|]. done.
  - apply prog_bind_ok in Hm as ([] & d1 & Hr & [-> Ho]%IH).
    apply ed_reassign_ok in Hr as [_ Hr]. split; [by rewrite <-app_assoc|].
    intros k. rewrite Ho, Hr. rewrite fmap_cons.
    repeat case_decide; set_solver.
Qed.

Lemma moveAssociations_partial src tgt owned moved d k :
  let d' := (moveAssociations src tgt owned moved d).2 in
  ed_owner d' k = ed_owner d k \/ (ed_owner d k = Some src /\ ed_owner d' k = Some tgt).
Proof.
  revert moved d. induction owned as [|r owned IH]; intros moved d; simpl; [by left|].
  unfold mbind, prog_bind. destruct (ed_reassign r src tgt d) as [[[]|e|] d1] eqn:Hr.
  - destruct (ed_reassign_ok _ _ _ _ _ Hr) as [Hown Hd1].
    destruct (IH (moved ++ [r]) d1) as [E|[E1 E2]]; rewrite Hd1 in *;
      case_decide; subst; simplify_eq; auto.
  - left. pose proof (ed_reassign_not_ok d r src tgt) as Hn. rewrite Hr in Hn. simpl in Hn |- *. by rewrite Hn.
  - left. pose proof (ed_reassign_not_ok d r src tgt) as Hn. rewrite Hr in Hn. simpl in Hn |- *. by rewrite Hn.
Qed.

(** The source as it is left behind. *)
Definition retired (i : Identity.t) : Identity.t :=
  Identity.mk (Identity.id i) (Identity.kind i) Merged (Identity.createdAt i).

(** When the request is one [applyMerge] accepts. *)
Definition mergeable (now : Instant) w : Prop :=
  let m := merge w in
  IdentityMerge.state m = MergeState.Verified /\ now < IdentityMerge.expiresAt m /\
  exists s t,
    ir_view (identities w) (IdentityMerge.organization m) (IdentityMerge.source m) = Some s /\
    ir_view (identities w) (IdentityMerge.organization m) (IdentityMerge.target m) = Some t /\
    Identity.terminal (Identity.status s) = false /\ Identity.terminal (Identity.status t) = false.

Lemma isTerminalIdentityStatus_terminal s : isTerminalIdentityStatus s = Identity.terminal s.
Proof. by destruct s. Qed.

(** What an applied merge does, over any repository and directory that
    keep their contracts. The request was verified, in time, and both parties
    are live identities of its own organization. Afterwards every association
    of the source belongs to the target and no other association has moved;
    the source is retired as [Merged] and no other identity of any tenant has
    changed; the record lists exactly the associations the source had. *)
Theorem applied_merge_effect now w rec w' :
  ed_wf (directory w) -> applyMerge now w = (Ok rec, w') ->
  mergeable now w /\
  (forall k, ed_owner (directory w') k =
     if decide (ed_owner (directory w) k = Some (IdentityMerge.source (merge w)))
     then Some (IdentityMerge.target (merge w)) else ed_owner (directory w) k) /\
  (forall org id, ir_view (identities w') org id =
     if decide (org = IdentityMerge.organization (merge w) /\ id = IdentityMerge.source (merge w))
     then retired <$> ir_view (identities w) org id else ir_view (identities w) org id) /\
  (forall k, k ∈ keys (MergeRecord.movedAssociations rec) <->
     ed_owner (directory w) k = Some (IdentityMerge.source (merge w))) /\
  merge w' = IdentityMerge.set_state (merge w) MergeState.Applied.
Proof.
  intros Hwf Ha. unfold applyMerge in Ha.
  destruct (bool_decide (_ = MergeState.Verified)) eqn:Hst; [simpl in Ha|done].
  destruct (IdentityMerge.isExpiredAt (merge w) now) eqn:Hexp; [done|].
  destruct (ir_findById _ _ (IdentityMerge.source _)) as [sl| |] eqn:Hs; [|done..].
  destruct (ir_findById _ _ (IdentityMerge.target _)) as [tl| |] eqn:Ht; [|done..].
  apply ir_findById_view in Hs, Ht. destruct sl as [s|], tl as [t|]; [|done..].
  destruct (isTerminalIdentityStatus _ || _) eqn:Hterm; [done|].
  apply orb_false_iff in Hterm as [Hts Htt]. rewrite !isTerminalIdentityStatus_terminal in *.
  destruct (ed_externalIdentitiesOf _ _) as [owned| |] eqn:Howned; [|done..].
  apply ed_externalIdentitiesOf_owner in Howned as [_ Howned]; [|done].
  destruct (moveAssociations _ _ _ _ _) as [[moved| |] d] eqn:Hmove; [|done..].
  apply moveAssociations_ok in Hmove as [-> Howner].
  destruct (ir_changeStatus _ _ _ _) as [[[]| |] i] eqn:Hchange; [|done..].
  apply ir_changeStatus_view in Hchange as (s' & s'' & Hs' & [_ Hc]%Identity.changeStatus_ok & Hview).
  destruct (IdentityMerge.markApplied now (merge w)) as [[[]| |] m'] eqn:Hmark; [|done..].
  bool_prop. rewrite <-Hs in Hs'. injection Hs' as <-.
  assert (m' = IdentityMerge.set_state (merge w) MergeState.Applied) as ->.
  { unfold IdentityMerge.markApplied, IdentityMerge.transitionTo in Hmark.
    rewrite Hst, Hexp in Hmark. simpl in Hmark. by injection Hmark as <-. }
  simpl in Ha. destruct (_ =? _)%nat; [|done]. injection Ha as <- <-. simpl. split_and!.
  - unfold IdentityMerge.isExpiredAt in Hexp. bool_prop. split_and!; [done|done|].
    exists s, t. auto.
  - intros k. rewrite Howner. by repeat case_decide; try rewrite Howned in *.
  - intros org id. rewrite Hview. case_decide as Hd; [|done].
    destruct Hd as [-> ->]. rewrite <-Hs. simpl. by subst.
  - done.
  - done.
Qed.

(** A merge that fails half-way is safe, whatever the stores do. In
    every outcome of [applyMerge], an association either stayed where it was
    or moved from the source to the target of the request, and an identity
    either is unchanged or is the source, retired as [Merged]. The target
    gains no status, and no other tenant is touched. *)
Theorem partial_merge_is_safe now w :
  let w' := (applyMerge now w).2 in
  (forall k, ed_owner (directory w') k = ed_owner (directory w) k \/
     (ed_owner (directory w) k = Some (IdentityMerge.source (merge w)) /\
      ed_owner (directory w') k = Some (IdentityMerge.target (merge w)))) /\
  (forall org id, ir_view (identities w') org id = ir_view (identities w) org id \/
     (org = IdentityMerge.organization (merge w) /\ id = IdentityMerge.source (merge w) /\
      ir_view (identities w') org id = retired <$> ir_view (identities w) org id)).
Proof.
  unfold applyMerge. set (m := merge w).
  destruct (negb _); [simpl; by auto|]. destruct (IdentityMerge.isExpiredAt m now); [simpl; by auto|].
  destruct (ir_findById _ _ _) as [sl| |]; [|simpl; by auto..].
  destruct (ir_findById _ _ _) as [tl| |]; [|simpl; by auto..].
  destruct sl as [s|], tl as [t|]; [|simpl; by auto..].
  destruct (_ || _); [simpl; by auto|].
  destruct (ed_externalIdentitiesOf _ _) as [owned| |]; [|simpl; by auto..].
  pose proof (moveAssociations_partial (IdentityMerge.source m) (IdentityMerge.target m) owned []
                (directory w)) as Hmove.
  destruct (moveAssociations _ _ _ _ _) as [[moved| |] d]; simpl in Hmove; [|simpl; by auto..].
  pose proof (ir_changeStatus_not_ok (identities w) (IdentityMerge.organization m)
                (IdentityMerge.source m) Merged) as Hno.
  destruct (ir_changeStatus _ _ _ _) as [[[]| |] i] eqn:Hchange; simpl in Hno |- *;
    [|split; [by auto|]; intros org id; left; by rewrite Hno..].
  apply ir_changeStatus_view in Hchange as (s' & s'' & Hs' & [_ Hc]%Identity.changeStatus_ok & Hview).
  assert (Hids : forall org id, ir_view i org id = ir_view (identities w) org id \/
     (org = IdentityMerge.organization m /\ id = IdentityMerge.source m /\
      ir_view i org id = retired <$> ir_view (identities w) org id)).
  { intros org id. rewrite Hview. case_decide as Hd; [|by left].
    destruct Hd as [-> ->]. right. rewrite Hs'. simpl. by subst. }
  destruct (IdentityMerge.markApplied now m) as [[[]| |] m']; simpl; auto.
Qed.
End apply_merge_laws.

(** ** [applyMerge] on the in-memory stores *)

Section apply_merge_in_memory.
Abbreviation key := ExternalIdentityRef.key.
Abbreviation owner := InMemoryExternalIdentityDirectory.owner.
Abbreviation keyed := InMemoryExternalIdentityDirectory.keyed.
Abbreviation world_in_memory :=
  (merge_world InMemoryIdentityRepository.t InMemoryExternalIdentityDirectory.t).
Implicit Types w : world_in_memory.

Lemma moveAssociations_succeeds src tgt owned moved (d : InMemoryExternalIdentityDirectory.t) :
  NoDup (key <$> owned) -> (forall k, k ∈ (key <$> owned) -> owner d k = Some src) ->
  is_ok (moveAssociations src tgt owned moved d).1 = true.
Proof.
  revert moved d. induction owned as [|r owned IH]; intros moved d Hnd Hown; [done|].
  rewrite fmap_cons in *. apply NoDup_cons in Hnd as [Hr Hnd]. simpl.
  unfold mbind, prog_bind.
  destruct (InMemoryExternalIdentityDirectory.reassign_succeeds r src tgt d) as (ref & Hm & ->); [by apply Hown; set_solver|].
  apply IH; [done|]. intros k Hk. rewrite (InMemoryExternalIdentityDirectory.owner_insert d (key r) (ref, tgt)).
  rewrite decide_False by congruence. apply Hown. set_solver.
Qed.

(** Closes a branch of [applyMerge] that refuses. *)
Ltac refused := simpl; split_and!; [done|split; [done|naive_solver congruence]|done].

(** On the in-memory stores a merge is all or nothing. [applyMerge]
    succeeds exactly when the request is verified, unexpired and names two
    live identities of its organization; otherwise it fails with an error
    and leaves every identity and association as it was. No invariant check
    of the code ever aborts the process. *)
Theorem merge_all_or_nothing now w :
  keyed (directory w) ->
  (applyMerge now w).1 <> Aborted /\
  (is_ok (applyMerge now w).1 = true <-> mergeable now w) /\
  (is_ok (applyMerge now w).1 = false ->
     identities (applyMerge now w).2 = identities w /\ directory (applyMerge now w).2 = directory w).
Proof.
  intros Hk. unfold mergeable, applyMerge. set (m := merge w).
  cbn [ir_findById InMemoryIdentityRepository.repository ir_view InMemoryIdentityRepository.laws].
  rewrite !InMemoryIdentityRepository.findById_view.
  case_bool_decide as Hst; [|refused].
  destruct (IdentityMerge.isExpiredAt m now) eqn:Hexp; unfold IdentityMerge.isExpiredAt in Hexp; bool_prop.
  { simpl. split_and!; [done|split; [done|lia]|done]. }
  destruct (InMemoryIdentityRepository.view _ _ (IdentityMerge.source m)) as [s|] eqn:Hs;
    [|refused].
  destruct (InMemoryIdentityRepository.view _ _ (IdentityMerge.target m)) as [t|] eqn:Ht;
    [|refused].
  rewrite !isTerminalIdentityStatus_terminal.
  destruct (Identity.terminal (Identity.status s)) eqn:Hts; [refused|].
  destruct (Identity.terminal (Identity.status t)) eqn:Htt; [refused|].
  destruct (ed_externalIdentitiesOf _ _) as [owned| |] eqn:Howned; [|done..].
  apply ed_externalIdentitiesOf_owner in Howned as [Hnd Howned]; [|done].
  pose proof (moveAssociations_succeeds (IdentityMerge.source m) (IdentityMerge.target m) owned []
    (directory w) Hnd ltac:(intros k; apply Howned)) as Hmove.
  destruct (moveAssociations _ _ _ _ _) as [[moved| |] d] eqn:Hmv; [|done..].
  apply moveAssociations_ok in Hmv as [-> _].
  cbn [orb ir_changeStatus InMemoryIdentityRepository.repository].
  rewrite (InMemoryIdentityRepository.changeStatus_succeeds _ _ _ _ s) by done.
  rewrite IdentityMerge.markApplied_succeeds; [|done|by apply Z.leb_gt].
  simpl. rewrite Nat.eqb_refl. simpl. split_and!; [done| |done]. split; [intros _|done].
  split_and!; [done|done|]. by exists s, t.
Qed.
End apply_merge_in_memory.

Section merge_witnesses.
Definition sample_merge (s : MergeState.t) : IdentityMerge.t :=
  IdentityMerge.mk (mkId "acme") (mkId "alice") (mkId "bob") s 10 70.

Definition sample_identities : InMemoryIdentityRepository.t :=
  {[ mkId "alice" := InMemoryIdentityRepository.mkOwned (mkId "acme")
                       (Identity.mk (mkId "alice") Human Active 1);
     mkId "bob" := InMemoryIdentityRepository.mkOwned (mkId "acme")
                     (Identity.mk (mkId "bob") Human Active 2) ]}.

Definition sample_world := mkWorld (sample_merge MergeState.Verified) sample_identities sample_directory.

Definition sample_record : MergeRecord.t :=
  MergeRecord.mk (mkId "acme") (mkId "alice") (mkId "bob") 20 [sample_external2; sample_external].

Lemma sample_directory_keyed : InMemoryExternalIdentityDirectory.keyed sample_directory.
Proof.
  unfold sample_directory. simpl.
  apply (run_directory_op_keyed (DAttach _)), (run_directory_op_keyed (DAttach _)).
  apply InMemoryExternalIdentityDirectory.keyed_empty.
Qed.

Lemma applied_only_through_verified_witness :
  IdentityMerge.source (IdentityMerge.run_moves
    [(IdentityMerge.RequireVerification, 11); (IdentityMerge.MarkVerified, 12);
     (IdentityMerge.MarkApplied, 13)] (sample_merge MergeState.Requested)) = mkId "alice".
Proof.
  apply (applied_only_through_verified (mkId "acme") (mkId "alice") (mkId "bob") 10 60
           (sample_merge MergeState.Requested)).
  - vm_compute. reflexivity.
  - vm_compute. reflexivity.
Defined.

Lemma applied_merge_effect_witness :
  InMemoryExternalIdentityDirectory.owner (directory (applyMerge 20 sample_world).2)
    (ExternalIdentityRef.key sample_external)
  = Some (mkId "bob").
Proof.
  destruct (applied_merge_effect 20 sample_world sample_record (applyMerge 20 sample_world).2)
    as (_ & Howner & _).
  - apply sample_directory_keyed.
  - apply run_as. vm_compute. reflexivity.
  - rewrite Howner. vm_compute. reflexivity.
Defined.

Lemma merge_all_or_nothing_witness : is_ok (applyMerge 80 sample_world).1 = false.
Proof.
  destruct (is_ok (applyMerge 80 sample_world).1) eqn:E; [|done].
  apply (merge_all_or_nothing 80 sample_world) in E as (_ & Hlt & _).
  - vm_compute in Hlt. discriminate.
  - apply sample_directory_keyed.
Defined.
End merge_witnesses.
