(* ===== verification/Organizations.v ===== *)
(** * openproof.organization: tenants, memberships and roles

    Models [src/src/organization/organization.cpp], [membership.cpp] and
    [repository.cpp]: the tenant aggregate, the membership aggregate with its
    role set, and the two repositories with their contracts. *)
From S2P Require Import Prelude Foundation IdentityCore.

(** ** Organizations *)

Module OrganizationStatus.
Inductive t := Active | Suspended | Archived.

#[global] Instance eq_dec : EqDecision t.
Proof. solve_decision. Defined.
End OrganizationStatus.

Definition organizationStatusName (status : OrganizationStatus.t) : string :=
  match status with
  | OrganizationStatus.Active => "active"
  | OrganizationStatus.Suspended => "suspended"
  | OrganizationStatus.Archived => "archived"
  end.

Definition permitsUse (status : OrganizationStatus.t) : bool :=
  match status with
  | OrganizationStatus.Active => true
  | OrganizationStatus.Suspended | OrganizationStatus.Archived => false
  end.

Module Organization.
Record t := mk {
  id : OrganizationId;
  displayName : string;
  status : OrganizationStatus.t;
  createdAt : Instant;
}.

Definition create (id : OrganizationId) (displayName : string) (createdAt : Instant) : Result t :=
  if id_empty id then fail InvalidArgument "An organization must have an identifier."
  else if bool_decide (displayName = "") then
    fail InvalidArgument "An organization must have a display name."
  else Ok (mk id displayName OrganizationStatus.Active createdAt).

Definition isUsable (o : t) : bool := permitsUse (status o).

Definition changeStatus (s : OrganizationStatus.t) : prog t Error unit := fun o =>
  if bool_decide (status o = OrganizationStatus.Archived) then
    (failDetail FailedPrecondition "This organization cannot be modified."
       "An archived organization cannot change status. Memberships and audit records still reference its key, so reviving it would silently reactivate them.", o)
  else (ok, mk (id o) (displayName o) s (createdAt o)).

Definition rename (newName : string) : prog t Error unit := fun o =>
  if bool_decide (newName = "") then
    (fail InvalidArgument "An organization must have a display name.", o)
  else if bool_decide (status o = OrganizationStatus.Archived) then
    (fail FailedPrecondition "This organization cannot be modified.", o)
  else (ok, mk (id o) newName (status o) (createdAt o)).

(** An archived organization is frozen. *)
Lemma archived_frozen o :
  status o = OrganizationStatus.Archived ->
  (forall s, (changeStatus s o).2 = o) /\ (forall n, (rename n o).2 = o).
Proof.
  intros Ho. unfold changeStatus, rename. rewrite Ho. split; [done|]. intros n.
  by case_bool_decide.
Qed.
End Organization.

(** ** Memberships *)

Inductive RoleTag := .
Abbreviation Role := (StrongId RoleTag).

Module MembershipState.
Inductive t := Invited | Active | Suspended | Removed.

#[global] Instance eq_dec : EqDecision t.
Proof. solve_decision. Defined.
End MembershipState.

Definition membershipStateName (state : MembershipState.t) : string :=
  match state with
  | MembershipState.Invited => "invited"
  | MembershipState.Active => "active"
  | MembershipState.Suspended => "suspended"
  | MembershipState.Removed => "removed"
  end.

Definition permitsAccess (state : MembershipState.t) : bool :=
  match state with
  | MembershipState.Active => true
  | MembershipState.Invited | MembershipState.Suspended | MembershipState.Removed => false
  end.

Module Membership.
Record t := mk {
  organization : OrganizationId;
  identity : IdentityId;
  state : MembershipState.t;
  invitedAt : Instant;
  roles : list Role;
}.

Definition set_state (m : t) (s : MembershipState.t) : t :=
  mk (organization m) (identity m) s (invitedAt m) (roles m).
Definition set_roles (m : t) (rs : list Role) : t :=
  mk (organization m) (identity m) (state m) (invitedAt m) rs.

Definition invite (organization : OrganizationId) (identity : IdentityId) (invitedAt : Instant)
    : Result t :=
  if id_empty organization then fail InvalidArgument "A membership must name an organization."
  else if id_empty identity then fail InvalidArgument "A membership must name an identity."
  else Ok (mk organization identity MembershipState.Invited invitedAt []).

Definition hasRole (m : t) (role : Role) : bool :=
  if negb (permitsAccess (state m)) then false else bool_decide (role ∈ roles m).

Definition accept : prog t Error unit := fun m =>
  if negb (bool_decide (state m = MembershipState.Invited)) then
    (fail FailedPrecondition "This invitation is no longer open.", m)
  else (ok, set_state m MembershipState.Active).

Definition suspend : prog t Error unit := fun m =>
  if negb (bool_decide (state m = MembershipState.Active)) then
    (fail FailedPrecondition "Only an active membership can be suspended.", m)
  else (ok, set_state m MembershipState.Suspended).

Definition reinstate : prog t Error unit := fun m =>
  if negb (bool_decide (state m = MembershipState.Suspended)) then
    (fail FailedPrecondition "Only a suspended membership can be reinstated.", m)
  else (ok, set_state m MembershipState.Active).

Definition remove : prog t Error unit := fun m =>
  if bool_decide (state m = MembershipState.Removed) then
    (fail FailedPrecondition "This membership has already been removed.", m)
  else
    let m := set_roles (set_state m MembershipState.Removed) [] in
    (requireInvariant (bool_decide (roles m = [])), m).

Definition grantRole (role : Role) : prog t Error unit := fun m =>
  if id_empty role then (fail InvalidArgument "A role must have a name.", m)
  else if bool_decide (state m = MembershipState.Removed) then
    (failDetail FailedPrecondition "This membership has been removed."
       "Refused to grant a role to a removed membership; the authority would be attached to a relationship that no longer exists.", m)
  else if bool_decide (role ∈ roles m) then (ok, m)
  else (ok, set_roles m (sort_keys (roles m ++ [role]))).

Definition revokeRole (role : Role) : prog t Error unit := fun m =>
  if negb (bool_decide (role ∈ roles m)) then
    (failDetail NotFound "That role is not held by this member."
       "Revocation reported honestly rather than as idempotent success, so a caller cannot believe it removed authority that was never there.", m)
  else (ok, set_roles m (erase_first role (roles m))).

Inductive op := Accept | Suspend | Reinstate | Remove | GrantRole (role : Role) | RevokeRole (role : Role).

Definition run_op (o : op) : prog t Error unit :=
  match o with
  | Accept => accept
  | Suspend => suspend
  | Reinstate => reinstate
  | Remove => remove
  | GrantRole role => grantRole role
  | RevokeRole role => revokeRole role
  end.

Definition run_ops (os : list op) (m : t) : t := foldl (fun m o => (run_op o m).2) m os.
End Membership.

(** *** The specification: a state and a set of roles *)

Record membership_spec := mkSpec { spec_state : MembershipState.t; spec_roles : gset Role }.

(** The specified step; [None] where the operation is refused. *)
Definition spec_step (o : Membership.op) (a : membership_spec) : option membership_spec :=
  match o, spec_state a with
  | Membership.Accept, MembershipState.Invited => Some (mkSpec MembershipState.Active (spec_roles a))
  | Membership.Suspend, MembershipState.Active => Some (mkSpec MembershipState.Suspended (spec_roles a))
  | Membership.Reinstate, MembershipState.Suspended => Some (mkSpec MembershipState.Active (spec_roles a))
  | Membership.Remove, MembershipState.Removed => None
  | Membership.Remove, _ => Some (mkSpec MembershipState.Removed ∅)
  | Membership.GrantRole _, MembershipState.Removed => None
  | Membership.GrantRole role, s =>
      if id_empty role then None else Some (mkSpec s ({[role]} ∪ spec_roles a))
  | Membership.RevokeRole role, s =>
      if decide (role ∈ spec_roles a) then Some (mkSpec s (spec_roles a ∖ {[role]})) else None
  | _, _ => None
  end.

(** A membership implements a specified one: the role list is the sorted set. *)
Definition implements (m : Membership.t) (a : membership_spec) : Prop :=
  Membership.state m = spec_state a /\ Membership.roles m = sorted_elements (spec_roles a) /\
  (spec_state a = MembershipState.Removed -> spec_roles a = ∅).

Section membership_refinement.
Import Membership.

Lemma elem_of_roles m a r : implements m a -> (r ∈ roles m <-> r ∈ spec_roles a).
Proof. intros (_ & -> & _). apply elem_of_sorted_elements. Qed.

Lemma grantRole_implements role m a :
  implements m a ->
  match spec_step (GrantRole role) a with
  | Some a' => (grantRole role m).1 = ok /\ implements (grantRole role m).2 a'
  | None => is_ok (grantRole role m).1 = false /\ (grantRole role m).1 <> Aborted /\ (grantRole role m).2 = m
  end.
Proof.
  intros Hi. pose proof (elem_of_roles m a role Hi) as Hr. destruct Hi as (Hs & Hl & Hrem).
  unfold grantRole. simpl. rewrite Hs.
  destruct (id_empty role); [by destruct (spec_state a)|].
  case_bool_decide as Hst; [by rewrite Hst|].
  case_bool_decide as Hin.
  - assert ({[role]} ∪ spec_roles a = spec_roles a) as E by set_solver.
    unfold implements. destruct (spec_state a) eqn:Hsa; [..|done]; rewrite E; simpl; by rewrite Hs.
  - assert (implements (set_roles m (sort_keys (roles m ++ [role])))
              (mkSpec (spec_state a) ({[role]} ∪ spec_roles a))).
    { unfold implements. simpl. split_and!; [done| |done].
      rewrite Hl, sort_insert; [done|]. by rewrite <-Hr. }
    by destruct (spec_state a).
Qed.

Lemma revokeRole_implements role m a :
  implements m a ->
  match spec_step (RevokeRole role) a with
  | Some a' => (revokeRole role m).1 = ok /\ implements (revokeRole role m).2 a'
  | None => is_ok (revokeRole role m).1 = false /\ (revokeRole role m).1 <> Aborted /\ (revokeRole role m).2 = m
  end.
Proof.
  intros Hi. pose proof (elem_of_roles m a role Hi) as Hr. destruct Hi as (Hs & Hl & Hrem).
  unfold revokeRole.
  assert (spec_step (RevokeRole role) a =
    if decide (role ∈ spec_roles a) then Some (mkSpec (spec_state a) (spec_roles a ∖ {[role]})) else None)
    as -> by (simpl; by destruct (spec_state a)).
  case_decide as Hin; case_bool_decide; simpl; [|tauto|tauto|done].
  split; [done|]. unfold implements. simpl. split_and!; [done| |].
  - by rewrite Hl, erase_first_sorted.
  - intros E. rewrite Hrem by done. set_solver.
Qed.

Lemma run_op_implements o m a :
  implements m a ->
  match spec_step o a with
  | Some a' => (run_op o m).1 = ok /\ implements (run_op o m).2 a'
  | None => is_ok (run_op o m).1 = false /\ (run_op o m).1 <> Aborted /\ (run_op o m).2 = m
  end.
Proof.
  destruct o as [| | | |role|role]; cbn [run_op];
    [|..|apply grantRole_implements|apply revokeRole_implements];
    intros (Hs & Hl & Hrem); unfold accept, suspend, reinstate, remove; simpl; rewrite Hs;
    destruct (spec_state a); simpl; unfold implements; simpl; done.
Qed.

Lemma invite_implements org id t0 m :
  invite org id t0 = Ok m -> implements m (mkSpec MembershipState.Invited ∅).
Proof. unfold invite. intros Hi. by handler Hi. Qed.

(** The specified run of a sequence: refused operations change nothing. *)
Definition spec_run (os : list op) (a : membership_spec) : membership_spec :=
  foldl (fun a o => default a (spec_step o a)) a os.

Lemma run_ops_implements os m a : implements m a -> implements (run_ops os m) (spec_run os a).
Proof.
  revert m a. induction os as [|o os IH]; intros m a Hi; [done|]. simpl. apply IH.
  pose proof (run_op_implements o m a Hi) as Hstep.
  destruct (spec_step o a) as [a'|]; simpl; [by destruct Hstep|]. by destruct Hstep as (_ & _ & ->).
Qed.

(** A membership refines a state with a set of roles. Along any sequence
    of operations on an invited membership, each operation succeeds exactly
    when the specification allows it and otherwise changes nothing; the role
    list stays the sorted, duplicate-free list of the specified set; a
    removed membership has no role; and [hasRole] grants exactly the roles of
    the set while the membership is active, and none in any other state. *)
Theorem membership_refines_role_set org id t0 m os o :
  invite org id t0 = Ok m ->
  let m' := run_ops os m in
  let a := spec_run os (mkSpec MembershipState.Invited ∅) in
  (is_ok (run_op o m').1 = true <-> is_Some (spec_step o a)) /\
  (run_op o m').1 <> Aborted /\
  (is_ok (run_op o m').1 = false -> (run_op o m').2 = m') /\
  NoDup (roles m') /\ StronglySorted key_le (roles m') /\
  (state m' = MembershipState.Removed -> roles m' = []) /\
  forall r, hasRole m' r = true <-> spec_state a = MembershipState.Active /\ r ∈ spec_roles a.
Proof.
  intros Hinv m' a.
  assert (Hi : implements m' a) by (by apply run_ops_implements, (invite_implements org id t0)).
  pose proof (run_op_implements o m' a Hi) as Hstep.
  pose proof (fun r => elem_of_roles m' a r Hi) as Hr.
  destruct Hi as (Hs & Hl & Hrem). split_and!.
  - destruct (spec_step o a); [destruct Hstep as [-> _]|destruct Hstep as [-> _]].
    + simpl. split; [by eexists|done].
    + split; [done|]. by intros [].
  - destruct (spec_step o a); [by destruct Hstep as [-> _]|by destruct Hstep as (_ & ? & _)].
  - destruct (spec_step o a); [by destruct Hstep as [-> _]|by destruct Hstep as (_ & _ & ?)].
  - rewrite Hl. apply NoDup_sorted_elements.
  - rewrite Hl. apply sort_keys_sorted.
  - intros E. rewrite Hl, Hrem by congruence. done.
  - intros r. unfold hasRole. rewrite Hs, <-Hr.
    destruct (spec_state a); simpl; rewrite ?bool_decide_eq_true; naive_solver congruence.
Qed.
End membership_refinement.

(** ** Repositories *)

Class OrganizationRepository (T : Type) := {
  or_add : Organization.t -> prog T Error unit;
  or_findById : T -> OrganizationId -> Result (option Organization.t);
  or_changeStatus : OrganizationId -> OrganizationStatus.t -> prog T Error unit;
  or_count : T -> Result nat;
}.

Class OrganizationRepositoryLaws (T : Type) `{OrganizationRepository T} := {
  or_view : T -> OrganizationId -> option Organization.t;
  or_findById_view : forall s id found, or_findById s id = Ok found -> found = or_view s id;
}.

Class MembershipRepository (T : Type) := {
  mr_add : Membership.t -> prog T Error unit;
  mr_find : T -> OrganizationId -> IdentityId -> Result (option Membership.t);
  mr_save : Membership.t -> prog T Error unit;
  mr_membersOf : T -> OrganizationId -> Result (list IdentityId);
  mr_organizationsOf : T -> IdentityId -> Result (list OrganizationId);
  mr_countIn : T -> OrganizationId -> Result nat;
}.

Class MembershipRepositoryLaws (T : Type) `{MembershipRepository T} := {
  mr_view : T -> OrganizationId -> IdentityId -> option Membership.t;
  mr_find_view : forall s org id found, mr_find s org id = Ok found -> found = mr_view s org id;
  (** Each membership is stored under the pair it is about. *)
  mr_wf : T -> Prop;
  mr_find_keyed : forall s org id m, mr_wf s -> mr_find s org id = Ok (Some m) ->
    Membership.organization m = org /\ Membership.identity m = id;
  mr_add_wf : forall m, preserves mr_wf (mr_add m);
  mr_save_wf : forall m, preserves mr_wf (mr_save m);
  mr_add_ok : forall s m s', mr_add m s = (ok, s') ->
    mr_view s (Membership.organization m) (Membership.identity m) = None /\
    forall org id, mr_view s' org id =
      if decide (org = Membership.organization m /\ id = Membership.identity m) then Some m else mr_view s org id;
  mr_save_ok : forall s m s', mr_save m s = (ok, s') ->
    forall org id, mr_view s' org id =
      if decide (org = Membership.organization m /\ id = Membership.identity m) then Some m else mr_view s org id;
  mr_add_not_ok : forall s m, is_ok (mr_add m s).1 = false -> mr_view (mr_add m s).2 = mr_view s;
  mr_save_not_ok : forall s m, is_ok (mr_save m s).1 = false -> mr_view (mr_save m s).2 = mr_view s;
}.

Module InMemoryOrganizationRepository.
Abbreviation t := (gmap OrganizationId Organization.t).

Definition add (organization : Organization.t) : prog t Error unit := fun m_entries =>
  let key := Organization.id organization in
  if bool_decide (is_Some (m_entries !! key)) then
    (fail AlreadyExists "That organization already exists.", m_entries)
  else (ok, <[key := organization]> m_entries).

Definition findById (m_entries : t) (id : OrganizationId) : Result (option Organization.t) :=
  Ok (m_entries !! id).

Definition changeStatus (id : OrganizationId) (status : OrganizationStatus.t) : prog t Error unit :=
  fun m_entries =>
  match m_entries !! id with
  | None => (failCode NotFound, m_entries)
  | Some position =>
      let '(r, organization) := Organization.changeStatus status position in
      (r, <[id := organization]> m_entries)
  end.

Definition count (m_entries : t) : Result nat := Ok (base.size m_entries).

#[global] Instance repository : OrganizationRepository t := {
  or_add := add; or_findById := findById; or_changeStatus := changeStatus; or_count := count;
}.

#[global] Program Instance laws : OrganizationRepositoryLaws t := {| or_view m id := m !! id |}.
Next Obligation. intros m id found [= <-]. done. Qed.
End InMemoryOrganizationRepository.

Module InMemoryMembershipRepository.
Abbreviation t := (gmap (OrganizationId * IdentityId) Membership.t).

Definition key (m : Membership.t) : OrganizationId * IdentityId :=
  (Membership.organization m, Membership.identity m).

Definition add (membership : Membership.t) : prog t Error unit := fun m_entries =>
  if bool_decide (is_Some (m_entries !! key membership)) then
    (failDetail AlreadyExists "That identity is already a member of this organization."
       "A second membership for the same pair would make the member's effective role set ambiguous.", m_entries)
  else (ok, <[key membership := membership]> m_entries).

Definition find (m_entries : t) (organization : OrganizationId) (identity : IdentityId)
    : Result (option Membership.t) := Ok (m_entries !! (organization, identity)).

Definition save (membership : Membership.t) : prog t Error unit := fun m_entries =>
  match m_entries !! key membership with
  | None => (fail NotFound "That membership was not found.", m_entries)
  | Some _ => (ok, <[key membership := membership]> m_entries)
  end.

Definition membersOf (m_entries : t) (organization : OrganizationId) : Result (list IdentityId) :=
  Ok (snd <$> (filter (fun p => p.1.1 = organization) (map_iter m_entries)).*1).

Definition organizationsOf (m_entries : t) (identity : IdentityId) : Result (list OrganizationId) :=
  Ok (fst <$> (filter (fun p => p.1.2 = identity) (map_iter m_entries)).*1).

Definition countIn (m_entries : t) (organization : OrganizationId) : Result nat :=
  let total := length (filter (fun p => p.1.1 = organization) (map_iter m_entries)) in
  _ ← requireInvariant (total <=? base.size m_entries)%nat;
  Ok total.

Definition size (m_entries : t) : nat := base.size m_entries.

#[global] Instance repository : MembershipRepository t := {
  mr_add := add; mr_find := find; mr_save := save; mr_membersOf := membersOf;
  mr_organizationsOf := organizationsOf; mr_countIn := countIn;
}.

(** Each membership is stored under the pair it is about. *)
Definition keyed (m : t) : Prop := map_Forall (fun k v => key v = k) m.

Lemma add_keyed v : preserves keyed (add v).
Proof. intros m Hm. unfold add. case_bool_decide; [done|]. by apply map_Forall_insert_2. Qed.

Lemma save_keyed v : preserves keyed (save v).
Proof. intros m Hm. unfold save. case_match; [|done]. by apply map_Forall_insert_2. Qed.

Lemma lookup_pair_insert (s : t) m org id :
  <[key m := m]> s !! (org, id) =
    if decide (org = Membership.organization m /\ id = Membership.identity m) then Some m else s !! (org, id).
Proof.
  rewrite lookup_insert. unfold key. case_decide as E; case_decide as E'; try done; destruct E'; naive_solver.
Qed.

#[global] Program Instance laws : MembershipRepositoryLaws t :=
  {| mr_view m org id := m !! (org, id); mr_wf := keyed |}.
Next Obligation. intros m org id found [= <-]. done. Qed.
Next Obligation. intros s org id m Hs [= Hm]. apply Hs in Hm. by injection Hm. Qed.
Next Obligation. exact add_keyed. Qed.
Next Obligation. exact save_keyed. Qed.
Next Obligation.
  intros s m s'. cbn. unfold add. case_bool_decide as Hk; [done|]. intros [= <-].
  apply eq_None_not_Some in Hk. split; [exact Hk|]. intros org id. apply lookup_pair_insert.
Qed.
Next Obligation.
  intros s m s'. cbn. unfold save. destruct (s !! key m); [|done]. intros [= <-] org id. apply lookup_pair_insert.
Qed.
Next Obligation. intros s m. cbn. unfold add. by case_bool_decide. Qed.
Next Obligation. intros s m. cbn. unfold save. by destruct (s !! key m). Qed.

(** The two directions of the relation agree. *)
Lemma members_organizations m org id :
  (exists l, membersOf m org = Ok l /\ id ∈ l) <-> (exists l, organizationsOf m id = Ok l /\ org ∈ l).
Proof.
  unfold membersOf, organizationsOf. split; intros (l & [= <-] & Hl);
    apply list_elem_of_fmap in Hl as ([org' id'] & -> & Hl);
    apply elem_of_scan_keys in Hl as (v & Hv & Hk); simpl in *; subst;
    (eexists; split; [reflexivity|]; apply list_elem_of_fmap; eexists (_, _);
     split; [done|]; apply elem_of_scan_keys; eauto).
Qed.
End InMemoryMembershipRepository.

Section organization_witnesses.
Import Membership.

Definition sample_membership : Membership.t :=
  mk (mkId "acme") (mkId "alice") MembershipState.Invited 3 [].

Lemma membership_refines_role_set_witness :
  hasRole (run_ops [Accept; GrantRole (mkId "admin"); GrantRole (mkId "auditor");
                    RevokeRole (mkId "auditor")] sample_membership) (mkId "admin") = true.
Proof.
  apply (membership_refines_role_set (mkId "acme") (mkId "alice") 3 sample_membership _ Suspend).
  - vm_compute. reflexivity.
  - vm_compute. split; [reflexivity|reflexivity].
Defined.
End organization_witnesses.
