(* ===== verification/Session.v ===== *)
(** * openproof.session:model and :repository

    Models [src/src/session/model.cpp] and [repository.cpp]: sessions with
    their two deadlines, and the in-memory repository that keeps sessions and
    an index from token digests to sessions. *)
From S2P Require Import Prelude Foundation Encoding Security Provider IdentityCore.

Inductive SessionIdTag := .
Abbreviation SessionId := (StrongId SessionIdTag).
Abbreviation TokenDigest := Sha256Digest.

Module SessionState.
Inductive t := Active | Revoked | Expired.

#[global] Instance eq_dec : EqDecision t.
Proof. solve_decision. Defined.
End SessionState.

Definition sessionStateName (state : SessionState.t) : string :=
  match state with
  | SessionState.Active => "active"
  | SessionState.Revoked => "revoked"
  | SessionState.Expired => "expired"
  end.

(** [invalidSession], [unknownSession] and [invalidToken]: three file-local
    functions with one body. *)
Definition invalidSession (detail : string) : Error :=
  Error_ofDetail AuthenticationFailed (defaultErrorMessage AuthenticationFailed) detail.

(** [value && value->size() > bound]. *)
Definition longer_than (bound : Z) (value : option string) : bool :=
  match value with Some s => bound <? Z.of_nat (String.length s) | None => false end.

Module Session.
Record t := mk {
  id : SessionId;
  identity : IdentityId;
  provider : ProviderId;
  assurance : AssuranceLevel;
  strength : AuthenticationStrength.t;
  state : SessionState.t;
  authenticatedAt : Instant;
  tokenDigest : TokenDigest;
  issuedAt : Instant;
  lastSeenAt : Instant;
  absoluteExpiresAt : Instant;
  idleTimeout : Duration;
  revokedAt : option Instant;
  userAgent : option string;
  remoteAddress : option string;
}.

Definition create (id : SessionId) (identity : IdentityId) (provider : ProviderId)
    (assurance : AssuranceLevel) (strength : AuthenticationStrength.t)
    (authenticatedAt : Instant) (tokenDigest : TokenDigest) (issuedAt : Instant)
    (absoluteLifetime idleTimeout : Duration) (userAgent remoteAddress : option string) : Result t :=
  if id_empty id || id_empty identity || id_empty provider then
    fail InvalidArgument "A session must name its id, identity and provider."
  else if (absoluteLifetime <=? 0) || (idleTimeout <=? 0) then
    fail InvalidArgument "Session lifetimes must be positive."
  else if issuedAt <? authenticatedAt then
    fail InvalidArgument "A session cannot predate its authentication."
  else if longer_than 1024 userAgent || longer_than 128 remoteAddress then
    fail InvalidArgument "Session client metadata is too large."
  else Ok (mk id identity provider assurance strength SessionState.Active authenticatedAt tokenDigest
             issuedAt issuedAt (issuedAt + absoluteLifetime) idleTimeout None userAgent remoteAddress).

Definition restore (id : SessionId) (identity : IdentityId) (provider : ProviderId)
    (assurance : AssuranceLevel) (strength : AuthenticationStrength.t) (state : SessionState.t)
    (authenticatedAt : Instant) (tokenDigest : TokenDigest) (issuedAt lastSeenAt absoluteExpiresAt : Instant)
    (idleTimeout : Duration) (revokedAt : option Instant) (userAgent remoteAddress : option string)
    : Result t :=
  if id_empty id || id_empty identity || id_empty provider
     || (issuedAt <? authenticatedAt) || (lastSeenAt <? issuedAt)
     || (absoluteExpiresAt <=? lastSeenAt) || (idleTimeout <=? 0)
     || negb (Bool.eqb (bool_decide (state = SessionState.Revoked)) (bool_decide (is_Some revokedAt)))
     || longer_than 1024 userAgent || longer_than 128 remoteAddress then
    fail InvalidArgument "The persisted session is invalid."
  else Ok (mk id identity provider assurance strength state authenticatedAt tokenDigest
             issuedAt lastSeenAt absoluteExpiresAt idleTimeout revokedAt userAgent remoteAddress).

Definition idleExpiresAt (s : t) : Instant := lastSeenAt s + idleTimeout s.

Definition isExpiredAt (s : t) (now : Instant) : bool :=
  (absoluteExpiresAt s <=? now) || (idleExpiresAt s <=? now).

Definition set (s : t) (state' : SessionState.t) (token' : TokenDigest) (seen' : Instant)
    (revoked' : option Instant) : t :=
  mk (id s) (identity s) (provider s) (assurance s) (strength s) state' (authenticatedAt s) token'
     (issuedAt s) seen' (absoluteExpiresAt s) (idleTimeout s) revoked' (userAgent s) (remoteAddress s).

Definition set_state (s : t) (x : SessionState.t) : t := set s x (tokenDigest s) (lastSeenAt s) (revokedAt s).
Definition set_lastSeenAt (s : t) (x : Instant) : t := set s (state s) (tokenDigest s) x (revokedAt s).
Definition set_tokenDigest (s : t) (x : TokenDigest) : t := set s (state s) x (lastSeenAt s) (revokedAt s).

Section session.
Context `{Platform}.

Definition use (presented : TokenDigest) (now : Instant) : prog t Error unit := fun s =>
  if negb (bool_decide (state s = SessionState.Active)) then
    (Err (invalidSession ("Session use refused; state is " +:+ sessionStateName (state s) +:+ ".")), s)
  else if isExpiredAt s now then
    (Err (invalidSession "Session use refused: deadline passed."), set_state s SessionState.Expired)
  else if negb (constantTimeEquals (tokenDigest s) presented) then
    (Err (invalidSession "Session use refused: token digest mismatch."), s)
  else (ok, set_lastSeenAt s now).

Definition rotateToken (expected replacement : TokenDigest) (now : Instant) : prog t Error unit :=
  fun s =>
  match use expected now s with
  | (Ok _, s) => (ok, set_tokenDigest s replacement)
  | r => r
  end.

Definition revoke (now : Instant) : prog t Error unit := fun s =>
  if bool_decide (state s = SessionState.Revoked) then (ok, s)
  else if bool_decide (state s = SessionState.Expired) then
    (fail FailedPrecondition "An expired session cannot be revoked.", s)
  else (ok, set s SessionState.Revoked (tokenDigest s) (lastSeenAt s) (Some now)).

Definition markExpired (s : t) : t :=
  if bool_decide (state s = SessionState.Active) then set_state s SessionState.Expired else s.

(** When a presented digest opens the session. *)
Definition usable (s : t) (presented : TokenDigest) (now : Instant) : Prop :=
  state s = SessionState.Active /\ now < absoluteExpiresAt s /\ now < lastSeenAt s + idleTimeout s /\
  presented = tokenDigest s.

Lemma isExpiredAt_false s now :
  isExpiredAt s now = false <-> now < absoluteExpiresAt s /\ now < lastSeenAt s + idleTimeout s.
Proof. unfold isExpiredAt, idleExpiresAt. rewrite orb_false_iff, !Z.leb_gt. done. Qed.

(** What every operation leaves alone. *)
Definition same_session (s s' : t) : Prop :=
  id s' = id s /\ identity s' = identity s /\ provider s' = provider s /\
  assurance s' = assurance s /\ strength s' = strength s /\
  authenticatedAt s' = authenticatedAt s /\ issuedAt s' = issuedAt s /\
  absoluteExpiresAt s' = absoluteExpiresAt s /\ idleTimeout s' = idleTimeout s /\
  (state s <> SessionState.Active -> state s' = state s).

#[global] Instance same_session_preorder : PreOrder same_session.
Proof. split; [done|]. intros x y z. unfold same_session. naive_solver congruence. Qed.

Lemma set_same_lastSeen s x : same_session s (set_lastSeenAt s x).
Proof. unfold same_session, set_lastSeenAt. simpl. done. Qed.

Lemma set_same s st tk seen rv : state s = SessionState.Active -> same_session s (set s st tk seen rv).
Proof. intros E. unfold same_session. simpl. split_and!; done. Qed.

Lemma use_same presented now s : same_session s (use presented now s).2.
Proof.
  unfold use. case_bool_decide; simpl; [|reflexivity].
  repeat case_match; simpl; try reflexivity; by apply set_same.
Qed.

Lemma revoke_same now s : same_session s (revoke now s).2.
Proof.
  unfold revoke. repeat case_bool_decide; simpl; try reflexivity. apply set_same.
  by destruct (state s).
Qed.

Context `{!PlatformLaws _}.

Lemma use_ok_iff presented now s s' :
  use presented now s = (ok, s') <-> usable s presented now /\ s' = set_lastSeenAt s now.
Proof.
  unfold use, usable. case_bool_decide as Hst; simpl; [|naive_solver].
  destruct (isExpiredAt s now) eqn:Hexp.
  { split; [done|]. intros [(_ & ? & ? & _) _].
    by rewrite (proj2 (isExpiredAt_false s now)) in Hexp. }
  apply isExpiredAt_false in Hexp. rewrite constant_time_equals_spec.
  case_bool_decide as Ht; simpl; [|naive_solver].
  split; [intros [= <-]; naive_solver|]. by intros [_ ->].
Qed.

Lemma use_fails_keeps presented now s r s' :
  use presented now s = (r, s') -> r <> ok ->
  is_ok r = false /\ r <> Aborted /\ tokenDigest s' = tokenDigest s /\
  (state s' = SessionState.Active -> s' = s).
Proof. unfold use. intros Hu Hr. handler Hu; done. Qed.
End session.
End Session.

(** ** The persistence contract *)

Class SessionRepository (T : Type) := {
  sr_add : Session.t -> prog T Error unit;
  sr_use : TokenDigest -> Instant -> prog T Error Session.t;
  sr_rotate : SessionId -> TokenDigest -> TokenDigest -> Instant -> prog T Error unit;
  sr_revoke : SessionId -> Instant -> prog T Error unit;
  sr_revokeAll : IdentityId -> Instant -> prog T Error nat;
  sr_find : T -> SessionId -> Result (option Session.t);
  sr_list : T -> IdentityId -> Result (list Session.t);
  sr_purgeExpired : Instant -> T -> nat * T;
  sr_size : T -> nat;
}.

Module InMemorySessionRepository.
Record t := mk {
  m_sessions : gmap SessionId Session.t;
  m_tokens : gmap TokenDigest SessionId;
}.

Definition empty : t := mk ∅ ∅.

Section repository.
Context `{Platform}.

Definition add (session : Session.t) : prog t Error unit := fun r =>
  if bool_decide (is_Some (m_sessions r !! Session.id session))
     || bool_decide (is_Some (m_tokens r !! Session.tokenDigest session)) then
    (fail AlreadyExists "The session could not be created.", r)
  else (ok, mk (<[Session.id session := session]> (m_sessions r))
               (<[Session.tokenDigest session := Session.id session]> (m_tokens r))).

Definition use (token : TokenDigest) (now : Instant) : prog t Error Session.t := fun r =>
  match m_tokens r !! token with
  | None => (Err (invalidSession "Session token is unknown."), r)
  | Some id =>
  match m_sessions r !! id with
  | None => (fail Internal "The session store is inconsistent.", r)
  | Some position =>
      let '(used, position) := Session.use token now position in
      let r := mk (<[id := position]> (m_sessions r)) (m_tokens r) in
      match used with
      | Ok _ => (Ok position, r)
      | Err e => (Err e, r)
      | Aborted => (Aborted, r)
      end
  end end.

Definition rotate (id : SessionId) (expected replacement : TokenDigest) (now : Instant)
    : prog t Error unit := fun r =>
  match m_sessions r !! id with
  | None => (Err (invalidSession "Session rotation refused: unknown id."), r)
  | Some position =>
      if bool_decide (is_Some (m_tokens r !! replacement)) then
        (fail AlreadyExists "The session token could not be rotated.", r)
      else
        let old := Session.tokenDigest position in
        let '(rotated, position) := Session.rotateToken expected replacement now position in
        let m_sessions' := <[id := position]> (m_sessions r) in
        match rotated with
        | Ok _ => (ok, mk m_sessions' (<[replacement := id]> (delete old (m_tokens r))))
        | Err e => (Err e, mk m_sessions' (m_tokens r))
        | Aborted => (Aborted, mk m_sessions' (m_tokens r))
        end
  end.

Definition revoke (id : SessionId) (now : Instant) : prog t Error unit := fun r =>
  match m_sessions r !! id with
  | None => (fail NotFound "That session was not found.", r)
  | Some position =>
      let '(s, position) := Session.revoke now position in
      (s, mk (<[id := position]> (m_sessions r)) (m_tokens r))
  end.

(** The loop of [revokeAll] over the entries still to visit. *)
Fixpoint revokeEach (identity : IdentityId) (now : Instant) (entries : list (SessionId * Session.t))
    (revoked : nat) : prog t Error nat := fun r =>
  match entries with
  | [] => (Ok revoked, r)
  | (id, session) :: entries =>
      if bool_decide (Session.identity session = identity)
         && bool_decide (Session.state session = SessionState.Active) then
        let '(status, session) := Session.revoke now session in
        let r := mk (<[id := session]> (m_sessions r)) (m_tokens r) in
        match status with
        | Ok _ => revokeEach identity now entries (S revoked) r
        | Err e => (Err e, r)
        | Aborted => (Aborted, r)
        end
      else revokeEach identity now entries revoked r
  end.

Definition revokeAll (identity : IdentityId) (now : Instant) : prog t Error nat := fun r =>
  revokeEach identity now (map_iter (m_sessions r)) 0 r.

Definition find (r : t) (id : SessionId) : Result (option Session.t) := Ok (m_sessions r !! id).

Definition list (r : t) (identity : IdentityId) : Result (list Session.t) :=
  Ok (snd <$> filter (fun p => Session.identity p.2 = identity) (map_iter (m_sessions r))).

(** The loop of [purgeExpired] over the entries still to visit. *)
Fixpoint purgeEach (now : Instant) (entries : Datatypes.list (SessionId * Session.t)) (removed : nat)
    (r : t) : nat * t :=
  match entries with
  | [] => (removed, r)
  | (id, session) :: entries =>
      if Session.isExpiredAt session now then
        purgeEach now entries (S removed)
          (mk (delete id (m_sessions r)) (delete (Session.tokenDigest session) (m_tokens r)))
      else purgeEach now entries removed r
  end.

Definition purgeExpired (now : Instant) (r : t) : nat * t :=
  purgeEach now (map_iter (m_sessions r)) 0 r.

Definition size (r : t) : nat := base.size (m_sessions r).

#[global] Instance repository : SessionRepository t := {
  sr_add := add; sr_use := use; sr_rotate := rotate; sr_revoke := revoke; sr_revokeAll := revokeAll;
  sr_find := find; sr_list := list; sr_purgeExpired := purgeExpired; sr_size := size;
}.
End repository.
End InMemorySessionRepository.

(** ** The representation invariant

    Every session is stored under its own identifier and indexed by its current
    token digest, and every indexed digest leads to the session that holds it. *)

Section session_store.
Context `{Platform}.

Import InMemorySessionRepository.
Abbreviation sessions_t := InMemorySessionRepository.t.
Implicit Types r : sessions_t.

Definition consistent r : Prop :=
  (forall id s, m_sessions r !! id = Some s ->
     Session.id s = id /\ m_tokens r !! Session.tokenDigest s = Some id) /\
  (forall d id, m_tokens r !! d = Some id ->
     exists s, m_sessions r !! id = Some s /\ Session.tokenDigest s = d).

Lemma consistent_empty : consistent empty.
Proof. by split. Qed.

Lemma consistent_update r id s s' :
  consistent r -> m_sessions r !! id = Some s ->
  Session.id s' = Session.id s -> Session.tokenDigest s' = Session.tokenDigest s ->
  consistent (mk (<[id := s']> (m_sessions r)) (m_tokens r)).
Proof.
  intros [Hs Ht] Hid Eid Etok. split; simpl.
  - intros id' x. rewrite lookup_insert. case_decide; [|by apply Hs]. subst.
    intros [= <-]. apply Hs in Hid. by rewrite Eid, Etok.
  - intros d id' (x & Hx & Hd)%Ht. rewrite lookup_insert. case_decide; [subst|by eauto].
    exists s'. split; [done|]. congruence.
Qed.

Lemma consistent_insert r s :
  consistent r -> m_sessions r !! Session.id s = None -> m_tokens r !! Session.tokenDigest s = None ->
  consistent (mk (<[Session.id s := s]> (m_sessions r))
                 (<[Session.tokenDigest s := Session.id s]> (m_tokens r))).
Proof.
  intros [Hs Ht] Hnew Htok. split; simpl.
  - intros id x. rewrite lookup_insert. case_decide; [subst; intros [= <-]|].
    + split; [done|]. apply lookup_insert_eq.
    + intros [Hx Hd]%Hs. split; [done|]. rewrite lookup_insert_ne; [done|congruence].
  - intros d id. rewrite lookup_insert. case_decide; [subst; intros [= <-]|].
    + exists s. split; [apply lookup_insert_eq|done].
    + intros (x & Hx & Hd)%Ht. exists x. rewrite lookup_insert_ne; [done|congruence].
Qed.

Lemma consistent_remove r id s :
  consistent r -> m_sessions r !! id = Some s ->
  consistent (mk (delete id (m_sessions r)) (delete (Session.tokenDigest s) (m_tokens r))).
Proof.
  intros [Hs Ht] Hid. destruct (Hs _ _ Hid) as [Eid Etok]. split; simpl.
  - intros id' x. rewrite lookup_delete. case_decide; [done|]. intros [Hx Hd]%Hs.
    split; [done|]. rewrite lookup_delete_ne; [done|congruence].
  - intros d id'. rewrite lookup_delete. case_decide; [done|]. intros (x & Hx & Hd)%Ht.
    exists x. rewrite lookup_delete_ne; [done|]. intros <-. congruence.
Qed.

(** A rotation is the removal of the session and its return with a new token. *)
Lemma consistent_rotate r id s s' d :
  consistent r -> m_sessions r !! id = Some s -> m_tokens r !! d = None ->
  Session.id s' = Session.id s -> Session.tokenDigest s' = d ->
  consistent (mk (<[id := s']> (m_sessions r))
                 (<[d := id]> (delete (Session.tokenDigest s) (m_tokens r)))).
Proof.
  intros Hc Hid Hd Eid <-. pose proof (consistent_remove r id s Hc Hid) as Hrem.
  destruct (proj1 Hc _ _ Hid) as [Hsid _].
  assert (Session.id s' = id) as Hs' by congruence.
  apply (consistent_insert _ s') in Hrem; simpl in *; rewrite ?Hs' in *.
  - by rewrite insert_delete_eq in Hrem.
  - apply lookup_delete_eq.
  - rewrite lookup_delete. by case_decide.
Qed.

(** *** The operations, case by case *)

Lemma use_cases token now r res r' :
  consistent r -> use token now r = (res, r') ->
  (m_tokens r !! token = None /\ res = Err (invalidSession "Session token is unknown.") /\ r' = r) \/
  exists id s u s', m_tokens r !! token = Some id /\ m_sessions r !! id = Some s /\
    Session.use token now s = (u, s') /\ r' = mk (<[id := s']> (m_sessions r)) (m_tokens r) /\
    res = match u with Ok _ => Ok s' | Err e => Err e | Aborted => Aborted end.
Proof.
  intros [_ Ht]. unfold use. destruct (m_tokens r !! token) as [id|] eqn:Htok.
  - destruct (Ht _ _ Htok) as (s & Hs & _). rewrite Hs.
    destruct (Session.use token now s) as [u s'] eqn:Hu. intros E. right.
    exists id, s, u, s'. split_and!; try done; destruct u; by injection E.
  - intros [= <- <-]. by left.
Qed.

Lemma rotate_cases id expected replacement now r res r' :
  rotate id expected replacement now r = (res, r') ->
  (r' = r /\ is_ok res = false) \/
  exists s u s', m_sessions r !! id = Some s /\ m_tokens r !! replacement = None /\
    Session.use expected now s = (u, s') /\
    ((u = ok /\ res = ok /\
      r' = mk (<[id := Session.set_tokenDigest s' replacement]> (m_sessions r))
              (<[replacement := id]> (delete (Session.tokenDigest s) (m_tokens r)))) \/
     (is_ok u = false /\ is_ok res = false /\ r' = mk (<[id := s']> (m_sessions r)) (m_tokens r))).
Proof.
  unfold rotate, Session.rotateToken. destruct (m_sessions r !! id) as [s|]; [|by intros [= <- <-]; left].
  case_bool_decide as Hin; [by intros [= <- <-]; left|]. apply eq_None_not_Some in Hin.
  destruct (Session.use expected now s) as [u s'] eqn:Hu. intros E. right. exists s, u, s'.
  split_and!; try done. destruct u as [[]|e|]; injection E as <- <-; [left|right..]; done.
Qed.

Lemma use_digest token now s u s' :
  Session.use token now s = (u, s') ->
  Session.id s' = Session.id s /\ Session.tokenDigest s' = Session.tokenDigest s.
Proof. unfold Session.use. intros Hu. handler Hu; done. Qed.

Lemma revoke_digest now s u s' :
  Session.revoke now s = (u, s') ->
  Session.id s' = Session.id s /\ Session.tokenDigest s' = Session.tokenDigest s.
Proof. unfold Session.revoke. intros Hu. handler Hu; done. Qed.

(** *** Sequences of operations *)

Inductive session_op :=
| SAdd (s : Session.t)
| SUse (token : TokenDigest) (now : Instant)
| SRotate (id : SessionId) (expected replacement : TokenDigest) (now : Instant)
| SRevoke (id : SessionId) (now : Instant)
| SRevokeAll (identity : IdentityId) (now : Instant)
| SPurge (now : Instant).

Definition session_step (o : session_op) r : sessions_t :=
  match o with
  | SAdd s => (sr_add s r).2
  | SUse token now => (sr_use token now r).2
  | SRotate id expected replacement now => (sr_rotate id expected replacement now r).2
  | SRevoke id now => (sr_revoke id now r).2
  | SRevokeAll identity now => (sr_revokeAll identity now r).2
  | SPurge now => (sr_purgeExpired now r).2
  end.

Definition session_run (os : Datatypes.list session_op) r : sessions_t :=
  foldl (fun r o => session_step o r) r os.

(** An invariant of the store is kept by every operation when it is kept by the
    four elementary changes: a new session, a session that moved on with its
    token, a session with a fresh token, and a removed session. *)
Record kept_by (allowed : session_op -> Prop) (I : sessions_t -> Prop) : Prop := {
  kept_add r s : I r -> consistent r -> allowed (SAdd s) ->
    m_sessions r !! Session.id s = None -> m_tokens r !! Session.tokenDigest s = None ->
    I (mk (<[Session.id s := s]> (m_sessions r)) (<[Session.tokenDigest s := Session.id s]> (m_tokens r)));
  kept_update r id s s' : I r -> consistent r -> m_sessions r !! id = Some s ->
    Session.same_session s s' -> Session.tokenDigest s' = Session.tokenDigest s ->
    I (mk (<[id := s']> (m_sessions r)) (m_tokens r));
  kept_rotate r id s s' e d t : I r -> consistent r -> allowed (SRotate id e d t) ->
    m_sessions r !! id = Some s -> m_tokens r !! d = None -> Session.same_session s s' ->
    Session.tokenDigest s' = d -> Session.state s = SessionState.Active ->
    I (mk (<[id := s']> (m_sessions r)) (<[d := id]> (delete (Session.tokenDigest s) (m_tokens r))));
  kept_remove r id s : I r -> consistent r -> m_sessions r !! id = Some s ->
    I (mk (delete id (m_sessions r)) (delete (Session.tokenDigest s) (m_tokens r)));
}.

Lemma consistent_kept : kept_by (fun _ => True) consistent.
Proof.
  split.
  - intros r s Hc _ _. by apply consistent_insert.
  - intros r id s s' Hc _ Hs (? & _) Ht. by eapply consistent_update.
  - intros r id s s' e d t Hc _ _ Hs Hd (? & _) Ht _. by eapply consistent_rotate.
  - intros r id s Hc _. by apply consistent_remove.
Qed.

Section kept.
Context (allowed : session_op -> Prop) (I : sessions_t -> Prop) (HI : kept_by allowed I).

Abbreviation good r := (I r /\ consistent r).

Lemma good_update r id s s' :
  good r -> m_sessions r !! id = Some s -> Session.same_session s s' ->
  Session.tokenDigest s' = Session.tokenDigest s -> good (mk (<[id := s']> (m_sessions r)) (m_tokens r)).
Proof.
  intros [HIr Hc] Hs Hsame Ht. split; [by eapply kept_update|].
  eapply consistent_update; [done..| |done]. by destruct Hsame.
Qed.

Lemma revokeEach_good identity now entries n r :
  good r -> NoDup entries.*1 -> (forall id s, (id, s) ∈ entries -> m_sessions r !! id = Some s) ->
  good (revokeEach identity now entries n r).2.
Proof.
  revert n r. induction entries as [|[id s] entries IH]; intros n r Hr Hnd Hin; simpl; [done|].
  apply NoDup_cons in Hnd as [Hid Hnd].
  assert (Hrest : forall id' s', (id', s') ∈ entries -> id' <> id).
  { intros id' s' Hin' ->. apply Hid, list_elem_of_fmap. by exists (id, s'). }
  destruct (_ && _); [|apply IH; [done..|]; intros; apply Hin; set_solver].
  pose proof (Session.revoke_same now s) as Hsame.
  destruct (Session.revoke now s) as [u s'] eqn:Hu. simpl in Hsame.
  assert (good (mk (<[id := s']> (m_sessions r)) (m_tokens r))).
  { eapply good_update; [done| |done|by apply revoke_digest in Hu as [_ ?]]. apply Hin. set_solver. }
  destruct u; simpl; [|done..]. apply IH; [done..|]. intros id' x Hx. simpl.
  rewrite lookup_insert_ne by (symmetry; eauto). apply Hin. set_solver.
Qed.

Lemma purgeEach_good now entries n r :
  good r -> NoDup entries.*1 -> (forall id s, (id, s) ∈ entries -> m_sessions r !! id = Some s) ->
  good (purgeEach now entries n r).2.
Proof.
  revert n r. induction entries as [|[id s] entries IH]; intros n r Hr Hnd Hin; simpl; [done|].
  apply NoDup_cons in Hnd as [Hid Hnd].
  assert (Hs : m_sessions r !! id = Some s) by (apply Hin; set_solver).
  destruct (Session.isExpiredAt s now); [|apply IH; [done..|]; intros; apply Hin; set_solver].
  destruct Hr as [HIr Hc]. apply IH; [|done|].
  - split; [by eapply kept_remove|by apply consistent_remove].
  - intros id' x Hx. simpl. rewrite lookup_delete_ne; [apply Hin; set_solver|].
    intros <-. apply Hid, list_elem_of_fmap. by exists (id, x).
Qed.

Lemma session_step_good o r : allowed o -> good r -> good (session_step o r).
Proof.
  intros Ho Hr. destruct o as [s|token now|id expected replacement now|id now|identity now|now];
    cbn [session_step sr_add sr_use sr_rotate sr_revoke sr_revokeAll sr_purgeExpired repository].
  - unfold add. destruct (_ || _) eqn:E; [done|]. destruct Hr as [HIr Hc].
    apply orb_false_iff in E as [E1 E2].
    apply bool_decide_eq_false, eq_None_not_Some in E1, E2. simpl.
    split; [by apply (kept_add _ _ HI)|by apply consistent_insert].
  - destruct (use token now r) as [res r'] eqn:E.
    apply use_cases in E as [(_ & _ & ->)|(id & s & u & s' & _ & Hs & Hu & -> & _)]; [done| |by destruct Hr].
    pose proof (Session.use_same token now s) as Hsame. rewrite Hu in Hsame.
    eapply good_update; [done..|]. by apply use_digest in Hu as [_ ?].
  - destruct (rotate id expected replacement now r) as [res r'] eqn:E.
    apply rotate_cases in E as [(-> & _)|(s & u & s' & Hs & Hd & Hu & Hcase)]; [done|].
    pose proof (Session.use_same expected now s) as Hsame. rewrite Hu in Hsame. simpl in Hsame.
    destruct Hcase as [(-> & _ & ->)|(_ & _ & ->)].
    + assert (Session.state s = SessionState.Active).
      { unfold Session.use in Hu. case_bool_decide; [done|]. by inversion Hu. }
      assert (Session.same_session s (Session.set_tokenDigest s' replacement)).
      { etrans; [done|]. unfold Session.same_session, Session.set_tokenDigest. simpl. done. }
      destruct Hr as [HIr Hc]. split; [by eapply (kept_rotate _ _ HI _ _ _ _ expected _ now)|].
      eapply consistent_rotate; [done..| |done]. simpl. by apply use_digest in Hu as [? _].
    + eapply good_update; [done..|]. by apply use_digest in Hu as [_ ?].
  - unfold revoke. destruct (m_sessions r !! id) as [s|] eqn:Hs; [|done].
    pose proof (Session.revoke_same now s) as Hsame.
    destruct (Session.revoke now s) as [u s'] eqn:Hu. simpl in *.
    eapply good_update; [done..|]. by apply revoke_digest in Hu as [_ ?].
  - apply revokeEach_good; [done|apply NoDup_map_iter_fst|]. by intros id s ?%elem_of_map_iter.
  - apply purgeEach_good; [done|apply NoDup_map_iter_fst|]. by intros id s ?%elem_of_map_iter.
Qed.

Lemma session_run_good os r : Forall allowed os -> good r -> good (session_run os r).
Proof.
  intros Hos. revert r. induction Hos as [|o os Ho _ IH]; intros r Hr; [done|].
  by apply IH, session_step_good.
Qed.
End kept.
End session_store.

(** ** What the session store promises *)

Section session_store_behaviour.
Context `{Plat : Platform, !PlatformLaws Plat}.

Import InMemorySessionRepository.
Implicit Types r : InMemorySessionRepository.t.

Lemma run_consistent os r : consistent r -> consistent (session_run os r).
Proof.
  intros Hr. apply (session_run_good (fun _ => True) consistent consistent_kept os r); [|done].
  by apply Forall_true.
Qed.

Lemma use_ok_cases token now r s r' :
  consistent r -> sr_use token now r = (Ok s, r') ->
  exists id s0, m_tokens r !! token = Some id /\ m_sessions r !! id = Some s0 /\ Session.id s0 = id /\
    Session.usable s0 token now /\ s = Session.set_lastSeenAt s0 now /\
    r' = mk (<[id := s]> (m_sessions r)) (m_tokens r).
Proof.
  intros Hc Hu. cbn in Hu. apply use_cases in Hu
    as [(_ & ? & _)|(id & s0 & u & s' & Ht & Hs & Hu & -> & Hres)]; [done..| |done].
  destruct u as [[]|e|]; [|done..]. injection Hres as ->.
  apply Session.use_ok_iff in Hu as [Hus ->]. exists id, s0. split_and!; try done.
  by apply Hc.
Qed.

(** The session store is never inconsistent. In every state that any
    sequence of operations reaches from the empty store, each session is
    indexed by exactly its current token and each indexed token leads to its
    session; the error branch for an inconsistent store is never taken, and
    no use of a token aborts. *)
Theorem session_store_consistent os token now :
  let r := session_run os empty in
  consistent r /\
  (sr_use token now r).1 <> fail Internal "The session store is inconsistent." /\
  (sr_use token now r).1 <> Aborted.
Proof.
  intros r. assert (Hr : consistent r) by (by apply run_consistent, consistent_empty).
  split; [done|]. destruct (sr_use token now r) as [res r'] eqn:Hu. cbn in Hu.
  apply use_cases in Hu as [(_ & -> & _)|(id & s & u & s' & _ & _ & Hu & _ & ->)]; [done| |done].
  simpl. destruct (decide (u = ok)) as [->|Hne]; [done|].
  pose proof (Session.use_fails_keeps _ _ _ _ _ Hu Hne) as (Hok & Hna & _).
  unfold Session.use in Hu. handler Hu; done.
Qed.

(** What a token opens. On a consistent store a presented digest is
    accepted exactly when it is the current digest of a stored session that
    is active and before both its deadlines; the answer is that session, seen
    now, and nothing else of the store changes. *)
Theorem token_opens_its_session token now r s r' :
  consistent r ->
  sr_use token now r = (Ok s, r') <->
  exists s0, m_sessions r !! Session.id s0 = Some s0 /\ Session.usable s0 token now /\
    s = Session.set_lastSeenAt s0 now /\
    r' = mk (<[Session.id s0 := s]> (m_sessions r)) (m_tokens r).
Proof.
  intros Hc. split.
  - intros (id & s0 & _ & Hs & <- & Hus & -> & ->)%use_ok_cases; [|done]. by exists s0.
  - intros (s0 & Hs & Hus & -> & ->). cbn. unfold use.
    assert (token = Session.tokenDigest s0) as -> by (by destruct Hus as (_ & _ & _ & ?)).
    rewrite (proj2 (proj1 Hc _ _ Hs)), Hs.
    by rewrite (proj2 (Session.use_ok_iff _ _ _ _) (conj Hus eq_refl)).
Qed.

(** *** Revocation *)

(** No active session satisfies [P]. *)
Definition closed (P : Session.t -> Prop) r : Prop :=
  forall id s, m_sessions r !! id = Some s -> P s -> Session.state s <> SessionState.Active.

Lemma closed_kept (P : Session.t -> Prop) :
  (forall s s', Session.same_session s s' -> P s' -> P s) ->
  kept_by (fun o => match o with SAdd s => ~ P s | _ => True end) (closed P).
Proof.
  intros HP. assert (Hupd : forall r id s s' tokens, closed P r -> m_sessions r !! id = Some s ->
    Session.same_session s s' -> closed P (mk (<[id := s']> (m_sessions r)) tokens)).
  { intros r id s s' tokens Hcl Hs Hsame id' x. simpl. rewrite lookup_insert.
    case_decide; [|by apply Hcl]. intros [= <-] Hx Hact.
    assert (Hns : Session.state s <> SessionState.Active) by (eapply Hcl; eauto).
    destruct Hsame as (_ & _ & _ & _ & _ & _ & _ & _ & _ & Hst). by rewrite Hst in Hact. }
  split.
  - intros r s Hcl _ Hnew _ _ id x. simpl. rewrite lookup_insert. case_decide; [by intros [= <-]|].
    apply Hcl.
  - intros r id s s' Hcl _ Hs Hsame _. by eapply Hupd.
  - intros r id s s' e d t Hcl _ _ Hs _ Hsame _ _. by eapply Hupd.
  - intros r id s Hcl _ _ id' x. simpl. rewrite lookup_delete. case_decide; [done|]. apply Hcl.
Qed.

(** A closed store never answers with a closed session. *)
Lemma closed_refuses (P : Session.t -> Prop) os r token now s :
  (forall s s', Session.same_session s s' -> P s' -> P s) ->
  consistent r -> closed P r -> Forall (fun o => match o with SAdd s => ~ P s | _ => True end) os ->
  (sr_use token now (session_run os r)).1 = Ok s -> ~ P s.
Proof.
  intros HP Hc Hcl Hos Hu Hs.
  destruct (session_run_good _ _ (closed_kept P HP) os r Hos (conj Hcl Hc)) as [Hcl' Hc'].
  destruct (sr_use token now (session_run os r)) as [res r'] eqn:E. simpl in Hu. subst.
  apply use_ok_cases in E as (id & s0 & _ & Hs0 & _ & (Hact & _) & -> & _); [|done].
  eapply Hcl'; [done| |done]. eapply HP; [|done]. apply Session.set_same_lastSeen.
Qed.
Lemma revoke_ok_closes id now r r' :
  consistent r -> sr_revoke id now r = (ok, r') -> closed (fun s => Session.id s = id) r' /\ consistent r'.
Proof.
  intros Hc Hr. split.
  - cbn in Hr. unfold revoke in Hr. destruct (m_sessions r !! id) as [s|] eqn:Hs; [|done].
    destruct (Session.revoke now s) as [u s'] eqn:Hu. injection Hr as -> <-.
    intros id' x. simpl. rewrite lookup_insert. case_decide.
    + intros [= <-] _. unfold Session.revoke in Hu. handler Hu; bool_prop; simpl; congruence.
    + intros [Hx _]%(proj1 Hc) E. congruence.
  - pose proof (run_consistent [SRevoke id now] r Hc) as Hc'. simpl in Hc'. cbn in Hr. by rewrite Hr in Hc'.
Qed.

Lemma revokeEach_spec identity now entries n r :
  NoDup entries.*1 -> (forall id s, (id, s) ∈ entries -> m_sessions r !! id = Some s) ->
  exists k r', revokeEach identity now entries n r = (Ok k, r') /\
    (forall id, id ∉ entries.*1 -> m_sessions r' !! id = m_sessions r !! id) /\
    (forall id x, id ∈ entries.*1 -> m_sessions r' !! id = Some x ->
       Session.identity x = identity -> Session.state x <> SessionState.Active).
Proof.
  revert n r. induction entries as [|[id s] entries IH]; intros n r Hnd Hin; simpl.
  { exists n, r. split_and!; [done|done|set_solver]. }
  rewrite fmap_cons in Hnd. apply NoDup_cons in Hnd as [Hid Hnd]. simpl in Hid.
  assert (Hs : m_sessions r !! id = Some s) by (apply Hin; set_solver).
  destruct (bool_decide (Session.identity s = identity) && bool_decide (Session.state s = SessionState.Active)) eqn:E.
  - bool_prop. assert (Session.revoke now s = (ok, Session.set s SessionState.Revoked
      (Session.tokenDigest s) (Session.lastSeenAt s) (Some now))) as ->.
    { unfold Session.revoke. by rewrite H0. }
    simpl. set (r1 := mk _ _).
    destruct (IH (S n) r1) as (k & r' & -> & Hother & Hclosed); [done| |].
    { intros id' x Hx. simpl. rewrite lookup_insert_ne; [apply Hin; set_solver|].
      intros <-. apply Hid, list_elem_of_fmap. by exists (id, x). }
    exists k, r'. split_and!; [done| |].
    + intros id' Hn. rewrite Hother by set_solver. simpl. apply lookup_insert_ne. set_solver.
    + intros id' x [->|Hx]%elem_of_cons; [|by apply Hclosed].
      simpl. rewrite Hother by done. simpl. rewrite lookup_insert_eq. by intros [= <-].
  - destruct (IH n r) as (k & r' & -> & Hother & Hclosed); [done|set_solver|].
    exists k, r'. split_and!; [done|set_solver|].
    intros id' x [->|Hx]%elem_of_cons; [|by apply Hclosed].
    simpl. rewrite Hother, Hs by done. intros [= <-] Hi Ha.
    apply andb_false_iff in E as [E|E]; bool_prop; done.
Qed.

Lemma revokeAll_closes identity now r :
  consistent r -> exists k r', sr_revokeAll identity now r = (Ok k, r') /\
    closed (fun s => Session.identity s = identity) r' /\ consistent r'.
Proof.
  intros Hc. destruct (revokeEach_spec identity now (map_iter (m_sessions r)) 0 r)
    as (k & r' & Hr & Hother & Hclosed).
  - apply NoDup_map_iter_fst.
  - by intros id s ?%elem_of_map_iter.
  - exists k, r'. split_and!; [done| |].
    + intros id x Hx Hi. eapply Hclosed; [|done..].
      destruct (decide (id ∈ (map_iter (m_sessions r)).*1)) as [|Hn]; [done|].
      rewrite Hother in Hx by done. apply list_elem_of_fmap. exists (id, x).
      split; [done|]. by apply elem_of_map_iter.
    + pose proof (run_consistent [SRevokeAll identity now] r Hc) as Hc'. simpl in Hc'.
      unfold revokeAll in Hc'. by rewrite Hr in Hc'.
Qed.

(** Revocation is immediate and permanent. After a successful [revoke],
    in every later state reached without adding a session of that identifier,
    no token at any time opens the session. [revokeAll] always succeeds, and
    after it, in every later state reached without a new session of that
    identity, no token at any time opens a session of the identity. *)
Theorem revocation_is_immediate_and_permanent r os token now s :
  consistent r -> (sr_use token now (session_run os r)).1 = Ok s ->
  (forall id t r0, consistent r0 -> sr_revoke id t r0 = (ok, r) ->
     Forall (fun o => match o with SAdd s => Session.id s <> id | _ => True end) os ->
     Session.id s <> id) /\
  (forall identity t r0, consistent r0 -> (sr_revokeAll identity t r0).2 = r ->
     Forall (fun o => match o with SAdd s => Session.identity s <> identity | _ => True end) os ->
     is_ok (sr_revokeAll identity t r0).1 = true /\ Session.identity s <> identity).
Proof.
  intros Hc Hu. split.
  - intros id t r0 Hc0 [Hcl _]%revoke_ok_closes Hos; [|done].
    apply (closed_refuses (fun s => Session.id s = id) os r token now s); [|done..].
    by intros x y (-> & _).
  - intros identity t r0 Hc0 Hall Hos.
    destruct (revokeAll_closes identity t r0 Hc0) as (k & r' & E & Hcl & _).
    rewrite E in *. simpl in *. subst. split; [done|].
    apply (closed_refuses (fun s => Session.identity s = identity) os r token now s); [|done..].
    by intros x y (_ & -> & _).
Qed.

(** *** Rotation *)

Lemma unknown_kept old :
  kept_by (fun o => match o with
                    | SAdd s => Session.tokenDigest s <> old
                    | SRotate _ _ d _ => d <> old
                    | _ => True
                    end) (fun r => m_tokens r !! old = None).
Proof.
  split.
  - intros r s Hn _ Ho _ _. simpl. by rewrite lookup_insert_ne.
  - done.
  - intros r id s s' e d t Hn _ Ho _ _ _ _ _. simpl. rewrite lookup_insert_ne, lookup_delete by done.
    by case_decide.
  - intros r id s Hn _ _. simpl. rewrite lookup_delete. by case_decide.
Qed.

(** Rotation replaces the token. When the repository rotates a session's
    token, the old digest was the one that opens the session; afterwards the
    new digest opens that same session (same identity, provider, assurance,
    strength and absolute deadline) while its deadlines last, and the old
    digest is refused as unknown in every later state that does not
    introduce it again. *)
Theorem rotation_replaces_the_token id old new now r r' :
  consistent r -> sr_rotate id old new now r = (ok, r') ->
  exists s0, m_sessions r !! id = Some s0 /\ Session.usable s0 old now /\
    (forall t, now <= t -> t < Session.absoluteExpiresAt s0 -> t < now + Session.idleTimeout s0 ->
       exists s, (sr_use new t r').1 = Ok s /\ Session.same_session s0 s) /\
    (forall os t,
       Forall (fun o => match o with
                        | SAdd s => Session.tokenDigest s <> old
                        | SRotate _ _ d _ => d <> old
                        | _ => True
                        end) os ->
       (sr_use old t (session_run os r')).1 = Err (invalidSession "Session token is unknown.")).
Proof.
  intros Hc Hr. cbn in Hr.
  assert (Hc' : consistent r').
  { pose proof (run_consistent [SRotate id old new now] r Hc) as Hc'. simpl in Hc'. by rewrite Hr in Hc'. }
  apply rotate_cases in Hr as [(_ & ?)|(s0 & u & s1 & Hs & Hnew & Hu & [(-> & _ & ->)|(_ & ? & _)])]; [done| |done].
  apply Session.use_ok_iff in Hu as [Hus ->]. exists s0. split; [done|]. split; [done|].
  destruct Hus as (Hact & Habs & Hidle & ->). split.
  - intros t Ht Ha Hi. set (s1 := Session.set_tokenDigest _ _) in *.
    exists (Session.set_lastSeenAt s1 t). split.
    + assert (Husable : Session.usable s1 new t).
      { unfold Session.usable, s1. simpl. split_and!; [done|lia|lia|done]. }
      cbn. unfold use. simpl. rewrite lookup_insert_eq, lookup_insert_eq.
      by rewrite (proj2 (Session.use_ok_iff new t s1 _) (conj Husable eq_refl)).
    + unfold Session.same_session, s1. simpl. split_and!; done.
  - intros os t Hos. set (old := Session.tokenDigest s0) in *.
    assert (Hnone : <[new := id]> (delete old (m_tokens r)) !! old = None).
    { rewrite lookup_insert_ne, lookup_delete_eq; [done|]. intros E.
      destruct (proj1 Hc _ _ Hs) as [_ Hold]. unfold old in E. congruence. }
    destruct (session_run_good _ _ (unknown_kept old) os (mk _ (<[new := id]> (delete old (m_tokens r))))
                Hos (conj Hnone Hc')) as [Hn _].
    cbn. unfold use. by rewrite Hn.
Qed.
End session_store_behaviour.

Module SessionWitnesses.
Import TestPlatform InMemorySessionRepository.

Definition sample_session : Session.t :=
  Session.mk (mkId "s1") (mkId "alice") (mkId "local") Ial1 AuthenticationStrength.none
    SessionState.Active 10 (checksum (as_bytes "token")) 10 10 1000 100 None None None.
Definition sample_session2 : Session.t :=
  Session.mk (mkId "s2") (mkId "bob") (mkId "local") Ial1 AuthenticationStrength.none
    SessionState.Active 10 (checksum (as_bytes "other")) 10 10 1000 100 None None None.
Definition sample_sessions : InMemorySessionRepository.t :=
  session_run [SAdd sample_session; SAdd sample_session2] empty.

Lemma token_opens_its_session_witness :
  (sr_use (checksum (as_bytes "token")) 20 sample_sessions).1 = Ok (Session.set_lastSeenAt sample_session 20).
Proof.
  rewrite (proj2 (token_opens_its_session _ 20 sample_sessions (Session.set_lastSeenAt sample_session 20)
             (mk (<[mkId "s1" := Session.set_lastSeenAt sample_session 20]> (m_sessions sample_sessions))
                 (m_tokens sample_sessions)) (run_consistent _ _ consistent_empty))).
  - reflexivity.
  - exists sample_session. split; [reflexivity|]. split; [|split; reflexivity].
    repeat split; vm_compute; reflexivity.
Defined.

Lemma revocation_is_immediate_and_permanent_witness : Session.id sample_session2 <> mkId "s1".
Proof.
  refine (proj1 (revocation_is_immediate_and_permanent (sr_revoke (mkId "s1") 15 sample_sessions).2 []
            (checksum (as_bytes "other")) 20 (Session.set_lastSeenAt sample_session2 20) _ _)
            (mkId "s1") 15 sample_sessions _ _ _).
  - apply (run_consistent [SAdd sample_session; SAdd sample_session2; SRevoke (mkId "s1") 15]).
    apply consistent_empty.
  - vm_compute. reflexivity.
  - apply run_consistent, consistent_empty.
  - apply run_as. vm_compute. reflexivity.
  - constructor.
Defined.

Lemma rotation_replaces_the_token_witness :
  (sr_use (checksum (as_bytes "token")) 30
     (sr_rotate (mkId "s1") (checksum (as_bytes "token")) (checksum (as_bytes "fresh")) 20 sample_sessions).2).1
  = Err (invalidSession "Session token is unknown.").
Proof.
  destruct (rotation_replaces_the_token (mkId "s1") (checksum (as_bytes "token")) (checksum (as_bytes "fresh"))
    20 sample_sessions
    (sr_rotate (mkId "s1") (checksum (as_bytes "token")) (checksum (as_bytes "fresh")) 20 sample_sessions).2)
    as (s0 & _ & _ & _ & Hold).
  - apply run_consistent, consistent_empty.
  - apply run_as. vm_compute. reflexivity.
  - apply (Hold []). constructor.
Defined.
End SessionWitnesses.
