(* ===== verification/Profile.v ===== *)
(** * openproof.identity.profile: canonical user-facing profile claims

    Models [src/src/identity/profile/model.cpp] and [repository.cpp]: the
    profile aggregate with its text limits, the ways claims and self-service
    requests change it, and the in-memory repository with its look-up by
    verified email address. *)
From S2P Require Import Prelude Foundation Encoding Security Provider IdentityCore.

Definition validText (value : option string) (maximum : Z) : bool :=
  match value with
  | None => true
  | Some value =>
      if bool_decide (value = "") || (maximum <? Z.of_nat (String.length value)) then false
      else negb (any_octet control_octet value)
  end.

Definition validAvatarSource (avatarSource : string) : bool :=
  negb (bool_decide (avatarSource = "") || (128 <? Z.of_nat (String.length avatarSource))
        || any_octet control_octet avatarSource).

Module IdentityProfile.
Record t := mk {
  identity : IdentityId;
  displayName : option string;
  preferredUsername : option string;
  email : option string;
  emailVerified : bool;
  phoneNumber : option string;
  phoneNumberVerified : bool;
  locale : option string;
  pictureUrl : option string;
  avatarSource : string;
  createdAt : Instant;
  updatedAt : Instant;
}.

Definition create (identity : IdentityId) (createdAt : Instant) : Result t :=
  if id_empty identity then fail InvalidArgument "An identity profile requires an identity."
  else Ok (mk identity None None None false None false None None "auto" createdAt createdAt).

Definition restore (identity : IdentityId) (displayName preferredUsername email : option string)
    (emailVerified : bool) (phoneNumber : option string) (phoneNumberVerified : bool)
    (locale pictureUrl : option string) (createdAt updatedAt : Instant) (avatarSource : string)
    : Result t :=
  if negb (validText displayName 256) || negb (validText preferredUsername 128)
     || negb (validText email 320) || negb (validText phoneNumber 32)
     || negb (validText locale 64) || negb (validText pictureUrl 2048)
     || negb (validAvatarSource avatarSource)
     || (updatedAt <? createdAt) || (emailVerified && bool_decide (email = None))
     || (phoneNumberVerified && bool_decide (phoneNumber = None)) then
    fail Internal "Stored identity profile data is invalid."
  else
    profile ← create identity createdAt;
    mret (mk (IdentityProfile.identity profile) displayName preferredUsername email emailVerified
             phoneNumber phoneNumberVerified locale pictureUrl avatarSource
             (IdentityProfile.createdAt profile) updatedAt).

Definition set_updatedAt (p : t) (now : Instant) : t :=
  mk (identity p) (displayName p) (preferredUsername p) (email p) (emailVerified p) (phoneNumber p)
     (phoneNumberVerified p) (locale p) (pictureUrl p) (avatarSource p) (createdAt p) now.

(** [if (const auto value = claims.get(name); value) member = *value;] *)
Definition claim_or (claims : VerifiedClaims.t) (name : ClaimName) (member : option string)
    : option string :=
  match VerifiedClaims.get claims name with Some value => Some value | None => member end.

Definition applyVerifiedClaims (claims : VerifiedClaims.t) (now : Instant) : prog t Error unit :=
  fun p =>
  if now <? updatedAt p then
    (fail FailedPrecondition "Profile claims cannot move time backwards.", p)
  else
    let displayName' := claim_or claims DisplayName (displayName p) in
    let preferredUsername' := claim_or claims PreferredUsername (preferredUsername p) in
    let displayName' :=
      match displayName', preferredUsername' with
      | None, Some username => Some username
      | _, _ => displayName'
      end in
    let '(email', emailVerified') :=
      match VerifiedClaims.get claims Email with
      | Some value => (Some value, VerifiedClaims.isTrue claims EmailVerified)
      | None => (email p, emailVerified p)
      end in
    let '(phoneNumber', phoneNumberVerified') :=
      match VerifiedClaims.get claims PhoneNumber with
      | Some value => (Some value, VerifiedClaims.isTrue claims PhoneNumberVerified)
      | None => (phoneNumber p, phoneNumberVerified p)
      end in
    let p := mk (identity p) displayName' preferredUsername' email' emailVerified' phoneNumber'
                phoneNumberVerified' (claim_or claims Locale (locale p))
                (claim_or claims PictureUrl (pictureUrl p)) (avatarSource p) (createdAt p) (updatedAt p) in
    if negb (validText (displayName p) 256) || negb (validText (preferredUsername p) 128)
       || negb (validText (email p) 320) || negb (validText (phoneNumber p) 32)
       || negb (validText (locale p) 64) || negb (validText (pictureUrl p) 2048) then
      (fail InvalidArgument "Verified profile claims exceeded platform limits.", p)
    else (ok, set_updatedAt p now).

(** A member that a claim may fill but never replace, and whether it did. *)
Definition fill (claims : VerifiedClaims.t) (name : ClaimName) (member : option string)
    : option string * bool :=
  match member, VerifiedClaims.get claims name with
  | None, Some value => (Some value, true)
  | _, _ => (member, false)
  end.

Definition refreshPresentationClaims (claims : VerifiedClaims.t) (now : Instant) : prog t Error unit :=
  fun p =>
  if now <? updatedAt p then
    (fail FailedPrecondition "Profile claims cannot move time backwards.", p)
  else
    let '(displayName', changed1) := fill claims DisplayName (displayName p) in
    let '(preferredUsername', changed2) := fill claims PreferredUsername (preferredUsername p) in
    let '(displayName', changed3) :=
      match displayName', preferredUsername' with
      | None, Some username => (Some username, true)
      | _, _ => (displayName', false)
      end in
    let '(locale', changed4) := fill claims Locale (locale p) in
    let '(pictureUrl', changed5) := fill claims PictureUrl (pictureUrl p) in
    let p := mk (identity p) displayName' preferredUsername' (email p) (emailVerified p) (phoneNumber p)
                (phoneNumberVerified p) locale' pictureUrl' (avatarSource p) (createdAt p) (updatedAt p) in
    if negb (validText (displayName p) 256) || negb (validText (preferredUsername p) 128)
       || negb (validText (locale p) 64) || negb (validText (pictureUrl p) 2048) then
      (fail InvalidArgument "Provider presentation claims exceeded platform limits.", p)
    else (ok, if changed1 || changed2 || changed3 || changed4 || changed5
              then set_updatedAt p now else p).

Definition updateSelfService (displayName' preferredUsername' locale' pictureUrl' : option string)
    (now : Instant) : prog t Error unit := fun p =>
  if now <? updatedAt p then
    (fail FailedPrecondition "Profile updates cannot move time backwards.", p)
  else if negb (validText displayName' 256) || negb (validText preferredUsername' 128)
          || negb (validText locale' 64) || negb (validText pictureUrl' 2048) then
    (fail InvalidArgument "Profile fields are invalid.", p)
  else (ok, mk (identity p) displayName' preferredUsername' (email p) (emailVerified p) (phoneNumber p)
               (phoneNumberVerified p) locale' pictureUrl' (avatarSource p) (createdAt p) now).

Definition setAvatarSource (avatarSource' : string) (now : Instant) : prog t Error unit := fun p =>
  if (now <? updatedAt p) || negb (validAvatarSource avatarSource') then
    (fail InvalidArgument "Avatar source is invalid.", p)
  else (ok, mk (identity p) (displayName p) (preferredUsername p) (email p) (emailVerified p)
               (phoneNumber p) (phoneNumberVerified p) (locale p) (pictureUrl p) avatarSource'
               (createdAt p) now).

Definition setEmail (email' : string) (verified : bool) (now : Instant) : prog t Error unit := fun p =>
  if (now <? updatedAt p) || negb (validText (Some email') 320) then
    (fail InvalidArgument "The email claim is invalid.", p)
  else (ok, mk (identity p) (displayName p) (preferredUsername p) (Some email') verified (phoneNumber p)
               (phoneNumberVerified p) (locale p) (pictureUrl p) (avatarSource p) (createdAt p) now).

Definition setPhoneNumber (phoneNumber' : string) (verified : bool) (now : Instant)
    : prog t Error unit := fun p =>
  if (now <? updatedAt p) || negb (validText (Some phoneNumber') 32) then
    (fail InvalidArgument "The phone-number claim is invalid.", p)
  else (ok, mk (identity p) (displayName p) (preferredUsername p) (email p) (emailVerified p)
               (Some phoneNumber') verified (locale p) (pictureUrl p) (avatarSource p) (createdAt p) now).

Inductive op :=
| ApplyVerifiedClaims (claims : VerifiedClaims.t) (now : Instant)
| RefreshPresentationClaims (claims : VerifiedClaims.t) (now : Instant)
| UpdateSelfService (displayName preferredUsername locale pictureUrl : option string) (now : Instant)
| SetAvatarSource (avatarSource : string) (now : Instant)
| SetEmail (email : string) (verified : bool) (now : Instant)
| SetPhoneNumber (phoneNumber : string) (verified : bool) (now : Instant).

Definition run_op (o : op) : prog t Error unit :=
  match o with
  | ApplyVerifiedClaims claims now => applyVerifiedClaims claims now
  | RefreshPresentationClaims claims now => refreshPresentationClaims claims now
  | UpdateSelfService d u l p now => updateSelfService d u l p now
  | SetAvatarSource a now => setAvatarSource a now
  | SetEmail e v now => setEmail e v now
  | SetPhoneNumber n v now => setPhoneNumber n v now
  end.

(** The profiles a caller can come to hold and save: every caller works on a
    copy and drops it when the operation fails. *)
Inductive reachable : t -> Prop :=
| reachable_create i c p : create i c = Ok p -> reachable p
| reachable_op o p p' : reachable p -> run_op o p = (ok, p') -> reachable p'.

(** What the store accepts back. *)
Definition storable (p : t) : Prop :=
  id_empty (identity p) = false /\
  validText (displayName p) 256 = true /\ validText (preferredUsername p) 128 = true /\
  validText (email p) 320 = true /\ validText (phoneNumber p) 32 = true /\
  validText (locale p) 64 = true /\ validText (pictureUrl p) 2048 = true /\
  validAvatarSource (avatarSource p) = true /\ createdAt p <= updatedAt p /\
  (emailVerified p = true -> email p <> None) /\
  (phoneNumberVerified p = true -> phoneNumber p <> None).

Definition restore_fields (p : t) : Result t :=
  restore (identity p) (displayName p) (preferredUsername p) (email p) (emailVerified p)
    (phoneNumber p) (phoneNumberVerified p) (locale p) (pictureUrl p) (createdAt p) (updatedAt p)
    (avatarSource p).

Lemma restore_storable p : storable p -> restore_fields p = Ok p.
Proof.
  intros (Hid & Hd & Hu & He & Hp & Hl & Hpic & Ha & Ht & Hev & Hpv).
  unfold restore_fields, restore, create.
  rewrite Hd, Hu, He, Hp, Hl, Hpic, Ha, Hid, (proj2 (Z.ltb_ge _ _) Ht). simpl.
  assert (forall (b : bool) (o : option string), (b = true -> o <> None) -> b && bool_decide (o = None) = false)
    as Hb.
  { intros [] o Ho; simpl; [|done]. apply bool_decide_eq_false. by apply Ho. }
  rewrite !Hb by done. simpl. by destruct p.
Qed.

(** Claims that were kept or just filled in. *)
Lemma fill_keeps claims name member v b :
  fill claims name member = (v, b) -> forall x, member = Some x -> v = Some x.
Proof. unfold fill. destruct member; [|done]. by intros [= <- <-]. Qed.

Lemma run_op_storable o p p' : storable p -> run_op o p = (ok, p') -> storable p'.
Proof.
  intros (Hid & Hd & Hu & He & Hp & Hl & Hpic & Ha & Ht & Hev & Hpv).
  destruct o; cbn [run_op]; unfold applyVerifiedClaims, refreshPresentationClaims, updateSelfService,
    setAvatarSource, setEmail, setPhoneNumber; intros Hop.
  - destruct (now <? updatedAt p) eqn:Hnow; [done|].
    destruct (VerifiedClaims.get claims Email) eqn:Hme, (VerifiedClaims.get claims PhoneNumber) eqn:Hmp;
      cbn in Hop; destruct (_ || _) eqn:Hv in Hop; [done| |done| |done| |done|];
      injection Hop as <-; bool_prop; unfold storable; simpl; split_and!; try done; lia.
  - destruct (now <? updatedAt p) eqn:Hnow; [done|].
    destruct (fill claims DisplayName _) as [d c1]. destruct (fill claims PreferredUsername _) as [u c2].
    set (du := match d with Some _ => _ | None => _ end) in Hop.
    destruct du as [d' c3].
    destruct (fill claims Locale _) as [l c4]. destruct (fill claims PictureUrl _) as [pic c5].
    cbn in Hop. destruct (_ || negb (validText pic 2048)) eqn:Hv in Hop; [done|].
    injection Hop as <-. bool_prop. destruct (c1 || c2 || c3 || c4 || c5);
      unfold storable; simpl; split_and!; try done; lia.
  - destruct (now <? updatedAt p) eqn:Hnow; [done|].
    destruct (_ || _) eqn:Hv in Hop; [done|]. injection Hop as <-. bool_prop.
    unfold storable; simpl; split_and!; try done; lia.
  - destruct (_ || _) eqn:Hv in Hop; [done|]. injection Hop as <-. bool_prop.
    unfold storable; simpl; split_and!; try done; lia.
  - destruct (_ || _) eqn:Hv in Hop; [done|]. injection Hop as <-. apply orb_false_iff in Hv as [Hn Hv].
    apply negb_false_iff in Hv. apply Z.ltb_ge in Hn.
    unfold storable; cbn [identity displayName preferredUsername email emailVerified phoneNumber
      phoneNumberVerified locale pictureUrl avatarSource createdAt updatedAt]; split_and!; try done; lia.
  - destruct (_ || _) eqn:Hv in Hop; [done|]. injection Hop as <-. apply orb_false_iff in Hv as [Hn Hv].
    apply negb_false_iff in Hv. apply Z.ltb_ge in Hn.
    unfold storable; cbn [identity displayName preferredUsername email emailVerified phoneNumber
      phoneNumberVerified locale pictureUrl avatarSource createdAt updatedAt]; split_and!; try done; lia.
Qed.

Lemma reachable_storable p : reachable p -> storable p.
Proof.
  induction 1 as [i c p Hc|o p p' _ IH Hop]; [|by eapply run_op_storable].
  unfold create in Hc. destruct (id_empty i) eqn:Hi; [done|]. injection Hc as <-.
  unfold storable. simpl. split_and!; try done; lia.
Qed.
End IdentityProfile.

(** ** The persistence contract and the in-memory repository *)

Class IdentityProfileRepository (T : Type) := {
  pr_save : IdentityProfile.t -> prog T Error unit;
  pr_find : T -> IdentityId -> Result (option IdentityProfile.t);
  pr_findVerifiedByEmail : T -> string -> Result (list IdentityId);
}.

(** [std::tolower] in the "C" locale. *)
Definition tolower (symbol : ascii) : ascii :=
  let byte := N_of_ascii symbol in
  if ((65 <=? byte) && (byte <=? 90))%N then ascii_of_N (byte + 32) else symbol.

Fixpoint lowercase (s : string) : string :=
  match s with "" => "" | String c s => String (tolower c) (lowercase s) end.

Module InMemoryIdentityProfileRepository.
Abbreviation t := (gmap IdentityId IdentityProfile.t).

Definition save (profile : IdentityProfile.t) : prog t Error unit := fun profiles =>
  (ok, <[IdentityProfile.identity profile := profile]> profiles).

Definition find (profiles : t) (identity : IdentityId) : Result (option IdentityProfile.t) :=
  Ok (profiles !! identity).

(** The test of the loop of [findVerifiedByEmail]. *)
Definition verified_match (needle : string) (profile : IdentityProfile.t) : bool :=
  match IdentityProfile.email profile with
  | Some email => IdentityProfile.emailVerified profile && bool_decide (lowercase email = needle)
  | None => false
  end.

Definition findVerifiedByEmail (profiles : t) (email : string) : Result (list IdentityId) :=
  Ok (filter (fun p => verified_match (lowercase email) p.2 = true) (map_iter profiles)).*1.

#[global] Instance repository : IdentityProfileRepository t := {
  pr_save := save; pr_find := find; pr_findVerifiedByEmail := findVerifiedByEmail;
}.
End InMemoryIdentityProfileRepository.

(** ** What profiles promise *)

Section profile_behaviour.
Import IdentityProfile.

(** Every profile can be read back. Whatever claims, self-service
    updates, avatar choices, addresses and numbers a profile went through, the
    members it ends with pass the checks of [restore] and give the same
    profile: the store never rejects what the domain accepted. *)
Theorem profile_persistence_roundtrip p : reachable p -> restore_fields p = Ok p.
Proof. intros Hp. by apply restore_storable, reachable_storable. Qed.

(** Presentation never overrides a choice. A successful
    [refreshPresentationClaims] keeps the display name, username, locale and
    picture that are set, fills the unset ones only from the provider's claims
    (the display name possibly from the username), and touches neither the
    email address nor the phone number nor whether they are verified. *)
Theorem refresh_keeps_choices claims now p p' :
  refreshPresentationClaims claims now p = (ok, p') ->
  (forall x, displayName p = Some x -> displayName p' = Some x) /\
  (forall x, preferredUsername p = Some x -> preferredUsername p' = Some x) /\
  (forall x, locale p = Some x -> locale p' = Some x) /\
  (forall x, pictureUrl p = Some x -> pictureUrl p' = Some x) /\
  (preferredUsername p = None -> preferredUsername p' = VerifiedClaims.get claims PreferredUsername) /\
  (displayName p = None ->
   displayName p' = VerifiedClaims.get claims DisplayName \/ displayName p' = preferredUsername p') /\
  email p' = email p /\ emailVerified p' = emailVerified p /\
  phoneNumber p' = phoneNumber p /\ phoneNumberVerified p' = phoneNumberVerified p /\
  avatarSource p' = avatarSource p /\ identity p' = identity p.
Proof.
  unfold refreshPresentationClaims. destruct (now <? updatedAt p); [done|].
  destruct (fill claims DisplayName _) as [d c1] eqn:Hd.
  destruct (fill claims PreferredUsername _) as [u c2] eqn:Hu.
  destruct (fill claims Locale _) as [l c4] eqn:Hl.
  destruct (fill claims PictureUrl _) as [pic c5] eqn:Hpic.
  pose proof (fill_keeps _ _ _ _ _ Hd) as Kd. pose proof (fill_keeps _ _ _ _ _ Hu) as Ku.
  pose proof (fill_keeps _ _ _ _ _ Hl) as Kl. pose proof (fill_keeps _ _ _ _ _ Hpic) as Kpic.
  assert (Eu : preferredUsername p = None -> u = VerifiedClaims.get claims PreferredUsername).
  { intros E. unfold fill in Hu. rewrite E in Hu. by destruct (VerifiedClaims.get _ _); injection Hu. }
  assert (Ed : displayName p = None -> d = VerifiedClaims.get claims DisplayName).
  { intros E. unfold fill in Hd. rewrite E in Hd. by destruct (VerifiedClaims.get _ _); injection Hd. }
  destruct (match d with Some _ => (d, false) | None => _ end) as [d' c3] eqn:Hd'.
  assert (Kd' : (forall x, displayName p = Some x -> d' = Some x) /\
    (displayName p = None -> d' = VerifiedClaims.get claims DisplayName \/ d' = u)).
  { destruct d, u; injection Hd' as <- <-; naive_solver. }
  destruct (_ || negb (validText _ 2048)); [done|]. intros [= <-].
  destruct Kd' as [K1 K2]. by destruct (c1 || c2 || c3 || c4 || c5); simpl; split_and!.
Qed.

Lemma tolower_idemp c : tolower (tolower c) = tolower c.
Proof. by destruct c as [[] [] [] [] [] [] [] []]. Qed.

Lemma lowercase_idemp s : lowercase (lowercase s) = lowercase s.
Proof. induction s as [|c s IH]; simpl; [done|]. by rewrite tolower_idemp, IH. Qed.

(** The look-up is exact: the identities whose verified address is the given
    one up to letter case, each once, in key order. *)
Lemma findVerifiedByEmail_spec profiles e :
  exists ids, pr_findVerifiedByEmail profiles e = Ok ids /\ NoDup ids /\
    forall i, i ∈ ids <-> exists p a, profiles !! i = Some p /\ email p = Some a /\
      emailVerified p = true /\ lowercase a = lowercase e.
Proof.
  eexists. split; [reflexivity|]. split; [apply scan_keys_NoDup|]. intros i.
  rewrite elem_of_scan_keys. simpl. unfold InMemoryIdentityProfileRepository.verified_match.
  split.
  - intros (p & Hp & Hm). destruct (email p) as [a|] eqn:Ha; [|done]. bool_prop. by exists p, a.
  - intros (p & a & Hp & Ha & Hv & Hl). exists p. split; [done|]. rewrite Ha, Hv, Hl. simpl.
    by apply bool_decide_eq_true.
Qed.
End profile_behaviour.

Section profile_witnesses.
Import IdentityProfile.

Definition sample_claims : VerifiedClaims.t :=
  VerifiedClaims.set (VerifiedClaims.set (VerifiedClaims.set VerifiedClaims.create
    Email "Alice@Example.org") EmailVerified "true") PreferredUsername "alice".
Definition sample_profile : IdentityProfile.t :=
  mk (mkId "alice") None None None false None false None None "auto" 5 5.

Lemma profile_persistence_roundtrip_witness :
  restore_fields (applyVerifiedClaims sample_claims 7 sample_profile).2
  = Ok (applyVerifiedClaims sample_claims 7 sample_profile).2.
Proof.
  apply profile_persistence_roundtrip.
  apply (reachable_op (ApplyVerifiedClaims sample_claims 7) sample_profile).
  - by apply (reachable_create (mkId "alice") 5).
  - vm_compute. reflexivity.
Defined.

Lemma refresh_keeps_choices_witness :
  email (refreshPresentationClaims sample_claims 7 sample_profile).2 = None.
Proof.
  apply (refresh_keeps_choices sample_claims 7 sample_profile).
  vm_compute. reflexivity.
Defined.
End profile_witnesses.
