(* ===== verification/Wire.v ===== *)
(** * openproof.authentication: the textual forms the broker stores and presents

    Models the file-local helpers of [src/src/authentication/service.cpp] that
    write server-side state as text and read it back: digests in hexadecimal,
    decimal integers ([std::to_string], [std::from_chars]), assurance names and
    the two-part tickets. Each reader inverts its writer. *)
From S2P Require Import Prelude Foundation Encoding Security Provider.

(** ** Digests *)

Definition kHex : string := "0123456789abcdef".

Fixpoint digestHex (digest : list byte) : string :=
  match digest with
  | [] => ""
  | value :: rest =>
      let byte := byteValue value in
      String (at_ kHex (Z.land (Z.shiftr byte 4) 15))
        (String (at_ kHex (Z.land byte 15)) (digestHex rest))
  end.

Definition nibble (value : ascii) : option Z :=
  let v := Z.of_N (N_of_ascii value) in
  if (48 <=? v) && (v <=? 57) then Some (v - 48)
  else if (97 <=? v) && (v <=? 102) then Some (v - 97 + 10)
  else if (65 <=? v) && (v <=? 70) then Some (v - 65 + 10)
  else None.

(** The loop over the octets of the digest. *)
Fixpoint parseDigestLoop (text : string) : option (list byte) :=
  match text with
  | String c0 (String c1 rest) =>
      match nibble c0, nibble c1 with
      | Some high, Some low =>
          digest ← parseDigestLoop rest; Some (toByte (Z.lor (Z.shiftl high 4) low) :: digest)
      | _, _ => None
      end
  | _ => Some []
  end.

Definition parseDigestHex (text : string) : option Sha256Digest :=
  if negb (String.length text =? kSha256Size * 2)%nat then None else parseDigestLoop text.

Lemma nibble_kHex d : 0 <= d < 16 -> nibble (at_ kHex d) = Some d.
Proof.
  intros Hd. rewrite <- (Z2Nat.id d) by lia. assert (Hn : (Z.to_nat d < 16)%nat) by lia.
  revert Hn. generalize (Z.to_nat d). clear.
  do 16 (intros [|n]; [vm_compute; reflexivity|]; revert n). lia.
Qed.

Lemma digestHex_length digest : String.length (digestHex digest) = (length digest * 2)%nat.
Proof. induction digest as [|b digest IH]; simpl; [done|]. by rewrite IH. Qed.

Lemma parseDigestHex_digestHex digest :
  length digest = kSha256Size -> parseDigestHex (digestHex digest) = Some digest.
Proof.
  intros Hlen. unfold parseDigestHex. rewrite digestHex_length, Hlen, Nat.eqb_refl. simpl. clear Hlen.
  induction digest as [|b digest IH]; [done|]. cbn [digestHex parseDigestLoop].
  pose proof (byteValue_range b) as Hb.
  rewrite (land_low _ 4 15), (land_low _ 4 15), (shiftr_div _ 4 16) by lia.
  rewrite !nibble_kHex by (apply Z.mod_pos_bound; lia). rewrite IH. simpl.
  rewrite lor_shiftl_add by (try lia; apply Z.mod_pos_bound; lia).
  do 2 f_equal. rewrite <- (toByte_byteValue b) at 3. f_equal.
  rewrite (Z.mod_small (byteValue b / 2 ^ 4)) by (split; [by apply Z.div_pos; lia|apply Z.div_lt_upper_bound; lia]).
  pose proof (Z.div_mod (byteValue b) 16 ltac:(lia)). change (2 ^ 4) with 16. lia.
Qed.

(** ** Decimal integers *)

Definition digit (d : Z) : ascii := ascii_of_N (Z.to_N (48 + d)).
Definition digit_value (c : ascii) : option Z :=
  let v := Z.of_N (N_of_ascii c) in if (48 <=? v) && (v <=? 57) then Some (v - 48) else None.

Fixpoint digits (fuel : nat) (n : Z) (acc : string) : string :=
  match fuel with
  | O => acc
  | S fuel => if n <? 10 then String (digit n) acc else digits fuel (n / 10) (String (digit (n mod 10)) acc)
  end.

(** [std::to_string]: the fuel exceeds the number of binary digits. *)
Definition to_string (n : Z) : string :=
  let magnitude := digits (S (Z.to_nat (Z.log2 (Z.abs n)))) (Z.abs n) "" in
  if n <? 0 then String "-" magnitude else magnitude.

Fixpoint digits_value (s : string) (acc : Z) : option Z :=
  match s with
  | "" => Some acc
  | String c s => d ← digit_value c; digits_value s (acc * 10 + d)
  end.

(** [std::from_chars] in base 10 on the whole text, as the broker requires
    ([ec] clear and [ptr] at the end): at least one digit, a minus sign for
    signed types only, the value within the type. *)
Definition from_chars (is_signed : bool) (low high : Z) (text : string) : option Z :=
  let in_range v := if (low <=? v) && (v <=? high) then Some v else None in
  match text with
  | "" => None
  | String c rest =>
      if is_signed && bool_decide (c = "-"%char) then
        if bool_decide (rest = "") then None else v ← digits_value rest 0; in_range (- v)
      else v ← digits_value text 0; in_range v
  end.

Definition from_chars_unsigned : string -> option Z := from_chars false 0 4294967295.
Definition from_chars_int64 : string -> option Z :=
  from_chars true (- 9223372036854775808) 9223372036854775807.

Lemma digit_value_digit d : 0 <= d < 10 -> digit_value (digit d) = Some d.
Proof.
  intros Hd. unfold digit_value, digit. rewrite N_ascii_embedding by lia.
  rewrite Z2N.id by lia. destruct ((48 <=? 48 + d) && (48 + d <=? 57)) eqn:E; [f_equal; lia|].
  apply andb_false_iff in E as [E|E]; apply Z.leb_gt in E; lia.
Qed.

Lemma digits_parse fuel n acc :
  0 <= n -> n < 2 ^ Z.of_nat fuel -> (0 < fuel)%nat ->
  digits_value (digits fuel n acc) 0 = digits_value acc n.
Proof.
  revert n acc. induction fuel as [|fuel IH]; intros n acc H0 Hlt Hf; [lia|]. cbn [digits].
  destruct (Z.ltb_spec n 10) as [H10|H10].
  - cbn [digits_value]. rewrite digit_value_digit by lia. simpl. f_equal. 
  - assert (Hpow : 2 ^ Z.of_nat (S fuel) = 2 * 2 ^ Z.of_nat fuel)
      by (rewrite Nat2Z.inj_succ, Z.pow_succ_r by lia; done).
    pose proof (Z.div_mod n 10 ltac:(lia)) as Hdm. pose proof (Z.mod_pos_bound n 10 ltac:(lia)) as Hm.
    rewrite IH; [|apply Z.div_pos; lia|apply Z.div_lt_upper_bound; lia|].
    + cbn [digits_value]. rewrite digit_value_digit by done. simpl. f_equal. lia.
    + destruct fuel; [|lia]. simpl in Hlt. lia.
Qed.

Lemma digits_nonempty fuel n acc : (0 < fuel)%nat -> digits fuel n acc <> "".
Proof.
  revert n acc. induction fuel as [|fuel IH]; intros n acc Hf; [lia|]. simpl.
  case_match; [done|]. destruct fuel; [done|]. apply IH. lia.
Qed.

(** A rendering of a non-negative number starts with a digit. *)
Lemma digits_head fuel n acc c s :
  0 <= n -> (0 < fuel)%nat -> n < 2 ^ Z.of_nat fuel -> digits fuel n acc = String c s -> c <> "-"%char.
Proof.
  revert n acc. induction fuel as [|fuel IH]; intros n acc H0 Hf Hlt; [lia|]. cbn [digits].
  destruct (Z.ltb_spec n 10) as [H10|H10].
  - intros [= <- <-] E. pose proof (digit_value_digit n ltac:(lia)) as Hd. by rewrite E in Hd.
  - assert (Hpow : 2 ^ Z.of_nat (S fuel) = 2 * 2 ^ Z.of_nat fuel)
      by (rewrite Nat2Z.inj_succ, Z.pow_succ_r by lia; done).
    apply IH; [apply Z.div_pos; lia| |apply Z.div_lt_upper_bound; lia].
    destruct fuel; [|lia]. simpl in Hlt. lia.
Qed.

Lemma from_chars_to_string is_signed low high n :
  0 <= n -> low <= n <= high -> from_chars is_signed low high (to_string n) = Some n.
Proof.
  intros H0 Hr. unfold to_string. destruct (Z.ltb_spec n 0); [lia|]. rewrite Z.abs_eq by done.
  set (fuel := S (Z.to_nat (Z.log2 n))).
  assert (Hlt : n < 2 ^ Z.of_nat fuel).
  { unfold fuel. rewrite Nat2Z.inj_succ, Z2Nat.id by apply Z.log2_nonneg.
    destruct (decide (n = 0)) as [->|]; [done|]. apply Z.log2_spec. lia. }
  unfold from_chars. destruct (digits fuel n "") as [|c s] eqn:Hd.
  { exfalso. eapply digits_nonempty; [|exact Hd]. unfold fuel. lia. }
  pose proof (digits_head fuel n "" c s H0 ltac:(unfold fuel; lia) Hlt Hd) as Hc.
  rewrite bool_decide_eq_false_2, andb_false_r by done. rewrite <-Hd.
  rewrite digits_parse by (try done; unfold fuel; lia). simpl.
  by rewrite (proj2 (Z.leb_le _ _) (proj1 Hr)), (proj2 (Z.leb_le _ _) (proj2 Hr)).
Qed.

(** The digits of a magnitude, and the fuel that is enough for them. *)
Lemma magnitude_fuel n : 0 <= n -> n < 2 ^ Z.of_nat (S (Z.to_nat (Z.log2 n))).
Proof.
  intros H0. rewrite Nat2Z.inj_succ, Z2Nat.id by apply Z.log2_nonneg.
  destruct (decide (n = 0)) as [->|]; [done|]. apply Z.log2_spec. lia.
Qed.

Lemma magnitude_value n : 0 <= n -> digits_value (digits (S (Z.to_nat (Z.log2 n))) n "") 0 = Some n.
Proof. intros H0. by rewrite digits_parse by (try lia; by apply magnitude_fuel). Qed.

Lemma magnitude_head n s : 0 <= n -> digits (S (Z.to_nat (Z.log2 n))) n "" <> String "-" s.
Proof.
  intros H0 E. eapply (digits_head (S (Z.to_nat (Z.log2 n)))); [exact H0|lia|by apply magnitude_fuel|exact E|done].
Qed.

(** Different numbers have different texts. *)
Lemma to_string_inj n m : to_string n = to_string m -> n = m.
Proof.
  unfold to_string. intros E.
  pose proof (magnitude_value (Z.abs n) (Z.abs_nonneg n)) as Hn.
  pose proof (magnitude_value (Z.abs m) (Z.abs_nonneg m)) as Hm.
  pose proof (fun s => magnitude_head (Z.abs n) s (Z.abs_nonneg n)) as Dn.
  pose proof (fun s => magnitude_head (Z.abs m) s (Z.abs_nonneg m)) as Dm.
  remember (digits _ (Z.abs n) "") as dn eqn:Edn. remember (digits _ (Z.abs m) "") as dm eqn:Edm. clear Edn Edm.
  destruct (Z.ltb_spec n 0), (Z.ltb_spec m 0).
  - injection E as ->. assert (Z.abs n = Z.abs m) by congruence. lia.
  - by destruct (Dm _ (eq_sym E)).
  - by destruct (Dn _ E).
  - subst dn. assert (Z.abs n = Z.abs m) by congruence. lia.
Qed.

Lemma digits_octets p fuel n acc :
  0 <= n -> (forall d, 0 <= d < 10 -> p (digit d) = true) -> all_octets p (digits fuel n acc) = all_octets p acc.
Proof.
  intros H0 Hp. revert n acc H0. induction fuel as [|fuel IH]; intros n acc H0; simpl; [done|].
  destruct (Z.ltb_spec n 10); simpl; [by rewrite Hp by lia|].
  pose proof (Z.mod_pos_bound n 10 ltac:(lia)). rewrite IH by (apply Z.div_pos; lia). simpl. by rewrite Hp by lia.
Qed.

(** A text consists of digits and at most a leading minus sign. *)
Lemma to_string_octets p n :
  p "-"%char = true -> (forall d, 0 <= d < 10 -> p (digit d) = true) -> all_octets p (to_string n) = true.
Proof.
  intros Hm Hp. assert (H : all_octets p (digits (S (Z.to_nat (Z.log2 (Z.abs n)))) (Z.abs n) "") = true)
    by (rewrite digits_octets by (done || apply Z.abs_nonneg); done).
  unfold to_string. case_match; [|exact H]. cbn [all_octets]. by rewrite Hm, H.
Qed.

(** A number below [10 ^ k] has at most [k] digits. *)
Lemma digits_length fuel n acc k :
  0 <= n < 10 ^ Z.of_nat k -> (0 < k)%nat -> (String.length (digits fuel n acc) <= k + String.length acc)%nat.
Proof.
  revert n acc k. induction fuel as [|fuel IH]; intros n acc k Hn Hk; simpl; [lia|].
  destruct (Z.ltb_spec n 10); [simpl; lia|]. destruct k as [|[|k]]; [lia|simpl in Hn; lia|].
  assert (Hq : 0 <= n / 10 < 10 ^ Z.of_nat (S k)).
  { split; [apply Z.div_pos; lia|]. apply Z.div_lt_upper_bound; [lia|].
    rewrite <- Z.pow_succ_r, <- Nat2Z.inj_succ by lia. lia. }
  specialize (IH (n / 10) (String (digit (n mod 10)) acc) (S k) Hq ltac:(lia)). simpl in *. lia.
Qed.

Lemma to_string_length n k : 0 <= n < 10 ^ Z.of_nat k -> (0 < k)%nat -> (String.length (to_string n) <= k)%nat.
Proof.
  intros Hn Hk. unfold to_string. destruct (Z.ltb_spec n 0); [lia|]. rewrite Z.abs_eq by lia.
  pose proof (digits_length (S (Z.to_nat (Z.log2 n))) n "" k Hn Hk). simpl in *. lia.
Qed.

(** ** Fixed widths *)

(** [std::format] with a width and leading zeros, for numbers that are not negative. *)
Definition zero_padded (width : Z) (n : Z) : string :=
  let text := to_string n in
  Nat.iter (Z.to_nat width - String.length text)%nat (String "0") text.

Lemma iter_zero_length n s : String.length (Nat.iter n (String "0") s) = (n + String.length s)%nat.
Proof. induction n as [|n IH]; simpl; [done|]. by rewrite IH. Qed.

Lemma iter_zero_octets p n s : p "0"%char = true -> all_octets p (Nat.iter n (String "0") s) = all_octets p s.
Proof. intros Hp. induction n as [|n IH]; simpl; [done|]. by rewrite Hp, IH. Qed.

(** Leading zeros do not change the value. *)
Lemma digits_value_zeros n s : digits_value (Nat.iter n (String "0") s) 0 = digits_value s 0.
Proof. induction n as [|n IH]; [done|]. exact IH. Qed.

Lemma zero_padded_length width n :
  0 <= n < 10 ^ width -> 0 < width -> String.length (zero_padded width n) = Z.to_nat width.
Proof.
  intros Hn Hw. unfold zero_padded. rewrite iter_zero_length.
  pose proof (to_string_length n (Z.to_nat width) ltac:(rewrite Z2Nat.id by lia; lia) ltac:(lia)). lia.
Qed.

Lemma from_chars_zero_padded width n : 0 <= n <= 4294967295 -> from_chars_unsigned (zero_padded width n) = Some n.
Proof.
  intros Hn. unfold from_chars_unsigned, from_chars, zero_padded. set (k := (_ - _)%nat).
  assert (exists c s, to_string n = String c s) as (c & s & E).
  { unfold to_string. destruct (Z.ltb_spec n 0); [lia|]. rewrite Z.abs_eq by lia.
    destruct (digits (S (Z.to_nat (Z.log2 n))) n "") eqn:E; [|eauto]. by apply digits_nonempty in E; [|lia]. }
  assert (digits_value (Nat.iter k (String "0") (to_string n)) 0 = Some n) as Hv.
  { rewrite digits_value_zeros. unfold to_string. destruct (Z.ltb_spec n 0); [lia|].
    rewrite Z.abs_eq by lia. apply magnitude_value. lia. }
  destruct (Nat.iter k (String "0") (to_string n)) as [|c' s'] eqn:Ek.
  { by destruct k; rewrite E in Ek. }
  cbn [andb]. rewrite Hv. cbn. rewrite (proj2 (Z.leb_le 0 n)), (proj2 (Z.leb_le n 4294967295)) by lia. done.
Qed.

Lemma zero_padded_octets p width n : 0 <= n -> (forall d, 0 <= d < 10 -> p (digit d) = true) ->
  all_octets p (zero_padded width n) = true.
Proof.
  intros Hn Hp. unfold zero_padded. rewrite iter_zero_octets by apply (Hp 0 ltac:(lia)).
  unfold to_string. destruct (Z.ltb_spec n 0); [lia|]. by rewrite digits_octets by (done || lia).
Qed.

(** ** Assurance names *)

Definition parseAssurance (value : string) : option AssuranceLevel :=
  List.find (fun level => bool_decide (assuranceLevelName level = value)) [Ial0; Ial1; Ial2; Ial3; Ial4].

Lemma parseAssurance_name level : parseAssurance (assuranceLevelName level) = Some level.
Proof. by destruct level. Qed.

(** ** Tickets: an identifier, a dot and a secret *)

(** [text.find('.')]: what precedes and what follows the first dot. *)
Fixpoint split_at_dot (text : string) : option (string * string) :=
  match text with
  | "" => None
  | String c rest =>
      if bool_decide (c = "."%char) then Some ("", rest)
      else match split_at_dot rest with
           | Some (before, after) => Some (String c before, after)
           | None => None
           end
  end.

(** The well-formedness test the three redeeming functions share: a separator
    that is neither first nor last, at most 256 octets, no second separator. *)
Definition split_ticket (presented : string) : option (string * string) :=
  match split_at_dot presented with
  | None => None
  | Some (before, after) =>
      if bool_decide (before = "") || bool_decide (after = "")
         || (256 <? Z.of_nat (String.length presented))
         || bool_decide (is_Some (split_at_dot after)) then None
      else Some (before, after)
  end.

Lemma split_at_dot_app a b : split_at_dot a = None -> split_at_dot (a +:+ "." +:+ b) = Some (a, b).
Proof.
  induction a as [|c a IH]; [done|]. rewrite sapp_cons. simpl. case_bool_decide; [done|].
  destruct (split_at_dot a) as [[]|]; [done|]. intros _. by rewrite IH.
Qed.

Lemma split_ticket_app a b :
  split_at_dot a = None -> split_at_dot b = None -> a <> "" -> b <> "" ->
  (String.length a + String.length b <= 255)%nat -> split_ticket (a +:+ "." +:+ b) = Some (a, b).
Proof.
  intros Ha Hb Hna Hnb Hlen. unfold split_ticket. rewrite split_at_dot_app by done.
  rewrite !bool_decide_eq_false_2; [|rewrite Hb; by intros []|done..].
  destruct (Z.ltb_spec 256 (Z.of_nat (String.length (a +:+ "." +:+ b)))) as [H|]; [|done].
  rewrite !slength_app in H. simpl in H. lia.
Qed.

(** base64url text holds no dot. *)
Lemma symbolAt_not_dot d : 0 <= d < 64 -> symbolAt d <> "."%char.
Proof.
  intros Hd E. pose proof (symbol_decodes d Hd) as Hs. rewrite E in Hs. vm_compute in Hs. lia.
Qed.

Lemma split_at_dot_cons c s : c <> "."%char -> split_at_dot s = None -> split_at_dot (String c s) = None.
Proof. intros Hc Hs. simpl. by rewrite bool_decide_eq_false_2, Hs. Qed.

Lemma toBase64Url_no_dot bytes : split_at_dot (toBase64Url bytes) = None.
Proof.
  induction bytes as [|b0|b0 b1|b0 b1 b2 bytes IH] using list_ind3; [done|..].
  - rewrite toBase64Url_single. pose proof (byteValue_range b0).
    by repeat apply split_at_dot_cons; try (apply symbolAt_not_dot; div_mod).
  - rewrite toBase64Url_pair. pose proof (byteValue_range b0). pose proof (byteValue_range b1).
    by repeat apply split_at_dot_cons; try (apply symbolAt_not_dot; div_mod).
  - rewrite toBase64Url_quad. pose proof (byteValue_range b0). pose proof (byteValue_range b1).
    pose proof (byteValue_range b2).
    by repeat apply split_at_dot_cons; try (apply symbolAt_not_dot; div_mod).
Qed.

Lemma toBase64Url_size bytes : (String.length (toBase64Url bytes) <= 2 * length bytes)%nat.
Proof.
  induction bytes as [|b0|b0 b1|b0 b1 b2 bytes IH] using list_ind3; [simpl; lia..|].
  rewrite toBase64Url_quad. simpl in *. lia.
Qed.

Lemma toBase64Url_nonempty bytes : bytes <> [] -> toBase64Url bytes <> "".
Proof.
  destruct bytes as [|b0 [|b1 [|b2 bytes]]]; [done|..]; intros _.
  - by rewrite toBase64Url_single.
  - by rewrite toBase64Url_pair.
  - by rewrite toBase64Url_quad.
Qed.

(** A ticket made of two generated tokens is always well formed. *)
Lemma split_ticket_tokens bytes1 bytes2 :
  length bytes1 = 32%nat -> length bytes2 = 32%nat ->
  split_ticket (toBase64Url bytes1 +:+ "." +:+ toBase64Url bytes2)
  = Some (toBase64Url bytes1, toBase64Url bytes2).
Proof.
  intros H1 H2. pose proof (toBase64Url_size bytes1). pose proof (toBase64Url_size bytes2).
  apply split_ticket_app; try apply toBase64Url_no_dot; try apply toBase64Url_nonempty; [..|lia];
    intros E; by rewrite E in *.
Qed.

(** ** Length-prefixed parts

    The texts the audit log and the gateway authenticate: each value after its
    length and a colon. *)

(** [appendPart]: what it appends to the output. *)
Definition part (value : string) : string := to_string (Z.of_nat (String.length value)) +:+ ":" +:+ value.

Fixpoint concat_parts (values : list string) : string :=
  match values with [] => "" | value :: values => part value +:+ concat_parts values end.

Definition colon (c : ascii) : bool := bool_decide (c = ":"%char).

Lemma to_string_no_colon n : any_octet colon (to_string n) = false.
Proof.
  pose proof (to_string_octets (fun c => negb (colon c)) n) as H. rewrite all_octets_any in H.
  apply negb_true_iff. rewrite <- H; [f_equal|done|].
  - generalize (to_string n). induction s as [|c s IH]; simpl; [done|]. by rewrite IH, negb_involutive.
  - intros d Hd. rewrite <- (Z2Nat.id d) by lia. assert (Hn : (Z.to_nat d < 10)%nat) by lia.
    revert Hn. generalize (Z.to_nat d). clear. do 10 (intros [|n]; [vm_compute; reflexivity|]; revert n). lia.
Qed.

Lemma sapp_inj_length a b s t : String.length a = String.length b -> a +:+ s = b +:+ t -> a = b /\ s = t.
Proof.
  revert b. induction a as [|c a IH]; intros [|d b] Hl; try discriminate Hl; autorewrite with sapp.
  - intros ->. done.
  - intros [= -> E]. injection Hl as Hl. by destruct (IH b Hl E) as [-> ->].
Qed.

(** A part announces its length, so it can be split off in one way. *)
Lemma part_inj a b s t : part a +:+ s = part b +:+ t -> a = b /\ s = t.
Proof.
  unfold part. autorewrite with sapp. intros E.
  assert (H : forall v r, split_first colon (to_string (Z.of_nat (String.length v)) +:+ String ":" (v +:+ r))
                          = (to_string (Z.of_nat (String.length v)), String ":" (v +:+ r))).
  { intros v r. apply split_first_spec. split; [done|]. split; [apply to_string_no_colon|by right]. }
  pose proof (H a s) as Ha. rewrite E, H in Ha. injection Ha as Hl Hr.
  apply to_string_inj in Hl. symmetry in Hr. apply sapp_inj_length in Hr; [done|lia].
Qed.

Lemma concat_parts_inj values values' : concat_parts values = concat_parts values' -> values = values'.
Proof.
  assert (Hne : forall v r, part v +:+ r <> "").
  { intros v r E%(f_equal String.length). unfold part in E. rewrite !slength_app in E. simpl in E. lia. }
  revert values'. induction values as [|v values IH]; intros [|v' values']; simpl; intros E; [done| | |].
  - by destruct (Hne v' (concat_parts values')).
  - by destruct (Hne v (concat_parts values)).
  - apply part_inj in E as [-> E]. f_equal. by apply IH.
Qed.
