(* ===== verification/Authentication.v ===== *)
(** * openproof.authentication: the trusted coordinator of every exchange

    Models [src/src/authentication/service.cpp]. The broker is written against
    the contracts of the transaction store, the external identity directory, the
    identity repository and the profile repository; its collaborators' states
    and the platform's world are the components of [broker]. Providers are
    foreign code: each call may fail, throw or lie. *)
From S2P Require Import Prelude Foundation Encoding Security Provider Transaction IdentityCore Link Profile Wire.

(** ** Constants *)

Definition kIdentifierEntropyBytes : nat := 32.
Definition kContinuationEntropyBytes : nat := 32.
Definition kChallengeIdMetadata := "challenge_id".
Definition kRequestedAssuranceMetadata := "requested_assurance".
Definition kConnectionIdentityMetadata := "connection_identity".
Definition kHandoffProvider := "openproof-browser-handoff".
Definition kHandoffIdentityMetadata := "handoff_identity".
Definition kHandoffProviderMetadata := "handoff_provider".
Definition kHandoffReturnMetadata := "handoff_return".
Definition kAuthenticationHandoffProvider := "openproof-browser-auth-handoff".
Definition kAuthenticationHandoffResultProvider := "openproof-browser-auth-result".
Definition kAuthenticationHandoffResultIdMetadata := "auth_handoff_result_id".
Definition kAuthenticationHandoffRedeemDigestMetadata := "auth_handoff_redeem_digest".
Definition kAuthenticationHandoffIdentityMetadata := "auth_handoff_identity".
Definition kAuthenticationHandoffSubjectMetadata := "auth_handoff_subject".
Definition kAuthenticationHandoffAssuranceMetadata := "auth_handoff_assurance".
Definition kAuthenticationHandoffFactorsMetadata := "auth_handoff_factors".
Definition kAuthenticationHandoffPhishingMetadata := "auth_handoff_phishing".
Definition kAuthenticationHandoffVerifiedAtMetadata := "auth_handoff_verified_at".
Definition kBrowserHandoffLifetime : Duration := minutes 2.

Definition authenticationFailure (detail : string) : Error :=
  Error_ofDetail AuthenticationFailed (defaultErrorMessage AuthenticationFailed) detail.

Definition presentationClaim (claims : VerifiedClaims.t) (name : ClaimName) (maximum : Z)
    : option string :=
  match VerifiedClaims.get claims name with
  | None => None
  | Some value =>
      if bool_decide (value = "") || (maximum <? Z.of_nat (String.length value)) then None else Some value
  end.

Definition externalFromOutcome (outcome : AuthenticationOutcome.t) : ExternalIdentityRef.t :=
  ExternalIdentityRef.mk (AuthenticationOutcome.provider outcome) (AuthenticationOutcome.subject outcome)
    (presentationClaim (AuthenticationOutcome.claims outcome) DisplayName 256)
    (presentationClaim (AuthenticationOutcome.claims outcome) PreferredUsername 128)
    (presentationClaim (AuthenticationOutcome.claims outcome) PictureUrl 2048).

(** ** Operator trust *)

Module ProviderTrustPolicy.
Record t := mk {
  m_maximums : gmap ProviderId AssuranceLevel;
  m_selfProvisioning : gmap ProviderId bool;
}.

Definition empty : t := mk ∅ ∅.

Definition trust (providerId : ProviderId) (maximum : AssuranceLevel) (allowSelfProvisioning : bool)
    : prog t Error unit := fun policy =>
  if id_empty providerId then
    (fail InvalidArgument "A provider trust rule must name a provider.", policy)
  else if bool_decide (is_Some (m_maximums policy !! providerId)) then
    (failDetail AlreadyExists "A trust rule for that provider already exists."
       "Duplicate provider assurance policy was rejected instead of silently replacing the operator-reviewed cap.", policy)
  else
    (ok, mk (<[providerId := maximum]> (m_maximums policy))
            (* [map::emplace] keeps an existing entry *)
            (match m_selfProvisioning policy !! providerId with
             | Some _ => m_selfProvisioning policy
             | None => <[providerId := allowSelfProvisioning]> (m_selfProvisioning policy)
             end)).

Definition maySelfProvision (policy : t) (providerId : ProviderId) : bool :=
  default false (m_selfProvisioning policy !! providerId).

Definition maximumFor (policy : t) (providerId : ProviderId) : option AssuranceLevel :=
  m_maximums policy !! providerId.
End ProviderTrustPolicy.

(** ** Results of the broker *)

Module AuthenticationStart.
Record t := mk {
  transactionId : TransactionId;
  challenge : AuthenticationChallenge.t;
  continuationToken : string;
}.
End AuthenticationStart.

(** Only the broker builds one: its constructor is private to the service. *)
Module VerifiedAuthentication.
Record t := mk { outcome : AuthenticationOutcome.t; identity : IdentityId }.
End VerifiedAuthentication.

Module BrowserConnectionHandoff.
Record t := mk { ticket : string; expiresAt : Instant }.
End BrowserConnectionHandoff.

Module BrowserConnectionTarget.
Record t := mk { identity : IdentityId; providerId : ProviderId; returnTarget : string }.
End BrowserConnectionTarget.

Module BrowserAuthenticationHandoff.
Record t := mk { publisherTicket : string; redeemTicket : string; expiresAt : Instant }.
End BrowserAuthenticationHandoff.

Module CompletedExchange.
Record t := mk {
  outcome : AuthenticationOutcome.t;
  connectionTarget : option IdentityId;
  completedAt : Instant;
}.
End CompletedExchange.

(** ** The service *)

(** What the constructor of [AuthenticationService] stores and never changes.
    [hasLifecycle] and [hasProfiles] tell whether the optional repositories are
    installed (the pointers are not null). *)
Module Configuration.
Record t `{Platform} := mk {
  providers : ProviderRegistry.t;
  trustPolicy : ProviderTrustPolicy.t;
  maximumTransactionLifetime : Duration;
  hasLifecycle : bool;
  organization : OrganizationId;
  hasProfiles : bool;
}.
Arguments mk {_}.

(** The constructor: a lifetime that is not positive ends the process. *)
Definition construct `{Platform} (providers : ProviderRegistry.t) (trustPolicy : ProviderTrustPolicy.t)
    (maximumTransactionLifetime : Duration) (hasLifecycle : bool) (organization : OrganizationId)
    (hasProfiles : bool) : Result t :=
  _ ← requireInvariant (0 <? maximumTransactionLifetime);
  Ok (mk providers trustPolicy maximumTransactionLifetime hasLifecycle organization hasProfiles).
End Configuration.

(** The state behind the references: the stores and the platform. *)
Record broker (T D I P W : Type) := mkBroker {
  m_transactions : T;
  m_identities : D;
  m_lifecycle : I;
  m_profiles : P;
  m_world : W;
}.
Arguments mkBroker {T D I P W}.
Arguments m_transactions {T D I P W}.
Arguments m_identities {T D I P W}.
Arguments m_lifecycle {T D I P W}.
Arguments m_profiles {T D I P W}.
Arguments m_world {T D I P W}.

Module AuthenticationService.
Section service.
Context `{Plat : Platform}.
Context {T D I P : Type}
  `{AuthenticationTransactionStore T, ExternalIdentityDirectory D, IdentityRepository I,
    IdentityProfileRepository P}.
Context (config : Configuration.t).

Abbreviation state := (broker T D I P world).
Abbreviation handler A := (prog state Error A).

Definition on_transactions {A} (m : prog T Error A) : handler A :=
  zoom m_transactions (fun x b => mkBroker x (m_identities b) (m_lifecycle b) (m_profiles b) (m_world b)) m.
Definition on_identities {A} (m : prog D Error A) : handler A :=
  zoom m_identities (fun x b => mkBroker (m_transactions b) x (m_lifecycle b) (m_profiles b) (m_world b)) m.
Definition on_lifecycle {A} (m : prog I Error A) : handler A :=
  zoom m_lifecycle (fun x b => mkBroker (m_transactions b) (m_identities b) x (m_profiles b) (m_world b)) m.
Definition on_profiles {A} (m : prog P Error A) : handler A :=
  zoom m_profiles (fun x b => mkBroker (m_transactions b) (m_identities b) (m_lifecycle b) x (m_world b)) m.
Definition on_world {A} (m : prog world Error A) : handler A :=
  zoom m_world (fun x b => mkBroker (m_transactions b) (m_identities b) (m_lifecycle b) (m_profiles b) x) m.

(** Queries: [const] member functions of the collaborators. *)
Definition ask {A} (f : state -> Result A) : handler A := fun b => (f b, b).

Definition effectiveMaximum (implementation : AuthenticationProvider.t) (providerId : ProviderId)
    : option AssuranceLevel :=
  match ProviderTrustPolicy.maximumFor (Configuration.trustPolicy config) providerId with
  | None => None
  | Some configured =>
      Some (minAssurance configured (AuthenticationProvider.maximumClaimableAssurance implementation))
  end.

Definition requireActiveIdentity (identity : IdentityId) : handler unit :=
  if negb (Configuration.hasLifecycle config) then mret tt
  else if id_empty (Configuration.organization config) then
    throw (authenticationFailure "Authentication lifecycle gate is configured without an organization.")
  else
    canonical ← ask (fun b => ir_findById (m_lifecycle b) (Configuration.organization config) identity);
    match canonical with
    | Some canonical =>
        if Identity.canAuthenticate canonical then mret tt
        else throw (authenticationFailure "Authentication refused by canonical identity lifecycle state.")
    | None => throw (authenticationFailure "Authentication refused by canonical identity lifecycle state.")
    end.

(** The [try] block around [beginAuthentication]. *)
Definition callBegin (implementation : AuthenticationProvider.t) (request : AuthenticationRequest.t)
    : prog world Error AuthenticationChallenge.t := fun w =>
  match AuthenticationProvider.beginAuthentication implementation request w with
  | (Some (Ok challenge), w) => (Ok challenge, w)
  | (Some (Err _), w) =>
      (Err (authenticationFailure "Authentication provider rejected the start operation."), w)
  | (Some Aborted, w) => (Aborted, w)
  | (None, w) =>
      (Err (authenticationFailure "Authentication provider threw while starting an exchange."), w)
  end.

(** The [try] block around [completeAuthentication]. *)
Definition callComplete (implementation : AuthenticationProvider.t) (response : AuthenticationResponse.t)
    : prog world Error AuthenticationOutcome.t := fun w =>
  match AuthenticationProvider.completeAuthentication implementation response w with
  | (Some (Ok outcome), w) => (Ok outcome, w)
  | (Some (Err e), w) =>
      (Err (authenticationFailure
              ("Authentication provider rejected the completion operation."
               +:+ if hasInternalDetail e then " Provider detail: " +:+ error_internalDetail e else "")), w)
  | (Some Aborted, w) => (Aborted, w)
  | (None, w) =>
      (Err (authenticationFailure "Authentication provider threw while completing an exchange."), w)
  end.

Definition beginInternal (request : AuthenticationRequest.t) (binding : BindingDigest)
    (correlation : CorrelationId) (connectionTarget : option IdentityId)
    : handler AuthenticationStart.t :=
  let providerId := AuthenticationRequest.provider request in
  match ProviderRegistry.find (Configuration.providers config) providerId with
  | None => throw (authenticationFailure "Authentication start refused: provider is not registered.")
  | Some implementation =>
  match effectiveMaximum implementation providerId with
  | None => throw (authenticationFailure "Authentication start refused: provider has no operator trust policy.")
  | Some maximum =>
  if match AuthenticationRequest.requestedAssurance request with
     | Some requested => negb (meetsAssurance maximum requested)
     | None => false
     end then
    throw (Error_ofDetail AssuranceInsufficient (defaultErrorMessage AssuranceInsufficient)
             "Requested assurance exceeds the lower of the provider-declared and operator-configured caps.")
  else
    challenge ← on_world (callBegin implementation request);
    now ← on_world now;
    if id_empty (AuthenticationChallenge.id challenge)
       || AuthenticationChallenge.isExpiredAt challenge now then
      throw (authenticationFailure "Provider returned an empty or already-expired challenge.")
    else
      generatedId ← on_world (randomTokenBase64Url kIdentifierEntropyBytes);
      generatedContinuation ← on_world (randomTokenBase64Url kContinuationEntropyBytes);
      let transactionId : TransactionId := mkId generatedId in
      let challengeLifetime := AuthenticationChallenge.expiresAt challenge - now in
      let lifetime := Z.min challengeLifetime (Configuration.maximumTransactionLifetime config) in
      transaction ← lift (AuthenticationTransaction.create transactionId providerId
        (AuthenticationProvider.interactionModel implementation) generatedContinuation binding
        correlation now lifetime);
      let transaction := AuthenticationTransaction.setMetadata transaction kChallengeIdMetadata
        (id_value (AuthenticationChallenge.id challenge)) in
      let transaction :=
        match AuthenticationRequest.requestedAssurance request with
        | Some requested => AuthenticationTransaction.setMetadata transaction
            kRequestedAssuranceMetadata (assuranceLevelName requested)
        | None => transaction
        end in
      let transaction :=
        match connectionTarget with
        | Some target => AuthenticationTransaction.setMetadata transaction
            kConnectionIdentityMetadata (id_value target)
        | None => transaction
        end in
      _ ← on_transactions (ts_begin transaction);
      mret (AuthenticationStart.mk transactionId challenge generatedContinuation)
  end end.

Definition begin (request : AuthenticationRequest.t) (binding : BindingDigest)
    (correlation : CorrelationId) : handler AuthenticationStart.t :=
  beginInternal request binding correlation None.

Definition beginConnection (request : AuthenticationRequest.t) (binding : BindingDigest)
    (correlation : CorrelationId) (identity : IdentityId) : handler AuthenticationStart.t :=
  if id_empty identity then
    throw (Error_ofMessage InvalidArgument "A connection ceremony requires a canonical identity.")
  else
    _ ← requireActiveIdentity identity;
    beginInternal request binding correlation (Some identity).

Definition completeExchange (transactionId : TransactionId) (continuationToken : string)
    (binding : BindingDigest) (response : AuthenticationResponse.t) (requireConnection : bool)
    : handler CompletedExchange.t :=
  now ← on_world now;
  transaction ← on_transactions (ts_consume transactionId continuationToken binding now);
  let metadata := AuthenticationTransaction.metadata transaction in
  if negb (bool_decide (metadata !! kChallengeIdMetadata
                        = Some (id_value (AuthenticationResponse.challengeId response)))) then
    throw (authenticationFailure "Authentication completion refused: challenge identifier does not match the server-side transaction.")
  else
  let providerId := AuthenticationTransaction.provider transaction in
  match ProviderRegistry.find (Configuration.providers config) providerId with
  | None => throw (authenticationFailure "Authentication completion refused: transaction provider is no longer registered.")
  | Some implementation =>
  match effectiveMaximum implementation providerId with
  | None => throw (authenticationFailure "Authentication completion refused: provider trust policy is absent.")
  | Some maximum =>
    outcome ← on_world (callComplete implementation response);
    completionFinishedAt ← on_world Security.now;
    if negb (bool_decide (AuthenticationOutcome.provider outcome = providerId)) then
      throw (authenticationFailure "Provider returned an outcome under a different provider identifier.")
    else if negb (meetsAssurance maximum (AuthenticationOutcome.claimedAssurance outcome)) then
      throw (authenticationFailure "Provider outcome exceeded its effective assurance cap.")
    else if match metadata !! kRequestedAssuranceMetadata with
            | Some requested =>
                match parseAssurance requested with
                | Some required => negb (meetsAssurance (AuthenticationOutcome.claimedAssurance outcome) required)
                | None => true
                end
            | None => false
            end then
      throw (Error_ofDetail AssuranceInsufficient (defaultErrorMessage AssuranceInsufficient)
               "Provider completed the exchange below the assurance requested at start.")
    else if (AuthenticationOutcome.verifiedAt outcome <? AuthenticationTransaction.createdAt transaction)
            || (completionFinishedAt <? AuthenticationOutcome.verifiedAt outcome) then
      throw (authenticationFailure "Provider returned a verification timestamp outside the transaction window.")
    else
      let connection := metadata !! kConnectionIdentityMetadata in
      let isConnection := bool_decide (is_Some connection) in
      if negb (Bool.eqb isConnection requireConnection) || bool_decide (connection = Some "") then
        throw (authenticationFailure "Authentication completion refused: ceremony purpose does not match the endpoint.")
      else mret (CompletedExchange.mk outcome (mkId <$> connection) completionFinishedAt)
  end end.

Definition attachVerified (identity : IdentityId) (external : ExternalIdentityRef.t)
    (verifiedAt : Instant) : handler unit :=
  link ← lift (IdentityLink.request identity external verifiedAt (minutes 5));
  let '(required, link) := IdentityLink.requireVerification verifiedAt link in
  _ ← lift required;
  let '(verified, link) := IdentityLink.markVerified verifiedAt link in
  _ ← lift verified;
  let '(completed, link) := IdentityLink.complete verifiedAt link in
  _ ← lift completed;
  on_identities (ed_attach link).
(** The loop over the identities whose verified email matches: those that may
    authenticate, and how many others are neither deleted nor merged. *)
Fixpoint sortCandidates (candidates activeCandidates : list IdentityId) (blockedCandidates : nat)
    : handler (list IdentityId * nat) :=
  match candidates with
  | [] => mret (activeCandidates, blockedCandidates)
  | candidate :: candidates =>
      canonical ← ask (fun b => ir_findById (m_lifecycle b) (Configuration.organization config) candidate);
      match canonical with
      | None => sortCandidates candidates activeCandidates blockedCandidates
      | Some canonical =>
          if Identity.canAuthenticate canonical then
            sortCandidates candidates (activeCandidates ++ [candidate]) blockedCandidates
          else if negb (bool_decide (Identity.status canonical = Deleted))
                  && negb (bool_decide (Identity.status canonical = Merged)) then
            sortCandidates candidates activeCandidates (S blockedCandidates)
          else sortCandidates candidates activeCandidates blockedCandidates
      end
  end.

(** Convergence of an unlinked subject on the one active identity that holds
    the same verified email address. *)
Definition convergeByVerifiedEmail (outcome : AuthenticationOutcome.t)
    (external : ExternalIdentityRef.t) (completedAt : Instant) : handler (option IdentityId) :=
  let claims := AuthenticationOutcome.claims outcome in
  if Configuration.hasProfiles config && Configuration.hasLifecycle config
     && negb (id_empty (Configuration.organization config))
     && ProviderTrustPolicy.maySelfProvision (Configuration.trustPolicy config)
          (AuthenticationOutcome.provider outcome)
     && VerifiedClaims.isTrue claims EmailVerified then
    match VerifiedClaims.get claims Email with
    | None => mret None
    | Some verifiedEmail =>
        if bool_decide (verifiedEmail = "") then mret None
        else
          candidates ← ask (fun b => pr_findVerifiedByEmail (m_profiles b) verifiedEmail);
          '(activeCandidates, blockedCandidates) ← sortCandidates candidates [] 0;
          if (1 <? length activeCandidates)%nat
             || ((0 <? blockedCandidates)%nat && negb (bool_decide (activeCandidates = []))) then
            throw (Error_ofDetail Conflict "That verified email is already associated with multiple identities."
                     "Federated sign-in refused to guess between canonical identities that share the same verified email. An explicit merge is required.")
          else if bool_decide (activeCandidates = []) && (0 <? blockedCandidates)%nat then
            throw (authenticationFailure "Federated sign-in refused to self-provision because the verified email belongs to an existing non-authenticating canonical identity.")
          else
            match activeCandidates with
            | [active] =>
                _ ← attachVerified active external completedAt;
                mret (Some active)
            | _ => mret None
            end
    end
  else mret None.

(** Retires a half-provisioned identity and reports the failure. *)
Definition orDelete {A} (identity : IdentityId) (m : handler A) : handler A := fun b =>
  match m b with
  | (Err e, b) =>
      (_ ← ignore (on_lifecycle (ir_changeStatus (Configuration.organization config) identity Deleted));
       throw e) b
  | r => r
  end.

(** A new canonical identity for a verified, previously unseen subject. *)
Definition selfProvision (outcome : AuthenticationOutcome.t) (external : ExternalIdentityRef.t)
    (completedAt : Instant) : handler IdentityId :=
  generated ← on_world (randomTokenBase64Url 24);
  let identity : IdentityId := mkId ("opi_" +:+ generated) in
  canonical ← lift (Identity.create identity Human completedAt);
  _ ← on_lifecycle (ir_add (Configuration.organization config) canonical);
  _ ← (if Configuration.hasProfiles config then
         profile ← orDelete identity (lift (IdentityProfile.create identity completedAt));
         let '(applied, profile) :=
           IdentityProfile.applyVerifiedClaims (AuthenticationOutcome.claims outcome) completedAt profile in
         _ ← orDelete identity (lift applied);
         orDelete identity (on_profiles (pr_save profile))
       else mret tt);
  _ ← orDelete identity (attachVerified identity external completedAt);
  mret identity.

(** The canonical identity of a subject that no link resolves. *)
Definition resolveUnlinked (outcome : AuthenticationOutcome.t) (external : ExternalIdentityRef.t)
    (completedAt : Instant) : handler IdentityId :=
  converged ← convergeByVerifiedEmail outcome external completedAt;
  match converged with
  | Some identity => mret identity
  | None =>
      if negb (ProviderTrustPolicy.maySelfProvision (Configuration.trustPolicy config)
                 (AuthenticationOutcome.provider outcome))
         || negb (Configuration.hasLifecycle config) || id_empty (Configuration.organization config) then
        throw (authenticationFailure "Authentication completion refused: the external identity has no explicit link to a canonical identity.")
      else selfProvision outcome external completedAt
  end.

(** Creates a profile from claims with [apply], or updates the stored one with
    [refresh], and saves it. *)
Definition saveProfile (identity : IdentityId) (completedAt : Instant)
    (apply refresh : prog IdentityProfile.t Error unit) : handler unit :=
  stored ← ask (fun b => pr_find (m_profiles b) identity);
  match stored with
  | None =>
      profile ← lift (IdentityProfile.create identity completedAt);
      let '(applied, profile) := apply profile in
      _ ← lift applied;
      on_profiles (pr_save profile)
  | Some profile =>
      let '(refreshed, profile) := refresh profile in
      _ ← lift refreshed;
      on_profiles (pr_save profile)
  end.

Definition complete (transactionId : TransactionId) (continuationToken : string)
    (binding : BindingDigest) (response : AuthenticationResponse.t) : handler VerifiedAuthentication.t :=
  exchange ← completeExchange transactionId continuationToken binding response false;
  let outcome := CompletedExchange.outcome exchange in
  let completedAt := CompletedExchange.completedAt exchange in
  let claims := AuthenticationOutcome.claims outcome in
  let external := externalFromOutcome outcome in
  owner ← ask (fun b =>
    match ed_ownerOf (m_identities b) external with
    | Err _ => Err (authenticationFailure "Authentication completion could not resolve the external identity directory.")
    | r => r
    end);
  identity ← match owner with
             | None => resolveUnlinked outcome external completedAt
             | Some owner => mret owner
             end;
  _ ← requireActiveIdentity identity;
  _ ← on_identities (ed_updatePresentation external);
  _ ← (if Configuration.hasProfiles config then
         saveProfile identity completedAt
           (IdentityProfile.applyVerifiedClaims claims completedAt)
           (IdentityProfile.refreshPresentationClaims claims completedAt)
       else mret tt);
  mret (VerifiedAuthentication.mk outcome identity).

Definition acceptVerifiedEmail (external : ExternalIdentityRef.t) : handler VerifiedAuthentication.t :=
  owner ← ask (fun b => ed_ownerOf (m_identities b) external);
  match owner with
  | None => throw (Error_ofMessage AuthenticationFailed "The verified email is not linked to an active identity.")
  | Some owner =>
      _ ← requireActiveIdentity owner;
      let claims := VerifiedClaims.set (VerifiedClaims.set VerifiedClaims.create
        Email (id_value (ExternalIdentityRef.subject external))) EmailVerified "true" in
      let evidence := ProviderEvidence.add ProviderEvidence.create "method" "email_verification_link" in
      now ← on_world now;
      outcome ← lift (AuthenticationOutcome.create (ExternalIdentityRef.providerId external)
        (ExternalIdentityRef.subject external) claims Ial1
        (AuthenticationStrength.mk Possession false) evidence now);
      mret (VerifiedAuthentication.mk outcome owner)
  end.

Definition completeConnection (transactionId : TransactionId) (continuationToken : string)
    (binding : BindingDigest) (response : AuthenticationResponse.t) : handler ExternalIdentityRef.t :=
  exchange ← completeExchange transactionId continuationToken binding response true;
  match CompletedExchange.connectionTarget exchange with
  | None => fun b => (Aborted, b)   (* dereference of an empty optional *)
  | Some target =>
      let claims := AuthenticationOutcome.claims (CompletedExchange.outcome exchange) in
      let completedAt := CompletedExchange.completedAt exchange in
      _ ← requireActiveIdentity target;
      let external := externalFromOutcome (CompletedExchange.outcome exchange) in
      owner ← ask (fun b => ed_ownerOf (m_identities b) external);
      _ ← match owner with
          | Some owner =>
              if negb (bool_decide (owner = target)) then
                throw (Error_ofMessage Conflict "That external account is already connected to another OpenProof identity.")
              else mret tt
          | None => attachVerified target external completedAt
          end;
      _ ← on_identities (ed_updatePresentation external);
      _ ← (if Configuration.hasProfiles config then
             saveProfile target completedAt
               (IdentityProfile.refreshPresentationClaims claims completedAt)
               (IdentityProfile.refreshPresentationClaims claims completedAt)
           else mret tt);
      mret external
  end.

(** [if (value) claims.set(name, *value);] *)
Definition setIfPresent (name : ClaimName) (value : option string) (claims : VerifiedClaims.t)
    : VerifiedClaims.t :=
  match value with Some value => VerifiedClaims.set claims name value | None => claims end.

Definition updateConnectionPresentation (external : ExternalIdentityRef.t)
    (displayName preferredUsername pictureUrl : option string) : handler unit :=
  owner ← ask (fun b => ed_ownerOf (m_identities b) external);
  match owner with
  | None => throw (Error_ofMessage NotFound "That connected account was not found.")
  | Some owner =>
      let presented := ExternalIdentityRef.mk (ExternalIdentityRef.providerId external)
        (ExternalIdentityRef.subject external) displayName preferredUsername pictureUrl in
      _ ← on_identities (ed_updatePresentation presented);
      if negb (Configuration.hasProfiles config) then mret tt
      else
        let presentationClaims :=
          setIfPresent PictureUrl pictureUrl
            (setIfPresent PreferredUsername preferredUsername
              (setIfPresent DisplayName displayName VerifiedClaims.create)) in
        if VerifiedClaims.empty presentationClaims then mret tt
        else
          now ← on_world now;
          saveProfile owner now
            (IdentityProfile.refreshPresentationClaims presentationClaims now)
            (IdentityProfile.refreshPresentationClaims presentationClaims now)
  end.

Definition connections (identity : IdentityId) : handler (list ExternalIdentityRef.t) :=
  _ ← requireActiveIdentity identity;
  attached ← ask (fun b => ed_externalIdentitiesOf (m_identities b) identity);
  mret (filter (fun external =>
          is_Some (ProviderRegistry.find (Configuration.providers config)
                     (ExternalIdentityRef.providerId external))) attached).

Definition disconnect (identity : IdentityId) (external : ExternalIdentityRef.t) : handler unit :=
  _ ← requireActiveIdentity identity;
  if negb (ProviderRegistry.contains (Configuration.providers config)
             (ExternalIdentityRef.providerId external)) then
    throw (Error_ofMessage InvalidArgument "Only authentication connections can be disconnected here.")
  else
    _ ← on_identities (ed_detachIfAnotherAuthenticationMethod external identity
           (ProviderRegistry.ids (Configuration.providers config)));
    if Configuration.hasProfiles config then
      stored ← ask (fun b => pr_find (m_profiles b) identity);
      match stored with
      | Some profile =>
          if bool_decide (IdentityProfile.avatarSource profile
                          = id_value (ExternalIdentityRef.providerId external)) then
            now ← on_world now;
            let '(reset, profile) := IdentityProfile.setAvatarSource "auto" now profile in
            _ ← lift reset;
            on_profiles (pr_save profile)
          else mret tt
      | None => mret tt
      end
    else mret tt.

(** *** Handoffs between a native client, a wallet and a browser *)

Definition issueBrowserConnectionHandoff (identity : IdentityId) (providerId : ProviderId)
    (returnTarget : string) (correlation : CorrelationId) : handler BrowserConnectionHandoff.t :=
  if id_empty identity || id_empty providerId || bool_decide (returnTarget = "")
     || (2048 <? Z.of_nat (String.length returnTarget)) || id_empty correlation then
    throw (Error_ofMessage InvalidArgument "The browser connection handoff is invalid.")
  else
    _ ← requireActiveIdentity identity;
    generatedId ← attempt (on_world (randomTokenBase64Url kIdentifierEntropyBytes));
    generatedSecret ← attempt (on_world (randomTokenBase64Url kContinuationEntropyBytes));
    generatedId ← lift generatedId;
    generatedSecret ← lift generatedSecret;
    let transactionId : TransactionId := mkId generatedId in
    now ← on_world now;
    let lifetime := Z.min kBrowserHandoffLifetime (Configuration.maximumTransactionLifetime config) in
    transaction ← lift (AuthenticationTransaction.create transactionId (mkId kHandoffProvider) Redirect
      generatedSecret zeroDigest correlation now lifetime);
    let transaction := AuthenticationTransaction.setMetadata transaction kHandoffIdentityMetadata
      (id_value identity) in
    let transaction := AuthenticationTransaction.setMetadata transaction kHandoffProviderMetadata
      (id_value providerId) in
    let transaction := AuthenticationTransaction.setMetadata transaction kHandoffReturnMetadata
      returnTarget in
    _ ← on_transactions (ts_begin transaction);
    mret (BrowserConnectionHandoff.mk (generatedId +:+ "." +:+ generatedSecret) (now + lifetime)).

(** A metadata entry that must be present and not empty. *)
Definition nonempty_entry (metadata : AttributeMap) (key : string) : option string :=
  match metadata !! key with
  | Some value => if bool_decide (value = "") then None else Some value
  | None => None
  end.

Definition consumeBrowserConnectionHandoff (ticket : string) : handler BrowserConnectionTarget.t :=
  match split_ticket ticket with
  | None => throw (authenticationFailure "Browser handoff redemption refused: malformed ticket.")
  | Some (id, secret) =>
      now ← on_world now;
      consumed ← attempt (on_transactions (ts_consume (mkId id) secret zeroDigest now));
      match consumed with
      | Ok consumed =>
          let metadata := AuthenticationTransaction.metadata consumed in
          if negb (bool_decide (id_value (AuthenticationTransaction.provider consumed) = kHandoffProvider)) then
            throw (authenticationFailure "Browser handoff redemption refused: transaction purpose mismatch.")
          else
            match nonempty_entry metadata kHandoffIdentityMetadata,
                  nonempty_entry metadata kHandoffProviderMetadata,
                  nonempty_entry metadata kHandoffReturnMetadata with
            | Some identityValue, Some providerValue, Some returnTarget =>
                _ ← requireActiveIdentity (mkId identityValue);
                mret (BrowserConnectionTarget.mk (mkId identityValue) (mkId providerValue) returnTarget)
            | _, _, _ => throw (authenticationFailure "Browser handoff redemption refused: server-bound state is incomplete.")
            end
      | _ => throw (authenticationFailure "Browser handoff redemption refused: ticket is unknown, expired, invalid, or already consumed.")
      end
  end.

Definition issueBrowserAuthenticationHandoff (providerId : ProviderId) (correlation : CorrelationId)
    : handler BrowserAuthenticationHandoff.t :=
  if id_empty providerId || id_empty correlation then
    throw (Error_ofMessage InvalidArgument "The browser authentication handoff is invalid.")
  else if negb match ProviderRegistry.find (Configuration.providers config) providerId with
               | Some implementation =>
                   bool_decide (AuthenticationProvider.interactionModel implementation = ChallengeResponse)
               | None => false
               end then
    throw (Error_ofMessage NotFound "That authentication provider is not available.")
  else
    publisherIdValue ← attempt (on_world (randomTokenBase64Url kIdentifierEntropyBytes));
    publisherSecretValue ← attempt (on_world (randomTokenBase64Url kContinuationEntropyBytes));
    resultIdValue ← attempt (on_world (randomTokenBase64Url kIdentifierEntropyBytes));
    redeemSecretValue ← attempt (on_world (randomTokenBase64Url kContinuationEntropyBytes));
    publisherId ← lift publisherIdValue;
    publisherSecret ← lift publisherSecretValue;
    resultId ← lift resultIdValue;
    redeemSecret ← lift redeemSecretValue;
    redeemDigest ← lift (sha256Text redeemSecret);
    now ← on_world now;
    let lifetime := Z.min kBrowserHandoffLifetime (Configuration.maximumTransactionLifetime config) in
    transaction ← lift (AuthenticationTransaction.create (mkId publisherId)
      (mkId kAuthenticationHandoffProvider) Redirect publisherSecret zeroDigest correlation now lifetime);
    let transaction := AuthenticationTransaction.setMetadata transaction kHandoffProviderMetadata
      (id_value providerId) in
    let transaction := AuthenticationTransaction.setMetadata transaction
      kAuthenticationHandoffResultIdMetadata resultId in
    let transaction := AuthenticationTransaction.setMetadata transaction
      kAuthenticationHandoffRedeemDigestMetadata (digestHex redeemDigest) in
    _ ← on_transactions (ts_begin transaction);
    mret (BrowserAuthenticationHandoff.mk (publisherId +:+ "." +:+ publisherSecret)
            (resultId +:+ "." +:+ redeemSecret) (now + lifetime)).

(** The server-side record of a published result. *)
Definition resultMetadata (authentication : VerifiedAuthentication.t) : AttributeMap :=
  let outcome := VerifiedAuthentication.outcome authentication in
  let strength := AuthenticationOutcome.strength outcome in
  {[ kAuthenticationHandoffIdentityMetadata := id_value (VerifiedAuthentication.identity authentication);
     kHandoffProviderMetadata := id_value (AuthenticationOutcome.provider outcome);
     kAuthenticationHandoffSubjectMetadata := id_value (AuthenticationOutcome.subject outcome);
     kAuthenticationHandoffAssuranceMetadata :=
       assuranceLevelName (AuthenticationOutcome.claimedAssurance outcome);
     kAuthenticationHandoffFactorsMetadata :=
       to_string (AuthenticationStrength.factors strength mod 256);
     kAuthenticationHandoffPhishingMetadata :=
       if AuthenticationStrength.isPhishingResistant strength then "1" else "0";
     kAuthenticationHandoffVerifiedAtMetadata := to_string (AuthenticationOutcome.verifiedAt outcome) ]}.

Definition publishBrowserAuthenticationHandoff (publisherTicket : string)
    (authentication : VerifiedAuthentication.t) : handler unit :=
  match split_ticket publisherTicket with
  | None => throw (authenticationFailure "Browser authentication handoff publication refused: malformed ticket.")
  | Some (id, secret) =>
      consumedAt ← on_world now;
      consumed ← on_transactions (ts_consume (mkId id) secret zeroDigest consumedAt);
      if negb (bool_decide (id_value (AuthenticationTransaction.provider consumed)
                            = kAuthenticationHandoffProvider)) then
        throw (authenticationFailure "Browser authentication handoff publication refused: purpose mismatch.")
      else
        let metadata := AuthenticationTransaction.metadata consumed in
        match nonempty_entry metadata kHandoffProviderMetadata,
              nonempty_entry metadata kAuthenticationHandoffResultIdMetadata,
              metadata !! kAuthenticationHandoffRedeemDigestMetadata with
        | Some provider, Some resultId, Some digest =>
            if negb (bool_decide (id_value (AuthenticationOutcome.provider
                                             (VerifiedAuthentication.outcome authentication)) = provider)) then
              throw (authenticationFailure "Browser authentication handoff publication refused: provider mismatch.")
            else
              match parseDigestHex digest with
              | None => throw (authenticationFailure "Browser authentication handoff publication refused: invalid redeem digest.")
              | Some redeemDigest =>
                  now ← on_world now;
                  if AuthenticationTransaction.expiresAt consumed <=? now then
                    throw (Error_ofMessage FailedPrecondition "This authentication request has expired.")
                  else
                    result ← lift (AuthenticationTransaction.restore (mkId resultId)
                      (mkId kAuthenticationHandoffResultProvider) Redirect redeemDigest zeroDigest
                      (AuthenticationTransaction.correlation consumed) Pending now
                      (AuthenticationTransaction.expiresAt consumed) (resultMetadata authentication));
                    on_transactions (ts_begin result)
              end
        | _, _, _ => throw (authenticationFailure "Browser authentication handoff publication refused: state is incomplete.")
        end
  end.

(** The strength and time of a stored result, when they are well formed. *)
Definition parseResult (assurance factors phishing verifiedAt : string)
    : option (AssuranceLevel * AuthenticationStrength.t * Instant) :=
  assurance ← parseAssurance assurance;
  factors ← from_chars_unsigned factors;
  verifiedAt ← from_chars_int64 verifiedAt;
  if (7 <? factors) || negb (bool_decide (phishing = "0") || bool_decide (phishing = "1"))
     || (verifiedAt <? 0) then None
  else Some (assurance, AuthenticationStrength.mk factors (bool_decide (phishing = "1")), verifiedAt).

Definition redeemBrowserAuthenticationHandoff (redeemTicket : string) : handler VerifiedAuthentication.t :=
  match split_ticket redeemTicket with
  | None => throw (authenticationFailure "Browser authentication handoff redemption refused: malformed ticket.")
  | Some (id, secret) =>
      now ← on_world now;
      consumed ← on_transactions (ts_consume (mkId id) secret zeroDigest now);
      if negb (bool_decide (id_value (AuthenticationTransaction.provider consumed)
                            = kAuthenticationHandoffResultProvider)) then
        throw (authenticationFailure "Browser authentication handoff redemption refused: purpose mismatch.")
      else
        let metadata := AuthenticationTransaction.metadata consumed in
        match metadata !! kAuthenticationHandoffIdentityMetadata, metadata !! kHandoffProviderMetadata,
              metadata !! kAuthenticationHandoffSubjectMetadata,
              metadata !! kAuthenticationHandoffAssuranceMetadata,
              metadata !! kAuthenticationHandoffFactorsMetadata,
              metadata !! kAuthenticationHandoffPhishingMetadata,
              metadata !! kAuthenticationHandoffVerifiedAtMetadata with
        | Some identityValue, Some provider, Some subject, Some assurance, Some factors, Some phishing,
          Some verifiedAt =>
            match parseResult assurance factors phishing verifiedAt with
            | None => throw (authenticationFailure "Browser authentication handoff redemption refused: result is invalid.")
            | Some (assurance, strength, verifiedAt) =>
                let providerId : ProviderId := mkId provider in
                let maximum := implementation ← ProviderRegistry.find (Configuration.providers config) providerId;
                               effectiveMaximum implementation providerId in
                if negb match maximum with
                        | Some maximum => meetsAssurance maximum assurance
                        | None => false
                        end then
                  throw (authenticationFailure "Browser authentication handoff redemption refused: provider trust changed.")
                else
                  let identity : IdentityId := mkId identityValue in
                  _ ← requireActiveIdentity identity;
                  let external := ExternalIdentityRef.mk providerId (mkId subject) None None None in
                  owner ← attempt (ask (fun b => ed_ownerOf (m_identities b) external));
                  if negb (bool_decide (owner = Ok (Some identity))) then
                    throw (authenticationFailure "Browser authentication handoff redemption refused: identity link changed.")
                  else
                    outcome ← lift (AuthenticationOutcome.create providerId (mkId subject)
                      VerifiedClaims.create assurance strength ProviderEvidence.create verifiedAt);
                    mret (VerifiedAuthentication.mk outcome identity)
            end
        | _, _, _, _, _, _, _ => throw (authenticationFailure "Browser authentication handoff redemption refused: state is incomplete.")
        end
  end.
End service.
End AuthenticationService.
