(* ===== verification/Broker.v ===== *)
(** * openproof.authentication: what the broker guarantees

    Theorems about [Authentication.AuthenticationService]. The first group holds
    over every transaction store, directory and repositories that keep their
    contracts, and over every provider, however it behaves; the second group
    concerns the service on the in-memory stores. *)
From S2P Require Import Prelude Foundation Encoding Security Provider Transaction IdentityCore Link Profile Wire Authentication.

Section broker_laws.
Context `{Plat : Platform, !PlatformLaws Plat}.
Context {T D I P : Type}
  `{!AuthenticationTransactionStore T, !AuthenticationTransactionStoreLaws T,
    !ExternalIdentityDirectory D, !ExternalIdentityDirectoryLaws D,
    !IdentityRepository I, !IdentityRepositoryLaws I, !IdentityProfileRepository P}.
Context (config : Configuration.t).

Import AuthenticationService.
Abbreviation state := (broker T D I P world).
Implicit Types b : state.

(** *** Running a handler backwards *)

Lemma on_world_ok {A} (m : prog world Error A) b r b' :
  on_world m b = (r, b') <->
  exists w, m (m_world b) = (r, w) /\
    b' = mkBroker (m_transactions b) (m_identities b) (m_lifecycle b) (m_profiles b) w.
Proof. unfold on_world. by rewrite zoom_eq. Qed.

Lemma ask_ok {A} (f : state -> Result A) b a b' : ask f b = (Ok a, b') <-> f b = Ok a /\ b' = b.
Proof. unfold ask. split; [by intros [= -> ->]|by intros [-> ->]]. Qed.

(** *** No handler takes an external identity from its owner *)

Definition owners_kept b b' : Prop :=
  forall k o, ed_owner (m_identities b) k = Some o -> ed_owner (m_identities b') k = Some o.

#[global] Instance owners_kept_preorder : PreOrder owners_kept.
Proof. split; [by intros ???|]. unfold owners_kept. eauto. Qed.

Lemma kept_elsewhere {A} (m : prog state Error A) :
  (forall b, m_identities (m b).2 = m_identities b) -> advances owners_kept m.
Proof. intros Hm b k o. by rewrite Hm. Qed.

Lemma kept_on_world {A} (m : prog world Error A) : advances owners_kept (on_world m).
Proof. apply kept_elsewhere. intros b. unfold on_world, zoom. by destruct (m _). Qed.

Lemma kept_on_transactions {A} (m : prog T Error A) : advances owners_kept (on_transactions m).
Proof. apply kept_elsewhere. intros b. unfold on_transactions, zoom. by destruct (m _). Qed.

Lemma kept_on_lifecycle {A} (m : prog I Error A) : advances owners_kept (on_lifecycle m).
Proof. apply kept_elsewhere. intros b. unfold on_lifecycle, zoom. by destruct (m _). Qed.

Lemma kept_on_profiles {A} (m : prog P Error A) : advances owners_kept (on_profiles m).
Proof. apply kept_elsewhere. intros b. unfold on_profiles, zoom. by destruct (m _). Qed.

Lemma kept_lift {A} (r : Result A) : advances owners_kept (lift r).
Proof. by apply kept_elsewhere. Qed.
Lemma kept_throw {A} (e : Error) : advances owners_kept (throw (A:=A) e).
Proof. by apply kept_elsewhere. Qed.
Lemma kept_ret {A} (a : A) : advances owners_kept (mret (M:=prog state Error) a).
Proof. by apply kept_elsewhere. Qed.
Lemma kept_ask {A} (f : state -> Result A) : advances owners_kept (ask f).
Proof. by apply kept_elsewhere. Qed.

Lemma kept_attach l : advances owners_kept (on_identities (ed_attach l)).
Proof.
  intros b k o Ho. unfold on_identities, zoom.
  destruct (ed_attach l (m_identities b)) as [r d] eqn:Hr. simpl.
  destruct (is_ok r) eqn:Hok.
  - apply is_ok_spec in Hok as [[] ->]. apply ed_attach_ok in Hr as (_ & Hk & ->).
    case_decide; [subst|done]. destruct Hk as [E|E]; by rewrite Ho in E.
  - pose proof (ed_attach_not_ok (m_identities b) l) as Hn. rewrite Hr in Hn. simpl in Hn.
    by rewrite Hn.
Qed.

Lemma kept_updatePresentation r : advances owners_kept (on_identities (ed_updatePresentation r)).
Proof.
  intros b k o Ho. unfold on_identities, zoom.
  pose proof (ed_updatePresentation_owner (m_identities b) r) as Hu.
  destruct (ed_updatePresentation r (m_identities b)). simpl in *. by rewrite Hu.
Qed.

Lemma kept_orDelete {A} identity (m : prog state Error A) :
  advances owners_kept m -> advances owners_kept (orDelete config identity m).
Proof.
  intros Hm b. specialize (Hm b). unfold orDelete. destruct (m b) as [[a|e|] b1]; simpl in *; [done| |done].
  etrans; [exact Hm|]. apply advances_bind; [apply _| |intros; apply kept_throw].
  apply advances_ignore, kept_on_lifecycle.
Qed.

(** Walks through a handler, one construct at a time. *)
Ltac walk :=
  repeat first
    [ apply kept_on_world | apply kept_on_transactions | apply kept_on_lifecycle
    | apply kept_on_profiles | apply kept_lift | apply kept_throw | apply kept_ret | apply kept_ask
    | apply kept_attach | apply kept_updatePresentation | apply kept_orDelete
    | apply advances_attempt | apply advances_ignore
    | apply advances_bind; [apply _| |intros ?]
    | progress cbv zeta
    | match goal with |- advances _ (match ?x with _ => _ end) => destruct x end ].

Lemma kept_requireActive identity : advances owners_kept (requireActiveIdentity config identity).
Proof. unfold requireActiveIdentity. walk. Qed.

Lemma kept_attachVerified identity external t : advances owners_kept (attachVerified identity external t).
Proof. unfold attachVerified. walk. Qed.

Lemma kept_saveProfile identity t a r : advances owners_kept (saveProfile identity t a r).
Proof. unfold saveProfile. walk. Qed.

Lemma kept_completeExchange id token bound response rc :
  advances owners_kept (completeExchange config id token bound response rc).
Proof. unfold completeExchange. walk. Qed.

Lemma kept_sortCandidates cs active blocked :
  advances owners_kept (sortCandidates config cs active blocked).
Proof. revert active blocked. induction cs as [|c cs IH]; intros; simpl; walk; apply IH. Qed.

Lemma kept_converge outcome external t :
  advances owners_kept (convergeByVerifiedEmail config outcome external t).
Proof.
  unfold convergeByVerifiedEmail.
  walk; first [apply kept_sortCandidates|apply kept_attachVerified].
Qed.

Lemma kept_selfProvision outcome external t :
  advances owners_kept (selfProvision config outcome external t).
Proof. unfold selfProvision. walk; apply kept_attachVerified. Qed.

Lemma kept_beginInternal request bound c target :
  advances owners_kept (beginInternal config request bound c target).
Proof. unfold beginInternal. walk. Qed.

(** The calls of the service, apart from [disconnect]. *)
Inductive service_call : forall A, prog state Error A -> Prop :=
| CBegin request bound c : service_call _ (begin config request bound c)
| CBeginConnection request bound c i : service_call _ (beginConnection config request bound c i)
| CComplete id token bound response : service_call _ (complete config id token bound response)
| CAcceptVerifiedEmail ext : service_call _ (acceptVerifiedEmail config ext)
| CCompleteConnection id token bound response :
    service_call _ (completeConnection config id token bound response)
| CUpdateConnectionPresentation ext d u p :
    service_call _ (updateConnectionPresentation config ext d u p)
| CConnections i : service_call _ (connections config i)
| CIssueConnectionHandoff i p r c : service_call _ (issueBrowserConnectionHandoff config i p r c)
| CConsumeConnectionHandoff t : service_call _ (consumeBrowserConnectionHandoff config t)
| CIssueAuthenticationHandoff p c : service_call _ (issueBrowserAuthenticationHandoff config p c)
| CPublishAuthenticationHandoff t a : service_call _ (publishBrowserAuthenticationHandoff t a)
| CRedeemAuthenticationHandoff t : service_call _ (redeemBrowserAuthenticationHandoff config t).

(** C2: the broker never takes an external identity from its owner. Over any
    stores that keep their contracts and any providers, every call of the
    service other than [disconnect], whatever it answers and wherever it
    fails, leaves every owned external identity with the owner it had. *)
Theorem broker_never_transfers A (m : prog state Error A) b k o :
  service_call A m -> ed_owner (m_identities b) k = Some o ->
  ed_owner (m_identities (m b).2) k = Some o.
Proof.
  intros Hm. revert b k o. change (advances owners_kept m). destruct Hm;
    unfold begin, beginConnection, complete, acceptVerifiedEmail, completeConnection,
      updateConnectionPresentation, connections, issueBrowserConnectionHandoff,
      consumeBrowserConnectionHandoff, issueBrowserAuthenticationHandoff,
      publishBrowserAuthenticationHandoff, redeemBrowserAuthenticationHandoff;
    walk; first [apply kept_beginInternal|apply kept_requireActive|apply kept_attachVerified
      |apply kept_saveProfile|apply kept_completeExchange|apply kept_converge|apply kept_selfProvision].
Qed.

(** *** What a completed exchange proves *)

(** The checks an exchange passed: the presented transaction was stored,
    pending, unexpired and answered with its own nonce and agent binding; the
    response names its challenge; its provider is registered and trusted, is
    the one that answered, and claims an assurance between the one requested
    at the start and the effective cap, at a time within the exchange; the
    transaction was opened for this kind of ceremony; and it is now consumed,
    with no other collaborator touched. *)
Definition exchange_earned (id : TransactionId) (token : string) (bound : BindingDigest)
    (response : AuthenticationResponse.t) (requireConnection : bool) b
    (exchange : CompletedExchange.t) b' : Prop :=
  let outcome := CompletedExchange.outcome exchange in
  exists t0 w0 w1 tx implementation cap,
    clock_now (m_world b) = (t0, w0) /\
    ts_view (m_transactions b) id = Some tx /\
    AuthenticationTransaction.redeemable tx token bound t0 /\
    AuthenticationTransaction.metadata tx !! kChallengeIdMetadata
      = Some (id_value (AuthenticationResponse.challengeId response)) /\
    ProviderRegistry.find (Configuration.providers config) (AuthenticationTransaction.provider tx)
      = Some implementation /\
    effectiveMaximum config implementation (AuthenticationTransaction.provider tx) = Some cap /\
    AuthenticationProvider.completeAuthentication implementation response w0 = (Some (Ok outcome), w1) /\
    clock_now w1 = (CompletedExchange.completedAt exchange, m_world b') /\
    AuthenticationOutcome.provider outcome = AuthenticationTransaction.provider tx /\
    meetsAssurance cap (AuthenticationOutcome.claimedAssurance outcome) = true /\
    (forall name, AuthenticationTransaction.metadata tx !! kRequestedAssuranceMetadata = Some name ->
       exists level, parseAssurance name = Some level /\
         meetsAssurance (AuthenticationOutcome.claimedAssurance outcome) level = true) /\
    AuthenticationTransaction.createdAt tx <= AuthenticationOutcome.verifiedAt outcome
      <= CompletedExchange.completedAt exchange /\
    AuthenticationTransaction.metadata tx !! kConnectionIdentityMetadata
      = id_value <$> CompletedExchange.connectionTarget exchange /\
    (requireConnection = true <-> is_Some (CompletedExchange.connectionTarget exchange)) /\
    (forall id', ts_view (m_transactions b') id' =
       if decide (id' = id) then Some (AuthenticationTransaction.set_state tx Consumed)
       else ts_view (m_transactions b) id') /\
    m_identities b' = m_identities b /\ m_lifecycle b' = m_lifecycle b /\ m_profiles b' = m_profiles b.

Lemma callComplete_ok implementation response w outcome w' :
  callComplete implementation response w = (Ok outcome, w') ->
  AuthenticationProvider.completeAuthentication implementation response w = (Some (Ok outcome), w').
Proof.
  unfold callComplete.
  by destruct (AuthenticationProvider.completeAuthentication implementation response w)
    as [[[o|e|]|] w1]; intros [= -> ->].
Qed.

Lemma now_ok w t w' : Security.now w = (Ok t, w') <-> clock_now w = (t, w').
Proof. unfold Security.now. destruct (clock_now w). naive_solver. Qed.

Lemma completeExchange_ok id token bound response rc b exchange b' :
  completeExchange config id token bound response rc b = (Ok exchange, b') ->
  exchange_earned id token bound response rc b exchange b'.
Proof.
  unfold completeExchange. intros (t0 & b1 & (w0 & Ht0%now_ok & ->)%on_world_ok & Hrun)%prog_bind_ok.
  apply prog_bind_ok in Hrun as (tx & b2 & Htx & Hrun).
  unfold on_transactions in Htx. apply zoom_eq in Htx as (ts & Hts & ->). simpl in Hts.
  apply ts_consume_ok in Hts as (tx0 & Hview & Hred & -> & Hview').
  cbv zeta in Hrun. simpl in Hrun.
  case_bool_decide as Hchallenge; simpl in Hrun; [|done].
  destruct (ProviderRegistry.find _ _) as [implementation|] eqn:Hfind; [|done].
  destruct (effectiveMaximum _ _ _) as [cap|] eqn:Hcap; [|done].
  apply prog_bind_ok in Hrun as (outcome & b3 & (w1 & Hout%callComplete_ok & ->)%on_world_ok & Hrun).
  apply prog_bind_ok in Hrun as (t1 & b4 & (w2 & Ht1%now_ok & ->)%on_world_ok & Hrun). simpl in *.
  case_bool_decide as Hprov; simpl in Hrun; [|done].
  destruct (meetsAssurance cap _) eqn:Hmeets; simpl in Hrun; [|done].
  branch Hrun Hreq; [done|]. branch Hrun Htime; [done|]. branch Hrun Hpurpose; [done|].
  injection Hrun as <- <-. bool_prop.
  exists t0, w0, w1, tx0, implementation, cap. simpl. split_and!; try done.
  - intros name Hname. rewrite Hname in Hreq. destruct (parseAssurance name) as [level|]; [|done].
    exists level. by destruct (meetsAssurance _ level).
  - destruct (_ !! kConnectionIdentityMetadata); done.
  - destruct rc, (_ !! kConnectionIdentityMetadata); naive_solver.
Qed.

(** The identity is one the organization lets authenticate. *)
Definition identity_active (identity : IdentityId) b : Prop :=
  Configuration.hasLifecycle config = false \/
  exists i, ir_view (m_lifecycle b) (Configuration.organization config) identity = Some i /\
    Identity.canAuthenticate i = true.

Lemma requireActive_ok identity b r b' :
  requireActiveIdentity config identity b = (Ok r, b') -> b' = b /\ identity_active identity b.
Proof.
  unfold requireActiveIdentity, identity_active.
  destruct (Configuration.hasLifecycle config); simpl; [|intros [= _ <-]; by auto].
  destruct (id_empty _); [done|].
  intros (canonical & b1 & [Hfind ->]%ask_ok & Hrun)%prog_bind_ok.
  apply ir_findById_view in Hfind. destruct canonical as [i|]; [|done].
  destruct (Identity.canAuthenticate i) eqn:Hi; [|done]. injection Hrun as _ <-.
  split; [done|]. right. exists i. done.
Qed.

Abbreviation key_of outcome := (ExternalIdentityRef.key (externalFromOutcome outcome)).

Lemma on_identities_ok {A} (m : prog D Error A) b r b' :
  on_identities m b = (r, b') <->
  exists d, m (m_identities b) = (r, d) /\
    b' = mkBroker (m_transactions b) d (m_lifecycle b) (m_profiles b) (m_world b).
Proof. unfold on_identities. by rewrite zoom_eq. Qed.

Lemma attachVerified_ok identity external t b r b' :
  attachVerified identity external t b = (Ok r, b') ->
  ed_owner (m_identities b') (ExternalIdentityRef.key external) = Some identity /\
  m_lifecycle b' = m_lifecycle b.
Proof.
  unfold attachVerified. intros (link & b1 & [Hreq ->]%lift_ok & Hrun)%prog_bind_ok.
  unfold IdentityLink.request in Hreq. handler Hreq. bool_prop.
  assert (Hexp : forall s, IdentityLink.isExpiredAt
    (IdentityLink.mk identity external s t (t + minutes 5)) t = false).
  { intros s. unfold IdentityLink.isExpiredAt. apply Z.leb_gt. simpl. unfold minutes. lia. }
  unfold IdentityLink.requireVerification, IdentityLink.markVerified, IdentityLink.complete in Hrun.
  repeat (rewrite IdentityLink.transitionTo_ok in Hrun by (reflexivity || apply Hexp);
          unfold IdentityLink.set_state in Hrun; cbn [IdentityLink.owner IdentityLink.external
            IdentityLink.requestedAt IdentityLink.expiresAt mbind prog_bind lift ok] in Hrun).
  apply on_identities_ok in Hrun as (d & Hattach & ->).
  destruct r. apply ed_attach_ok in Hattach as (_ & _ & Howner). simpl in *.
  split; [|done]. rewrite Howner. by rewrite decide_True.
Qed.

Lemma orDelete_ok {A} identity (m : prog state Error A) b a b' :
  orDelete config identity m b = (Ok a, b') -> m b = (Ok a, b').
Proof.
  unfold orDelete. destruct (m b) as [[x|e|] b1]; [done| |done].
  unfold mbind, prog_bind. by destruct (ignore _ b1) as [[]].
Qed.

Lemma converge_ok outcome external t b i b' :
  convergeByVerifiedEmail config outcome external t b = (Ok (Some i), b') ->
  ed_owner (m_identities b') (ExternalIdentityRef.key external) = Some i /\
  ProviderTrustPolicy.maySelfProvision (Configuration.trustPolicy config)
    (AuthenticationOutcome.provider outcome) = true.
Proof.
  unfold convergeByVerifiedEmail. cbv zeta. intros Hrun. branch Hrun Hpolicy; [|done]. bool_prop.
  destruct (VerifiedClaims.get _ Email) as [email|]; [|done]. branch Hrun He; [done|].
  apply prog_bind_ok in Hrun as (cs & b1 & [_ ->]%ask_ok & Hrun).
  apply prog_bind_ok in Hrun as ([active blocked] & b2 & _ & Hrun).
  branch Hrun Hmany; [done|]. branch Hrun Hblocked; [done|].
  destruct active as [|x [|y active]]; [done| |done].
  apply prog_bind_ok in Hrun as ([] & b3 & [Ho _]%attachVerified_ok & Hrun).
  injection Hrun as <- <-. done.
Qed.

Lemma selfProvision_ok outcome external t b i b' :
  selfProvision config outcome external t b = (Ok i, b') ->
  ed_owner (m_identities b') (ExternalIdentityRef.key external) = Some i.
Proof.
  unfold selfProvision. intros (g & b1 & _ & Hrun)%prog_bind_ok. cbv zeta in Hrun.
  apply prog_bind_ok in Hrun as (c & b2 & _ & Hrun). apply prog_bind_ok in Hrun as ([] & b3 & _ & Hrun).
  apply prog_bind_ok in Hrun as ([] & b4 & _ & Hrun).
  apply prog_bind_ok in Hrun as ([] & b5 & Ha%orDelete_ok & Hrun).
  injection Hrun as <- <-. by apply attachVerified_ok in Ha as [? _].
Qed.

Lemma resolveUnlinked_ok outcome external t b i b' :
  resolveUnlinked config outcome external t b = (Ok i, b') ->
  ed_owner (m_identities b') (ExternalIdentityRef.key external) = Some i /\
  ProviderTrustPolicy.maySelfProvision (Configuration.trustPolicy config)
    (AuthenticationOutcome.provider outcome) = true.
Proof.
  unfold resolveUnlinked. intros (conv & b1 & Hc & Hrun)%prog_bind_ok.
  destruct conv as [x|]; [injection Hrun as <- <-; by apply converge_ok in Hc|].
  branch Hrun Hp; [done|]. bool_prop. apply selfProvision_ok in Hrun. done.
Qed.

(** A relation for the last steps: ownership and lifecycle stay as they are. *)
Definition settled b b' : Prop :=
  ed_owner (m_identities b') = ed_owner (m_identities b) /\ m_lifecycle b' = m_lifecycle b.

#[global] Instance settled_preorder : PreOrder settled.
Proof.
  split; [done|]. intros x y z [Ho Hl] [Ho' Hl']. split; [by rewrite Ho', Ho|by rewrite Hl', Hl].
Qed.

Lemma settled_presentation r b x b' :
  on_identities (ed_updatePresentation r) b = (x, b') -> settled b b'.
Proof.
  intros (d & Hd & ->)%on_identities_ok. split; [|done]. simpl.
  pose proof (ed_updatePresentation_owner (m_identities b) r) as Ho. by rewrite Hd in Ho.
Qed.

Lemma settled_saveProfile identity t a r : advances settled (saveProfile identity t a r).
Proof.
  assert (Hsave : forall p, advances settled (on_profiles (pr_save p))).
  { intros p b. unfold on_profiles, zoom. by destruct (pr_save p _). }
  unfold saveProfile. apply advances_bind; [apply _|by intros b|]. intros [p|]; cbv zeta.
  - destruct (r p) as [res p']. apply advances_bind; [apply _|by intros b|]. intros. apply Hsave.
  - apply advances_bind; [apply _|by intros b|]. intros p. destruct (a p) as [res p'].
    apply advances_bind; [apply _|by intros b|]. intros. apply Hsave.
Qed.

Lemma settled_profiles identity t a r b x b' :
  (if Configuration.hasProfiles config then saveProfile identity t a r else mret tt) b = (x, b') ->
  settled b b'.
Proof.
  destruct (Configuration.hasProfiles config); [|by intros [= _ <-]].
  intros Hs. pose proof (settled_saveProfile identity t a r b) as Hset. by rewrite Hs in Hset.
Qed.

Lemma settled_active identity b b' : settled b b' -> identity_active identity b -> identity_active identity b'.
Proof. intros [_ Hl]. unfold identity_active. by rewrite Hl. Qed.

(** C1: a verified authentication is earned. Over any stores that keep their
    contracts and any provider, when [complete] returns a
    [VerifiedAuthentication], its outcome came through an exchange that passed
    every check and was opened as a sign-in; the identity it names owns the
    external subject and is active. A subject that was linked before signs in
    its own owner and nobody else; a subject that was not linked got in only
    because the operator lets its provider self-provision. *)
Theorem verified_authentication_is_earned id token bound response b v b' :
  complete config id token bound response b = (Ok v, b') ->
  let outcome := VerifiedAuthentication.outcome v in
  exists exchange b1,
    exchange_earned id token bound response false b exchange b1 /\
    CompletedExchange.outcome exchange = outcome /\
    ed_owner (m_identities b') (key_of outcome) = Some (VerifiedAuthentication.identity v) /\
    identity_active (VerifiedAuthentication.identity v) b' /\
    (forall o, ed_owner (m_identities b) (key_of outcome) = Some o ->
       VerifiedAuthentication.identity v = o) /\
    (ed_owner (m_identities b) (key_of outcome) = None ->
       ProviderTrustPolicy.maySelfProvision (Configuration.trustPolicy config)
         (AuthenticationOutcome.provider outcome) = true).
Proof.
  unfold complete. intros (exchange & b1 & Hex%completeExchange_ok & Hrun)%prog_bind_ok.
  cbv zeta in Hrun. set (outcome := CompletedExchange.outcome exchange) in *.
  apply prog_bind_ok in Hrun as (owner & b2 & [Howner ->]%ask_ok & Hrun).
  assert (Hsame : m_identities b1 = m_identities b)
    by (destruct Hex as (? & ? & ? & ? & ? & ? & Hex); tauto).
  assert (owner = ed_owner (m_identities b1) (key_of outcome)) as Ho.
  { apply ed_ownerOf_owner. by destruct (ed_ownerOf _ _). }
  apply prog_bind_ok in Hrun as (identity & b3 & Hid & Hrun).
  assert (Hres : ed_owner (m_identities b3) (key_of outcome) = Some identity /\
    (forall o, owner = Some o -> identity = o) /\
    (owner = None -> ProviderTrustPolicy.maySelfProvision (Configuration.trustPolicy config)
       (AuthenticationOutcome.provider outcome) = true)).
  { destruct owner as [o|].
    - injection Hid as <- <-. split_and!; [done|by intros ? [= ->]|done].
    - apply resolveUnlinked_ok in Hid as [? ?]. done. }
  apply prog_bind_ok in Hrun as ([] & b4 & [-> Hact]%requireActive_ok & Hrun).
  apply prog_bind_ok in Hrun as ([] & b5 & Hpres%settled_presentation & Hrun).
  apply prog_bind_ok in Hrun as ([] & b6 & Hprof%settled_profiles & Hrun).
  injection Hrun as <- <-. simpl. exists exchange, b1.
  assert (Hset : settled b3 b6) by (by etrans). destruct Hres as (Hown & Hlinked & Hnew).
  split_and!; [done|done| |by eapply settled_active| |].
  - by rewrite (proj1 Hset).
  - intros o Hb. apply Hlinked. by rewrite Ho, Hsame.
  - intros Hb. apply Hnew. by rewrite Ho, Hsame.
Qed.

(** A connection attaches to the identity the ceremony was opened for.
    When [completeConnection] succeeds, the exchange passed every check and
    was opened as a connection, for an identity that is still active; the
    external subject now belongs to that identity, and to nobody else before
    if it was owned. *)
Theorem connection_attaches_to_its_target id token bound response b external b' :
  completeConnection config id token bound response b = (Ok external, b') ->
  exists exchange b1 target,
    exchange_earned id token bound response true b exchange b1 /\
    CompletedExchange.connectionTarget exchange = Some target /\
    external = externalFromOutcome (CompletedExchange.outcome exchange) /\
    ed_owner (m_identities b') (ExternalIdentityRef.key external) = Some target /\
    identity_active target b1 /\
    (forall o, ed_owner (m_identities b) (ExternalIdentityRef.key external) = Some o -> o = target).
Proof.
  unfold completeConnection. intros (exchange & b1 & Hex%completeExchange_ok & Hrun)%prog_bind_ok.
  destruct (CompletedExchange.connectionTarget exchange) as [target|] eqn:Htarget; [|done].
  cbv zeta in Hrun. set (outcome := CompletedExchange.outcome exchange) in *.
  assert (Hsame : m_identities b1 = m_identities b)
    by (destruct Hex as (? & ? & ? & ? & ? & ? & Hex); tauto).
  apply prog_bind_ok in Hrun as ([] & b2 & [-> Hact]%requireActive_ok & Hrun).
  apply prog_bind_ok in Hrun as (owner & b3 & [Ho%ed_ownerOf_owner ->]%ask_ok & Hrun).
  apply prog_bind_ok in Hrun as ([] & b4 & Hattach & Hrun).
  assert (Hown : ed_owner (m_identities b4) (key_of outcome) = Some target /\
    (forall o, owner = Some o -> o = target)).
  { destruct owner as [o|].
    - case_bool_decide; simpl in Hattach; [|done]. injection Hattach as <-. subst o. naive_solver.
    - apply attachVerified_ok in Hattach as [? _]. done. }
  apply prog_bind_ok in Hrun as ([] & b5 & Hpres%settled_presentation & Hrun).
  apply prog_bind_ok in Hrun as ([] & b6 & Hprof%settled_profiles & Hrun).
  injection Hrun as <- <-. exists exchange, b1, target.
  assert (Hset : settled b4 b6) by (by etrans). destruct Hown as [Hown Hother].
  split_and!; [done|done|done| |done|].
  - by rewrite (proj1 Hset).
  - intros o Hb. apply Hother. by rewrite Ho, Hsame.
Qed.

(** A result redeemed by the originating browser is still true. When
    [redeemBrowserAuthenticationHandoff] succeeds, the ticket named a pending,
    unexpired transaction with its own secret, recorded as a published result
    (so a publisher ticket never redeems); and at this moment the identity is
    active, still owns the external subject, and the assurance is within the
    provider's current effective cap. *)
Theorem redeemed_result_is_current ticket b v b' :
  redeemBrowserAuthenticationHandoff config ticket b = (Ok v, b') ->
  let outcome := VerifiedAuthentication.outcome v in
  exists id secret t w tx implementation cap,
    split_ticket ticket = Some (id, secret) /\ clock_now (m_world b) = (t, w) /\
    ts_view (m_transactions b) (mkId id) = Some tx /\
    AuthenticationTransaction.redeemable tx secret zeroDigest t /\
    id_value (AuthenticationTransaction.provider tx) = kAuthenticationHandoffResultProvider /\
    AuthenticationTransaction.metadata tx !! kAuthenticationHandoffIdentityMetadata
      = Some (id_value (VerifiedAuthentication.identity v)) /\
    ts_view (m_transactions b') (mkId id) = Some (AuthenticationTransaction.set_state tx Consumed) /\
    ProviderRegistry.find (Configuration.providers config) (AuthenticationOutcome.provider outcome)
      = Some implementation /\
    effectiveMaximum config implementation (AuthenticationOutcome.provider outcome) = Some cap /\
    meetsAssurance cap (AuthenticationOutcome.claimedAssurance outcome) = true /\
    identity_active (VerifiedAuthentication.identity v) b /\
    ed_owner (m_identities b) (AuthenticationOutcome.provider outcome, AuthenticationOutcome.subject outcome)
      = Some (VerifiedAuthentication.identity v).
Proof.
  unfold redeemBrowserAuthenticationHandoff. destruct (split_ticket ticket) as [[id secret]|]; [|done].
  intros (t & b1 & (w & Ht%now_ok & ->)%on_world_ok & Hrun)%prog_bind_ok.
  apply prog_bind_ok in Hrun as (tx' & b2 & Htx & Hrun).
  unfold on_transactions in Htx. apply zoom_eq in Htx as (ts & Hts & ->). simpl in Hts.
  apply ts_consume_ok in Hts as (tx & Hview & Hred & -> & Hview'). simpl in Hrun.
  case_bool_decide as Hprov; simpl in Hrun; [|done].
  destruct (_ !! kAuthenticationHandoffIdentityMetadata) as [identityValue|] eqn:Hidentity; [|done].
  destruct (_ !! kHandoffProviderMetadata) as [provider|]; [|done].
  destruct (_ !! kAuthenticationHandoffSubjectMetadata) as [subject|]; [|done].
  destruct (_ !! kAuthenticationHandoffAssuranceMetadata) as [assurance|]; [|done].
  destruct (_ !! kAuthenticationHandoffFactorsMetadata) as [factors|]; [|done].
  destruct (_ !! kAuthenticationHandoffPhishingMetadata) as [phishing|]; [|done].
  destruct (_ !! kAuthenticationHandoffVerifiedAtMetadata) as [verifiedAt|]; [|done].
  destruct (parseResult assurance factors phishing verifiedAt) as [[[level strength] at_]|]; [|done].
  cbv zeta in Hrun. branch Hrun Hcap; [done|]. apply negb_false_iff in Hcap.
  apply prog_bind_ok in Hrun as ([] & b3 & [-> Hact]%requireActive_ok & Hrun).
  apply prog_bind_ok in Hrun as (owner & b4 & Howner & Hrun). branch Hrun Hown; [done|]. bool_prop. subst.
  assert (b4 = mkBroker ts (m_identities b) (m_lifecycle b) (m_profiles b) w /\
    ed_owner (m_identities b) (mkId provider, mkId subject) = Some (mkId identityValue)) as [-> Ho].
  { unfold attempt, ask in Howner. simpl in Howner.
    destruct (ed_ownerOf (m_identities b) _) as [o|e|] eqn:Ho; [|done..].
    injection Howner as -> <-. apply ed_ownerOf_owner in Ho. by symmetry in Ho. }
  apply prog_bind_ok in Hrun as (outcome & b5 & [Hout ->]%lift_ok & Hrun). injection Hrun as <- <-.
  assert (outcome = AuthenticationOutcome.mk (mkId provider) (mkId subject) VerifiedClaims.create level
    strength ProviderEvidence.create at_) as ->.
  { unfold AuthenticationOutcome.create in Hout.
    do 2 (destruct (id_empty _); [done|]). by injection Hout as <-. }
  simpl. destruct (ProviderRegistry.find _ _) as [implementation|] eqn:Hfind; [|done]. simpl in Hcap.
  destruct (effectiveMaximum config implementation (mkId provider)) as [cap|] eqn:Hmax; [|done].
  exists id, secret, t, w, tx, implementation, cap. split_and!; try done.
  rewrite Hview'. by rewrite decide_True.
Qed.

(** What a fresh transaction of an exchange records. *)
Definition exchange_opened (request : AuthenticationRequest.t) (bound : BindingDigest)
    (target : option IdentityId) (start : AuthenticationStart.t) b b' : Prop :=
  let providerId := AuthenticationRequest.provider request in
  exists implementation cap tx,
    ProviderRegistry.find (Configuration.providers config) providerId = Some implementation /\
    effectiveMaximum config implementation providerId = Some cap /\
    (forall requested, AuthenticationRequest.requestedAssurance request = Some requested ->
       meetsAssurance cap requested = true) /\
    ts_view (m_transactions b) (AuthenticationStart.transactionId start) = None /\
    (forall id, ts_view (m_transactions b') id =
       if decide (id = AuthenticationStart.transactionId start) then Some tx
       else ts_view (m_transactions b) id) /\
    AuthenticationTransaction.provider tx = providerId /\
    AuthenticationTransaction.state tx = Pending /\ AuthenticationTransaction.binding tx = bound /\
    sha256Text (AuthenticationStart.continuationToken start) = Ok (AuthenticationTransaction.nonceDigest tx) /\
    AuthenticationTransaction.createdAt tx < AuthenticationTransaction.expiresAt tx
      <= AuthenticationTransaction.createdAt tx + Configuration.maximumTransactionLifetime config /\
    AuthenticationTransaction.expiresAt tx
      <= AuthenticationChallenge.expiresAt (AuthenticationStart.challenge start) /\
    AuthenticationTransaction.metadata tx !! kChallengeIdMetadata
      = Some (id_value (AuthenticationChallenge.id (AuthenticationStart.challenge start))) /\
    AuthenticationTransaction.metadata tx !! kRequestedAssuranceMetadata
      = assuranceLevelName <$> AuthenticationRequest.requestedAssurance request /\
    AuthenticationTransaction.metadata tx !! kConnectionIdentityMetadata = id_value <$> target /\
    m_identities b' = m_identities b /\ m_lifecycle b' = m_lifecycle b /\ m_profiles b' = m_profiles b.

Lemma transaction_create_ok id provider model nonce bound c t lifetime tx :
  AuthenticationTransaction.create id provider model nonce bound c t lifetime = Ok tx ->
  exists digest, sha256Text nonce = Ok digest /\ 0 < lifetime /\
    tx = AuthenticationTransaction.mk id provider model digest bound c Pending t (t + lifetime) ∅.
Proof.
  unfold AuthenticationTransaction.create. intros Hc.
  destruct (id_empty id); [done|]. destruct (id_empty provider); [done|].
  case_bool_decide; [done|]. destruct (Z.leb_spec lifetime 0); [done|].
  apply result_bind_ok in Hc as (digest & Hd & [= <-]). eauto.
Qed.

Lemma beginInternal_ok request bound c target b start b' :
  beginInternal config request bound c target b = (Ok start, b') ->
  exchange_opened request bound target start b b'.
Proof.
  unfold beginInternal, exchange_opened. cbv zeta.
  destruct (ProviderRegistry.find _ _) as [implementation|]; [|done].
  destruct (effectiveMaximum _ _ _) as [cap|] eqn:Hcap; [|done]. intros Hrun.
  branch Hrun Hrequested; [done|].
  apply prog_bind_ok in Hrun as (challenge & b1 & (w1 & _ & ->)%on_world_ok & Hrun).
  apply prog_bind_ok in Hrun as (t & b2 & (w2 & _ & ->)%on_world_ok & Hrun).
  branch Hrun Hchallenge; [done|].
  apply prog_bind_ok in Hrun as (gid & b3 & (w3 & _ & ->)%on_world_ok & Hrun).
  apply prog_bind_ok in Hrun as (token & b4 & (w4 & _ & ->)%on_world_ok & Hrun). simpl in Hrun.
  apply prog_bind_ok in Hrun as (tx & b5 & [Htx ->]%lift_ok & Hrun).
  apply transaction_create_ok in Htx as (digest & Hdigest & Hpos & ->).
  apply prog_bind_ok in Hrun as ([] & b6 & Hbegin & Hrun). injection Hrun as <- <-.
  unfold on_transactions in Hbegin. apply zoom_eq in Hbegin as (ts & Hts & ->). simpl in Hts.
  apply ts_begin_ok in Hts as [Hfresh Hview].
  match type of Hview with context [AuthenticationTransaction.id ?x] => exists implementation, cap, x end.
  simpl m_transactions.
  destruct target as [s|], (AuthenticationRequest.requestedAssurance request) as [a|]; simpl in *;
    (split_and!; [done|done| |done|done|done|done|done|done|lia|lia|lia
      |by simplify_map_eq|by simplify_map_eq|by simplify_map_eq|done|done|done]);
    intros requested [= <-]; by destruct (meetsAssurance cap a).
Qed.

(** An exchange is opened only within the operator's trust. When [begin]
    or [beginConnection] succeeds, the provider is registered, trusted and the
    requested assurance is within its effective cap; exactly one transaction
    is added, under a fresh identifier: pending, bound to the agent and to the
    digest of the continuation token, ending no later than the challenge and
    the maximum lifetime, recording the challenge, the requested assurance and
    the ceremony's purpose. A connection is opened only for an active identity. *)
Theorem exchange_opened_within_trust request bound c target b start b' :
  match target with
  | None => begin config request bound c b
  | Some identity => beginConnection config request bound c identity b
  end = (Ok start, b') ->
  exchange_opened request bound target start b b' /\
  (forall identity, target = Some identity -> identity_active identity b).
Proof.
  destruct target as [identity|].
  - unfold beginConnection. destruct (id_empty identity); [done|].
    intros ([] & b1 & [-> Hact]%requireActive_ok & Hrun%beginInternal_ok)%prog_bind_ok.
    split; [done|]. by intros ? [= <-].
  - unfold begin. by intros Hrun%beginInternal_ok.
Qed.
(** *** Convergence on a verified email address *)

(** Where an identity stands in the organization of the service. *)
Definition standing b (candidate : IdentityId) : option Identity.t :=
  ir_view (m_lifecycle b) (Configuration.organization config) candidate.

Definition may_sign_in b (candidate : IdentityId) : bool :=
  match standing b candidate with Some i => Identity.canAuthenticate i | None => false end.

(** Suspended, locked or deactivated: neither usable nor retired for good. *)
Definition withheld b (candidate : IdentityId) : bool :=
  match standing b candidate with
  | Some i => negb (Identity.canAuthenticate i) && negb (Identity.terminal (Identity.status i))
  | None => false
  end.

Lemma sortCandidates_ok candidates active blocked b active' blocked' b' :
  sortCandidates config candidates active blocked b = (Ok (active', blocked'), b') ->
  b' = b /\ active' = active ++ filter (fun c => may_sign_in b c = true) candidates /\
  blocked' = (blocked + length (filter (fun c => withheld b c = true) candidates))%nat.
Proof.
  revert active blocked. induction candidates as [|c cs IH]; intros active blocked; cbn [sortCandidates].
  { intros [= <- <- <-]. rewrite !filter_nil, app_nil_r. simpl. auto with lia. }
  intros (canonical & b1 & [Hfind%ir_findById_view ->]%ask_ok & Hrun)%prog_bind_ok.
  assert (Hc : canonical = standing b c) by done. clear Hfind.
  rewrite !filter_cons.
  assert (Hm : may_sign_in b c = match canonical with Some i => Identity.canAuthenticate i | None => false end)
    by (unfold may_sign_in; by rewrite Hc).
  assert (Hw : withheld b c = match canonical with
    | Some i => negb (Identity.canAuthenticate i) && negb (Identity.terminal (Identity.status i))
    | None => false end) by (unfold withheld; by rewrite Hc).
  destruct canonical as [i|]; [|rewrite !decide_False by congruence; by apply IH in Hrun].
  destruct (Identity.canAuthenticate i).
  { apply IH in Hrun as (-> & -> & ->). rewrite decide_True, decide_False by (done || by rewrite Hw).
    by rewrite <- app_assoc. }
  assert (negb (bool_decide (Identity.status i = Deleted)) && negb (bool_decide (Identity.status i = Merged))
          = negb (Identity.terminal (Identity.status i))) as E by by destruct (Identity.status i).
  rewrite E in Hrun. rewrite (decide_False (P:=may_sign_in b c = true)) by congruence.
  destruct (Identity.terminal (Identity.status i)); simpl in *; apply IH in Hrun as (-> & -> & ->).
  - by rewrite decide_False by congruence.
  - rewrite decide_True by done. simpl. auto with lia.
Qed.

(** Convergence never guesses. When a subject that no link resolves is
    attached to an existing identity, the operator lets its provider
    self-provision, the provider vouches for a non-empty email address as
    verified, and among the identities that hold the address as verified
    exactly one is active, the one it is attached to; no other of them is
    suspended, locked or deactivated. *)
Theorem convergence_is_unambiguous outcome external t b i b' :
  convergeByVerifiedEmail config outcome external t b = (Ok (Some i), b') ->
  let claims := AuthenticationOutcome.claims outcome in
  exists email candidates,
    VerifiedClaims.get claims Email = Some email /\ email <> "" /\
    VerifiedClaims.isTrue claims EmailVerified = true /\
    ProviderTrustPolicy.maySelfProvision (Configuration.trustPolicy config)
      (AuthenticationOutcome.provider outcome) = true /\
    pr_findVerifiedByEmail (m_profiles b) email = Ok candidates /\
    i ∈ candidates /\ may_sign_in b i = true /\
    (forall c, c ∈ candidates -> c = i \/ may_sign_in b c = false /\ withheld b c = false) /\
    ed_owner (m_identities b') (ExternalIdentityRef.key external) = Some i /\
    m_lifecycle b' = m_lifecycle b.
Proof.
  unfold convergeByVerifiedEmail. cbv zeta. intros Hrun. branch Hrun Hpolicy; [|done]. bool_prop.
  destruct (VerifiedClaims.get _ Email) as [email|]; [|done]. branch Hrun He; [done|]. bool_prop.
  apply prog_bind_ok in Hrun as (cs & b1 & [Hcs ->]%ask_ok & Hrun).
  apply prog_bind_ok in Hrun as ([active blocked] & b2 & (-> & Hact & Hblk)%sortCandidates_ok & Hrun).
  branch Hrun Hmany; [done|]. branch Hrun Hnone; [done|].
  destruct active as [|x [|y active]]; [done| |done].
  apply prog_bind_ok in Hrun as ([] & b3 & [Ho Hl]%attachVerified_ok & Hrun).
  injection Hrun as -> <-. simpl in Hact.
  assert (Hin : forall c, c ∈ [i] <-> may_sign_in b c = true /\ c ∈ cs)
    by (intros c; rewrite Hact; by rewrite list_elem_of_filter).
  setoid_rewrite list_elem_of_singleton in Hin. destruct (proj1 (Hin i) eq_refl) as [Hi Hmem].
  assert (Hw : filter (fun c => withheld b c = true) cs = []).
  { apply nil_length_inv. destruct blocked; [lia|done]. }
  exists email, cs. split_and!; try done. intros c Hc.
  destruct (may_sign_in b c) eqn:Hm; [left; apply Hin; done|right; split; [done|]].
  apply not_true_is_false. intros Hb. apply (not_elem_of_nil c). rewrite <- Hw.
  by apply list_elem_of_filter.
Qed.
End broker_laws.

(** ** Handoffs on the in-memory transaction store *)

Section handoffs.
Context `{Plat : Platform, !PlatformLaws Plat}.
Context {D I P : Type}
  `{!ExternalIdentityDirectory D, !ExternalIdentityDirectoryLaws D,
    !IdentityRepository I, !IdentityRepositoryLaws I, !IdentityProfileRepository P}.
Context (config : Configuration.t).

Import AuthenticationService.
Abbreviation T := InMemoryAuthenticationTransactionStore.t.
Abbreviation state := (broker T D I P world).
Implicit Types b : state.

(** Time passes and other calls draw random octets: the world moves on. *)
Definition later b (w : world) : state :=
  mkBroker (m_transactions b) (m_identities b) (m_lifecycle b) (m_profiles b) w.

Definition clock b : Instant := (clock_now (m_world b)).1.

Lemma drawn_token b token b' :
  on_world (randomTokenBase64Url 32) b = (Ok token, b') ->
  exists bytes w, token = toBase64Url bytes /\ length bytes = 32%nat /\ b' = later b w.
Proof.
  intros (w & Hr & ->)%on_world_ok. apply randomToken_decodes in Hr as (bytes & -> & Hlen).
  by exists bytes, w.
Qed.

(** The gate looks at the lifecycle repository only. *)
Lemma requireActive_later identity b b' r :
  requireActiveIdentity config identity b = (Ok r, b) -> m_lifecycle b' = m_lifecycle b ->
  requireActiveIdentity config identity b' = (Ok r, b').
Proof.
  unfold requireActiveIdentity. intros Hr Hl.
  destruct (negb _); [by injection Hr as ->|]. destruct (id_empty _); [done|].
  unfold mbind, prog_bind, ask in *. rewrite Hl.
  destruct (ir_findById _ _ _) as [[i|]|e|]; [|done..].
  destruct (Identity.canAuthenticate i); [|done]. by injection Hr as ->.
Qed.

(** Redeeming a stored transaction with its own secret in time. *)
Lemma redeem_stored b id secret bound tx t w :
  m_transactions b !! id = Some tx -> clock_now (m_world b) = (t, w) ->
  AuthenticationTransaction.redeemable tx secret bound t ->
  on_transactions (ts_consume id secret bound t) (later b w) =
    (Ok (AuthenticationTransaction.set_state tx Consumed),
     mkBroker (<[id := AuthenticationTransaction.set_state tx Consumed]> (m_transactions b))
       (m_identities b) (m_lifecycle b) (m_profiles b) w).
Proof.
  intros Htx Ht Hred. unfold on_transactions. apply zoom_eq. eexists. split; [|reflexivity].
  apply consume_ok_spec. by exists tx.
Qed.

(** A transaction that was consumed is never redeemed again. *)
Lemma consumed_refused b id secret bound tx t :
  m_transactions b !! id = Some (AuthenticationTransaction.set_state tx Consumed) ->
  exists e, (on_transactions (ts_consume id secret bound t) b).1 = Err e.
Proof.
  intros Htx. unfold on_transactions, zoom. cbn [ts_consume InMemoryAuthenticationTransactionStore.store].
  unfold InMemoryAuthenticationTransactionStore.consume. rewrite Htx.
  unfold AuthenticationTransaction.consume. rewrite bool_decide_eq_false_2 by done. by eexists.
Qed.

Lemma clock_run b t w : clock_now (m_world b) = (t, w) -> on_world Security.now b = (Ok t, later b w).
Proof. intros Ht. apply on_world_ok. exists w. split; [by apply now_ok|done]. Qed.

(** [ts_begin] that succeeded stored its transaction. *)
Lemma begin_stored (tx : AuthenticationTransaction.t) b b' :
  on_transactions (ts_begin tx) b = (ok, b') ->
  b' = mkBroker (<[AuthenticationTransaction.id tx := tx]> (m_transactions b)) (m_identities b)
         (m_lifecycle b) (m_profiles b) (m_world b).
Proof.
  unfold on_transactions. intros (ts & Hts & ->)%zoom_eq.
  destruct (begin_spec tx (m_transactions b)) as [[E _]|[e E]]; rewrite E in Hts; [|done].
  by injection Hts as <-.
Qed.

Lemma consume_handoff_stored ticket id secret tx b t w identity providerId returnTarget :
  split_ticket ticket = Some (id, secret) -> m_transactions b !! mkId id = Some tx ->
  clock_now (m_world b) = (t, w) -> AuthenticationTransaction.redeemable tx secret zeroDigest t ->
  AuthenticationTransaction.provider tx = mkId kHandoffProvider ->
  nonempty_entry (AuthenticationTransaction.metadata tx) kHandoffIdentityMetadata = Some identity ->
  nonempty_entry (AuthenticationTransaction.metadata tx) kHandoffProviderMetadata = Some providerId ->
  nonempty_entry (AuthenticationTransaction.metadata tx) kHandoffReturnMetadata = Some returnTarget ->
  requireActiveIdentity config (mkId identity) b = (Ok tt, b) ->
  consumeBrowserConnectionHandoff config ticket b =
    (Ok (BrowserConnectionTarget.mk (mkId identity) (mkId providerId) returnTarget),
     mkBroker (<[mkId id := AuthenticationTransaction.set_state tx Consumed]> (m_transactions b))
       (m_identities b) (m_lifecycle b) (m_profiles b) w).
Proof.
  intros Hsplit Htx Ht Hred Hprov Hi Hp Hr Hact. unfold consumeBrowserConnectionHandoff.
  rewrite Hsplit, (bind_run _ _ _ _ _ (clock_run b t w Ht)).
  rewrite (bind_run _ _ _ _ _ (attempt_run _ _ _ _ (redeem_stored b _ _ _ tx t w Htx Ht Hred) ltac:(done))).
  cbn [AuthenticationTransaction.set_state AuthenticationTransaction.metadata AuthenticationTransaction.provider].
  rewrite Hprov, Hi, Hp, Hr. simpl.
  by rewrite (bind_run _ _ _ _ _ (requireActive_later _ _ (mkBroker _ _ _ _ _) _ Hact eq_refl)).
Qed.

Lemma consume_handoff_refused ticket id secret tx b :
  split_ticket ticket = Some (id, secret) ->
  m_transactions b !! mkId id = Some (AuthenticationTransaction.set_state tx Consumed) ->
  (consumeBrowserConnectionHandoff config ticket b).1 = Err (authenticationFailure
    "Browser handoff redemption refused: ticket is unknown, expired, invalid, or already consumed.").
Proof.
  intros Hsplit Htx. unfold consumeBrowserConnectionHandoff. rewrite Hsplit.
  destruct (clock_now (m_world b)) as [t w] eqn:Ht.
  rewrite (bind_run _ _ _ _ _ (clock_run b t w Ht)).
  destruct (consumed_refused (later b w) (mkId id) secret zeroDigest tx t Htx) as [e He].
  destruct (on_transactions (ts_consume (mkId id) secret zeroDigest t) (later b w)) as [r b1] eqn:Hc.
  simpl in He. subst r. by rewrite (bind_run _ _ _ _ _ (attempt_run _ _ _ _ Hc ltac:(done))).
Qed.

(** A connection handoff carries its target to the browser, once. The
    ticket [issueBrowserConnectionHandoff] returns, presented while the
    handoff lasts, yields exactly the identity, the provider and the return
    path it was issued for; presented again, at any time, it is refused. *)
Theorem connection_handoff_round_trip identity providerId returnTarget c b handoff b1 w :
  issueBrowserConnectionHandoff config identity providerId returnTarget c b = (Ok handoff, b1) ->
  clock (later b1 w) < BrowserConnectionHandoff.expiresAt handoff ->
  let redeem := consumeBrowserConnectionHandoff config (BrowserConnectionHandoff.ticket handoff) in
  (redeem (later b1 w)).1 = Ok (BrowserConnectionTarget.mk identity providerId returnTarget) /\
  forall w', (redeem (later (redeem (later b1 w)).2 w')).1 = Err (authenticationFailure
    "Browser handoff redemption refused: ticket is unknown, expired, invalid, or already consumed.").
Proof.
  unfold issueBrowserConnectionHandoff. intros Hrun Hclock. branch Hrun Hvalid; [done|].
  apply prog_bind_ok in Hrun as ([] & b0 & Hactive & Hrun).
  destruct (requireActive_ok _ _ _ _ _ Hactive) as [-> _].
  apply attempt2_ok in Hrun as (gid & b2 & secret & b3 & Hid & Hsecret & Hrun).
  apply drawn_token in Hid as (bytes1 & w1 & -> & Hlen1 & ->).
  apply drawn_token in Hsecret as (bytes2 & w2 & -> & Hlen2 & ->).
  apply prog_bind_ok in Hrun as (t & b4 & (w3 & _ & ->)%on_world_ok & Hrun).
  apply prog_bind_ok in Hrun as (tx0 & b5 & [Htx ->]%lift_ok & Hrun).
  apply transaction_create_ok in Htx as (digest & Hdigest & Hpos & ->).
  apply prog_bind_ok in Hrun as ([] & b6 & ->%begin_stored & Hrun). injection Hrun as <- <-.
  pose proof (split_ticket_tokens bytes1 bytes2 Hlen1 Hlen2) as Hsplit.
  destruct identity as [i], providerId as [p]. unfold id_empty in Hvalid. bool_prop. simpl in *.
  cbn [BrowserConnectionHandoff.expiresAt BrowserConnectionHandoff.ticket] in *.
  unfold clock in Hclock. destruct (clock_now (m_world (later _ w))) as [t' w'] eqn:Ht' in Hclock.
  erewrite (consume_handoff_stored _ _ _ _ _ t' w' i p returnTarget Hsplit);
    [|simpl; apply lookup_insert_eq|exact Ht'| | | | | |].
  - split; [done|]. intros w4. eapply consume_handoff_refused; [done|]. simpl. apply lookup_insert_eq.
  - unfold AuthenticationTransaction.redeemable. simpl in *. done.
  - done.
  - unfold nonempty_entry. simpl. simplify_map_eq. by rewrite bool_decide_eq_false_2.
  - unfold nonempty_entry. simpl. simplify_map_eq. by rewrite bool_decide_eq_false_2.
  - unfold nonempty_entry. simpl. simplify_map_eq. by rewrite bool_decide_eq_false_2.
  - by eapply requireActive_later.
Qed.

(** *** The authentication handoff *)

(** What the browser asked for is stored under the publisher's identifier. *)
Lemma issue_authentication_ok providerId c b handoff b1 :
  issueBrowserAuthenticationHandoff config providerId c b = (Ok handoff, b1) ->
  exists bytes1 bytes2 bytes3 bytes4 digest redeemDigest t w,
    length bytes1 = 32%nat /\ length bytes2 = 32%nat /\ length bytes3 = 32%nat /\ length bytes4 = 32%nat /\
    BrowserAuthenticationHandoff.publisherTicket handoff = toBase64Url bytes1 +:+ "." +:+ toBase64Url bytes2 /\
    BrowserAuthenticationHandoff.redeemTicket handoff = toBase64Url bytes3 +:+ "." +:+ toBase64Url bytes4 /\
    sha256Text (toBase64Url bytes4) = Ok redeemDigest /\
    b1 = mkBroker (<[mkId (toBase64Url bytes1) := AuthenticationTransaction.mk (mkId (toBase64Url bytes1))
           (mkId kAuthenticationHandoffProvider) Redirect digest zeroDigest c Pending t
           (BrowserAuthenticationHandoff.expiresAt handoff)
           (<[kAuthenticationHandoffRedeemDigestMetadata := digestHex redeemDigest]>
             (<[kAuthenticationHandoffResultIdMetadata := toBase64Url bytes3]>
               {[kHandoffProviderMetadata := id_value providerId]}))]> (m_transactions b))
         (m_identities b) (m_lifecycle b) (m_profiles b) w.
Proof.
  unfold issueBrowserAuthenticationHandoff. intros Hrun. branch Hrun Hvalid; [done|].
  branch Hrun Hmodel; [done|].
  apply attempt4_ok in Hrun as (i1 & b2 & s1 & b3 & i2 & b4 & s2 & b5 & H1 & H2 & H3 & H4 & Hrun).
  apply drawn_token in H1 as (bytes1 & w1 & -> & L1 & ->). apply drawn_token in H2 as (bytes2 & w2 & -> & L2 & ->).
  apply drawn_token in H3 as (bytes3 & w3 & -> & L3 & ->). apply drawn_token in H4 as (bytes4 & w4 & -> & L4 & ->).
  apply prog_bind_ok in Hrun as (redeemDigest & b6 & [Hredeem ->]%lift_ok & Hrun).
  apply prog_bind_ok in Hrun as (t & b7 & (w5 & _ & ->)%on_world_ok & Hrun).
  apply prog_bind_ok in Hrun as (tx0 & b8 & [Htx ->]%lift_ok & Hrun).
  apply transaction_create_ok in Htx as (digest & Hdigest & Hpos & ->).
  apply prog_bind_ok in Hrun as ([] & b9 & ->%begin_stored & Hrun). injection Hrun as <- <-.
  by exists bytes1, bytes2, bytes3, bytes4, digest, redeemDigest, t, w5.
Qed.

(** Publishing for a stored request stores the result under its own identifier. *)
Lemma publish_stored ticket v id secret tx b b' provider resultId redeemDigest :
  split_ticket ticket = Some (id, secret) -> m_transactions b !! mkId id = Some tx ->
  nonempty_entry (AuthenticationTransaction.metadata tx) kHandoffProviderMetadata = Some provider ->
  nonempty_entry (AuthenticationTransaction.metadata tx) kAuthenticationHandoffResultIdMetadata
    = Some resultId ->
  AuthenticationTransaction.metadata tx !! kAuthenticationHandoffRedeemDigestMetadata
    = Some (digestHex redeemDigest) ->
  length redeemDigest = kSha256Size ->
  publishBrowserAuthenticationHandoff ticket v b = (ok, b') ->
  id_value (AuthenticationOutcome.provider (VerifiedAuthentication.outcome v)) = provider /\
  m_identities b' = m_identities b /\ m_lifecycle b' = m_lifecycle b /\
  exists t, m_transactions b' !! mkId resultId = Some
    (AuthenticationTransaction.mk (mkId resultId) (mkId kAuthenticationHandoffResultProvider) Redirect
       redeemDigest zeroDigest (AuthenticationTransaction.correlation tx) Pending t
       (AuthenticationTransaction.expiresAt tx) (resultMetadata v)).
Proof.
  intros Hsplit Htx Hprov Hres Hdig Hlen. unfold publishBrowserAuthenticationHandoff. rewrite Hsplit.
  intros (t & b1 & (w & _ & ->)%on_world_ok & Hrun)%prog_bind_ok.
  apply prog_bind_ok in Hrun as (tx' & b2 & Hc & Hrun).
  unfold on_transactions in Hc. apply zoom_eq in Hc as (ts & Hts & ->). simpl in Hts.
  apply consume_ok_spec in Hts as (tx0 & Htx0 & _ & -> & ->). rewrite Htx in Htx0. injection Htx0 as <-.
  branch Hrun Hpurpose; [done|]. cbv zeta in Hrun.
  cbn [AuthenticationTransaction.set_state AuthenticationTransaction.metadata
    AuthenticationTransaction.expiresAt AuthenticationTransaction.correlation] in Hrun.
  rewrite Hprov, Hres, Hdig, (parseDigestHex_digestHex _ Hlen) in Hrun.
  branch Hrun Hmatch; [done|]. bool_prop.
  apply prog_bind_ok in Hrun as (t1 & b3 & (w1 & _ & ->)%on_world_ok & Hrun).
  branch Hrun Hexp; [done|]. apply prog_bind_ok in Hrun as (result & b4 & [Hr ->]%lift_ok & Hrun).
  unfold AuthenticationTransaction.restore in Hr. destruct (_ || _); [done|]. injection Hr as <-.
  apply begin_stored in Hrun as ->. split_and!; [done..|]. exists t1. apply lookup_insert_eq.
Qed.

(** The result in full, as the browser gets it: no claims, no evidence. *)
Definition carried (v : VerifiedAuthentication.t) : VerifiedAuthentication.t :=
  let outcome := VerifiedAuthentication.outcome v in
  VerifiedAuthentication.mk
    (AuthenticationOutcome.mk (AuthenticationOutcome.provider outcome) (AuthenticationOutcome.subject outcome)
       VerifiedClaims.create (AuthenticationOutcome.claimedAssurance outcome)
       (AuthenticationOutcome.strength outcome) ProviderEvidence.create
       (AuthenticationOutcome.verifiedAt outcome))
    (VerifiedAuthentication.identity v).

(** Values a provider's outcome can hold: a subject, factors the code knows,
    and a time within [std::int64_t] after the epoch. *)
Definition representable (v : VerifiedAuthentication.t) : Prop :=
  let outcome := VerifiedAuthentication.outcome v in
  id_empty (AuthenticationOutcome.subject outcome) = false /\
  id_empty (AuthenticationOutcome.provider outcome) = false /\
  0 <= AuthenticationStrength.factors (AuthenticationOutcome.strength outcome) <= 7 /\
  0 <= AuthenticationOutcome.verifiedAt outcome <= 9223372036854775807.

(** What a redemption checks again: the identity is active and owns the
    subject, and the provider is trusted for the assurance. *)
Definition still_current (v : VerifiedAuthentication.t) b : Prop :=
  let outcome := VerifiedAuthentication.outcome v in
  requireActiveIdentity config (VerifiedAuthentication.identity v) b = (Ok tt, b) /\
  ed_ownerOf (m_identities b) (ExternalIdentityRef.mk (AuthenticationOutcome.provider outcome)
    (AuthenticationOutcome.subject outcome) None None None) = Ok (Some (VerifiedAuthentication.identity v)) /\
  exists implementation cap,
    ProviderRegistry.find (Configuration.providers config) (AuthenticationOutcome.provider outcome)
      = Some implementation /\
    effectiveMaximum config implementation (AuthenticationOutcome.provider outcome) = Some cap /\
    meetsAssurance cap (AuthenticationOutcome.claimedAssurance outcome) = true.

Lemma parseResult_stored v :
  representable v ->
  let outcome := VerifiedAuthentication.outcome v in
  let strength := AuthenticationOutcome.strength outcome in
  parseResult (assuranceLevelName (AuthenticationOutcome.claimedAssurance outcome))
    (to_string (AuthenticationStrength.factors strength mod 256))
    (if AuthenticationStrength.isPhishingResistant strength then "1" else "0")
    (to_string (AuthenticationOutcome.verifiedAt outcome))
  = Some (AuthenticationOutcome.claimedAssurance outcome, strength, AuthenticationOutcome.verifiedAt outcome).
Proof.
  intros (_ & _ & Hf & Ht). cbv zeta. unfold parseResult.
  rewrite parseAssurance_name. rewrite Z.mod_small by lia.
  unfold from_chars_unsigned, from_chars_int64. rewrite !from_chars_to_string by lia. simpl.
  destruct (Z.ltb_spec 7 (AuthenticationStrength.factors
    (AuthenticationOutcome.strength (VerifiedAuthentication.outcome v)))); [lia|].
  destruct (Z.ltb_spec (AuthenticationOutcome.verifiedAt (VerifiedAuthentication.outcome v)) 0); [lia|].
  by destruct (AuthenticationOutcome.strength _) as [f []].
Qed.

Lemma redeem_result_stored ticket id secret tx v b t w :
  split_ticket ticket = Some (id, secret) -> m_transactions b !! mkId id = Some tx ->
  clock_now (m_world b) = (t, w) -> AuthenticationTransaction.redeemable tx secret zeroDigest t ->
  AuthenticationTransaction.provider tx = mkId kAuthenticationHandoffResultProvider ->
  AuthenticationTransaction.metadata tx = resultMetadata v ->
  representable v -> still_current v b ->
  redeemBrowserAuthenticationHandoff config ticket b =
    (Ok (carried v),
     mkBroker (<[mkId id := AuthenticationTransaction.set_state tx Consumed]> (m_transactions b))
       (m_identities b) (m_lifecycle b) (m_profiles b) w).
Proof.
  intros Hsplit Htx Ht Hred Hprov Hmeta Hrep (Hact & Hown & implementation & cap & Hfind & Hcap & Hmeets).
  unfold redeemBrowserAuthenticationHandoff.
  rewrite Hsplit, (bind_run _ _ _ _ _ (clock_run b t w Ht)).
  rewrite (bind_run _ _ _ _ _ (redeem_stored b _ _ _ tx t w Htx Ht Hred)).
  cbn [AuthenticationTransaction.set_state AuthenticationTransaction.metadata AuthenticationTransaction.provider].
  rewrite Hprov, Hmeta. cbv zeta. unfold resultMetadata at 1 2 3 4 5 6 7. simplify_map_eq.
  rewrite (parseResult_stored v Hrep). rewrite !mkId_value, Hmeets. simpl.
  rewrite (bind_run _ _ _ _ _ (requireActive_later _ _ (mkBroker _ _ _ _ _) _ Hact eq_refl)).
  unfold mbind, prog_bind, attempt, ask. simpl. rewrite Hown. simpl.
  rewrite bool_decide_eq_true_2 by done. unfold AuthenticationOutcome.create, lift.
  destruct Hrep as (-> & -> & _). done.
Qed.

Lemma redeem_result_refused ticket id secret tx b :
  split_ticket ticket = Some (id, secret) ->
  m_transactions b !! mkId id = Some (AuthenticationTransaction.set_state tx Consumed) ->
  is_ok (redeemBrowserAuthenticationHandoff config ticket b).1 = false.
Proof.
  intros Hsplit Htx. unfold redeemBrowserAuthenticationHandoff. rewrite Hsplit.
  destruct (clock_now (m_world b)) as [t w] eqn:Ht.
  rewrite (bind_run _ _ _ _ _ (clock_run b t w Ht)).
  destruct (consumed_refused (later b w) (mkId id) secret zeroDigest tx t Htx) as [e He].
  unfold mbind, prog_bind.
  destruct (on_transactions (ts_consume (mkId id) secret zeroDigest t) (later b w)) as [r b1] eqn:Hc.
  simpl in He. by subst r.
Qed.

(** A wallet's sign-in reaches the browser that asked for it, once. A
    result published under the publisher ticket of an authentication handoff
    is what the redeem ticket of the same handoff yields while the handoff
    lasts and the result is still current: the same identity, provider,
    subject, assurance, strength and time, and neither claims nor evidence.
    The redeem ticket is refused the second time. *)
Theorem authentication_handoff_round_trip providerId c v b handoff b1 w1 b2 w2 :
  id_empty providerId = false ->
  issueBrowserAuthenticationHandoff config providerId c b = (Ok handoff, b1) ->
  publishBrowserAuthenticationHandoff (BrowserAuthenticationHandoff.publisherTicket handoff) v
    (later b1 w1) = (ok, b2) ->
  representable v -> still_current v b -> clock (later b2 w2) < BrowserAuthenticationHandoff.expiresAt handoff ->
  let redeem := redeemBrowserAuthenticationHandoff config (BrowserAuthenticationHandoff.redeemTicket handoff) in
  (redeem (later b2 w2)).1 = Ok (carried v) /\
  forall w, is_ok (redeem (later (redeem (later b2 w2)).2 w)).1 = false.
Proof.
  intros Hprovider Hissue Hpub Hrep Hcur Hclock.
  apply issue_authentication_ok in Hissue
    as (bytes1 & bytes2 & bytes3 & bytes4 & digest & redeemDigest & t & w & L1 & L2 & L3 & L4 & Hpt & Hrt & Hd & ->).
  cbv zeta. rewrite Hpt in Hpub. rewrite Hrt.
  eapply (publish_stored _ v _ _ _ _ _ (id_value providerId) (toBase64Url bytes3) redeemDigest
    (split_ticket_tokens _ _ L1 L2)) in Hpub as (Hprov & Hids & Hlife & tp & Hstored).
  2: { simpl. apply lookup_insert_eq. }
  2: { unfold nonempty_entry. simpl. simplify_map_eq. unfold id_empty in Hprovider. by rewrite Hprovider. }
  2: { unfold nonempty_entry. simpl. simplify_map_eq. rewrite bool_decide_eq_false_2; [done|].
       apply toBase64Url_nonempty. by intros ->. }
  2: { simpl. by simplify_map_eq. }
  2: by eapply sha256Text_length.
  destruct (clock_now (m_world (later b2 w2))) as [t' w'] eqn:Ht'.
  unfold clock in Hclock. rewrite Ht' in Hclock.
  erewrite (redeem_result_stored _ _ _ _ v (later b2 w2) t' w' (split_ticket_tokens _ _ L3 L4) Hstored Ht');
    [|by split_and!|done..|].
  - split; [done|]. intros w3. eapply redeem_result_refused; [by apply split_ticket_tokens|].
    simpl. apply lookup_insert_eq.
  - destruct Hcur as (Hact & Hown & Hcap). split_and!; [by eapply requireActive_later| |done].
    simpl. by rewrite Hids.
Qed.
End handoffs.
