(* ===== verification/Scenario.v ===== *)
(** * openproof.authentication: the broker on a concrete deployment

    One organization, two federated providers that sign users in with a verified
    email address, and alice, who is linked to the first of them. The theorems
    of [Broker] are applied to runs of the service on the in-memory stores. *)
From S2P Require Import Prelude Foundation Encoding Security Provider Transaction IdentityCore Link Profile Wire Authentication Broker.

(** ** The deployment *)

Module Deployment.
Import TestPlatform.

Definition alice : IdentityId := mkId "alice".
Definition acme : OrganizationId := mkId "acme".

(** A provider that answers each exchange with one verified subject. *)
Definition federated (name subject : string) : AuthenticationProvider.t :=
  AuthenticationProvider.mk (mkId name) Redirect Ial2
    (fun _ w => (Some (Ok (AuthenticationChallenge.create (mkId "challenge") (w + minutes 10))), w))
    (fun _ w =>
       (Some (AuthenticationOutcome.create (mkId name) (mkId subject)
          (VerifiedClaims.set (VerifiedClaims.set VerifiedClaims.create Email "Alice@Example.org")
             EmailVerified "true")
          Ial1 (AuthenticationStrength.mk Possession false) ProviderEvidence.create w), w)).

(** A wallet that signs a challenge. *)
Definition wallet : AuthenticationProvider.t :=
  AuthenticationProvider.mk (mkId "wallet") ChallengeResponse Ial3
    (AuthenticationProvider.beginAuthentication (federated "wallet" "0xabc"))
    (AuthenticationProvider.completeAuthentication (federated "wallet" "0xabc")).

Definition registry : ProviderRegistry.t :=
  list_to_map [(mkId "google", federated "google" "12345"); (mkId "github", federated "github" "7");
               (mkId "wallet", wallet)].

Definition trust : ProviderTrustPolicy.t :=
  ((ProviderTrustPolicy.trust (mkId "google") Ial2 false ≫= fun _ =>
    ProviderTrustPolicy.trust (mkId "github") Ial2 true ≫= fun _ =>
    ProviderTrustPolicy.trust (mkId "wallet") Ial3 false) ProviderTrustPolicy.empty).2.

Definition config : Configuration.t :=
  Configuration.mk registry trust (minutes 5) true acme true.

Definition google_subject : ExternalIdentityRef.t :=
  ExternalIdentityRef.mk (mkId "google") (mkId "12345") None None None.
Definition github_subject : ExternalIdentityRef.t :=
  ExternalIdentityRef.mk (mkId "github") (mkId "7") None None None.
Definition wallet_subject : ExternalIdentityRef.t :=
  ExternalIdentityRef.mk (mkId "wallet") (mkId "0xabc") None None None.

Definition linked (external : ExternalIdentityRef.t) : IdentityLink.t :=
  IdentityLink.mk alice external LinkState.Linked 10 70.

Abbreviation state := (broker InMemoryAuthenticationTransactionStore.t
  InMemoryExternalIdentityDirectory.t InMemoryIdentityRepository.t
  InMemoryIdentityProfileRepository.t world).

(** Alice is active, has a verified email address, and is linked to Google
    and to the wallet; nobody is linked to the GitHub subject. *)
Definition start : state := mkBroker
  ∅
  (run_directory_ops [DAttach (linked google_subject); DAttach (linked wallet_subject)]
     InMemoryExternalIdentityDirectory.empty)
  {[ alice := InMemoryIdentityRepository.mkOwned acme (Identity.mk alice Human Active 5) ]}
  {[ alice := (IdentityProfile.setEmail "alice@example.org" true 6
                 (IdentityProfile.mk alice None None None false None false None None "auto" 5 5)).2 ]}
  1000.

Definition browser : BindingDigest := checksum (as_bytes "browser").

Definition request (provider : string) : AuthenticationRequest.t :=
  AuthenticationRequest.setRequestedAssurance
    (AuthenticationRequest.create (mkId provider) ClientContext.create) Ial1.
Definition response : AuthenticationResponse.t :=
  AuthenticationResponse.create (mkId "challenge") ClientContext.create.

(** The value and the state of a run that succeeds. *)
Definition value {A} (d : A) (r : Result A * state) : A :=
  match r.1 with Ok a => a | _ => d end.

Lemma ran {A} (d : A) (r : Result A * state) : is_ok r.1 = true -> r = (Ok (value d r), r.2).
Proof. unfold value. by destruct r as [[]]. Qed.

Definition no_start : AuthenticationStart.t :=
  AuthenticationStart.mk (mkId "") (AuthenticationChallenge.create (mkId "") 0) "".
Definition no_outcome : AuthenticationOutcome.t :=
  AuthenticationOutcome.mk (mkId "") (mkId "") VerifiedClaims.create Ial0 AuthenticationStrength.none
    ProviderEvidence.create 0.
Definition nobody : VerifiedAuthentication.t := VerifiedAuthentication.mk no_outcome (mkId "").

Import AuthenticationService.

(** A sign-in through a provider: the redirect out, and the way back. *)
Definition opened (provider : string) := begin config (request provider) browser (mkId "corr") start.
Definition leaving (provider : string) := value no_start (opened provider).
Definition id (provider : string) := AuthenticationStart.transactionId (leaving provider).
Definition token (provider : string) := AuthenticationStart.continuationToken (leaving provider).
Definition finish (provider : string) :=
  complete config (id provider) (token provider) browser response.
Definition back (provider : string) := finish provider (opened provider).2.

Definition converged :=
  convergeByVerifiedEmail config (VerifiedAuthentication.outcome (value nobody (back "github")))
    github_subject 1005 (opened "github").2.

(** A connection of the GitHub subject to alice. *)
Definition connecting := beginConnection config (request "github") browser (mkId "corr") alice start.
Definition connected :=
  let s := value no_start connecting in
  completeConnection config (AuthenticationStart.transactionId s) (AuthenticationStart.continuationToken s)
    browser response connecting.2.

(** A wallet sign-in that a browser asked for: issued to the browser,
    published by the wallet, redeemed by the browser. *)
Definition issued := issueBrowserAuthenticationHandoff config (mkId "wallet") (mkId "corr") start.
Definition tickets := value (BrowserAuthenticationHandoff.mk "" "" 0) issued.
Definition signed :=
  VerifiedAuthentication.mk
    (AuthenticationOutcome.mk (mkId "wallet") (mkId "0xabc") VerifiedClaims.create Ial3
       (AuthenticationStrength.mk Possession true) ProviderEvidence.create 1010) alice.
Definition published :=
  publishBrowserAuthenticationHandoff (BrowserAuthenticationHandoff.publisherTicket tickets) signed
    (mkBroker (m_transactions issued.2) (m_identities issued.2) (m_lifecycle issued.2) (m_profiles issued.2) 1500).
Definition redeemed :=
  redeemBrowserAuthenticationHandoff config (BrowserAuthenticationHandoff.redeemTicket tickets) published.2.

(** A handoff that carries a connection ceremony to the browser. *)
Definition handed := issueBrowserConnectionHandoff config alice (mkId "github") "/settings" (mkId "corr") start.
Definition handoff := value (BrowserConnectionHandoff.mk "" 0) handed.
End Deployment.

(** ** The theorems of the broker, applied to it *)

Module BrokerWitnesses.
Import Deployment AuthenticationService.

Abbreviation owner b external :=
  (ed_owner (m_identities b) (ExternalIdentityRef.key external)).

Lemma broker_never_transfers_witness : owner (back "github").2 google_subject = Some alice.
Proof.
  eapply (broker_never_transfers config _ (finish "github")).
  - constructor.
  - vm_compute. reflexivity.
Defined.

Lemma verified_authentication_is_earned_witness :
  identity_active config (VerifiedAuthentication.identity (value nobody (back "google"))) (back "google").2.
Proof.
  edestruct (verified_authentication_is_earned config (id "google") (token "google") browser response (opened "google").2
               (value nobody (back "google")) (back "google").2)
    as (exchange & b1 & _ & _ & _ & Hactive & _); [|exact Hactive].
  apply ran. vm_compute. reflexivity.
Defined.

Lemma connection_attaches_to_its_target_witness : exists target,
  owner connected.2 (value google_subject connected) = Some target.
Proof.
  edestruct (connection_attaches_to_its_target config (AuthenticationStart.transactionId (value no_start connecting))
               (AuthenticationStart.continuationToken (value no_start connecting)) browser response
               connecting.2 (value google_subject connected) connected.2) as (exchange & b1 & target & _ & _ & _ & Howner & _); [|exists target; exact Howner].
  apply ran. vm_compute. reflexivity.
Defined.

Lemma redeemed_result_is_current_witness :
  identity_active config (VerifiedAuthentication.identity (value nobody redeemed)) published.2.
Proof.
  edestruct (redeemed_result_is_current config (BrowserAuthenticationHandoff.redeemTicket tickets)
               published.2 (value nobody redeemed) redeemed.2)
    as (id & secret & t & w & tx & implementation & cap & _ & _ & _ & _ & _ & _ & _ & _ & _ & _ & Hactive & _);
    [|exact Hactive].
  apply ran. vm_compute. reflexivity.
Defined.

Lemma exchange_opened_within_trust_witness : identity_active config alice start.
Proof.
  edestruct (exchange_opened_within_trust config (request "github") browser (mkId "corr") (Some alice) start
               (value no_start connecting) connecting.2) as [_ Hactive]; [|by apply Hactive].
  apply ran. vm_compute. reflexivity.
Defined.

Lemma connection_handoff_round_trip_witness :
  (consumeBrowserConnectionHandoff config (BrowserConnectionHandoff.ticket handoff) (later handed.2 1500)).1
  = Ok (BrowserConnectionTarget.mk alice (mkId "github") "/settings").
Proof.
  edestruct (connection_handoff_round_trip config alice (mkId "github") "/settings" (mkId "corr") start handoff
               handed.2 1500) as [Hredeemed _]; [| |exact Hredeemed].
  - apply ran. vm_compute. reflexivity.
  - vm_compute. reflexivity.
Defined.

Lemma authentication_handoff_round_trip_witness :
  (redeemBrowserAuthenticationHandoff config (BrowserAuthenticationHandoff.redeemTicket tickets)
     (later published.2 1600)).1 = Ok (carried signed).
Proof.
  edestruct (authentication_handoff_round_trip config (mkId "wallet") (mkId "corr") signed start tickets issued.2
               1500 published.2 1600) as [Hredeemed _]; [| | | | | |exact Hredeemed].
  - reflexivity.
  - apply ran. vm_compute. reflexivity.
  - apply run_as. vm_compute. reflexivity.
  - repeat split; vm_compute; congruence.
  - split; [reflexivity|]. split; [vm_compute; reflexivity|].
    exists wallet, Ial3. repeat split; vm_compute; reflexivity.
  - vm_compute. reflexivity.
Defined.

Lemma convergence_is_unambiguous_witness :
  ed_owner (m_identities converged.2) (ExternalIdentityRef.key github_subject) = Some alice.
Proof.
  edestruct (convergence_is_unambiguous config (VerifiedAuthentication.outcome (value nobody (back "github")))
               github_subject 1005 (opened "github").2 alice converged.2)
    as (email & candidates & _ & _ & _ & _ & _ & _ & _ & _ & Howner & _); [|exact Howner].
  apply run_as. vm_compute. reflexivity.
Defined.
End BrokerWitnesses.

(** A subject nobody linked signs in as alice because its provider vouches for
    her email address, and is hers from then on: no linking ceremony, no
    transaction opened as a connection. *)
Example matching_verified_email_links :
  InMemoryExternalIdentityDirectory.ownerOf (m_identities Deployment.start) Deployment.github_subject = Ok None /\
  VerifiedAuthentication.identity (Deployment.value Deployment.nobody (Deployment.back "github"))
    = Deployment.alice /\
  InMemoryExternalIdentityDirectory.ownerOf (m_identities (Deployment.back "github").2) Deployment.github_subject
    = Ok (Some Deployment.alice).
Proof. vm_compute. auto. Qed.
