(* ===== verification/SessionService.v ===== *)
(** * openproof.session:service: bearer tokens over the session store

    Models [src/src/session/service.cpp]: keys, lifetimes, grants, delegated
    OAuth access and the service that issues, authenticates, rotates, lists and
    revokes sessions. The service is written against [SessionRepository]; a
    token service that accepts delegated access is foreign to this component:
    an argument of the operation that consults it. *)
From S2P Require Import Prelude Foundation Encoding Security Provider IdentityCore Authentication Session.

Definition kMinimumKeyBytes : Z := 32.
Definition kTokenEntropyBytes : nat := 32.
Definition kSessionIdentifierEntropyBytes : nat := 32.

(** The file's [invalidToken] has the body of [invalidSession]. *)
Definition invalidToken (detail : string) : Error :=
  Error_ofDetail AuthenticationFailed (defaultErrorMessage AuthenticationFailed) detail.

(** ** Values *)

Module SessionKey.
Record t := mk { m_secret : string }.

Definition create (secret : string) : Result t :=
  if Z.of_nat (String.length secret) <? kMinimumKeyBytes then
    fail InvalidArgument "A session key must contain at least 32 bytes."
  else Ok (mk secret).
End SessionKey.

Module SessionPolicy.
Record t := mk { absoluteLifetime : Duration; idleTimeout : Duration }.

Definition create (absoluteLifetime idleTimeout : Duration) : Result t :=
  if (absoluteLifetime <=? 0) || (idleTimeout <=? 0) || (absoluteLifetime <? idleTimeout) then
    fail InvalidArgument "Session lifetimes must be positive and idle timeout must not exceed absolute lifetime."
  else Ok (mk absoluteLifetime idleTimeout).
End SessionPolicy.

Module SessionGrant.
Record t := mk { id : SessionId; token : string }.
End SessionGrant.

Module AuthenticatedSession.
Record t := mk { session : Session.t }.

Definition fromDelegatedAccess (identity : IdentityId) (provider : ProviderId)
    (assurance : AssuranceLevel) (strength : AuthenticationStrength.t)
    (authenticatedAt now expiresAt : Instant) : Result t :=
  if id_empty identity || id_empty provider || (now <? authenticatedAt) || (expiresAt <=? now) then
    fail AuthenticationFailed "The delegated access context is invalid."
  else
    restored ← Session.restore (mkId "delegated-access") identity provider assurance strength
      SessionState.Active authenticatedAt zeroDigest now now expiresAt (expiresAt - now) None None None;
    Ok (mk restored).
End AuthenticatedSession.

Inductive DelegatedSenderConstraintKind := Dpop | Mtls.

Module DelegatedSenderConstraint.
Record t := mk { kind : DelegatedSenderConstraintKind; value : string }.
End DelegatedSenderConstraint.

Module DelegatedAccess.
Record t := mk {
  authenticated : AuthenticatedSession.t;
  clientId : string;
  scopes : list string;
  audiences : list string;
  senderConstraint : option DelegatedSenderConstraint.t;
}.

(** The constructor sorts both vectors and drops the duplicates. *)
Definition create (authenticated : AuthenticatedSession.t) (clientId : string)
    (scopes audiences : list string) (senderConstraint : option DelegatedSenderConstraint.t) : t :=
  mk authenticated clientId (sort_unique scopes) (sort_unique audiences) senderConstraint.

Definition permits (a : t) (scope : string) : bool :=
  bool_decide (scope = "") || binary_search (scopes a) scope.
Definition permitsAudience (a : t) (audience : string) : bool :=
  bool_decide (audience = "") || binary_search (audiences a) audience.

Lemma permits_create authenticated clientId scopes audiences constraint scope :
  permits (create authenticated clientId scopes audiences constraint) scope
  = bool_decide (scope = "" \/ scope ∈ scopes).
Proof.
  unfold permits, create. cbn [DelegatedAccess.scopes]. rewrite sort_unique_search.
  by rewrite bool_decide_or.
Qed.
End DelegatedAccess.

(** ** The service *)

(** The sessions behind the repository reference, the state behind the port of
    delegated access, and the platform (clock and random octets). *)
Record service (S X W : Type) := mkService {
  s_sessions : S;
  s_delegated : X;
  s_world : W;
}.
Arguments mkService {S X W}.
Arguments s_sessions {S X W}.
Arguments s_delegated {S X W}.
Arguments s_world {S X W}.

Module SessionService.
Section service.
Context `{Plat : Platform}.
Context {S X : Type} `{!SessionRepository S}.
Context (key : SessionKey.t) (policy : SessionPolicy.t).

Abbreviation state := (service S X world).
Abbreviation handler A := (prog state Error A).

Definition on_sessions {A} (m : prog S Error A) : handler A :=
  zoom s_sessions (fun x s => mkService x (s_delegated s) (s_world s)) m.
Definition on_world {A} (m : prog world Error A) : handler A :=
  zoom s_world (fun x s => mkService (s_sessions s) (s_delegated s) x) m.
Definition on_delegated {A} (m : prog (X * world) Error A) : handler A :=
  zoom (fun s => (s_delegated s, s_world s)) (fun x s => mkService (s_sessions s) x.1 x.2) m.

Definition digest (token : string) : Result TokenDigest :=
  if bool_decide (token = "") then Err (invalidToken "An empty session token was presented.")
  else hmacSha256 (SessionKey.m_secret key) token.

(** [value.empty() ? std::nullopt : std::optional{value}]. *)
Definition optional_text (value : string) : option string :=
  if bool_decide (value = "") then None else Some value.

Definition issue (authentication : VerifiedAuthentication.t) (client : ClientContext.t)
    : handler SessionGrant.t :=
  generatedId ← on_world (randomTokenBase64Url kSessionIdentifierEntropyBytes);
  generatedToken ← on_world (randomTokenBase64Url kTokenEntropyBytes);
  let id : SessionId := mkId generatedId in
  let token := generatedToken in
  fingerprint ← lift (digest token);
  now ← on_world now;
  let outcome := VerifiedAuthentication.outcome authentication in
  session ← lift (Session.create id (VerifiedAuthentication.identity authentication)
    (AuthenticationOutcome.provider outcome) (AuthenticationOutcome.claimedAssurance outcome)
    (AuthenticationOutcome.strength outcome) (AuthenticationOutcome.verifiedAt outcome) fingerprint now
    (SessionPolicy.absoluteLifetime policy) (SessionPolicy.idleTimeout policy)
    (optional_text (ClientContext.userAgent client)) (optional_text (ClientContext.remoteAddress client)));
  _ ← on_sessions (sr_add session);
  mret (SessionGrant.mk id token).

(** The overload without a client. *)
Definition issueForUnknownClient (authentication : VerifiedAuthentication.t) : handler SessionGrant.t :=
  issue authentication ClientContext.create.

Definition authenticate (token : string) : handler AuthenticatedSession.t :=
  fingerprint ← lift (digest token);
  now ← on_world now;
  session ← on_sessions (sr_use fingerprint now);
  mret (AuthenticatedSession.mk session).

Definition revoke (id : SessionId) : handler unit :=
  now ← on_world now;
  on_sessions (sr_revoke id now).

(** The session the presented cookie opens, if it opens one. *)
Definition previousSession (previousToken : option string) : handler (option SessionId) :=
  match previousToken with
  | Some token =>
      if bool_decide (token = "") then mret None
      else
        existing ← attempt (authenticate token);
        mret (match existing with
              | Ok existing => Some (Session.id (AuthenticatedSession.session existing))
              | _ => None
              end)
  | None => mret None
  end.

Definition issueReplacing (authentication : VerifiedAuthentication.t) (client : ClientContext.t)
    (previousToken : option string) : handler SessionGrant.t :=
  previousId ← previousSession previousToken;
  created ← issue authentication client;
  match previousId with
  | Some previousId =>
      if bool_decide (previousId = SessionGrant.id created) then mret created
      else
        revoked ← attempt (revoke previousId);
        match revoked with
        | Ok _ => mret created
        | Err e => _ ← ignore (revoke (SessionGrant.id created)); throw e
        | Aborted => fun s => (Aborted, s)
        end
  | None => mret created
  end.

(** [authenticate(token, delegated, requiredScope)]. *)
Definition authenticateDelegated (token : string)
    (delegated : option (string -> prog (X * world) Error DelegatedAccess.t)) (requiredScope : string)
    : handler AuthenticatedSession.t :=
  firstParty ← attempt (authenticate token);
  match firstParty, delegated with
  | Ok firstParty, _ => mret firstParty
  | firstParty, None => lift firstParty
  | _, Some delegated =>
      access ← on_delegated (delegated token);
      if bool_decide (is_Some (DelegatedAccess.senderConstraint access)) then
        throw (Error_ofMessage AuthenticationFailed
                 "Sender-constrained delegated access requires proof verification at the protocol edge.")
      else if negb (DelegatedAccess.permits access requiredScope) then
        throw (Error_ofMessage PermissionDenied "The delegated access token lacks the required scope.")
      else mret (DelegatedAccess.authenticated access)
  end.

Definition rotate (token : string) : handler SessionGrant.t :=
  oldFingerprint ← lift (digest token);
  now1 ← on_world now;
  current ← on_sessions (sr_use oldFingerprint now1);
  replacement ← on_world (randomTokenBase64Url kTokenEntropyBytes);
  replacementFingerprint ← lift (digest replacement);
  now2 ← on_world now;
  _ ← on_sessions (sr_rotate (Session.id current) oldFingerprint replacementFingerprint now2);
  mret (SessionGrant.mk (Session.id current) replacement).

Definition revokeAll (identity : IdentityId) : handler nat :=
  now ← on_world now;
  on_sessions (sr_revokeAll identity now).

(** [left.lastSeenAt() > right.lastSeenAt()], with the order of equals left
    open by [std::ranges::sort]. *)
Definition more_recent (left right : Session.t) : Prop :=
  Session.lastSeenAt right <= Session.lastSeenAt left.
#[global] Instance more_recent_dec : RelDecision more_recent.
Proof. intros x y. unfold more_recent. apply _. Defined.

Definition list (identity : IdentityId) : handler (Datatypes.list Session.t) :=
  values ← (fun s => (sr_list (s_sessions s) identity, s));
  now ← on_world now;
  mret (merge_sort more_recent
          (filter (fun value => ~ (Session.state value <> SessionState.Active
                                   \/ Session.isExpiredAt value now = true)) values)).

Definition revokeOwned (identity : IdentityId) (id : SessionId) : handler unit :=
  found ← (fun s => (sr_find (s_sessions s) id, s));
  match found with
  | Some found =>
      if bool_decide (Session.identity found = identity) then
        now ← on_world now;
        on_sessions (sr_revoke id now)
      else throw (Error_ofMessage NotFound "That session was not found.")
  | None => throw (Error_ofMessage NotFound "That session was not found.")
  end.
End service.
End SessionService.

(** ** What the service guarantees *)

Section service_guarantees.
Context `{Plat : Platform, !PlatformLaws Plat}.
Context {S X : Type} `{!SessionRepository S}.
Context (key : SessionKey.t) (policy : SessionPolicy.t).

Import SessionService.
Implicit Types s : service S X world.

(** Delegated access is bound to its scope. Over any session store and
    any token service, a caller is accepted only with a token of a first-party
    session, or when the token service accepts the token for access that is
    not sender-constrained and permits the required scope: access built from
    a list of scopes permits a non-empty scope only if the scope is one of
    the list. *)
Theorem delegated_access_is_scoped token delegated requiredScope s a s' :
  authenticateDelegated key token delegated requiredScope s = (Ok a, s') ->
  authenticate key token s = (Ok a, s') \/
  exists d s1 e access xw,
    delegated = Some d /\ authenticate key token s = (Err e, s1) /\
    d token (s_delegated s1, s_world s1) = (Ok access, xw) /\
    a = DelegatedAccess.authenticated access /\ DelegatedAccess.senderConstraint access = None /\
    DelegatedAccess.permits access requiredScope = true /\
    (forall session clientId scopes audiences constraint,
       access = DelegatedAccess.create session clientId scopes audiences constraint ->
       requiredScope = "" \/ requiredScope ∈ scopes).
Proof.
  unfold authenticateDelegated. destruct (authenticate key token s) as [r s1] eqn:Hfirst.
  unfold mbind, prog_bind at 1, attempt. rewrite Hfirst.
  destruct r as [first|e|]; [by intros [= -> ->]; left| |done].
  destruct delegated as [d|]; [|done]. intros Hrun. right.
  apply prog_bind_ok in Hrun as (access & s2 & Hd & Hrun). unfold on_delegated in Hd.
  apply zoom_eq in Hd as (xw & Hd & ->).
  branch Hrun Hconstraint; [done|]. branch Hrun Hpermits; [done|]. injection Hrun as <- <-. bool_prop.
  exists d, s1, e, access, xw. split_and!; try done; [by apply eq_None_not_Some|].
  intros session clientId scopes audiences constraint ->.
  rewrite DelegatedAccess.permits_create in Hpermits. by bool_prop.
Qed.
End service_guarantees.

(** *** On the in-memory store *)

Section in_memory_service.
Context `{Plat : Platform, !PlatformLaws Plat}.
Context {X : Type} (key : SessionKey.t) (policy : SessionPolicy.t).

Import SessionService.
Abbreviation store_t := InMemorySessionRepository.t.
Abbreviation stored s := (InMemorySessionRepository.m_sessions (s_sessions s)).
Abbreviation tokens s := (InMemorySessionRepository.m_tokens (s_sessions s)).
Implicit Types s : service store_t X world.

Lemma on_world_run {A} (m : prog world Error A) s r s' :
  on_world m s = (r, s') <->
  exists w, m (s_world s) = (r, w) /\ s' = mkService (s_sessions s) (s_delegated s) w.
Proof. unfold on_world. by rewrite zoom_eq. Qed.

Lemma on_sessions_run {A} (m : prog store_t Error A) s r s' :
  on_sessions m s = (r, s') <->
  exists x, m (s_sessions s) = (r, x) /\ s' = mkService x (s_delegated s) (s_world s).
Proof. unfold on_sessions. by rewrite zoom_eq. Qed.

Lemma clock_reading s : exists t w, clock_now (s_world s) = (t, w) /\
  on_world now s = (Ok t, mkService (s_sessions s) (s_delegated s) w).
Proof.
  destruct (clock_now (s_world s)) as [t w] eqn:Ht. exists t, w. split; [done|].
  apply on_world_run. exists w. split; [|done]. unfold Security.now. by rewrite Ht.
Qed.

(** A new session, as the repository received it. *)
Definition issued (authentication : VerifiedAuthentication.t) (grant : SessionGrant.t) (session : Session.t)
    : Prop :=
  let outcome := VerifiedAuthentication.outcome authentication in
  Session.id session = SessionGrant.id grant /\
  digest key (SessionGrant.token grant) = Ok (Session.tokenDigest session) /\
  Session.state session = SessionState.Active /\
  Session.identity session = VerifiedAuthentication.identity authentication /\
  Session.provider session = AuthenticationOutcome.provider outcome /\
  Session.assurance session = AuthenticationOutcome.claimedAssurance outcome /\
  Session.strength session = AuthenticationOutcome.strength outcome /\
  Session.authenticatedAt session = AuthenticationOutcome.verifiedAt outcome /\
  Session.lastSeenAt session = Session.issuedAt session /\
  Session.absoluteExpiresAt session = Session.issuedAt session + SessionPolicy.absoluteLifetime policy /\
  Session.idleTimeout session = SessionPolicy.idleTimeout policy.

Lemma issue_ok authentication client s grant s' :
  issue key policy authentication client s = (Ok grant, s') ->
  exists session w, issued authentication grant session /\
    stored s !! Session.id session = None /\ tokens s !! Session.tokenDigest session = None /\
    s' = mkService (InMemorySessionRepository.mk (<[Session.id session := session]> (stored s))
                      (<[Session.tokenDigest session := Session.id session]> (tokens s)))
           (s_delegated s) w.
Proof.
  unfold issue. intros (gid & s1 & (w1 & _ & ->)%on_world_run & Hrun)%prog_bind_ok.
  apply prog_bind_ok in Hrun as (token & s2 & (w2 & _ & ->)%on_world_run & Hrun).
  apply prog_bind_ok in Hrun as (d & s3 & [Hd ->]%lift_ok & Hrun).
  apply prog_bind_ok in Hrun as (t & s4 & (w3 & _ & ->)%on_world_run & Hrun). cbv zeta in Hrun.
  apply prog_bind_ok in Hrun as (session & s5 & [Hs ->]%lift_ok & Hrun).
  apply prog_bind_ok in Hrun as ([] & s6 & (x & Hadd & ->)%on_sessions_run & Hrun).
  injection Hrun as <- <-.
  assert (Hissued : issued authentication (SessionGrant.mk (mkId gid) token) session).
  { unfold Session.create in Hs. handler Hs. unfold issued. cbn. split_and!; done. }
  cbn in Hadd. unfold InMemorySessionRepository.add in Hadd. handler Hadd. bool_prop.
  exists session, w3. split; [done|]. split_and!; [by apply eq_None_not_Some..|done].
Qed.

(** Presenting a token to a consistent store. *)
Lemma authenticate_run token d s t w :
  digest key token = Ok d -> clock_now (s_world s) = (t, w) ->
  authenticate key token s =
    let '(r, x) := InMemorySessionRepository.use d t (s_sessions s) in
    (AuthenticatedSession.mk <$> r, mkService x (s_delegated s) w).
Proof.
  intros Hd Ht. unfold authenticate. rewrite (bind_run _ _ _ _ _ (proj2 (lift_ok _ _ _ _) (conj Hd eq_refl))).
  destruct (clock_reading s) as (t1 & w1 & Ht1 & Hnow). rewrite Ht in Ht1. injection Ht1 as <- <-.
  rewrite (bind_run _ _ _ _ _ Hnow). unfold mbind, prog_bind, on_sessions, zoom. cbn.
  by destruct (InMemorySessionRepository.use d t (s_sessions s)) as [[]].
Qed.

(** An issued token opens its session. When [issue] succeeds on a
    consistent store, presenting the granted token before the session's two
    deadlines is accepted, as the granted session: with the identity,
    provider, assurance, strength and time of the verified authentication it
    was issued for, and under the lifetimes of the policy. *)
Theorem issued_token_opens_its_session authentication client s grant s' w t w' :
  consistent (s_sessions s) -> issue key policy authentication client s = (Ok grant, s') ->
  clock_now w = (t, w') ->
  exists session,
    stored s' !! SessionGrant.id grant = Some session /\ issued authentication grant session /\
    (t < Session.absoluteExpiresAt session -> t < Session.issuedAt session + SessionPolicy.idleTimeout policy ->
     (authenticate key (SessionGrant.token grant) (mkService (s_sessions s') (s_delegated s') w)).1
     = Ok (AuthenticatedSession.mk (Session.set_lastSeenAt session t))).
Proof.
  intros Hc (session & w1 & Hissued & Hid & Htok & ->)%issue_ok Ht. exists session.
  pose proof Hissued as (E & Hd & Hact & _ & _ & _ & _ & _ & Hseen & _ & Hidle).
  split; [rewrite <- E; apply lookup_insert_eq|]. split; [done|]. intros Habs Hi.
  rewrite (authenticate_run _ _ (mkService _ _ w) t w' Hd Ht). cbn [s_sessions].
  unfold InMemorySessionRepository.use. cbn. rewrite !lookup_insert_eq.
  assert (Hus : Session.usable session (Session.tokenDigest session) t).
  { unfold Session.usable. rewrite Hseen, Hidle. done. }
  by rewrite (proj2 (Session.use_ok_iff _ t session _) (conj Hus eq_refl)).
Qed.

(** What presenting a token does to a consistent store, whatever the answer. *)
Lemma authenticate_effect token s r s1 :
  consistent (s_sessions s) -> authenticate key token s = (r, s1) ->
  consistent (s_sessions s1) /\
  (forall id, stored s1 !! id = None <-> stored s !! id = None) /\
  (forall id x, stored s !! id = Some x -> digest key token <> Ok (Session.tokenDigest x) ->
     stored s1 !! id = Some x) /\
  (forall a, r = Ok a ->
     stored s1 !! Session.id (AuthenticatedSession.session a) = Some (AuthenticatedSession.session a) /\
     Session.state (AuthenticatedSession.session a) = SessionState.Active /\
     exists x, stored s !! Session.id (AuthenticatedSession.session a) = Some x /\
       digest key token = Ok (Session.tokenDigest x)).
Proof.
  intros Hc Hrun. destruct (digest key token) as [d|e|] eqn:Hd.
  2, 3: unfold authenticate, mbind, prog_bind, lift in Hrun; rewrite Hd in Hrun; by injection Hrun as <- <-.
  destruct (clock_reading s) as (t & w & Ht & _). rewrite (authenticate_run token d s t w Hd Ht) in Hrun.
  destruct (InMemorySessionRepository.use d t (s_sessions s)) as [u x] eqn:Hu. injection Hrun as <- <-.
  assert (Hc' : consistent x).
  { pose proof (run_consistent [SUse d t] _ Hc) as Hc'. cbn in Hc'. by rewrite Hu in Hc'. }
  pose proof (use_ok_cases d t (s_sessions s)) as Hok. cbn [sr_use InMemorySessionRepository.repository] in Hok.
  rewrite Hu in Hok. split; [done|]. cbn [s_sessions].
  apply use_cases in Hu as [(_ & -> & ->)|(id & s0 & u0 & s0' & Htok & Hs0 & Hu0 & -> & ->)]; [done| |done].
  cbn. destruct (proj1 Hc _ _ Hs0) as [Hid Htd].
  assert (Hdig : Session.tokenDigest s0 = d).
  { destruct (proj2 Hc _ _ Htok) as (y & Hy & <-). rewrite Hs0 in Hy. by injection Hy as ->. }
  split_and!.
  - intros id'. rewrite lookup_insert. case_decide; [subst; by rewrite Hs0|done].
  - intros id' y Hy Hne. rewrite lookup_insert_ne; [done|]. intros <-. rewrite Hs0 in Hy.
    injection Hy as <-. by rewrite Hdig in Hne.
  - intros a Ha. destruct u0 as [[]|e|]; [|done..]. injection Ha as <-. cbn.
    apply Session.use_ok_iff in Hu0 as [(Hact & _) ->]. cbn. rewrite Hid.
    split_and!; [apply lookup_insert_eq|done|]. exists s0. by rewrite Hdig.
Qed.

(** The session that the browser's cookie opens, if it opens one. *)
Definition opened_by (previousToken : option string) s : option SessionId :=
  match (previousSession key previousToken s).1 with Ok id => id | _ => None end.

Lemma previousSession_ok previousToken s o s1 :
  consistent (s_sessions s) -> previousSession key previousToken s = (Ok o, s1) ->
  consistent (s_sessions s1) /\
  (forall id, stored s1 !! id = None <-> stored s !! id = None) /\
  (forall id x, stored s !! id = Some x ->
     (forall token, previousToken = Some token -> digest key token <> Ok (Session.tokenDigest x)) ->
     stored s1 !! id = Some x) /\
  (forall id, o = Some id ->
     (exists x, stored s1 !! id = Some x /\ Session.state x = SessionState.Active) /\
     exists x token, stored s !! id = Some x /\ previousToken = Some token /\
       digest key token = Ok (Session.tokenDigest x)).
Proof.
  intros Hc Hrun. destruct previousToken as [token|]; [|by injection Hrun as <- <-].
  cbn [previousSession] in Hrun. case_bool_decide; [by injection Hrun as <- <-|].
  unfold mbind, prog_bind, attempt in Hrun.
  destruct (authenticate key token s) as [r s2] eqn:Hauth.
  destruct (authenticate_effect token s r s2 Hc Hauth) as (Hc' & Hnone & Hkeep & Hopen).
  destruct r as [a|e|]; [| |done]; injection Hrun as <- <-; (split_and!; [done|done| |]); try done.
  - intros id x Hx Hne. eapply Hkeep; [done|]. by apply Hne.
  - intros id [= <-]. destruct (Hopen a eq_refl) as (? & ? & x & ? & ?). split; [by eexists|].
    by exists x, token.
  - intros id x Hx Hne. eapply Hkeep; [done|]. by apply Hne.
Qed.

Lemma revoke_active id x s s1 r :
  stored s !! id = Some x -> Session.state x = SessionState.Active -> revoke id s = (r, s1) ->
  r = ok /\ exists t, stored s1 = <[id := Session.set x SessionState.Revoked (Session.tokenDigest x)
                                     (Session.lastSeenAt x) (Some t)]> (stored s) /\ tokens s1 = tokens s.
Proof.
  intros Hx Hact. destruct (clock_reading s) as (t & w & _ & Hnow). unfold revoke.
  rewrite (bind_run _ _ _ _ _ Hnow). intros (y & Hr & ->)%on_sessions_run. cbn in Hr.
  unfold InMemorySessionRepository.revoke in Hr. rewrite Hx in Hr. unfold Session.revoke in Hr.
  rewrite Hact in Hr. cbn in Hr. injection Hr as <- <-. split; [done|]. by exists t.
Qed.

(** A new sign-in retires the browser's previous session and no other.
    When [issueReplacing] succeeds on a consistent store, the granted session
    is new and is the verified authentication's; the session that the
    presented cookie opened, if any, is revoked; and every session whose
    token was not presented is exactly what it was. *)
Theorem replacing_retires_the_previous_session authentication client previousToken s grant s' :
  consistent (s_sessions s) ->
  issueReplacing key policy authentication client previousToken s = (Ok grant, s') ->
  stored s !! SessionGrant.id grant = None /\
  (exists session, stored s' !! SessionGrant.id grant = Some session /\ issued authentication grant session) /\
  (forall id, opened_by previousToken s = Some id ->
     exists x, stored s' !! id = Some x /\ Session.state x = SessionState.Revoked) /\
  (forall id x, stored s !! id = Some x ->
     (forall token, previousToken = Some token -> digest key token <> Ok (Session.tokenDigest x)) ->
     stored s' !! id = Some x).
Proof.
  intros Hc. unfold issueReplacing. intros (o & s1 & Hprev & Hrun)%prog_bind_ok.
  assert (opened_by previousToken s = o) as -> by (unfold opened_by; by rewrite Hprev).
  destruct (previousSession_ok _ _ _ _ Hc Hprev) as (Hc1 & Hnone & Hkeep & Hopen).
  apply prog_bind_ok in Hrun as (created & s2 & Hissue & Hrun).
  apply issue_ok in Hissue as (session & w & Hissued & Hid & _ & ->).
  assert (Hgrant : Session.id session = SessionGrant.id created) by apply Hissued.
  destruct o as [p|].
  - destruct (Hopen p eq_refl) as [(x1 & Hx1 & Hact) (x0 & token & Hx0 & -> & Hdig)].
    assert (Hne : p <> Session.id session) by (intros ->; by rewrite Hid in Hx1).
    rewrite bool_decide_eq_false_2 in Hrun by congruence. unfold mbind, prog_bind, attempt in Hrun.
    destruct (revoke p _) as [r s3] eqn:Hrevoke.
    eapply (revoke_active p x1) in Hrevoke as (-> & t & Hstored & _);
      [|cbn; by rewrite lookup_insert_ne|done].
    injection Hrun as -> <-. rewrite <- Hgrant, Hstored. cbn. split_and!.
    + by apply Hnone.
    + exists session. rewrite lookup_insert_ne by done. rewrite lookup_insert_eq. done.
    + intros id [= <-]. rewrite lookup_insert_eq. by eexists.
    + intros id x Hx Hpres.
      assert (id <> p).
      { intros ->. rewrite Hx0 in Hx. injection Hx as <-. by apply (Hpres token). }
      assert (id <> Session.id session).
      { intros ->. apply Hnone in Hid. by rewrite Hid in Hx. }
      rewrite !lookup_insert_ne by done. by apply Hkeep.
  - injection Hrun as -> <-. rewrite <- Hgrant. cbn. split_and!; [by apply Hnone| |done|].
    + exists session. by rewrite lookup_insert_eq.
    + intros id x Hx Hpres. rewrite lookup_insert_ne; [by apply Hkeep|].
      intros <-. apply Hnone in Hid. by rewrite Hid in Hx.
Qed.

(** An identity revokes its own sessions only. Whatever is asked,
    [revokeOwned] leaves every other session and the token index alone. A
    session of somebody else and an unknown session get the same answer, and
    nothing changes; an own session ends up revoked, unless it had expired. *)
Theorem owner_revokes_only_own_sessions identity id s :
  let '(r, s') := revokeOwned identity id s in
  (forall id', id' <> id -> stored s' !! id' = stored s !! id') /\ tokens s' = tokens s /\
  match stored s !! id with
  | Some x =>
      if decide (Session.identity x = identity) then
        match Session.state x with
        | SessionState.Active => r = ok /\ exists t, stored s' !! id
            = Some (Session.set x SessionState.Revoked (Session.tokenDigest x) (Session.lastSeenAt x) (Some t))
        | SessionState.Revoked => r = ok /\ stored s' !! id = Some x
        | SessionState.Expired =>
            r = fail FailedPrecondition "An expired session cannot be revoked." /\ stored s' !! id = Some x
        end
      else r = fail NotFound "That session was not found." /\ s' = s
  | None => r = fail NotFound "That session was not found." /\ s' = s
  end.
Proof.
  unfold revokeOwned, mbind, prog_bind at 1. cbn. unfold InMemorySessionRepository.find.
  destruct (stored s !! id) as [x|] eqn:Hx; [|done]. unfold bool_decide.
  replace (decide_rel _ _ _) with (decide (Session.identity x = identity)) by done.
  destruct (decide (Session.identity x = identity)); [|done]. destruct (clock_reading s) as (t & w & _ & Hnow).
  unfold prog_bind. rewrite Hnow. unfold on_sessions, zoom. cbn. unfold InMemorySessionRepository.revoke.
  rewrite Hx. unfold Session.revoke. destruct (Session.state x);
    repeat (case_bool_decide; try done); cbn;
    (split; [intros id' Hne; by rewrite lookup_insert_ne|split; [done|split; [done|]]]);
    try exists t; apply lookup_insert_eq.
Qed.

(** The list of sessions is exact. [list] returns, most recent first,
    exactly the identity's active sessions that no deadline has ended, at the
    time it reads; and it changes none of them. *)
Theorem listed_sessions_are_live identity s :
  exists l t w, clock_now (s_world s) = (t, w) /\
    SessionService.list identity s = (Ok l, mkService (s_sessions s) (s_delegated s) w) /\
    Sorted more_recent l /\
    forall x, x ∈ l <-> (exists id, stored s !! id = Some x) /\ Session.identity x = identity /\
      Session.state x = SessionState.Active /\ Session.isExpiredAt x t = false.
Proof.
  destruct (clock_reading s) as (t & w & Ht & Hnow). unfold SessionService.list, mbind, prog_bind.
  cbn [sr_list InMemorySessionRepository.repository InMemorySessionRepository.list].
  rewrite Hnow. eexists _, t, w. split; [done|]. split; [done|]. split.
  { apply Sorted_merge_sort. intros x y. unfold more_recent. lia. }
  intros x. rewrite merge_sort_Permutation, list_elem_of_filter, list_elem_of_fmap.
  split.
  - intros [Hlive ([id y] & -> & [Hid Hy]%elem_of_scan)]. cbn in *. split; [by eexists|].
    split; [done|]. destruct (decide (Session.state y = SessionState.Active)), (Session.isExpiredAt y t); tauto.
  - intros [[id Hid] (Hident & Hact & Hexp)]. rewrite Hexp. split; [naive_solver|]. exists (id, x). split; [done|].
    by apply elem_of_scan.
Qed.
End in_memory_service.

Module ServiceWitnesses.
Import TestPlatform SessionService.

Definition key : SessionKey.t := SessionKey.mk "0123456789abcdef0123456789abcdef".
Definition policy : SessionPolicy.t := SessionPolicy.mk 1000 100.
Definition signed_in : VerifiedAuthentication.t :=
  VerifiedAuthentication.mk
    (AuthenticationOutcome.mk (mkId "google") (mkId "12345") VerifiedClaims.create Ial1
       (AuthenticationStrength.mk Possession false) ProviderEvidence.create 90) (mkId "alice").

Abbreviation state := (service InMemorySessionRepository.t unit world).
Definition fresh : state := mkService InMemorySessionRepository.empty tt 100.

Definition first_sign_in := issue key policy signed_in ClientContext.create fresh.
Definition granted (r : Result SessionGrant.t * state) : SessionGrant.t :=
  match r.1 with Ok grant => grant | _ => SessionGrant.mk (mkId "") "" end.
Definition cookie : string := SessionGrant.token (granted first_sign_in).
Definition second_sign_in :=
  issueReplacing key policy signed_in ClientContext.create (Some cookie) first_sign_in.2.

Lemma fresh_consistent : consistent (s_sessions fresh).
Proof. apply consistent_empty. Qed.

Lemma first_consistent : consistent (s_sessions first_sign_in.2).
Proof.
  destruct (issue_ok key policy signed_in ClientContext.create fresh (granted first_sign_in)
              first_sign_in.2) as (session & w & _ & Hid & Htok & ->); [apply run_as; vm_compute; reflexivity|].
  by apply consistent_insert; [apply fresh_consistent|..].
Qed.

Lemma issued_token_opens_its_session_witness : exists session,
  InMemorySessionRepository.m_sessions (s_sessions first_sign_in.2) !! SessionGrant.id (granted first_sign_in)
    = Some session /\
  issued key policy signed_in (granted first_sign_in) session.
Proof.
  destruct (issued_token_opens_its_session key policy signed_in ClientContext.create fresh
              (granted first_sign_in) first_sign_in.2 150 150 151) as (session & Hs & Hissued & _).
  - apply fresh_consistent.
  - apply run_as. vm_compute. reflexivity.
  - reflexivity.
  - exists session. split; [exact Hs|exact Hissued].
Defined.

Lemma replacing_retires_the_previous_session_witness : exists x,
  InMemorySessionRepository.m_sessions (s_sessions second_sign_in.2) !! SessionGrant.id (granted first_sign_in)
    = Some x /\ Session.state x = SessionState.Revoked.
Proof.
  destruct (replacing_retires_the_previous_session key policy signed_in ClientContext.create (Some cookie)
              first_sign_in.2 (granted second_sign_in) second_sign_in.2) as (_ & _ & Hretired & _).
  - apply first_consistent.
  - apply run_as. vm_compute. reflexivity.
  - apply Hretired. vm_compute. reflexivity.
Defined.

(** A token service that accepts one token, for two scopes. *)
Definition token_service (token : string) : prog (unit * world) Error DelegatedAccess.t := fun s =>
  if bool_decide (token = "delegated") then
    (session ← AuthenticatedSession.fromDelegatedAccess (mkId "alice") (mkId "google") Ial1
                 AuthenticationStrength.none 90 s.2 (s.2 + 50);
     Ok (DelegatedAccess.create session "cli" ["profile"; "email"; "profile"] [] None), s)
  else (Err (invalidToken "Unknown delegated token."), s).

Definition delegated_call :=
  authenticateDelegated key "delegated" (Some token_service) "email" first_sign_in.2.
Definition delegated_session : AuthenticatedSession.t :=
  match delegated_call.1 with
  | Ok a => a
  | _ => AuthenticatedSession.mk (Session.mk (mkId "") (mkId "") (mkId "") Ial0 AuthenticationStrength.none
           SessionState.Active 0 [] 0 0 0 0 None None None)
  end.

Lemma delegated_access_is_scoped_witness :
  authenticate key "delegated" first_sign_in.2 = (Ok delegated_session, delegated_call.2) \/
  exists d s1 e access xw,
    Some token_service = Some d /\ authenticate key "delegated" first_sign_in.2 = (Err e, s1) /\
    d "delegated" (s_delegated s1, s_world s1) = (Ok access, xw) /\
    delegated_session = DelegatedAccess.authenticated access.
Proof.
  destruct (delegated_access_is_scoped key "delegated" (Some token_service) "email" first_sign_in.2
              delegated_session delegated_call.2) as [Hfirst|(d & s1 & e & access & xw & Hd & Ha & Hx & Hs & _)].
  - apply run_as. vm_compute. reflexivity.
  - left. exact Hfirst.
  - right. exists d, s1, e, access, xw. split; [exact Hd|]. split; [exact Ha|]. split; [exact Hx|exact Hs].
Defined.
End ServiceWitnesses.
