(* ===== verification/Policy.v ===== *)
(** * openproof.policy: who may do what

    Models [src/src/policy/decision.cpp]: the authorization context built from
    server-owned state, the four-valued decision, the role policy engine and the
    gate every protected operation passes. *)
From S2P Require Import Prelude Foundation Provider IdentityCore Organizations Authentication Session SessionService.

Inductive ActionTag := .
Inductive ResourceTag := .
Inductive EntitlementTag := .
Inductive PermissionTag := .
Abbreviation Action := (StrongId ActionTag).
Abbreviation Resource := (StrongId ResourceTag).
Abbreviation Entitlement := (StrongId EntitlementTag).
Abbreviation Permission := (StrongId PermissionTag).

(** ** The authorization context *)

Module AuthenticationContext.
Record t := mk {
  providerId : ProviderId;
  claimedAssurance : AssuranceLevel;
  strength : AuthenticationStrength.t;
  authenticatedAt : Instant;
}.

Definition fromAuthentication (authentication : VerifiedAuthentication.t) : t :=
  let outcome := VerifiedAuthentication.outcome authentication in
  mk (AuthenticationOutcome.provider outcome) (AuthenticationOutcome.claimedAssurance outcome)
     (AuthenticationOutcome.strength outcome) (AuthenticationOutcome.verifiedAt outcome).

Definition fromSession (authenticated : AuthenticatedSession.t) : t :=
  let session := AuthenticatedSession.session authenticated in
  mk (Session.provider session) (Session.assurance session) (Session.strength session)
     (Session.authenticatedAt session).

Definition isAuthenticated (c : t) : bool := true.
End AuthenticationContext.

Module AuthorizationRequest.
Record t := mk {
  subject : IdentityId;
  action : Action;
  resource : Resource;
  organization : OrganizationId;
  authentication : AuthenticationContext.t;
  roles : list Role;
  permissions : list Permission;
  entitlements : list Entitlement;
}.

(** The private constructor: permissions and entitlements start empty. *)
Definition construct (subject : IdentityId) (organization : OrganizationId)
    (authentication : AuthenticationContext.t) (roles : list Role) (action : Action)
    (resource : Resource) : t :=
  mk subject action resource organization authentication roles [] [].

Definition hasEntitlement (r : t) (entitlement : Entitlement) : bool :=
  bool_decide (entitlement ∈ entitlements r).
Definition hasRole (r : t) (role : Role) : bool := bool_decide (role ∈ roles r).

Definition denied (detail : string) : Error :=
  Error_ofDetail PermissionDenied (defaultErrorMessage PermissionDenied) detail.

Section create.
Context {O I M : Type} `{!OrganizationRepository O, !IdentityRepository I, !MembershipRepository M}.

Definition createResolved (authenticatedIdentity : IdentityId)
    (authenticationContext : AuthenticationContext.t) (organizationId : OrganizationId)
    (organizations : O) (identities : I) (memberships : M) (action : Action) (resource : Resource)
    : Result t :=
  if id_empty action || id_empty resource then
    fail InvalidArgument "An authorization request must name an action and resource."
  else
    organization ← or_findById organizations organizationId;
    match organization with
    | None => Err (denied "Authorization context creation refused: organization is absent or inactive.")
    | Some organization =>
    if negb (Organization.isUsable organization) then
      Err (denied "Authorization context creation refused: organization is absent or inactive.")
    else if negb (bool_decide (Organization.id organization = organizationId)) then
      Err (denied "Authorization context creation refused: repository returned an organization under the wrong key.")
    else
    canonical ← ir_findById identities organizationId authenticatedIdentity;
    match canonical with
    | None => Err (denied "Authorization context creation refused: authenticated identity is absent from the requested organization.")
    | Some canonical =>
    if negb (bool_decide (Identity.id canonical = authenticatedIdentity)) then
      Err (denied "Authorization context creation refused: repository returned an identity under the wrong key.")
    else if negb (Identity.canAuthenticate canonical) then
      failDetail FailedPrecondition "The subject cannot perform protected operations."
        "Authorization context creation refused because the canonical identity is not active."
    else
    membership ← mr_find memberships organizationId authenticatedIdentity;
    match membership with
    | None => Err (denied "Authorization context creation refused: membership is absent or inactive.")
    | Some membership =>
    if negb (permitsAccess (Membership.state membership)) then
      Err (denied "Authorization context creation refused: membership is absent or inactive.")
    else if negb (bool_decide (Membership.identity membership = Identity.id canonical))
            || negb (bool_decide (Membership.organization membership = organizationId)) then
      Err (denied "Authorization context creation refused: repository returned a membership under the wrong key.")
    else Ok (construct (Identity.id canonical) organizationId authenticationContext
               (Membership.roles membership) action resource)
    end end end.

(** The two overloads of [create]. *)
Definition createFromAuthentication (authentication : VerifiedAuthentication.t) :=
  createResolved (VerifiedAuthentication.identity authentication)
    (AuthenticationContext.fromAuthentication authentication).
Definition createFromSession (authenticatedSession : AuthenticatedSession.t) :=
  createResolved (Session.identity (AuthenticatedSession.session authenticatedSession))
    (AuthenticationContext.fromSession authenticatedSession).
End create.
End AuthorizationRequest.

(** ** Decisions *)

Inductive DecisionKind := Allow | Deny | NotApplicable | Indeterminate.

#[global] Instance DecisionKind_eq_dec : EqDecision DecisionKind.
Proof. solve_decision. Defined.

Definition decisionKindName (kind : DecisionKind) : string :=
  match kind with
  | Allow => "allow" | Deny => "deny" | NotApplicable => "not_applicable" | Indeterminate => "indeterminate"
  end.

Module AuthorizationDecision.
Record t := mk { kind : DecisionKind; reason : string }.

Definition allow (reason : string) : t := mk Allow reason.
Definition deny (reason : string) : t := mk Deny reason.
Definition notApplicable (reason : string) : t := mk NotApplicable reason.
Definition indeterminate (reason : string) : t := mk Indeterminate reason.

Definition isPermitted (d : t) : bool := bool_decide (kind d = Allow).
End AuthorizationDecision.

(** A policy engine: the virtual [evaluate]. *)
Abbreviation PolicyEngine := (AuthorizationRequest.t -> AuthorizationDecision.t).

(** ** Role policies *)

Inductive RoleMatchMode := Any | All.

#[global] Instance RoleMatchMode_eq_dec : EqDecision RoleMatchMode.
Proof. solve_decision. Defined.

Definition roleMatchModeName (mode : RoleMatchMode) : string :=
  match mode with Any => "any" | All => "all" end.

Module RolePolicyRule.
Record t := mk {
  action : Action;
  resource : Resource;
  requiredRoles : list Role;
  roleMatch : RoleMatchMode;
  minimumAssurance : AssuranceLevel;
}.

(** [std::pair{rule.action(), rule.resource()}]. *)
Definition key (rule : t) : Action * Resource := (action rule, resource rule).

(** An octet a role name may not hold: a control character, a space or DEL. *)
Definition forbidden_octet (symbol : Ascii.ascii) : bool :=
  let byte := Z.of_N (N_of_ascii symbol) in (byte <? 33) || (byte =? 127).

Definition malformed_role (role : Role) : bool :=
  id_empty role || (200 <? Z.of_nat (String.length (id_value role)))
  || existsb forbidden_octet (String.list_ascii_of_string (id_value role)).

(** Both constants of the enumeration are recognized modes. *)
Definition create (action : Action) (resource : Resource) (requiredRoles : list Role)
    (roleMatch : RoleMatchMode) (minimumAssurance : AssuranceLevel) : Result t :=
  let recognizedAssurance :=
    meetsAssurance minimumAssurance Ial1 && meetsAssurance Ial4 minimumAssurance in
  if id_empty action || id_empty resource || bool_decide (requiredRoles = [])
     || (16 <? Z.of_nat (length requiredRoles)) || negb recognizedAssurance
     || existsb malformed_role requiredRoles then
    fail InvalidArgument "The route authorization rule is invalid."
  else
    let requiredRoles := sort_keys requiredRoles in
    if has_adjacent requiredRoles then fail InvalidArgument "Required route roles must be unique."
    else Ok (mk action resource requiredRoles roleMatch minimumAssurance).
End RolePolicyRule.

Module RolePolicyEngine.
Record t := mk { m_rules : list RolePolicyRule.t }.

(** The projection of [std::ranges::sort]. *)
Definition rule_le (a b : RolePolicyRule.t) : Prop :=
  key_le (RolePolicyRule.key a) (RolePolicyRule.key b).
#[global] Instance rule_le_dec : RelDecision rule_le.
Proof. intros a b. unfold rule_le. apply _. Defined.

Definition create (rules : list RolePolicyRule.t) : Result t :=
  if bool_decide (rules = []) || (256 <? Z.of_nat (length rules)) then
    fail InvalidArgument "At least one bounded route policy is required."
  else
    let rules := merge_sort rule_le rules in
    if has_adjacent (RolePolicyRule.key <$> rules) then
      fail AlreadyExists "A route policy is duplicated."
    else Ok (mk rules).

Definition matches (request : AuthorizationRequest.t) (item : RolePolicyRule.t) : bool :=
  bool_decide (RolePolicyRule.action item = AuthorizationRequest.action request)
  && bool_decide (RolePolicyRule.resource item = AuthorizationRequest.resource request).

Definition permitted (request : AuthorizationRequest.t) (rule : RolePolicyRule.t) : bool :=
  let holds := AuthorizationRequest.hasRole request in
  if bool_decide (RolePolicyRule.roleMatch rule = All) then
    forallb holds (RolePolicyRule.requiredRoles rule)
  else existsb holds (RolePolicyRule.requiredRoles rule).

Definition evaluate (engine : t) : PolicyEngine := fun request =>
  match List.find (matches request) (m_rules engine) with
  | None => AuthorizationDecision.notApplicable "No exact route authorization rule matched."
  | Some rule =>
      if negb (meetsAssurance (AuthenticationContext.claimedAssurance
                                 (AuthorizationRequest.authentication request))
                 (RolePolicyRule.minimumAssurance rule)) then
        AuthorizationDecision.deny
          "The authenticated session does not meet the route assurance requirement."
      else if permitted request rule then
        AuthorizationDecision.allow "The trusted membership satisfies the route role policy."
      else
        AuthorizationDecision.deny "The trusted membership does not satisfy the route role policy."
  end.
End RolePolicyEngine.

Definition evaluateProtected (engine : option PolicyEngine) (request : AuthorizationRequest.t)
    : AuthorizationDecision.t :=
  match engine with
  | None => AuthorizationDecision.indeterminate
              "No policy engine is installed; the protected operation was denied."
  | Some engine =>
      let decision := engine request in
      if AuthorizationDecision.isPermitted decision then decision else decision
  end.

(** ** The context is made of live, server-owned state *)

Section authorization_context.
Context {O I M : Type} `{!OrganizationRepository O, !IdentityRepository I, !MembershipRepository M}.
Implicit Types (orgs : O) (ids : I) (members : M).

Import AuthorizationRequest.

(** Everything a request may be built from. *)
Definition admissible (identity : IdentityId) (organizationId : OrganizationId) (act : Action)
    (res : Resource) (org : Organization.t) (ident : Identity.t) (member : Membership.t) : Prop :=
  id_empty act = false /\ id_empty res = false /\
  Organization.isUsable org = true /\ Organization.id org = organizationId /\
  Identity.id ident = identity /\ Identity.canAuthenticate ident = true /\
  Membership.state member = MembershipState.Active /\
  Membership.identity member = identity /\ Membership.organization member = organizationId.

Lemma createResolved_ok identity ctx organizationId orgs ids members act res request :
  createResolved identity ctx organizationId orgs ids members act res = Ok request <->
  exists org ident member,
    or_findById orgs organizationId = Ok (Some org) /\
    ir_findById ids organizationId identity = Ok (Some ident) /\
    mr_find members organizationId identity = Ok (Some member) /\
    admissible identity organizationId act res org ident member /\
    request = mk identity act res organizationId ctx (Membership.roles member) [] [].
Proof.
  unfold admissible. split.
  - unfold createResolved. destruct (_ || _) eqn:Hne; [done|]. bool_prop.
    intros ([org|] & Ho & H1)%result_bind_ok; [|done].
    destruct (Organization.isUsable org) eqn:Hu; [|done]. case_bool_decide; [|done]. simpl in H1.
    apply result_bind_ok in H1 as ([ident|] & Hi & H1); [|done].
    case_bool_decide; [|done]. destruct (Identity.canAuthenticate ident) eqn:Hc; [|done]. simpl in H1.
    apply result_bind_ok in H1 as ([member|] & Hm & H1); [|done].
    destruct (permitsAccess (Membership.state member)) eqn:Hp; [|done].
    do 2 (case_bool_decide; [|done]). injection H1 as <-.
    exists org, ident, member. subst. split_and!; try done; by destruct (Membership.state member).
  - intros (org & ident & member & Ho & Hi & Hm & (Ha & Hr & Hu & Hoid & Hid & Hc & Hs & Hmi & Hmo) & ->).
    unfold createResolved. rewrite Ha, Hr, Ho. simpl. rewrite Hu, bool_decide_eq_true_2 by done. simpl.
    rewrite Hi. simpl. rewrite bool_decide_eq_true_2, Hc by done. simpl. rewrite Hm. simpl. rewrite Hs. simpl.
    rewrite !bool_decide_eq_true_2 by congruence. simpl. unfold construct. by rewrite Hid.
Qed.

(** An authorization context is made of live, server-owned state. Given
    what the three repositories answer, a request is built exactly when it
    names an action and a resource and the answers are a usable organization,
    an active identity and an active membership, each stored under the key
    asked for; the roles in it are those of the membership, the
    authentication facts are the caller's proof, and it carries no permission
    and no entitlement. *)
Theorem authorization_context_is_live identity ctx organizationId orgs ids members act res request o i m :
  or_findById orgs organizationId = Ok o -> ir_findById ids organizationId identity = Ok i ->
  mr_find members organizationId identity = Ok m ->
  createResolved identity ctx organizationId orgs ids members act res = Ok request <->
  exists org ident member, o = Some org /\ i = Some ident /\ m = Some member /\
    admissible identity organizationId act res org ident member /\
    request = mk identity act res organizationId ctx (Membership.roles member) [] [].
Proof. intros Ho Hi Hm. rewrite createResolved_ok, Ho, Hi, Hm. naive_solver congruence. Qed.
End authorization_context.

(** ** The role policy engine *)

Section role_policy.
Import RolePolicyEngine.
Implicit Types (rules : list RolePolicyRule.t) (request : AuthorizationRequest.t).

#[local] Instance rule_le_total : Total rule_le.
Proof. intros a b. apply (total key_le). Qed.
#[local] Instance rule_le_trans : Transitive rule_le.
Proof. intros a b c. unfold rule_le. apply transitivity. Qed.

Lemma engine_create_ok rules engine :
  create rules = Ok engine <->
  rules <> [] /\ Z.of_nat (length rules) <= 256 /\ NoDup (RolePolicyRule.key <$> rules) /\
  engine = mk (merge_sort rule_le rules).
Proof.
  assert (Hkeys : has_adjacent (RolePolicyRule.key <$> merge_sort rule_le rules) = false
                  <-> NoDup (RolePolicyRule.key <$> rules)).
  { rewrite has_adjacent_sorted.
    - by rewrite merge_sort_Permutation.
    - apply (StronglySorted_fmap _ rule_le key_le); [done|]. apply (StronglySorted_merge_sort rule_le). }
  unfold create. case_bool_decide; simpl; [naive_solver|].
  destruct (Z.ltb_spec 256 (Z.of_nat (length rules))); [split; [done|lia]|].
  destruct (has_adjacent _) eqn:E.
  - split; [done|]. by intros (_ & _ & Hnd%Hkeys & _).
  - split; [intros [= <-]; naive_solver|]. by intros (_ & _ & _ & ->).
Qed.

(** What a rule asks of a request: the assurance, and all or one of the roles. *)
Definition satisfied (rule : RolePolicyRule.t) request : Prop :=
  meetsAssurance (AuthenticationContext.claimedAssurance (AuthorizationRequest.authentication request))
    (RolePolicyRule.minimumAssurance rule) = true /\
  match RolePolicyRule.roleMatch rule with
  | All => forall role, role ∈ RolePolicyRule.requiredRoles rule -> role ∈ AuthorizationRequest.roles request
  | Any => exists role, role ∈ RolePolicyRule.requiredRoles rule /\ role ∈ AuthorizationRequest.roles request
  end.

Lemma permitted_spec request rule :
  permitted request rule = true <->
  match RolePolicyRule.roleMatch rule with
  | All => forall role, role ∈ RolePolicyRule.requiredRoles rule -> role ∈ AuthorizationRequest.roles request
  | Any => exists role, role ∈ RolePolicyRule.requiredRoles rule /\ role ∈ AuthorizationRequest.roles request
  end.
Proof.
  unfold permitted, AuthorizationRequest.hasRole.
  destruct (RolePolicyRule.roleMatch rule); simpl.
  - rewrite existsb_exists. setoid_rewrite bool_decide_eq_true. by setoid_rewrite <- list_elem_of_In.
  - rewrite forallb_forall. setoid_rewrite bool_decide_eq_true. by setoid_rewrite <- list_elem_of_In.
Qed.

Lemma matches_key request rule :
  matches request rule = true <->
  RolePolicyRule.key rule = (AuthorizationRequest.action request, AuthorizationRequest.resource request).
Proof.
  unfold matches, RolePolicyRule.key. rewrite andb_true_iff, !bool_decide_eq_true.
  split; [by intros [-> ->]|by intros [= -> ->]].
Qed.

Lemma unique_match rules request r1 r2 :
  NoDup (RolePolicyRule.key <$> rules) -> r1 ∈ rules -> r2 ∈ rules ->
  matches request r1 = true -> matches request r2 = true -> r1 = r2.
Proof.
  rewrite !matches_key. intros Hnd [i Hi]%list_elem_of_lookup [j Hj]%list_elem_of_lookup H1 H2.
  assert (i = j) as ->; [|congruence].
  eapply (NoDup_lookup _ _ _ (RolePolicyRule.key r1) Hnd); rewrite list_lookup_fmap; [by rewrite Hi|].
  rewrite Hj. simpl. by rewrite H1, H2.
Qed.

(** The decision for the rule that matches, or for none. *)
Lemma evaluate_spec rules engine request :
  create rules = Ok engine ->
  (exists rule, rule ∈ rules /\ matches request rule = true /\
     ((satisfied rule request /\ evaluate engine request
         = AuthorizationDecision.allow "The trusted membership satisfies the route role policy.") \/
      (~ satisfied rule request /\ AuthorizationDecision.kind (evaluate engine request) = Deny))) \/
  ((forall rule, rule ∈ rules -> matches request rule = false) /\
   evaluate engine request
     = AuthorizationDecision.notApplicable "No exact route authorization rule matched.").
Proof.
  intros (_ & _ & _ & ->)%engine_create_ok. unfold evaluate. simpl.
  destruct (List.find _ _) as [rule|] eqn:Hf.
  - apply List.find_some in Hf as [Hin%list_elem_of_In Hm]. rewrite merge_sort_Permutation in Hin.
    left. exists rule. split; [done|]. split; [done|]. unfold satisfied. rewrite <- permitted_spec.
    destruct (meetsAssurance _ _); simpl; [|right; naive_solver congruence].
    destruct (permitted request rule); [by left|]. right. naive_solver congruence.
  - right. split; [|done]. intros rule Hin. apply (List.find_none _ _ Hf).
    apply list_elem_of_In. by rewrite merge_sort_Permutation.
Qed.

(** The same for any order of the rules. *)
Lemma evaluate_kind rules rules' engine' request :
  rules' ≡ₚ rules -> create rules' = Ok engine' ->
  (exists rule, (rule ∈ rules /\ matches request rule = true) /\
     (satisfied rule request /\ AuthorizationDecision.kind (evaluate engine' request) = Allow \/
      ~ satisfied rule request /\ AuthorizationDecision.kind (evaluate engine' request) = Deny)) \/
  (forall rule, rule ∈ rules -> matches request rule = false) /\
    AuthorizationDecision.kind (evaluate engine' request) = NotApplicable.
Proof.
  intros Hp Hc'. setoid_rewrite <- Hp.
  destruct (evaluate_spec rules' engine' request Hc') as [(rule & ? & ? & [[? ->]|?])|[? ->]];
    [left; exists rule; tauto..|right; done].
Qed.

(** The engine decides by the one rule that names the request. Once
    installed, at most one rule names an action and a resource; a request is
    allowed exactly when that rule exists and its assurance and role
    requirements are met, refused when it exists and they are not, and not
    applicable when no rule names it; and the decision does not depend on the
    order the rules were configured in. *)
Theorem role_policy_decides_exactly rules engine request :
  create rules = Ok engine ->
  let kind := AuthorizationDecision.kind (evaluate engine request) in
  let named rule := rule ∈ rules /\ matches request rule = true in
  (forall r1 r2, named r1 -> named r2 -> r1 = r2) /\
  (kind = Allow <-> exists rule, named rule /\ satisfied rule request) /\
  (kind = Deny <-> exists rule, named rule /\ ~ satisfied rule request) /\
  (kind = NotApplicable <-> ~ exists rule, named rule) /\
  (forall rules', rules' ≡ₚ rules -> exists engine', create rules' = Ok engine' /\
     AuthorizationDecision.kind (evaluate engine' request) = kind).
Proof.
  intros Hc. cbv zeta. pose proof Hc as (Hne & Hlen & Hnd & _)%engine_create_ok.
  assert (Huniq : forall r1 r2, r1 ∈ rules /\ matches request r1 = true ->
    r2 ∈ rules /\ matches request r2 = true -> r1 = r2).
  { intros r1 r2 [] []. by eapply unique_match. }
  split; [done|].
  pose proof (evaluate_kind rules rules engine request (reflexivity _) Hc) as Hd. split_and!.
  - destruct Hd as [(rule & Hn & [[Hs ->]|[Hs ->]])|[Hn ->]]; (split; [try done|intros (r & Hr & Hsat)]).
    + intros _. by exists rule.
    + done.
    + by rewrite (Huniq _ _ Hr Hn) in Hsat.
    + destruct Hr as [Hr Hm]. by rewrite Hn in Hm.
  - destruct Hd as [(rule & Hn & [[Hs ->]|[Hs ->]])|[Hn ->]]; (split; [try done|intros (r & Hr & Hsat)]).
    + by rewrite (Huniq _ _ Hr Hn) in Hsat.
    + intros _. by exists rule.
    + done.
    + destruct Hr as [Hr Hm]. by rewrite Hn in Hm.
  - destruct Hd as [(rule & Hn & [[Hs ->]|[Hs ->]])|[Hn ->]]; (split; [try done|intros Hno]).
    + destruct Hno. by exists rule.
    + destruct Hno. by exists rule.
    + intros _ (r & Hr & Hm). by rewrite Hn in Hm.
    + done.
  - intros rules' Hp. exists (mk (merge_sort rule_le rules')).
    assert (Hc' : create rules' = Ok (mk (merge_sort rule_le rules'))).
    { apply engine_create_ok. split_and!; [intros ->; by apply Hne, Permutation_nil|by rewrite Hp..|done]. }
    split; [done|]. destruct (evaluate_kind _ _ _ request Hp Hc') as [(r & Hr & Hk)|[Hr ->]],
      Hd as [(rule & Hn & Hk')|[Hn ->]]; try done.
    + rewrite (Huniq _ _ Hr Hn) in Hk. destruct Hk as [[? ->]|[? ->]], Hk' as [[? ->]|[? ->]]; done.
    + destruct Hr as [Hr Hm]. by rewrite Hn in Hm.
    + destruct Hn as [Hn Hm]. by rewrite Hr in Hm.
Qed.
End role_policy.

(** ** The gate *)

Section protected_operations.
Context {O I M : Type}
  `{!OrganizationRepository O, !OrganizationRepositoryLaws O, !IdentityRepository I,
    !IdentityRepositoryLaws I, !MembershipRepository M, !MembershipRepositoryLaws M}.
Implicit Types (orgs : O) (ids : I) (members : M).

(** An installed engine's decision passes unchanged, reason included. *)
Lemma evaluateProtected_installed engine request :
  evaluateProtected (Some engine) request = engine request.
Proof. unfold evaluateProtected. by destruct (AuthorizationDecision.isPermitted _). Qed.

(** C10: a protected operation is earned. Over any repositories that keep
    their contracts, when a request built from a session is permitted at the
    gate, an engine is installed, and one of its rules names the action and
    the resource and is satisfied by the assurance of the session and the
    roles of an active membership, of the session's active identity, in the
    usable organization asked for. A gate without an engine permits nothing. *)
Theorem protected_operation_is_earned authenticated organizationId orgs ids members act res request rules
    (installed : option RolePolicyEngine.t) :
  AuthorizationRequest.createFromSession authenticated organizationId orgs ids members act res = Ok request ->
  (forall engine, installed = Some engine -> RolePolicyEngine.create rules = Ok engine) ->
  AuthorizationDecision.isPermitted
    (evaluateProtected (RolePolicyEngine.evaluate <$> installed) request) = true ->
  let session := AuthenticatedSession.session authenticated in
  is_Some installed /\
  exists org ident member rule,
    or_view orgs organizationId = Some org /\ Organization.isUsable org = true /\
    ir_view ids organizationId (Session.identity session) = Some ident /\
    Identity.canAuthenticate ident = true /\
    mr_view members organizationId (Session.identity session) = Some member /\
    Membership.state member = MembershipState.Active /\
    rule ∈ rules /\ RolePolicyRule.action rule = act /\ RolePolicyRule.resource rule = res /\
    meetsAssurance (Session.assurance session) (RolePolicyRule.minimumAssurance rule) = true /\
    match RolePolicyRule.roleMatch rule with
    | All => forall role, role ∈ RolePolicyRule.requiredRoles rule -> role ∈ Membership.roles member
    | Any => exists role, role ∈ RolePolicyRule.requiredRoles rule /\ role ∈ Membership.roles member
    end.
Proof.
  intros (org & ident & member & Ho & Hi & Hm & (_ & _ & Hu & _ & _ & Hc & Hs & _) & ->)%createResolved_ok
    Hengine Hperm. cbv zeta.
  destruct installed as [engine|]; [|done]. split; [done|]. specialize (Hengine engine eq_refl).
  cbn [fmap option_fmap option_map] in Hperm. rewrite evaluateProtected_installed in Hperm.
  apply bool_decide_eq_true in Hperm.
  match type of Hperm with context [RolePolicyEngine.evaluate engine ?r] => set (request := r) in * end.
  destruct (evaluate_spec rules engine request Hengine) as [(rule & Hin & Hkey & [[[Hmeets Hroles] _]|[_ Hk]])|[_ Hk]].
  2: by rewrite Hk in Hperm.
  2: by rewrite Hk in Hperm.
  apply matches_key in Hkey. injection Hkey as Ha Hr.
  exists org, ident, member, rule. split_and!; try done.
  - symmetry. by apply or_findById_view.
  - symmetry. by apply ir_findById_view.
  - symmetry. by apply mr_find_view.
Qed.
End protected_operations.

Module PolicyWitnesses.
Definition acme : OrganizationId := mkId "acme".
Definition alice : IdentityId := mkId "alice".
Definition orgs : InMemoryOrganizationRepository.t :=
  {[ acme := Organization.mk acme "Acme" OrganizationStatus.Active 1 ]}.
Definition ids : InMemoryIdentityRepository.t :=
  {[ alice := InMemoryIdentityRepository.mkOwned acme (Identity.mk alice Human Active 2) ]}.
Definition membership : Membership.t :=
  Membership.mk acme alice MembershipState.Active 3 [mkId "admin"; mkId "auditor"].
Definition members : InMemoryMembershipRepository.t := {[ (acme, alice) := membership ]}.

Definition session : AuthenticatedSession.t :=
  AuthenticatedSession.mk (Session.mk (mkId "s1") alice (mkId "google") Ial2 AuthenticationStrength.none
    SessionState.Active 10 [] 10 10 1000 100 None None None).
Definition read : Action := mkId "invoice.read".
Definition invoices : Resource := mkId "billing:invoices".
Definition rule : RolePolicyRule.t := RolePolicyRule.mk read invoices [mkId "admin"; mkId "owner"] Any Ial2.
Definition other_rule : RolePolicyRule.t :=
  RolePolicyRule.mk (mkId "invoice.delete") invoices [mkId "admin"; mkId "owner"] All Ial3.
Definition engine : RolePolicyEngine.t := RolePolicyEngine.mk [other_rule; rule].
Definition request : AuthorizationRequest.t :=
  AuthorizationRequest.mk alice read invoices acme (AuthenticationContext.fromSession session)
    (Membership.roles membership) [] [].

Lemma authorization_context_is_live_witness : exists org ident member,
  or_findById orgs acme = Ok (Some org) /\ Identity.id ident = alice /\
  AuthorizationRequest.roles request = Membership.roles member.
Proof.
  destruct (authorization_context_is_live alice (AuthenticationContext.fromSession session) acme orgs ids members
              read invoices request (orgs !! acme) (Some (Identity.mk alice Human Active 2)) (Some membership))
    as [(org & ident & member & Ho & Hi & Hm & _ & Hr) _].
  - reflexivity.
  - vm_compute. reflexivity.
  - vm_compute. reflexivity.
  - vm_compute. reflexivity.
  - exists org, ident, member. split; [rewrite <- Ho; reflexivity|]. split; [|rewrite Hr; reflexivity].
    injection Hi as <-. reflexivity.
Defined.

Lemma role_policy_decides_exactly_witness :
  AuthorizationDecision.kind (RolePolicyEngine.evaluate engine request) = Allow.
Proof.
  apply (role_policy_decides_exactly [rule; other_rule] engine request).
  - vm_compute. reflexivity.
  - exists rule. split; [split; [by apply list_elem_of_here|vm_compute; reflexivity]|].
    split; [vm_compute; reflexivity|]. exists (mkId "admin"). split; apply list_elem_of_here.
Defined.

Lemma protected_operation_is_earned_witness : is_Some (Some engine).
Proof.
  apply (protected_operation_is_earned session acme orgs ids members read invoices request [rule; other_rule]
           (Some engine)).
  - vm_compute. reflexivity.
  - intros e [= <-]. vm_compute. reflexivity.
  - vm_compute. reflexivity.
Defined.
End PolicyWitnesses.
