(* ===== verification/Application.v ===== *)
(** * openproof.application: registered applications

    Models [src/src/application/model.cpp], [repository.cpp] and [service.cpp]:
    the application aggregate with its three statuses, the repository with its
    tenant-scoped index of identifiers, and the registry that operators use. *)
From S2P Require Import Prelude Foundation Encoding Security IdentityCore.

Inductive ApplicationIdTag := .
Abbreviation ApplicationId := (StrongId ApplicationIdTag).

Inductive Environment := Development | Staging | Production.

Definition environmentName (environment : Environment) : string :=
  match environment with
  | Development => "development"
  | Staging => "staging"
  | Production => "production"
  end.

Module ApplicationStatus.
Inductive t := Active | Suspended | Revoked.

#[global] Instance eq_dec : EqDecision t.
Proof. solve_decision. Defined.
End ApplicationStatus.

Definition applicationStatusName (status : ApplicationStatus.t) : string :=
  match status with
  | ApplicationStatus.Active => "active"
  | ApplicationStatus.Suspended => "suspended"
  | ApplicationStatus.Revoked => "revoked"
  end.

Definition applicationPermitsAuthorization (status : ApplicationStatus.t) : bool :=
  bool_decide (status = ApplicationStatus.Active).

(** ** Texts *)

Definition lower_letter (symbol : ascii) : bool :=
  let byte := N_of_ascii symbol in (97 <=? byte)%N && (byte <=? 122)%N.
Definition decimal_digit (symbol : ascii) : bool :=
  let byte := N_of_ascii symbol in (48 <=? byte)%N && (byte <=? 57)%N.
Definition separator (symbol : ascii) : bool :=
  bool_decide (symbol = "-"%char) || bool_decide (symbol = "."%char).

(** The loop of [validIdentifier]. *)
Fixpoint identifierLoop (value : string) (previousSeparator : bool) : bool :=
  match value with
  | "" => true
  | String symbol value =>
      if negb (lower_letter symbol) && negb (decimal_digit symbol) && negb (separator symbol) then false
      else if separator symbol && previousSeparator then false
      else identifierLoop value (separator symbol)
  end.

(** [value.back()]. *)
Fixpoint last_octet (value : string) : option ascii :=
  match value with
  | "" => None
  | String symbol "" => Some symbol
  | String _ value => last_octet value
  end.

Definition validIdentifier (value : string) : bool :=
  if (String.length value <? 2)%nat || (64 <? String.length value)%nat then false
  else if negb (starts_with_octet lower_letter value) then false
  else if match last_octet value with Some symbol => separator symbol | None => false end then false
  else identifierLoop value false.

Definition validDisplayName (value : string) : bool :=
  if bool_decide (value = "") || (120 <? String.length value)%nat then false
  else negb (any_octet control_octet value).

(** ** The aggregate *)

Module Application.
Record t := mk {
  id : ApplicationId;
  owner : OrganizationId;
  identifier : string;
  displayName : string;
  environment : Environment;
  status : ApplicationStatus.t;
  createdAt : Instant;
  updatedAt : Instant;
}.

Definition create (id : ApplicationId) (owner : OrganizationId) (identifier displayName : string)
    (environment : Environment) (createdAt : Instant) : Result t :=
  if id_empty id || id_empty owner || negb (validIdentifier identifier)
     || negb (validDisplayName displayName) then
    fail InvalidArgument "The application registration is invalid."
  else Ok (mk id owner identifier displayName environment ApplicationStatus.Active createdAt createdAt).

Definition set_status (a : t) (s : ApplicationStatus.t) (now : Instant) : t :=
  mk (id a) (owner a) (identifier a) (displayName a) (environment a) s (createdAt a) now.

Definition restore (id : ApplicationId) (owner : OrganizationId) (identifier displayName : string)
    (environment : Environment) (status : ApplicationStatus.t) (createdAt updatedAt : Instant)
    : Result t :=
  restored ← create id owner identifier displayName environment createdAt;
  if updatedAt <? createdAt then fail Internal "Stored application timestamps are invalid."
  else Ok (set_status restored status updatedAt).

Definition permitsAuthorization (a : t) : bool := applicationPermitsAuthorization (status a).

Definition suspend (now : Instant) : prog t Error unit := fun a =>
  if bool_decide (status a = ApplicationStatus.Revoked) then
    (fail FailedPrecondition "A revoked application cannot change state.", a)
  else if negb (bool_decide (status a = ApplicationStatus.Active)) || (now <? updatedAt a) then
    (fail FailedPrecondition "The application cannot be suspended.", a)
  else (ok, set_status a ApplicationStatus.Suspended now).

Definition activate (now : Instant) : prog t Error unit := fun a =>
  if bool_decide (status a = ApplicationStatus.Revoked) then
    (fail FailedPrecondition "A revoked application cannot be reactivated.", a)
  else if negb (bool_decide (status a = ApplicationStatus.Suspended)) || (now <? updatedAt a) then
    (fail FailedPrecondition "The application cannot be activated.", a)
  else (ok, set_status a ApplicationStatus.Active now).

Definition revoke (now : Instant) : prog t Error unit := fun a =>
  if bool_decide (status a = ApplicationStatus.Revoked) || (now <? updatedAt a) then
    (fail FailedPrecondition "The application cannot be revoked.", a)
  else (ok, set_status a ApplicationStatus.Revoked now).

Definition rename (newName : string) (now : Instant) : prog t Error unit := fun a =>
  if bool_decide (status a = ApplicationStatus.Revoked) || (now <? updatedAt a)
     || negb (validDisplayName newName) then
    (fail FailedPrecondition "The application cannot be renamed.", a)
  else (ok, mk (id a) (owner a) (identifier a) newName (environment a) (status a) (createdAt a) now).
End Application.

(** ** Repositories *)

Class ApplicationRepository (T : Type) := {
  ar_add : Application.t -> prog T Error unit;
  ar_save : Application.t -> prog T Error unit;
  ar_findById : T -> ApplicationId -> Result (option Application.t);
  ar_findByIdentifier : T -> OrganizationId -> string -> Result (option Application.t);
  ar_list : T -> Result (list Application.t);
}.

(** What a client of the contract relies on. *)
Class ApplicationRepositoryLaws (T : Type) `{ApplicationRepository T} := {
  ar_view : T -> ApplicationId -> option Application.t;
  ar_findById_view s id found : ar_findById s id = Ok found -> found = ar_view s id;
}.

(** The owner and the identifier, separated by a null octet. *)
Definition tenantIdentifierKey (owner : OrganizationId) (identifier : string) : string :=
  id_value owner +:+ String "000"%char identifier.

Module InMemoryApplicationRepository.
Record t := mk {
  applications : gmap ApplicationId Application.t;
  identifiers : gmap string ApplicationId;
}.

Definition empty : t := mk ∅ ∅.

Definition add (application : Application.t) : prog t Error unit := fun r =>
  let key := tenantIdentifierKey (Application.owner application) (Application.identifier application) in
  if bool_decide (is_Some (applications r !! Application.id application))
     || bool_decide (is_Some (identifiers r !! key)) then
    (fail AlreadyExists "The application already exists.", r)
  else (ok, mk (<[Application.id application := application]> (applications r))
               (<[key := Application.id application]> (identifiers r))).

Definition save (application : Application.t) : prog t Error unit := fun r =>
  match applications r !! Application.id application with
  | None => (failCode NotFound, r)
  | Some found =>
      if negb (bool_decide (Application.identifier found = Application.identifier application)) then
        (fail FailedPrecondition "An application identifier is immutable.", r)
      else (ok, mk (<[Application.id application := application]> (applications r)) (identifiers r))
  end.

Definition findById (r : t) (id : ApplicationId) : Result (option Application.t) :=
  Ok (applications r !! id).

Definition findByIdentifier (r : t) (owner : OrganizationId) (identifier : string)
    : Result (option Application.t) :=
  match identifiers r !! tenantIdentifierKey owner identifier with
  | None => Ok None
  | Some id =>
      match applications r !! id with
      | None => fail Internal "The application registry index is inconsistent."
      | Some found => Ok (Some found)
      end
  end.

Definition list (r : t) : Result (list Application.t) := Ok (map_iter (applications r)).*2.

#[global] Instance repository : ApplicationRepository t := {
  ar_add := add; ar_save := save; ar_findById := findById;
  ar_findByIdentifier := findByIdentifier; ar_list := list;
}.

#[global] Program Instance laws : ApplicationRepositoryLaws t := {| ar_view r id := applications r !! id |}.
Next Obligation. intros r id found [= <-]. done. Qed.
End InMemoryApplicationRepository.

(** ** The registry *)

(** The repository behind the reference, and the platform. *)
Record registry (A W : Type) := mkRegistry { r_applications : A; r_world : W }.
Arguments mkRegistry {A W}.
Arguments r_applications {A W}.
Arguments r_world {A W}.

Module ApplicationRegistry.
Section registry.
Context `{Plat : Platform}.
Context {A : Type} `{!ApplicationRepository A}.

Abbreviation handler B := (prog (registry A world) Error B).

Definition on_applications {B} (m : prog A Error B) : handler B :=
  zoom r_applications (fun x s => mkRegistry x (r_world s)) m.
Definition on_world {B} (m : prog world Error B) : handler B :=
  zoom r_world (fun x s => mkRegistry (r_applications s) x) m.
Definition ask {B} (f : A -> Result B) : handler B := fun s => (f (r_applications s), s).

Definition registerApplication (owner : OrganizationId) (identifier displayName : string)
    (environment : Environment) : handler Application.t :=
  id ← on_world (randomTokenBase64Url 24);
  now ← on_world now;
  application ← lift (Application.create (mkId id) owner identifier displayName environment now);
  _ ← on_applications (ar_add application);
  mret application.

Definition require (id : ApplicationId) : handler Application.t :=
  found ← ask (fun r => ar_findById r id);
  match found with
  | None => throw (Error_ofCode NotFound)
  | Some application => mret application
  end.

(** The common shape of [suspend], [activate] and [revoke]. *)
Definition change (move : Instant -> prog Application.t Error unit) (id : ApplicationId)
    : handler Application.t :=
  application ← require id;
  now ← on_world now;
  let '(changed, application) := move now application in
  _ ← lift changed;
  _ ← on_applications (ar_save application);
  mret application.

Definition suspend (id : ApplicationId) : handler Application.t := change Application.suspend id.
Definition activate (id : ApplicationId) : handler Application.t := change Application.activate id.
Definition revoke (id : ApplicationId) : handler Application.t := change Application.revoke id.
End registry.
End ApplicationRegistry.

(** ** What the registry guarantees *)

Module RegistryBehaviour.
Import InMemoryApplicationRepository(applications, identifiers, findByIdentifier, findById, add, save, empty, repository).
Import ApplicationRegistry.

Section registry_behaviour.
Context `{Plat : Platform}.

Abbreviation state := (registry InMemoryApplicationRepository.t world).
Abbreviation key a := (tenantIdentifierKey (Application.owner a) (Application.identifier a)).

(** Index and applications agree, both ways. *)
Definition consistent (r : InMemoryApplicationRepository.t) : Prop :=
  (forall k id, identifiers r !! k = Some id ->
     exists a, applications r !! id = Some a /\ Application.id a = id /\ key a = k) /\
  (forall id a, applications r !! id = Some a ->
     Application.id a = id /\ identifiers r !! key a = Some id).

(** What may happen to a registered application: its registration data stay,
    and once revoked it stays as it is. *)
Definition evolves (a a' : Application.t) : Prop :=
  Application.id a' = Application.id a /\ Application.owner a' = Application.owner a /\
  Application.identifier a' = Application.identifier a /\
  Application.environment a' = Application.environment a /\
  Application.createdAt a' = Application.createdAt a /\
  (Application.updatedAt a <= Application.updatedAt a') /\
  (Application.status a = ApplicationStatus.Revoked -> a' = a).

#[global] Instance evolves_preorder : PreOrder evolves.
Proof.
  split; [by unfold evolves; auto with lia|].
  intros a b c (?&?&?&?&?&?&Hab) (?&?&?&?&?&?&Hbc). unfold evolves. split_and!; try congruence; [lia|].
  intros Ha. specialize (Hab Ha). subst b. auto.
Qed.

(** The calls of the registry. *)
Inductive call : Type :=
| Register (owner : OrganizationId) (identifier displayName : string) (environment : Environment)
| Suspend (id : ApplicationId)
| Activate (id : ApplicationId)
| Revoke (id : ApplicationId).

Definition run_call (c : call) : prog state Error Application.t :=
  match c with
  | Register o i d e => registerApplication o i d e
  | Suspend id => suspend id
  | Activate id => activate id
  | Revoke id => revoke id
  end.

Definition run_calls (cs : list call) (s : state) : state :=
  foldl (fun s c => (run_call c s).2) s cs.

Definition grows (s s' : state) : Prop :=
  consistent (r_applications s) ->
  consistent (r_applications s') /\
  (forall k id, identifiers (r_applications s) !! k = Some id ->
     identifiers (r_applications s') !! k = Some id) /\
  (forall id a, applications (r_applications s) !! id = Some a ->
     exists a', applications (r_applications s') !! id = Some a' /\ evolves a a').

#[global] Instance grows_preorder : PreOrder grows.
Proof.
  split.
  - intros s Hc. split_and!; [done|done|]. intros id a Ha. by exists a.
  - intros s1 s2 s3 H12 H23 Hc. destruct (H12 Hc) as (Hc2 & Hi2 & Ha2), (H23 Hc2) as (Hc3 & Hi3 & Ha3).
    split_and!; [done|by auto|]. intros id a (a2 & Hs2 & He2)%Ha2.
    destruct (Ha3 _ _ Hs2) as (a3 & Hs3 & He3). exists a3. split; [done|]. by etrans.
Qed.

Lemma grows_same (s s' : state) : r_applications s' = r_applications s -> grows s s'.
Proof. intros E. destruct s, s'. simpl in E. subst. intros Hc. cbn in *. split_and!; [done|done|]. intros id a Ha. by exists a. Qed.

Lemma world_grows {B} (m : prog world Error B) : advances grows (on_world (A:=InMemoryApplicationRepository.t) m).
Proof. intros s. apply grows_same. unfold on_world, zoom. by destruct (m (r_world s)). Qed.

Lemma ask_grows {B} (f : InMemoryApplicationRepository.t -> Result B) : advances grows (ask f).
Proof. intros s. by apply grows_same. Qed.

Lemma add_grows a : advances grows (on_applications (ar_add a)).
Proof.
  intros s. unfold on_applications, zoom. cbn. unfold add.
  destruct (_ || _) eqn:G; [by apply grows_same|]. bool_prop.
  apply eq_None_not_Some in H, H0. destruct s as [r w]. intros [H1 H2]. simpl in *.
  split; [split; simpl|split].
  - intros k id'. destruct (decide (k = key a)) as [->|Hk].
    + rewrite lookup_insert_eq. intros [= <-]. exists a. by rewrite lookup_insert_eq.
    + rewrite lookup_insert_ne by done. intros Hk1. destruct (H1 _ _ Hk1) as (b & Hb & ? & ?).
      exists b. rewrite lookup_insert_ne; [done|]. congruence.
  - intros id' b. destruct (decide (id' = Application.id a)) as [->|Hid].
    + rewrite lookup_insert_eq. intros [= <-]. by rewrite lookup_insert_eq.
    + rewrite lookup_insert_ne by done. intros [? Hb]%H2. split; [done|].
      rewrite lookup_insert_ne; [done|]. congruence.
  - intros k id' Hk. simpl. rewrite lookup_insert_ne; [done|]. congruence.
  - intros id' b Hb. exists b. simpl. rewrite lookup_insert_ne; [done|]. congruence.
Qed.

Lemma move_evolves (move : Instant -> prog Application.t Error unit) now a a' :
  In move [Application.suspend; Application.activate; Application.revoke] ->
  move now a = (ok, a') -> evolves a a'.
Proof.
  intros Hin Hm. unfold evolves.
  destruct Hin as [<-|[<-|[<-|[]]]]; unfold Application.suspend, Application.activate, Application.revoke in Hm;
    handler Hm; bool_prop; simpl; split_and!; try done; try lia; congruence.
Qed.

Lemma save_grows s id a a' :
  applications (r_applications s) !! id = Some a -> evolves a a' ->
  grows s (on_applications (ar_save a') s).2.
Proof.
  intros Ha He. unfold on_applications, zoom. cbn. unfold save.
  destruct s as [r w]. intros Hc. simpl in *. pose proof He as Hev. destruct He as (Eid & Eo & Ei & He).
  destruct (proj2 Hc _ _ Ha) as [Hid Hkey]. rewrite Eid, Hid, Ha. rewrite Ei, bool_decide_eq_true_2 by done. simpl.
  assert (Ek : key a' = key a) by (by rewrite Eo, Ei).
  split; [split; simpl|split; [done|]].
  - intros k id' Hk. destruct (proj1 Hc _ _ Hk) as (b & Hb & Hbid & Hbk).
    destruct (decide (id' = id)) as [->|Hne].
    + exists a'. rewrite lookup_insert_eq. assert (b = a) as -> by congruence. split_and!; congruence.
    + exists b. by rewrite lookup_insert_ne.
  - intros id' b. destruct (decide (id' = id)) as [->|Hne].
    + rewrite lookup_insert_eq. intros [= <-]. split; congruence.
    + rewrite lookup_insert_ne by done. apply (proj2 Hc).
  - intros id' b Hb. simpl. destruct (decide (id' = id)) as [->|Hne].
    + exists a'. rewrite lookup_insert_eq. split; [done|]. assert (b = a) as -> by congruence. exact Hev.
    + exists b. by rewrite lookup_insert_ne.
Qed.

Lemma change_grows move id :
  In move [Application.suspend; Application.activate; Application.revoke] ->
  advances grows (change (A:=InMemoryApplicationRepository.t) move id).
Proof.
  intros Hin s. unfold change, require, mbind, prog_bind, ask. cbn. unfold findById.
  destruct (applications (r_applications s) !! id) as [a|] eqn:Ha; cbn; [|reflexivity].
  pose proof (world_grows now s) as Hw. destruct (on_world now s) as [rn s1] eqn:Hn. simpl in Hw.
  destruct rn as [t|e|]; [|done..]. destruct (move t a) as [r a'] eqn:Hm. unfold lift.
  destruct r as [[]|e|]; [|done..].
  assert (Hs1 : r_applications s1 = r_applications s).
  { apply zoom_eq in Hn as (w & _ & ->). done. }
  pose proof (save_grows s1 id a a') as Hsave. rewrite Hs1 in Hsave.
  specialize (Hsave Ha (move_evolves move t a a' Hin Hm)).
  destruct (on_applications _ s1) as [[[]|e|] s2]; simpl in *; (etrans; [exact Hw|exact Hsave]).
Qed.

Lemma call_grows c : advances grows (run_call c).
Proof.
  destruct c; simpl; try (apply change_grows; simpl; auto 6).
  unfold registerApplication. repeat (apply advances_bind; [apply _| |intros ?]);
    first [apply world_grows|apply add_grows|apply advances_still; [apply _|done]].
Qed.

Lemma calls_grow cs s : grows s (run_calls cs s).
Proof.
  revert s. induction cs as [|c cs IH]; intros s; simpl; [done|]. etrans; [apply call_grows|apply IH].
Qed.

Lemma registered o i d e s a s' :
  consistent (r_applications s) -> registerApplication o i d e s = (Ok a, s') ->
  consistent (r_applications s') /\ applications (r_applications s') !! Application.id a = Some a /\
  Application.owner a = o /\ Application.identifier a = i.
Proof.
  intros Hc Hr. pose proof (call_grows (Register o i d e) s Hc) as Hg. simpl in Hg. rewrite Hr in Hg. simpl in Hg.
  split; [by destruct Hg|]. unfold registerApplication in Hr.
  apply prog_bind_ok in Hr as (g & s1 & _ & Hr). apply prog_bind_ok in Hr as (t & s2 & _ & Hr).
  apply prog_bind_ok in Hr as (b & s3 & [Hb ->]%lift_ok & Hr). apply prog_bind_ok in Hr as ([] & s4 & Hadd & Hr).
  injection Hr as -> ->. apply zoom_eq in Hadd as (r & Hadd & ->). cbn in Hadd. unfold add in Hadd.
  destruct (_ || _); [done|]. injection Hadd as <-. simpl. rewrite lookup_insert_eq.
  unfold Application.create in Hb. handler Hb. done.
Qed.

(** An identifier names one application for ever. Once
    [registerApplication] has answered, whatever the registry is asked to do
    afterwards, the identifier leads, in its organization, to the application
    that was registered, under the same key and with the same registration
    data; the registry's index is never found inconsistent; and an application
    that is once revoked never permits authorization again. *)
Theorem identifier_is_permanent cs cs' owner identifier displayName environment s a s' :
  consistent (r_applications s) ->
  registerApplication owner identifier displayName environment s = (Ok a, s') ->
  let later := r_applications (run_calls cs s') in
  let latest := r_applications (run_calls cs' (run_calls cs s')) in
  exists b, findByIdentifier later owner identifier = Ok (Some b) /\ evolves a b /\
    exists c, findByIdentifier latest owner identifier = Ok (Some c) /\ evolves b c /\
      (Application.status b = ApplicationStatus.Revoked -> Application.permitsAuthorization c = false).
Proof.
  intros Hc (Hc' & Ha & <- & <-)%registered; [|done]. cbv zeta.
  assert (Hfind : forall (s : state) b, consistent (r_applications s) ->
    applications (r_applications s) !! Application.id a = Some b -> evolves a b ->
    findByIdentifier (r_applications s) (Application.owner a) (Application.identifier a) = Ok (Some b)).
  { intros s0 b Hc0 Hb (_ & Eo & Ei & _). destruct (proj2 Hc0 _ _ Hb) as [_ Hk]. unfold findByIdentifier.
    rewrite Eo, Ei in Hk. by rewrite Hk, Hb. }
  destruct (calls_grow cs s' Hc') as (Hc1 & _ & Hev). destruct (Hev _ _ Ha) as (b & Hb & Hab).
  exists b. split; [by apply Hfind|]. split; [done|].
  destruct (calls_grow cs' _ Hc1) as (Hc2 & _ & Hev2). destruct (Hev2 _ _ Hb) as (c & Hcc & Hbc).
  exists c. split; [apply Hfind; [done|done|by etrans]|]. split; [done|].
  intros Hrev. destruct Hbc as (_ & _ & _ & _ & _ & _ & Hsame). rewrite Hsame by done.
  unfold Application.permitsAuthorization, applicationPermitsAuthorization. by rewrite Hrev.
Qed.
End registry_behaviour.

Import TestPlatform.

Definition acme : OrganizationId := mkId "acme".
Definition first : registry InMemoryApplicationRepository.t world := mkRegistry empty 100.
Definition no_application : Application.t :=
  Application.mk (mkId "") acme "" "" Staging ApplicationStatus.Revoked 0 0.
Definition registration := registerApplication acme "web-shop" "Web shop" Production first.
Definition shop : Application.t :=
  match registration.1 with Ok a => a | _ => no_application end.

Lemma identifier_is_permanent_witness : exists b,
  findByIdentifier (r_applications (run_calls [Suspend (Application.id shop)] registration.2)) acme "web-shop"
  = Ok (Some b) /\ evolves shop b.
Proof.
  edestruct (identifier_is_permanent [Suspend (Application.id shop)] [] acme "web-shop" "Web shop" Production
               first shop registration.2) as (b & Hb & He & _).
  - split; intros ? ? Hl; cbn in Hl; by rewrite lookup_empty in Hl.
  - apply run_as. vm_compute. reflexivity.
  - exists b. split; [exact Hb|exact He].
Defined.
End RegistryBehaviour.
