(* ===== verification/Client.v ===== *)
(** * openproof.client: OAuth client registrations

    Models [src/src/client/model.cpp], [repository.cpp] and [service.cpp]: scope
    and redirect-URI syntax, the client aggregate, the repository, and the
    manager that registers clients, rotates their secrets and authenticates
    them. A client is usable only while its application is. *)
From S2P Require Import Prelude Foundation Encoding Security IdentityCore Application.

Inductive ClientIdTag := .
Abbreviation ClientId := (StrongId ClientIdTag).

Inductive ClientKind := Web | Native | Browser | Service.

#[global] Instance ClientKind_eq_dec : EqDecision ClientKind.
Proof. solve_decision. Defined.

Definition clientKindName (kind : ClientKind) : string :=
  match kind with
  | Web => "web"
  | Native => "native"
  | Browser => "browser"
  | Service => "service"
  end.

Definition clientIsPublic (kind : ClientKind) : bool :=
  bool_decide (kind = Native) || bool_decide (kind = Browser).

Module ClientStatus.
Inductive t := Active | Suspended | Revoked.

#[global] Instance eq_dec : EqDecision t.
Proof. solve_decision. Defined.
End ClientStatus.

Definition clientStatusName (status : ClientStatus.t) : string :=
  match status with
  | ClientStatus.Active => "active"
  | ClientStatus.Suspended => "suspended"
  | ClientStatus.Revoked => "revoked"
  end.

Definition clientPermitsAuthorization (status : ClientStatus.t) : bool :=
  bool_decide (status = ClientStatus.Active).

(** ** URI authorities *)

Definition validClientName (value : string) : bool :=
  if bool_decide (value = "") || (120 <? String.length value)%nat then false
  else negb (any_octet control_octet value).

Definition allDigits (value : string) : bool :=
  negb (bool_decide (value = "")) && all_octets decimal_digit value.

(** [port = (port * 10U) + (symbol - '0')], on [unsigned int]. *)
Fixpoint portValue (value : string) (port : Z) : Z :=
  match value with
  | "" => port
  | String symbol value => portValue value (u32 (port * 10 + (Z.of_N (N_of_ascii symbol) - 48)))
  end.

Definition validPort (value : string) : bool :=
  if negb (allDigits value) || (5 <? String.length value)%nat then false
  else let port := portValue value 0 in (0 <? port) && (port <=? 65535).

Definition octet_is (c : ascii) (symbol : ascii) : bool := bool_decide (symbol = c).

(** Where an authority ends. *)
Definition path_or_query (symbol : ascii) : bool := octet_is "/" symbol || octet_is "?" symbol.

Module Authority.
Record t := mk { host : string; port : option string }.
End Authority.

Definition authority (uri scheme : string) : option Authority.t :=
  match strip_prefix scheme uri with
  | None => None
  | Some rest =>
      let value := (split_first path_or_query rest).1 in
      if bool_decide (value = "") || any_octet (octet_is "@") value then None
      else if starts_with_octet (octet_is "[") value then
        let '(inside, close) := split_first (octet_is "]") value in
        match close with
        | "" => None
        | String bracket after =>
            let host := inside +:+ String bracket "" in
            match after with
            | "" => Some (Authority.mk host None)
            | String colon port =>
                if negb (octet_is ":" colon) then None
                else if negb (validPort port) then None
                else Some (Authority.mk host (Some port))
            end
        end
      else
        match split_last ":" value with
        | None => Some (Authority.mk value None)
        | Some (host, port) =>
            if bool_decide (host = "") || any_octet (octet_is ":") host || negb (validPort port) then None
            else Some (Authority.mk host (Some port))
        end
  end.

Definition validHttps (uri : string) : bool :=
  match authority uri "https://" with
  | Some parsed => negb (bool_decide (Authority.host parsed = ""))
  | None => false
  end.

Definition loopbackHost (host : string) : bool :=
  bool_decide (host = "127.0.0.1") || bool_decide (host = "[::1]").

Definition loopbackHttp (uri : string) : bool :=
  match authority uri "http://" with
  | Some parsed => bool_decide (is_Some (Authority.port parsed)) && loopbackHost (Authority.host parsed)
  | None => false
  end.

Module LoopbackRedirect.
Record t := mk { host : string; pathAndQuery : string }.
End LoopbackRedirect.

Definition parseLoopbackRedirect (uri : string) : option LoopbackRedirect.t :=
  let scheme := "http://" in
  match authority uri scheme with
  | None => None
  | Some parsed =>
      if bool_decide (Authority.port parsed = None) || negb (loopbackHost (Authority.host parsed)) then None
      else
        let rest := match strip_prefix scheme uri with Some rest => rest | None => "" end in
        Some (LoopbackRedirect.mk (Authority.host parsed) (split_first path_or_query rest).2)
  end.

Definition sameNativeLoopbackRedirect (registered presented : string) : bool :=
  match parseLoopbackRedirect registered, parseLoopbackRedirect presented with
  | Some expected, Some actual =>
      bool_decide (LoopbackRedirect.host expected = LoopbackRedirect.host actual)
      && bool_decide (LoopbackRedirect.pathAndQuery expected = LoopbackRedirect.pathAndQuery actual)
  | _, _ => false
  end.

(** ** Scopes and redirect URIs *)

Definition scope_octet (symbol : ascii) : bool :=
  let byte := Z.of_N (N_of_ascii symbol) in
  (byte =? 33) || (35 <=? byte) && (byte <=? 91) || (93 <=? byte) && (byte <=? 126).

Module Scope.
Record t := mk { value : string }.

#[global] Instance eq_dec : EqDecision t.
Proof. solve_decision. Defined.
#[global] Instance value_inj : Inj (=) (=) value.
Proof. intros [] []. simpl. congruence. Qed.
#[global] Program Instance countable : Countable t := inj_countable' value mk _.
Next Obligation. by intros []. Qed.
#[global] Instance order : KeyOrder t := inj_key_order value.

Definition create (value : string) : Result t :=
  if bool_decide (value = "") || (128 <? String.length value)%nat then
    fail InvalidArgument "The OAuth scope is invalid."
  else if negb (all_octets scope_octet value) then fail InvalidArgument "The OAuth scope is invalid."
  else Ok (mk value).
End Scope.

(** A control octet or a space. *)
Definition blank_octet (symbol : ascii) : bool :=
  let byte := Z.of_N (N_of_ascii symbol) in (byte <=? 32) || (byte =? 127).

Module RedirectUri.
Record t := mk { value : string }.

#[global] Instance eq_dec : EqDecision t.
Proof. solve_decision. Defined.
#[global] Instance value_inj : Inj (=) (=) value.
Proof. intros [] []. simpl. congruence. Qed.
#[global] Program Instance countable : Countable t := inj_countable' value mk _.
Next Obligation. by intros []. Qed.
#[global] Instance order : KeyOrder t := inj_key_order value.

Definition create (value : string) (clientKind : ClientKind) : Result t :=
  if bool_decide (value = "") || (2048 <? String.length value)%nat || any_octet (octet_is "#") value
     || any_octet (octet_is "\") value || any_octet blank_octet value then
    fail InvalidArgument "The redirect URI is invalid."
  else
    let https := validHttps value in
    let nativeLoopback := bool_decide (clientKind = Native) && loopbackHttp value in
    if negb https && negb nativeLoopback then
      fail InvalidArgument "Redirect URIs require HTTPS except native loopback callbacks."
    else if bool_decide (clientKind = Service) then
      fail InvalidArgument "Service clients do not use redirect URIs."
    else Ok (mk value).
End RedirectUri.

Abbreviation ClientSecretDigest := Sha256Digest.

(** ** The aggregate *)

Module Client.
Record t := mk {
  id : ClientId;
  applicationId : ApplicationId;
  displayName : string;
  kind : ClientKind;
  status : ClientStatus.t;
  redirectUris : list RedirectUri.t;
  scopes : list Scope.t;
  secretDigest : option ClientSecretDigest;
  createdAt : Instant;
  updatedAt : Instant;
}.

Definition create (id : ClientId) (applicationId : ApplicationId) (displayName : string)
    (kind : ClientKind) (redirectUris : list RedirectUri.t) (scopes : list Scope.t)
    (secretDigest : option ClientSecretDigest) (createdAt : Instant) : Result t :=
  if id_empty id || id_empty applicationId || negb (validClientName displayName)
     || bool_decide (scopes = []) || (64 <? length scopes)%nat then
    fail InvalidArgument "The client registration is invalid."
  else if bool_decide (kind = Service)
          && (negb (bool_decide (redirectUris = [])) || bool_decide (secretDigest = None)) then
    fail InvalidArgument "A service client requires a secret and no redirect URI."
  else if negb (bool_decide (kind = Service))
          && (bool_decide (redirectUris = []) || (32 <? length redirectUris)%nat) then
    fail InvalidArgument "The client redirect registration is invalid."
  else if clientIsPublic kind && negb (bool_decide (secretDigest = None)) then
    fail InvalidArgument "Public clients must not rely on a client secret."
  else if negb (clientIsPublic kind) && bool_decide (secretDigest = None) then
    fail InvalidArgument "Confidential clients require a client secret."
  else
    let redirectUris := sort_keys redirectUris in
    if has_adjacent redirectUris then fail InvalidArgument "Redirect URIs must be unique."
    else
      let scopes := sort_keys scopes in
      if has_adjacent scopes then fail InvalidArgument "Client scopes must be unique."
      else Ok (mk id applicationId displayName kind ClientStatus.Active redirectUris scopes secretDigest
                  createdAt createdAt).

Definition set (c : t) (s : ClientStatus.t) (secret : option ClientSecretDigest) (now : Instant) : t :=
  mk (id c) (applicationId c) (displayName c) (kind c) s (redirectUris c) (scopes c) secret (createdAt c) now.

Definition restore (id : ClientId) (applicationId : ApplicationId) (displayName : string)
    (kind : ClientKind) (status : ClientStatus.t) (redirectUris : list RedirectUri.t)
    (scopes : list Scope.t) (secretDigest : option ClientSecretDigest) (createdAt updatedAt : Instant)
    : Result t :=
  restored ← create id applicationId displayName kind redirectUris scopes secretDigest createdAt;
  if updatedAt <? createdAt then fail Internal "Stored client timestamps are invalid."
  else Ok (set restored status (Client.secretDigest restored) updatedAt).

Definition isPublic (c : t) : bool := clientIsPublic (kind c).
Definition permitsAuthorization (c : t) : bool := clientPermitsAuthorization (status c).

Definition permitsRedirect (c : t) (redirectUri : string) : bool :=
  existsb (fun item =>
    if bool_decide (RedirectUri.value item = redirectUri) then true
    else bool_decide (kind c = Native) && sameNativeLoopbackRedirect (RedirectUri.value item) redirectUri)
    (redirectUris c).

Definition permitsScope (c : t) (scope : string) : bool :=
  existsb (fun item => bool_decide (Scope.value item = scope)) (scopes c).

Definition permitsScopes (c : t) (requested : list Scope.t) : bool :=
  forallb (fun scope => permitsScope c (Scope.value scope)) requested.

Definition suspend (now : Instant) : prog t Error unit := fun c =>
  if negb (bool_decide (status c = ClientStatus.Active)) || (now <? updatedAt c) then
    (fail FailedPrecondition "The client cannot be suspended.", c)
  else (ok, set c ClientStatus.Suspended (secretDigest c) now).

Definition activate (now : Instant) : prog t Error unit := fun c =>
  if negb (bool_decide (status c = ClientStatus.Suspended)) || (now <? updatedAt c) then
    (fail FailedPrecondition "The client cannot be activated.", c)
  else (ok, set c ClientStatus.Active (secretDigest c) now).

Definition revoke (now : Instant) : prog t Error unit := fun c =>
  if bool_decide (status c = ClientStatus.Revoked) || (now <? updatedAt c) then
    (fail FailedPrecondition "The client cannot be revoked.", c)
  else (ok, set c ClientStatus.Revoked (secretDigest c) now).

Definition replaceSecret (digest : ClientSecretDigest) (now : Instant) : prog t Error unit := fun c =>
  if isPublic c || bool_decide (status c = ClientStatus.Revoked) || (now <? updatedAt c) then
    (fail FailedPrecondition "The client secret cannot be replaced.", c)
  else (ok, set c (status c) (Some digest) now).
End Client.

(** ** Repositories *)

Class ClientRepository (T : Type) := {
  cr_add : Client.t -> prog T Error unit;
  cr_save : Client.t -> prog T Error unit;
  cr_findById : T -> ClientId -> Result (option Client.t);
  cr_clientsOf : T -> ApplicationId -> Result (list Client.t);
}.

Class ClientRepositoryLaws (T : Type) `{ClientRepository T} := {
  cr_view : T -> ClientId -> option Client.t;
  cr_findById_view s id found : cr_findById s id = Ok found -> found = cr_view s id;
}.

Module InMemoryClientRepository.
Abbreviation t := (gmap ClientId Client.t).

Definition add (client : Client.t) : prog t Error unit := fun clients =>
  if bool_decide (is_Some (clients !! Client.id client)) then
    (fail AlreadyExists "The OAuth client already exists.", clients)
  else (ok, <[Client.id client := client]> clients).

Definition save (client : Client.t) : prog t Error unit := fun clients =>
  match clients !! Client.id client with
  | None => (failCode NotFound, clients)
  | Some found =>
      if negb (bool_decide (Client.applicationId found = Client.applicationId client))
         || negb (bool_decide (Client.kind found = Client.kind client)) then
        (fail FailedPrecondition "Immutable client registration fields changed.", clients)
      else (ok, <[Client.id client := client]> clients)
  end.

Definition findById (clients : t) (id : ClientId) : Result (option Client.t) := Ok (clients !! id).

Definition clientsOf (clients : t) (applicationId : ApplicationId) : Result (list Client.t) :=
  Ok (filter (fun p => Client.applicationId p.2 = applicationId) (map_iter clients)).*2.

#[global] Instance repository : ClientRepository t := {
  cr_add := add; cr_save := save; cr_findById := findById; cr_clientsOf := clientsOf;
}.

#[global] Program Instance laws : ClientRepositoryLaws t := {| cr_view m id := m !! id |}.
Next Obligation. intros m id found [= <-]. done. Qed.
End InMemoryClientRepository.

(** ** The manager *)

Module ClientSecretKey.
Record t := mk { m_key : string }.

Definition create (key : string) : Result t :=
  if (String.length key <? 32)%nat then
    fail InvalidArgument "A client-secret key must contain at least 32 bytes."
  else Ok (mk key).
End ClientSecretKey.

Module ClientRegistration.
Record t := mk { client : Client.t; secret : option string }.
End ClientRegistration.

(** The repositories behind the references, and the platform. *)
Record manager (C A W : Type) := mkManager { m_clients : C; m_applications : A; m_world : W }.
Arguments mkManager {C A W}.
Arguments m_clients {C A W}.
Arguments m_applications {C A W}.
Arguments m_world {C A W}.

Module ClientManager.
Section manager.
Context `{Plat : Platform}.
Context {C A : Type} `{!ClientRepository C, !ApplicationRepository A}.
Context (key : ClientSecretKey.t).

Abbreviation handler B := (prog (manager C A world) Error B).

Definition on_clients {B} (m : prog C Error B) : handler B :=
  zoom m_clients (fun x s => mkManager x (m_applications s) (m_world s)) m.
Definition on_world {B} (m : prog world Error B) : handler B :=
  zoom m_world (fun x s => mkManager (m_clients s) (m_applications s) x) m.
Definition ask {B} (f : manager C A world -> Result B) : handler B := fun s => (f s, s).

Definition digest (secret : string) : Result ClientSecretDigest :=
  if bool_decide (secret = "") then failCode AuthenticationFailed
  else hmacSha256 (ClientSecretKey.m_key key) secret.

(** The parsing loops of [registerClient]. *)
Fixpoint parseRedirects (values : list string) (kind : ClientKind) (parsed : list RedirectUri.t)
    : Result (list RedirectUri.t) :=
  match values with
  | [] => Ok parsed
  | value :: values => uri ← RedirectUri.create value kind; parseRedirects values kind (parsed ++ [uri])
  end.

Fixpoint parseScopes (values : list string) (parsed : list Scope.t) : Result (list Scope.t) :=
  match values with
  | [] => Ok parsed
  | value :: values => scope ← Scope.create value; parseScopes values (parsed ++ [scope])
  end.

(** The secret of a confidential client, with its digest. *)
Definition drawSecret : handler (string * ClientSecretDigest) :=
  generated ← on_world (randomTokenBase64Url 32);
  let plaintext := "ops_" +:+ generated in
  calculated ← lift (digest plaintext);
  mret (plaintext, calculated).

Definition registerClient (applicationId : ApplicationId) (displayName : string) (kind : ClientKind)
    (redirectUris scopes : list string) : handler ClientRegistration.t :=
  application ← ask (fun s => ar_findById (m_applications s) applicationId);
  if negb match application with
          | Some application => Application.permitsAuthorization application
          | None => false
          end then
    throw (Error_ofMessage FailedPrecondition "The application is unavailable for client registration.")
  else
    parsedRedirects ← lift (parseRedirects redirectUris kind []);
    parsedScopes ← lift (parseScopes scopes []);
    randomId ← on_world (randomTokenBase64Url 24);
    let id : ClientId := mkId ("opc_" +:+ randomId) in
    drawn ← (if negb (clientIsPublic kind) then
               drawn ← drawSecret; mret (Some drawn)
             else mret None);
    now ← on_world now;
    client ← lift (Client.create id applicationId displayName kind parsedRedirects parsedScopes
                     (snd <$> drawn) now);
    _ ← on_clients (cr_add client);
    mret (ClientRegistration.mk client (fst <$> drawn)).

Definition rotateSecret (id : ClientId) : handler string :=
  found ← ask (fun s => cr_findById (m_clients s) id);
  match found with
  | None => throw (Error_ofCode NotFound)
  | Some client =>
      if Client.isPublic client then
        throw (Error_ofMessage FailedPrecondition "Public clients do not have client secrets.")
      else
        '(secret, calculated) ← drawSecret;
        now ← on_world now;
        let '(changed, client) := Client.replaceSecret calculated now client in
        _ ← lift changed;
        _ ← on_clients (cr_save client);
        mret secret
  end.

Definition require (id : ClientId) : handler Client.t :=
  found ← ask (fun s => cr_findById (m_clients s) id);
  match found with
  | None => throw (Error_ofCode NotFound)
  | Some client => mret client
  end.

(** The common shape of [suspend], [activate] and [revoke]. *)
Definition change (move : Instant -> prog Client.t Error unit) (id : ClientId) : handler Client.t :=
  value ← require id;
  now ← on_world now;
  let '(changed, value) := move now value in
  _ ← lift changed;
  _ ← on_clients (cr_save value);
  mret value.

Definition suspend (id : ClientId) : handler Client.t := change Client.suspend id.
Definition activate (id : ClientId) : handler Client.t := change Client.activate id.
Definition revoke (id : ClientId) : handler Client.t := change Client.revoke id.

Definition clientAuthenticationFailed {B} : Result B :=
  fail AuthenticationFailed "Client authentication failed.".

Definition requireActive (s : manager C A world) (id : ClientId) : Result Client.t :=
  found ← cr_findById (m_clients s) id;
  match found with
  | None => clientAuthenticationFailed
  | Some client =>
      if negb (Client.permitsAuthorization client) then clientAuthenticationFailed
      else
        application ← ar_findById (m_applications s) (Client.applicationId client);
        if negb match application with
                | Some application => Application.permitsAuthorization application
                | None => false
                end then clientAuthenticationFailed
        else Ok client
  end.

Definition authenticate (s : manager C A world) (id : ClientId) (presentedSecret : option string)
    : Result Client.t :=
  client ← requireActive s id;
  if Client.isPublic client then
    if bool_decide (is_Some presentedSecret) then clientAuthenticationFailed else Ok client
  else
    match presentedSecret, Client.secretDigest client with
    | Some presentedSecret, Some stored =>
        match digest presentedSecret with
        | Ok calculated =>
            if negb (constantTimeEquals calculated stored) then clientAuthenticationFailed else Ok client
        | Err _ => clientAuthenticationFailed
        | Aborted => Aborted
        end
    | _, _ => clientAuthenticationFailed
    end.
End manager.
End ClientManager.

(** ** Redirect URIs are compared exactly, but for the port of a native loopback *)

Section redirects.
Implicit Types (uri host port rest : string).

Lemma all_octets_none p q s :
  all_octets p s = true -> (forall c, p c = true -> q c = false) -> any_octet q s = false.
Proof.
  intros Hs Hq. induction s as [|c s IH]; [done|]. simpl in *. bool_prop. by rewrite Hq, IH.
Qed.

(** A decimal digit is none of the octets that structure an authority. *)
Lemma validPort_plain port c :
  validPort port = true -> decimal_digit c = false -> any_octet (octet_is c) port = false.
Proof.
  unfold validPort. destruct (allDigits port) eqn:Hd; [|done]. intros _ Hc.
  apply andb_true_iff in Hd as [_ Hd]. eapply all_octets_none; [done|]. intros d Hdig.
  unfold octet_is. apply bool_decide_eq_false_2. congruence.
Qed.

Lemma validPort_path port : validPort port = true -> any_octet path_or_query port = false.
Proof.
  unfold validPort. destruct (allDigits port) eqn:Hd; [|done]. intros _.
  apply andb_true_iff in Hd as [_ Hd]. eapply all_octets_none; [done|]. intros d Hdig.
  unfold path_or_query, octet_is. by rewrite !bool_decide_eq_false_2 by (by intros ->).
Qed.

Definition ends_authority rest : Prop := rest = "" \/ starts_with_octet path_or_query rest = true.

(** The text of a URI whose authority has a port. *)
Lemma authority_with_port uri scheme host port :
  authority uri scheme = Some (Authority.mk host (Some port)) ->
  validPort port = true /\ exists after, strip_prefix scheme uri = Some after /\
    after = host +:+ ":" +:+ port +:+ (split_first path_or_query after).2 /\
    ends_authority (split_first path_or_query after).2.
Proof.
  unfold authority. destruct (strip_prefix scheme uri) as [after|]; [|done].
  destruct (split_first path_or_query after) as [value rest] eqn:Hs.
  pose proof Hs as (E & Hv & Hrest)%split_first_spec. cbn [fst snd].
  destruct (_ || _); [done|]. destruct (starts_with_octet (octet_is "[") value).
  - destruct (split_first (octet_is "]") value) as [inside close] eqn:Hi.
    apply split_first_spec in Hi as (Ev & _ & Hclose). destruct close as [|bracket after']; [done|].
    destruct after' as [|colon p]; [done|]. destruct (octet_is ":" colon) eqn:Hc; [|done].
    apply bool_decide_eq_true in Hc as ->. destruct (validPort p) eqn:Hp; [|done].
    intros [= <- <-]. split; [done|]. exists after. rewrite Hs. split; [done|]. split; [|done].
    rewrite E, Ev. by autorewrite with sapp.
  - destruct (split_last ":" value) as [[h p]|] eqn:Hl; [|done].
    apply split_last_some in Hl as [Ev _]. destruct (_ || negb (validPort p)) eqn:G; [done|].
    apply orb_false_iff in G as [_ Hp%negb_false_iff]. intros [= <- <-].
    split; [done|]. exists after. rewrite Hs. split; [done|]. split; [|done]. rewrite E, Ev. by autorewrite with sapp.
Qed.

(** A loopback address with a valid port parses to itself. *)
Lemma authority_loopback host port rest :
  loopbackHost host = true -> validPort port = true -> ends_authority rest ->
  authority ("http://" +:+ host +:+ ":" +:+ port +:+ rest) "http://"
  = Some (Authority.mk host (Some port)).
Proof.
  intros Hh Hp Hr. unfold authority. rewrite (proj2 (strip_prefix_some _ _ _) eq_refl).
  assert (Hplain : any_octet path_or_query (host +:+ ":" +:+ port) = false
                   /\ any_octet (octet_is "@") (host +:+ ":" +:+ port) = false).
  { rewrite !any_octet_app, (validPort_path port Hp), (validPort_plain port "@" Hp) by done.
    unfold loopbackHost in Hh. apply orb_true_iff in Hh as [->%bool_decide_eq_true| ->%bool_decide_eq_true]; done. }
  destruct Hplain as [Hpath Hat].
  rewrite (proj2 (split_first_spec path_or_query _ (host +:+ ":" +:+ port) rest));
    [|by autorewrite with sapp].
  cbn [fst]. rewrite Hat, orb_false_r.
  unfold loopbackHost in Hh. apply orb_true_iff in Hh as [->%bool_decide_eq_true| ->%bool_decide_eq_true].
  - cbn -[split_last validPort any_octet].
    rewrite (proj2 (split_last_some ":" _ "127.0.0.1" port)).
    + by rewrite Hp.
    + split; [done|]. by apply validPort_plain.
  - cbn -[split_first validPort].
    rewrite (proj2 (split_first_spec (octet_is "]") _ "[::1" (String "]" (String ":" port)))).
    + cbn -[validPort]. by rewrite Hp.
    + split; [done|]. split; [done|]. by right.
Qed.

Lemma parseLoopbackRedirect_some uri host rest :
  parseLoopbackRedirect uri = Some (LoopbackRedirect.mk host rest) <->
  loopbackHost host = true /\ ends_authority rest /\
  exists port, validPort port = true /\ uri = "http://" +:+ host +:+ ":" +:+ port +:+ rest.
Proof.
  unfold parseLoopbackRedirect. cbv zeta. split.
  - destruct (authority uri "http://") as [[h [p|]]|] eqn:Ha; [|done..].
    apply authority_with_port in Ha as (Hp & after & Hs & Ea & Hr). rewrite Hs. cbn [Authority.port Authority.host].
    rewrite bool_decide_eq_false_2 by done. simpl. destruct (loopbackHost h) eqn:Hh; [|done]. simpl.
    intros [= <- <-]. split; [done|]. split; [done|]. exists p. split; [done|].
    apply strip_prefix_some in Hs. rewrite Hs. by rewrite Ea at 1.
  - intros (Hh & Hr & port & Hp & ->). rewrite authority_loopback by done. cbn [Authority.port Authority.host].
    rewrite bool_decide_eq_false_2, Hh by done. simpl.
    rewrite (proj2 (split_first_spec path_or_query _ (host +:+ ":" +:+ port) rest)); [done|].
    split; [by autorewrite with sapp|]. split; [|done].
    rewrite !any_octet_app, (validPort_path port Hp). unfold loopbackHost in Hh.
    apply orb_true_iff in Hh as [->%bool_decide_eq_true| ->%bool_decide_eq_true]; done.
Qed.

(** Redirect URIs are compared exactly. A presented URI is permitted exactly
    when it is a registered one, or the client is native and the URI differs
    from a registered [http] URI of the loopback address, with an explicit
    port, in the port only: same host, path and query, and again a valid port. *)
Theorem redirect_matches_exactly c presented :
  Client.permitsRedirect c presented = true <->
  exists item, item ∈ Client.redirectUris c /\
    (RedirectUri.value item = presented \/
     Client.kind c = Native /\ exists host registeredPort presentedPort rest,
       (host = "127.0.0.1" \/ host = "[::1]") /\ ends_authority rest /\
       validPort registeredPort = true /\ validPort presentedPort = true /\
       RedirectUri.value item = "http://" +:+ host +:+ ":" +:+ registeredPort +:+ rest /\
       presented = "http://" +:+ host +:+ ":" +:+ presentedPort +:+ rest).
Proof.
  unfold Client.permitsRedirect. rewrite existsb_exists. setoid_rewrite <- list_elem_of_In.
  apply exist_proper. intros item. apply and_iff_compat_l.
  case_bool_decide as E; [by split; [left|]|].
  rewrite andb_true_iff, bool_decide_eq_true. split.
  - intros [Hk Hs]. right. split; [done|]. unfold sameNativeLoopbackRedirect in Hs.
    destruct (parseLoopbackRedirect (RedirectUri.value item)) as [[h r]|] eqn:Hreg; [|done].
    destruct (parseLoopbackRedirect presented) as [[h' r']|] eqn:Hpres; [|done]. simpl in Hs. bool_prop. subst.
    apply parseLoopbackRedirect_some in Hreg as (Hh & Hr & p & Hp & ->).
    apply parseLoopbackRedirect_some in Hpres as (_ & _ & p' & Hp' & ->).
    exists h', p, p', r'. split_and!; try done. unfold loopbackHost in Hh.
    apply orb_true_iff in Hh as [?%bool_decide_eq_true|?%bool_decide_eq_true]; auto.
  - intros [?|(Hk & h & p & p' & r & Hh & Hr & Hp & Hp' & Ereg & Epres)]; [done|]. split; [done|].
    assert (Hh' : loopbackHost h = true).
    { unfold loopbackHost. apply orb_true_iff. rewrite !bool_decide_eq_true. done. }
    unfold sameNativeLoopbackRedirect.
    rewrite (proj2 (parseLoopbackRedirect_some (RedirectUri.value item) h r)) by eauto 6.
    rewrite (proj2 (parseLoopbackRedirect_some presented h r)) by eauto 6.
    simpl. by rewrite !bool_decide_eq_true_2.
Qed.
End redirects.

(** ** Client authentication *)

Section client_authentication.
Context `{Plat : Platform, !PlatformLaws Plat}.
Context {C A : Type} `{!ClientRepository C, !ApplicationRepository A}.
Context (key : ClientSecretKey.t).
Implicit Types s : manager C A world.

Import ClientManager.

(** What [requireActive] finds: the client and its application, both active. *)
Definition usable_client s id client : Prop :=
  cr_findById (m_clients s) id = Ok (Some client) /\ Client.status client = ClientStatus.Active /\
  exists application, ar_findById (m_applications s) (Client.applicationId client) = Ok (Some application) /\
    Application.status application = ApplicationStatus.Active.

Lemma client_requireActive_ok s id client : requireActive s id = Ok client <-> usable_client s id client.
Proof.
  unfold requireActive, usable_client, clientAuthenticationFailed, fail, mbind, result_bind.
  destruct (cr_findById _ id) as [[found|]|e|]; [|split; [done|intros (? & _); done]..].
  unfold Client.permitsAuthorization, clientPermitsAuthorization. case_bool_decide as Hs; simpl.
  2: { split; [done|]. intros ([= ->] & ? & _). done. }
  destruct (ar_findById _ _) as [[application|]|e|] eqn:Ha; simpl.
  2-4: split; [done|intros ([= ->] & _ & ap & E & _); congruence].
  unfold Application.permitsAuthorization, applicationPermitsAuthorization.
  case_bool_decide as Hap; simpl.
  - split; [intros [= <-]; eauto|]. by intros ([= ->] & _).
  - split; [done|]. intros ([= ->] & _ & ap & E & ?). congruence.
Qed.

(** A client authenticates exactly with its own secret. [authenticate]
    accepts exactly when the client is registered and active, its application
    is registered and active, and: a public client presents no secret; a
    confidential one presents a secret whose digest under the server's key is
    the stored one. *)
Theorem client_authenticates_exactly s id presented client :
  authenticate key s id presented = Ok client <->
  usable_client s id client /\
  if clientIsPublic (Client.kind client) then presented = None
  else exists secret stored, presented = Some secret /\ Client.secretDigest client = Some stored /\
         digest key secret = Ok stored.
Proof.
  unfold authenticate, mbind, result_bind.
  destruct (requireActive s id) as [c|e|] eqn:Hr.
  2-3: split; [done|intros [Hu%client_requireActive_ok _]; congruence].
  pose proof Hr as Hu%client_requireActive_ok. unfold Client.isPublic.
  assert (Hone : forall c', usable_client s id c' -> c' = c).
  { intros c' Hc'%client_requireActive_ok. congruence. }
  destruct (clientIsPublic (Client.kind c)) eqn:Hp.
  - destruct presented as [p|]; simpl.
    + split; [done|]. intros [<-%Hone H]. by rewrite Hp in H.
    + split; [intros [= <-]; by rewrite Hp|]. by intros [<-%Hone _].
  - destruct presented as [p|]; [destruct (Client.secretDigest c) as [stored|] eqn:Hst|].
    2-3: split; [done|intros [<-%Hone H]; rewrite Hp in H; naive_solver congruence].
    destruct (digest key p) as [calculated|e|] eqn:Hd.
    2-3: split; [done|intros [<-%Hone H]; rewrite Hp in H; naive_solver congruence].
    rewrite constant_time_equals_spec. case_bool_decide as E; simpl.
    + subst calculated. split; [intros [= <-]; rewrite Hp; eauto 10|]. by intros [<-%Hone _].
    + split; [done|]. intros [<-%Hone H]. rewrite Hp in H. naive_solver congruence.
Qed.
End client_authentication.

Section client_secrets.
Context `{Plat : Platform, !PlatformLaws Plat}.
Context {A : Type} `{!ApplicationRepository A}.
Context (key : ClientSecretKey.t).
Implicit Types s : manager InMemoryClientRepository.t A world.

Import ClientManager.

Lemma drawSecret_ok s secret d s1 :
  drawSecret (A:=A) key s = (Ok (secret, d), s1) ->
  digest key secret = Ok d /\ m_clients s1 = m_clients s /\ m_applications s1 = m_applications s.
Proof.
  intros (g & s2 & Hg & Hrun)%prog_bind_ok. apply zoom_eq in Hg as (w & _ & ->).
  apply prog_bind_ok in Hrun as (d' & s3 & [Hd ->]%lift_ok & Hrun). by injection Hrun as <- <- <-.
Qed.

(** Rotation replaces the secret. When [rotateSecret] succeeds, no secret
    but one with the digest of the returned one authenticates the client any
    more; the returned one does, if the client was usable; and every other
    client authenticates exactly as before. *)
Theorem rotated_secret_replaces id s secret s' :
  (forall c, m_clients s !! id = Some c -> Client.id c = id) ->
  rotateSecret key id s = (Ok secret, s') ->
  (forall presented, is_ok (authenticate key s' id (Some presented)) = true ->
     digest key presented = digest key secret) /\
  (is_ok (requireActive s id) = true -> is_ok (authenticate key s' id (Some secret)) = true) /\
  (forall other presented, other <> id -> authenticate key s' other presented = authenticate key s other presented).
Proof.
  intros Hkey. unfold rotateSecret. intros (found & s1 & [= <- <-] & Hrun)%prog_bind_ok.
  destruct (m_clients s !! id) as [c|] eqn:Hc; [|done]. specialize (Hkey c eq_refl).
  destruct (Client.isPublic c) eqn:Hpub; [done|].
  apply prog_bind_ok in Hrun as ([sec d] & s2 & (Hd & Hcl & Hap)%drawSecret_ok & Hrun).
  apply prog_bind_ok in Hrun as (t & s3 & Ht & Hrun). apply zoom_eq in Ht as (w & _ & ->).
  destruct (Client.replaceSecret d t c) as [r c'] eqn:Hrep. cbn zeta in Hrun.
  unfold Client.replaceSecret in Hrep. rewrite Hpub in Hrep. destruct (_ || _) in Hrep.
  { injection Hrep as <- <-. apply prog_bind_ok in Hrun as (? & ? & [? _]%lift_ok & _). done. }
  injection Hrep as <- <-. apply prog_bind_ok in Hrun as ([] & s4 & [_ ->]%lift_ok & Hrun).
  apply prog_bind_ok in Hrun as ([] & s5 & Hsave & Hrun). injection Hrun as <- <-.
  apply zoom_eq in Hsave as (m & Hsave & ->). cbn in Hsave. unfold InMemoryClientRepository.save in Hsave. cbn in Hsave.
  rewrite Hcl, Hkey, Hc in Hsave. rewrite !bool_decide_eq_true_2 in Hsave by done. injection Hsave as <-.
  set (c1 := Client.set c (Client.status c) (Some d) t) in *. cbn [m_applications].
  assert (Hat : forall c', usable_client (mkManager (<[id:=c1]> (m_clients s)) (m_applications s2) w) id c' <->
    c' = c1 /\ usable_client s id c).
  { intros c'. unfold usable_client. cbn. unfold InMemoryClientRepository.findById. rewrite lookup_insert_eq, Hap, Hc.
    split; [intros (E & Hs & Happ)|intros [-> (_ & Hs & Happ)]]; simplify_eq; split_and!; done. }
  split_and!.
  - intros presented (c' & [Hu Hsec]%client_authenticates_exactly)%is_ok_spec.
    apply Hat in Hu as [-> _]. cbn in Hsec. unfold Client.isPublic in Hpub. rewrite Hpub in Hsec.
    destruct Hsec as (p & st & [= ->] & [= <-] & ->). done.
  - intros (c' & Hu%client_requireActive_ok)%is_ok_spec.
    assert (c' = c) as -> by (destruct Hu as [Hf _]; cbn in Hf; unfold InMemoryClientRepository.findById in Hf; congruence).
    apply is_ok_spec. exists c1. apply client_authenticates_exactly. split; [by apply Hat|].
    cbn. unfold Client.isPublic in Hpub. rewrite Hpub. eauto.
  - intros other presented Hne. unfold authenticate, requireActive. cbn.
    unfold InMemoryClientRepository.findById. rewrite lookup_insert_ne by done. by rewrite Hap.
Qed.
End client_secrets.

(** ** A native and a confidential client of one application *)

Module ClientWitnesses.
Import TestPlatform ClientManager.

Definition key : ClientSecretKey.t := ClientSecretKey.mk "0123456789abcdef0123456789abcdef".
Definition shop : Application.t :=
  Application.mk (mkId "app") (mkId "acme") "web-shop" "Web shop" Production ApplicationStatus.Active 10 10.
Abbreviation state := (manager InMemoryClientRepository.t InMemoryApplicationRepository.t world).
Definition start : state :=
  mkManager ∅ (InMemoryApplicationRepository.mk {[ mkId "app" := shop ]} ∅) 100.

Definition registration :=
  registerClient key (mkId "app") "Web shop server" Web ["https://shop.example/callback"] ["openid"; "email"] start.
Definition no_client : Client.t :=
  Client.mk (mkId "") (mkId "") "" Web ClientStatus.Revoked [] [] None 0 0.
Definition server : ClientRegistration.t :=
  match registration.1 with Ok r => r | _ => ClientRegistration.mk no_client None end.
Definition server_id : ClientId := Client.id (ClientRegistration.client server).
Definition rotation := rotateSecret key server_id registration.2.
Definition new_secret : string := match rotation.1 with Ok s => s | _ => "" end.

Lemma client_authenticates_exactly_witness :
  is_ok (authenticate key registration.2 server_id (ClientRegistration.secret server)) = true.
Proof.
  rewrite (proj2 (client_authenticates_exactly key registration.2 server_id (ClientRegistration.secret server)
    (ClientRegistration.client server))); [reflexivity|].
  split.
  - split; [vm_compute; reflexivity|]. split; [vm_compute; reflexivity|].
    exists shop. split; vm_compute; reflexivity.
  - replace (clientIsPublic _) with false by (vm_compute; reflexivity).
    exists (default "" (ClientRegistration.secret server)),
      (default [] (Client.secretDigest (ClientRegistration.client server))).
    split; [vm_compute; reflexivity|]. split; vm_compute; reflexivity.
Defined.

Lemma rotated_secret_replaces_witness :
  is_ok (authenticate key rotation.2 server_id (Some new_secret)) = true.
Proof.
  edestruct (rotated_secret_replaces key server_id registration.2 new_secret rotation.2) as (_ & Hnew & _).
  - intros c Hc. assert (Some (ClientRegistration.client server) = Some c) as [= <-]; [|reflexivity].
    rewrite <- Hc. vm_compute. reflexivity.
  - apply run_as. vm_compute. reflexivity.
  - apply Hnew. vm_compute. reflexivity.
Defined.

(** A native client may pick any port of the loopback address, and nothing else. *)
Example loopback_port :
  let native := Client.mk server_id (mkId "app") "cli" Native ClientStatus.Active
    [RedirectUri.mk "http://127.0.0.1:80/cb"] [] None 0 0 in
  map (Client.permitsRedirect native)
    ["http://127.0.0.1:80/cb"; "http://127.0.0.1:49152/cb"; "http://127.0.0.1:0/cb"; "http://127.0.0.1/cb";
     "http://127.0.0.1:80/cb2"; "http://[::1]:80/cb"; "http://127.0.0.1:80@evil.example/cb"; "http://localhost:80/cb"]
  = [true; true; false; false; false; false; false; false].
Proof. vm_compute. reflexivity. Qed.
End ClientWitnesses.
