(* ===== verification/Authorization.v ===== *)
(** * openproof.oauth: authorization codes

    Models [src/src/oauth/model.cpp], [repository.cpp] and [service.cpp]: PKCE
    challenges, authorization requests and codes, the code store, and the
    service that turns an authenticated session into a code and a code, once,
    into an authorization that the token service may act on. *)
From S2P Require Import Prelude Foundation Encoding Security Provider IdentityCore Session SessionService Application Client.

Definition validOpaque (value : string) (maximum : nat) : bool :=
  if bool_decide (value = "") || (maximum <? String.length value)%nat then false
  else negb (any_octet control_octet value).

Definition upper_letter (symbol : ascii) : bool :=
  let byte := N_of_ascii symbol in (65 <=? byte)%N && (byte <=? 90)%N.

Definition base64UrlCharacter (symbol : ascii) : bool :=
  upper_letter symbol || lower_letter symbol || decimal_digit symbol
  || octet_is "-" symbol || octet_is "_" symbol.

(** ** PKCE *)

Module PkceChallenge.
Record t := mk { value : string }.

#[global] Instance eq_dec : EqDecision t.
Proof. solve_decision. Defined.

Definition create (value : string) : Result t :=
  if negb (String.length value =? 43)%nat || negb (all_octets base64UrlCharacter value) then
    fail InvalidArgument "Only PKCE S256 challenges are accepted."
  else Ok (mk value).
End PkceChallenge.

Inductive AuthorizationResponseMode := Query | Jwt.

(** An optional member that is present and invalid. *)
Definition present_and {A} (invalid : A -> bool) (value : option A) : bool :=
  match value with Some value => invalid value | None => false end.

(** ** Authorization requests *)

Module AuthorizationRequest.
Record t := mk {
  clientId : ClientId;
  redirectUri : string;
  scopes : list Scope.t;
  codeChallenge : PkceChallenge.t;
  state : option string;
  nonce : option string;
  maximumAuthenticationAge : option Duration;
  resource : option string;
  responseMode : AuthorizationResponseMode;
}.

Definition create (clientId : ClientId) (redirectUri : string) (scopes : list Scope.t)
    (codeChallenge : PkceChallenge.t) (state nonce : option string)
    (maximumAuthenticationAge : option Duration) (resource : option string)
    (responseMode : AuthorizationResponseMode) : Result t :=
  if id_empty clientId || bool_decide (redirectUri = "") || (2048 <? String.length redirectUri)%nat
     || bool_decide (scopes = []) || (64 <? length scopes)%nat
     || present_and (fun v => negb (validOpaque v 512)) state
     || present_and (fun v => negb (validOpaque v 512)) nonce
     || present_and (fun age => age <? 0) maximumAuthenticationAge
     || present_and (fun v => negb (validOpaque v 2048)) resource then
    fail InvalidArgument "The authorization request is invalid."
  else
    let scopes := sort_keys scopes in
    if has_adjacent scopes then fail InvalidArgument "The authorization scope list contains duplicates."
    else Ok (mk clientId redirectUri scopes codeChallenge state nonce maximumAuthenticationAge resource
                responseMode).
End AuthorizationRequest.

(** ** Authorization codes *)

Abbreviation CodeDigest := Sha256Digest.

Module AuthorizationCode.
Record t := mk {
  digest : CodeDigest;
  clientId : ClientId;
  identity : IdentityId;
  redirectUri : string;
  scopes : list Scope.t;
  codeChallenge : PkceChallenge.t;
  nonce : option string;
  resource : option string;
  provider : ProviderId;
  assurance : AssuranceLevel;
  strength : AuthenticationStrength.t;
  authenticatedAt : Instant;
  issuedAt : Instant;
  expiresAt : Instant;
}.

Definition create (digest : CodeDigest) (clientId : ClientId) (identity : IdentityId) (redirectUri : string)
    (scopes : list Scope.t) (codeChallenge : PkceChallenge.t) (nonce : option string)
    (provider : ProviderId) (assurance : AssuranceLevel) (strength : AuthenticationStrength.t)
    (authenticatedAt issuedAt : Instant) (lifetime : Duration) (resource : option string) : Result t :=
  if id_empty clientId || id_empty identity || bool_decide (redirectUri = "") || bool_decide (scopes = [])
     || (lifetime <=? 0) || (issuedAt <? authenticatedAt)
     || present_and (fun v => negb (validOpaque v 512)) nonce
     || present_and (fun v => negb (validOpaque v 2048)) resource then
    fail InvalidArgument "The authorization code state is invalid."
  else Ok (mk digest clientId identity redirectUri scopes codeChallenge nonce resource provider assurance
              strength authenticatedAt issuedAt (issuedAt + lifetime)).

Definition restore (digest : CodeDigest) (clientId : ClientId) (identity : IdentityId) (redirectUri : string)
    (scopes : list Scope.t) (codeChallenge : PkceChallenge.t) (nonce : option string)
    (provider : ProviderId) (assurance : AssuranceLevel) (strength : AuthenticationStrength.t)
    (authenticatedAt issuedAt expiresAt : Instant) (resource : option string) : Result t :=
  if expiresAt <=? issuedAt then fail Internal "Stored authorization code timestamps are invalid."
  else
    match create digest clientId identity redirectUri scopes codeChallenge nonce provider assurance strength
            authenticatedAt issuedAt (expiresAt - issuedAt) resource with
    | Err e => failDetail Internal "Stored authorization code state is invalid." (error_message e)
    | restored => restored
    end.

Definition expiredAt (c : t) (now : Instant) : bool := expiresAt c <=? now.
End AuthorizationCode.

Module AuthorizationGrant.
Record t := mk { code : string; redirectUri : string; state : option string }.
End AuthorizationGrant.

(** ** The code store *)

Definition invalidGrant {A} : Result A := fail AuthenticationFailed "The authorization grant is invalid.".

Class AuthorizationCodeStore (T : Type) := {
  acs_add : AuthorizationCode.t -> prog T Error unit;
  acs_consumeBound : CodeDigest -> Instant -> string -> string -> string -> prog T Error AuthorizationCode.t;
}.

Module InMemoryAuthorizationCodeStore.
Abbreviation t := (gmap string AuthorizationCode.t).

Definition digestKey (digest : CodeDigest) : string := toHex digest.

Definition add (code : AuthorizationCode.t) : prog t Error unit := fun codes =>
  let key := digestKey (AuthorizationCode.digest code) in
  if bool_decide (is_Some (codes !! key)) then
    (fail AlreadyExists "The authorization code already exists.", codes)
  else (ok, <[key := code]> codes).

Definition consumeBound (digest : CodeDigest) (now : Instant)
    (expectedClientId expectedRedirectUri expectedCodeChallenge : string)
    : prog t Error AuthorizationCode.t := fun codes =>
  match codes !! digestKey digest with
  | None => (invalidGrant, codes)
  | Some code =>
      if AuthorizationCode.expiredAt code now then (invalidGrant, delete (digestKey digest) codes)
      else if negb (bool_decide (id_value (AuthorizationCode.clientId code) = expectedClientId))
              || negb (bool_decide (AuthorizationCode.redirectUri code = expectedRedirectUri))
              || negb (bool_decide (PkceChallenge.value (AuthorizationCode.codeChallenge code)
                                    = expectedCodeChallenge)) then
        (invalidGrant, codes)
      else (Ok code, delete (digestKey digest) codes)
  end.

#[global] Instance store : AuthorizationCodeStore t := {
  acs_add := add; acs_consumeBound := consumeBound;
}.
End InMemoryAuthorizationCodeStore.

(** ** The service *)

Definition verifierCharacter (symbol : ascii) : bool :=
  upper_letter symbol || lower_letter symbol || decimal_digit symbol
  || octet_is "-" symbol || octet_is "." symbol || octet_is "_" symbol || octet_is "~" symbol.

Module AuthorizationCodeKey.
Record t := mk { m_key : string }.

Definition create (key : string) : Result t :=
  if (String.length key <? 32)%nat then
    fail InvalidArgument "An authorization-code key requires at least 32 bytes."
  else Ok (mk key).
End AuthorizationCodeKey.

Module RedeemedAuthorization.
Record t := mk { code : AuthorizationCode.t }.
End RedeemedAuthorization.

(** The client manager and the store behind the references. *)
Record authorizer (C A K W : Type) := mkAuthorizer { a_manager : manager C A W; a_store : K }.
Arguments mkAuthorizer {C A K W}.
Arguments a_manager {C A K W}.
Arguments a_store {C A K W}.

(** What the services over a client manager and a store share. *)
Section authorizer.
Context `{Plat : Platform}.
Context {C A K : Type}.
Implicit Types s : authorizer C A K world.

Definition on_store {B} (m : prog K Error B) : prog (authorizer C A K world) Error B :=
  zoom a_store (fun x s => mkAuthorizer (a_manager s) x) m.
Definition on_world {B} (m : prog world Error B) : prog (authorizer C A K world) Error B :=
  zoom (fun s => m_world (a_manager s))
    (fun x s => mkAuthorizer (mkManager (m_clients (a_manager s)) (m_applications (a_manager s)) x) (a_store s)) m.
Definition ask {B} (f : authorizer C A K world -> Result B) : prog (authorizer C A K world) Error B :=
  fun s => (f s, s).

(** The platform moves on: other callers draw octets and time passes. *)
Definition later s (w : world) : authorizer C A K world :=
  mkAuthorizer (mkManager (m_clients (a_manager s)) (m_applications (a_manager s)) w) (a_store s).

Lemma on_world_later {B} (m : prog world Error B) s r s' :
  on_world m s = (r, s') -> exists w, m (m_world (a_manager s)) = (r, w) /\ s' = later s w.
Proof. intros (w & Hm & ->)%zoom_eq. by exists w. Qed.

Lemma now_run s : exists t w, clock_now (m_world (a_manager s)) = (t, w) /\ on_world now s = (Ok t, later s w).
Proof. unfold on_world, zoom, now. destruct (clock_now _) as [t w]. by exists t, w. Qed.
End authorizer.

Module AuthorizationService.
Section service.
Context `{Plat : Platform}.
Context {C A K : Type} `{!ClientRepository C, !ApplicationRepository A, !AuthorizationCodeStore K}.
Context (key : AuthorizationCodeKey.t) (codeLifetime : Duration).

Abbreviation handler B := (prog (authorizer C A K world) Error B).

(** The constructor: a lifetime that is not positive ends the process. *)
Definition construct : Status := requireInvariant (0 <? codeLifetime).

Definition digest (code : string) : Result CodeDigest :=
  if bool_decide (code = "") then failCode AuthenticationFailed
  else hmacSha256 (AuthorizationCodeKey.m_key key) code.

Definition challengeForVerifier (verifier : string) : Result PkceChallenge.t :=
  if (String.length verifier <? 43)%nat || (128 <? String.length verifier)%nat
     || negb (all_octets verifierCharacter verifier) then invalidGrant
  else
    digest ← sha256Text verifier;
    PkceChallenge.create (toBase64Url digest).

Definition authorize (authenticated : AuthenticatedSession.t) (request : AuthorizationRequest.t)
    : handler AuthorizationGrant.t :=
  client ← ask (fun s => ClientManager.requireActive (a_manager s) (AuthorizationRequest.clientId request));
  if negb (Client.permitsRedirect client (AuthorizationRequest.redirectUri request))
     || negb (Client.permitsScopes client (AuthorizationRequest.scopes request)) then
    throw (Error_ofMessage InvalidArgument "The authorization request is invalid.")
  else
    now ← on_world now;
    let session := AuthenticatedSession.session authenticated in
    if present_and (fun age => Session.authenticatedAt session + age <=? now)
         (AuthorizationRequest.maximumAuthenticationAge request) then
      throw (Error_ofMessage AuthenticationRequired "Fresh authentication is required.")
    else
      generated ← on_world (randomTokenBase64Url 32);
      let rawCode := "opa_" +:+ generated in
      fingerprint ← lift (digest rawCode);
      code ← lift (AuthorizationCode.create fingerprint (AuthorizationRequest.clientId request)
        (Session.identity session) (AuthorizationRequest.redirectUri request)
        (AuthorizationRequest.scopes request) (AuthorizationRequest.codeChallenge request)
        (AuthorizationRequest.nonce request) (Session.provider session) (Session.assurance session)
        (Session.strength session) (Session.authenticatedAt session) now codeLifetime
        (AuthorizationRequest.resource request));
      _ ← on_store (acs_add code);
      mret (AuthorizationGrant.mk rawCode (AuthorizationRequest.redirectUri request)
              (AuthorizationRequest.state request)).

Definition redeem (code : string) (clientId : ClientId) (redirectUri codeVerifier : string)
    : handler RedeemedAuthorization.t :=
  activeClient ← attempt (ask (fun s => ClientManager.requireActive (a_manager s) clientId));
  match activeClient with
  | Ok _ =>
      match challengeForVerifier codeVerifier with
      | Ok expectedChallenge =>
          fingerprint ← lift (digest code);
          now ← on_world now;
          stored ← on_store (acs_consumeBound fingerprint now (id_value clientId) redirectUri
                               (PkceChallenge.value expectedChallenge));
          mret (RedeemedAuthorization.mk stored)
      | Aborted => lift Aborted
      | Err _ => lift invalidGrant
      end
  | _ => lift invalidGrant
  end.
End service.
End AuthorizationService.

(** ** A code is redeemed once

    The store holds its mutex for the whole of each operation: a history of any
    number of callers is a list of operations. *)

Inductive code_op :=
| AddCode (code : AuthorizationCode.t)
| ConsumeBound (digest : CodeDigest) (now : Instant) (clientId redirectUri codeChallenge : string).

Definition code_step (o : code_op) (m : InMemoryAuthorizationCodeStore.t) : InMemoryAuthorizationCodeStore.t :=
  match o with
  | AddCode code => (acs_add code m).2
  | ConsumeBound d now c r p => (acs_consumeBound d now c r p m).2
  end.

(** Does the operation store, respectively hand out, the code with digest [d]? *)
Definition stores_code (d : CodeDigest) (o : code_op) (m : InMemoryAuthorizationCodeStore.t) : bool :=
  match o with
  | AddCode code => bool_decide (AuthorizationCode.digest code = d) && is_ok (acs_add code m).1
  | _ => false
  end.

Definition hands_out_code (d : CodeDigest) (o : code_op) (m : InMemoryAuthorizationCodeStore.t) : bool :=
  match o with
  | ConsumeBound d' now c r p => bool_decide (d' = d) && is_ok (acs_consumeBound d' now c r p m).1
  | _ => false
  end.

Section code_store.
Import InMemoryAuthorizationCodeStore.
Implicit Types m : t.

Definition open_codes (d : CodeDigest) m : nat := if m !! digestKey d then 1 else 0.

Lemma code_add_cases code m :
  (acs_add code m = (ok, <[digestKey (AuthorizationCode.digest code) := code]> m) /\
   m !! digestKey (AuthorizationCode.digest code) = None) \/
  exists e, acs_add code m = (Err e, m).
Proof.
  cbn. unfold add. case_bool_decide as Hin; [right; by eexists|left].
  split; [done|]. by apply eq_None_not_Some.
Qed.

(** When a code is handed out, and what a refusal may do. *)
Lemma consumeBound_cases d now c r p m :
  (exists code, m !! digestKey d = Some code /\ now < AuthorizationCode.expiresAt code /\
     id_value (AuthorizationCode.clientId code) = c /\ AuthorizationCode.redirectUri code = r /\
     PkceChallenge.value (AuthorizationCode.codeChallenge code) = p /\
     acs_consumeBound d now c r p m = (Ok code, delete (digestKey d) m)) \/
  (exists m', acs_consumeBound d now c r p m = (invalidGrant, m') /\
     (m' = m \/ m' = delete (digestKey d) m)).
Proof.
  cbn. unfold consumeBound. destruct (m !! digestKey d) as [code|] eqn:Hm; [|right; eauto].
  unfold AuthorizationCode.expiredAt. destruct (AuthorizationCode.expiresAt code <=? now) eqn:He; [right; eauto|].
  destruct (_ || _) eqn:G; [right; eauto|]. bool_prop. left. exists code. by split_and!.
Qed.

Lemma open_codes_insert d code m :
  open_codes d (<[digestKey (AuthorizationCode.digest code) := code]> m)
  = if bool_decide (AuthorizationCode.digest code = d) then 1%nat else open_codes d m.
Proof.
  unfold open_codes, digestKey. rewrite lookup_insert. case_decide as H.
  - apply (inj toHex) in H. by rewrite bool_decide_eq_true_2.
  - rewrite bool_decide_eq_false_2; [done|]. intros E. apply H. by rewrite E.
Qed.

Lemma open_codes_delete d d' m :
  open_codes d (delete (digestKey d') m) = if bool_decide (d' = d) then 0%nat else open_codes d m.
Proof.
  unfold open_codes, digestKey. rewrite lookup_delete. case_decide as H.
  - apply (inj toHex) in H. by rewrite bool_decide_eq_true_2.
  - rewrite bool_decide_eq_false_2; [done|]. intros E. apply H. by rewrite E.
Qed.

Lemma code_count_step d o m :
  ((if hands_out_code d o m then 1 else 0) + open_codes d (code_step o m)
   <= (if stores_code d o m then 1 else 0) + open_codes d m)%nat.
Proof.
  destruct o as [code|d' now c r p]; cbn [hands_out_code stores_code code_step].
  - destruct (code_add_cases code m) as [[-> Hnone]|[e ->]]; cbn [fst snd is_ok ok]; [|rewrite andb_false_r; lia].
    rewrite open_codes_insert, andb_true_r. case_bool_decide; lia.
  - destruct (consumeBound_cases d' now c r p m) as [(code & Hm & _ & _ & _ & _ & ->)|(m' & -> & Hm')];
      cbn [fst snd is_ok invalidGrant fail].
    + rewrite open_codes_delete, andb_true_r. case_bool_decide as E; [|lia]. subst.
      unfold open_codes. rewrite Hm. lia.
    + rewrite andb_false_r. destruct Hm' as [->| ->]; [lia|]. rewrite open_codes_delete. case_bool_decide; lia.
Qed.

(** An authorization code is redeemed at most once. In every sequence of
    additions and redemption attempts, by any clients, at any times and with any
    redirect URIs and challenges, the codes handed out under a digest never
    outnumber the codes stored under it; and every code handed out was stored
    for exactly the client, the redirect URI and the challenge presented, and
    has not expired. *)
Theorem code_redeemed_at_most_once d ops :
  (count_steps code_step (hands_out_code d) ops ∅ <= count_steps code_step (stores_code d) ops ∅)%nat /\
  forall m now c r p code, (acs_consumeBound d now c r p m).1 = Ok code ->
    m !! digestKey d = Some code /\ now < AuthorizationCode.expiresAt code /\
    id_value (AuthorizationCode.clientId code) = c /\ AuthorizationCode.redirectUri code = r /\
    PkceChallenge.value (AuthorizationCode.codeChallenge code) = p.
Proof.
  split.
  - pose proof (taken_within_given code_step (hands_out_code d) (stores_code d) (open_codes d) ops ∅
                  (code_count_step d)) as Hc.
    unfold open_codes in Hc at 1. rewrite lookup_empty in Hc. lia.
  - intros m now c r p code.
    destruct (consumeBound_cases d now c r p m) as [(code' & Hs)|(m' & -> & _)]; [|done].
    destruct Hs as (? & ? & ? & ? & ? & ->). intros [= <-]. done.
Qed.
End code_store.

(** ** From a session to a code, and from a code to an authorization *)

Section authorization_service.
Context `{Plat : Platform, !PlatformLaws Plat}.
Context {C A : Type} `{!ClientRepository C, !ApplicationRepository A}.
Context (key : AuthorizationCodeKey.t) (codeLifetime : Duration).

Import AuthorizationService InMemoryAuthorizationCodeStore.
Abbreviation state := (authorizer C A t world).
Implicit Types s : state.

(** The request was within the registration of a usable client, and the
    session recent enough; the code stored carries both. *)
Definition granted_code s authenticated request (now : Instant) code : Prop :=
  let session := AuthenticatedSession.session authenticated in
  exists client, usable_client (a_manager s) (AuthorizationRequest.clientId request) client /\
    Client.permitsRedirect client (AuthorizationRequest.redirectUri request) = true /\
    Client.permitsScopes client (AuthorizationRequest.scopes request) = true /\
    (forall age, AuthorizationRequest.maximumAuthenticationAge request = Some age ->
       now < Session.authenticatedAt session + age) /\
    AuthorizationCode.clientId code = AuthorizationRequest.clientId request /\
    AuthorizationCode.redirectUri code = AuthorizationRequest.redirectUri request /\
    AuthorizationCode.scopes code = AuthorizationRequest.scopes request /\
    AuthorizationCode.codeChallenge code = AuthorizationRequest.codeChallenge request /\
    AuthorizationCode.nonce code = AuthorizationRequest.nonce request /\
    AuthorizationCode.resource code = AuthorizationRequest.resource request /\
    AuthorizationCode.identity code = Session.identity session /\
    AuthorizationCode.provider code = Session.provider session /\
    AuthorizationCode.assurance code = Session.assurance session /\
    AuthorizationCode.strength code = Session.strength session /\
    AuthorizationCode.authenticatedAt code = Session.authenticatedAt session /\
    AuthorizationCode.issuedAt code = now /\ AuthorizationCode.expiresAt code = now + codeLifetime.

Lemma authorize_ok authenticated request s grant s' :
  authorize key codeLifetime authenticated request s = (Ok grant, s') ->
  exists now code w,
    granted_code s authenticated request now code /\
    digest key (AuthorizationGrant.code grant) = Ok (AuthorizationCode.digest code) /\
    AuthorizationGrant.redirectUri grant = AuthorizationRequest.redirectUri request /\
    a_store s !! digestKey (AuthorizationCode.digest code) = None /\
    s' = mkAuthorizer (a_manager (later s w)) (<[digestKey (AuthorizationCode.digest code) := code]> (a_store s)).
Proof.
  intros (client & s1 & [= Hc <-] & Hrun)%prog_bind_ok. apply client_requireActive_ok in Hc.
  branch Hrun Hreg; [done|]. bool_prop.
  apply prog_bind_ok in Hrun as (t & s2 & Ht & Hrun). apply on_world_later in Ht as (w1 & _ & ->).
  cbv zeta in Hrun. branch Hrun Hage; [done|].
  apply prog_bind_ok in Hrun as (g & s3 & Hg & Hrun). apply on_world_later in Hg as (w2 & _ & ->).
  apply prog_bind_ok in Hrun as (d & s4 & [Hd ->]%lift_ok & Hrun).
  apply prog_bind_ok in Hrun as (code & s5 & [Hcode ->]%lift_ok & Hrun).
  apply prog_bind_ok in Hrun as ([] & s6 & Hadd & Hrun). injection Hrun as <- <-.
  apply zoom_eq in Hadd as (m & Hadd & ->). cbn [a_store later] in Hadd.
  destruct (code_add_cases code (a_store s)) as [[E Hnone]|[e E]]; rewrite E in Hadd; [|done]. injection Hadd as <-.
  exists t, code, w2. unfold AuthorizationCode.create in Hcode. handler Hcode.
  split; [|split; [exact Hd|split; [done|split; [exact Hnone|done]]]].
  exists client. split_and!; try done. intros age Eage. rewrite Eage in Hage. simpl in Hage. lia.
Qed.

Lemma redeem_ok code clientId redirectUri verifier s a s' :
  redeem key code clientId redirectUri verifier s = (Ok a, s') ->
  exists client challenge d t w c,
    usable_client (a_manager s) clientId client /\ challengeForVerifier verifier = Ok challenge /\
    digest key code = Ok d /\ clock_now (m_world (a_manager s)) = (t, w) /\
    a_store s !! digestKey d = Some c /\ a = RedeemedAuthorization.mk c /\
    t < AuthorizationCode.expiresAt c /\ AuthorizationCode.clientId c = clientId /\
    AuthorizationCode.redirectUri c = redirectUri /\
    PkceChallenge.value (AuthorizationCode.codeChallenge c) = PkceChallenge.value challenge /\
    s' = mkAuthorizer (a_manager (later s w)) (delete (digestKey d) (a_store s)).
Proof.
  unfold redeem. intros (r & s1 & Hr & Hrun)%prog_bind_ok. unfold attempt, ask in Hr.
  destruct (ClientManager.requireActive (a_manager s) clientId) as [client|e|] eqn:Hc; [|by injection Hr as <- <-|done].
  injection Hr as <- <-. apply client_requireActive_ok in Hc.
  destruct (challengeForVerifier verifier) as [challenge|e|] eqn:Hv; [|done..].
  apply prog_bind_ok in Hrun as (d & s2 & [Hd ->]%lift_ok & Hrun).
  destruct (now_run s) as (t & w & Ht & Hnow). rewrite (bind_run _ _ _ _ _ Hnow) in Hrun.
  apply prog_bind_ok in Hrun as (c & s3 & Hs & Hrun). injection Hrun as <- <-.
  apply zoom_eq in Hs as (m & Hs & ->). cbn [a_store later] in Hs.
  destruct (consumeBound_cases d t (id_value clientId) redirectUri (PkceChallenge.value challenge) (a_store s))
    as [(c' & Hl & He & Hcl & Hu & Hp & E)|(m' & E & _)]; rewrite E in Hs; [|done]. injection Hs as <- <-.
  exists client, challenge, d, t, w, c'. split_and!; try done. by apply id_value_inj.
Qed.

Lemma redeem_run code clientId redirectUri verifier s client challenge d t w c :
  usable_client (a_manager s) clientId client -> challengeForVerifier verifier = Ok challenge ->
  digest key code = Ok d -> clock_now (m_world (a_manager s)) = (t, w) ->
  a_store s !! digestKey d = Some c -> t < AuthorizationCode.expiresAt c ->
  AuthorizationCode.clientId c = clientId -> AuthorizationCode.redirectUri c = redirectUri ->
  AuthorizationCode.codeChallenge c = challenge ->
  redeem key code clientId redirectUri verifier s
  = (Ok (RedeemedAuthorization.mk c),
     mkAuthorizer (a_manager (later s w)) (delete (digestKey d) (a_store s))).
Proof.
  intros Hc Hv Hd Ht Hl He Ecl Eu Ep. unfold redeem, mbind, prog_bind at 1, attempt, ask.
  rewrite (proj2 (client_requireActive_ok _ _ _) Hc), Hv, Hd. unfold prog_bind, lift.
  destruct (now_run s) as (t' & w' & Ht' & Hnow). rewrite Ht in Ht'. injection Ht' as <- <-. rewrite Hnow.
  unfold on_store, zoom. cbn [a_store later].
  destruct (consumeBound_cases d t (id_value clientId) redirectUri (PkceChallenge.value challenge) (a_store s))
    as [(c' & Hl' & _ & _ & _ & _ & E)|(m' & E & _)].
  - rewrite E. by simplify_eq.
  - exfalso. cbn in E. unfold consumeBound in E. rewrite Hl in E.
    unfold AuthorizationCode.expiredAt in E. rewrite (proj2 (Z.leb_gt _ _) He) in E.
    rewrite !bool_decide_eq_true_2 in E by congruence. done.
Qed.

(** A code carries one session to one client, once. The code
    [authorize] returns was requested within the registration of a usable
    client (redirect URI, scopes) and by a session that is fresh enough. While
    it lasts and the client stays usable, redeeming it with the verifier of the
    request's challenge yields the session's identity, provider, assurance and
    authentication time and the requested scopes, nonce and resource;
    afterwards no redemption of the same code succeeds, at any time, by
    anybody. *)
Theorem authorization_code_round_trip authenticated request s grant s1 w verifier client :
  authorize key codeLifetime authenticated request s = (Ok grant, s1) ->
  challengeForVerifier verifier = Ok (AuthorizationRequest.codeChallenge request) ->
  let clientId := AuthorizationRequest.clientId request in
  let attempt client uri v := redeem key (AuthorizationGrant.code grant) client uri v in
  usable_client (a_manager (later s1 w)) clientId client ->
  exists now code, granted_code s authenticated request now code /\
    ((clock_now w).1 < now + codeLifetime ->
     exists s2, attempt clientId (AuthorizationRequest.redirectUri request) verifier (later s1 w)
                = (Ok (RedeemedAuthorization.mk code), s2) /\
       forall other uri v w', is_ok (attempt other uri v (later s2 w')).1 = false).
Proof.
  intros (now & code & w0 & Hg & Hd & _ & _ & ->)%authorize_ok Hv clientId att Hu.
  exists now, code. split; [done|]. intros Hclock. destruct (clock_now w) as [t w1] eqn:Ht. simpl in Hclock.
  destruct Hg as (cl & _ & _ & _ & _ & Ecl & Euri & _ & Ech & _ & _ & _ & _ & _ & _ & _ & _ & Eexp).
  eexists. split.
  - unfold att. eapply redeem_run; try done; [apply lookup_insert_eq|lia].
  - intros other uri v w'. apply not_true_is_false. intros (a & Ha)%is_ok_spec.
    destruct (att other uri v _) as [r s3] eqn:Hr. simpl in Ha. subst r.
    apply redeem_ok in Hr as (? & ? & d & ? & ? & c & _ & _ & Hd' & _ & Hl & _).
    assert (d = AuthorizationCode.digest code) as -> by congruence.
    cbn in Hl. by rewrite lookup_delete_eq in Hl.
Qed.

(** C11: redemption demands the client, the redirect URI and the verifier. When
    [redeem] succeeds, the client and its application are active, and the code
    is stored under its keyed digest, unexpired, issued to that client for that
    redirect URI, with the S256 challenge of the verifier; it is no longer
    stored afterwards, and every other code is as before. *)
Theorem redemption_is_bound code clientId redirectUri verifier s a s' :
  redeem key code clientId redirectUri verifier s = (Ok a, s') ->
  (exists client, usable_client (a_manager s) clientId client) /\
  exists c d sha, a = RedeemedAuthorization.mk c /\ digest key code = Ok d /\
    a_store s !! digestKey d = Some c /\ a_store s' = delete (digestKey d) (a_store s) /\
    (clock_now (m_world (a_manager s))).1 < AuthorizationCode.expiresAt c /\
    AuthorizationCode.clientId c = clientId /\ AuthorizationCode.redirectUri c = redirectUri /\
    sha256Text verifier = Ok sha /\
    PkceChallenge.value (AuthorizationCode.codeChallenge c) = toBase64Url sha.
Proof.
  intros (client & challenge & d & t & w & c & Hu & Hv & Hd & Ht & Hl & -> & He & Ecl & Euri & Ech & ->)%redeem_ok.
  split; [by exists client|]. unfold challengeForVerifier in Hv. destruct (_ || _); [done|].
  apply result_bind_ok in Hv as (sha & Hsha & Hv). unfold PkceChallenge.create in Hv.
  destruct (_ || _); [done|]. injection Hv as <-. rewrite Ht. by exists c, d, sha.
Qed.
End authorization_service.

(** ** Alice authorizes the web shop *)

Module AuthorizationWitnesses.
Import TestPlatform AuthorizationService InMemoryAuthorizationCodeStore ClientWitnesses.

Definition code_key : AuthorizationCodeKey.t := AuthorizationCodeKey.mk "fedcba9876543210fedcba9876543210".
Definition alice_session : AuthenticatedSession.t :=
  AuthenticatedSession.mk (Session.mk (mkId "s1") (mkId "alice") (mkId "google") Ial1
    (AuthenticationStrength.mk Possession false) SessionState.Active 100 [] 100 100 90000 9000 None None None).
Definition verifier : string := "dBjftJeZ4CVP-mB92K27uhbUJU1p1r_wW1gFWFOEjXk".
Definition challenge : PkceChallenge.t :=
  match challengeForVerifier verifier with Ok c => c | _ => PkceChallenge.mk "" end.
Definition request : AuthorizationRequest.t :=
  AuthorizationRequest.mk server_id "https://shop.example/callback" [Scope.mk "email"; Scope.mk "openid"]
    challenge (Some "state") None None None Query.

Abbreviation shop_state := (authorizer InMemoryClientRepository.t InMemoryApplicationRepository.t t world).
Definition before : shop_state := mkAuthorizer registration.2 ∅.
Definition granting := authorize code_key 60000 alice_session request before.
Definition grant : AuthorizationGrant.t :=
  match granting.1 with Ok g => g | _ => AuthorizationGrant.mk "" "" None end.
Definition redeeming :=
  redeem code_key (AuthorizationGrant.code grant) server_id "https://shop.example/callback" verifier
    (later granting.2 5000).
Definition no_code : AuthorizationCode.t :=
  AuthorizationCode.mk [] (mkId "") (mkId "") "" [] challenge None None (mkId "") Ial0
    AuthenticationStrength.none 0 0 0.
Definition redeemed : RedeemedAuthorization.t :=
  match redeeming.1 with Ok a => a | _ => RedeemedAuthorization.mk no_code end.

Lemma shop_usable w : usable_client (a_manager (later granting.2 w)) server_id (ClientRegistration.client server).
Proof.
  split; [vm_compute; reflexivity|]. split; [vm_compute; reflexivity|].
  exists shop. split; vm_compute; reflexivity.
Qed.

Lemma authorization_code_round_trip_witness : exists now code,
  granted_code 60000 before alice_session request now code /\
  ((clock_now (Platform:=TestPlatform.test) 5000).1 < now + 60000 -> is_ok redeeming.1 = true).
Proof.
  edestruct (authorization_code_round_trip code_key 60000 alice_session request before grant granting.2 5000 verifier
              (ClientRegistration.client server)) as (now & code & Hg & Hr).
  - apply run_as. vm_compute. reflexivity.
  - vm_compute. reflexivity.
  - apply shop_usable.
  - exists now, code. split; [exact Hg|]. intros Ht. destruct (Hr Ht) as (s2 & E & _).
    change redeeming with (redeem code_key (AuthorizationGrant.code grant) (AuthorizationRequest.clientId request)
      (AuthorizationRequest.redirectUri request) verifier (later granting.2 5000)). rewrite E. reflexivity.
Defined.

Lemma redemption_is_bound_witness : exists client, usable_client (a_manager (later granting.2 5000)) server_id client.
Proof.
  edestruct (redemption_is_bound code_key (AuthorizationGrant.code grant) server_id "https://shop.example/callback"
               verifier (later granting.2 5000) redeemed redeeming.2) as [Hu _]; [|exact Hu].
  apply run_as. vm_compute. reflexivity.
Defined.
End AuthorizationWitnesses.
