(* ===== verification/Resource.v ===== *)
(** * openproof.resource: protected resources and service identities

    Models [src/src/resource/model.cpp], [repository.cpp] and [service.cpp]:
    resource servers with their audience and scopes, service identities that
    let a service client act on its own behalf, the repository of both, and the
    two services over it. *)
From S2P Require Import Prelude Foundation Encoding Security IdentityCore Application Client.

Inductive ResourceIdTag := .
Abbreviation ResourceId := (StrongId ResourceIdTag).

Module ResourceStatus.
Inductive t := Active | Suspended | Revoked.

#[global] Instance eq_dec : EqDecision t.
Proof. solve_decision. Defined.
End ResourceStatus.

(** The four blanks an audience must not contain. *)
Definition audience_blank (symbol : ascii) : bool :=
  octet_is " " symbol || octet_is "009"%char symbol || octet_is "013"%char symbol || octet_is "010"%char symbol.

Definition validAudience (value : string) : bool :=
  negb (bool_decide (value = "")) && (String.length value <=? 2048)%nat && negb (any_octet audience_blank value).

(** The validation loop of [normalizedScopes]. *)
Fixpoint scopesParse (scopes : list string) : Status :=
  match scopes with
  | [] => ok
  | value :: scopes => _ ← Scope.create value; scopesParse scopes
  end.

Definition normalizedScopes (scopes : list string) : Result (list string) :=
  if bool_decide (scopes = []) || (256 <? length scopes)%nat then
    fail InvalidArgument "A resource server must declare scopes."
  else _ ← scopesParse scopes; Ok (sort_unique scopes).

Definition normalizedAudiences (audiences : list string) : Result (list string) :=
  if bool_decide (audiences = []) || (64 <? length audiences)%nat
     || existsb (fun value => negb (validAudience value)) audiences then
    fail InvalidArgument "A service identity audience grant is invalid."
  else Ok (sort_unique audiences).

(** ** Resource servers *)

Module ResourceServer.
Record t := mk {
  id : ResourceId;
  audience : string;
  displayName : string;
  scopes : list string;
  status : ResourceStatus.t;
  createdAt : Instant;
  updatedAt : Instant;
}.

(** The range check of the status enumeration always passes: the type has the
    three values only. *)
Definition restore (id : ResourceId) (audience displayName : string) (scopes : list string)
    (status : ResourceStatus.t) (createdAt updatedAt : Instant) : Result t :=
  match normalizedScopes scopes with
  | Ok normalized =>
      if id_empty id || negb (validAudience audience) || bool_decide (displayName = "")
         || (256 <? String.length displayName)%nat || (updatedAt <? createdAt) then
        fail InvalidArgument "The resource-server registration is invalid."
      else Ok (mk id audience displayName normalized status createdAt updatedAt)
  | _ => fail InvalidArgument "The resource-server registration is invalid."
  end.

Definition create (id : ResourceId) (audience displayName : string) (scopes : list string)
    (now : Instant) : Result t :=
  restore id audience displayName scopes ResourceStatus.Active now now.

Definition active (r : t) : bool := bool_decide (status r = ResourceStatus.Active).

Definition permitsScope (r : t) (scope : string) : bool := binary_search (scopes r) scope.
Definition permitsScopes (r : t) (wanted : list string) : bool := forallb (permitsScope r) wanted.

Definition setStatus (status' : ResourceStatus.t) (now : Instant) : prog t Error unit := fun r =>
  if bool_decide (status r = ResourceStatus.Revoked) && negb (bool_decide (status' = ResourceStatus.Revoked)) then
    (fail FailedPrecondition "A revoked resource server cannot be reactivated.", r)
  else (ok, mk (id r) (audience r) (displayName r) (scopes r) status' (createdAt r) now).
End ResourceServer.

(** ** Service identities *)

Module ServiceIdentity.
Record t := mk {
  identity : IdentityId;
  client : ClientId;
  audiences : list string;
  scopes : list string;
  active : bool;
  createdAt : Instant;
  updatedAt : Instant;
}.

Definition restore (identity : IdentityId) (clientId : ClientId) (audiences scopes : list string)
    (active : bool) (createdAt updatedAt : Instant) : Result t :=
  match normalizedAudiences audiences, normalizedScopes scopes with
  | Ok normalizedAudience, Ok normalizedScope =>
      if id_empty identity || id_empty clientId || (updatedAt <? createdAt) then
        fail InvalidArgument "The service identity registration is invalid."
      else Ok (mk identity clientId normalizedAudience normalizedScope active createdAt updatedAt)
  | _, _ => fail InvalidArgument "The service identity registration is invalid."
  end.

Definition create (identity : IdentityId) (clientId : ClientId) (audiences scopes : list string)
    (now : Instant) : Result t :=
  restore identity clientId audiences scopes true now now.

Definition permitsAudience (s : t) (audience : string) : bool := binary_search (audiences s) audience.
Definition permitsScopes (s : t) (wanted : list string) : bool := forallb (binary_search (scopes s)) wanted.

Definition deactivate (now : Instant) (s : t) : t :=
  mk (identity s) (client s) (audiences s) (scopes s) false (createdAt s) now.
Definition activate (now : Instant) (s : t) : t :=
  mk (identity s) (client s) (audiences s) (scopes s) true (createdAt s) now.
End ServiceIdentity.

(** ** Repositories *)

Class ResourceRepository (T : Type) := {
  rr_add : ResourceServer.t -> prog T Error unit;
  rr_save : ResourceServer.t -> prog T Error unit;
  rr_findByAudience : T -> string -> Result (option ResourceServer.t);
  rr_list : T -> Result (list ResourceServer.t);
  rr_saveService : ServiceIdentity.t -> prog T Error unit;
  rr_serviceForClient : T -> ClientId -> Result (option ServiceIdentity.t);
}.

(** What the services rely on: a saved service identity is the one found. *)
Class ResourceRepositoryLaws (T : Type) `{ResourceRepository T} := {
  rr_saved_service s service s' :
    rr_saveService service s = (ok, s') ->
    rr_serviceForClient s' (ServiceIdentity.client service) = Ok (Some service);
}.

Module InMemoryResourceRepository.
Record t := mk {
  resources : gmap string ResourceServer.t;
  services : gmap ClientId ServiceIdentity.t;
}.

Definition empty : t := mk ∅ ∅.

Definition add (resource : ResourceServer.t) : prog t Error unit := fun r =>
  if bool_decide (is_Some (resources r !! ResourceServer.audience resource)) then (failCode AlreadyExists, r)
  else (ok, mk (<[ResourceServer.audience resource := resource]> (resources r)) (services r)).

Definition save (resource : ResourceServer.t) : prog t Error unit := fun r =>
  match resources r !! ResourceServer.audience resource with
  | None => (failCode NotFound, r)
  | Some _ => (ok, mk (<[ResourceServer.audience resource := resource]> (resources r)) (services r))
  end.

Definition findByAudience (r : t) (audience : string) : Result (option ResourceServer.t) :=
  Ok (resources r !! audience).

Definition list (r : t) : Result (list ResourceServer.t) := Ok (map_iter (resources r)).*2.

Definition saveService (service : ServiceIdentity.t) : prog t Error unit := fun r =>
  (ok, mk (resources r) (<[ServiceIdentity.client service := service]> (services r))).

Definition serviceForClient (r : t) (clientId : ClientId) : Result (option ServiceIdentity.t) :=
  Ok (services r !! clientId).

#[global] Instance repository : ResourceRepository t := {
  rr_add := add; rr_save := save; rr_findByAudience := findByAudience; rr_list := list;
  rr_saveService := saveService; rr_serviceForClient := serviceForClient;
}.

#[global] Instance laws : ResourceRepositoryLaws t.
Proof.
  split. intros s service s' [= <-]. cbn. unfold serviceForClient. cbn. by rewrite lookup_insert_eq.
Qed.
End InMemoryResourceRepository.

(** ** The registry of resource servers *)

Record resource_registry (R W : Type) := mkResourceRegistry { g_resources : R; g_world : W }.
Arguments mkResourceRegistry {R W}.
Arguments g_resources {R W}.
Arguments g_world {R W}.

Module ResourceRegistry.
Section registry.
Context `{Plat : Platform}.
Context {R : Type} `{!ResourceRepository R}.

Abbreviation handler B := (prog (resource_registry R world) Error B).

Definition on_resources {B} (m : prog R Error B) : handler B :=
  zoom g_resources (fun x s => mkResourceRegistry x (g_world s)) m.
Definition on_world {B} (m : prog world Error B) : handler B :=
  zoom g_world (fun x s => mkResourceRegistry (g_resources s) x) m.

Definition registerResource (audience displayName : string) (scopes : list string)
    : handler ResourceServer.t :=
  random ← on_world (randomTokenBase64Url 18);
  now ← on_world now;
  resource ← lift (ResourceServer.create (mkId ("opr_" +:+ random)) audience displayName scopes now);
  _ ← on_resources (rr_add resource);
  mret resource.

Definition requireActive (s : resource_registry R world) (audience : string) : Result ResourceServer.t :=
  found ← rr_findByAudience (g_resources s) audience;
  match found with
  | Some resource =>
      if ResourceServer.active resource then Ok resource
      else fail PermissionDenied "The requested OAuth resource is unavailable."
  | None => fail PermissionDenied "The requested OAuth resource is unavailable."
  end.

Definition list (s : resource_registry R world) : Result (Datatypes.list ResourceServer.t) :=
  rr_list (g_resources s).

Definition setStatus (audience : string) (status : ResourceStatus.t) : handler ResourceServer.t :=
  found ← (fun s => (rr_findByAudience (g_resources s) audience, s));
  match found with
  | None => throw (Error_ofCode NotFound)
  | Some resource =>
      now ← on_world now;
      let '(changed, resource) := ResourceServer.setStatus status now resource in
      _ ← lift changed;
      _ ← on_resources (rr_save resource);
      mret resource
  end.
End registry.
End ResourceRegistry.

(** ** Service identities of service clients *)

(** The repositories behind the references, and the client manager with the
    platform it draws from. *)
Record provisioner (I R C A W : Type) := mkProvisioner {
  p_identities : I;
  p_resources : R;
  p_manager : manager C A W;
}.
Arguments mkProvisioner {I R C A W}.
Arguments p_identities {I R C A W}.
Arguments p_resources {I R C A W}.
Arguments p_manager {I R C A W}.

Module ServiceIdentityService.
Section service.
Context `{Plat : Platform}.
Context {I R C A : Type}
  `{!IdentityRepository I, !ResourceRepository R, !ClientRepository C, !ApplicationRepository A}.
Context (m_organization : OrganizationId).

Abbreviation state := (provisioner I R C A world).
Abbreviation handler B := (prog state Error B).

Definition on_identities {B} (m : prog I Error B) : handler B :=
  zoom p_identities (fun x s => mkProvisioner x (p_resources s) (p_manager s)) m.
Definition on_resources {B} (m : prog R Error B) : handler B :=
  zoom p_resources (fun x s => mkProvisioner (p_identities s) x (p_manager s)) m.
Definition on_world {B} (m : prog world Error B) : handler B :=
  zoom p_manager (fun x s => mkProvisioner (p_identities s) (p_resources s) x) (ClientManager.on_world m).
Definition ask {B} (f : state -> Result B) : handler B := fun s => (f s, s).

(** The loop of [provision] over the audiences. *)
Fixpoint admitAudiences (resources : R) (audiences scopes : list string) : Status :=
  match audiences with
  | [] => ok
  | audience :: audiences =>
      resource ← rr_findByAudience resources audience;
      if negb match resource with
              | Some resource => ResourceServer.active resource && ResourceServer.permitsScopes resource scopes
              | None => false
              end then
        fail PermissionDenied "The service grant exceeds the resource registration."
      else admitAudiences resources audiences scopes
  end.

(** A failure after the identity was added deletes it before it is reported. *)
Definition or_delete {B} (identityId : IdentityId) (m : handler B) : handler B :=
  r ← attempt m;
  match r with
  | Ok b => mret b
  | _ => _ ← ignore (on_identities (ir_changeStatus m_organization identityId Deleted)); lift r
  end.

Definition provision (clientId : ClientId) (audiences scopes : list string) : handler ServiceIdentity.t :=
  registered ← ask (fun s => ClientManager.requireActive (p_manager s) clientId);
  if negb (bool_decide (Client.kind registered = Client.Service)) then
    throw (Error_ofMessage FailedPrecondition "Only service clients can own service identities.")
  else
    _ ← ask (fun s => admitAudiences (p_resources s) audiences scopes);
    existing ← ask (fun s => rr_serviceForClient (p_resources s) clientId);
    if bool_decide (is_Some existing) then
      throw (Error_ofMessage AlreadyExists "The service client already has a canonical identity.")
    else
      random ← on_world (randomTokenBase64Url 24);
      let identityId : IdentityId := mkId ("opsi_" +:+ random) in
      created ← on_world now;
      identity ← lift (Identity.create identityId IdentityCore.Service created);
      _ ← on_identities (ir_add m_organization identity);
      now ← on_world now;
      service ← or_delete identityId (lift (ServiceIdentity.create identityId clientId audiences scopes now));
      _ ← or_delete identityId (on_resources (rr_saveService service));
      mret service.

Definition requireActive (s : state) (clientId : ClientId) (audience : string) (scopes : list string)
    : Result ServiceIdentity.t :=
  registered ← ClientManager.requireActive (p_manager s) clientId;
  if negb (bool_decide (Client.kind registered = Client.Service)) then
    fail AuthenticationFailed "Client authentication failed."
  else
    service ← rr_serviceForClient (p_resources s) clientId;
    match service with
    | Some service =>
        if negb (ServiceIdentity.active service) || negb (ServiceIdentity.permitsAudience service audience)
           || negb (ServiceIdentity.permitsScopes service scopes) then
          fail PermissionDenied "The service identity does not permit the requested grant."
        else
          identity ← ir_findById (p_identities s) m_organization (ServiceIdentity.identity service);
          if negb match identity with
                  | Some identity =>
                      Identity.canAuthenticate identity
                      && bool_decide (Identity.kind identity = IdentityCore.Service)
                  | None => false
                  end then
            fail PermissionDenied "The service identity is inactive."
          else Ok service
    | None => fail PermissionDenied "The service identity does not permit the requested grant."
    end.

Definition find (s : state) (clientId : ClientId) : Result ServiceIdentity.t :=
  found ← rr_serviceForClient (p_resources s) clientId;
  match found with
  | None => failCode NotFound
  | Some service => Ok service
  end.

Definition setActive (clientId : ClientId) (active : bool) : handler ServiceIdentity.t :=
  service ← ask (fun s => find s clientId);
  now ← on_world now;
  let service := if active then ServiceIdentity.activate now service else ServiceIdentity.deactivate now service in
  _ ← on_resources (rr_saveService service);
  mret service.
End service.
End ServiceIdentityService.

(** ** What a registration permits *)

Lemma forallb_permits {A} `{Countable A, !KeyOrder A} (held wanted : list A) :
  forallb (binary_search (sort_unique held)) wanted = true <-> wanted ⊆ held.
Proof.
  rewrite forallb_forall. setoid_rewrite <- list_elem_of_In. setoid_rewrite sort_unique_search.
  setoid_rewrite bool_decide_eq_true. done.
Qed.

Lemma ServiceIdentity_create_ok identity clientId audiences scopes now service :
  ServiceIdentity.create identity clientId audiences scopes now = Ok service ->
  ServiceIdentity.identity service = identity /\ ServiceIdentity.client service = clientId /\
  ServiceIdentity.active service = true /\
  (forall audience, ServiceIdentity.permitsAudience service audience = true <-> audience ∈ audiences) /\
  (forall wanted, ServiceIdentity.permitsScopes service wanted = true <-> wanted ⊆ scopes).
Proof.
  unfold ServiceIdentity.create, ServiceIdentity.restore, normalizedAudiences, normalizedScopes.
  destruct (_ || existsb _ _); [done|]. destruct (_ || (256 <? _)%nat); [done|]. unfold mbind, result_bind.
  destruct (scopesParse scopes); [|done..]. destruct (_ || _); [done|]. intros [= <-].
  split_and!; try done.
  - intros audience. unfold ServiceIdentity.permitsAudience. cbn [ServiceIdentity.audiences].
    by rewrite sort_unique_search, bool_decide_eq_true.
  - intros wanted. apply forallb_permits.
Qed.

(** ** Provisioning *)

Section service_identities.
Context `{Plat : Platform}.
Context {R C A : Type} `{!ResourceRepository R, !ResourceRepositoryLaws R, !ClientRepository C, !ApplicationRepository A}.
Context (m_organization : OrganizationId).

Import ServiceIdentityService.
Import InMemoryIdentityRepository(mkOwned, view, view_insert, findById_view, add_ok_iff, changeStatus_succeeds).
Abbreviation state := (provisioner InMemoryIdentityRepository.t R C A world).
Implicit Types s : state.

(** The platform moves on. *)
Definition later s (w : world) : state :=
  mkProvisioner (p_identities s) (p_resources s)
    (mkManager (m_clients (p_manager s)) (m_applications (p_manager s)) w).

Lemma provision_world_later {B} (m : prog world Error B) s r s' :
  on_world m s = (r, s') -> exists w, m (m_world (p_manager s)) = (r, w) /\ s' = later s w.
Proof. intros (g & (w & Hm & ->)%zoom_eq & ->)%zoom_eq. by exists w. Qed.

Lemma world_run {B} (m : prog world Error B) s : exists w, on_world m s = ((m (m_world (p_manager s))).1, later s w).
Proof.
  destruct (on_world m s) as [r s'] eqn:E. apply provision_world_later in E as (w & -> & ->). by exists w.
Qed.

(** The client exists, is usable and may act on its own behalf. *)
Definition service_client s clientId : Prop :=
  exists client, usable_client (p_manager s) clientId client /\ Client.kind client = Client.Service.

(** A service identity acts exactly within its grant. [requireActive]
    answers exactly when the client is usable and a service client, its service
    identity is stored, active, and granted the audience and every scope, and
    the canonical identity behind it exists in the organization, may
    authenticate and is of the service kind; it answers with that record. *)
Theorem machine_grants_exactly s clientId audience scopes service :
  requireActive m_organization s clientId audience scopes = Ok service <->
  service_client s clientId /\ rr_serviceForClient (p_resources s) clientId = Ok (Some service) /\
  ServiceIdentity.active service = true /\ ServiceIdentity.permitsAudience service audience = true /\
  ServiceIdentity.permitsScopes service scopes = true /\
  exists identity, view (p_identities s) m_organization (ServiceIdentity.identity service) = Some identity /\
    Identity.canAuthenticate identity = true /\ Identity.kind identity = IdentityCore.Service.
Proof.
  unfold requireActive, service_client, mbind, result_bind. split.
  - destruct (ClientManager.requireActive _ clientId) as [c|e|] eqn:Hc; [|done..].
    apply client_requireActive_ok in Hc. case_bool_decide as Hk; [|done]. simpl.
    destruct (rr_serviceForClient _ _) as [[found|]|e|]; [|done..]. destruct (_ || _) eqn:G; [done|]. bool_prop.
    change (ir_findById (p_identities s)) with (InMemoryIdentityRepository.findById (p_identities s)).
    rewrite findById_view. destruct (view _ _ _) as [i|] eqn:Hi; simpl; [|done].
    destruct (Identity.canAuthenticate i) eqn:Hauth; simpl; [|done]. case_bool_decide as Hkind; [|done].
    intros [= <-]. split_and!; try done; eauto.
  - intros ((c & Hc & Hk) & -> & Ha & Hau & Hsc & i & Hi & Hauth & Hkind).
    rewrite (proj2 (client_requireActive_ok _ _ _) Hc), Hk, Ha, Hau, Hsc. simpl.
    change (ir_findById (p_identities s)) with (InMemoryIdentityRepository.findById (p_identities s)).
    by rewrite findById_view, Hi, Hauth, Hkind.
Qed.

Lemma admitAudiences_ok resources audiences scopes :
  admitAudiences resources audiences scopes = ok ->
  forall audience, audience ∈ audiences -> exists resource,
    rr_findByAudience resources audience = Ok (Some resource) /\ ResourceServer.active resource = true /\
    ResourceServer.permitsScopes resource scopes = true.
Proof.
  induction audiences as [|a l IH]; simpl; [intros _ a Ha; by apply elem_of_nil in Ha|].
  unfold mbind, result_bind. destruct (rr_findByAudience resources a) as [[r|]|e|] eqn:Hf; [|done..].
  destruct (_ && _) eqn:G; simpl; [|done]. bool_prop. intros Hl audience [->|Hin]%elem_of_cons; [eauto|auto].
Qed.

(** A step that deletes the identity when it fails. *)
Lemma or_delete_run {B} identityId (m : prog state Error B) s r s' i :
  or_delete m_organization identityId m s = (r, s') -> (forall s0, p_identities (m s0).2 = p_identities s0) ->
  view (p_identities s) m_organization identityId = Some i -> Identity.terminal (Identity.status i) = false ->
  match r with
  | Ok b => m s = (Ok b, s')
  | Err _ => p_identities s' = <[identityId := mkOwned m_organization
      (Identity.mk (Identity.id i) (Identity.kind i) Deleted (Identity.createdAt i))]> (p_identities s)
  | Aborted => True
  end.
Proof.
  unfold or_delete, mbind, prog_bind, attempt. intros Hrun Hm Hi Ht. specialize (Hm s).
  destruct (m s) as [[b|e|] s1]; simpl in *; [by injection Hrun as <- <-| |by injection Hrun as <- <-].
  unfold ignore, on_identities, zoom in Hrun. cbn in Hrun. rewrite Hm in Hrun.
  rewrite (changeStatus_succeeds _ _ _ _ i) in Hrun by done. cbn in Hrun. injection Hrun as <- <-. done.
Qed.

Lemma saveService_still service s0 : p_identities (on_resources (rr_saveService service) s0).2 = p_identities s0.
Proof. unfold on_resources, zoom. by destruct (rr_saveService _ _). Qed.

(** The end of [provision], once the canonical identity is stored. *)
Lemma provision_tail clientId audiences scopes identityId i s r s' :
  view (p_identities s) m_organization identityId = Some i -> Identity.terminal (Identity.status i) = false ->
  (now ← on_world now;
   service ← or_delete m_organization identityId
     (lift (ServiceIdentity.create identityId clientId audiences scopes now));
   _ ← or_delete m_organization identityId (on_resources (rr_saveService service));
   mret service) s = (r, s') ->
  match r with
  | Ok service =>
      (exists t, ServiceIdentity.create identityId clientId audiences scopes t = Ok service) /\
      p_identities s' = p_identities s /\
      m_clients (p_manager s') = m_clients (p_manager s) /\
      m_applications (p_manager s') = m_applications (p_manager s) /\
      rr_serviceForClient (p_resources s') clientId = Ok (Some service)
  | Err _ => p_identities s' = <[identityId := mkOwned m_organization
      (Identity.mk (Identity.id i) (Identity.kind i) Deleted (Identity.createdAt i))]> (p_identities s)
  | Aborted => True
  end.
Proof.
  intros Hi Ht Hrun. unfold mbind, prog_bind at 1 in Hrun. destruct (world_run now s) as [w Hw].
  rewrite Hw in Hrun. destruct (now (m_world (p_manager s))) as [[t|e|] w0] eqn:Hnow; simpl in Hrun.
  2-3: unfold now in Hnow; by destruct (clock_now _).
  unfold prog_bind at 1 in Hrun.
  destruct (or_delete _ _ (lift _) _) as [r1 s1] eqn:H1. eapply or_delete_run in H1; [|done|exact Hi|done].
  destruct r1 as [service|e|]; [|by injection Hrun as <- <-..]. apply lift_ok in H1 as [Hcreate ->].
  unfold prog_bind in Hrun.
  destruct (or_delete _ _ (on_resources _) _) as [r2 s2] eqn:H2.
  eapply or_delete_run in H2; [|intros; apply saveService_still|exact Hi|done].
  destruct r2 as [[]|e|]; injection Hrun as <- <-; [|done..].
  apply zoom_eq in H2 as (x & Hx & ->). split_and!; try done; [by exists t|].
  apply rr_saved_service in Hx. simpl. apply ServiceIdentity_create_ok in Hcreate as (_ & E & _). by rewrite E in Hx.
Qed.

(** One fresh canonical identity of the service kind, and no other change. *)
Definition added s s' (status : IdentityStatus) identityId : Prop :=
  p_identities s !! identityId = None /\ exists created,
  p_identities s' = <[identityId := mkOwned m_organization
    (Identity.mk identityId IdentityCore.Service status created)]> (p_identities s).

(** The service identity [provision] promises. *)
Definition provisioned s s' clientId (audiences scopes : list string) service : Prop :=
  service_client s clientId /\ rr_serviceForClient (p_resources s) clientId = Ok None /\
  (forall audience, audience ∈ audiences -> exists resource,
     rr_findByAudience (p_resources s) audience = Ok (Some resource) /\
     ResourceServer.active resource = true /\ ResourceServer.permitsScopes resource scopes = true) /\
  added s s' IdentityCore.Active (ServiceIdentity.identity service) /\
  forall audience wanted, audience ∈ audiences -> wanted ⊆ scopes ->
    requireActive m_organization s' clientId audience wanted = Ok service.

Definition provision_outcome s s' clientId audiences scopes (r : Result ServiceIdentity.t) : Prop :=
  match r with
  | Ok service => provisioned s s' clientId audiences scopes service
  | Err _ => p_identities s' = p_identities s \/ exists identityId, added s s' Deleted identityId
  | Aborted => True
  end.

Lemma outcome_nothing s s' clientId audiences scopes r :
  is_ok r = false -> p_identities s' = p_identities s -> provision_outcome s s' clientId audiences scopes r.
Proof. destruct r; [done|by left|done]. Qed.

Lemma outcome_deleted s s' clientId audiences scopes r identityId :
  is_ok r = false -> (r <> Aborted -> added s s' Deleted identityId) ->
  provision_outcome s s' clientId audiences scopes r.
Proof. destruct r as [?|e|]; [done| |done]. intros _ H. right. exists identityId. by apply H. Qed.

(** Provisioning leaves a usable service identity or none. When
    [provision] succeeds, the client was a usable service client without a
    service identity, every audience is a registered, active resource that
    offers every scope, and one fresh canonical identity of the service kind
    was added; from then on the service identity acts for each of the audiences
    with any of the scopes. When it fails, either no canonical identity was
    added or the one that was added is deleted. *)
Theorem provision_is_all_or_nothing clientId audiences scopes s :
  let run := provision m_organization clientId audiences scopes s in
  provision_outcome s run.2 clientId audiences scopes run.1.
Proof.
  destruct (provision _ _ _ _ s) as [r s'] eqn:Hrun. unfold provision in Hrun. simpl.
  apply prog_bind_inv in Hrun as [(c & s1 & [= Hc <-] & Hrun)|(Hr & _ & ->)]; [|by apply outcome_nothing].
  apply client_requireActive_ok in Hc. branch Hrun Hk; [by injection Hrun as <- <-; apply outcome_nothing|]. bool_prop.
  apply prog_bind_inv in Hrun as [([] & s1 & [= Hadm <-] & Hrun)|(Hr & _ & ->)]; [|by apply outcome_nothing].
  pose proof (admitAudiences_ok _ _ _ Hadm) as Hres.
  apply prog_bind_inv in Hrun as [(o & s1 & [= Hnone <-] & Hrun)|(Hr & _ & ->)]; [|by apply outcome_nothing].
  branch Hrun Hs; [by injection Hrun as <- <-; apply outcome_nothing|]. bool_prop. apply eq_None_not_Some in Hs as ->.
  destruct (world_run (randomTokenBase64Url 24) s) as [w1 Hw1].
  apply prog_bind_inv in Hrun as [(g & s1 & Hg & Hrun)|(Hr & _ & ->)]; [|rewrite Hw1; by apply outcome_nothing].
  rewrite Hw1 in Hg. injection Hg as _ <-. cbv zeta in Hrun. set (identityId := mkId _) in *.
  destruct (world_run now (later s w1)) as [w2 Hw2].
  apply prog_bind_inv in Hrun as [(t & s1 & Ht & Hrun)|(Hr & _ & ->)]; [|rewrite Hw2; by apply outcome_nothing].
  rewrite Hw2 in Ht. injection Ht as _ <-.
  apply prog_bind_inv in Hrun as [(ident & s1 & [Hident ->]%lift_ok & Hrun)|(Hr & _ & ->)]; [|by apply outcome_nothing].
  unfold Identity.create in Hident. simpl in Hident. injection Hident as <-.
  apply prog_bind_inv in Hrun as [([] & s1 & Hadd & Hrun)|(Hr & Hno & ->)].
  2: { apply outcome_nothing; [done|]. revert Hno. unfold on_identities, zoom.
       change (ir_add m_organization) with (InMemoryIdentityRepository.add m_organization).
       unfold InMemoryIdentityRepository.add. by case_bool_decide. }
  apply zoom_eq in Hadd as (ids & [Hfresh ->]%add_ok_iff & ->). cbn [Identity.id p_identities later] in Hfresh, Hrun.
  eapply provision_tail in Hrun; [|cbn [p_identities]; rewrite view_insert, decide_True by done;
    cbn; by rewrite bool_decide_eq_true_2|done].
  cbn [p_identities p_resources p_manager m_clients m_applications later Identity.id Identity.kind Identity.createdAt] in Hrun.
  destruct r as [service|e|].
  - destruct Hrun as ((t' & Hcr) & Hids & Hcl & Hap & Hstored).
    apply ServiceIdentity_create_ok in Hcr as (Eid & Ecl & Eact & Hau & Hsc).
    assert (Hsvc : forall s0, m_clients (p_manager s0) = m_clients (p_manager s) ->
      m_applications (p_manager s0) = m_applications (p_manager s) -> service_client s0 clientId).
    { intros s0 E1 E2. exists c. unfold usable_client. rewrite E1, E2. done. }
    simpl. unfold provisioned, added. rewrite Eid. split_and!; try done.
    + by apply Hsvc.
    + by exists t.
    + intros audience wanted Hin Hsub. apply machine_grants_exactly. split_and!; try done.
      * by apply Hsvc.
      * by apply Hau.
      * by apply Hsc.
      * rewrite Eid, Hids, view_insert, decide_True by done. cbn.
        rewrite bool_decide_eq_true_2 by done. by eexists.
  - apply (outcome_deleted _ _ _ _ _ _ identityId); [done|]. intros _. split; [done|]. exists t.
    by rewrite Hrun, insert_insert_eq.
  - done.
Qed.
End service_identities.

(** ** A batch client of the web shop *)

Module ResourceWitnesses.
Import TestPlatform ServiceIdentityService.

Definition batch : Client.t :=
  Client.mk (mkId "opc_batch") (mkId "app") "Nightly batch" Client.Service ClientStatus.Active [] [Scope.mk "orders.read"]
    (Some zeroDigest) 10 10.
Definition orders : ResourceServer.t :=
  ResourceServer.mk (mkId "opr_orders") "https://orders.example" "Orders" ["orders.read"; "orders.write"]
    ResourceStatus.Active 10 10.

Abbreviation batch_state := (provisioner InMemoryIdentityRepository.t InMemoryResourceRepository.t
  InMemoryClientRepository.t InMemoryApplicationRepository.t world).
Definition before : batch_state :=
  mkProvisioner ∅ (InMemoryResourceRepository.mk {[ "https://orders.example" := orders ]} ∅)
    (mkManager {[ mkId "opc_batch" := batch ]} (m_applications ClientWitnesses.start) 100).
Definition provisioning :=
  provision (mkId "acme") (mkId "opc_batch") ["https://orders.example"] ["orders.read"] before.

Lemma provision_is_all_or_nothing_witness :
  is_ok provisioning.1 = true /\
  exists service, provisioning.1 = Ok service /\
    requireActive (mkId "acme") provisioning.2 (mkId "opc_batch") "https://orders.example" ["orders.read"] = Ok service.
Proof.
  split; [vm_compute; reflexivity|].
  pose proof (provision_is_all_or_nothing (mkId "acme") (mkId "opc_batch") ["https://orders.example"] ["orders.read"]
    before) as H. fold provisioning in H. cbv zeta in H.
  assert (Hok : is_ok provisioning.1 = true) by (vm_compute; reflexivity).
  destruct (provisioning.1) as [service|e|]; [|discriminate Hok..]. exists service. split; [reflexivity|].
  destruct H as (_ & _ & _ & _ & Hacts). apply Hacts; [apply list_elem_of_here|done].
Defined.

(** A grant beyond what the resource offers is refused, and leaves nothing. *)
Example excessive_grant :
  let run := provision (mkId "acme") (mkId "opc_batch") ["https://orders.example"] ["orders.delete"] before in
  is_ok run.1 = false /\ p_identities run.2 = ∅.
Proof. split; vm_compute; reflexivity. Qed.
End ResourceWitnesses.
