(* ===== verification/Device.v ===== *)
(** * openproof.oauth: the device authorization grant

    Models [src/src/oauth/device.cpp]: the state machine of a device
    authorization, the store that indexes it by device code and by user code
    and answers polls, and the service a device, a browser and the token
    endpoint use. A device authorization moves from [Pending] to [Approved] or
    [Denied] by the user, and from [Approved] to [Consumed] by one poll. *)
From S2P Require Import Prelude Foundation Encoding Security Provider IdentityCore Session SessionService Application Client Authorization.

Abbreviation DeviceCodeDigest := Sha256Digest.
Abbreviation DeviceUserCodeDigest := Sha256Digest.

Module DeviceAuthorizationStatus.
Inductive t := Pending | Approved | Denied | Consumed.

#[global] Instance eq_dec : EqDecision t.
Proof. solve_decision. Defined.
End DeviceAuthorizationStatus.

Module DevicePollDisposition.
Inductive t := Pending | SlowDown | Approved | Denied | Expired.
End DevicePollDisposition.

Definition normalizeScopes (scopes : list Scope.t) : Result (list Scope.t) :=
  if bool_decide (scopes = []) || (256 <? length scopes)%nat then
    fail InvalidArgument "Device authorization requires scopes."
  else
    let scopes := sort_keys scopes in
    if has_adjacent scopes then fail InvalidArgument "Device authorization scopes must be unique."
    else Ok scopes.

(** ** One device authorization *)

Module DeviceAuthorization.
Record t := mk {
  deviceCode : DeviceCodeDigest;
  userCode : DeviceUserCodeDigest;
  clientId : ClientId;
  scopes : list Scope.t;
  resource : option string;
  issuedAt : Instant;
  expiresAt : Instant;
  pollInterval : Duration;
  status : DeviceAuthorizationStatus.t;
  identity : option IdentityId;
  provider : option ProviderId;
  assurance : option AssuranceLevel;
  strength : option AuthenticationStrength.t;
  authenticatedAt : option Instant;
  lastPollAt : option Instant;
}.

Definition restore (deviceCode : DeviceCodeDigest) (userCode : DeviceUserCodeDigest) (clientId : ClientId)
    (scopes : list Scope.t) (resource : option string) (issuedAt expiresAt : Instant) (pollInterval : Duration)
    (status : DeviceAuthorizationStatus.t) (identity : option IdentityId) (provider : option ProviderId)
    (assurance : option AssuranceLevel) (strength : option AuthenticationStrength.t)
    (authenticatedAt lastPollAt : option Instant) : Result t :=
  let approvedClaims := bool_decide (is_Some identity) && bool_decide (is_Some provider)
    && bool_decide (is_Some assurance) && bool_decide (is_Some strength)
    && bool_decide (is_Some authenticatedAt) in
  match normalizeScopes scopes with
  | Ok normalized =>
      if id_empty clientId || (expiresAt <=? issuedAt) || (pollInterval <=? 0)
         || present_and (fun v => bool_decide (v = "") || (2048 <? String.length v)%nat) resource
         || (bool_decide (status = DeviceAuthorizationStatus.Approved)
             || bool_decide (status = DeviceAuthorizationStatus.Consumed)) && negb approvedClaims
         || bool_decide (status = DeviceAuthorizationStatus.Pending) && approvedClaims then
        fail InvalidArgument "The device authorization record is invalid."
      else Ok (mk deviceCode userCode clientId normalized resource issuedAt expiresAt pollInterval status
                  identity provider assurance strength authenticatedAt lastPollAt)
  | _ => fail InvalidArgument "The device authorization record is invalid."
  end.

Definition create (deviceCode : DeviceCodeDigest) (userCode : DeviceUserCodeDigest) (clientId : ClientId)
    (scopes : list Scope.t) (resource : option string) (issuedAt : Instant) (lifetime pollInterval : Duration)
    : Result t :=
  if (lifetime <=? 0) || (pollInterval <=? 0) then
    fail InvalidArgument "Device authorization timing policy is invalid."
  else restore deviceCode userCode clientId scopes resource issuedAt (issuedAt + lifetime) pollInterval
         DeviceAuthorizationStatus.Pending None None None None None None.

Definition expiredAt (a : t) (now : Instant) : bool := expiresAt a <=? now.

Definition set (a : t) (interval : Duration) (status' : DeviceAuthorizationStatus.t) (polled : option Instant) : t :=
  mk (deviceCode a) (userCode a) (clientId a) (scopes a) (resource a) (issuedAt a) (expiresAt a) interval
     status' (identity a) (provider a) (assurance a) (strength a) (authenticatedAt a) polled.

Definition approve (authenticated : AuthenticatedSession.t) (now : Instant) : prog t Error unit := fun a =>
  if negb (bool_decide (status a = DeviceAuthorizationStatus.Pending)) || expiredAt a now then
    (fail FailedPrecondition "The device authorization cannot be approved.", a)
  else
    let session := AuthenticatedSession.session authenticated in
    (ok, mk (deviceCode a) (userCode a) (clientId a) (scopes a) (resource a) (issuedAt a) (expiresAt a)
            (pollInterval a) DeviceAuthorizationStatus.Approved (Some (Session.identity session))
            (Some (Session.provider session)) (Some (Session.assurance session))
            (Some (Session.strength session)) (Some (Session.authenticatedAt session)) (lastPollAt a)).

Definition deny (now : Instant) : prog t Error unit := fun a =>
  if negb (bool_decide (status a = DeviceAuthorizationStatus.Pending)) || expiredAt a now then
    (fail FailedPrecondition "The device authorization cannot be denied.", a)
  else (ok, set a (pollInterval a) DeviceAuthorizationStatus.Denied (lastPollAt a)).

Definition markPolled (now : Instant) : prog t Error unit := fun a =>
  if expiredAt a now || bool_decide (status a = DeviceAuthorizationStatus.Consumed) then
    (failCode FailedPrecondition, a)
  else (ok, set a (pollInterval a) (status a) (Some now)).

Definition slowDown (now : Instant) : prog t Error unit := fun a =>
  if expiredAt a now || bool_decide (status a = DeviceAuthorizationStatus.Consumed) then
    (failCode FailedPrecondition, a)
  else (ok, set a (pollInterval a + seconds 5) (status a) (Some now)).

Definition consume (now : Instant) : prog t Error unit := fun a =>
  if expiredAt a now || negb (bool_decide (status a = DeviceAuthorizationStatus.Approved)) then
    (fail FailedPrecondition "The device authorization cannot be consumed.", a)
  else (ok, set a (pollInterval a) DeviceAuthorizationStatus.Consumed (Some now)).
End DeviceAuthorization.

Module DevicePollResult.
Record t := mk {
  disposition : DevicePollDisposition.t;
  authorization : option DeviceAuthorization.t;
  retryAfter : Duration;
}.
End DevicePollResult.

(** ** The store *)

Class DeviceAuthorizationStore (T : Type) := {
  das_add : DeviceAuthorization.t -> prog T Error unit;
  das_findByUserCode : T -> DeviceUserCodeDigest -> Instant -> Result DeviceAuthorization.t;
  das_approve : DeviceUserCodeDigest -> AuthenticatedSession.t -> Instant -> prog T Error DeviceAuthorization.t;
  das_deny : DeviceUserCodeDigest -> Instant -> prog T Error unit;
  das_poll : DeviceCodeDigest -> ClientId -> Instant -> prog T Error DevicePollResult.t;
}.

Module InMemoryDeviceAuthorizationStore.
Record t := mk {
  byDevice : gmap string DeviceAuthorization.t;
  userToDevice : gmap string string;
}.

Definition empty : t := mk ∅ ∅.

Definition digestKey (bytes : list byte) : string := toHex bytes.

Definition add (authorization : DeviceAuthorization.t) : prog t Error unit := fun r =>
  let device := digestKey (DeviceAuthorization.deviceCode authorization) in
  let user := digestKey (DeviceAuthorization.userCode authorization) in
  if bool_decide (is_Some (byDevice r !! device)) || bool_decide (is_Some (userToDevice r !! user)) then
    (failCode AlreadyExists, r)
  else (ok, mk (<[device := authorization]> (byDevice r)) (<[user := device]> (userToDevice r))).

Definition findByUserCode (r : t) (userCode : DeviceUserCodeDigest) (now : Instant)
    : Result DeviceAuthorization.t :=
  match userToDevice r !! digestKey userCode with
  | None => failCode NotFound
  | Some mapping =>
      match byDevice r !! mapping with
      | None => failCode NotFound
      | Some found =>
          if DeviceAuthorization.expiredAt found now
             || negb (bool_decide (DeviceAuthorization.status found = DeviceAuthorizationStatus.Pending)) then
            failCode NotFound
          else Ok found
      end
  end.

(** The common shape of [approve] and [deny]: the record a user code leads to
    is changed, and written back when the change succeeds. *)
Definition decide_by_user {A} (userCode : DeviceUserCodeDigest) (move : prog DeviceAuthorization.t Error unit)
    (answer : DeviceAuthorization.t -> A) : prog t Error A := fun r =>
  match userToDevice r !! digestKey userCode with
  | None => (failCode NotFound, r)
  | Some mapping =>
      match byDevice r !! mapping with
      | None => (failCode NotFound, r)
      | Some found =>
          match move found with
          | (Ok _, value) => (Ok (answer value), mk (<[mapping := value]> (byDevice r)) (userToDevice r))
          | (Err e, _) => (Err e, r)
          | (Aborted, _) => (Aborted, r)
          end
      end
  end.

Definition approve (userCode : DeviceUserCodeDigest) (authenticated : AuthenticatedSession.t) (now : Instant)
    : prog t Error DeviceAuthorization.t :=
  decide_by_user userCode (DeviceAuthorization.approve authenticated now) (fun value => value).

Definition deny (userCode : DeviceUserCodeDigest) (now : Instant) : prog t Error unit :=
  decide_by_user userCode (DeviceAuthorization.deny now) (fun _ => tt).

(** Runs [move] on the record of a poll and answers with the disposition. *)
Definition poll_with (key : string) (move : prog DeviceAuthorization.t Error unit)
    (disposition : DevicePollDisposition.t) (hand : bool) (value : DeviceAuthorization.t)
    : prog t Error DevicePollResult.t := fun r =>
  match move value with
  | (Ok _, value) =>
      (Ok (DevicePollResult.mk disposition (if hand then Some value else None)
             (DeviceAuthorization.pollInterval value)),
       mk (<[key := value]> (byDevice r)) (userToDevice r))
  | (Err e, _) => (Err e, r)
  | (Aborted, _) => (Aborted, r)
  end.

Definition poll (deviceCode : DeviceCodeDigest) (expectedClient : ClientId) (now : Instant)
    : prog t Error DevicePollResult.t := fun r =>
  let key := digestKey deviceCode in
  match byDevice r !! key with
  | None => (failCode NotFound, r)
  | Some value =>
      let interval := DeviceAuthorization.pollInterval value in
      if negb (bool_decide (DeviceAuthorization.clientId value = expectedClient)) then
        (fail AuthenticationFailed "The device code is not bound to this client.", r)
      else if DeviceAuthorization.expiredAt value now then
        (Ok (DevicePollResult.mk DevicePollDisposition.Expired None interval), r)
      else if bool_decide (DeviceAuthorization.status value = DeviceAuthorizationStatus.Denied) then
        (Ok (DevicePollResult.mk DevicePollDisposition.Denied None interval), r)
      else if bool_decide (DeviceAuthorization.status value = DeviceAuthorizationStatus.Consumed) then
        (fail AuthenticationFailed "The device code has already been consumed.", r)
      else if present_and (fun last => now <? last + interval) (DeviceAuthorization.lastPollAt value) then
        poll_with key (DeviceAuthorization.slowDown now) DevicePollDisposition.SlowDown false value r
      else if bool_decide (DeviceAuthorization.status value = DeviceAuthorizationStatus.Approved) then
        poll_with key (DeviceAuthorization.consume now) DevicePollDisposition.Approved true value r
      else poll_with key (DeviceAuthorization.markPolled now) DevicePollDisposition.Pending false value r
  end.

#[global] Instance store : DeviceAuthorizationStore t := {
  das_add := add; das_findByUserCode := findByUserCode; das_approve := approve; das_deny := deny; das_poll := poll;
}.
End InMemoryDeviceAuthorizationStore.

(** ** The service *)

Module DeviceAuthorizationKey.
Record t := mk { m_secret : string }.

Definition create (secret : string) : Result t :=
  if (String.length secret <? 32)%nat then
    fail InvalidArgument "A device authorization key requires at least 32 bytes."
  else Ok (mk secret).
End DeviceAuthorizationKey.

Module DeviceAuthorizationGrant.
Record t := mk { deviceCode : string; userCode : string; expiresIn : Duration; interval : Duration }.
End DeviceAuthorizationGrant.

Module DeviceAuthorizationService.
Definition alphabet : string := "BCDFGHJKLMNPQRSTVWXYZ23456789".

(** [alphabet[byte % alphabet.size()]]. *)
Definition userCodeSymbol (b : byte) : ascii :=
  default "000"%char (String.get (Z.to_nat (byteValue b mod Z.of_nat (String.length alphabet))) alphabet).

(** The loop of [generateUserCode] from [index] on. *)
Fixpoint userCodeOf (index : nat) (random : list byte) : string :=
  match random with
  | [] => ""
  | b :: random =>
      (if (index =? 4)%nat then "-" else "") +:+ String (userCodeSymbol b) (userCodeOf (S index) random)
  end.

Section service.
Context `{Plat : Platform}.
Context {C A D : Type} `{!ClientRepository C, !ApplicationRepository A, !DeviceAuthorizationStore D}.
Context (key : DeviceAuthorizationKey.t) (m_lifetime m_pollInterval : Duration).

Abbreviation handler B := (prog (authorizer C A D world) Error B).

(** The constructor's invariants. *)
Definition construct : Status :=
  _ ← requireInvariant (0 <? m_lifetime); requireInvariant (seconds 1 <=? m_pollInterval).

Definition digestDevice (code : string) : Result DeviceCodeDigest :=
  hmacSha256 (DeviceAuthorizationKey.m_secret key) code.
Definition digestUser (code : string) : Result DeviceUserCodeDigest :=
  hmacSha256 (DeviceAuthorizationKey.m_secret key) code.

Definition generateUserCode : prog world Error string :=
  random ← randomBytes 8;
  mret (userCodeOf 0 random).

Definition begin (clientId : ClientId) (scopes : list Scope.t) (resource : option string)
    : handler DeviceAuthorizationGrant.t :=
  active ← attempt (ask (fun s => ClientManager.requireActive (a_manager s) clientId));
  if negb match active with Ok active => Client.permitsScopes active scopes | _ => false end then
    throw (Error_ofMessage PermissionDenied "The client cannot request this device grant.")
  else
    deviceRandom ← attempt (on_world (randomTokenBase64Url 32));
    userCode ← attempt (on_world generateUserCode);
    deviceRandom ← lift deviceRandom;
    userCode ← lift userCode;
    let deviceCode := "opd_" +:+ deviceRandom in
    deviceDigest ← lift (digestDevice deviceCode);
    userDigest ← lift (digestUser userCode);
    now ← on_world now;
    authorization ← lift (DeviceAuthorization.create deviceDigest userDigest clientId scopes resource now
                            m_lifetime m_pollInterval);
    _ ← on_store (das_add authorization);
    mret (DeviceAuthorizationGrant.mk deviceCode userCode m_lifetime m_pollInterval).

Definition find (userCode : string) : handler DeviceAuthorization.t :=
  digest ← lift (digestUser userCode);
  now ← on_world now;
  ask (fun s => das_findByUserCode (a_store s) digest now).

Definition approve (userCode : string) (authenticated : AuthenticatedSession.t) : handler DeviceAuthorization.t :=
  digest ← lift (digestUser userCode);
  now ← on_world now;
  on_store (das_approve digest authenticated now).

Definition deny (userCode : string) : handler unit :=
  digest ← lift (digestUser userCode);
  now ← on_world now;
  on_store (das_deny digest now).

Definition poll (deviceCode : string) (expectedClient : ClientId) : handler DevicePollResult.t :=
  digest ← lift (digestDevice deviceCode);
  now ← on_world now;
  on_store (das_poll digest expectedClient now).
End service.
End DeviceAuthorizationService.

(** ** What a poll does to the record it finds *)

(** The user's session that a record carries. *)
Definition carries (a : DeviceAuthorization.t) (authenticated : AuthenticatedSession.t) : Prop :=
  let session := AuthenticatedSession.session authenticated in
  DeviceAuthorization.identity a = Some (Session.identity session) /\
  DeviceAuthorization.provider a = Some (Session.provider session) /\
  DeviceAuthorization.assurance a = Some (Session.assurance session) /\
  DeviceAuthorization.strength a = Some (Session.strength session) /\
  DeviceAuthorization.authenticatedAt a = Some (Session.authenticatedAt session).

Section device_store.
Import InMemoryDeviceAuthorizationStore.
Import DeviceAuthorization(deviceCode, userCode, clientId, status, expiresAt, expiredAt, pollInterval, lastPollAt).
Import DeviceAuthorizationStatus(Pending, Approved, Denied, Consumed).
Implicit Types (r : t) (a : DeviceAuthorization.t).

Definition put key a r : t := mk (<[key := a]> (byDevice r)) (userToDevice r).

(** A poll sooner than the interval allows. *)
Definition early a (now : Instant) : bool := present_and (fun last => now <? last + pollInterval a) (lastPollAt a).

Definition open_at a (now : Instant) : Prop := now < expiresAt a /\ (status a = Pending \/ status a = Approved).

(** The record and the answer an open record's poll leaves. *)
Definition polled a now : DeviceAuthorization.t :=
  if early a now then DeviceAuthorization.set a (pollInterval a + seconds 5) (status a) (Some now)
  else if bool_decide (status a = Approved) then DeviceAuthorization.set a (pollInterval a) Consumed (Some now)
  else DeviceAuthorization.set a (pollInterval a) (status a) (Some now).

Definition answer a now : DevicePollResult.t :=
  if early a now then DevicePollResult.mk DevicePollDisposition.SlowDown None (pollInterval a + seconds 5)
  else if bool_decide (status a = Approved) then
    DevicePollResult.mk DevicePollDisposition.Approved (Some (polled a now)) (pollInterval a)
  else DevicePollResult.mk DevicePollDisposition.Pending None (pollInterval a).

Lemma poll_open d c now r a :
  byDevice r !! digestKey d = Some a -> clientId a = c -> open_at a now ->
  poll d c now r = (Ok (answer a now), put (digestKey d) (polled a now) r).
Proof.
  intros Ha Hc [He Hs]. unfold poll. rewrite Ha, (bool_decide_eq_true_2 _ Hc). cbn [negb].
  assert (Hexp : expiredAt a now = false) by (apply Z.leb_gt; lia). rewrite Hexp.
  unfold answer, polled, early. destruct (present_and _ (lastPollAt a)).
  - destruct Hs as [Hs|Hs]; unfold poll_with, DeviceAuthorization.slowDown; rewrite Hexp, Hs; done.
  - destruct Hs as [Hs|Hs]; unfold poll_with, DeviceAuthorization.consume, DeviceAuthorization.markPolled;
      rewrite Hexp, Hs; done.
Qed.

(** Any other poll changes nothing and hands out nothing. *)
Lemma poll_closed d c now r :
  (exists a, byDevice r !! digestKey d = Some a /\ clientId a = c /\ open_at a now) \/
  ((poll d c now r).2 = r /\
   forall res, (poll d c now r).1 = Ok res -> DevicePollResult.authorization res = None).
Proof.
  destruct (byDevice r !! digestKey d) as [a|] eqn:Ha; [|right; unfold poll; by rewrite Ha].
  destruct (decide (clientId a = c)) as [Hc|Hc].
  2: { right. unfold poll. rewrite Ha, bool_decide_eq_false_2 by done. done. }
  destruct (expiredAt a now) eqn:He.
  { right. unfold poll. rewrite Ha, bool_decide_eq_true_2, He by done. simpl. split; [done|]. by intros ? [= <-]. }
  assert (Hlt : now < expiresAt a) by (by apply Z.leb_gt in He).
  destruct (status a) eqn:Hs.
  1-2: left; exists a; split; [done|]; split; [done|]; split; [done|]; rewrite Hs; auto.
  all: right; unfold poll; rewrite Ha, bool_decide_eq_true_2, He, Hs by done; simpl; split; [done|];
    by intros ? [= <-].
Qed.

(** A handed-out authorization is the consumed record. *)
Lemma handed_is_stored d c now r res a :
  (poll d c now r).1 = Ok res -> DevicePollResult.authorization res = Some a ->
  byDevice (poll d c now r).2 !! digestKey d = Some a /\ status a = Consumed /\ clientId a = c.
Proof.
  destruct (poll_closed d c now r) as [(b & Hb & Ecl & Ho)|[_ Hnone]].
  2: { intros Hres Ha. rewrite (Hnone _ Hres) in Ha. done. }
  rewrite (poll_open d c now r b) by done. simpl. intros [= <-]. rewrite lookup_insert_eq.
  unfold answer, polled. destruct (early b now); [done|]. case_bool_decide; [|done]. by intros [= <-].
Qed.

Lemma consumed_is_closed d c now r res a :
  byDevice r !! digestKey d = Some a -> status a = Consumed -> (poll d c now r).1 = Ok res ->
  DevicePollResult.authorization res = None.
Proof.
  intros Ha Hs Hres. destruct (poll_closed d c now r) as [(b & Hb & _ & _ & Ho)|[_ Hnone]]; [|by apply Hnone].
  destruct Ho; congruence.
Qed.

Lemma decide_by_user_cases {B} u move (f : DeviceAuthorization.t -> B) r res r' :
  decide_by_user u move f r = (res, r') ->
  (is_ok res = false /\ r' = r) \/
  exists key a a', userToDevice r !! digestKey u = Some key /\ byDevice r !! key = Some a /\
    move a = (ok, a') /\ res = Ok (f a') /\ r' = put key a' r.
Proof.
  unfold decide_by_user. destruct (userToDevice r !! _) as [key|] eqn:Hu; [|intros [= <- <-]; auto].
  destruct (byDevice r !! key) as [a|] eqn:Ha; [|intros [= <- <-]; auto].
  destruct (move a) as [[[]|e|] a'] eqn:Hm; intros [= <- <-]; [right; by exists key, a, a'|by left..].
Qed.
(** ** Histories of the store *)

Inductive device_op :=
| Issue (deviceCode : DeviceCodeDigest) (userCode : DeviceUserCodeDigest) (clientId : ClientId)
    (scopes : list Scope.t) (resource : option string) (issuedAt : Instant) (lifetime pollInterval : Duration)
| Approve (userCode : DeviceUserCodeDigest) (authenticated : AuthenticatedSession.t) (now : Instant)
| Deny (userCode : DeviceUserCodeDigest) (now : Instant)
| Poll (deviceCode : DeviceCodeDigest) (clientId : ClientId) (now : Instant).

(** [Issue] is the end of the service's [begin]. *)
Definition device_step (o : device_op) r : t :=
  match o with
  | Issue d u c sc res at_ life int =>
      match DeviceAuthorization.create d u c sc res at_ life int with Ok a => (add a r).2 | _ => r end
  | Approve u s now => (approve u s now r).2
  | Deny u now => (deny u now r).2
  | Poll d c now => (poll d c now r).2
  end.

Definition run_devices (ops : list device_op) r : t := foldl (fun r o => device_step o r) r ops.

(** Both indexes agree. *)
Definition consistent r : Prop :=
  (forall key a, byDevice r !! key = Some a -> digestKey (deviceCode a) = key /\
     userToDevice r !! digestKey (userCode a) = Some key) /\
  (forall u key, userToDevice r !! u = Some key -> exists a, byDevice r !! key = Some a /\ digestKey (userCode a) = u).

(** What a record stands for, given what was done before: once approved it
    carries a session that approved it under its user code, in time. *)
Definition justified (ops : list device_op) a : Prop :=
  status a = Approved \/ status a = Consumed ->
  exists authenticated now, Approve (userCode a) authenticated now ∈ ops /\ now < expiresAt a /\ carries a authenticated.

Definition all_justified ops r : Prop := forall key a, byDevice r !! key = Some a -> justified ops a.

(** What a change of a record keeps. *)
Definition same_codes a a' : Prop :=
  deviceCode a' = deviceCode a /\ userCode a' = userCode a /\ clientId a' = clientId a /\ expiresAt a' = expiresAt a.

Lemma consistent_put r key a a' :
  consistent r -> byDevice r !! key = Some a -> same_codes a a' -> consistent (put key a' r).
Proof.
  intros [H1 H2] Ha (Ed & Eu & _). destruct (H1 _ _ Ha) as [Hk Hu]. split; simpl.
  - intros k b. rewrite lookup_insert. case_decide as E; [subst k; intros [= <-]; by rewrite Ed, Eu|apply H1].
  - intros u k Huk. rewrite lookup_insert. destruct (H2 _ _ Huk) as (b & Hb & Eb).
    case_decide as E; [subst k; exists a'; split; [done|]; congruence|]. by exists b.
Qed.

Lemma create_pending d u c sc res at_ life int a :
  DeviceAuthorization.create d u c sc res at_ life int = Ok a ->
  deviceCode a = d /\ userCode a = u /\ clientId a = c /\ status a = Pending /\ lastPollAt a = None /\
  pollInterval a = int /\ expiresAt a = at_ + life /\ at_ < expiresAt a.
Proof.
  unfold DeviceAuthorization.create, DeviceAuthorization.restore. destruct (_ || _) eqn:G; [done|]. bool_prop.
  destruct (normalizeScopes sc); [|done..]. destruct (_ || _); [done|]. intros [= <-]. simpl. split_and!; try done. lia.
Qed.

Lemma device_add_cases a r :
  ((add a r).1 = ok /\ byDevice r !! digestKey (deviceCode a) = None /\
   userToDevice r !! digestKey (userCode a) = None /\
   (add a r).2 = mk (<[digestKey (deviceCode a) := a]> (byDevice r))
                    (<[digestKey (userCode a) := digestKey (deviceCode a)]> (userToDevice r))) \/
  (is_ok (add a r).1 = false /\ (add a r).2 = r).
Proof.
  unfold add. destruct (_ || _) eqn:G; [by right|]. bool_prop. left. simpl.
  by repeat match goal with H : ~ is_Some _ |- _ => apply eq_None_not_Some in H end.
Qed.

Lemma consistent_add a r : consistent r -> consistent (add a r).2.
Proof.
  intros [H1 H2]. destruct (device_add_cases a r) as [(_ & Hd & Hu & ->)|[_ ->]]; [|done]. split; simpl.
  - intros k b. rewrite lookup_insert. case_decide as E; [subst k; intros [= <-]; by rewrite lookup_insert_eq|].
    intros Hb. destruct (H1 _ _ Hb) as [? Hub]. split; [done|]. rewrite lookup_insert_ne; [done|]. congruence.
  - intros u k. rewrite lookup_insert. case_decide as E.
    + intros [= <-]. exists a. by rewrite lookup_insert_eq.
    + intros Huk. destruct (H2 _ _ Huk) as (b & Hb & Eb). exists b. rewrite lookup_insert_ne; [done|]. congruence.
Qed.

Lemma approve_moves s now a a' :
  DeviceAuthorization.approve s now a = (ok, a') ->
  same_codes a a' /\ status a = Pending /\ now < expiresAt a /\ status a' = Approved /\ carries a' s /\
  lastPollAt a' = lastPollAt a /\ pollInterval a' = pollInterval a.
Proof.
  unfold DeviceAuthorization.approve, expiredAt. destruct (_ || _) eqn:G; [done|]. bool_prop. intros [= <-].
  unfold same_codes, carries. simpl. split_and!; done.
Qed.

Lemma approve_succeeds s now a :
  status a = Pending -> now < expiresAt a -> exists a', DeviceAuthorization.approve s now a = (ok, a').
Proof.
  intros Hs Ht. unfold DeviceAuthorization.approve, expiredAt. rewrite (proj2 (Z.leb_gt _ _) Ht).
  rewrite bool_decide_eq_true_2 by done. simpl. by eexists.
Qed.

Lemma deny_moves now a a' :
  DeviceAuthorization.deny now a = (ok, a') -> same_codes a a' /\ status a = Pending /\ status a' = Denied.
Proof. unfold DeviceAuthorization.deny. destruct (_ || _) eqn:G; [done|]. bool_prop. by intros [= <-]. Qed.

Lemma polled_same a now : same_codes a (polled a now).
Proof. unfold polled. destruct (early a now); [|case_bool_decide]; done. Qed.

Lemma consistent_step o r : consistent r -> consistent (device_step o r).
Proof.
  intros Hc. destruct o as [d u c sc res at_ life int|u s now|u now|d c now]; simpl.
  - destruct (DeviceAuthorization.create _ _ _ _ _ _ _ _); [by apply consistent_add|done..].
  - destruct (approve u s now r) as [x r'] eqn:Hr. apply decide_by_user_cases in Hr as [[_ ->]|Hr]; [done|].
    destruct Hr as (k & a & a' & _ & Ha & (Hs & _)%approve_moves & _ & ->). by eapply consistent_put.
  - destruct (deny u now r) as [x r'] eqn:Hr. apply decide_by_user_cases in Hr as [[_ ->]|Hr]; [done|].
    destruct Hr as (k & a & a' & _ & Ha & (Hs & _)%deny_moves & _ & ->). by eapply consistent_put.
  - destruct (poll_closed d c now r) as [(a & Ha & Ecl & Ho)|[-> _]]; [|done].
    rewrite (poll_open d c now r a) by done. eapply consistent_put; [done|exact Ha|apply polled_same].
Qed.

Lemma consistent_run ops r : consistent r -> consistent (run_devices ops r).
Proof. revert r. induction ops as [|o ops IH]; intros r Hc; simpl; [done|]. by apply IH, consistent_step. Qed.

Lemma devices_consistent_empty : consistent empty.
Proof. split; intros ? ? Hl; cbn in Hl; by rewrite lookup_empty in Hl. Qed.

Lemma justified_more ops o a : justified ops a -> justified (ops ++ [o]) a.
Proof.
  intros Hj Hs. destruct (Hj Hs) as (s & now & Hin & ?). exists s, now. split; [|done].
  apply elem_of_app. by left.
Qed.

Lemma justified_put ops o key a r :
  all_justified ops r -> justified (ops ++ [o]) a -> all_justified (ops ++ [o]) (put key a r).
Proof.
  intros Hr Ha k b. simpl. rewrite lookup_insert. case_decide; [by intros [= <-]|].
  intros Hb%Hr. by apply justified_more.
Qed.

Lemma justified_same ops o r : all_justified ops r -> all_justified (ops ++ [o]) r.
Proof. intros Hr k a Ha%Hr. by apply justified_more. Qed.

Lemma justified_polled ops a now : justified ops a -> open_at a now -> justified ops (polled a now).
Proof.
  intros Hj [_ Ho]. unfold polled. destruct (early a now); [exact Hj|].
  case_bool_decide as E; [|exact Hj]. intros _. apply Hj. by left.
Qed.

Lemma justified_step ops o r : consistent r -> all_justified ops r -> all_justified (ops ++ [o]) (device_step o r).
Proof.
  intros Hc Hj. destruct o as [d u c sc res at_ life int|u s now|u now|d c now]; simpl.
  - destruct (DeviceAuthorization.create _ _ _ _ _ _ _ _) as [a|e|] eqn:Hcr; [|by apply justified_same..].
    apply create_pending in Hcr as (_ & _ & _ & Hs & _).
    destruct (device_add_cases a r) as [(_ & _ & _ & ->)|[_ ->]]; [|by apply justified_same].
    intros k b. simpl. rewrite lookup_insert. case_decide.
    + intros [= <-] [H'|H']; congruence.
    + intros Hb%Hj. by apply justified_more.
  - destruct (approve u s now r) as [x r'] eqn:Hr. apply decide_by_user_cases in Hr as [[_ ->]|Hr]; [by apply justified_same|].
    destruct Hr as (k & a & a' & Hu & Ha & (Hsame & _ & Hlt & _ & Hcar & _)%approve_moves & _ & ->).
    apply justified_put; [done|]. intros _. exists s, now. destruct (proj1 Hc _ _ Ha) as [_ Hua].
    destruct (proj2 Hc _ _ Hu) as (b & Hb & Eb). assert (b = a) as -> by congruence. apply (inj toHex) in Eb.
    destruct Hsame as (_ & -> & _ & ->). rewrite Eb. split; [apply elem_of_app; right; apply list_elem_of_here|done].
  - destruct (deny u now r) as [x r'] eqn:Hr. apply decide_by_user_cases in Hr as [[_ ->]|Hr]; [by apply justified_same|].
    destruct Hr as (k & a & a' & _ & Ha & (_ & _ & Hs)%deny_moves & _ & ->).
    apply justified_put; [done|]. intros [H'|H']; congruence.
  - destruct (poll_closed d c now r) as [(a & Ha & Ecl & Ho)|[-> _]]; [|by apply justified_same].
    rewrite (poll_open d c now r a) by done. apply justified_put; [done|].
    apply justified_polled; [|done]. by eapply justified_more, Hj.
Qed.

Lemma run_justified ops : consistent (run_devices ops empty) /\ all_justified ops (run_devices ops empty).
Proof.
  split; [apply consistent_run, devices_consistent_empty|]. induction ops as [|o ops IH] using rev_ind.
  { intros k a Ha. cbn in Ha. by rewrite lookup_empty in Ha. }
  unfold run_devices in *. rewrite foldl_app. simpl. apply justified_step; [|done].
  apply consistent_run, devices_consistent_empty.
Qed.

(** Does the operation issue, respectively hand out, the device code [d]? *)
Definition issues_device (d : DeviceCodeDigest) (o : device_op) r : bool :=
  match o with
  | Issue d' u c sc res at_ life int =>
      match DeviceAuthorization.create d' u c sc res at_ life int with
      | Ok a => bool_decide (d' = d) && is_ok (add a r).1
      | _ => false
      end
  | _ => false
  end.

Definition hands_out_device (d : DeviceCodeDigest) (o : device_op) r : bool :=
  match o with
  | Poll d' c now =>
      bool_decide (d' = d) &&
      match (poll d' c now r).1 with
      | Ok res => bool_decide (is_Some (DevicePollResult.authorization res))
      | _ => false
      end
  | _ => false
  end.

Definition open_devices (d : DeviceCodeDigest) r : nat :=
  match byDevice r !! digestKey d with Some a => if bool_decide (status a = Consumed) then 0 else 1 | None => 0 end.

Lemma open_devices_put d key a a' r :
  byDevice r !! key = Some a -> (status a = Consumed -> status a' = Consumed) ->
  (open_devices d (put key a' r) <= open_devices d r)%nat.
Proof.
  intros Ha Hs. unfold open_devices. simpl. rewrite lookup_insert. case_decide as E; [subst key|done].
  rewrite Ha. repeat case_bool_decide; naive_solver lia.
Qed.

Lemma device_count_step d o r :
  ((if hands_out_device d o r then 1 else 0) + open_devices d (device_step o r)
   <= (if issues_device d o r then 1 else 0) + open_devices d r)%nat.
Proof.
  destruct o as [d' u c sc res at_ life int|u s now|u now|d' c now]; cbn [hands_out_device issues_device device_step].
  - destruct (DeviceAuthorization.create _ _ _ _ _ _ _ _) as [a|e|] eqn:Hcr; [|simpl; lia..].
    apply create_pending in Hcr as (Ed & _ & _ & Hs & _).
    destruct (device_add_cases a r) as [(-> & Hd & _ & ->)|[-> ->]]; [|rewrite andb_false_r; lia].
    rewrite andb_true_r. unfold open_devices, digestKey. cbn [byDevice is_ok ok]. rewrite lookup_insert.
    case_decide as E; [|case_bool_decide as E'; [congruence|lia]].
    apply (inj toHex) in E. rewrite (bool_decide_eq_true_2 (d' = d)) by congruence. case_bool_decide; lia.
  - destruct (approve u s now r) as [x r'] eqn:Hr. apply decide_by_user_cases in Hr as [[_ ->]|Hr]; [simpl; lia|].
    destruct Hr as (k & a & a' & _ & Ha & (_ & Hs & _)%approve_moves & _ & ->).
    pose proof (open_devices_put d k a a' r Ha). assert (status a <> Consumed) by congruence. simpl. naive_solver lia.
  - destruct (deny u now r) as [x r'] eqn:Hr. apply decide_by_user_cases in Hr as [[_ ->]|Hr]; [simpl; lia|].
    destruct Hr as (k & a & a' & _ & Ha & (_ & Hs & _)%deny_moves & _ & ->).
    pose proof (open_devices_put d k a a' r Ha). assert (status a <> Consumed) by congruence. simpl. naive_solver lia.
  - destruct (poll_closed d' c now r) as [(a & Ha & Ecl & Ho)|[-> Hnone]].
    + rewrite (poll_open d' c now r a) by done. cbn [fst snd].
      pose proof (open_devices_put d (digestKey d') a (polled a now) r Ha) as Hput.
      unfold answer, polled in *. destruct (early a now); [|case_bool_decide as Hs].
      * simpl in *. rewrite andb_false_r. specialize (Hput ltac:(done)). lia.
      * simpl in *. rewrite andb_true_r. case_bool_decide as E; [|specialize (Hput ltac:(done)); lia].
        subst d'. clear Hput. unfold open_devices. simpl. rewrite lookup_insert_eq, Ha. simpl.
        rewrite bool_decide_eq_false_2 by congruence. lia.
      * simpl in *. rewrite andb_false_r. specialize (Hput ltac:(done)). lia.
    + destruct (poll d' c now r).1 as [res|e|]; [|rewrite andb_false_r; simpl; lia..].
      rewrite (Hnone res eq_refl). rewrite andb_false_r. simpl. lia.
Qed.

(** A device gets what its user approved, once. In every history of
    the store, starting empty, the authorizations handed out for a device code
    never outnumber the issues of that code; and a poll hands one out only to
    the client it was issued to, before it expires, when the record's user code
    was approved, in time, by the session whose identity, provider, assurance,
    strength and authentication time the authorization carries. *)
Theorem device_grant_was_approved d ops :
  (count_steps device_step (hands_out_device d) ops empty <= count_steps device_step (issues_device d) ops empty)%nat /\
  forall c now res a, (poll d c now (run_devices ops empty)).1 = Ok res -> DevicePollResult.authorization res = Some a ->
    DevicePollResult.disposition res = DevicePollDisposition.Approved /\ status a = Consumed /\
    deviceCode a = d /\ clientId a = c /\ now < expiresAt a /\
    exists authenticated t, Approve (userCode a) authenticated t ∈ ops /\ t < expiresAt a /\ carries a authenticated.
Proof.
  split.
  - pose proof (taken_within_given device_step (hands_out_device d) (issues_device d) (open_devices d) ops empty
      (device_count_step d)) as Hc. unfold open_devices in Hc at 1. cbn [byDevice empty] in Hc.
    rewrite lookup_empty in Hc. lia.
  - intros c now res a Hres Ha. destruct (run_justified ops) as [Hc Hj]. set (r := run_devices ops empty) in *.
    destruct (poll_closed d c now r) as [(b & Hb & Ecl & Ho)|[_ Hnone]].
    2: { rewrite (Hnone _ Hres) in Ha. done. }
    rewrite (poll_open d c now r b) in Hres by done. injection Hres as <-.
    pose proof (justified_polled ops b now (Hj _ _ Hb) Ho) as Hjust.
    pose proof (polled_same b now) as (Ed & Eu & Ecl' & Eexp). destruct (proj1 Hc _ _ Hb) as [Hk _]. apply (inj toHex) in Hk.
    revert Ha. unfold answer. destruct (early b now) eqn:He; [done|]. case_bool_decide as Hs; [|done].
    intros [= <-]. assert (Hst : status (polled b now) = Consumed).
    { unfold polled. by rewrite He, bool_decide_eq_true_2. }
    destruct Ho as [Hlt _]. destruct (Hjust (or_intror Hst)) as (s & t & ? & ? & ?).
    split_and!; try done; try congruence. by exists s, t.
Qed.

(** ** Pacing *)

(** Polls at the given times, with their answers. *)
Fixpoint polls d c (times : list Instant) r : list (Result DevicePollResult.t) * t :=
  match times with
  | [] => ([], r)
  | now :: times =>
      let '(res, r) := poll d c now r in
      let '(answers, r) := polls d c times r in
      (res :: answers, r)
  end.

(** Each poll comes at least [interval] after the one before it. *)
Fixpoint patient (last : option Instant) (interval : Duration) (times : list Instant) : Prop :=
  match times with
  | [] => True
  | now :: times =>
      match last with Some last => last + interval <= now | None => True end /\ patient (Some now) interval times
  end.

Lemma patient_not_early a now : patient (lastPollAt a) (pollInterval a) [now] -> early a now = false.
Proof. unfold early. simpl. destruct (lastPollAt a); simpl; [|done]. intros [? _]. lia. Qed.

(** Patient polls of a pending code: all answered [Pending]. *)
Lemma patient_polls d c r a times t :
  byDevice r !! digestKey d = Some a -> clientId a = c -> status a = Pending ->
  patient (lastPollAt a) (pollInterval a) (times ++ [t]) -> Forall (fun now => now < expiresAt a) times ->
  exists a', polls d c times r
    = ((fun _ => Ok (DevicePollResult.mk DevicePollDisposition.Pending None (pollInterval a))) <$> times,
       put (digestKey d) a' r) /\
    same_codes a a' /\ status a' = Pending /\ pollInterval a' = pollInterval a /\
    patient (lastPollAt a') (pollInterval a') [t].
Proof.
  intros Ha Hc Hs. revert r a Ha Hc Hs. induction times as [|now times IH]; intros r a Ha Hc Hs Hp Hall.
  { exists a. simpl in *. split_and!; try tauto; try done. unfold put. rewrite insert_id by done. by destruct r. }
  simpl in Hp. destruct Hp as [Hnow Hp]. apply Forall_cons in Hall as [Hlt Hall].
  assert (He : early a now = false) by (apply patient_not_early; simpl; tauto).
  set (a1 := DeviceAuthorization.set a (pollInterval a) Pending (Some now)).
  assert (Hpoll : poll d c now r
    = (Ok (DevicePollResult.mk DevicePollDisposition.Pending None (pollInterval a)), put (digestKey d) a1 r)).
  { rewrite (poll_open d c now r a) by (done || (split; [done|by left])). unfold answer, polled. by rewrite He, Hs. }
  destruct (IH (put (digestKey d) a1 r) a1) as (a' & Hrun & Hsame & Hs' & Hi & Hp'); try done.
  { simpl. by rewrite lookup_insert_eq. }
  exists a'. cbn [polls]. rewrite Hpoll, Hrun. split_and!; try done.
  cbn [fmap list_fmap]. unfold put. simpl. by rewrite insert_insert_eq.
Qed.

(** C35: a device that keeps to its interval is served. When a device polls an
    open code no faster than the interval it was told, every poll is answered
    [Pending], never [SlowDown]; the user's approval succeeds until the code
    expires; and the next poll that keeps the interval and precedes the expiry
    hands out the authorization with the user's session. *)
Theorem patient_device_is_served d c r a times approver u t :
  consistent r -> byDevice r !! digestKey d = Some a -> clientId a = c -> status a = Pending ->
  patient (lastPollAt a) (pollInterval a) (times ++ [t]) ->
  Forall (fun now => now < expiresAt a) times -> u < expiresAt a -> t < expiresAt a ->
  (polls d c times r).1
  = ((fun _ => Ok (DevicePollResult.mk DevicePollDisposition.Pending None (pollInterval a))) <$> times) /\
  exists approved r2, approve (userCode a) approver u (polls d c times r).2 = (Ok approved, r2) /\
    exists handed, (poll d c t r2).1
      = Ok (DevicePollResult.mk DevicePollDisposition.Approved (Some handed) (pollInterval a)) /\
    status handed = Consumed /\ carries handed approver.
Proof.
  intros Hcons Ha Hc Hs Hp Hall Hu Ht.
  destruct (patient_polls d c r a times t Ha Hc Hs Hp Hall) as (a1 & -> & Hsame & Hs1 & Hi & Hp1).
  split; [done|]. pose proof Hsame as (_ & Euser & Ecl & Eexp). cbn [snd].
  assert (Huser : userToDevice r !! digestKey (userCode a) = Some (digestKey d)) by (by apply (proj1 Hcons)).
  destruct (approve_succeeds approver u a1 Hs1) as [a2 Hap]; [lia|].
  exists a2, (put (digestKey d) a2 (put (digestKey d) a1 r)). split.
  { unfold approve, decide_by_user. cbn [userToDevice byDevice put]. rewrite Huser, lookup_insert_eq, Hap. done. }
  apply approve_moves in Hap as ((_ & _ & Ecl2 & Eexp2) & _ & _ & Hs2 & Hcar & Elast & Eint).
  exists (polled a2 t). rewrite (poll_open d c t _ a2); [|simpl; by rewrite lookup_insert_eq|congruence|split; [lia|by right]].
  assert (He : early a2 t = false) by (apply patient_not_early; by rewrite Elast, Eint).
  cbn [fst]. unfold answer, polled. rewrite He, Hs2, Eint, Hi. simpl. done.
Qed.

(** Is the poll answered [SlowDown]? How many were? When was the last? *)
Definition slowed (res : Result DevicePollResult.t) : bool :=
  match res with
  | Ok res => match DevicePollResult.disposition res with DevicePollDisposition.SlowDown => true | _ => false end
  | _ => false
  end.

Definition slow_downs (answers : list (Result DevicePollResult.t)) : nat :=
  foldr (fun res n => (if slowed res then 1 else 0) + n)%nat 0%nat answers.

Definition last_poll (last : option Instant) (times : list Instant) : option Instant :=
  foldl (fun _ now => Some now) last times.

Lemma polls_pending d c r a times :
  byDevice r !! digestKey d = Some a -> clientId a = c -> status a = Pending ->
  Forall (fun now => now < expiresAt a) times ->
  exists a', (polls d c times r).2 = put (digestKey d) a' r /\ same_codes a a' /\ status a' = Pending /\
    pollInterval a' = pollInterval a + seconds 5 * Z.of_nat (slow_downs (polls d c times r).1) /\
    lastPollAt a' = last_poll (lastPollAt a) times.
Proof.
  intros Ha Hc Hs. revert r a Ha Hc Hs. induction times as [|now times IH]; intros r a Ha Hc Hs Hall.
  { exists a. simpl. split_and!; try done; [|lia]. unfold put. rewrite insert_id by done. by destruct r. }
  apply Forall_cons in Hall as [Hlt Hall].
  destruct (polled_same a now) as (Ed & Eu & Ecl & Eexp).
  assert (Hs1 : status (polled a now) = Pending).
  { unfold polled. destruct (early a now); [done|]. by rewrite bool_decide_eq_false_2 by (by rewrite Hs). }
  destruct (IH (put (digestKey d) (polled a now) r) (polled a now)) as (a' & Hrun & (?&?&?&?) & Hs' & Hi & Hl);
    [by simpl; rewrite lookup_insert_eq|congruence|done|by rewrite Eexp|].
  exists a'. cbn [polls]. rewrite (poll_open d c now r a) by (done || (split; [done|by left])).
  destruct (polls d c times _) as [answers r'] eqn:Hp. cbn [fst snd] in *. split_and!; try done.
  - rewrite Hrun. unfold put. simpl. by rewrite insert_insert_eq.
  - split_and!; congruence.
  - rewrite Hi. change (slow_downs (Ok (answer a now) :: answers))
      with ((if slowed (Ok (answer a now)) then 1 else 0) + slow_downs answers)%nat.
    unfold polled, answer, seconds. destruct (early a now).
    + cbn [DeviceAuthorization.set pollInterval slowed DevicePollResult.disposition]. lia.
    + rewrite bool_decide_eq_false_2 by (by rewrite Hs).
      cbn [DeviceAuthorization.set pollInterval slowed DevicePollResult.disposition]. lia.
  - rewrite Hl. simpl. f_equal. unfold polled. destruct (early a now); [done|]. by case_bool_decide.
Qed.

(** Polling is paced, and impatience costs five seconds. After any polls of
    a pending code, the next poll is answered [SlowDown] exactly when it comes
    sooner after the last one than the interval the code was issued with plus
    five seconds for every [SlowDown] so far. *)
Theorem polling_is_paced d c r a times t :
  byDevice r !! digestKey d = Some a -> clientId a = c -> status a = Pending ->
  Forall (fun now => now < expiresAt a) (times ++ [t]) ->
  slowed (poll d c t (polls d c times r).2).1 = true <->
  exists last, last_poll (lastPollAt a) times = Some last /\
    t < last + (pollInterval a + seconds 5 * Z.of_nat (slow_downs (polls d c times r).1)).
Proof.
  intros Ha Hc Hs [Hall [Ht _]%Forall_cons]%Forall_app.
  destruct (polls_pending d c r a times Ha Hc Hs Hall) as (a' & -> & (_ & _ & Ecl & Eexp) & Hs' & <- & <-).
  rewrite (poll_open d c t _ a'); [|simpl; by rewrite lookup_insert_eq|congruence|split; [lia|by left]].
  cbn [fst slowed]. unfold answer. destruct (early a' t) eqn:He; unfold early in He.
  - split; [|done]. intros _. destruct (lastPollAt a') as [l|]; [|done]. exists l. simpl in He. split; [done|lia].
  - rewrite bool_decide_eq_false_2 by (by rewrite Hs'). split; [done|].
    intros (l & Hl & Hlt). rewrite Hl in He. simpl in He. lia.
Qed.
End device_store.

(** ** The whole flow *)

Section device_service.
Context `{Plat : Platform, !PlatformLaws Plat}.
Context {C A : Type} `{!ClientRepository C, !ApplicationRepository A}.
Context (key : DeviceAuthorizationKey.t) (m_lifetime m_pollInterval : Duration).

Import DeviceAuthorizationService.
Import InMemoryDeviceAuthorizationStore(byDevice, userToDevice, digestKey).
Abbreviation state := (authorizer C A InMemoryDeviceAuthorizationStore.t world).
Implicit Types s : state.

(** Where the symbols of a user code are drawn from. *)
Definition in_alphabet (c : ascii) : bool := any_octet (octet_is c) alphabet.

Lemma userCodeSymbol_in b : in_alphabet (userCodeSymbol b) = true.
Proof.
  unfold userCodeSymbol. pose proof (Z.mod_pos_bound (byteValue b) 29 ltac:(lia)) as Hr.
  change (Z.of_nat (String.length alphabet)) with 29. remember (byteValue b mod 29) as i eqn:Ei. clear Ei.
  assert (Hi : (Z.to_nat i < 29)%nat) by lia. remember (Z.to_nat i) as n eqn:En. clear En Hr i.
  do 29 (destruct n as [|n]; [vm_compute; reflexivity|]). lia.
Qed.

(** A user code is eight symbols of the alphabet in two groups. Whenever
    [generateUserCode] answers, the code is four symbols, a hyphen and four
    symbols, all of them from the alphabet, which has no vowel and no digit
    that reads as a letter. *)
Theorem user_code_is_typed w code w' :
  generateUserCode w = (Ok code, w') ->
  exists a b c d e f g h : ascii,
    code = String a (String b (String c (String d (String "-" (String e (String f (String g (String h ""))))))))
    /\ forallb in_alphabet [a; b; c; d; e; f; g; h] = true.
Proof.
  intros (bytes & w1 & Hb & [= <- <-])%prog_bind_ok. apply randomBytes_length in Hb.
  do 8 (destruct bytes as [|? bytes]; [done|]). destruct bytes; [|done].
  do 8 eexists. split; [reflexivity|]. cbn [forallb]. by rewrite !userCodeSymbol_in.
Qed.

(** The record [begin] stores. *)
Lemma begin_ok clientId scopes resource s grant s' :
  begin key m_lifetime m_pollInterval clientId scopes resource s = (Ok grant, s') ->
  exists client a issued w,
    usable_client (a_manager s) clientId client /\ Client.permitsScopes client scopes = true /\
    digestDevice key (DeviceAuthorizationGrant.deviceCode grant) = Ok (DeviceAuthorization.deviceCode a) /\
    digestUser key (DeviceAuthorizationGrant.userCode grant) = Ok (DeviceAuthorization.userCode a) /\
    DeviceAuthorization.create (DeviceAuthorization.deviceCode a) (DeviceAuthorization.userCode a) clientId scopes
      resource issued m_lifetime m_pollInterval = Ok a /\
    byDevice (a_store s) !! digestKey (DeviceAuthorization.deviceCode a) = None /\
    s' = mkAuthorizer (a_manager (later s w)) (das_add a (a_store s)).2 /\ (das_add a (a_store s)).1 = ok.
Proof.
  unfold begin. intros (act & s1 & Hact & Hrun)%prog_bind_ok. unfold attempt, ask in Hact.
  branch Hrun Hc; [done|]. apply negb_false_iff in Hc.
  destruct (ClientManager.requireActive (a_manager s) clientId) as [client|e|] eqn:Hact'; [|by injection Hact as <- <-|done].
  injection Hact as <- <-. apply client_requireActive_ok in Hact'.
  apply attempt2_ok in Hrun as (g & s2 & code & s3 & Hg & Hcode & Hrun).
  apply on_world_later in Hg as (w1 & _ & ->). apply on_world_later in Hcode as (w2 & _ & ->).
  apply prog_bind_ok in Hrun as (dd & s4 & [Hdd ->]%lift_ok & Hrun).
  apply prog_bind_ok in Hrun as (du & s4 & [Hdu ->]%lift_ok & Hrun).
  apply prog_bind_ok in Hrun as (t & s4 & Ht & Hrun). apply on_world_later in Ht as (w3 & _ & ->).
  apply prog_bind_ok in Hrun as (a & s4 & [Ha ->]%lift_ok & Hrun).
  apply prog_bind_ok in Hrun as ([] & s4 & Hadd & Hrun). injection Hrun as <- <-.
  apply zoom_eq in Hadd as (m & Hadd & ->). cbn [a_store later] in Hadd.
  pose proof (create_pending _ _ _ _ _ _ _ _ _ Ha) as (Ed & Eu & _).
  exists client, a, t, w3. subst dd du. split_and!; try done.
  - destruct (device_add_cases a (a_store s)) as [(_ & Hn & _)|[Hno _]]; [done|].
    cbn in Hadd. rewrite Hadd in Hno. done.
  - cbn [das_add InMemoryDeviceAuthorizationStore.store] in *. by rewrite Hadd.
  - cbn [das_add InMemoryDeviceAuthorizationStore.store] in *. by rewrite Hadd.
Qed.

(** The services act on the store at the current reading of the clock. *)
Lemma approve_run code d authenticated s t w :
  digestUser key code = Ok d -> clock_now (m_world (a_manager s)) = (t, w) ->
  approve key code authenticated s
  = ((das_approve d authenticated t (a_store s)).1,
     mkAuthorizer (a_manager (later s w)) (das_approve d authenticated t (a_store s)).2).
Proof.
  intros Hd Ht. unfold approve, mbind, prog_bind, lift. rewrite Hd. unfold on_world at 1, zoom, now. rewrite Ht.
  unfold on_store, zoom. cbn [a_store]. by destruct (das_approve _ _ _ _).
Qed.

Lemma poll_run code d clientId s t w :
  digestDevice key code = Ok d -> clock_now (m_world (a_manager s)) = (t, w) ->
  poll key code clientId s
  = ((das_poll d clientId t (a_store s)).1,
     mkAuthorizer (a_manager (later s w)) (das_poll d clientId t (a_store s)).2).
Proof.
  intros Hd Ht. unfold poll, mbind, prog_bind, lift. rewrite Hd. unfold on_world at 1, zoom, now. rewrite Ht.
  unfold on_store, zoom. cbn [a_store]. by destruct (das_poll _ _ _ _).
Qed.

(** The device flow hands a user's session to a device, once. After
    [begin], a user who enters the user code before the code expires approves
    it, and the first poll of the device code by the client it was issued to,
    still in time, hands out the authorization with the user's session; no
    later poll, by any client, hands it out again. *)
Theorem device_flow_round_trip clientId scopes resource s grant s1 authenticated w1 w2 :
  consistent (a_store s) ->
  begin key m_lifetime m_pollInterval clientId scopes resource s = (Ok grant, s1) ->
  exists d a, digestDevice key (DeviceAuthorizationGrant.deviceCode grant) = Ok d /\
    byDevice (a_store s1) !! digestKey d = Some a /\
  ((clock_now w1).1 < DeviceAuthorization.expiresAt a -> (clock_now w2).1 < DeviceAuthorization.expiresAt a ->
  exists approved s2,
    approve key (DeviceAuthorizationGrant.userCode grant) authenticated (later s1 w1) = (Ok approved, s2) /\
  exists res s3 handed,
    poll key (DeviceAuthorizationGrant.deviceCode grant) clientId (later s2 w2) = (Ok res, s3) /\
    DevicePollResult.disposition res = DevicePollDisposition.Approved /\
    DevicePollResult.authorization res = Some handed /\ carries handed authenticated /\
    DeviceAuthorization.clientId handed = clientId /\
    forall other w3 again,
      (poll key (DeviceAuthorizationGrant.deviceCode grant) other (later s3 w3)).1 = Ok again ->
      DevicePollResult.authorization again = None).
Proof.
  intros Hcons (client & a & issued & w & _ & _ & Hd & Hu & Hcr & Hnone & -> & Hok)%begin_ok.
  apply create_pending in Hcr as (_ & _ & Ecl & Hs & Hl & Hi & Hexp & _).
  set (d := DeviceAuthorization.deviceCode a) in *. set (r := (das_add a (a_store s)).2) in *.
  assert (Hr : byDevice r !! digestKey d = Some a).
  { unfold r. destruct (device_add_cases a (a_store s)) as [(_ & _ & _ & E)|[Hno _]].
    - cbn [das_add InMemoryDeviceAuthorizationStore.store]. rewrite E. apply lookup_insert_eq.
    - cbn in Hok. by rewrite Hok in Hno. }
  exists d, a. split; [done|]. split; [done|].
  destruct (clock_now w1) as [u w1'] eqn:Hw1, (clock_now w2) as [t w2'] eqn:Hw2. cbn [fst]. intros Hu1 Ht2.
  destruct (patient_device_is_served d clientId r a [] authenticated u t) as (_ & approved & r2 & Hap & handed & Hp & Hst & Hcar);
    try done; try lia.
  { by apply consistent_add. }
  { simpl. by rewrite Hl. }
  simpl in Hap. eexists approved, _. split.
  { rewrite (approve_run _ (DeviceAuthorization.userCode a) _ _ u w1') by done. cbn [a_store later].
    fold r. cbn [das_approve InMemoryDeviceAuthorizationStore.store]. by rewrite Hap. }
  destruct (das_poll d clientId t r2) as [x r3] eqn:Hpoll. cbn in Hpoll, Hp. rewrite Hpoll in Hp. cbn in Hp. subst x.
  match type of Hpoll with _ = (Ok ?res, _) => pose proof (handed_is_stored d clientId t r2 res handed) as Hstored end.
  rewrite Hpoll in Hstored.
  destruct (Hstored eq_refl eq_refl) as (Hl3 & _ & Ecl3). cbn [snd] in Hl3.
  eexists _, _, handed. split.
  { rewrite (poll_run _ d _ _ t w2') by done. cbn [a_store later das_poll InMemoryDeviceAuthorizationStore.store].
    cbn [snd]. by rewrite Hpoll. }
  split_and!; try done. intros other w3 again. destruct (clock_now w3) as [t3 w3'] eqn:Hw3.
  rewrite (poll_run _ d _ _ t3 w3') by done. cbn [fst a_store later]. by apply (consumed_is_closed d other t3 r3 again handed).
Qed.
End device_service.

(** ** A television signs in *)

Module DeviceWitnesses.
Import TestPlatform DeviceAuthorizationService ClientWitnesses.
Import InMemoryDeviceAuthorizationStore(digestKey).

Definition device_key : DeviceAuthorizationKey.t := DeviceAuthorizationKey.mk "abcdef0123456789abcdef0123456789".
Abbreviation tv_state :=
  (authorizer InMemoryClientRepository.t InMemoryApplicationRepository.t InMemoryDeviceAuthorizationStore.t world).
Definition before : tv_state := mkAuthorizer registration.2 InMemoryDeviceAuthorizationStore.empty.
Definition beginning := begin device_key 600000 5000 server_id [Scope.mk "openid"] None before.
Definition tv_grant : DeviceAuthorizationGrant.t :=
  match beginning.1 with Ok g => g | _ => DeviceAuthorizationGrant.mk "" "" 0 0 end.
Definition approving :=
  approve device_key (DeviceAuthorizationGrant.userCode tv_grant) AuthorizationWitnesses.alice_session
    (later beginning.2 20000).
Definition polling := poll device_key (DeviceAuthorizationGrant.deviceCode tv_grant) server_id (later approving.2 30000).

Definition tv_digest : DeviceCodeDigest :=
  match digestDevice device_key (DeviceAuthorizationGrant.deviceCode tv_grant) with Ok d => d | _ => [] end.
Definition tv_record : option DeviceAuthorization.t :=
  InMemoryDeviceAuthorizationStore.byDevice (a_store beginning.2) !! digestKey tv_digest.

Lemma device_flow_round_trip_witness : exists approved s2 res s3 handed,
  approve device_key (DeviceAuthorizationGrant.userCode tv_grant) AuthorizationWitnesses.alice_session
    (later beginning.2 20000) = (Ok approved, s2) /\
  poll device_key (DeviceAuthorizationGrant.deviceCode tv_grant) server_id (later s2 30000) = (Ok res, s3) /\
  DevicePollResult.authorization res = Some handed /\ carries handed AuthorizationWitnesses.alice_session.
Proof.
  edestruct (device_flow_round_trip device_key 600000 5000 server_id [Scope.mk "openid"] None before tv_grant
              beginning.2 AuthorizationWitnesses.alice_session 20000 30000) as (d & a & Hd & Ha & H).
  - apply devices_consistent_empty.
  - apply run_as. vm_compute. reflexivity.
  - assert (E : digestDevice device_key (DeviceAuthorizationGrant.deviceCode tv_grant) = Ok tv_digest)
      by (vm_compute; reflexivity).
    rewrite E in Hd. injection Hd as <-. change (tv_record = Some a) in Ha.
    assert (Hexp : (DeviceAuthorization.expiresAt <$> tv_record) = Some 600105) by (vm_compute; reflexivity).
    rewrite Ha in Hexp. injection Hexp as Hexp. rewrite Hexp in H.
    destruct H as (approved & s2 & Hap & res & s3 & handed & Hp & _ & Hh & Hc & _); [reflexivity..|].
    exists approved, s2, res, s3, handed. split; [exact Hap|]. split; [exact Hp|]. split; [exact Hh|exact Hc].
Defined.

Lemma user_code_is_typed_witness : exists a b c d e f g h : ascii,
  (generateUserCode (7 : world (Platform:=test))).1
  = Ok (String a (String b (String c (String d (String "-" (String e (String f (String g (String h "")))))))))
  /\ forallb in_alphabet [a; b; c; d; e; f; g; h] = true.
Proof.
  destruct (generateUserCode (7 : world (Platform:=test))) as [[code|e|] w] eqn:Hrun; [|discriminate Hrun..].
  destruct (user_code_is_typed (7 : world (Platform:=test)) code w Hrun) as (a & b & c & d & e & f & g & h & -> & H).
  exists a, b, c, d, e, f, g, h. split; [reflexivity|exact H].
Defined.

(** A code that may be polled every five seconds for a minute. *)
Definition tv_code : DeviceCodeDigest := [Byte.x01].
Definition issued : InMemoryDeviceAuthorizationStore.t :=
  run_devices [Issue tv_code [Byte.x02] server_id [Scope.mk "openid"] None 0 60000 5000] InMemoryDeviceAuthorizationStore.empty.
Definition tv_pending : DeviceAuthorization.t :=
  DeviceAuthorization.mk tv_code [Byte.x02] server_id [Scope.mk "openid"] None 0 60000 5000 DeviceAuthorizationStatus.Pending
    None None None None None None.

Lemma patient_device_is_served_witness : exists approved r2,
  InMemoryDeviceAuthorizationStore.approve [Byte.x02] AuthorizationWitnesses.alice_session 11000
    (polls tv_code server_id [5000; 10000] issued).2 = (Ok approved, r2).
Proof.
  destruct (patient_device_is_served tv_code server_id issued tv_pending [5000; 10000]
    AuthorizationWitnesses.alice_session 11000 15000) as (_ & approved & r2 & Hap & _).
  - apply consistent_run, devices_consistent_empty.
  - vm_compute. reflexivity.
  - reflexivity.
  - reflexivity.
  - cbn. lia.
  - repeat constructor; cbn; lia.
  - cbn. lia.
  - cbn. lia.
  - exists approved, r2. exact Hap.
Defined.

(** Three polls in a row: the second and the third are too early. *)
Lemma polling_is_paced_witness :
  slowed (InMemoryDeviceAuthorizationStore.poll tv_code server_id 12000
    (polls tv_code server_id [1000; 2000] issued).2).1 = false.
Proof.
  destruct (slowed _) eqn:E; [|reflexivity]. exfalso.
  apply (polling_is_paced tv_code server_id issued tv_pending [1000; 2000] 12000) in E as (last & Hl & Hlt).
  - injection Hl as <-. vm_compute in Hlt. discriminate Hlt.
  - vm_compute. reflexivity.
  - reflexivity.
  - reflexivity.
  - repeat constructor; cbn; lia.
Defined.
End DeviceWitnesses.
