(* ===== verification/Token.v ===== *)
(** * openproof.token: access tokens, refresh-token families, introspection

    Models [src/src/token/model.cpp], [repository.cpp] and [service.cpp]: token
    contexts, access and refresh records, the repository that rotates refresh
    tokens and revokes whole families, and the service that issues, exchanges,
    refreshes, introspects and revokes opaque tokens. *)
From S2P Require Import Prelude Foundation Encoding Security Provider IdentityCore Session SessionService Application Client Resource Device Authorization.

Module SenderConstraintKind.
Inductive t := Dpop | Mtls.

#[global] Instance eq_dec : EqDecision t.
Proof. solve_decision. Defined.
End SenderConstraintKind.

Module SenderConstraint.
Record t := mk { kind : SenderConstraintKind.t; value : string }.

#[global] Instance eq_dec : EqDecision t.
Proof. solve_decision. Defined.

Definition create (kind : SenderConstraintKind.t) (value : string) : Result t :=
  if bool_decide (value = "") || (256 <? String.length value)%nat || any_octet blank_octet value then
    fail InvalidArgument "The OAuth sender constraint is invalid."
  else Ok (mk kind value).
End SenderConstraint.

Inductive TokenFamilyIdTag := .
Abbreviation TokenFamilyId := (StrongId TokenFamilyIdTag).

(** ** Records *)

Module TokenContext.
Record t := mk {
  client : ClientId;
  identity : IdentityId;
  provider : ProviderId;
  assurance : AssuranceLevel;
  strength : AuthenticationStrength.t;
  scopes : list string;
  audiences : list string;
  senderConstraint : option SenderConstraint.t;
  authenticatedAt : Instant;
}.

(** The constructor sorts scopes and audiences and drops the duplicates. *)
Definition create (client : ClientId) (identity : IdentityId) (provider : ProviderId)
    (assurance : AssuranceLevel) (strength : AuthenticationStrength.t) (scopes : list string)
    (authenticatedAt : Instant) (audiences : list string) (senderConstraint : option SenderConstraint.t) : t :=
  mk client identity provider assurance strength (sort_unique scopes) (sort_unique audiences) senderConstraint
     authenticatedAt.

Definition permits (c : t) (scope : string) : bool :=
  bool_decide (scope = "") || binary_search (scopes c) scope.
Definition permitsAudience (c : t) (audience : string) : bool :=
  bool_decide (audience = "") || binary_search (audiences c) audience.
End TokenContext.

Module AccessTokenState.
Inductive t := Active | Revoked.

#[global] Instance eq_dec : EqDecision t.
Proof. solve_decision. Defined.
End AccessTokenState.

Module AccessTokenRecord.
Record t := mk {
  digest : TokenDigest;
  family : TokenFamilyId;
  context : TokenContext.t;
  issuedAt : Instant;
  expiresAt : Instant;
  state : AccessTokenState.t;
  revokedAt : option Instant;
}.

(** The constructor's defaults. *)
Definition create (digest : TokenDigest) (family : TokenFamilyId) (context : TokenContext.t)
    (issuedAt expiresAt : Instant) : t :=
  mk digest family context issuedAt expiresAt AccessTokenState.Active None.

Definition usableAt (r : t) (now : Instant) : bool :=
  bool_decide (state r = AccessTokenState.Active) && (now <? expiresAt r).

Definition revoke (now : Instant) (r : t) : t :=
  if bool_decide (state r = AccessTokenState.Active) then
    mk (digest r) (family r) (context r) (issuedAt r) (expiresAt r) AccessTokenState.Revoked (Some now)
  else r.
End AccessTokenRecord.

Module RefreshTokenState.
Inductive t := Active | Used | Revoked.

#[global] Instance eq_dec : EqDecision t.
Proof. solve_decision. Defined.
End RefreshTokenState.

Module RefreshTokenRecord.
Record t := mk {
  digest : TokenDigest;
  family : TokenFamilyId;
  sequence : Z;
  context : TokenContext.t;
  issuedAt : Instant;
  expiresAt : Instant;
  state : RefreshTokenState.t;
  changedAt : option Instant;
}.

Definition create (digest : TokenDigest) (family : TokenFamilyId) (sequence : Z) (context : TokenContext.t)
    (issuedAt expiresAt : Instant) : t :=
  mk digest family sequence context issuedAt expiresAt RefreshTokenState.Active None.

Definition set (r : t) (state' : RefreshTokenState.t) (now : Instant) : t :=
  mk (digest r) (family r) (sequence r) (context r) (issuedAt r) (expiresAt r) state' (Some now).

Definition usableAt (r : t) (now : Instant) : bool :=
  bool_decide (state r = RefreshTokenState.Active) && (now <? expiresAt r).

Definition markUsed (now : Instant) (r : t) : t :=
  if bool_decide (state r = RefreshTokenState.Active) then set r RefreshTokenState.Used now else r.

Definition revoke (now : Instant) (r : t) : t :=
  if bool_decide (state r = RefreshTokenState.Revoked) then r else set r RefreshTokenState.Revoked now.
End RefreshTokenRecord.

Module TokenClaims.
Record t := mk { active : bool; context : TokenContext.t; issuedAt : Instant; expiresAt : Instant }.
End TokenClaims.

(** ** The repository *)

Definition invalidCredential {A} (detail : string) : Result A :=
  failDetail AuthenticationFailed (defaultErrorMessage AuthenticationFailed) detail.

Class TokenRepository (T : Type) := {
  tr_storeInitial : AccessTokenRecord.t -> RefreshTokenRecord.t -> prog T Error unit;
  tr_storeAccessOnly : AccessTokenRecord.t -> prog T Error unit;
  tr_findAccess : T -> TokenDigest -> Result AccessTokenRecord.t;
  tr_findRefresh : T -> TokenDigest -> Result RefreshTokenRecord.t;
  tr_rotateRefresh : TokenDigest -> Instant -> AccessTokenRecord.t -> RefreshTokenRecord.t -> prog T Error unit;
  tr_revokeFamily : TokenFamilyId -> Instant -> prog T Error unit;
  tr_revokeToken : TokenDigest -> Instant -> prog T Error unit;
}.

Module InMemoryTokenRepository.
Record t := mk {
  access : gmap string AccessTokenRecord.t;
  refresh : gmap string RefreshTokenRecord.t;
}.

Definition empty : t := mk ∅ ∅.

Definition key (digest : TokenDigest) : string := toHex digest.

Definition storeInitial (accessRecord : AccessTokenRecord.t) (refreshRecord : RefreshTokenRecord.t)
    : prog t Error unit := fun r =>
  let accessKey := key (AccessTokenRecord.digest accessRecord) in
  let refreshKey := key (RefreshTokenRecord.digest refreshRecord) in
  if bool_decide (is_Some (access r !! accessKey)) || bool_decide (is_Some (refresh r !! refreshKey)) then
    (fail AlreadyExists "The generated token fingerprint already exists.", r)
  else (ok, mk (<[accessKey := accessRecord]> (access r)) (<[refreshKey := refreshRecord]> (refresh r))).

Definition storeAccessOnly (accessRecord : AccessTokenRecord.t) : prog t Error unit := fun r =>
  let accessKey := key (AccessTokenRecord.digest accessRecord) in
  if bool_decide (is_Some (access r !! accessKey)) then
    (fail AlreadyExists "The generated token fingerprint already exists.", r)
  else (ok, mk (<[accessKey := accessRecord]> (access r)) (refresh r)).

Definition findAccess (r : t) (digest : TokenDigest) : Result AccessTokenRecord.t :=
  match access r !! key digest with
  | None => invalidCredential "Unknown access token."
  | Some found => Ok found
  end.

Definition findRefresh (r : t) (digest : TokenDigest) : Result RefreshTokenRecord.t :=
  match refresh r !! key digest with
  | None => invalidCredential "Unknown refresh token."
  | Some found => Ok found
  end.

(** The two loops over both maps that revoke a family. *)
Definition revokeEach (family : TokenFamilyId) (now : Instant) (r : t) : t :=
  mk ((fun record => if bool_decide (AccessTokenRecord.family record = family)
                     then AccessTokenRecord.revoke now record else record) <$> access r)
     ((fun record => if bool_decide (RefreshTokenRecord.family record = family)
                     then RefreshTokenRecord.revoke now record else record) <$> refresh r).

Definition rotateRefresh (presented : TokenDigest) (now : Instant) (replacementAccess : AccessTokenRecord.t)
    (replacementRefresh : RefreshTokenRecord.t) : prog t Error unit := fun r =>
  match refresh r !! key presented with
  | None => (invalidCredential "Unknown refresh token.", r)
  | Some found =>
      if negb (RefreshTokenRecord.usableAt found now) then
        (invalidCredential "Refresh token reuse or expiry detected; family revoked.",
         revokeEach (RefreshTokenRecord.family found) now r)
      else if negb (bool_decide (AccessTokenRecord.family replacementAccess = RefreshTokenRecord.family found))
              || negb (bool_decide (RefreshTokenRecord.family replacementRefresh = RefreshTokenRecord.family found))
              || negb (RefreshTokenRecord.sequence replacementRefresh
                       =? u64 (RefreshTokenRecord.sequence found + 1)) then
        (fail InvalidArgument "The refresh rotation replacement is inconsistent.", r)
      else
        let accessKey := key (AccessTokenRecord.digest replacementAccess) in
        let refreshKey := key (RefreshTokenRecord.digest replacementRefresh) in
        if bool_decide (is_Some (access r !! accessKey)) || bool_decide (is_Some (refresh r !! refreshKey)) then
          (fail AlreadyExists "The generated token fingerprint already exists.", r)
        else
          (ok, mk (<[accessKey := replacementAccess]> (access r))
                  (<[refreshKey := replacementRefresh]>
                     (<[key presented := RefreshTokenRecord.markUsed now found]> (refresh r))))
  end.

Definition revokeFamily (family : TokenFamilyId) (now : Instant) : prog t Error unit := fun r =>
  (ok, revokeEach family now r).

Definition revokeToken (digest : TokenDigest) (now : Instant) : prog t Error unit := fun r =>
  match access r !! key digest with
  | Some found => (ok, mk (<[key digest := AccessTokenRecord.revoke now found]> (access r)) (refresh r))
  | None =>
      match refresh r !! key digest with
      | Some found => (ok, revokeEach (RefreshTokenRecord.family found) now r)
      | None => (ok, r)
      end
  end.

#[global] Instance repository : TokenRepository t := {
  tr_storeInitial := storeInitial; tr_storeAccessOnly := storeAccessOnly; tr_findAccess := findAccess;
  tr_findRefresh := findRefresh; tr_rotateRefresh := rotateRefresh; tr_revokeFamily := revokeFamily;
  tr_revokeToken := revokeToken;
}.
End InMemoryTokenRepository.

(** ** The service *)

Module TokenKey.
Record t := mk { m_secret : string }.

Definition create (secret : string) : Result t :=
  if (String.length secret <? 32)%nat then
    fail InvalidArgument "A token key must contain at least 32 bytes."
  else Ok (mk secret).
End TokenKey.

Module TokenPolicy.
Record t := mk { accessLifetime : Duration; refreshLifetime : Duration }.

Definition create (accessLifetime refreshLifetime : Duration) : Result t :=
  if (accessLifetime <=? 0) || (refreshLifetime <=? accessLifetime) || (minutes 60 <? accessLifetime)
     || (minutes (60 * (24 * 90)) <? refreshLifetime) then
    fail InvalidArgument "OAuth token lifetimes are invalid."
  else Ok (mk accessLifetime refreshLifetime).
End TokenPolicy.

Module TokenGrant.
Record t := mk { accessToken : string; refreshToken : string; expiresIn : Duration; context : TokenContext.t }.
End TokenGrant.

Module MachineTokenGrant.
Record t := mk { accessToken : string; expiresIn : Duration; context : TokenContext.t }.
End MachineTokenGrant.

Definition sameConstraint (expected presented : option SenderConstraint.t) : bool :=
  match expected, presented with
  | None, None => true
  | Some expected, Some presented =>
      bool_decide (SenderConstraint.kind expected = SenderConstraint.kind presented)
      && bool_decide (SenderConstraint.value expected = SenderConstraint.value presented)
  | _, _ => false
  end.

Lemma sameConstraint_spec expected presented : sameConstraint expected presented = bool_decide (expected = presented).
Proof.
  destruct expected as [[k v]|], presented as [[k' v']|]; simpl; try done.
  repeat case_bool_decide; naive_solver.
Qed.

Module TokenService.
Section service.
Context `{Plat : Platform}.
Context {C A K : Type} `{!ClientRepository C, !ApplicationRepository A, !TokenRepository K}.
Context (key : TokenKey.t) (policy : TokenPolicy.t).

Abbreviation state := (authorizer C A K world).
Abbreviation handler B := (prog state Error B).

Definition digest (token : string) : Result TokenDigest :=
  if bool_decide (token = "") || (256 <? String.length token)%nat then
    invalidCredential "An invalid OAuth token was presented."
  else hmacSha256 (TokenKey.m_secret key) token.

Definition requireClient (clientId : ClientId) : handler Client.t :=
  ask (fun s => ClientManager.requireActive (a_manager s) clientId).

Definition makeInitial (context : TokenContext.t) : handler TokenGrant.t :=
  _ ← requireClient (TokenContext.client context);
  familyRaw ← attempt (on_world (randomTokenBase64Url 24));
  accessRaw ← attempt (on_world (randomTokenBase64Url 32));
  refreshRaw ← attempt (on_world (randomTokenBase64Url 32));
  familyRaw ← lift familyRaw;
  accessRaw ← lift accessRaw;
  refreshRaw ← lift refreshRaw;
  let access := "opa_" +:+ accessRaw in
  let refresh := "opr_" +:+ refreshRaw in
  accessDigest ← lift (digest access);
  refreshDigest ← lift (digest refresh);
  now ← on_world now;
  let family : TokenFamilyId := mkId familyRaw in
  _ ← on_store (tr_storeInitial
        (AccessTokenRecord.create accessDigest family context now (now + TokenPolicy.accessLifetime policy))
        (RefreshTokenRecord.create refreshDigest family 0 context now (now + TokenPolicy.refreshLifetime policy)));
  mret (TokenGrant.mk access refresh (TokenPolicy.accessLifetime policy) context).

Definition issue (authorization : RedeemedAuthorization.t) (senderConstraint : option SenderConstraint.t)
    : handler TokenGrant.t :=
  let code := RedeemedAuthorization.code authorization in
  let scopes := map Scope.value (AuthorizationCode.scopes code) in
  let audiences := match AuthorizationCode.resource code with Some resource => [resource] | None => [] end in
  makeInitial (TokenContext.create (AuthorizationCode.clientId code) (AuthorizationCode.identity code)
    (AuthorizationCode.provider code) (AuthorizationCode.assurance code) (AuthorizationCode.strength code) scopes
    (AuthorizationCode.authenticatedAt code) audiences senderConstraint).

Definition issueDeviceAuthorization (authorization : DeviceAuthorization.t)
    (senderConstraint : option SenderConstraint.t) : handler TokenGrant.t :=
  match DeviceAuthorization.identity authorization, DeviceAuthorization.provider authorization,
        DeviceAuthorization.assurance authorization, DeviceAuthorization.strength authorization,
        DeviceAuthorization.authenticatedAt authorization with
  | Some identity, Some provider, Some assurance, Some strength, Some authenticatedAt =>
      if negb (bool_decide (DeviceAuthorization.status authorization = DeviceAuthorizationStatus.Consumed)) then
        throw (Error_ofMessage FailedPrecondition "The device authorization has not been consumed safely.")
      else
        let scopes := map Scope.value (DeviceAuthorization.scopes authorization) in
        let audiences :=
          match DeviceAuthorization.resource authorization with Some resource => [resource] | None => [] end in
        makeInitial (TokenContext.create (DeviceAuthorization.clientId authorization) identity provider assurance
          strength scopes authenticatedAt audiences senderConstraint)
  | _, _, _, _, _ =>
      throw (Error_ofMessage FailedPrecondition "The device authorization has not been consumed safely.")
  end.

(** The end of the two grants without a refresh token: draw, digest, store. *)
Definition storeMachineToken (context : Instant -> TokenContext.t) : handler MachineTokenGrant.t :=
  familyRaw ← attempt (on_world (randomTokenBase64Url 24));
  accessRaw ← attempt (on_world (randomTokenBase64Url 32));
  familyRaw ← lift familyRaw;
  accessRaw ← lift accessRaw;
  let access := "opa_" +:+ accessRaw in
  accessDigest ← lift (digest access);
  now ← on_world now;
  _ ← on_store (tr_storeAccessOnly
        (AccessTokenRecord.create accessDigest (mkId familyRaw) (context now) now
           (now + TokenPolicy.accessLifetime policy)));
  mret (MachineTokenGrant.mk access (TokenPolicy.accessLifetime policy) (context now)).

Definition issueClientCredentials (service : ServiceIdentity.t) (audience : string) (scopes : list string)
    (senderConstraint : option SenderConstraint.t) : handler MachineTokenGrant.t :=
  if negb (ServiceIdentity.active service) || negb (ServiceIdentity.permitsAudience service audience)
     || negb (ServiceIdentity.permitsScopes service scopes) || bool_decide (scopes = []) then
    throw (Error_ofMessage PermissionDenied "The service identity does not permit the requested machine grant.")
  else
    activeClient ← attempt (requireClient (ServiceIdentity.client service));
    if negb match activeClient with
            | Ok activeClient => bool_decide (Client.kind activeClient = Client.Service)
            | _ => false
            end then
      throw (Error_ofMessage AuthenticationFailed "Client authentication failed.")
    else
      storeMachineToken (fun now =>
        TokenContext.create (ServiceIdentity.client service) (ServiceIdentity.identity service)
          (mkId "client_credentials") Ial1 (AuthenticationStrength.mk Knowledge false) scopes now [audience]
          senderConstraint).

Definition introspect (accessToken : string) : handler TokenClaims.t :=
  fingerprint ← lift (digest accessToken);
  record ← ask (fun s => tr_findAccess (a_store s) fingerprint);
  now ← on_world now;
  if negb (AccessTokenRecord.usableAt record now) then lift (invalidCredential "The access token is inactive.")
  else
    client ← attempt (requireClient (TokenContext.client (AccessTokenRecord.context record)));
    if negb (is_ok client) then lift (invalidCredential "The OAuth client is inactive.")
    else mret (TokenClaims.mk true (AccessTokenRecord.context record) (AccessTokenRecord.issuedAt record)
                 (AccessTokenRecord.expiresAt record)).

Definition issueTokenExchange (clientId : ClientId) (subjectToken audience : string) (scopes : list string)
    (senderConstraint : option SenderConstraint.t) : handler MachineTokenGrant.t :=
  source ← introspect subjectToken;
  let sourceContext := TokenClaims.context source in
  if negb (bool_decide (TokenContext.client sourceContext = clientId)) then
    throw (Error_ofMessage AuthenticationFailed "The subject token is not bound to this client.")
  else if negb (sameConstraint (TokenContext.senderConstraint sourceContext) senderConstraint) then
    throw (Error_ofMessage AuthenticationFailed "The subject token sender binding is invalid.")
  else if bool_decide (audience = "") || negb (TokenContext.permitsAudience sourceContext audience) then
    throw (Error_ofMessage PermissionDenied "Token exchange cannot widen the audience.")
  else
    let scopes := if bool_decide (scopes = []) then TokenContext.scopes sourceContext else scopes in
    if negb (forallb (TokenContext.permits sourceContext) scopes) then
      throw (Error_ofMessage PermissionDenied "Token exchange cannot widen scope.")
    else
      storeMachineToken (fun _ =>
        TokenContext.create clientId (TokenContext.identity sourceContext) (TokenContext.provider sourceContext)
          (TokenContext.assurance sourceContext) (TokenContext.strength sourceContext) scopes
          (TokenContext.authenticatedAt sourceContext) [audience] senderConstraint).

Definition makeRotation (current : RefreshTokenRecord.t) : handler TokenGrant.t :=
  accessRaw ← attempt (on_world (randomTokenBase64Url 32));
  refreshRaw ← attempt (on_world (randomTokenBase64Url 32));
  accessRaw ← lift accessRaw;
  refreshRaw ← lift refreshRaw;
  let access := "opa_" +:+ accessRaw in
  let refresh := "opr_" +:+ refreshRaw in
  accessDigest ← lift (digest access);
  refreshDigest ← lift (digest refresh);
  now ← on_world now;
  _ ← on_store (tr_rotateRefresh (RefreshTokenRecord.digest current) now
        (AccessTokenRecord.create accessDigest (RefreshTokenRecord.family current)
           (RefreshTokenRecord.context current) now (now + TokenPolicy.accessLifetime policy))
        (RefreshTokenRecord.create refreshDigest (RefreshTokenRecord.family current)
           (u64 (RefreshTokenRecord.sequence current + 1)) (RefreshTokenRecord.context current) now
           (RefreshTokenRecord.expiresAt current)));
  mret (TokenGrant.mk access refresh (TokenPolicy.accessLifetime policy) (RefreshTokenRecord.context current)).

Definition refresh (clientId : ClientId) (refreshToken : string) (senderConstraint : option SenderConstraint.t)
    : handler TokenGrant.t :=
  _ ← requireClient clientId;
  fingerprint ← lift (digest refreshToken);
  current ← ask (fun s => tr_findRefresh (a_store s) fingerprint);
  if negb (bool_decide (TokenContext.client (RefreshTokenRecord.context current) = clientId)) then
    lift (invalidCredential "Refresh token client binding mismatch.")
  else if negb (sameConstraint (TokenContext.senderConstraint (RefreshTokenRecord.context current))
                 senderConstraint) then
    lift (invalidCredential "Refresh token sender binding mismatch.")
  else makeRotation current.

Definition revoke (token : string) : handler unit :=
  match digest token with
  | Ok fingerprint => now ← on_world now; on_store (tr_revokeToken fingerprint now)
  | Err _ => mret tt
  | Aborted => lift Aborted
  end.

(** Whose token a lookup found; a failed lookup is somebody else's. *)
Definition heldBy {R} (context : R -> TokenContext.t) (found : Result R) (clientId : ClientId) : bool :=
  match found with Ok record => bool_decide (TokenContext.client (context record) = clientId) | _ => false end.

Definition revokeForClient (clientId : ClientId) (token : string) : handler unit :=
  match digest token with
  | Ok fingerprint =>
      access ← attempt (ask (fun s => tr_findAccess (a_store s) fingerprint));
      if heldBy AccessTokenRecord.context access clientId then
        now ← on_world now; on_store (tr_revokeToken fingerprint now)
      else
        refresh ← attempt (ask (fun s => tr_findRefresh (a_store s) fingerprint));
        if heldBy RefreshTokenRecord.context refresh clientId then
          now ← on_world now; on_store (tr_revokeToken fingerprint now)
        else mret tt
  | Err _ => mret tt
  | Aborted => lift Aborted
  end.

Definition delegatedConstraint (constraint : SenderConstraint.t) : DelegatedSenderConstraint.t :=
  DelegatedSenderConstraint.mk
    (if bool_decide (SenderConstraint.kind constraint = SenderConstraintKind.Dpop) then Dpop else Mtls)
    (SenderConstraint.value constraint).

Definition authenticateDelegated (token : string) : handler DelegatedAccess.t :=
  claims ← introspect token;
  let context := TokenClaims.context claims in
  now ← on_world now;
  authenticated ← lift (AuthenticatedSession.fromDelegatedAccess (TokenContext.identity context)
    (TokenContext.provider context) (TokenContext.assurance context) (TokenContext.strength context)
    (TokenContext.authenticatedAt context) now (TokenClaims.expiresAt claims));
  mret (DelegatedAccess.create authenticated (id_value (TokenContext.client context)) (TokenContext.scopes context)
          (TokenContext.audiences context) (delegatedConstraint <$> TokenContext.senderConstraint context)).
End service.
End TokenService.

(** ** Histories of the repository *)

Inductive token_op :=
| StoreInitial (a : AccessTokenRecord.t) (r : RefreshTokenRecord.t)
| StoreAccessOnly (a : AccessTokenRecord.t)
| RotateRefresh (presented : TokenDigest) (now : Instant) (a : AccessTokenRecord.t) (r : RefreshTokenRecord.t)
| RevokeFamily (family : TokenFamilyId) (now : Instant)
| RevokeToken (digest : TokenDigest) (now : Instant).

Section token_store.
Import InMemoryTokenRepository(access, refresh, key, empty, revokeEach, storeInitial, storeAccessOnly, rotateRefresh,
  revokeFamily, revokeToken, mk).
Implicit Types r : InMemoryTokenRepository.t.

Definition run_token_op (o : token_op) : prog InMemoryTokenRepository.t Error unit :=
  match o with
  | StoreInitial a x => storeInitial a x
  | StoreAccessOnly a => storeAccessOnly a
  | RotateRefresh d now a x => rotateRefresh d now a x
  | RevokeFamily f now => revokeFamily f now
  | RevokeToken d now => revokeToken d now
  end.

Definition token_step (o : token_op) r := (run_token_op o r).2.
Definition run_tokens (ops : list token_op) r := foldl (fun r o => token_step o r) r ops.

(** The refresh tokens of a family that still open something. *)
Definition live (f : TokenFamilyId) (x : RefreshTokenRecord.t) : Prop :=
  RefreshTokenRecord.family x = f /\ RefreshTokenRecord.state x = RefreshTokenState.Active.
#[local] Instance live_dec f x : Decision (live f x).
Proof. unfold live. apply _. Defined.

Definition live_refresh (f : TokenFamilyId) r : nat := count_entries (live f) (refresh r).

(** A family is opened by an initial store. *)
Definition opens_family (f : TokenFamilyId) (o : token_op) r : bool :=
  match o with
  | StoreInitial a x => bool_decide (RefreshTokenRecord.family x = f) && is_ok (storeInitial a x r).1
  | _ => false
  end.

Lemma storeInitial_cases a x r :
  (storeInitial a x r = (ok, mk (<[key (AccessTokenRecord.digest a) := a]> (access r))
     (<[key (RefreshTokenRecord.digest x) := x]> (refresh r))) /\
   access r !! key (AccessTokenRecord.digest a) = None /\ refresh r !! key (RefreshTokenRecord.digest x) = None) \/
  (is_ok (storeInitial a x r).1 = false /\ (storeInitial a x r).2 = r).
Proof.
  unfold storeInitial. destruct (_ || _) eqn:G; [by right|]. bool_prop. left.
  by repeat match goal with H : ~ is_Some _ |- _ => apply eq_None_not_Some in H end.
Qed.

Lemma storeAccessOnly_cases a r :
  (storeAccessOnly a r = (ok, mk (<[key (AccessTokenRecord.digest a) := a]> (access r)) (refresh r)) /\
   access r !! key (AccessTokenRecord.digest a) = None) \/
  (is_ok (storeAccessOnly a r).1 = false /\ (storeAccessOnly a r).2 = r).
Proof.
  unfold storeAccessOnly. case_bool_decide as G; [by right|]. left. by apply eq_None_not_Some in G.
Qed.

(** The three outcomes of a rotation. *)
Inductive rotation (d : TokenDigest) (now : Instant) a x r : Status * InMemoryTokenRepository.t -> Prop :=
| rotation_refused e : rotation d now a x r (Err e, r)
| rotation_reused e found :
    refresh r !! key d = Some found -> RefreshTokenRecord.usableAt found now = false ->
    rotation d now a x r (Err e, revokeEach (RefreshTokenRecord.family found) now r)
| rotation_done found :
    refresh r !! key d = Some found -> RefreshTokenRecord.state found = RefreshTokenState.Active ->
    now < RefreshTokenRecord.expiresAt found ->
    AccessTokenRecord.family a = RefreshTokenRecord.family found ->
    RefreshTokenRecord.family x = RefreshTokenRecord.family found ->
    RefreshTokenRecord.sequence x = u64 (RefreshTokenRecord.sequence found + 1) ->
    access r !! key (AccessTokenRecord.digest a) = None -> refresh r !! key (RefreshTokenRecord.digest x) = None ->
    rotation d now a x r (ok, mk (<[key (AccessTokenRecord.digest a) := a]> (access r))
      (<[key (RefreshTokenRecord.digest x) := x]>
         (<[key d := RefreshTokenRecord.set found RefreshTokenState.Used now]> (refresh r)))).

Lemma rotateRefresh_cases d now a x r : rotation d now a x r (rotateRefresh d now a x r).
Proof.
  unfold rotateRefresh. destruct (refresh r !! key d) as [found|] eqn:Hf; [|constructor].
  destruct (RefreshTokenRecord.usableAt found now) eqn:Hu; simpl; [|by econstructor].
  destruct (_ || _) eqn:G; [constructor|]. destruct (bool_decide (is_Some (access r !! _)) || _) eqn:G'; [constructor|].
  unfold RefreshTokenRecord.usableAt in Hu. bool_prop.
  repeat match goal with H : ~ is_Some _ |- _ => apply eq_None_not_Some in H end.
  unfold RefreshTokenRecord.markUsed. rewrite bool_decide_eq_true_2 by done. by apply rotation_done.
Qed.

Lemma live_revokeEach f g now r : (live_refresh f (revokeEach g now r) <= live_refresh f r)%nat.
Proof.
  apply count_entries_fmap. intros x. case_bool_decide; [|done]. unfold RefreshTokenRecord.revoke, live.
  case_bool_decide; [done|]. simpl. by intros [_ ?].
Qed.

Lemma live_step f o r :
  (live_refresh f (token_step o r) <= (if opens_family f o r then 1 else 0) + live_refresh f r)%nat.
Proof.
  unfold token_step. destruct o as [a x|a|d now a x|g now|d now]; cbn [run_token_op opens_family].
  - destruct (storeInitial_cases a x r) as [(-> & _ & Hx)|[-> ->]]; [|rewrite andb_false_r; lia].
    unfold live_refresh. simpl. rewrite count_entries_insert by done. rewrite andb_true_r. unfold live.
    case_decide; [|case_bool_decide; lia]. rewrite bool_decide_eq_true_2 by tauto. lia.
  - destruct (storeAccessOnly_cases a r) as [(-> & _)|[_ ->]]; simpl; unfold live_refresh; simpl; lia.
  - destruct (rotateRefresh_cases d now a x r) as [e|e found Hf Hu|found Hf Hs Ht Hfa Hfx _ _ Hx]; simpl; [lia|apply live_revokeEach|].
    assert (Hne : key d <> key (RefreshTokenRecord.digest x)) by (intros E; congruence).
    unfold live_refresh. simpl. rewrite count_entries_insert by (by rewrite lookup_insert_ne).
    pose proof (count_entries_replace (live f) (refresh r) (key d) found
      (RefreshTokenRecord.set found RefreshTokenState.Used now) Hf) as Hc.
    unfold live in *. simpl in *. repeat case_decide; naive_solver lia.
  - apply live_revokeEach.
  - unfold revokeToken. destruct (access r !! key d); [done|]. destruct (refresh r !! key d); [apply live_revokeEach|done].
Qed.

(** A family has one live refresh token. In every history of the
    repository, with any records, digests and times, the refresh tokens of a
    family that are still active never outnumber the initial grants that opened
    the family: with one grant, at most one token at a time refreshes it. *)
Theorem family_has_one_live_token f ops :
  (live_refresh f (run_tokens ops empty) <= count_steps token_step (opens_family f) ops empty)%nat.
Proof.
  assert (H : forall r, (live_refresh f (run_tokens ops r)
    <= count_steps token_step (opens_family f) ops r + live_refresh f r)%nat).
  { induction ops as [|o ops IH]; intros r; simpl; [lia|]. specialize (IH (token_step o r)).
    pose proof (live_step f o r). unfold run_tokens in *. lia. }
  specialize (H empty). change (live_refresh f empty) with 0%nat in H. lia.
Qed.

(** Every refresh record is stored under its own digest. *)
Definition keyed r : Prop := forall k x, refresh r !! k = Some x -> key (RefreshTokenRecord.digest x) = k.

Lemma keyed_revokeEach f now r : keyed r -> keyed (revokeEach f now r).
Proof.
  intros Hr k x. simpl. rewrite lookup_fmap. destruct (refresh r !! k) as [y|] eqn:Hy; simpl; [|done]. intros [= <-].
  rewrite <-(Hr _ _ Hy). case_bool_decide; [|done]. unfold RefreshTokenRecord.revoke. by case_bool_decide.
Qed.

Lemma tokens_keyed_insert k x m m' : keyed (mk m' m) -> key (RefreshTokenRecord.digest x) = k -> keyed (mk m' (<[k := x]> m)).
Proof. intros Hm Hx k' y. simpl. rewrite lookup_insert. case_decide; [subst; by intros [= <-]|apply Hm]. Qed.

Lemma keyed_step o r : keyed r -> keyed (token_step o r).
Proof.
  intros Hr. unfold token_step. destruct o as [a x|a|d now a x|g now|d now]; cbn [run_token_op].
  - destruct (storeInitial_cases a x r) as [(-> & _)|[_ ->]]; [|done]. apply tokens_keyed_insert; [exact Hr|done].
  - destruct (storeAccessOnly_cases a r) as [(-> & _)|[_ ->]]; [exact Hr|done].
  - destruct (rotateRefresh_cases d now a x r) as [e|e found Hf Hu|found Hf _ _ _ _ _ _ _]; simpl;
      [done|by apply keyed_revokeEach|].
    apply tokens_keyed_insert; [|done]. apply tokens_keyed_insert; [exact Hr|]. exact (Hr _ _ Hf).
  - by apply keyed_revokeEach.
  - unfold revokeToken. destruct (access r !! key d); [exact Hr|]. destruct (refresh r !! key d); [by apply keyed_revokeEach|done].
Qed.

(** ** Revocation of a family is final *)

Definition all_revoked (f : TokenFamilyId) r : Prop :=
  (forall k a, access r !! k = Some a -> AccessTokenRecord.family a = f ->
     AccessTokenRecord.state a = AccessTokenState.Revoked) /\
  (forall k x, refresh r !! k = Some x -> RefreshTokenRecord.family x = f ->
     RefreshTokenRecord.state x = RefreshTokenState.Revoked).

(** Does the operation grant new tokens in the family? *)
Definition grants_into (f : TokenFamilyId) (o : token_op) : bool :=
  match o with
  | StoreInitial a x => bool_decide (AccessTokenRecord.family a = f) || bool_decide (RefreshTokenRecord.family x = f)
  | StoreAccessOnly a => bool_decide (AccessTokenRecord.family a = f)
  | _ => false
  end.

Lemma revoke_access_spec now a :
  AccessTokenRecord.family (AccessTokenRecord.revoke now a) = AccessTokenRecord.family a /\
  AccessTokenRecord.state (AccessTokenRecord.revoke now a) = AccessTokenState.Revoked.
Proof. unfold AccessTokenRecord.revoke. case_bool_decide; [done|]. split; [done|]. by destruct (AccessTokenRecord.state a). Qed.

Lemma revoke_refresh_spec now x :
  RefreshTokenRecord.family (RefreshTokenRecord.revoke now x) = RefreshTokenRecord.family x /\
  RefreshTokenRecord.state (RefreshTokenRecord.revoke now x) = RefreshTokenState.Revoked.
Proof. unfold RefreshTokenRecord.revoke. by case_bool_decide. Qed.

(** Revoking a family [g] revokes it, and keeps every family that is revoked. *)
Lemma revokeEach_revokes f g now r : f = g \/ all_revoked f r -> all_revoked f (revokeEach g now r).
Proof.
  intros Hf. split; intros k y; simpl; rewrite lookup_fmap.
  - destruct (access r !! k) as [a|] eqn:Ha; simpl; [|done]. intros [= <-].
    pose proof (revoke_access_spec now a) as [E1 E2]. case_bool_decide as Eg; [done|].
    destruct Hf as [->|[Hr _]]; [done|by apply (Hr k)].
  - destruct (refresh r !! k) as [x|] eqn:Hx; simpl; [|done]. intros [= <-].
    pose proof (revoke_refresh_spec now x) as [E1 E2]. case_bool_decide as Eg; [done|].
    destruct Hf as [->|[_ Hr]]; [done|by apply (Hr k)].
Qed.

Lemma all_revoked_insert_access f k a r :
  all_revoked f r -> (AccessTokenRecord.family a = f -> AccessTokenRecord.state a = AccessTokenState.Revoked) ->
  all_revoked f (mk (<[k := a]> (access r)) (refresh r)).
Proof.
  intros [H1 H2] Ha. split; simpl; [|done]. intros k' b. rewrite lookup_insert. case_decide; [by intros [= <-]|apply H1].
Qed.

Lemma all_revoked_insert_refresh f k x r :
  all_revoked f r -> (RefreshTokenRecord.family x = f -> RefreshTokenRecord.state x = RefreshTokenState.Revoked) ->
  all_revoked f (mk (access r) (<[k := x]> (refresh r))).
Proof.
  intros [H1 H2] Hx. split; simpl; [done|]. intros k' b. rewrite lookup_insert. case_decide; [by intros [= <-]|apply H2].
Qed.

Lemma all_revoked_step f o r : grants_into f o = false -> all_revoked f r -> all_revoked f (token_step o r).
Proof.
  intros Hg Hr. unfold token_step. destruct o as [a x|a|d now a x|g now|d now]; cbn [run_token_op grants_into] in *; bool_prop.
  - destruct (storeInitial_cases a x r) as [(-> & _)|[_ ->]]; [|done]. simpl.
    apply (all_revoked_insert_refresh f _ x (mk _ _)); [|done]. by apply all_revoked_insert_access.
  - destruct (storeAccessOnly_cases a r) as [(-> & _)|[_ ->]]; [|done]. by apply all_revoked_insert_access.
  - destruct (rotateRefresh_cases d now a x r) as [e|e found Hf Hu|found Hf Hs Ht Hfa Hfx _ _ Hx]; simpl; [done| |].
    + apply revokeEach_revokes. by right.
    + assert (Hne : RefreshTokenRecord.family found <> f).
      { intros E. pose proof (proj2 Hr _ _ Hf E). congruence. }
      apply (all_revoked_insert_refresh f _ x (mk _ _)); [|congruence].
      apply (all_revoked_insert_refresh f _ _ (mk _ _)); [|done].
      apply all_revoked_insert_access; [done|congruence].
  - apply revokeEach_revokes. by right.
  - unfold revokeToken. destruct (access r !! key d) as [a|] eqn:Ha; simpl.
    + apply all_revoked_insert_access; [done|]. intros _. apply revoke_access_spec.
    + destruct (refresh r !! key d); simpl; [|done]. apply revokeEach_revokes. by right.
Qed.

Lemma all_revoked_run f ops r :
  Forall (fun o => grants_into f o = false) ops -> all_revoked f r -> all_revoked f (run_tokens ops r).
Proof.
  intros Hops. revert r. induction Hops as [|o ops Ho _ IH]; intros r Hr; simpl; [done|].
  by apply IH, all_revoked_step.
Qed.

(** Reuse of a refresh token ends its family. When a refresh token is
    presented that was used before, revoked, or has expired, the rotation
    fails, whatever replacement it brings, and every access and refresh token
    of the family is revoked, and stays revoked whatever the repository is
    asked afterwards, unless new tokens are granted into the same family. *)
Theorem reuse_revokes_the_family d now a x r found ops :
  refresh r !! key d = Some found -> RefreshTokenRecord.usableAt found now = false ->
  let f := RefreshTokenRecord.family found in
  Forall (fun o => grants_into f o = false) ops ->
  is_ok (rotateRefresh d now a x r).1 = false /\ all_revoked f (run_tokens ops (rotateRefresh d now a x r).2).
Proof.
  intros Hf Hu f Hops. unfold rotateRefresh. rewrite Hf, Hu. simpl. split; [done|].
  apply all_revoked_run; [done|]. apply revokeEach_revokes. by left.
Qed.
End token_store.

(** ** Issue, introspection and revocation *)

Section token_service.
Context `{Plat : Platform, !PlatformLaws Plat}.
Context {C A : Type} `{!ClientRepository C, !ApplicationRepository A}.
Context (tokenKey : TokenKey.t) (policy : TokenPolicy.t).

Import TokenService.
Import InMemoryTokenRepository(access, refresh, key, mk, revokeEach).
Abbreviation state := (authorizer C A InMemoryTokenRepository.t world).
Implicit Types s : state.

Abbreviation reading s := ((clock_now (m_world (a_manager s))).1) (only parsing).

(** The records an initial grant stores. *)
Lemma makeInitial_ok context s grant s' :
  makeInitial tokenKey policy context s = (Ok grant, s') ->
  exists client family ad rd now w,
    usable_client (a_manager s) (TokenContext.client context) client /\
    digest tokenKey (TokenGrant.accessToken grant) = Ok ad /\ digest tokenKey (TokenGrant.refreshToken grant) = Ok rd /\
    TokenGrant.context grant = context /\
    access (a_store s) !! key ad = None /\ refresh (a_store s) !! key rd = None /\
    s' = mkAuthorizer (a_manager (later s w))
      (mk (<[key ad := AccessTokenRecord.create ad family context now (now + TokenPolicy.accessLifetime policy)]>
             (access (a_store s)))
          (<[key rd := RefreshTokenRecord.create rd family 0 context now (now + TokenPolicy.refreshLifetime policy)]>
             (refresh (a_store s)))).
Proof.
  unfold makeInitial. intros (client & s1 & [= Hc <-] & Hrun)%prog_bind_ok. apply client_requireActive_ok in Hc.
  apply attempt3_ok in Hrun as (f & s1 & a & s2 & x & s3 & Hf & Ha & Hx & Hrun).
  apply on_world_later in Hf as (w1 & _ & ->). apply on_world_later in Ha as (w2 & _ & ->).
  apply on_world_later in Hx as (w3 & _ & ->). cbv zeta in Hrun.
  apply prog_bind_ok in Hrun as (ad & s4 & [Had ->]%lift_ok & Hrun).
  apply prog_bind_ok in Hrun as (rd & s4 & [Hrd ->]%lift_ok & Hrun).
  apply prog_bind_ok in Hrun as (t & s4 & Ht & Hrun). apply on_world_later in Ht as (w4 & _ & ->).
  apply prog_bind_ok in Hrun as ([] & s4 & Hst & Hrun). injection Hrun as <- <-.
  apply zoom_eq in Hst as (r & Hst & ->). cbn [a_store later tr_storeInitial InMemoryTokenRepository.repository] in Hst.
  exists client, (mkId f), ad, rd, t, w4. split_and!; try done; cbn [a_manager a_store later].
  all: match type of Hst with InMemoryTokenRepository.storeInitial ?a ?x ?m = _ =>
         destruct (storeInitial_cases a x m) as [(E & Hn1 & Hn2)|[Hno _]]; [|by rewrite Hst in Hno] end; try done.
  rewrite E in Hst. by injection Hst as <-.
Qed.

(** An access token that opens something: its record, and its usable client. *)
Definition opens s token (a : AccessTokenRecord.t) : Prop :=
  (exists d, digest tokenKey token = Ok d /\ access (a_store s) !! key d = Some a) /\
  AccessTokenRecord.state a = AccessTokenState.Active /\ reading s < AccessTokenRecord.expiresAt a /\
  exists client, usable_client (a_manager s) (TokenContext.client (AccessTokenRecord.context a)) client.

Definition claims_of (a : AccessTokenRecord.t) : TokenClaims.t :=
  TokenClaims.mk true (AccessTokenRecord.context a) (AccessTokenRecord.issuedAt a) (AccessTokenRecord.expiresAt a).

Lemma introspect_effect token s : exists r w, introspect tokenKey token s = (r, later s w) \/ introspect tokenKey token s = (r, s).
Proof.
  unfold introspect, requireClient, mbind, prog_bind, lift, attempt, ask.
  destruct (digest tokenKey token) as [d|e|]; [|by eexists _, (m_world (a_manager s)); right..].
  destruct (tr_findAccess _ d) as [a|e|]; [|by eexists _, (m_world (a_manager s)); right..].
  destruct (now_run s) as (t & w & _ & Hn). rewrite Hn.
  destruct (AccessTokenRecord.usableAt a t); simpl; [|by eexists _, w; left].
  destruct (ClientManager.requireActive _ _); simpl; by eexists _, w; left.
Qed.

Lemma introspect_ok token s claims s' :
  introspect tokenKey token s = (Ok claims, s') <->
  exists a, opens s token a /\ claims = claims_of a /\ s' = later s (clock_now (m_world (a_manager s))).2.
Proof.
  unfold introspect, requireClient, opens, claims_of, mbind, prog_bind, lift, attempt, ask.
  cbn [tr_findAccess InMemoryTokenRepository.repository]. unfold InMemoryTokenRepository.findAccess.
  destruct (digest tokenKey token) as [d|e|]; [|split; [done|intros (? & ((? & ? & _) & _) & _); done]..].
  destruct (access (a_store s) !! key d) as [a|] eqn:Ha; [|split; [done|intros (? & ((? & [= <-] & ?) & _) & _); congruence]].
  destruct (now_run s) as (t & w & Ht & Hn). rewrite Hn, Ht. cbn [fst snd].
  unfold AccessTokenRecord.usableAt. split.
  - case_bool_decide as Hst; [|done]. destruct (t <? _) eqn:Hlt; [|done]. apply Z.ltb_lt in Hlt. simpl.
    destruct (ClientManager.requireActive _ _) as [c|e|] eqn:Hc; simpl; [|done..]. intros [= <- <-].
    exists a. split_and!; try done; [by exists d|]. exists c. by apply client_requireActive_ok in Hc.
  - intros (b & ((d' & [= <-] & Hb) & Hst & Hlt & c & Hc) & -> & ->). assert (b = a) as -> by congruence.
    rewrite bool_decide_eq_true_2, (proj2 (Z.ltb_lt _ _) Hlt) by done. simpl.
    change (a_manager (later s w)) with (mkManager (m_clients (a_manager s)) (m_applications (a_manager s)) w).
    rewrite (proj2 (client_requireActive_ok (mkManager _ _ w) _ c)); [done|exact Hc].
Qed.

(** Introspection tells exactly what is alive. A token is reported active
    exactly when a record under its keyed digest is active, unexpired at the
    current time, and its client and the client's application are active; the
    claims are those of the record. *)
Theorem introspection_is_exact token s claims :
  (introspect tokenKey token s).1 = Ok claims <-> exists a, opens s token a /\ claims = claims_of a.
Proof.
  destruct (introspect tokenKey token s) as [r s'] eqn:Hr. simpl. split.
  - intros ->. apply introspect_ok in Hr as (a & ? & ? & _). by exists a.
  - intros (a & Ha & ->).
    assert (introspect tokenKey token s = (Ok (claims_of a), later s (clock_now (m_world (a_manager s))).2)) as E.
    { apply introspect_ok. by exists a. }
    congruence.
Qed.

(** What a redeemed authorization entitles a token to. *)
Definition authorized_context (code : AuthorizationCode.t) (constraint : option SenderConstraint.t)
    (context : TokenContext.t) : Prop :=
  TokenContext.client context = AuthorizationCode.clientId code /\
  TokenContext.identity context = AuthorizationCode.identity code /\
  TokenContext.provider context = AuthorizationCode.provider code /\
  TokenContext.assurance context = AuthorizationCode.assurance code /\
  TokenContext.strength context = AuthorizationCode.strength code /\
  TokenContext.authenticatedAt context = AuthorizationCode.authenticatedAt code /\
  TokenContext.senderConstraint context = constraint /\
  (forall scope, TokenContext.permits context scope = true <->
     scope = "" \/ scope ∈ map Scope.value (AuthorizationCode.scopes code)) /\
  (forall audience, TokenContext.permitsAudience context audience = true <->
     audience = "" \/ AuthorizationCode.resource code = Some audience).

Lemma context_permits client identity provider assurance strength scopes at_ audiences constraint scope :
  TokenContext.permits (TokenContext.create client identity provider assurance strength scopes at_ audiences constraint) scope
  = bool_decide (scope = "" \/ scope ∈ scopes).
Proof. unfold TokenContext.permits. cbn [TokenContext.create TokenContext.scopes]. by rewrite sort_unique_search, bool_decide_or. Qed.

Lemma context_permits_audience client identity provider assurance strength scopes at_ audiences constraint audience :
  TokenContext.permitsAudience
    (TokenContext.create client identity provider assurance strength scopes at_ audiences constraint) audience
  = bool_decide (audience = "" \/ audience ∈ audiences).
Proof.
  unfold TokenContext.permitsAudience. cbn [TokenContext.create TokenContext.audiences].
  by rewrite sort_unique_search, bool_decide_or.
Qed.

(** A revoked digest opens nothing. *)
Lemma revoke_effect token d s : digest tokenKey token = Ok d ->
  exists t w, revoke tokenKey token s
    = ((InMemoryTokenRepository.revokeToken d t (a_store s)).1,
       mkAuthorizer (a_manager (later s w)) (InMemoryTokenRepository.revokeToken d t (a_store s)).2).
Proof.
  intros Hd. unfold revoke. rewrite Hd. destruct (now_run s) as (t & w & _ & Hn). rewrite (bind_run _ _ _ _ _ Hn).
  exists t, w. unfold on_store, zoom. cbn. by destruct (InMemoryTokenRepository.revokeToken d t _).
Qed.

(** An issued token introspects to what was authorized, until it is
    revoked. After [issue], the access token's record carries the redeemed
    authorization: its client, identity, provider, assurance, strength and
    authentication time, its scopes and its resource as audience, with the
    access lifetime of the policy. While it is unexpired and the client stays
    usable, introspection reports it; once [revoke] was called with it, no
    introspection succeeds, at any time. *)
Theorem issued_token_introspects authorization constraint s grant s1 w client :
  issue tokenKey policy authorization constraint s = (Ok grant, s1) ->
  let code := RedeemedAuthorization.code authorization in
  usable_client (a_manager (later s1 w)) (AuthorizationCode.clientId code) client ->
  exists d a, digest tokenKey (TokenGrant.accessToken grant) = Ok d /\ access (a_store s1) !! key d = Some a /\
    authorized_context code constraint (AccessTokenRecord.context a) /\
    AccessTokenRecord.expiresAt a = AccessTokenRecord.issuedAt a + TokenPolicy.accessLifetime policy /\
    ((clock_now w).1 < AccessTokenRecord.expiresAt a ->
       (introspect tokenKey (TokenGrant.accessToken grant) (later s1 w)).1 = Ok (claims_of a)) /\
    forall w1 w2, is_ok (introspect tokenKey (TokenGrant.accessToken grant)
      (later (revoke tokenKey (TokenGrant.accessToken grant) (later s1 w1)).2 w2)).1 = false.
Proof.
  intros (c & f & d & rd & now & w0 & _ & Hd & _ & _ & _ & _ & ->)%makeInitial_ok code Hc.
  set (context := TokenContext.create _ _ _ _ _ _ _ _ _) in *.
  set (a := AccessTokenRecord.create d f context now _) in *. cbn [a_store].
  exists d, a. split; [done|]. split; [apply lookup_insert_eq|]. split; [|split; [done|split]].
  - change (AccessTokenRecord.context a) with context. unfold authorized_context, context. split_and!; try done.
    + intros scope. by rewrite context_permits, bool_decide_eq_true.
    + intros audience. rewrite context_permits_audience, bool_decide_eq_true. fold code.
      destruct (AuthorizationCode.resource code); set_solver.
  - intros Ht. apply introspection_is_exact. exists a. split; [|done]. split; [|split; [done|split]].
    + exists d. split; [done|]. apply lookup_insert_eq.
    + exact Ht.
    + by exists client.
  - intros w1 w2. apply not_true_is_false. intros (claims & Hi)%is_ok_spec.
    apply introspection_is_exact in Hi as (b & ((d' & Hd' & Hb) & Hst & _) & _).
    assert (d' = d) as -> by congruence. destruct (revoke_effect _ d (later (mkAuthorizer (a_manager (later s w0))
      (mk (<[key d := a]> (access (a_store s))) (<[key rd := RefreshTokenRecord.create rd f 0 context now
        (now + TokenPolicy.refreshLifetime policy)]> (refresh (a_store s))))) w1) Hd) as (t & w' & E).
    rewrite E in Hb. cbn [snd a_store later] in Hb. unfold InMemoryTokenRepository.revokeToken in Hb. cbn in Hb.
    rewrite lookup_insert_eq in Hb. simpl in Hb. rewrite lookup_insert_eq in Hb. injection Hb as <-.
    pose proof (revoke_access_spec t a) as [_ E2]. congruence.
Qed.

(** The record of a grant without a refresh token. *)
Lemma storeMachineToken_ok context s grant s' :
  storeMachineToken tokenKey policy context s = (Ok grant, s') ->
  exists f d now w, digest tokenKey (MachineTokenGrant.accessToken grant) = Ok d /\
    MachineTokenGrant.context grant = context now /\ access (a_store s) !! key d = None /\
    s' = mkAuthorizer (a_manager (later s w))
      (mk (<[key d := AccessTokenRecord.create d f (context now) now (now + TokenPolicy.accessLifetime policy)]>
             (access (a_store s))) (refresh (a_store s))).
Proof.
  unfold storeMachineToken. intros Hrun. apply attempt2_ok in Hrun as (f & s1 & a & s2 & Hf & Ha & Hrun).
  apply on_world_later in Hf as (w1 & _ & ->). apply on_world_later in Ha as (w2 & _ & ->). cbv zeta in Hrun.
  apply prog_bind_ok in Hrun as (d & s4 & [Hd ->]%lift_ok & Hrun).
  apply prog_bind_ok in Hrun as (t & s4 & Ht & Hrun). apply on_world_later in Ht as (w3 & _ & ->).
  apply prog_bind_ok in Hrun as ([] & s4 & Hst & Hrun). injection Hrun as <- <-.
  apply zoom_eq in Hst as (r & Hst & ->). cbn [a_store later tr_storeAccessOnly InMemoryTokenRepository.repository] in Hst.
  exists (mkId f), d, t, w3. split_and!; try done; cbn [a_manager a_store later].
  all: match type of Hst with InMemoryTokenRepository.storeAccessOnly ?a ?m = _ =>
         destruct (storeAccessOnly_cases a m) as [(E & Hn)|[Hno _]]; [|by rewrite Hst in Hno] end; try done.
  rewrite E in Hst. by injection Hst as <-.
Qed.

(** C30: token exchange never widens. When [issueTokenExchange] succeeds, the
    subject token was alive and bound to the presenting client and the same
    sender constraint; the new token keeps its identity, provider, assurance,
    strength and authentication time, and permits no scope and no audience that
    the subject token did not permit. *)
Theorem exchange_never_widens clientId subjectToken audience scopes constraint s grant s' :
  issueTokenExchange tokenKey policy clientId subjectToken audience scopes constraint s = (Ok grant, s') ->
  exists source, opens s subjectToken source /\
    let old := AccessTokenRecord.context source in let new := MachineTokenGrant.context grant in
    TokenContext.client old = clientId /\ TokenContext.client new = clientId /\
    TokenContext.senderConstraint old = constraint /\ TokenContext.senderConstraint new = constraint /\
    TokenContext.identity new = TokenContext.identity old /\ TokenContext.provider new = TokenContext.provider old /\
    TokenContext.assurance new = TokenContext.assurance old /\ TokenContext.strength new = TokenContext.strength old /\
    TokenContext.authenticatedAt new = TokenContext.authenticatedAt old /\
    (forall scope, TokenContext.permits new scope = true -> TokenContext.permits old scope = true) /\
    (forall a, TokenContext.permitsAudience new a = true -> TokenContext.permitsAudience old a = true).
Proof.
  unfold issueTokenExchange. intros (claims & s1 & (a & Ha & -> & ->)%introspect_ok & Hrun)%prog_bind_ok.
  exists a. split; [done|]. cbn [TokenClaims.context claims_of] in Hrun. cbv zeta in Hrun |- *.
  branch Hrun Hcl; [done|]. branch Hrun Hcon; [done|]. branch Hrun Haud; [done|]. branch Hrun Hsc; [done|].
  rewrite sameConstraint_spec in Hcon. bool_prop.
  apply storeMachineToken_ok in Hrun as (f & d & now & w & _ & -> & _). rewrite forallb_forall in Hsc.
  split_and!; try done.
  - intros scope. rewrite context_permits, bool_decide_eq_true. intros [->|Hin]; [done|].
    by apply Hsc, list_elem_of_In.
  - intros a'. rewrite context_permits_audience, bool_decide_eq_true. intros [->|Hin]; [done|].
    by apply list_elem_of_singleton in Hin as ->.
Qed.

(** ** Rotation *)

Lemma later_later s w w' : later (later s w) w' = later s w'.
Proof. done. Qed.

Lemma on_world_still {B} (m : prog world Error B) s : a_store (on_world m s).2 = a_store s.
Proof. unfold on_world, zoom. by destruct (m _). Qed.

Lemma attempt_world_still {B} (m : prog world Error B) s : a_store (attempt (on_world m) s).2 = a_store s.
Proof.
  pose proof (on_world_still m s) as H. unfold attempt. by destruct (on_world m s) as [[] ?].
Qed.

(** The replacements a rotation of [current] brings. *)
Definition next_access (current : RefreshTokenRecord.t) ad now : AccessTokenRecord.t :=
  AccessTokenRecord.create ad (RefreshTokenRecord.family current) (RefreshTokenRecord.context current) now
    (now + TokenPolicy.accessLifetime policy).
Definition next_refresh (current : RefreshTokenRecord.t) rd now : RefreshTokenRecord.t :=
  RefreshTokenRecord.create rd (RefreshTokenRecord.family current) (u64 (RefreshTokenRecord.sequence current + 1))
    (RefreshTokenRecord.context current) now (RefreshTokenRecord.expiresAt current).

Lemma makeRotation_effect current s r s' :
  makeRotation tokenKey policy current s = (r, s') ->
  (is_ok r = false /\ a_store s' = a_store s) \/
  exists ad rd now,
    let rotated := InMemoryTokenRepository.rotateRefresh (RefreshTokenRecord.digest current) now
      (next_access current ad now) (next_refresh current rd now) (a_store s) in
    a_store s' = rotated.2 /\ is_ok r = is_ok rotated.1 /\
    forall grant, r = Ok grant ->
      digest tokenKey (TokenGrant.accessToken grant) = Ok ad /\
      digest tokenKey (TokenGrant.refreshToken grant) = Ok rd /\
      TokenGrant.context grant = RefreshTokenRecord.context current.
Proof.
  unfold makeRotation. intros Hrun.
  pose proof (attempt_world_still (randomTokenBase64Url 32) s) as E1.
  apply prog_bind_inv in Hrun as [(x & s1 & Hx & Hrun)|(Hr & _ & ->)]; [rewrite Hx in E1; cbn [snd] in E1|by left].
  pose proof (attempt_world_still (randomTokenBase64Url 32) s1) as E2.
  apply prog_bind_inv in Hrun as [(y & s2 & Hy & Hrun)|(Hr & _ & ->)]; [rewrite Hy in E2|left; split; [done|congruence]].
  cbn [snd] in E1, E2.
  apply prog_bind_inv in Hrun as [(a & s3 & [-> ->]%lift_ok & Hrun)|(Hr & _ & ->)]; [|left; split; [done|simpl; congruence]].
  apply prog_bind_inv in Hrun as [(b & s3 & [-> ->]%lift_ok & Hrun)|(Hr & _ & ->)]; [|left; split; [done|simpl; congruence]].
  cbv zeta in Hrun.
  apply prog_bind_inv in Hrun as [(ad & s3 & [Had ->]%lift_ok & Hrun)|(Hr & _ & ->)]; [|left; split; [done|simpl; congruence]].
  apply prog_bind_inv in Hrun as [(rd & s3 & [Hrd ->]%lift_ok & Hrun)|(Hr & _ & ->)]; [|left; split; [done|simpl; congruence]].
  destruct (now_run s2) as (t & w & _ & Hn). rewrite (bind_run _ _ _ _ _ Hn) in Hrun.
  right. exists ad, rd, t. cbv zeta.
  assert (Hst : forall m : prog InMemoryTokenRepository.t Error unit, on_store (C:=C) (A:=A) m (later s2 w)
    = ((m (a_store s)).1, mkAuthorizer (a_manager (later s2 w)) (m (a_store s)).2)).
  { intros m. unfold on_store, zoom. cbn [a_store later]. rewrite E2, E1. by destruct (m (a_store s)). }
  unfold mbind, prog_bind in Hrun. rewrite Hst in Hrun. cbn [tr_rotateRefresh InMemoryTokenRepository.repository] in Hrun.
  fold (next_access current ad t) in Hrun. fold (next_refresh current rd t) in Hrun.
  destruct (InMemoryTokenRepository.rotateRefresh _ _ _ _ _) as [[[]|e|] st]; injection Hrun as <- <-; simpl;
    (split; [done|split; [done|]]); [|done..]. by intros grant [= <-].
Qed.

Lemma refresh_effect clientId token constraint s r s' :
  TokenService.refresh tokenKey policy clientId token constraint s = (r, s') ->
  (is_ok r = false /\ a_store s' = a_store s) \/
  exists d current client, digest tokenKey token = Ok d /\ refresh (a_store s) !! key d = Some current /\
    usable_client (a_manager s) clientId client /\
    TokenContext.client (RefreshTokenRecord.context current) = clientId /\
    TokenContext.senderConstraint (RefreshTokenRecord.context current) = constraint /\
    makeRotation tokenKey policy current s = (r, s').
Proof.
  unfold TokenService.refresh. intros Hrun.
  apply prog_bind_inv in Hrun as [(c & s1 & [= Hc <-] & Hrun)|(Hr & _ & ->)]; [|by left]. apply client_requireActive_ok in Hc.
  apply prog_bind_inv in Hrun as [(d & s1 & [Hd ->]%lift_ok & Hrun)|(Hr & _ & ->)]; [|by left].
  apply prog_bind_inv in Hrun as [(x & s1 & [= Hx <-] & Hrun)|(Hr & _ & ->)]; [|by left].
  branch Hrun Hcl; [left; by injection Hrun as <- <-|]. branch Hrun Hcon; [left; by injection Hrun as <- <-|].
  rewrite sameConstraint_spec in Hcon. bool_prop. right. exists d, x, c. split_and!; try done.
  unfold InMemoryTokenRepository.findRefresh in Hx. destruct (refresh (a_store s) !! key d); naive_solver.
Qed.

(** A refresh token is used once. When [refresh] succeeds, the presented
    token was active and unexpired, held by the usable client under the same
    sender constraint; the new refresh token continues its family with the same
    context, the next sequence number and the same expiry, so the family's
    deadline never moves; the new access token has the policy's lifetime; and
    the presented token refreshes nothing any more, for anyone, at any time. *)
Theorem refresh_rotates_once clientId token constraint s grant s1 :
  keyed (a_store s) ->
  TokenService.refresh tokenKey policy clientId token constraint s = (Ok grant, s1) ->
  exists d current ad rd now client,
    digest tokenKey token = Ok d /\ refresh (a_store s) !! key d = Some current /\
    RefreshTokenRecord.usableAt current now = true /\
    usable_client (a_manager s) clientId client /\
    TokenContext.client (RefreshTokenRecord.context current) = clientId /\
    TokenContext.senderConstraint (RefreshTokenRecord.context current) = constraint /\
    digest tokenKey (TokenGrant.accessToken grant) = Ok ad /\ digest tokenKey (TokenGrant.refreshToken grant) = Ok rd /\
    access (a_store s1) !! key ad = Some (next_access current ad now) /\
    refresh (a_store s1) !! key rd = Some (next_refresh current rd now) /\
    refresh (a_store s1) !! key d = Some (RefreshTokenRecord.set current RefreshTokenState.Used now) /\
    forall other constraint' w,
      is_ok (TokenService.refresh tokenKey policy other token constraint' (later s1 w)).1 = false.
Proof.
  intros Hkeyed [[Hno _]|(d & current & client & Hd & Hf & Hu & Hcl & Hcon & Hrun)]%refresh_effect; [done|].
  apply makeRotation_effect in Hrun as [[Hno _]|(ad & rd & now & Hst & Hok & Hg)]; [done|].
  destruct (Hg grant eq_refl) as (Had & Hrd & _). revert Hst Hok. cbv zeta.
  destruct (rotateRefresh_cases (RefreshTokenRecord.digest current) now (next_access current ad now)
    (next_refresh current rd now) (a_store s)) as [e|e found Hf' Hu'|found Hf' Hs Ht _ _ _ Hna Hnx]; [done|done|].
  cbn [fst snd]. intros Hst _.
  rewrite (Hkeyed _ _ Hf), Hf in Hf'. injection Hf' as <-. rewrite (Hkeyed _ _ Hf) in Hst.
  change (AccessTokenRecord.digest (next_access current ad now)) with ad in *.
  change (RefreshTokenRecord.digest (next_refresh current rd now)) with rd in *.
  assert (Hne : key rd <> key d) by (intros E; congruence).
  exists d, current, ad, rd, now, client. rewrite Hst. cbn [access refresh]. split_and!; try done.
  - unfold RefreshTokenRecord.usableAt. rewrite bool_decide_eq_true_2, (proj2 (Z.ltb_lt _ _) Ht) by done. done.
  - by rewrite lookup_insert_eq.
  - by rewrite lookup_insert_eq.
  - rewrite lookup_insert_ne by done. by rewrite lookup_insert_eq.
  - intros other constraint' w.
    destruct (TokenService.refresh tokenKey policy other token constraint' (later s1 w)) as [r s2] eqn:Hrun2.
    apply refresh_effect in Hrun2 as [[Hno _]|(d2 & current2 & client2 & Hd2 & Hf2 & _ & _ & _ & Hrun2)]; [done|].
    assert (d2 = d) as -> by congruence. cbn [a_store later] in Hf2. rewrite Hst in Hf2. cbn [refresh] in Hf2.
    rewrite lookup_insert_ne, lookup_insert_eq in Hf2 by done. injection Hf2 as <-.
    cbn [fst]. apply makeRotation_effect in Hrun2 as [[Hno _]|(ad2 & rd2 & now2 & _ & -> & _)]; [done|]. cbn [a_store later]. rewrite Hst.
    change (RefreshTokenRecord.digest (RefreshTokenRecord.set current _ now)) with (RefreshTokenRecord.digest current).
    unfold InMemoryTokenRepository.rotateRefresh. rewrite (Hkeyed _ _ Hf). cbn [refresh].
    by rewrite lookup_insert_ne, lookup_insert_eq by done.
Qed.

(** ** The deadline of a family *)

Inductive token_call :=
| CallRefresh (clientId : ClientId) (token : string) (constraint : option SenderConstraint.t)
| CallRevoke (token : string)
| CallRevokeForClient (clientId : ClientId) (token : string)
| CallIntrospect (token : string)
| CallDelegated (token : string).

Definition run_token_call (c : token_call) : prog state Error unit :=
  match c with
  | CallRefresh clientId token constraint => ignore (TokenService.refresh tokenKey policy clientId token constraint)
  | CallRevoke token => revoke tokenKey token
  | CallRevokeForClient clientId token => revokeForClient tokenKey clientId token
  | CallIntrospect token => ignore (introspect tokenKey token)
  | CallDelegated token => ignore (authenticateDelegated tokenKey token)
  end.

(** Calls at any times, of any callers. *)
Definition run_token_calls (calls : list (world * token_call)) s : state :=
  foldl (fun s '(w, c) => (run_token_call c (later s w)).2) s calls.

(** No token of the family outlives the deadline by more than an access
    token's lifetime. *)
Definition family_within (f : TokenFamilyId) (deadline : Instant) (r : InMemoryTokenRepository.t) : Prop :=
  (forall k a, access r !! k = Some a -> AccessTokenRecord.family a = f ->
     AccessTokenRecord.expiresAt a <= deadline + TokenPolicy.accessLifetime policy) /\
  (forall k x, refresh r !! k = Some x -> RefreshTokenRecord.family x = f -> RefreshTokenRecord.expiresAt x <= deadline).

Definition keeps_deadline f deadline (r r' : InMemoryTokenRepository.t) : Prop :=
  family_within f deadline r -> family_within f deadline r'.

#[local] Instance keeps_deadline_preorder f deadline : PreOrder (keeps_deadline f deadline).
Proof. split; [by intros r Hr|]. intros r1 r2 r3 H1 H2 H. by apply H2, H1. Qed.

Lemma within_revokeEach f deadline g now r : keeps_deadline f deadline r (revokeEach g now r).
Proof.
  intros [H1 H2]. split; intros k y; simpl; rewrite lookup_fmap.
  - destruct (access r !! k) as [a|] eqn:Ha; simpl; [|done]. intros [= <-]. specialize (H1 k a Ha).
    case_bool_decide; [|exact H1]. unfold AccessTokenRecord.revoke. case_bool_decide; exact H1.
  - destruct (refresh r !! k) as [x|] eqn:Hx; simpl; [|done]. intros [= <-]. specialize (H2 k x Hx).
    case_bool_decide; [|exact H2]. unfold RefreshTokenRecord.revoke. case_bool_decide; exact H2.
Qed.

Lemma within_revokeToken f deadline d now r :
  keeps_deadline f deadline r (InMemoryTokenRepository.revokeToken d now r).2.
Proof.
  unfold InMemoryTokenRepository.revokeToken. destruct (access r !! key d) as [a|] eqn:Ha; simpl.
  - intros [H1 H2]. split; simpl; [|done]. intros k b. rewrite lookup_insert. case_decide; [|apply H1].
    intros [= <-]. specialize (H1 _ _ Ha). unfold AccessTokenRecord.revoke. case_bool_decide; exact H1.
  - destruct (refresh r !! key d); simpl; [apply within_revokeEach|done].
Qed.

Lemma within_rotation f deadline current ad rd now (r : InMemoryTokenRepository.t) k0 :
  refresh r !! k0 = Some current ->
  keeps_deadline f deadline r (InMemoryTokenRepository.rotateRefresh (RefreshTokenRecord.digest current) now
    (next_access current ad now) (next_refresh current rd now) r).2.
Proof.
  intros Hcur. destruct (rotateRefresh_cases (RefreshTokenRecord.digest current) now (next_access current ad now)
    (next_refresh current rd now) r) as [e|e found Hf Hu|found Hf Hs Ht Hfam _ _ _ _]; simpl; [done|apply within_revokeEach|].
  intros [H1 H2]. change (RefreshTokenRecord.family current = RefreshTokenRecord.family found) in Hfam.
  split; intros k y; simpl; rewrite lookup_insert.
  - case_decide; [|apply H1]. intros [= <-] Hy. simpl in *.
    specialize (H2 _ _ Hf ltac:(congruence)). lia.
  - case_decide; [intros [= <-] Hy; simpl in *; by apply (H2 _ _ Hcur)|]. rewrite lookup_insert.
    case_decide; [|apply H2]. intros [= <-]. simpl. by apply (H2 _ _ Hf).
Qed.

Lemma introspect_still token s : a_store (introspect tokenKey token s).2 = a_store s.
Proof. by destruct (introspect_effect token s) as (r & w & [->| ->]). Qed.

Lemma revoke_keeps f deadline d s :
  keeps_deadline f deadline (a_store s)
    (a_store ((now ← on_world now; on_store (tr_revokeToken d now)) s).2).
Proof.
  destruct (now_run s) as (t & w & _ & Hn). rewrite (bind_run _ _ _ _ _ Hn). unfold on_store, zoom. cbn [a_store later].
  pose proof (within_revokeToken f deadline d t (a_store s)) as H.
  cbn [tr_revokeToken InMemoryTokenRepository.repository]. by destruct (InMemoryTokenRepository.revokeToken d t _).
Qed.

Lemma ignore_still {B} (m : prog state Error B) s : (ignore m s).2 = (m s).2.
Proof. unfold ignore. by destruct (m s) as [[] ?]. Qed.

Lemma attempt_ask_run {B D} (q : state -> Result B) (m : Result B -> prog state Error D) s :
  q s <> Aborted -> (r ← attempt (ask q); m r) s = m (q s) s.
Proof. intros Hq. unfold mbind, prog_bind, attempt, ask. by destruct (q s). Qed.

Lemma token_call_keeps f deadline c s : keeps_deadline f deadline (a_store s) (a_store (run_token_call c s).2).
Proof.
  destruct c as [clientId token constraint|token|clientId token|token|token]; simpl; rewrite ?ignore_still.
  - destruct (TokenService.refresh _ _ _ _ _ s) as [r s'] eqn:Hrun.
    cbn [snd]. apply refresh_effect in Hrun as [[_ ->]|(d & current & c & _ & Hf & _ & _ & _ & Hrun)]; [done|].
    apply makeRotation_effect in Hrun as [[_ ->]|(ad & rd & now & -> & _)]; [done|]. by eapply within_rotation.
  - unfold revoke. destruct (digest tokenKey token); [apply revoke_keeps|done..].
  - unfold revokeForClient. destruct (digest tokenKey token) as [d|e|]; [|done..].
    rewrite (attempt_ask_run (fun s => tr_findAccess (a_store s) d)) by (by unfold heldBy; cbn; unfold
      InMemoryTokenRepository.findAccess; case_match).
    case_match; [apply revoke_keeps|].
    rewrite (attempt_ask_run (fun s => tr_findRefresh (a_store s) d)) by (by cbn; unfold
      InMemoryTokenRepository.findRefresh; case_match).
    case_match; [apply revoke_keeps|done].
  - by rewrite introspect_still.
  - unfold authenticateDelegated. pose proof (introspect_still token s) as E. unfold mbind, prog_bind at 1.
    destruct (introspect tokenKey token s) as [[claims|e|] s1]; cbn [snd] in E; [|simpl; by rewrite E..].
    destruct (now_run s1) as (t & w & _ & Hn). unfold prog_bind at 1. rewrite Hn.
    unfold prog_bind, lift. destruct (AuthenticatedSession.fromDelegatedAccess _ _ _ _ _ _ _); simpl; by rewrite E.
Qed.

(** A family dies. The tokens of a family that [issue] opened all expire,
    however often and however late it is refreshed: after any calls of the
    service that continue or end families, each access token of the family
    expires no later than the refresh and the access lifetime after the issue,
    and each refresh token no later than the refresh lifetime. *)
Theorem family_deadline_is_fixed al rl authorization constraint s grant s1 calls :
  TokenPolicy.create al rl = Ok policy ->
  issue tokenKey policy authorization constraint s = (Ok grant, s1) ->
  exists f issued d a,
    digest tokenKey (TokenGrant.accessToken grant) = Ok d /\ access (a_store s1) !! key d = Some a /\
    AccessTokenRecord.family a = f /\ AccessTokenRecord.issuedAt a = issued /\
    ((forall k b, access (a_store s) !! k = Some b -> AccessTokenRecord.family b <> f) ->
     (forall k x, refresh (a_store s) !! k = Some x -> RefreshTokenRecord.family x <> f) ->
     family_within f (issued + TokenPolicy.refreshLifetime policy) (a_store (run_token_calls calls s1))).
Proof.
  intros Hpol (c & f & d & rd & now & w0 & _ & Hd & _ & _ & _ & _ & ->)%makeInitial_ok.
  set (context := TokenContext.create _ _ _ _ _ _ _ _ _) in *. set (deadline := now + TokenPolicy.refreshLifetime policy).
  exists f, now, d, (AccessTokenRecord.create d f context now (now + TokenPolicy.accessLifetime policy)). cbn [a_store].
  split_and!; try done; [apply lookup_insert_eq|]. intros Ha Hx. fold deadline.
  assert (Hkeeps : forall s0, keeps_deadline f deadline (a_store s0) (a_store (run_token_calls calls s0))).
  { induction calls as [|[w call] calls IH]; intros s0; simpl; [done|].
    etrans; [|apply IH]. apply (token_call_keeps f deadline call (later s0 w)). }
  apply Hkeeps. cbn [a_store]. split; intros k y; simpl; rewrite lookup_insert; case_decide.
  - intros [= <-] _. simpl. unfold TokenPolicy.create in Hpol. destruct (_ || _) eqn:G in Hpol; [done|]. bool_prop.
    injection Hpol as <-. simpl in *. unfold deadline. simpl. lia.
  - intros Hy Hf. by destruct (Ha _ _ Hy).
  - intros [= <-] _. simpl. done.
  - intros Hy Hf. by destruct (Hx _ _ Hy).
Qed.
End token_service.

(** ** The tokens of Alice's authorization *)

Module TokenWitnesses.
Import TestPlatform TokenService ClientWitnesses.
Import InMemoryTokenRepository(access, refresh, key, empty).

Definition token_key : TokenKey.t := TokenKey.mk "00112233445566778899aabbccddeeff".
Definition policy : TokenPolicy.t := TokenPolicy.mk 600000 86400000.
Definition subject : RedeemedAuthorization.t :=
  RedeemedAuthorization.mk (AuthorizationCode.mk [] server_id (mkId "alice") "https://shop.example/callback"
    [Scope.mk "email"; Scope.mk "openid"] AuthorizationWitnesses.challenge None (Some "https://orders.example")
    (mkId "google") Ial1 (AuthenticationStrength.mk Possession false) 100 110 60110).

Abbreviation token_state := (authorizer InMemoryClientRepository.t InMemoryApplicationRepository.t
  InMemoryTokenRepository.t world).
Definition before : token_state := mkAuthorizer registration.2 empty.
Definition issuing := issue token_key policy subject None before.
Definition no_context : TokenContext.t :=
  TokenContext.mk (mkId "") (mkId "") (mkId "") Ial0 AuthenticationStrength.none [] [] None 0.
Definition issued : TokenGrant.t := match issuing.1 with Ok g => g | _ => TokenGrant.mk "" "" 0 no_context end.
Definition refreshing :=
  TokenService.refresh token_key policy server_id (TokenGrant.refreshToken issued) None (later issuing.2 50000).
Definition refreshed : TokenGrant.t := match refreshing.1 with Ok g => g | _ => TokenGrant.mk "" "" 0 no_context end.
Definition exchanging :=
  issueTokenExchange token_key policy server_id (TokenGrant.accessToken issued) "https://orders.example" ["openid"] None
    (later issuing.2 50000).
Definition exchanged : MachineTokenGrant.t :=
  match exchanging.1 with Ok g => g | _ => MachineTokenGrant.mk "" 0 no_context end.

Lemma issued_shop_usable w : usable_client (a_manager (later issuing.2 w)) server_id (ClientRegistration.client server).
Proof.
  split; [vm_compute; reflexivity|]. split; [vm_compute; reflexivity|].
  exists shop. split; vm_compute; reflexivity.
Qed.

Lemma issued_token_introspects_witness : exists d a,
  access (a_store issuing.2) !! key d = Some a /\
  ((clock_now (Platform:=test) 50000).1 < AccessTokenRecord.expiresAt a ->
   (introspect token_key (TokenGrant.accessToken issued) (later issuing.2 50000)).1 = Ok (claims_of a)).
Proof.
  edestruct (issued_token_introspects token_key policy subject None before issued issuing.2 50000
               (ClientRegistration.client server)) as (d & a & _ & Ha & _ & _ & Hi & _).
  - apply run_as. vm_compute. reflexivity.
  - apply issued_shop_usable.
  - exists d, a. split; [exact Ha|exact Hi].
Defined.

Lemma exchange_never_widens_witness : exists source,
  opens token_key (later issuing.2 50000) (TokenGrant.accessToken issued) source.
Proof.
  edestruct (exchange_never_widens token_key policy server_id (TokenGrant.accessToken issued) "https://orders.example"
               ["openid"] None (later issuing.2 50000) exchanged exchanging.2) as (source & Ho & _); [|by exists source].
  apply run_as. vm_compute. reflexivity.
Defined.

Lemma tokens_keyed_empty : keyed empty.
Proof. intros k x Hx. cbn in Hx. by rewrite lookup_empty in Hx. Qed.

Lemma issued_keyed w : keyed (a_store (later issuing.2 w)).
Proof.
  edestruct (makeInitial_ok token_key policy) as (c & f & ad & rd & now & w0 & _ & _ & _ & _ & _ & _ & E).
  - apply (run_as (issue token_key policy subject None before) (Ok issued)). vm_compute. reflexivity.
  - change (keyed (a_store issuing.2)). unfold issuing. rewrite E. cbn [a_store].
    apply tokens_keyed_insert; [|done]. intros k x Hx. cbn in Hx. by rewrite lookup_empty in Hx.
Qed.

Lemma refresh_rotates_once_witness :
  is_ok (TokenService.refresh token_key policy server_id (TokenGrant.refreshToken issued) None
           (later refreshing.2 60000)).1 = false.
Proof.
  edestruct (refresh_rotates_once token_key policy server_id (TokenGrant.refreshToken issued) None
               (later issuing.2 50000) refreshed refreshing.2)
    as (d & current & ad & rd & now & client & _ & _ & _ & _ & _ & _ & _ & _ & _ & _ & _ & Honce).
  - apply issued_keyed.
  - apply run_as. vm_compute. reflexivity.
  - apply Honce.
Defined.

Lemma family_deadline_is_fixed_witness : exists f now,
  family_within policy f (now + 86400000)
    (a_store (run_token_calls token_key policy
       [(50000, CallRefresh server_id (TokenGrant.refreshToken issued) None)] issuing.2)).
Proof.
  edestruct (family_deadline_is_fixed token_key policy 600000 86400000 subject None before issued issuing.2
    [(50000, CallRefresh server_id (TokenGrant.refreshToken issued) None)]) as (f & now & d & a & _ & _ & _ & _ & H).
  - reflexivity.
  - apply run_as. vm_compute. reflexivity.
  - exists f, now. apply H; intros k x Hx; cbn in Hx; by rewrite lookup_empty in Hx.
Defined.

(** Replaying a refresh token: the replay fails, and the tokens of the first
    rotation die with it. *)
Example replay_kills_the_family :
  let replay := TokenService.refresh token_key policy server_id (TokenGrant.refreshToken issued) None
                  (later refreshing.2 60000) in
  is_ok (introspect token_key (TokenGrant.accessToken refreshed) (later refreshing.2 60000)).1 = true /\
  is_ok replay.1 = false /\
  is_ok (introspect token_key (TokenGrant.accessToken refreshed) replay.2).1 = false.
Proof. split; [|split]; vm_compute; reflexivity. Qed.

Definition spent : RefreshTokenRecord.t :=
  RefreshTokenRecord.mk [Byte.x01] (mkId "family") 0 no_context 0 1000 RefreshTokenState.Used (Some 5).
Definition sibling : AccessTokenRecord.t := AccessTokenRecord.create [Byte.x02] (mkId "family") no_context 0 600.

Lemma reuse_revokes_the_family_witness :
  all_revoked (mkId "family") (run_tokens [RevokeToken [Byte.x07] 9]
    (InMemoryTokenRepository.rotateRefresh [Byte.x01] 10 sibling spent
       (InMemoryTokenRepository.mk {[ key [Byte.x02] := sibling ]} {[ key [Byte.x01] := spent ]})).2).
Proof.
  apply (reuse_revokes_the_family [Byte.x01] 10 sibling spent
    (InMemoryTokenRepository.mk {[ key [Byte.x02] := sibling ]} {[ key [Byte.x01] := spent ]}) spent).
  - apply lookup_singleton_eq.
  - reflexivity.
  - constructor; [reflexivity|constructor].
Defined.
End TokenWitnesses.
