(* ===== verification/Pushed.v ===== *)
(** * openproof.oauth: pushed requests, request objects, proofs of possession

    Models [src/src/oauth/par.cpp], [jar.cpp] and [dpop.cpp]: authorization
    requests pushed ahead under a single-use URI, signed request objects with
    pinned client keys, and DPoP proofs; with the replay tables of
    [src/src/storage/postgres/postgres.cpp] that make the latter two single
    use. The verification of a signature is not modelled: it is a parameter. *)
From S2P Require Import Prelude Foundation Encoding Security Application Client Authorization.

(** ** Pushed authorization requests *)

Abbreviation PushedRequestDigest := Sha256Digest.

Module PushedAuthorizationRequest.
Record t := mk {
  digest : PushedRequestDigest;
  request : AuthorizationRequest.t;
  issuedAt : Instant;
  expiresAt : Instant;
}.

Definition restore (digest : PushedRequestDigest) (request : AuthorizationRequest.t)
    (issuedAt expiresAt : Instant) : Result t :=
  if expiresAt <=? issuedAt then fail InvalidArgument "PAR timestamps are invalid."
  else Ok (mk digest request issuedAt expiresAt).

Definition create (digest : PushedRequestDigest) (request : AuthorizationRequest.t)
    (issuedAt : Instant) (lifetime : Duration) : Result t :=
  if lifetime <=? 0 then fail InvalidArgument "PAR lifetime must be positive."
  else restore digest request issuedAt (issuedAt + lifetime).

Definition expiredAt (r : t) (now : Instant) : bool := expiresAt r <=? now.
End PushedAuthorizationRequest.

Class PushedAuthorizationRequestStore (T : Type) := {
  pas_add : PushedAuthorizationRequest.t -> prog T Error unit;
  pas_find : T -> PushedRequestDigest -> Instant -> Result PushedAuthorizationRequest.t;
  pas_consume : PushedRequestDigest -> ClientId -> Instant -> prog T Error PushedAuthorizationRequest.t;
}.

Definition invalidPushed {A} : Result A := fail AuthenticationFailed "The pushed authorization request is invalid.".

Module InMemoryPushedAuthorizationRequestStore.
Abbreviation t := (gmap string PushedAuthorizationRequest.t).

Definition key (digest : PushedRequestDigest) : string := toHex digest.

Definition add (request : PushedAuthorizationRequest.t) : prog t Error unit := fun requests =>
  if bool_decide (is_Some (requests !! key (PushedAuthorizationRequest.digest request))) then
    (failCode AlreadyExists, requests)
  else (ok, <[key (PushedAuthorizationRequest.digest request) := request]> requests).

Definition find (requests : t) (digest : PushedRequestDigest) (now : Instant)
    : Result PushedAuthorizationRequest.t :=
  match requests !! key digest with
  | None => failCode NotFound
  | Some found => if PushedAuthorizationRequest.expiredAt found now then failCode NotFound else Ok found
  end.

Definition consume (digest : PushedRequestDigest) (expectedClient : ClientId) (now : Instant)
    : prog t Error PushedAuthorizationRequest.t := fun requests =>
  match requests !! key digest with
  | None => (invalidPushed, requests)
  | Some found =>
      if PushedAuthorizationRequest.expiredAt found now
         || negb (bool_decide (AuthorizationRequest.clientId (PushedAuthorizationRequest.request found)
                               = expectedClient)) then (invalidPushed, requests)
      else (Ok found, delete (key digest) requests)
  end.

#[global] Instance store : PushedAuthorizationRequestStore t := {
  pas_add := add; pas_find := find; pas_consume := consume;
}.
End InMemoryPushedAuthorizationRequestStore.

Module PushedAuthorizationGrant.
Record t := mk { requestUri : string; expiresIn : Duration }.
End PushedAuthorizationGrant.

Module PushedAuthorizationService.
Section service.
Context `{Plat : Platform}.
Context {T : Type} `{!PushedAuthorizationRequestStore T}.
Context (m_lifetime : Duration).

Abbreviation handler B := (prog (with_world T world) Error B).

(** The constructor: a lifetime that is not positive ends the process. *)
Definition construct : Status := requireInvariant (0 <? m_lifetime).

Definition digest (requestUri : string) : Result PushedRequestDigest := sha256Text requestUri.

Definition push (request : AuthorizationRequest.t) : handler PushedAuthorizationGrant.t :=
  random ← in_world (randomTokenBase64Url 32);
  let requestUri := "urn:ietf:params:oauth:request_uri:opar_" +:+ random in
  fingerprint ← lift (digest requestUri);
  now ← in_world now;
  state ← lift (PushedAuthorizationRequest.create fingerprint request now m_lifetime);
  _ ← in_store (pas_add state);
  mret (PushedAuthorizationGrant.mk requestUri m_lifetime).

Definition find (requestUri : string) (expectedClient : ClientId) : handler AuthorizationRequest.t :=
  fingerprint ← lift (digest requestUri);
  now ← in_world now;
  found ← attempt (query (fun m => pas_find m fingerprint now));
  match found with
  | Ok found =>
      if negb (bool_decide (AuthorizationRequest.clientId (PushedAuthorizationRequest.request found)
                            = expectedClient)) then lift invalidPushed
      else mret (PushedAuthorizationRequest.request found)
  | _ => lift invalidPushed
  end.

Definition consume (requestUri : string) (expectedClient : ClientId) : handler AuthorizationRequest.t :=
  fingerprint ← lift (digest requestUri);
  now ← in_world now;
  consumed ← in_store (pas_consume fingerprint expectedClient now);
  mret (PushedAuthorizationRequest.request consumed).
End service.
End PushedAuthorizationService.

(** ** Replay tables *)

(** The contract of [DpopReplayStore], [JarReplayStore] and
    [MtlsForwardingReplayStore]: an identifier is consumed once until it
    expires. *)
Class ReplayStore (T : Type) := {
  rps_consume : string -> string -> Instant -> Instant -> prog T Error unit;
}.

Class ReplayStoreLaws (T : Type) `{ReplayStore T} := {
  (** What is remembered, and until when. *)
  rps_view : T -> string * string -> option Instant;
  rps_fresh s a b expiry now s' until :
    rps_consume a b expiry now s = (ok, s') -> rps_view s (a, b) = Some until -> until <= now;
  rps_stored s a b expiry now s' : rps_consume a b expiry now s = (ok, s') -> rps_view s' (a, b) = Some expiry;
  rps_kept s a b expiry now k until :
    rps_view s k = Some until -> now < until -> k <> (a, b) \/ is_ok (rps_consume a b expiry now s).1 = false ->
    rps_view (rps_consume a b expiry now s).2 k = Some until;
}.

(** One replay table of the PostgreSQL schema: the primary key is the pair. A
    call purges what has expired and inserts; a violated key rolls both back.
    The three methods differ in the table and in the message. *)
Module PostgresReplayTable.
Abbreviation t := (gmap (string * string) Instant).

Definition consume (message : string) (subject identifier : string) (expiresAt now : Instant)
    : prog t Error unit := fun rows =>
  let purged := filter (fun row => ~ row.2 <= now) rows in
  if bool_decide (is_Some (purged !! (subject, identifier))) then (fail AuthenticationFailed message, rows)
  else (ok, <[(subject, identifier) := expiresAt]> purged).

Definition consumeDpopReplay := consume "The DPoP proof was replayed.".
Definition consumeJarReplay := consume "The JAR request object was replayed.".
Definition consumeMtlsForwardingReplay := consume "The authenticated mTLS forwarding assertion was replayed.".

#[global] Instance dpop_store : ReplayStore t := { rps_consume := consumeDpopReplay }.

#[global] Program Instance dpop_laws : ReplayStoreLaws t := {| rps_view rows k := rows !! k |}.
Next Obligation.
  intros s a b expiry now s' until. cbn. unfold consumeDpopReplay, consume. case_bool_decide as H; [done|].
  intros _ Hu. apply eq_None_not_Some in H. apply map_lookup_filter_None in H as [H|H]; [congruence|].
  destruct (decide (until <= now)); [done|]. by destruct (H until).
Qed.
Next Obligation.
  intros s a b expiry now s'. cbn. unfold consumeDpopReplay, consume. case_bool_decide; [done|].
  intros [= <-]. by rewrite lookup_insert_eq.
Qed.
Next Obligation.
  intros s a b expiry now k until. cbn. unfold consumeDpopReplay, consume. intros Hk Ht.
  case_bool_decide; simpl; [done|]. intros [Hne|]; [|done]. rewrite lookup_insert_ne by congruence.
  apply map_lookup_filter_Some. split; [done|]. simpl. lia.
Qed.
End PostgresReplayTable.

(** ** DPoP proofs and request objects *)

Module DpopService.
Section service.
Context `{Plat : Platform}.
Context {T : Type} `{!ReplayStore T}.
Context (m_proofLifetime : Duration).

Definition clockSkew : Duration := seconds 60.

(** [consume], once the clock is read. *)
Definition consumeAt (now : Instant) (jwkThumbprint jwtId : string) (issuedAt : Instant) : prog T Error unit :=
  if (m_proofLifetime <=? 0) || (minutes 10 <? m_proofLifetime) || bool_decide (jwkThumbprint = "")
     || (128 <? String.length jwkThumbprint)%nat || bool_decide (jwtId = "") || (256 <? String.length jwtId)%nat
     || (now + clockSkew <? issuedAt) || (issuedAt + m_proofLifetime <? now) then
    throw (Error_ofMessage AuthenticationFailed "The DPoP proof is outside the accepted time window.")
  else rps_consume jwkThumbprint jwtId (issuedAt + m_proofLifetime + clockSkew) now.

Definition consume (jwkThumbprint jwtId : string) (issuedAt : Instant) : prog (with_world T world) Error unit :=
  now ← in_world now;
  in_store (consumeAt now jwkThumbprint jwtId issuedAt).
End service.
End DpopService.

Module ClientRequestSigningKey.
Record t := mk { clientId : ClientId; keyId : string; publicKeyPem : string; updatedAt : Instant }.

Definition create (clientId : ClientId) (keyId publicKeyPem : string) (updatedAt : Instant) : Result t :=
  if id_empty clientId || bool_decide (keyId = "") || (128 <? String.length keyId)%nat
     || bool_decide (publicKeyPem = "") || (16 * 1024 <? Z.of_nat (String.length publicKeyPem)) then
    fail InvalidArgument "The JAR signing key registration is invalid."
  else Ok (mk clientId keyId publicKeyPem updatedAt).
End ClientRequestSigningKey.

Class ClientRequestSigningKeyStore (T : Type) := {
  cks_save : ClientRequestSigningKey.t -> prog T Error unit;
  cks_find : T -> ClientId -> Result (option ClientRequestSigningKey.t);
  cks_remove : ClientId -> prog T Error unit;
}.

Module JarService.
Section service.
Context `{Plat : Platform}.
Context {T : Type} `{!ReplayStore T}.
Context {X : Type} `{!ClientRequestSigningKeyStore X}.
(** OpenSSL's checks: a public key for RS256, and a compact JWS under a key. *)
Context {VerifiedCompactJws : Type} (validateRs256PublicKey : string -> Status)
  (verifyRs256Jwt : string -> string -> Result VerifiedCompactJws).

Definition clockSkew : Duration := seconds 60.
Definition maximumLifetime : Duration := minutes 10.

Definition registerKey (clientId : ClientId) (keyId publicKeyPem : string) : prog (with_world X world) Error unit :=
  _ ← lift (validateRs256PublicKey publicKeyPem);
  now ← in_world now;
  key ← lift (ClientRequestSigningKey.create clientId keyId publicKeyPem now);
  in_store (cks_save key).

Definition removeKey (clientId : ClientId) : prog (with_world X world) Error unit := in_store (cks_remove clientId).

Definition key (keys : X) (clientId : ClientId) : Result ClientRequestSigningKey.t :=
  found ← cks_find keys clientId;
  match found with
  | None => fail FailedPrecondition "The OAuth client has no registered JAR signing key."
  | Some found => Ok found
  end.

Definition verify (keys : X) (clientId : ClientId) (compactJwt : string) : Result VerifiedCompactJws :=
  registered ← key keys clientId;
  verifyRs256Jwt (ClientRequestSigningKey.publicKeyPem registered) compactJwt.

(** [consumeReplay], once the clock is read. *)
Definition consumeReplayAt (now : Instant) (clientId : ClientId) (jwtId : string) (issuedAt expiresAt : Instant)
    : prog T Error unit :=
  if bool_decide (jwtId = "") || (256 <? String.length jwtId)%nat || (expiresAt <=? now)
     || (now + clockSkew <? issuedAt) || (issuedAt <? now - maximumLifetime)
     || (issuedAt + maximumLifetime <? expiresAt) then
    throw (Error_ofMessage AuthenticationFailed "The JAR temporal or replay claims are invalid.")
  else rps_consume (id_value clientId) jwtId expiresAt now.

Definition consumeReplay (clientId : ClientId) (jwtId : string) (issuedAt expiresAt : Instant)
    : prog (with_world T world) Error unit :=
  now ← in_world now;
  in_store (consumeReplayAt now clientId jwtId issuedAt expiresAt).
End service.
End JarService.

(** ** A pushed request is consumed once *)

Section pushed_requests.
Context `{Plat : Platform}.
Context (m_lifetime : Duration).

Import PushedAuthorizationService.
Import InMemoryPushedAuthorizationRequestStore(key, store).
Abbreviation state := (with_world InMemoryPushedAuthorizationRequestStore.t world).
Implicit Types s : state.

Lemma consume_run uri d client s t w :
  digest uri = Ok d -> clock_now (v_world s) = (t, w) ->
  consume uri client s
  = (PushedAuthorizationRequest.request <$> (pas_consume d client t (v_store s)).1,
     mkWith (pas_consume d client t (v_store s)).2 w).
Proof.
  intros Hd Ht. unfold consume, mbind, prog_bind, lift. rewrite Hd. unfold in_world, zoom, now. rewrite Ht.
  rewrite in_store_run. cbn [v_store v_world]. by destruct (pas_consume d client t _) as [[] ?].
Qed.

(** A pushed request comes back as it was pushed, once. While it lasts,
    the URI [push] returned leads its client to exactly the request that was
    pushed, any number of times by [find] and once by [consume]; no other
    client obtains it; and once it was consumed nobody obtains it any more. *)
Theorem pushed_request_round_trip request s grant s1 w :
  push m_lifetime request s = (Ok grant, s1) ->
  let uri := PushedAuthorizationGrant.requestUri grant in
  let client := AuthorizationRequest.clientId request in
  (forall other w', other <> client -> is_ok (consume uri other (moved s1 w')).1 = false) /\
  exists d pushed, digest uri = Ok d /\ v_store s1 !! key d = Some pushed /\
    PushedAuthorizationRequest.request pushed = request /\
    ((clock_now w).1 < PushedAuthorizationRequest.expiresAt pushed ->
     (find uri client (moved s1 w)).1 = Ok request /\
     (consume uri client (moved s1 w)).1 = Ok request /\
     forall other w', is_ok (consume uri other (moved (consume uri client (moved s1 w)).2 w')).1 = false /\
       is_ok (find uri other (moved (consume uri client (moved s1 w)).2 w')).1 = false).
Proof.
  unfold push. intros (g & s2 & Hg & Hrun)%prog_bind_ok. apply in_world_moved in Hg as (w1 & _ & ->). cbv zeta in Hrun.
  apply prog_bind_ok in Hrun as (d & s2 & [Hd ->]%lift_ok & Hrun).
  apply prog_bind_ok in Hrun as (t & s2 & Ht & Hrun). apply in_world_moved in Ht as (w2 & _ & ->).
  apply prog_bind_ok in Hrun as (pushed & s2 & [Hp ->]%lift_ok & Hrun).
  apply prog_bind_ok in Hrun as ([] & s2 & Hadd & Hrun). injection Hrun as <- <-.
  rewrite in_store_run in Hadd. cbn [PushedAuthorizationGrant.requestUri].
  assert (Hpd : PushedAuthorizationRequest.digest pushed = d /\ PushedAuthorizationRequest.request pushed = request).
  { unfold PushedAuthorizationRequest.create, PushedAuthorizationRequest.restore in Hp.
    destruct (_ <=? _); [done|]. destruct (_ <=? _); [done|]. by injection Hp as <-. }
  destruct Hpd as [Epd Epr]. cbn in Hadd. unfold InMemoryPushedAuthorizationRequestStore.add in Hadd.
  rewrite Epd in Hadd. case_bool_decide; [done|]. injection Hadd as <-. cbn [v_store moved].
  set (m := <[InMemoryPushedAuthorizationRequestStore.key d := pushed]> (v_store s)).
  assert (Hm : m !! key d = Some pushed) by apply lookup_insert_eq.
  set (uri := "urn:ietf:params:oauth:request_uri:opar_" +:+ g) in *. split.
  { intros other w' Hne. destruct (clock_now w') as [t' w2'] eqn:Hw. rewrite (consume_run uri d other _ t' w2') by done.
    cbn [v_store moved pas_consume store]. unfold InMemoryPushedAuthorizationRequestStore.consume. rewrite Hm.
    rewrite (bool_decide_eq_false_2 (_ = other)) by congruence. by rewrite orb_true_r. }
  exists d, pushed. split_and!; try done. intros Hlt. destruct (clock_now w) as [t0 w0] eqn:Hw. cbn [fst] in Hlt.
  assert (Hcons : InMemoryPushedAuthorizationRequestStore.consume d (AuthorizationRequest.clientId request) t0 m
    = (Ok pushed, delete (key d) m)).
  { unfold InMemoryPushedAuthorizationRequestStore.consume, PushedAuthorizationRequest.expiredAt.
    rewrite Hm, (proj2 (Z.leb_gt _ _) Hlt), bool_decide_eq_true_2 by congruence. done. }
  rewrite (consume_run uri d _ _ t0 w0) by done. cbn [v_store moved pas_consume store fst snd]. rewrite Hcons.
  cbn [fst snd v_store moved]. split; [|split; [by simpl; rewrite Epr|]].
  - unfold find, mbind, prog_bind, lift. rewrite Hd. unfold in_world, zoom, now. cbn [v_world moved]. rewrite Hw.
    unfold attempt, query. cbn [pas_find store v_store moved]. unfold InMemoryPushedAuthorizationRequestStore.find.
    rewrite Hm. unfold PushedAuthorizationRequest.expiredAt. rewrite (proj2 (Z.leb_gt _ _) Hlt).
    cbn. by rewrite Epr, bool_decide_eq_true_2.
  - intros other w'. destruct (clock_now w') as [t' w2'] eqn:Hw'. split.
    + rewrite (consume_run uri d other _ t' w2') by done. cbn [v_store moved pas_consume store].
      unfold InMemoryPushedAuthorizationRequestStore.consume. by rewrite lookup_delete_eq.
    + unfold find, mbind, prog_bind, lift. rewrite Hd. unfold in_world, zoom, now. cbn [v_world moved]. rewrite Hw'.
      unfold attempt, query. cbn [pas_find store v_store moved]. unfold InMemoryPushedAuthorizationRequestStore.find.
      by rewrite lookup_delete_eq.
Qed.
End pushed_requests.

(** ** Proofs and request objects are accepted once *)

Section replays.
Context {T : Type} `{!ReplayStore T, !ReplayStoreLaws T}.
Implicit Types s : T.

(** Presentations of any identifiers, at times that never go back. *)
Record presentation := mkPresentation { at_time : Instant; subject : string; identifier : string; until : Instant }.

Definition present (p : presentation) s : T :=
  (rps_consume (subject p) (identifier p) (until p) (at_time p) s).2.

Definition present_all (ps : list presentation) s : T := foldl (fun s p => present p s) s ps.

Lemma remembered ps s k e bound :
  rps_view s k = Some e -> bound < e -> Forall (fun p => at_time p <= bound) ps ->
  rps_view (present_all ps s) k = Some e.
Proof.
  revert s. induction ps as [|p ps IH]; intros s Hs Hb Hps; [done|]. apply Forall_cons in Hps as [Hp Hps]. simpl.
  apply IH; [|done|done]. unfold present. apply rps_kept; [done|lia|].
  destruct (decide (k = (subject p, identifier p))) as [->|]; [right|by left].
  destruct (rps_consume _ _ _ _ s) as [r s'] eqn:Hr. simpl.
  destruct r as [[]|e'|]; [|done..]. pose proof (rps_fresh _ _ _ _ _ _ _ Hr Hs). lia.
Qed.

(** A DPoP proof is accepted once. Once [consume] has accepted a proof, it
    refuses the same proof at every later time, whatever was presented in
    between: while the proof could still pass the time window, the replay store
    remembers its identifier. *)
Theorem dpop_proof_is_single_use lifetime now thumbprint jwtId issued s s1 ps now' :
  DpopService.consumeAt lifetime now thumbprint jwtId issued s = (ok, s1) ->
  Forall (fun p => at_time p <= now') ps ->
  is_ok (DpopService.consumeAt lifetime now' thumbprint jwtId issued (present_all ps s1)).1 = false.
Proof.
  unfold DpopService.consumeAt. intros Hfirst Hps. branch Hfirst G; [done|].
  match goal with |- context [if ?c then _ else _] => destruct c eqn:G' end; [done|]. bool_prop. apply not_true_is_false. intros ([] & Hagain)%is_ok_spec.
  apply rps_stored in Hfirst.
  assert (Hlt : now' < issued + lifetime + DpopService.clockSkew) by (unfold DpopService.clockSkew, seconds; lia).
  pose proof (remembered ps s1 _ _ now' Hfirst Hlt Hps) as Hm.
  destruct (rps_consume _ _ _ _ (present_all ps s1)) as [r s2] eqn:Hr. simpl in Hagain. subst r.
  pose proof (rps_fresh _ _ _ _ _ _ _ Hr Hm). lia.
Qed.

(** A request object is accepted once. Once [consumeReplay] has accepted
    the identifier of a client's request object, it refuses the same object at
    every later time, whatever was presented in between: until the object
    expires the store remembers it, and from then on the expiry refuses it. An
    object lives for ten minutes at most. *)
Theorem request_object_is_single_use now clientId jwtId issued expires s s1 ps now' :
  JarService.consumeReplayAt now clientId jwtId issued expires s = (ok, s1) ->
  Forall (fun p => at_time p <= now') ps ->
  expires <= issued + minutes 10 /\ now < expires /\
  is_ok (JarService.consumeReplayAt now' clientId jwtId issued expires (present_all ps s1)).1 = false.
Proof.
  unfold JarService.consumeReplayAt. intros Hfirst Hps. branch Hfirst G; [done|]. bool_prop.
  split; [unfold JarService.maximumLifetime in *; lia|]. split; [done|]. match goal with |- context [if ?c then _ else _] => destruct c eqn:G' end; [done|]. bool_prop.
  apply not_true_is_false. intros ([] & Hagain)%is_ok_spec. apply rps_stored in Hfirst.
  pose proof (remembered ps s1 _ _ now' Hfirst ltac:(done) Hps) as Hm.
  destruct (rps_consume _ _ _ _ (present_all ps s1)) as [r s2] eqn:Hr. simpl in Hagain. subst r.
  pose proof (rps_fresh _ _ _ _ _ _ _ Hr Hm). lia.
Qed.
End replays.

(** ** Concrete runs *)

Module PushedWitnesses.
Import TestPlatform PushedAuthorizationService AuthorizationWitnesses ClientWitnesses.

Definition before : with_world InMemoryPushedAuthorizationRequestStore.t world := mkWith ∅ 100.
Definition pushing := push 60000 request before.
Definition pushed_grant : PushedAuthorizationGrant.t :=
  match pushing.1 with Ok g => g | _ => PushedAuthorizationGrant.mk "" 0 end.

Lemma pushed_request_round_trip_witness :
  is_ok (consume (PushedAuthorizationGrant.requestUri pushed_grant) (mkId "opc_other") (moved pushing.2 5000)).1
  = false.
Proof.
  apply (pushed_request_round_trip 60000 request before pushed_grant pushing.2 5000); [|done].
  apply run_as. vm_compute. reflexivity.
Defined.

(** The first presentation of a proof, and everything that can follow. *)
Lemma dpop_proof_is_single_use_witness :
  is_ok (DpopService.consumeAt 60000 20000 "thumb" "jti" 1000
    (present_all [mkPresentation 15000 "thumb" "other" 90000]
       (DpopService.consumeAt (T:=PostgresReplayTable.t) 60000 10000 "thumb" "jti" 1000 ∅).2)).1 = false.
Proof.
  apply (dpop_proof_is_single_use 60000 10000 "thumb" "jti" 1000 ∅).
  - apply run_as. vm_compute. reflexivity.
  - constructor; [simpl; lia|constructor].
Defined.

Lemma request_object_is_single_use_witness :
  is_ok (JarService.consumeReplayAt 20000 server_id "jti" 1000 30000
    (present_all [] (JarService.consumeReplayAt (T:=PostgresReplayTable.t) 10000 server_id "jti" 1000 30000 ∅).2)).1
  = false.
Proof.
  apply (request_object_is_single_use 10000 server_id "jti" 1000 30000 ∅).
  - apply run_as. vm_compute. reflexivity.
  - constructor.
Defined.
End PushedWitnesses.
