(* ===== verification/Consent.v ===== *)
(** * openproof.consent: what a user allowed a client

    Models [src/src/consent/model.cpp], [repository.cpp] and [service.cpp]: a
    consent grant of one identity to one client for one audience, the
    repository that keeps at most one of them active, and the service. *)
From S2P Require Import Prelude Foundation Encoding Security IdentityCore Application Client Resource Authorization Pushed.

Inductive ConsentIdTag := .
Abbreviation ConsentId := (StrongId ConsentIdTag).

(** The loop over the scopes is that of the resource model. *)
Definition normalizeScopes (scopes : list string) : Result (list string) :=
  if bool_decide (scopes = []) || (256 <? length scopes)%nat then
    fail InvalidArgument "A consent grant must contain scopes."
  else _ ← scopesParse scopes; Ok (sort_unique scopes).

Module ConsentGrant.
Record t := mk {
  id : ConsentId;
  identity : IdentityId;
  client : ClientId;
  audience : string;
  scopes : list string;
  grantedAt : Instant;
  expiresAt : option Instant;
  revokedAt : option Instant;
}.

Definition restore (id : ConsentId) (identity : IdentityId) (clientId : ClientId) (audience : string)
    (scopes : list string) (grantedAt : Instant) (expiresAt revokedAt : option Instant) : Result t :=
  match normalizeScopes scopes with
  | Ok normalized =>
      let invalidExpiry := present_and (fun e => e <=? grantedAt) expiresAt in
      let invalidRevocation := present_and (fun r => r <? grantedAt) revokedAt in
      if id_empty id || id_empty identity || id_empty clientId || bool_decide (audience = "")
         || (2048 <? String.length audience)%nat || invalidExpiry || invalidRevocation then
        fail InvalidArgument "The consent grant is invalid."
      else Ok (mk id identity clientId audience normalized grantedAt expiresAt revokedAt)
  | _ => fail InvalidArgument "The consent grant is invalid."
  end.

Definition create (id : ConsentId) (identity : IdentityId) (clientId : ClientId) (audience : string)
    (scopes : list string) (grantedAt : Instant) (expiresAt : option Instant) : Result t :=
  restore id identity clientId audience scopes grantedAt expiresAt None.

Definition activeAt (g : t) (now : Instant) : bool :=
  bool_decide (revokedAt g = None) && negb (present_and (fun e => e <=? now) (expiresAt g)).

Definition covers (g : t) (wanted : list string) : bool := forallb (binary_search (scopes g)) wanted.

Definition revoke (now : Instant) (g : t) : t :=
  if bool_decide (revokedAt g = None) then
    mk (id g) (identity g) (client g) (audience g) (scopes g) (grantedAt g) (expiresAt g) (Some now)
  else g.
End ConsentGrant.

Class ConsentRepository (T : Type) := {
  cor_save : ConsentGrant.t -> prog T Error unit;
  cor_findActive : T -> IdentityId -> ClientId -> string -> Instant -> Result (option ConsentGrant.t);
  cor_list : T -> IdentityId -> Result (list ConsentGrant.t);
  cor_revoke : ConsentId -> IdentityId -> Instant -> prog T Error unit;
}.

(** Whose consent, to which client, for what. *)
Definition names (identity : IdentityId) (clientId : ClientId) (audience : string) (g : ConsentGrant.t) : bool :=
  bool_decide (ConsentGrant.identity g = identity) && bool_decide (ConsentGrant.client g = clientId)
  && bool_decide (ConsentGrant.audience g = audience).

Module InMemoryConsentRepository.
Abbreviation t := (gmap ConsentId ConsentGrant.t).

Definition save (grant : ConsentGrant.t) : prog t Error unit := fun grants =>
  let grants := (fun value =>
    if names (ConsentGrant.identity grant) (ConsentGrant.client grant) (ConsentGrant.audience grant) value
       && ConsentGrant.activeAt value (ConsentGrant.grantedAt grant)
    then ConsentGrant.revoke (ConsentGrant.grantedAt grant) value else value) <$> grants in
  (ok, <[ConsentGrant.id grant := grant]> grants).

Definition findActive (grants : t) (identity : IdentityId) (clientId : ClientId) (audience : string) (now : Instant)
    : Result (option ConsentGrant.t) :=
  Ok (head (filter (fun value => names identity clientId audience value && ConsentGrant.activeAt value now)
              (map_iter grants).*2)).

Definition list (grants : t) (identity : IdentityId) : Result (list ConsentGrant.t) :=
  Ok (filter (fun value => ConsentGrant.identity value = identity) (map_iter grants).*2).

Definition revoke (id : ConsentId) (identity : IdentityId) (now : Instant) : prog t Error unit := fun grants =>
  match grants !! id with
  | None => (failCode NotFound, grants)
  | Some found =>
      if negb (bool_decide (ConsentGrant.identity found = identity)) then (failCode PermissionDenied, grants)
      else (ok, <[id := ConsentGrant.revoke now found]> grants)
  end.

#[global] Instance repository : ConsentRepository t := {
  cor_save := save; cor_findActive := findActive; cor_list := list; cor_revoke := revoke;
}.
End InMemoryConsentRepository.

Module ConsentService.
Section service.
Context `{Plat : Platform}.
Context {T : Type} `{!ConsentRepository T}.

Abbreviation handler B := (prog (with_world T world) Error B).

Definition covers (identity : IdentityId) (clientId : ClientId) (audience : string) (scopes : list string)
    : handler bool :=
  now ← in_world now;
  found ← query (fun r => cor_findActive r identity clientId audience now);
  mret match found with Some found => ConsentGrant.covers found scopes | None => false end.

Definition grant (identity : IdentityId) (clientId : ClientId) (audience : string) (scopes : list string)
    (lifetime : option Duration) : handler ConsentGrant.t :=
  if present_and (fun lifetime => lifetime <=? 0) lifetime then throw (Error_ofCode InvalidArgument)
  else
    random ← in_world (randomTokenBase64Url 18);
    now ← in_world now;
    grant ← lift (ConsentGrant.create (mkId ("opcns_" +:+ random)) identity clientId audience scopes now
                    ((fun lifetime => now + lifetime) <$> lifetime));
    _ ← in_store (cor_save grant);
    mret grant.

Definition list (identity : IdentityId) : handler (Datatypes.list ConsentGrant.t) := query (fun r => cor_list r identity).

Definition active (grant : ConsentGrant.t) : handler bool :=
  now ← in_world now; mret (ConsentGrant.activeAt grant now).

Definition revoke (id : ConsentId) (identity : IdentityId) : handler unit :=
  now ← in_world now; in_store (cor_revoke id identity now).
End service.
End ConsentService.

(** ** One consent at a time *)

Section consents.
Import InMemoryConsentRepository.
Implicit Types (grants : t) (g : ConsentGrant.t).

Inductive consent_op :=
| SaveConsent (g : ConsentGrant.t)
| RevokeConsent (id : ConsentId) (identity : IdentityId) (now : Instant).

Definition consent_time (o : consent_op) : Instant :=
  match o with SaveConsent g => ConsentGrant.grantedAt g | RevokeConsent _ _ now => now end.

Definition consent_step (o : consent_op) grants : t :=
  match o with SaveConsent g => (save g grants).2 | RevokeConsent id identity now => (revoke id identity now grants).2 end.

Definition run_consents (ops : Datatypes.list consent_op) grants : t :=
  foldl (fun grants o => consent_step o grants) grants ops.

(** At a time, one consent at most is active for each name. *)
Definition exclusive_at (now : Instant) grants : Prop :=
  forall i j g h identity clientId audience,
    grants !! i = Some g -> grants !! j = Some h ->
    names identity clientId audience g = true -> names identity clientId audience h = true ->
    ConsentGrant.activeAt g now = true -> ConsentGrant.activeAt h now = true -> i = j.

(** Activity only ends. *)
Lemma active_before g now later :
  now <= later -> ConsentGrant.activeAt g later = true -> ConsentGrant.activeAt g now = true.
Proof.
  unfold ConsentGrant.activeAt. intros Hle. rewrite !andb_true_iff, !negb_true_iff. intros [? He]. split; [done|].
  destruct (ConsentGrant.expiresAt g); simpl in *; [|done]. lia.
Qed.

Lemma revoked_not_active now later g : ConsentGrant.activeAt (ConsentGrant.revoke now g) later = false.
Proof.
  unfold ConsentGrant.revoke. destruct (ConsentGrant.revokedAt g) as [r|] eqn:H; unfold ConsentGrant.activeAt; simpl;
    by rewrite ?H.
Qed.

Lemma revoke_names now g identity clientId audience :
  names identity clientId audience (ConsentGrant.revoke now g) = names identity clientId audience g.
Proof. unfold ConsentGrant.revoke. by case_bool_decide. Qed.

Lemma exclusive_later now later grants : now <= later -> exclusive_at now grants -> exclusive_at later grants.
Proof. intros Hle H i j g h identity clientId audience ???? Hg Hh.
  apply (H i j g h identity clientId audience); try done; by eapply active_before. Qed.

(** After a save, an older consent of the same name is not active any more. *)
Lemma save_retires g grants i h later :
  (save g grants).2 !! i = Some h -> i <> ConsentGrant.id g -> ConsentGrant.grantedAt g <= later ->
  names (ConsentGrant.identity g) (ConsentGrant.client g) (ConsentGrant.audience g) h = true ->
  ConsentGrant.activeAt h later = false.
Proof.
  simpl. intros Hi Hne Hle Hn. rewrite lookup_insert_ne in Hi by done. rewrite lookup_fmap in Hi.
  destruct (grants !! i) as [h0|]; simpl in Hi; [|done]. injection Hi as <-.
  destruct (names _ _ _ h0 && _) eqn:G; [apply revoked_not_active|].
  apply not_true_is_false. intros Ha. rewrite Hn in G. simpl in G.
  rewrite (active_before _ _ _ Hle Ha) in G. done.
Qed.

Lemma save_older g grants i h :
  (save g grants).2 !! i = Some h -> i <> ConsentGrant.id g -> exists h0, grants !! i = Some h0 /\
    (h = h0 \/ h = ConsentGrant.revoke (ConsentGrant.grantedAt g) h0).
Proof.
  simpl. intros Hi Hne. rewrite lookup_insert_ne in Hi by done. rewrite lookup_fmap in Hi.
  destruct (grants !! i) as [h0|]; simpl in Hi; [|done]. injection Hi as <-. exists h0. split; [done|].
  destruct (_ && _); auto.
Qed.

Lemma names_same identity clientId audience g h :
  names identity clientId audience g = true -> names identity clientId audience h = true ->
  names (ConsentGrant.identity g) (ConsentGrant.client g) (ConsentGrant.audience g) h = true.
Proof. unfold names. rewrite !andb_true_iff, !bool_decide_eq_true. intros [[-> ->] ->]. done. Qed.

Lemma exclusive_step o grants : exclusive_at (consent_time o) grants -> exclusive_at (consent_time o) (consent_step o grants).
Proof.
  intros He. destruct o as [g|id identity now]; cbn [consent_step consent_time] in *.
  - intros i j h1 h2 identity clientId audience Hi Hj Hn1 Hn2 Ha1 Ha2.
    destruct (decide (i = ConsentGrant.id g)) as [->|Hni], (decide (j = ConsentGrant.id g)) as [->|Hnj]; [done| | |].
    + simpl in Hi. rewrite lookup_insert_eq in Hi. injection Hi as <-.
      rewrite (save_retires _ _ _ _ (ConsentGrant.grantedAt g) Hj Hnj) in Ha2; [done|lia|by eapply names_same].
    + simpl in Hj. rewrite lookup_insert_eq in Hj. injection Hj as <-.
      rewrite (save_retires _ _ _ _ (ConsentGrant.grantedAt g) Hi Hni) in Ha1; [done|lia|by eapply names_same].
    + destruct (save_older _ _ _ _ Hi Hni) as (g1 & Hg1 & [->| ->]), (save_older _ _ _ _ Hj Hnj) as (g2 & Hg2 & [->| ->]);
        rewrite ?revoked_not_active in *; try done. by eapply He.
  - unfold revoke. destruct (grants !! id) as [f|] eqn:Hf; [|done]. destruct (negb _); simpl; [done|].
    intros i j g h ident clientId audience. rewrite !lookup_insert.
    case_decide as Ei; case_decide as Ej; try congruence; intros Hi Hj ?? Ha1 Ha2; simplify_eq;
      rewrite ?revoked_not_active in *; try done. by eapply He.
Qed.

(** Times of a history that never go back. *)
Fixpoint ordered_from (start : Instant) (ops : Datatypes.list consent_op) : Prop :=
  match ops with [] => True | o :: ops => start <= consent_time o /\ ordered_from (consent_time o) ops end.

Definition last_time (start : Instant) (ops : Datatypes.list consent_op) : Instant :=
  foldl (fun _ o => consent_time o) start ops.

(** One consent is active at a time. When the operations of a history come
    in the order of their times, then from the last one on at most one consent
    is active for an identity, a client and an audience; so the consent
    [findActive] answers with is the only one. *)
Theorem one_consent_is_active ops start now :
  ordered_from start ops -> last_time start ops <= now ->
  exclusive_at now (run_consents ops ∅) /\
  forall identity clientId audience i g,
    run_consents ops ∅ !! i = Some g -> names identity clientId audience g = true ->
    ConsentGrant.activeAt g now = true ->
    findActive (run_consents ops ∅) identity clientId audience now = Ok (Some g).
Proof.
  intros Hord Hlast.
  assert (Hex : exclusive_at now (run_consents ops ∅)).
  { apply (exclusive_later (last_time start ops)); [done|]. clear Hlast now.
    assert (Hstart : exclusive_at start (∅ : t)) by (intros i j g h ? ? ? Hi; by rewrite lookup_empty in Hi).
    revert start Hord Hstart. generalize (∅ : t). induction ops as [|o ops IH]; intros grants start Hord Hex; simpl; [done|].
    destruct Hord as [Hle Hord]. apply (IH _ (consent_time o)); [done|]. apply exclusive_step. by eapply exclusive_later. }
  split; [done|]. intros identity clientId audience i g Hi Hn Ha. unfold findActive. f_equal.
  set (P := fun value => names identity clientId audience value && ConsentGrant.activeAt value now).
  assert (Hin : g ∈ filter P (map_iter (run_consents ops ∅)).*2).
  { apply list_elem_of_filter. split; [unfold P; by rewrite Hn, Ha|]. apply list_elem_of_fmap.
    exists (i, g). split; [done|]. by apply elem_of_map_iter. }
  destruct (filter P _) as [|h l] eqn:Hl; [by apply elem_of_nil in Hin|]. simpl. f_equal.
  assert (Hh : h ∈ filter P (map_iter (run_consents ops ∅)).*2) by (rewrite Hl; apply list_elem_of_here).
  apply list_elem_of_filter in Hh as [HP Hh]. apply list_elem_of_fmap in Hh as ([j h'] & -> & Hj%elem_of_map_iter).
  unfold P in HP. simpl in *. apply Is_true_true, andb_true_iff in HP as [Hn' Ha'].
  assert (j = i) as -> by (by eapply Hex). congruence.
Qed.

(** Only its identity ends a consent, and it stays ended. [revoke]
    changes a consent exactly when it exists and belongs to the identity that
    asks; the consent is never active again, and every other consent is as
    before. *)
Theorem consent_revoked_by_its_owner id identity now grants :
  (is_ok (revoke id identity now grants).1 = true <->
   exists g, grants !! id = Some g /\ ConsentGrant.identity g = identity) /\
  (is_ok (revoke id identity now grants).1 = true -> forall g later,
     (revoke id identity now grants).2 !! id = Some g -> ConsentGrant.activeAt g later = false) /\
  forall other, other <> id \/ is_ok (revoke id identity now grants).1 = false ->
    (revoke id identity now grants).2 !! other = grants !! other.
Proof.
  unfold revoke. destruct (grants !! id) as [f|] eqn:Hf; simpl.
  - case_bool_decide as Hi; simpl.
    + split_and!; [naive_solver| |].
      * intros _ g later. rewrite lookup_insert_eq. intros [= <-]. apply revoked_not_active.
      * intros other [Hne|]; [|done]. by rewrite lookup_insert_ne.
    + split_and!; [naive_solver|done|done].
  - split_and!; [naive_solver|done|done].
Qed.
End consents.

Module ConsentWitnesses.
Import InMemoryConsentRepository.

Definition consent (id : string) (at_ : Instant) : ConsentGrant.t :=
  ConsentGrant.mk (mkId id) (mkId "alice") (mkId "shop") "https://orders.example" ["orders.read"] at_ None None.

Lemma one_consent_is_active_witness :
  findActive (run_consents [SaveConsent (consent "a" 10); SaveConsent (consent "b" 20)] ∅) (mkId "alice") (mkId "shop")
    "https://orders.example" 30 = Ok (Some (consent "b" 20)).
Proof.
  destruct (one_consent_is_active [SaveConsent (consent "a" 10); SaveConsent (consent "b" 20)] 0 30) as [_ H].
  - simpl. lia.
  - simpl. lia.
  - apply (H _ _ _ (mkId "b") (consent "b" 20)); reflexivity.
Defined.
End ConsentWitnesses.
