(* ===== verification/Evidence.v ===== *)
(** * openproof.evidence and openproof.trust

    Models [src/src/evidence/model.cpp], [repository.cpp] and [service.cpp]:
    verified evidence about an identity, its repository and the service that
    asks a verifier; and [src/src/trust/model.cpp] and [engine.cpp]: the policy
    of weights, and the engine that turns active evidence and risk signals into
    scores. A verifier is an interface without implementation in the
    repository: it is a record of operations. *)
From S2P Require Import Prelude Foundation Encoding Security Provider IdentityCore Client Authorization Pushed.

Inductive EvidenceIdTag := .
Abbreviation EvidenceId := (StrongId EvidenceIdTag).

Module EvidenceStatus.
Inductive t := Verified | Revoked.

#[global] Instance eq_dec : EqDecision t.
Proof. solve_decision. Defined.
End EvidenceStatus.

Definition validText (value : string) (maximum : nat) : bool :=
  negb (bool_decide (value = "")) && (String.length value <=? maximum)%nat && negb (any_octet control_octet value).

Module Evidence.
Record t := mk {
  id : EvidenceId;
  identity : IdentityId;
  provider : ProviderId;
  kind : string;
  claim : string;
  value : string;
  confidence : Z;
  status : EvidenceStatus.t;
  verifiedAt : Instant;
  expiresAt : option Instant;
}.

Definition validEvidence (id : EvidenceId) (identity : IdentityId) (provider : ProviderId) (kind claim value : string)
    (confidence : Z) (verifiedAt : Instant) (expiresAt : option Instant) : bool :=
  negb (id_empty id) && negb (id_empty identity) && negb (id_empty provider)
  && validText kind 128 && validText claim 128 && validText value 4096 && (confidence <=? 100)
  && negb (present_and (fun e => e <=? verifiedAt) expiresAt).

Definition restore (id : EvidenceId) (identity : IdentityId) (provider : ProviderId) (kind claim value : string)
    (confidence : Z) (status : EvidenceStatus.t) (verifiedAt : Instant) (expiresAt : option Instant) : Result t :=
  if negb (validEvidence id identity provider kind claim value confidence verifiedAt expiresAt) then
    fail InvalidArgument "The verified evidence is invalid."
  else Ok (mk id identity provider kind claim value confidence status verifiedAt expiresAt).

Definition create (id : EvidenceId) (identity : IdentityId) (provider : ProviderId) (kind claim value : string)
    (confidence : Z) (verifiedAt : Instant) (expiresAt : option Instant) : Result t :=
  restore id identity provider kind claim value confidence EvidenceStatus.Verified verifiedAt expiresAt.

Definition activeAt (e : t) (now : Instant) : bool :=
  bool_decide (status e = EvidenceStatus.Verified) && negb (present_and (fun x => x <=? now) (expiresAt e)).

Definition revoke (e : t) : t :=
  mk (id e) (identity e) (provider e) (kind e) (claim e) (value e) (confidence e) EvidenceStatus.Revoked
     (verifiedAt e) (expiresAt e).
End Evidence.

(** ** The repository *)

Class EvidenceRepository (T : Type) := {
  er_add : Evidence.t -> prog T Error unit;
  er_addBatch : list Evidence.t -> prog T Error unit;
  er_revoke : EvidenceId -> prog T Error unit;
  er_find : T -> EvidenceId -> Result (option Evidence.t);
  er_forIdentity : T -> IdentityId -> Result (list Evidence.t);
}.

Module InMemoryEvidenceRepository.
Abbreviation t := (gmap EvidenceId Evidence.t).

(** [std::map::emplace]: an entry that exists stays. *)
Definition emplace (m : t) (item : Evidence.t) : t :=
  if bool_decide (is_Some (m !! Evidence.id item)) then m else <[Evidence.id item := item]> m.

Definition addBatch (evidence : list Evidence.t) : prog t Error unit := fun m =>
  if existsb (fun item => bool_decide (is_Some (m !! Evidence.id item))) evidence then
    (fail AlreadyExists "The evidence already exists.", m)
  else (ok, foldl emplace m evidence).

Definition add (evidence : Evidence.t) : prog t Error unit := addBatch [evidence].

Definition revoke (id : EvidenceId) : prog t Error unit := fun m =>
  match m !! id with
  | None => (failCode NotFound, m)
  | Some found => (ok, <[id := Evidence.revoke found]> m)
  end.

Definition find (m : t) (id : EvidenceId) : Result (option Evidence.t) := Ok (m !! id).

Definition forIdentity (m : t) (identity : IdentityId) : Result (list Evidence.t) :=
  Ok (filter (fun item => Evidence.identity item = identity) (map_iter m).*2).

#[global] Instance repository : EvidenceRepository t := {
  er_add := add; er_addBatch := addBatch; er_revoke := revoke; er_find := find; er_forIdentity := forIdentity;
}.
End InMemoryEvidenceRepository.

(** ** The service *)

Record EvidenceVerifier (X : Type) := mkVerifier {
  ev_provider : ProviderId;
  ev_verify : IdentityId -> X -> Instant -> Result (list Evidence.t);
}.
Arguments mkVerifier {X}.
Arguments ev_provider {X}.
Arguments ev_verify {X}.

Module EvidenceService.
Section service.
Context `{Plat : Platform}.
Context {T X : Type} `{!EvidenceRepository T}.

Abbreviation verifiers := (gmap ProviderId (EvidenceVerifier X)).

(** A null pointer is [None]. *)
Definition registerVerifier (verifier : option (EvidenceVerifier X)) : prog verifiers Error unit := fun m =>
  match verifier with
  | None => (fail InvalidArgument "An evidence verifier is required.", m)
  | Some verifier =>
      let provider := ev_provider verifier in
      if id_empty provider || bool_decide (is_Some (m !! provider)) then
        (fail AlreadyExists "The evidence verifier is already registered.", m)
      else (ok, <[provider := verifier]> m)
  end.

Definition verify (m_verifiers : verifiers) (identity : IdentityId) (provider : ProviderId) (inputs : X)
    : prog (with_world T world) Error (list Evidence.t) :=
  if id_empty identity || id_empty provider then throw (Error_ofCode InvalidArgument)
  else
    match m_verifiers !! provider with
    | None => throw (Error_ofMessage NotFound "The evidence verifier is unavailable.")
    | Some found =>
        now ← in_world now;
        verified ← lift (ev_verify found identity inputs now);
        if bool_decide (verified = []) then
          throw (Error_ofMessage FailedPrecondition "The verifier produced no evidence.")
        else if existsb (fun item => negb (bool_decide (Evidence.identity item = identity))
                                     || negb (bool_decide (Evidence.provider item = provider))) verified then
          throw (Error_ofMessage PermissionDenied "The verifier returned evidence outside its authority.")
        else
          _ ← in_store (er_addBatch verified);
          mret verified
    end.
End service.
End EvidenceService.

(** ** Trust *)

Module RiskSignal.
Record t := mk { kind : string; severity : Z; reason : string }.

Definition create (kind : string) (severity : Z) (reason : string) : Result t :=
  if bool_decide (kind = "") || (128 <? String.length kind)%nat || any_octet control_octet kind || (100 <? severity)
     || bool_decide (reason = "") || (1024 <? String.length reason)%nat || any_octet control_octet reason then
    fail InvalidArgument "The risk signal is invalid."
  else Ok (mk kind severity reason).
End RiskSignal.

Definition validEvidenceId (value : string) : bool :=
  negb (bool_decide (value = "")) && (String.length value <=? 256)%nat && negb (any_octet control_octet value).

Module TrustAssessment.
Record t := mk {
  identity : IdentityId;
  trustScore : Z;
  riskScore : Z;
  confidence : Z;
  evidenceIds : list string;
  risks : list RiskSignal.t;
}.

Definition create (identity : IdentityId) (trustScore riskScore confidence : Z) (evidenceIds : list string)
    (risks : list RiskSignal.t) : Result t :=
  if id_empty identity || (100 <? trustScore) || (100 <? riskScore) || (100 <? confidence)
     || negb (forallb validEvidenceId evidenceIds) then
    fail InvalidArgument "The trust assessment is invalid."
  else
    let evidenceIds := sort_keys evidenceIds in
    if has_adjacent evidenceIds then fail Conflict "The trust assessment contains duplicate evidence."
    else Ok (mk identity trustScore riskScore confidence evidenceIds risks).
End TrustAssessment.

Definition validEvidenceKind (value : string) : bool := validText value 128.

Module TrustPolicy.
Abbreviation t := (gmap string Z).

Definition setWeight (kind : string) (weight : Z) : prog t Error unit := fun m_weights =>
  if negb (validEvidenceKind kind) || (100 <? weight) then
    (fail InvalidArgument "The trust weight is invalid.", m_weights)
  else (ok, <[kind := weight]> m_weights).

Definition weight (m_weights : t) (kind : string) : Z := default 0 (m_weights !! kind).
End TrustPolicy.

Module TrustEngine.
(** The accumulators of the loop of [assess]. *)
Record totals := mkTotals {
  weightedConfidence : Z;
  totalWeight : Z;
  confidenceTotal : Z;
  evidenceCount : Z;
  evidenceIds : list string;
}.

Definition no_totals : totals := mkTotals 0 0 0 0 [].

(** One turn of the loop. *)
Definition accumulate (m_policy : TrustPolicy.t) (now : Instant) (a : totals) (record : Evidence.t) : totals :=
  if negb (Evidence.activeAt record now) then a
  else
    let evidenceWeight := TrustPolicy.weight m_policy (Evidence.kind record) in
    if evidenceWeight =? 0 then a
    else mkTotals (u64 (weightedConfidence a + u64 (evidenceWeight * Evidence.confidence record)))
           (u64 (totalWeight a + evidenceWeight)) (u64 (confidenceTotal a + Evidence.confidence record))
           (u64 (evidenceCount a + 1)) (evidenceIds a ++ [id_value (Evidence.id record)]).

Section engine.
Context `{Plat : Platform}.
Context {T : Type} `{!EvidenceRepository T}.
Context (m_policy : TrustPolicy.t).

Definition assess (identity : IdentityId) (risks : list RiskSignal.t)
    : prog (with_world T world) Error TrustAssessment.t :=
  if id_empty identity then throw (Error_ofCode InvalidArgument)
  else
    records ← query (fun r => er_forIdentity r identity);
    now ← in_world now;
    let a := foldl (accumulate m_policy now) no_totals records in
    let trustScore := if totalWeight a =? 0 then 0 else u32 (weightedConfidence a / totalWeight a) in
    let confidence := if evidenceCount a =? 0 then 0 else u32 (confidenceTotal a / evidenceCount a) in
    let riskScore := foldl (fun score risk => Z.max score (RiskSignal.severity risk)) 0 risks in
    let trustScore := if riskScore <? trustScore then trustScore - riskScore else 0 in
    lift (TrustAssessment.create identity trustScore riskScore confidence (evidenceIds a) risks).
End engine.
End TrustEngine.

(** ** Evidence stays within the authority of its verifier *)

Section evidence_service.
Context `{Plat : Platform}.
Context {X : Type}.
Import InMemoryEvidenceRepository(emplace, addBatch).
Abbreviation state := (with_world InMemoryEvidenceRepository.t world).
Implicit Types (s : state) (m : InMemoryEvidenceRepository.t).

Lemma emplace_all items m id e :
  foldl emplace m items !! id = Some e -> m !! id = Some e \/ (e ∈ items /\ Evidence.id e = id).
Proof.
  revert m. induction items as [|item items IH]; intros m; simpl; [by left|].
  intros [Hm|[Hin ?]]%IH; [|right; split; [by apply list_elem_of_further|done]].
  unfold emplace in Hm. case_bool_decide; [by left|]. rewrite lookup_insert in Hm. case_decide; [|by left].
  injection Hm as <-. right. split; [apply list_elem_of_here|done].
Qed.

Lemma emplace_keeps items m id e : m !! id = Some e -> foldl emplace m items !! id = Some e.
Proof.
  revert m. induction items as [|item items IH]; intros m Hm; simpl; [done|]. apply IH. unfold emplace.
  case_bool_decide as H; [done|]. rewrite lookup_insert_ne; [done|]. intros E. apply H. exists e. by rewrite E.
Qed.

Lemma emplace_covers items m e : e ∈ items -> is_Some (foldl emplace m items !! Evidence.id e).
Proof.
  revert m. induction items as [|item items IH]; intros m; [intros H; by apply elem_of_nil in H|].
  intros [->|Hin]%elem_of_cons; simpl; [|by apply IH].
  assert (H : is_Some (emplace m item !! Evidence.id item)).
  { unfold emplace. case_bool_decide; [done|]. by rewrite lookup_insert_eq. }
  destruct H as [x Hx]. exists x. by apply emplace_keeps.
Qed.

(** A verifier speaks for its provider about the identity it was asked
    about. When [verify] succeeds, every piece of evidence it returns names the
    identity and the provider asked for, and exactly their identifiers were
    added to the repository; what was stored is as before. When it fails, the
    repository is as before. *)
Theorem evidence_within_authority verifiers identity provider (inputs : X) s :
  let run := EvidenceService.verify verifiers identity provider inputs s in
  match run.1 with
  | Ok verified =>
      verified <> [] /\
      Forall (fun e => Evidence.identity e = identity /\ Evidence.provider e = provider) verified /\
      (forall id e, v_store s !! id = Some e -> v_store run.2 !! id = Some e) /\
      (forall id e, v_store run.2 !! id = Some e -> v_store s !! id = Some e \/ (e ∈ verified /\ Evidence.id e = id)) /\
      (forall e, e ∈ verified -> v_store s !! Evidence.id e = None /\ is_Some (v_store run.2 !! Evidence.id e))
  | _ => v_store run.2 = v_store s
  end.
Proof.
  cbv zeta. unfold EvidenceService.verify. destruct (_ || _); [done|]. destruct (verifiers !! provider) as [v|]; [|done].
  destruct (in_now_run s) as (t & w & _ & Hn). rewrite (bind_run _ _ _ _ _ Hn).
  unfold mbind, prog_bind, lift. destruct (ev_verify v identity inputs t) as [verified|e|]; [|done..].
  case_bool_decide as Hne; [done|].
  match goal with |- context [if ?c then throw _ else _] => destruct c eqn:Hout end; [done|].
  rewrite in_store_run. cbn [v_store moved er_addBatch InMemoryEvidenceRepository.repository]. unfold addBatch.
  destruct (existsb (fun item => bool_decide (is_Some (v_store s !! Evidence.id item))) verified) eqn:Hold; [done|].
  simpl. split_and!; [done| | | |].
  - apply Forall_forall. intros e He.
    assert (Ho : negb (bool_decide (Evidence.identity e = identity)) || negb (bool_decide (Evidence.provider e = provider))
                 = false).
    { apply not_true_is_false. intros Ho. apply not_true_iff_false in Hout. apply Hout, existsb_exists.
      exists e. split; [by apply list_elem_of_In|done]. }
    by bool_prop.
  - intros id e. apply emplace_keeps.
  - intros id e. apply emplace_all.
  - intros e He. split; [|by apply emplace_covers]. apply eq_None_not_Some. intros Hs.
    apply not_true_iff_false in Hold. apply Hold, existsb_exists. exists e. split; [by apply list_elem_of_In|].
    by apply bool_decide_eq_true_2.
Qed.
End evidence_service.

(** A batch that names an identifier twice is accepted, and its second piece of
    evidence is dropped. *)
Example duplicate_in_batch_is_dropped :
  let e claim := Evidence.mk (mkId "e1") (mkId "alice") (mkId "kyc") "passport" claim "x" 80 EvidenceStatus.Verified 1 None in
  let run := InMemoryEvidenceRepository.addBatch [e "name"; e "birthdate"] ∅ in
  run.1 = ok /\ run.2 !! mkId "e1" = Some (e "name").
Proof. split; vm_compute; reflexivity. Qed.

(** ** The arithmetic of trust *)

Section trust_arithmetic.
Context `{Plat : Platform}.
Context {T : Type} `{!EvidenceRepository T}.
Context (m_policy : TrustPolicy.t).
Import TrustEngine.

(** The evidence that counts at a time. *)
Definition counts (now : Instant) (e : Evidence.t) : bool :=
  Evidence.activeAt e now && negb (TrustPolicy.weight m_policy (Evidence.kind e) =? 0).

Definition weight_of (e : Evidence.t) : Z := TrustPolicy.weight m_policy (Evidence.kind e).

Definition sum (f : Evidence.t -> Z) (l : list Evidence.t) : Z := foldr (fun e n => f e + n) 0 l.

Lemma sum_snoc f l e : sum f (l ++ [e]) = sum f l + f e.
Proof. induction l as [|x l IH]; simpl; lia. Qed.

Lemma sum_bounds f l b : (forall e, e ∈ l -> 0 <= f e <= b) -> 0 <= sum f l <= b * Z.of_nat (length l).
Proof.
  induction l as [|x l IH]; intros H; simpl; [lia|].
  specialize (IH (fun e He => H e (list_elem_of_further _ _ _ He))). pose proof (H x (list_elem_of_here _ _)). lia.
Qed.

Definition weights_in_range : Prop := forall kind, 0 <= TrustPolicy.weight m_policy kind <= 100.
Definition confidences_in_range (l : list Evidence.t) : Prop := forall e, e ∈ l -> 0 <= Evidence.confidence e <= 100.

Lemma filter_counts_snoc now l e :
  filter (counts now) (l ++ [e]) = filter (counts now) l ++ (if counts now e then [e] else []).
Proof. rewrite filter_app, filter_cons, filter_nil. by destruct (counts now e). Qed.

Lemma counted_bounds now l : weights_in_range -> confidences_in_range l ->
  let counted := filter (counts now) l in
  0 <= sum (fun e => weight_of e * Evidence.confidence e) counted <= 10000 * Z.of_nat (length l) /\
  0 <= sum weight_of counted <= 100 * Z.of_nat (length l) /\
  0 <= sum Evidence.confidence counted <= 100 * Z.of_nat (length l) /\ (length counted <= length l)%nat.
Proof.
  intros Hw Hc counted. assert (Hlen : (length counted <= length l)%nat) by apply length_filter.
  assert (Hcc : confidences_in_range counted) by (intros e [_ He]%list_elem_of_filter; by apply Hc).
  split_and!; try done.
  1-2: pose proof (sum_bounds (fun e => weight_of e * Evidence.confidence e) counted 10000) as H.
  3-4: pose proof (sum_bounds weight_of counted 100) as H.
  5-6: pose proof (sum_bounds Evidence.confidence counted 100) as H.
  1-2: assert (H' : forall e, e ∈ counted -> 0 <= weight_of e * Evidence.confidence e <= 10000)
    by (intros e He; pose proof (Hw (Evidence.kind e)); pose proof (Hcc e He); unfold weight_of; nia).
  1-2: specialize (H H'); lia.
  1-2: specialize (H (fun e _ => Hw (Evidence.kind e))); lia.
  1-2: specialize (H Hcc); lia.
Qed.

(** Within 2^50 records no accumulator wraps. *)
Lemma accumulate_exact now l :
  weights_in_range -> confidences_in_range l -> Z.of_nat (length l) < 2 ^ 50 ->
  let counted := filter (counts now) l in
  foldl (accumulate m_policy now) no_totals l
  = mkTotals (sum (fun e => weight_of e * Evidence.confidence e) counted) (sum weight_of counted)
      (sum Evidence.confidence counted) (Z.of_nat (length counted))
      ((fun e => id_value (Evidence.id e)) <$> counted).
Proof.
  intros Hw. induction l as [|e l IH] using rev_ind; intros Hc Hlen; [done|]. cbv zeta.
  rewrite length_app in Hlen. simpl in Hlen.
  assert (Hcl : confidences_in_range l) by (intros x Hx; apply Hc, elem_of_app; by left).
  assert (Hce : 0 <= Evidence.confidence e <= 100) by (apply Hc, elem_of_app; right; apply list_elem_of_here).
  rewrite foldl_app, (IH Hcl) by lia. rewrite filter_counts_snoc. simpl. unfold accumulate.
  assert (Ecounts : counts now e = Evidence.activeAt e now && negb (weight_of e =? 0)) by done.
  fold (weight_of e). destruct (Evidence.activeAt e now); simpl in *; [|by rewrite Ecounts, app_nil_r].
  destruct (weight_of e =? 0); simpl in *; rewrite Ecounts; [by rewrite app_nil_r|].
  destruct (counted_bounds now l Hw Hcl) as (H1 & H2 & H3 & H4). pose proof (Hw (Evidence.kind e)) as Hwe. fold (weight_of e) in Hwe.
  set (counted := filter _ l) in *. rewrite !sum_snoc, fmap_app, length_app. simpl.
  assert (Hprod : 0 <= weight_of e * Evidence.confidence e <= 10000) by nia.
  rewrite !u64_small by (rewrite ?u64_small; lia). f_equal; lia.
Qed.

Lemma div_le_bound a b c : 0 <= a <= c * b -> 0 < b -> 0 <= a / b <= c.
Proof. intros ??. split; [apply Z.div_pos; lia|]. apply Z.div_le_upper_bound; lia. Qed.

Definition worst (risks : list RiskSignal.t) : Z :=
  foldl (fun score risk => Z.max score (RiskSignal.severity risk)) 0 risks.

Lemma worst_from risks z : z <= foldl (fun score risk => Z.max score (RiskSignal.severity risk)) z risks.
Proof. revert z. induction risks as [|r risks IH]; intros z; simpl; [lia|]. etrans; [|apply IH]. lia. Qed.

(** The quotients stay within the scale of what they average. *)
Lemma mean_in_scale (f g : Evidence.t -> Z) l :
  (forall e, e ∈ l -> 0 <= f e <= 100 * g e) -> 0 <= sum f l <= 100 * sum g l.
Proof.
  induction l as [|x l IH]; intros H; simpl; [lia|].
  specialize (IH (fun e He => H e (list_elem_of_further _ _ _ He))). pose proof (H x (list_elem_of_here _ _)). lia.
Qed.

(** Trust is the weighted mean of the evidence, less the worst risk. With
    weights and confidences in their scale and fewer than 2^50 pieces of
    evidence, the 64-bit accumulators do not wrap: the trust score is the
    rounded-down weighted mean of the confidences of the active, weighted
    evidence, less the worst severity and not below zero; the confidence is
    their rounded-down mean; both are at most 100; and the assessment lists
    exactly the evidence that was counted. *)
Theorem trust_arithmetic_is_exact identity risks s assessment s' records :
  weights_in_range -> er_forIdentity (v_store s) identity = Ok records ->
  confidences_in_range records -> Z.of_nat (length records) < 2 ^ 50 ->
  assess m_policy identity risks s = (Ok assessment, s') ->
  let counted := filter (counts (clock_now (v_world s)).1) records in
  let total := sum weight_of counted in
  let mean := if total =? 0 then 0 else sum (fun e => weight_of e * Evidence.confidence e) counted / total in
  TrustAssessment.riskScore assessment = worst risks /\
  TrustAssessment.trustScore assessment = Z.max 0 (mean - worst risks) /\
  TrustAssessment.confidence assessment
  = (if Z.of_nat (length counted) =? 0 then 0 else sum Evidence.confidence counted / Z.of_nat (length counted)) /\
  0 <= TrustAssessment.trustScore assessment <= 100 /\ 0 <= TrustAssessment.confidence assessment <= 100 /\
  TrustAssessment.evidenceIds assessment ≡ₚ ((fun e => id_value (Evidence.id e)) <$> counted).
Proof.
  intros Hw Hrec Hc Hlen Hrun. unfold assess in Hrun. branch Hrun Hid; [done|].
  apply prog_bind_ok in Hrun as (rs & s1 & Hq & Hrun). unfold query in Hq. rewrite Hrec in Hq. injection Hq as <- <-.
  destruct (in_now_run s) as (t & w & Ht & Hn). rewrite (bind_run _ _ _ _ _ Hn) in Hrun.
  rewrite (accumulate_exact t records Hw Hc Hlen) in Hrun. rewrite Ht. cbn [fst].
  destruct (counted_bounds t records Hw Hc) as (H1 & H2 & H3 & H4).
  set (counted := filter _ records) in *. cbv zeta in Hrun |- *.
  cbn [totalWeight weightedConfidence evidenceCount confidenceTotal evidenceIds] in Hrun. fold (worst risks) in Hrun.
  set (mean := if sum weight_of counted =? 0 then 0 else _ / _).
  assert (Hcc : confidences_in_range counted) by (intros e [_ He]%list_elem_of_filter; by apply Hc).
  assert (Hmean : 0 <= mean <= 100).
  { unfold mean. destruct (Z.eqb_spec (sum weight_of counted) 0); [lia|]. apply div_le_bound; [|lia].
    apply mean_in_scale. intros e He. pose proof (Hw (Evidence.kind e)). pose proof (Hcc e He).
    unfold weight_of. nia. }
  set (conf := if Z.of_nat (length counted) =? 0 then 0 else _).
  assert (Hconf : 0 <= conf <= 100).
  { unfold conf. destruct (Z.eqb_spec (Z.of_nat (length counted)) 0); [lia|]. apply div_le_bound; [|lia].
    apply (sum_bounds Evidence.confidence counted 100 Hcc). }
  assert (Eu : forall (c : bool) (x : Z), 0 <= (if c then 0 else x) <= 100 -> (if c then 0 else u32 x) = if c then 0 else x).
  { intros [] x Hx; [done|]. apply Z.mod_small. lia. }
  rewrite !Eu in Hrun by done. fold mean conf in Hrun.
  apply lift_ok in Hrun as [Hcr _]. unfold TrustAssessment.create in Hcr. destruct (_ || _); [done|].
  destruct (has_adjacent _); [done|]. injection Hcr as <-.
  cbn [TrustAssessment.riskScore TrustAssessment.trustScore TrustAssessment.confidence TrustAssessment.evidenceIds].
  pose proof (worst_from risks 0) as Hworst. fold (worst risks) in Hworst. unfold sort_keys.
  split_and!; try done.
  - destruct (Z.ltb_spec (worst risks) mean); lia.
  - destruct (Z.ltb_spec (worst risks) mean); lia.
  - destruct (Z.ltb_spec (worst risks) mean); lia.
  - lia.
  - lia.
  - apply merge_sort_Permutation.
Qed.
End trust_arithmetic.

Module TrustWitnesses.
Import TestPlatform.

Definition passport : Evidence.t :=
  Evidence.mk (mkId "e1") (mkId "alice") (mkId "kyc") "passport" "name" "Alice" 90 EvidenceStatus.Verified 1 None.
Definition phone : Evidence.t :=
  Evidence.mk (mkId "e2") (mkId "alice") (mkId "kyc") "phone" "number" "1" 45 EvidenceStatus.Verified 1 None.
Definition weights : TrustPolicy.t := <["passport" := 100]> {[ "phone" := 50 ]}.
Definition known : with_world InMemoryEvidenceRepository.t world :=
  mkWith (<[mkId "e1" := passport]> {[ mkId "e2" := phone ]}) 100.
Definition no_assessment : TrustAssessment.t := TrustAssessment.mk (mkId "") 0 0 0 [] [].
Definition assessed : TrustAssessment.t :=
  match (TrustEngine.assess weights (mkId "alice") [RiskSignal.mk "vpn" 10 "anonymous network"] known).1 with
  | Ok a => a | _ => no_assessment end.

Lemma trust_arithmetic_is_exact_witness : TrustAssessment.riskScore assessed = 10.
Proof.
  refine (proj1 (trust_arithmetic_is_exact weights (mkId "alice") [RiskSignal.mk "vpn" 10 "anonymous network"] known
    assessed (TrustEngine.assess weights (mkId "alice") [RiskSignal.mk "vpn" 10 "anonymous network"] known).2
    [passport; phone] _ _ _ _ _)).
  - intros kind. unfold TrustPolicy.weight, weights. rewrite lookup_insert. case_decide; simpl; [lia|].
    destruct ({[ "phone" := 50 ]} !! kind) as [z|] eqn:E; simpl; [|lia].
    apply lookup_singleton_Some in E as [_ <-]. lia.
  - vm_compute. reflexivity.
  - intros e [->|[->|H]%elem_of_cons]%elem_of_cons; simpl; [lia..|]. by apply elem_of_nil in H.
  - simpl. lia.
  - apply run_as. vm_compute. reflexivity.
Defined.
End TrustWitnesses.
