(* ===== verification/AuditLog.v ===== *)
(** * openproof.audit: the hash-chained audit log

    Models [src/src/audit/audit.cpp]: audit events with their bounds, the
    canonical text a record is authenticated by, the in-memory log that chains
    each record to the one before it, its verification, and security events.
    The canonical text is a sequence of length-prefixed parts. *)
From S2P Require Import Prelude Foundation Encoding Security Provider IdentityCore Wire.

Inductive AuditEventIdTag := .
Abbreviation AuditEventId := (StrongId AuditEventIdTag).
(** [std::map<std::string, std::string>]. *)
Abbreviation AuditFields := (gmap string string).

Definition validAtom (value : string) (maximum : nat) : bool :=
  negb (bool_decide (value = "")) && (String.length value <=? maximum)%nat && negb (any_octet control_octet value).

Definition validateFields (fields : AuditFields) : Status :=
  if (64 <? base.size fields)%nat then fail InvalidArgument "An audit event has too many fields."
  else if existsb (fun '(name, value) => negb (validAtom name 100) || (4096 <? String.length value)%nat)
            (map_iter fields) then
    fail InvalidArgument "An audit event field is invalid."
  else ok.

Module AuditEvent.
Record t := mk {
  id : AuditEventId;
  occurredAt : Instant;
  correlation : CorrelationId;
  organization : option OrganizationId;
  identity : option IdentityId;
  category : string;
  action : string;
  outcome : string;
  fields : AuditFields;
}.

Definition create (id : AuditEventId) (occurredAt : Instant) (correlation : CorrelationId)
    (organization : option OrganizationId) (identity : option IdentityId)
    (category action outcome : string) (fields : AuditFields) : Result t :=
  let fieldsStatus := validateFields fields in
  if id_empty id || id_empty correlation || negb (validAtom category 100) || negb (validAtom action 200)
     || negb (validAtom outcome 100) || negb (is_ok fieldsStatus) then
    fail InvalidArgument "The audit event is invalid."
  else Ok (mk id occurredAt correlation organization identity category action outcome fields).
End AuditEvent.

Module AuditKey.
Record t := mk { secret : string }.

Definition create (key : string) : Result t :=
  if (String.length key <? 32)%nat then
    fail InvalidArgument "An audit signing key must contain at least 32 bytes."
  else Ok (mk key).
End AuditKey.

Module AuditRecord.
Record t := mk {
  sequence : Z;
  event : AuditEvent.t;
  previousHash : option Sha256Digest;
  hash : Sha256Digest;
}.
End AuditRecord.

(** ** The canonical text *)

(** The values [canonical] passes to [appendPart], in order. *)
Definition canonicalParts (event : AuditEvent.t) (sequence : Z) (previous : option Sha256Digest) : list string :=
  [ to_string sequence;
    id_value (AuditEvent.id event);
    to_string (AuditEvent.occurredAt event);
    id_value (AuditEvent.correlation event);
    match AuditEvent.organization event with Some organization => id_value organization | None => "" end;
    match AuditEvent.identity event with Some identity => id_value identity | None => "" end;
    AuditEvent.category event;
    AuditEvent.action event;
    AuditEvent.outcome event;
    match previous with Some previous => toHex previous | None => "" end ]
  ++ flat_map (fun '(name, value) => [name; value]) (map_iter (AuditEvent.fields event)).

Definition canonical (event : AuditEvent.t) (sequence : Z) (previous : option Sha256Digest) : string :=
  concat_parts (canonicalParts event sequence previous).

(** ** The log *)

Definition computeAuditRecordHash `{Platform} (event : AuditEvent.t) (sequence : Z)
    (previousHash : option Sha256Digest) (key : AuditKey.t) : Result Sha256Digest :=
  hmacSha256 (AuditKey.secret key) (canonical event sequence previousHash).

Class AuditRepository `{Platform} (T : Type) := {
  aur_append : AuditEvent.t -> AuditKey.t -> prog T Error AuditRecord.t;
  aur_records : T -> Result (list AuditRecord.t);
  aur_verify : T -> AuditKey.t -> Status;
}.

Module InMemoryAuditRepository.
Section repository.
Context `{Plat : Platform}.

Abbreviation t := (list AuditRecord.t).

(** [m_records.back().hash()], when there is a record. *)
Definition back_hash (m_records : t) : option Sha256Digest := AuditRecord.hash <$> last m_records.

Definition append (event : AuditEvent.t) (key : AuditKey.t) : prog t Error AuditRecord.t := fun m_records =>
  if existsb (fun existing => bool_decide (AuditEvent.id (AuditRecord.event existing) = AuditEvent.id event))
       m_records then
    (fail AlreadyExists "The audit event already exists.", m_records)
  else
    let sequence := u64 (Z.of_nat (length m_records) + 1) in
    let previous := back_hash m_records in
    match computeAuditRecordHash event sequence previous key with
    | Ok hash =>
        let record := AuditRecord.mk sequence event previous hash in
        (Ok record, m_records ++ [record])
    | Err e => (Err e, m_records)
    | Aborted => (Aborted, m_records)
    end.

Definition records (m_records : t) : Result (list AuditRecord.t) := Ok m_records.

(** The loop of [verify] over the records, from the hash of the one before. *)
Fixpoint verifyFrom (key : AuditKey.t) (previous : option Sha256Digest) (m_records : t) : Status :=
  match m_records with
  | [] => ok
  | record :: rest =>
      if negb (bool_decide (AuditRecord.previousHash record = previous)) then
        fail FailedPrecondition "The audit chain is not intact."
      else
        match computeAuditRecordHash (AuditRecord.event record) (AuditRecord.sequence record) previous key with
        | Ok expected =>
            if negb (constantTimeEquals expected (AuditRecord.hash record)) then
              fail FailedPrecondition "The audit chain is not intact."
            else verifyFrom key (Some (AuditRecord.hash record)) rest
        | Err e => Err e
        | Aborted => Aborted
        end
  end.

Definition verify (m_records : t) (key : AuditKey.t) : Status := verifyFrom key None m_records.

#[global] Instance repository : AuditRepository t := {
  aur_append := append; aur_records := records; aur_verify := verify;
}.
End repository.
End InMemoryAuditRepository.

(** ** Security events *)

Inductive SecuritySeverity := Informational | Warning | Critical.

Definition securitySeverityName (severity : SecuritySeverity) : string :=
  match severity with
  | Informational => "informational"
  | Warning => "warning"
  | Critical => "critical"
  end.

Module SecurityEvent.
Record t := mk {
  id : AuditEventId;
  occurredAt : Instant;
  correlation : CorrelationId;
  severity : SecuritySeverity;
  type : string;
  fields : AuditFields;
}.

Definition create (id : AuditEventId) (occurredAt : Instant) (correlation : CorrelationId)
    (severity : SecuritySeverity) (type : string) (fields : AuditFields) : Result t :=
  let fieldsStatus := validateFields fields in
  if id_empty id || id_empty correlation || negb (validAtom type 200) || negb (is_ok fieldsStatus) then
    fail InvalidArgument "The security event is invalid."
  else Ok (mk id occurredAt correlation severity type fields).
End SecurityEvent.

Module InMemorySecurityEventSink.
Abbreviation t := (list SecurityEvent.t).

Definition publish (event : SecurityEvent.t) : prog t Error unit := fun m_events =>
  if existsb (fun existing => bool_decide (SecurityEvent.id existing = SecurityEvent.id event)) m_events then
    (fail AlreadyExists "The security event already exists.", m_events)
  else (ok, m_events ++ [event]).

Definition events (m_events : t) : list SecurityEvent.t := m_events.
End InMemorySecurityEventSink.

(** ** The canonical text determines what it was made from *)

Lemma map_iter_inj (m m' : AuditFields) : map_iter m = map_iter m' -> m = m'.
Proof.
  intros E. apply map_eq. intros k. apply option_eq. intros v. by rewrite <- !elem_of_map_iter, E.
Qed.

Lemma pairs_inj (l l' : list (string * string)) :
  flat_map (fun '(name, value) => [name; value]) l = flat_map (fun '(name, value) => [name; value]) l' -> l = l'.
Proof.
  revert l'. induction l as [|[n v] l IH]; intros [|[n' v'] l']; simpl; try done.
  intros [= -> -> E]. f_equal. by apply IH.
Qed.

Lemma toHex_inj bytes bytes' : toHex bytes = toHex bytes' -> bytes = bytes'.
Proof.
  intros E. pose proof (fromHexLoop_toHex bytes) as H. rewrite E, fromHexLoop_toHex in H. congruence.
Qed.

(** The text shows an absent owner and an owner with the empty identifier alike. *)
Definition shown {Tag} (owner : option (StrongId Tag)) : string :=
  match owner with Some i => id_value i | None => "" end.

(** Two events that agree on everything the log authenticates. *)
Definition same_event (e e' : AuditEvent.t) : Prop :=
  AuditEvent.id e = AuditEvent.id e' /\ AuditEvent.occurredAt e = AuditEvent.occurredAt e' /\
  AuditEvent.correlation e = AuditEvent.correlation e' /\
  shown (AuditEvent.organization e) = shown (AuditEvent.organization e') /\
  shown (AuditEvent.identity e) = shown (AuditEvent.identity e') /\
  AuditEvent.category e = AuditEvent.category e' /\ AuditEvent.action e = AuditEvent.action e' /\
  AuditEvent.outcome e = AuditEvent.outcome e' /\ AuditEvent.fields e = AuditEvent.fields e'.

Definition hex_previous (previous : option Sha256Digest) : string :=
  match previous with Some previous => toHex previous | None => "" end.

Lemma canonical_inj e seq previous e' seq' previous' :
  canonical e seq previous = canonical e' seq' previous' ->
  same_event e e' /\ seq = seq' /\ hex_previous previous = hex_previous previous'.
Proof.
  unfold canonical, canonicalParts. intros E%concat_parts_inj. simpl in E.
  injection E as Eseq Eid Eat Ecor Eorg Eidn Ecat Eact Eout Eprev Ef.
  apply to_string_inj in Eseq, Eat. apply id_value_inj in Eid, Ecor. apply pairs_inj, map_iter_inj in Ef.
  repeat split; done.
Qed.

Lemma hex_previous_inj previous previous' :
  (forall d, previous = Some d \/ previous' = Some d -> length d = kSha256Size) ->
  hex_previous previous = hex_previous previous' -> previous = previous'.
Proof.
  intros Hl. destruct previous as [d|], previous' as [d'|]; simpl; intros E; [|exfalso..|done].
  - f_equal. by apply toHex_inj.
  - apply (f_equal String.length) in E. rewrite toHex_length, (Hl d) in E by auto. done.
  - apply (f_equal String.length) in E. rewrite toHex_length, (Hl d') in E by auto. done.
Qed.

(** ** The chain *)

Section chain.
Context `{Plat : Platform, !PlatformLaws Plat}.
Import InMemoryAuditRepository(append, verify, verifyFrom, back_hash).

Implicit Types (key : AuditKey.t) (rs : list AuditRecord.t).

(** The hash the next record refers to. *)
Definition last_hash (previous : option Sha256Digest) rs : option Sha256Digest :=
  match back_hash rs with Some hash => Some hash | None => previous end.

Lemma last_hash_cons previous r rs : last_hash previous (r :: rs) = last_hash (Some (AuditRecord.hash r)) rs.
Proof. unfold last_hash, back_hash. rewrite last_cons. by destruct (last rs). Qed.

(** A record that continues a log. *)
Definition continues key (previous : option Sha256Digest) (r : AuditRecord.t) : Prop :=
  AuditRecord.previousHash r = previous /\
  computeAuditRecordHash (AuditRecord.event r) (AuditRecord.sequence r) previous key = Ok (AuditRecord.hash r).

Lemma verifyFrom_cons key previous r rs :
  verifyFrom key previous (r :: rs) = ok <->
  continues key previous r /\ verifyFrom key (Some (AuditRecord.hash r)) rs = ok.
Proof.
  unfold continues. cbn [verifyFrom]. case_bool_decide as Hp; simpl; [|naive_solver].
  destruct (computeAuditRecordHash _ _ _ _) as [d|e|]; [|naive_solver..].
  rewrite constant_time_equals_spec. case_bool_decide as Hd; simpl; naive_solver.
Qed.

Lemma verifyFrom_snoc key previous rs r :
  verifyFrom key previous (rs ++ [r]) = ok <->
  verifyFrom key previous rs = ok /\ continues key (last_hash previous rs) r.
Proof.
  revert previous. induction rs as [|r0 rs IH]; intros previous.
  - change ([] ++ [r]) with [r]. rewrite verifyFrom_cons. unfold last_hash. simpl. naive_solver.
  - change ((r0 :: rs) ++ [r]) with (r0 :: (rs ++ [r])). rewrite !verifyFrom_cons, IH, last_hash_cons. naive_solver.
Qed.

Lemma back_hash_snoc rs r : back_hash (rs ++ [r]) = Some (AuditRecord.hash r).
Proof. unfold back_hash. by rewrite last_snoc. Qed.

Lemma last_hash_none rs : last_hash None rs = back_hash rs.
Proof. unfold last_hash. by destruct (back_hash rs). Qed.

(** The history of a log: the events offered to it under one key. *)
Definition appends key (events : list AuditEvent.t) rs : list AuditRecord.t :=
  foldl (fun rs event => (append event key rs).2) rs events.

Lemma append_cases event key rs :
  (is_ok (append event key rs).1 = false /\ (append event key rs).2 = rs) \/
  exists r, append event key rs = (Ok r, rs ++ [r]) /\ AuditRecord.event r = event /\
    AuditRecord.sequence r = u64 (Z.of_nat (length rs) + 1) /\ continues key (back_hash rs) r /\
    AuditEvent.id event ∉ (AuditEvent.id ∘ AuditRecord.event) <$> rs.
Proof.
  unfold append. destruct (existsb _ rs) eqn:Hex; [by left|].
  destruct (computeAuditRecordHash _ _ _ _) as [d|e|] eqn:Hd; [right|by left..].
  eexists. split; [reflexivity|]. split_and!; try done. intros (r & Hr & Hin)%list_elem_of_fmap.
  apply not_true_iff_false in Hex. apply Hex, existsb_exists. exists r. split; [by apply list_elem_of_In|].
  by apply bool_decide_eq_true.
Qed.

(** What every history of appends keeps. *)
Record sound key rs : Prop := {
  sound_chain : verify rs key = ok;
  sound_ids : NoDup ((AuditEvent.id ∘ AuditRecord.event) <$> rs);
  sound_numbers i r : rs !! i = Some r -> AuditRecord.sequence r = u64 (Z.of_nat i + 1);
}.

Lemma append_sound event key rs : sound key rs -> sound key (append event key rs).2.
Proof.
  intros [Hv Hids Hn]. destruct (append_cases event key rs) as [[_ ->]|(r & -> & He & Hs & Hc & Hnew)]; [done|].
  cbn [snd]. split.
  - apply verifyFrom_snoc. by rewrite last_hash_none.
  - rewrite fmap_app. apply NoDup_app. split; [done|]. split; [|apply NoDup_singleton].
    intros i Hi ->%list_elem_of_singleton. by rewrite <- He in Hnew.
  - intros i x. rewrite lookup_app. destruct (rs !! i) as [y|] eqn:E; [intros [= <-]; by apply Hn|].
    apply lookup_ge_None in E. intros Hx. apply list_lookup_singleton_Some in Hx as [Hi <-].
    rewrite Hs. do 2 f_equal. lia.
Qed.

Lemma append_extends event key rs : rs `prefix_of` (append event key rs).2.
Proof.
  destruct (append_cases event key rs) as [[_ ->]|(r & -> & _)]; [done|]. by apply prefix_app_r.
Qed.

Lemma appends_extend key events rs : rs `prefix_of` appends key events rs.
Proof.
  revert rs. induction events as [|e events IH]; intros rs; [done|]. etrans; [apply append_extends|apply IH].
Qed.

(** An audit log is what was appended, in order, for ever. The log that any
    history of appends under one key leaves verifies under that key; its
    identifiers are distinct, its records are numbered from 1 in steps of one
    (as 64-bit numbers), its events are among those offered, in their order,
    and whatever is appended afterwards only extends it. *)
Theorem audit_log_verifies key events more :
  let log := appends key events [] in
  verify log key = ok /\
  NoDup ((AuditEvent.id ∘ AuditRecord.event) <$> log) /\
  (forall i r, log !! i = Some r -> AuditRecord.sequence r = u64 (Z.of_nat i + 1)) /\
  sublist (AuditRecord.event <$> log) events /\
  log `prefix_of` appends key (events ++ more) [].
Proof.
  cbv zeta. assert (H : sound key (appends key events [])).
  { unfold appends. induction events as [|e events IH] using rev_ind; [split; [done|constructor|done]|].
    rewrite foldl_snoc. by apply append_sound. }
  destruct H as [Hv Hids Hn]. split_and!; try done.
  - clear. induction events as [|e events IH] using rev_ind; [done|].
    unfold appends in *. rewrite foldl_snoc.
    destruct (append_cases e key (foldl (fun rs event => (append event key rs).2) [] events))
      as [[_ ->]|(r & -> & <- & _)]; [by apply sublist_inserts_r|].
    cbn [snd]. rewrite fmap_app. by apply sublist_app.
  - unfold appends. rewrite foldl_app. apply appends_extend.
Qed.

(** ** Tampering *)

(** The text a record's hash was computed from, when the record verifies. *)
Definition authenticated_text (r : AuditRecord.t) : string :=
  canonical (AuditRecord.event r) (AuditRecord.sequence r) (AuditRecord.previousHash r).

Definition same_record (r r' : AuditRecord.t) : Prop :=
  same_event (AuditRecord.event r) (AuditRecord.event r') /\ AuditRecord.sequence r = AuditRecord.sequence r' /\
  AuditRecord.previousHash r = AuditRecord.previousHash r' /\ AuditRecord.hash r = AuditRecord.hash r'.

(** One record of each log, with different texts and one hash: a collision of
    the keyed hash function, at hand. *)
Definition collide (key : AuditKey.t) rs rs' : Prop :=
  exists r r', r ∈ rs /\ r' ∈ rs' /\ authenticated_text r <> authenticated_text r' /\
    hmacSha256 (AuditKey.secret key) (authenticated_text r) = Ok (AuditRecord.hash r) /\
    hmacSha256 (AuditKey.secret key) (authenticated_text r') = Ok (AuditRecord.hash r).

Lemma collide_more key rs rs' r r' : collide key rs rs' -> collide key (rs ++ [r]) (rs' ++ [r']).
Proof.
  intros (x & x' & Hx & Hx' & H). exists x, x'. rewrite !elem_of_app. auto.
Qed.

Lemma verified_back_length key rs d : verify rs key = ok -> back_hash rs = Some d -> length d = kSha256Size.
Proof.
  destruct rs as [|r rs] using rev_ind; [done|]. rewrite back_hash_snoc.
  intros [_ [_ Hc]]%verifyFrom_snoc [= <-]. by eapply hmac_deterministic_length.
Qed.

Lemma continues_text key previous r :
  continues key previous r -> hmacSha256 (AuditKey.secret key) (authenticated_text r) = Ok (AuditRecord.hash r).
Proof. by intros [<- H]. Qed.

(** C23: The log cannot be rewritten behind its last hash. Two logs that verify
    under one key and end in the same hash have the same number of records,
    and record by record the same number, event, previous hash and hash; or
    one record of each has the same keyed hash as the other over a different
    text. So whoever keeps the last hash of a log detects every record that
    was altered, dropped, added or moved before it, unless the keyed hash
    function was broken. *)
Theorem audit_log_is_tamper_evident key rs rs' :
  verify rs key = ok -> verify rs' key = ok -> back_hash rs = back_hash rs' ->
  Forall2 same_record rs rs' \/ collide key rs rs'.
Proof.
  revert rs'. induction rs as [|r rs IH] using rev_ind; intros rs' Hv Hv' Hback.
  { destruct rs' as [|r' rs'] using rev_ind; [by left|]. by rewrite back_hash_snoc in Hback. }
  destruct rs' as [|r' rs' _] using rev_ind; [by rewrite back_hash_snoc in Hback|].
  rewrite !back_hash_snoc in Hback. injection Hback as Hh.
  apply verifyFrom_snoc in Hv as [Hv Hc], Hv' as [Hv' Hc']. rewrite last_hash_none in Hc, Hc'.
  destruct (decide (authenticated_text r = authenticated_text r')) as [Et|Hne].
  - apply canonical_inj in Et as (He & Hs & Hp).
    assert (Hprev : AuditRecord.previousHash r = AuditRecord.previousHash r').
    { apply hex_previous_inj; [|exact Hp]. rewrite (proj1 Hc), (proj1 Hc').
      intros d [Hd|Hd]; [by apply (verified_back_length key rs)|by apply (verified_back_length key rs')]. }
    assert (Hb : back_hash rs = back_hash rs') by (by rewrite <- (proj1 Hc), <- (proj1 Hc')).
    destruct (IH rs' Hv Hv' Hb) as [Hall|Hcol].
    + left. apply Forall2_app; [done|]. constructor; [by split_and!|constructor].
    + right. by apply collide_more.
  - right. exists r, r'. rewrite !elem_of_app, !list_elem_of_singleton. split_and!; auto.
    + by eapply continues_text.
    + rewrite Hh. by eapply continues_text.
Qed.
End chain.

(** ** A log of two records *)

Module AuditWitnesses.
Import TestPlatform.

Definition audit_key : AuditKey.t := AuditKey.mk "0123456789abcdef0123456789abcdef".

Definition sign_in : AuditEvent.t :=
  AuditEvent.mk (mkId "evt-1") 1000 (mkId "corr-1") (Some (mkId "acme")) (Some (mkId "alice"))
    "authentication" "session.issue" "success" {[ "client" := "10.0.0.1" ]}.
Definition sign_out : AuditEvent.t :=
  AuditEvent.mk (mkId "evt-2") 2000 (mkId "corr-2") (Some (mkId "acme")) (Some (mkId "alice"))
    "authentication" "session.revoke" "success" ∅.

(** The second offer of an event is refused. *)
Definition log : list AuditRecord.t := appends audit_key [sign_in; sign_in; sign_out] [].

Example log_has_two_records : length log = 2%nat /\ InMemoryAuditRepository.verify log audit_key = ok.
Proof. split; vm_compute; reflexivity. Qed.

(** An altered outcome is found. *)
Example altered_record_is_found :
  InMemoryAuditRepository.verify
    ((fun r => AuditRecord.mk (AuditRecord.sequence r)
        (AuditEvent.mk (AuditEvent.id (AuditRecord.event r)) (AuditEvent.occurredAt (AuditRecord.event r))
           (AuditEvent.correlation (AuditRecord.event r)) None None "authentication" "session.issue" "failure" ∅)
        (AuditRecord.previousHash r) (AuditRecord.hash r)) <$> log) audit_key
  = fail FailedPrecondition "The audit chain is not intact.".
Proof. vm_compute. reflexivity. Qed.

Lemma audit_log_is_tamper_evident_witness :
  Forall2 same_record log (appends audit_key [sign_in; sign_out] [])
  \/ collide audit_key log (appends audit_key [sign_in; sign_out] []).
Proof.
  apply (audit_log_is_tamper_evident audit_key).
  - vm_compute. reflexivity.
  - vm_compute. reflexivity.
  - vm_compute. reflexivity.
Defined.
End AuditWitnesses.
