(* ===== verification/Credentials.v ===== *)
(** * openproof.credentials: passwords, one-time codes, recovery codes

    Models [src/src/credentials/credentials.cpp]: the bounds of the password
    policy, the encoded form of a password hash and its verification, TOTP with
    its window and its replay guard, the Base32 text of a seed, and recovery
    codes with their repository. The key-derivation functions and HMAC-SHA-1
    belong to OpenSSL and libsodium: they are the operations of the class
    [CredentialPlatform]. *)
From S2P Require Import Prelude Foundation Encoding Security Provider IdentityCore Wire Authorization Pushed.

(** libsodium's password hashing. The random salt comes from the world. *)
Record Sodium `{Platform} := mkSodium {
  sodium_ready : bool;
  crypto_pwhash_str : list byte -> world -> option string * world;
  crypto_pwhash_str_verify : string -> list byte -> bool;
  crypto_pwhash_str_needs_rehash : string -> bool;
}.

(** [HAS_LIBSODIUM] is a build option: without it there is no [sodium]. *)
Class CredentialPlatform `{Platform} := {
  (** [HMAC] with [EVP_sha1]: the MAC, [None] on failure. *)
  HMAC_sha1 : list byte -> list byte -> option (list byte);
  (** [EVP_PBE_scrypt]: secret, salt, N, r, p, memory limit, output size. *)
  EVP_PBE_scrypt : list byte -> list byte -> Z -> Z -> Z -> Z -> nat -> option (list byte);
  sodium : option Sodium;
}.

Definition kPasswordPrefix : string := "scrypt$v1$".
Definition kArgon2Prefix : string := "$argon2id$".
Definition kMinimumPepperBytes : nat := 32.
Definition kMinimumPasswordBytes : nat := 8.
Definition kMaximumPasswordBytes : nat := 1024.
Definition kMaximumScryptCost : Z := 1048576.
Definition kMaximumScryptBlockSize : Z := 32.
Definition kMaximumScryptParallelism : Z := 16.
Definition kMaximumScryptMemoryBytes : Z := 256 * 1024 * 1024.
Definition kBase32Alphabet : string := "ABCDEFGHIJKLMNOPQRSTUVWXYZ234567".

Definition authenticationFailure (detail : string) : Error :=
  Error_ofDetail AuthenticationFailed (defaultErrorMessage AuthenticationFailed) detail.

Definition isPowerOfTwo (value : Z) : bool := (1 <? value) && (Z.land value (value - 1) =? 0).

Definition parseUnsigned (value : string) : Result Z :=
  match from_chars false 0 (2 ^ 64 - 1) value with
  | Some parsed => Ok parsed
  | None => fail InvalidArgument "The password hash is malformed."
  end.

(** [fields[i]]. *)
Definition field (fields : list string) (i : nat) : string := nth i fields "".

(** [value.substr(2)] of a field that is known to be at least that long. *)
Definition after2 (value : string) : string :=
  match value with String _ (String _ rest) => rest | _ => "" end.

Definition validArgon2Encoding (encoded : string) : bool :=
  if negb (starts_with encoded kArgon2Prefix) || (255 <? String.length encoded)%nat
     || any_octet (fun symbol => bool_decide (symbol = "000"%char)) encoded then false
  else
    let parts := split_on encoded "$" in
    if negb (length parts =? 6)%nat || negb (bool_decide (field parts 0 = ""))
       || negb (bool_decide (field parts 1 = "argon2id")) || negb (bool_decide (field parts 2 = "v=19"))
       || (String.length (field parts 4) <? 16)%nat || (86 <? String.length (field parts 4))%nat
       || (String.length (field parts 5) <? 22)%nat || (86 <? String.length (field parts 5))%nat then false
    else
      let params := split_on (field parts 3) "," in
      if negb (length params =? 3)%nat || negb (starts_with (field params 0) "m=")
         || negb (starts_with (field params 1) "t=") || negb (starts_with (field params 2) "p=") then false
      else
        match parseUnsigned (after2 (field params 0)), parseUnsigned (after2 (field params 1)),
              parseUnsigned (after2 (field params 2)) with
        | Ok mem, Ok iterations, Ok parallelism =>
            (8192 <=? mem) && (mem <=? 262144) && (1 <=? iterations) && (iterations <=? 10) && (parallelism =? 1)
        | _, _, _ => false
        end.

(** ** Passwords *)

Module PasswordPolicy.
Record t := mk {
  cost : Z;
  blockSize : Z;
  parallelism : Z;
  saltBytes : nat;
  derivedBytes : nat;
  maximumMemoryBytes : Z;
}.

Definition create (cost blockSize parallelism : Z) (saltBytes derivedBytes : nat) (maximumMemoryBytes : Z)
    : Result t :=
  if negb (isPowerOfTwo cost) || (kMaximumScryptCost <? cost) || (blockSize =? 0)
     || (kMaximumScryptBlockSize <? blockSize) || (parallelism =? 0) || (kMaximumScryptParallelism <? parallelism)
     || (saltBytes <? 16)%nat || (derivedBytes <? 32)%nat || (64 <? derivedBytes)%nat then
    fail InvalidArgument "The password policy is outside secure bounds."
  else if (2 ^ 64 - 1) / cost / 128 <? blockSize then
    fail InvalidArgument "The password policy memory cost overflows."
  else
    let required := u64 (u64 (128 * cost) * blockSize) in
    if (maximumMemoryBytes <? required) || (kMaximumScryptMemoryBytes <? maximumMemoryBytes) then
      fail InvalidArgument "The password memory ceiling is below its work factor."
    else Ok (mk cost blockSize parallelism saltBytes derivedBytes maximumMemoryBytes).

Definition recommended : t := mk 32768 8 1 16 32 (64 * 1024 * 1024).
End PasswordPolicy.

Module PasswordHash.
Record t := mk { encoded : string }.

Definition parse (encoded : string) : Result t :=
  let fields := split_on encoded "$" in
  if validArgon2Encoding encoded then Ok (mk encoded)
  else if negb (length fields =? 8)%nat || negb (bool_decide (field fields 0 = "scrypt"))
          || negb (bool_decide (field fields 1 = "v1")) || bool_decide (field fields 2 = "")
          || bool_decide (field fields 3 = "") || bool_decide (field fields 4 = "")
          || bool_decide (field fields 5 = "") || bool_decide (field fields 6 = "")
          || bool_decide (field fields 7 = "") then
    fail InvalidArgument "The password hash is malformed."
  else Ok (mk encoded).
End PasswordHash.

Section derive.
Context `{Plat : Platform, !CredentialPlatform}.

Definition derive (pepper password : string) (salt : list byte) (policy : PasswordPolicy.t) : Result (list byte) :=
  if (String.length password <? kMinimumPasswordBytes)%nat || (kMaximumPasswordBytes <? String.length password)%nat
  then fail InvalidArgument "The password length is outside the accepted range."
  else
    material ← hmacSha256 pepper password;
    match EVP_PBE_scrypt material salt (PasswordPolicy.cost policy) (PasswordPolicy.blockSize policy)
            (PasswordPolicy.parallelism policy) (PasswordPolicy.maximumMemoryBytes policy)
            (PasswordPolicy.derivedBytes policy) with
    | Some output => Ok output
    | None => fail Internal "Password derivation failed."
    end.
End derive.

Module PasswordHasher.
Record t := mk { m_pepper : string; m_policy : PasswordPolicy.t; m_algorithm : string }.

Section hasher.
Context `{Plat : Platform, !CredentialPlatform}.

Definition supportsArgon2id : bool := match sodium with Some s => sodium_ready s | None => false end.

Definition create (pepper : string) (policy : PasswordPolicy.t) (algorithm : string) : Result t :=
  if (String.length pepper <? kMinimumPepperBytes)%nat then
    fail InvalidArgument "A password pepper must contain at least 32 bytes."
  else if negb (bool_decide (algorithm = "scrypt")) && negb (bool_decide (algorithm = "argon2id")) then
    fail InvalidArgument "Unknown password hashing algorithm."
  else if bool_decide (algorithm = "argon2id") && negb supportsArgon2id then
    fail FailedPrecondition "Argon2id requested but libsodium backend is unavailable."
  else Ok (mk pepper policy algorithm).

Definition prefersArgon2id (h : t) : bool := bool_decide (m_algorithm h = "argon2id").

Definition password_in_range (password : string) : bool :=
  negb ((String.length password <? kMinimumPasswordBytes)%nat || (kMaximumPasswordBytes <? String.length password)%nat).

Definition argon2_encode (s : Sodium) (material : list byte) : prog world Error PasswordHash.t := fun w =>
  match crypto_pwhash_str s material w with
  | (Some encoded, w) => (Ok (PasswordHash.mk encoded), w)
  | (None, w) => (fail Internal "Argon2id password derivation failed.", w)
  end.

(** The two branches of [hash]. *)
Definition hash_argon2 (h : t) (password : string) : prog world Error PasswordHash.t :=
  match sodium with
  | None => throw (Error_ofMessage FailedPrecondition "Argon2id backend unavailable.")
  | Some s =>
      if negb (sodium_ready s) then throw (Error_ofMessage Internal "libsodium initialization failed.")
      else if negb (password_in_range password) then
        throw (Error_ofMessage InvalidArgument "The password length is outside the accepted range.")
      else
        material ← lift (hmacSha256 (m_pepper h) password);
        argon2_encode s material
  end.

Definition encode_scrypt (policy : PasswordPolicy.t) (salt derived : list byte) : string :=
  kPasswordPrefix +:+ to_string (PasswordPolicy.cost policy) +:+ "$" +:+ to_string (PasswordPolicy.blockSize policy)
  +:+ "$" +:+ to_string (PasswordPolicy.parallelism policy) +:+ "$"
  +:+ to_string (PasswordPolicy.maximumMemoryBytes policy) +:+ "$" +:+ toBase64Url salt +:+ "$"
  +:+ toBase64Url derived.

Definition hash_scrypt (h : t) (password : string) : prog world Error PasswordHash.t :=
  salt ← randomBytes (PasswordPolicy.saltBytes (m_policy h));
  derived ← lift (derive (m_pepper h) password salt (m_policy h));
  mret (PasswordHash.mk (encode_scrypt (m_policy h) salt derived)).

Definition hash (h : t) (password : string) : prog world Error PasswordHash.t :=
  if bool_decide (m_algorithm h = "argon2id") then hash_argon2 h password else hash_scrypt h password.

Definition verify_argon2 (h : t) (password : string) (expected : PasswordHash.t) : Result bool :=
  match sodium with
  | None => fail FailedPrecondition "Argon2id verifier is unavailable."
  | Some s =>
      if negb (validArgon2Encoding (PasswordHash.encoded expected)) || negb (sodium_ready s) then
        fail InvalidArgument "Invalid or unsupported Argon2id hash."
      else if negb (password_in_range password) then Ok false
      else
        material ← hmacSha256 (m_pepper h) password;
        Ok (crypto_pwhash_str_verify s (PasswordHash.encoded expected) material)
  end.

Definition malformed {A} : Result A := fail InvalidArgument "The password hash is malformed.".

Definition verify_scrypt (h : t) (password : string) (expected : PasswordHash.t) : Result bool :=
  let fields := split_on (PasswordHash.encoded expected) "$" in
  if negb (length fields =? 8)%nat || negb (bool_decide (field fields 0 = "scrypt"))
     || negb (bool_decide (field fields 1 = "v1")) then malformed
  else
    match parseUnsigned (field fields 2), parseUnsigned (field fields 3), parseUnsigned (field fields 4),
          parseUnsigned (field fields 5), fromBase64Url (field fields 6), fromBase64Url (field fields 7) with
    | Ok cost, Ok blockSize, Ok parallelism, Ok maximumMemory, Ok salt, Ok wanted =>
        policy ← PasswordPolicy.create cost blockSize parallelism (length salt) (length wanted) maximumMemory;
        actual ← derive (m_pepper h) password salt policy;
        Ok (constantTimeEquals actual wanted)
    | _, _, _, _, _, _ => malformed
    end.

Definition verify (h : t) (password : string) (expected : PasswordHash.t) : Result bool :=
  if starts_with (PasswordHash.encoded expected) kArgon2Prefix then verify_argon2 h password expected
  else verify_scrypt h password expected.

Definition needsRehash (h : t) (hash : PasswordHash.t) : Result bool :=
  let stored := PasswordHash.encoded hash in
  if bool_decide (m_algorithm h = "argon2id") then
    if negb (starts_with stored kArgon2Prefix) then Ok true
    else match sodium with
         | None => fail FailedPrecondition "Argon2id verifier is unavailable."
         | Some s =>
             if negb (validArgon2Encoding stored) || negb (sodium_ready s) then
               fail InvalidArgument "Invalid Argon2id hash."
             else Ok (crypto_pwhash_str_needs_rehash s stored)
         end
  else if negb (starts_with stored kPasswordPrefix) then Ok true
  else
    let fields := split_on stored "$" in
    if negb (length fields =? 8)%nat then fail InvalidArgument "Malformed legacy scrypt hash."
    else Ok (negb (bool_decide (field fields 2 = to_string (PasswordPolicy.cost (m_policy h))))
             || negb (bool_decide (field fields 3 = to_string (PasswordPolicy.blockSize (m_policy h))))
             || negb (bool_decide (field fields 4 = to_string (PasswordPolicy.parallelism (m_policy h))))
             || negb (bool_decide (field fields 5 = to_string (PasswordPolicy.maximumMemoryBytes (m_policy h))))).
End hasher.
End PasswordHasher.

(** ** One-time codes *)

Module TotpPolicy.
Record t := mk { step : Duration; digits : Z; pastWindow : Z; futureWindow : Z }.

Definition create (step : Duration) (digits pastWindow futureWindow : Z) : Result t :=
  if (step <? seconds 15) || (minutes 5 <? step) || negb (digits =? 6) && negb (digits =? 8)
     || (10 <? pastWindow) || (10 <? futureWindow) then
    fail InvalidArgument "The TOTP policy is outside secure bounds."
  else Ok (mk step digits pastWindow futureWindow).

Definition recommended : t := mk (seconds 30) 6 1 1.
End TotpPolicy.

(** The loops of [base32]: an octet is shifted into the 32-bit accumulator, and
    symbols leave it while five bits are there. At most twelve bits are
    pending, so two rounds of the inner loop are enough. *)
Definition base32Symbol (index : Z) : ascii := at_ kBase32Alphabet (Z.land index 31).

Fixpoint base32Drain (fuel : nat) (accumulator bits : Z) : string * Z :=
  match fuel with
  | O => ("", bits)
  | S fuel =>
      if 5 <=? bits then
        let bits := bits - 5 in
        let '(output, bits') := base32Drain fuel accumulator bits in
        (String (base32Symbol (Z.shiftr accumulator bits)) output, bits')
      else ("", bits)
  end.

Fixpoint base32Loop (bytes : list byte) (accumulator bits : Z) : string :=
  match bytes with
  | [] => if 0 <? bits then String (base32Symbol (u32 (Z.shiftl accumulator (5 - bits)))) "" else ""
  | byte :: bytes =>
      let accumulator := Z.lor (u32 (Z.shiftl accumulator 8)) (byteValue byte) in
      let '(output, bits) := base32Drain 2 accumulator (bits + 8) in
      output +:+ base32Loop bytes accumulator bits
  end.

Definition base32 (bytes : string) : string := base32Loop (as_bytes bytes) 0 0.

Module TotpSecret.
Record t := mk { bytes : string }.

Definition create (bytes : string) : Result t :=
  if (String.length bytes <? 20)%nat || (64 <? String.length bytes)%nat then
    fail InvalidArgument "A TOTP secret must contain between 20 and 64 bytes."
  else Ok (mk bytes).

Definition generate `{Platform} (byteCount : nat) : prog world Error t :=
  if (byteCount <? 20)%nat || (64 <? byteCount)%nat then
    throw (Error_ofMessage InvalidArgument "A TOTP secret must contain between 20 and 64 bytes.")
  else
    bytes ← randomBytes byteCount;
    mret (mk (String.string_of_list_byte bytes)).

Definition enrollmentBase32 (secret : t) : string := base32 (bytes secret).
End TotpSecret.

(** The eight octets of the counter, most significant first. *)
Definition counterMessage (counter : Z) : list byte :=
  (fun index => toByte (Z.land (Z.shiftr counter (Z.of_nat (7 - index) * 8)) 255)) <$> seq 0 8.

(** [mac[i]]. *)
Definition mac_at (mac : list byte) (i : Z) : Z := byteValue (nth (Z.to_nat i) mac Byte.x00).

(** The loop that computes the modulus, in 32 bits. *)
Definition decimalModulus (digits : Z) : Z := Nat.iter (Z.to_nat digits) (fun modulus => u32 (modulus * 10)) 1.

(** The 31 bits the MAC selects. *)
Definition truncatedMac (mac : list byte) (offset : Z) : Z :=
  Z.lor (Z.lor (Z.lor (u32 (Z.shiftl (Z.land (mac_at mac offset) 127) 24))
                      (u32 (Z.shiftl (mac_at mac (offset + 1)) 16)))
               (u32 (Z.shiftl (mac_at mac (offset + 2)) 8)))
        (mac_at mac (offset + 3)).

Section totp.
Context `{Plat : Platform, !CredentialPlatform}.

Definition hotp (secret : TotpSecret.t) (counter digits : Z) : Result string :=
  let key := TotpSecret.bytes secret in
  if intMax <? Z.of_nat (String.length key) then fail InvalidArgument "The TOTP secret is too large."
  else
    match HMAC_sha1 (as_bytes key) (counterMessage counter) with
    | None => fail Internal "TOTP generation failed."
    | Some mac =>
        let length := Z.of_nat (length mac) in
        if length <? 20 then fail Internal "TOTP generation failed."
        else
          let offset := Z.land (mac_at mac (length - 1)) 15 in
          if length <? offset + 4 then fail Internal "TOTP generation produced an invalid MAC."
          else Ok (zero_padded digits (truncatedMac mac offset mod decimalModulus digits))
    end.

Definition timeStep (now : Instant) (step : Duration) : Result Z :=
  if (now <? 0) || (step <=? 0) then fail InvalidArgument "TOTP time is outside the supported range."
  else Ok (u64 (Z.quot now step)).

Definition totpAt (secret : TotpSecret.t) (policy : TotpPolicy.t) (now : Instant) : Result string :=
  step ← timeStep now (TotpPolicy.step policy);
  hotp secret step (TotpPolicy.digits policy).

Definition decimal_octet (value : ascii) : bool :=
  let v := Z.of_N (N_of_ascii value) in (48 <=? v) && (v <=? 57).

(** The loop over the window. [None]: the fuel ran out. *)
Fixpoint searchWindow (fuel : nat) (secret : TotpSecret.t) (digits : Z) (presented : string)
    (lastAcceptedStep : option Z) (candidate last : Z) : option (Result Z) :=
  match fuel with
  | O => None
  | S fuel =>
      if last <? candidate then Some (Err (authenticationFailure "TOTP response did not verify."))
      else
        match hotp secret candidate digits with
        | Err e => Some (Err e)
        | Aborted => Some Aborted
        | Ok expected =>
            if constantTimeEquals (as_bytes expected) (as_bytes presented) then
              if present_and (fun accepted => candidate <=? accepted) lastAcceptedStep then
                Some (Err (authenticationFailure "TOTP response was replayed."))
              else Some (Ok candidate)
            else searchWindow fuel secret digits presented lastAcceptedStep (u64 (candidate + 1)) last
        end
  end.

(** The window of a time step: its first and last candidate. *)
Definition firstCandidate (policy : TotpPolicy.t) (current : Z) : Z :=
  if TotpPolicy.pastWindow policy <=? current then current - TotpPolicy.pastWindow policy else 0.
Definition lastCandidate (policy : TotpPolicy.t) (current : Z) : Z := u64 (current + TotpPolicy.futureWindow policy).

(** One more round than there are candidates. *)
Definition windowFuel (policy : TotpPolicy.t) (current : Z) : nat :=
  S (S (Z.to_nat (lastCandidate policy current - firstCandidate policy current))).

(** The loop as [verifyTotp] enters it. *)
Definition searchAround (secret : TotpSecret.t) (policy : TotpPolicy.t) (presented : string)
    (lastAcceptedStep : option Z) (current : Z) : option (Result Z) :=
  searchWindow (windowFuel policy current) secret (TotpPolicy.digits policy) presented lastAcceptedStep
    (firstCandidate policy current) (lastCandidate policy current).

(** A loop that does not end gives no answer: [Aborted] stands for it. *)
Definition verifyTotp (secret : TotpSecret.t) (policy : TotpPolicy.t) (presented : string) (now : Instant)
    (lastAcceptedStep : option Z) : Result Z :=
  if negb (Z.of_nat (String.length presented) =? TotpPolicy.digits policy)
     || negb (all_octets decimal_octet presented) then
    Err (authenticationFailure "TOTP response is malformed.")
  else
    current ← timeStep now (TotpPolicy.step policy);
    default Aborted (searchAround secret policy presented lastAcceptedStep current).
End totp.

(** ** Recovery codes *)

Abbreviation RecoveryCodeDigest := Sha256Digest.

Class RecoveryCodeRepository (T : Type) := {
  rcr_replace : IdentityId -> list RecoveryCodeDigest -> prog T Error unit;
  rcr_consume : IdentityId -> RecoveryCodeDigest -> prog T Error unit;
  rcr_remaining : T -> IdentityId -> Result Z;
}.

Module InMemoryRecoveryCodeRepository.
Section repository.
Context `{Plat : Platform}.

Abbreviation t := (gmap IdentityId (list RecoveryCodeDigest)).

Definition replace (identity : IdentityId) (digests : list RecoveryCodeDigest) : prog t Error unit := fun m_codes =>
  if id_empty identity || (64 <? length digests)%nat then
    (fail InvalidArgument "The recovery-code replacement is invalid.", m_codes)
  else
    let digests := sort_keys digests in
    if has_adjacent digests then (fail InvalidArgument "Recovery-code digests must be unique.", m_codes)
    else if bool_decide (digests = []) then (ok, delete identity m_codes)
    else (ok, <[identity := digests]> m_codes).

(** [std::ranges::find_if] and [erase]: without the first match, if any. *)
Fixpoint eraseMatching (digest : RecoveryCodeDigest) (codes : list RecoveryCodeDigest)
    : option (list RecoveryCodeDigest) :=
  match codes with
  | [] => None
  | candidate :: codes =>
      if constantTimeEquals candidate digest then Some codes
      else match eraseMatching digest codes with Some codes => Some (candidate :: codes) | None => None end
  end.

Definition consume (identity : IdentityId) (digest : RecoveryCodeDigest) : prog t Error unit := fun m_codes =>
  match m_codes !! identity with
  | None => (Err (authenticationFailure "No recovery-code set exists."), m_codes)
  | Some found =>
      match eraseMatching digest found with
      | None => (Err (authenticationFailure "Recovery code did not verify."), m_codes)
      | Some codes => (ok, <[identity := codes]> m_codes)
      end
  end.

Definition remaining (m_codes : t) (identity : IdentityId) : Result Z :=
  Ok match m_codes !! identity with None => 0 | Some found => Z.of_nat (length found) end.

#[global] Instance repository : RecoveryCodeRepository t := {
  rcr_replace := replace; rcr_consume := consume; rcr_remaining := remaining;
}.
End repository.
End InMemoryRecoveryCodeRepository.

Module RecoveryCodeService.
Section service.
Context `{Plat : Platform}.
Context {T : Type} `{!RecoveryCodeRepository T}.

Definition create (pepper : string) : Result string :=
  if (String.length pepper <? kMinimumPepperBytes)%nat then
    fail InvalidArgument "A recovery-code pepper must contain at least 32 bytes."
  else Ok pepper.

Context (m_pepper : string).

Definition digest (code : string) : Result RecoveryCodeDigest := hmacSha256 m_pepper code.

(** The loop of [issue]: each code with its digest. *)
Fixpoint drawCodes (count : nat) : prog (with_world T world) Error (list (string * RecoveryCodeDigest)) :=
  match count with
  | O => mret []
  | S count =>
      code ← in_world (randomTokenBase64Url 20);
      fingerprint ← lift (digest code);
      rest ← drawCodes count;
      mret ((code, fingerprint) :: rest)
  end.

Definition issue (identity : IdentityId) (count : nat) : prog (with_world T world) Error (list string) :=
  if id_empty identity || (count =? 0)%nat || (32 <? count)%nat then
    throw (Error_ofMessage InvalidArgument "Recovery-code issuance parameters are invalid.")
  else
    drawn ← drawCodes count;
    _ ← in_store (rcr_replace identity drawn.*2);
    mret drawn.*1.

Definition consume (identity : IdentityId) (presented : string) : prog (with_world T world) Error unit :=
  fingerprint ← lift (digest presented);
  in_store (rcr_consume identity fingerprint).

Definition revoke (identity : IdentityId) : prog (with_world T world) Error unit :=
  if id_empty identity then
    throw (Error_ofMessage InvalidArgument "Recovery-code revocation requires an identity.")
  else in_store (rcr_replace identity []).
End service.
End RecoveryCodeService.

(** ** A password hash verifies *)

Lemma no_octet_of_all d s : all_octets (fun c => negb (bool_decide (c = d))) s = true ->
  any_octet (fun c => bool_decide (c = d)) s = false.
Proof.
  induction s as [|c s IH]; simpl; [done|]. rewrite andb_true_iff, orb_false_iff, negb_true_iff. naive_solver.
Qed.

Lemma toBase64Url_octets p bytes :
  (forall d, 0 <= d < 64 -> p (symbolAt d) = true) -> all_octets p (toBase64Url bytes) = true.
Proof.
  intros Hp. induction bytes as [|b0|b0 b1|b0 b1 b2 bytes IH] using list_ind3; [done|..].
  - rewrite toBase64Url_single. pose proof (byteValue_range b0). cbn [all_octets]. by rewrite !Hp by div_mod.
  - rewrite toBase64Url_pair. pose proof (byteValue_range b0). pose proof (byteValue_range b1).
    cbn [all_octets]. by rewrite !Hp by div_mod.
  - rewrite toBase64Url_quad. pose proof (byteValue_range b0). pose proof (byteValue_range b1).
    pose proof (byteValue_range b2). cbn [all_octets]. by rewrite !Hp, IH by div_mod.
Qed.

Lemma number_no_dollar n : any_octet (fun c => bool_decide (c = "$"%char)) (to_string n) = false.
Proof.
  apply no_octet_of_all, to_string_octets; [done|]. intros d Hd. apply negb_true_iff, bool_decide_eq_false.
  intros E. pose proof (digit_value_digit d Hd) as H. by rewrite E in H.
Qed.

Lemma base64_no_dollar bytes : any_octet (fun c => bool_decide (c = "$"%char)) (toBase64Url bytes) = false.
Proof.
  apply no_octet_of_all, toBase64Url_octets. intros d Hd. apply negb_true_iff, bool_decide_eq_false.
  intros E. pose proof (symbol_decodes d Hd) as Hs. rewrite E in Hs. vm_compute in Hs. lia.
Qed.

(** The fields of an encoded scrypt hash. *)
Lemma split_encoded policy salt derived :
  split_on (PasswordHasher.encode_scrypt policy salt derived) "$" =
  ["scrypt"; "v1"; to_string (PasswordPolicy.cost policy); to_string (PasswordPolicy.blockSize policy);
   to_string (PasswordPolicy.parallelism policy); to_string (PasswordPolicy.maximumMemoryBytes policy);
   toBase64Url salt; toBase64Url derived].
Proof.
  unfold PasswordHasher.encode_scrypt, kPasswordPrefix.
  change ("scrypt$v1$" +:+ ?x) with ("scrypt" +:+ String "$" ("v1" +:+ String "$" x)).
  rewrite split_on_app, split_on_app by done. do 2 f_equal. autorewrite with sapp.
  rewrite !split_on_app by apply number_no_dollar. rewrite split_on_app by apply base64_no_dollar.
  by rewrite split_on_last by apply base64_no_dollar.
Qed.

Lemma parseUnsigned_to_string n : 0 <= n < 2 ^ 64 -> parseUnsigned (to_string n) = Ok n.
Proof. intros Hn. unfold parseUnsigned. by rewrite from_chars_to_string by lia. Qed.

Lemma parseUnsigned_range text n : parseUnsigned text = Ok n -> 0 <= n.
Proof.
  unfold parseUnsigned, from_chars. destruct text as [|c rest]; [done|]. rewrite andb_false_l.
  destruct (digits_value (String c rest) 0) as [v|]; [|done]. cbn [mbind option_bind].
  destruct ((0 <=? v) && _) eqn:E; [|done]. intros [= <-]. bool_prop. done.
Qed.

Lemma to_string_nonempty n : to_string n <> "".
Proof. unfold to_string. case_match; [done|]. apply digits_nonempty. lia. Qed.

(** The arguments of a policy are unsigned 64-bit numbers. *)
Definition created (policy : PasswordPolicy.t) : Prop :=
  exists cost blockSize parallelism saltBytes derivedBytes maximumMemoryBytes,
    0 <= blockSize /\ 0 <= parallelism /\
    PasswordPolicy.create cost blockSize parallelism saltBytes derivedBytes maximumMemoryBytes = Ok policy.

Lemma created_again policy : created policy ->
  PasswordPolicy.create (PasswordPolicy.cost policy) (PasswordPolicy.blockSize policy)
    (PasswordPolicy.parallelism policy) (PasswordPolicy.saltBytes policy) (PasswordPolicy.derivedBytes policy)
    (PasswordPolicy.maximumMemoryBytes policy) = Ok policy /\
  0 <= PasswordPolicy.cost policy < 2 ^ 64 /\ 0 <= PasswordPolicy.blockSize policy < 2 ^ 64 /\
  0 <= PasswordPolicy.parallelism policy < 2 ^ 64 /\ 0 <= PasswordPolicy.maximumMemoryBytes policy < 2 ^ 64 /\
  (16 <= PasswordPolicy.saltBytes policy)%nat /\ (32 <= PasswordPolicy.derivedBytes policy)%nat.
Proof.
  intros (c & b & p & s & d & m & Hb & Hp & H). pose proof H as Hc. unfold PasswordPolicy.create in H.
  destruct (_ || _) eqn:G1 in H; [done|]. destruct (_ <? b) eqn:G2 in H; [done|].
  destruct (_ || _) eqn:G3 in H; [done|]. injection H as <-. split; [exact Hc|]. cbn.
  unfold isPowerOfTwo in G1. bool_prop. unfold kMaximumScryptCost, kMaximumScryptBlockSize,
    kMaximumScryptParallelism, kMaximumScryptMemoryBytes in *.
  assert (Hr : 0 <= u64 (u64 (128 * c) * b)) by (apply Z.mod_pos_bound; lia).
  repeat match goal with
  | H : (_ <? _)%nat = false |- _ => apply Nat.ltb_ge in H
  | H : _ && _ = true |- _ => apply andb_true_iff in H as [? ?]
  end. bool_prop. lia.
Qed.

(** The documented behaviour of the key-derivation functions. *)
Class CredentialLaws `{Plat : Platform} (C : CredentialPlatform) := {
  EVP_PBE_scrypt_size secret salt n r p m size out :
    EVP_PBE_scrypt secret salt n r p m size = Some out -> length out = size;
  crypto_pwhash_str_format s material w encoded w' :
    sodium = Some s -> crypto_pwhash_str s material w = (Some encoded, w') ->
    validArgon2Encoding encoded = true /\ crypto_pwhash_str_verify s encoded material = true;
}.

Section passwords.
Context `{Plat : Platform, !PlatformLaws Plat, C : !CredentialPlatform, !CredentialLaws C}.
Import PasswordHasher.

Lemma scrypt_hash_verifies h password w hash w' :
  created (m_policy h) -> hash_scrypt h password w = (Ok hash, w') ->
  verify h password hash = Ok true /\ PasswordHash.parse (PasswordHash.encoded hash) = Ok hash /\
  (m_algorithm h <> "argon2id" -> needsRehash h hash = Ok false).
Proof.
  intros (Hcreate & Hc & Hb & Hp & Hm & Hsalt & Hsize)%created_again.
  intros (salt & w1 & Hs & (derived & w2 & [Hd ->]%lift_ok & [= <- <-])%prog_bind_ok)%prog_bind_ok.
  apply randomBytes_length in Hs. pose proof Hd as Hlen. unfold derive in Hlen.
  destruct (_ || _); [done|]. apply result_bind_ok in Hlen as (material & _ & Hlen).
  destruct (EVP_PBE_scrypt _ _ _ _ _ _ _) as [out|] eqn:Hkdf in Hlen; [|done]. injection Hlen as ->.
  apply EVP_PBE_scrypt_size in Hkdf. split_and!.
  - unfold verify. cbn [PasswordHash.encoded]. change (starts_with _ kArgon2Prefix) with false. cbn iota.
    unfold verify_scrypt. cbn [PasswordHash.encoded]. rewrite split_encoded. cbn [field nth].
    rewrite !parseUnsigned_to_string by done. rewrite !(proj1 (encodings_roundtrip _)), Hs, Hkdf, Hcreate.
    cbn [negb length Nat.eqb]. cbn -[derive constantTimeEquals]. rewrite Hd.
    rewrite !bool_decide_eq_true_2 by done. cbn -[constantTimeEquals].
    by rewrite constant_time_equals_spec, bool_decide_eq_true_2.
  - unfold PasswordHash.parse. cbn [PasswordHash.encoded]. case_match; [done|]. rewrite split_encoded.
    cbn [field nth length Nat.eqb negb orb].
    rewrite (bool_decide_eq_true_2 ("scrypt" = "scrypt") eq_refl), (bool_decide_eq_true_2 ("v1" = "v1") eq_refl).
    rewrite !(bool_decide_eq_false_2 (to_string _ = "")) by apply to_string_nonempty.
    by rewrite !bool_decide_eq_false_2 by (apply toBase64Url_nonempty; intros ->; simpl in *; lia).
  - intros Ha. unfold needsRehash. cbn [PasswordHash.encoded]. rewrite (bool_decide_eq_false_2 _ Ha).
    change (starts_with _ kPasswordPrefix) with true. cbn [negb]. rewrite split_encoded. cbn [field nth].
    by rewrite !bool_decide_eq_true_2.
Qed.

(** C34: A stored password verifies. Whatever algorithm a hasher uses, the hash it
    makes of a password can be stored and read back, the hasher verifies the
    password against it, and a hasher that makes scrypt hashes does not ask for
    the hash to be made again. *)
Theorem password_hash_round_trip h password w stored w' :
  created (m_policy h) -> hash h password w = (Ok stored, w') ->
  verify h password stored = Ok true /\ PasswordHash.parse (PasswordHash.encoded stored) = Ok stored /\
  (m_algorithm h <> "argon2id" -> needsRehash h stored = Ok false).
Proof.
  unfold hash. case_bool_decide as Ha; [|apply scrypt_hash_verifies]. intros _ Hrun. unfold hash_argon2 in Hrun.
  destruct sodium as [s|] eqn:Hsod; [|done]. destruct (sodium_ready s) eqn:Hready; [|done].
  destruct (password_in_range password) eqn:Hrange; [|done]. cbn [negb] in Hrun.
  apply prog_bind_ok in Hrun as (material & w1 & [Hmat ->]%lift_ok & Hrun). unfold argon2_encode in Hrun.
  destruct (crypto_pwhash_str s material w) as [[encoded|] w2] eqn:Hstr; [|done]. injection Hrun as <- <-.
  destruct (crypto_pwhash_str_format _ _ _ _ _ Hsod Hstr) as [Hvalid Hverify].
  assert (Hprefix : starts_with encoded kArgon2Prefix = true).
  { unfold validArgon2Encoding in Hvalid. by destruct (starts_with encoded kArgon2Prefix). }
  split_and!; [|unfold PasswordHash.parse; cbn [PasswordHash.encoded]; by rewrite Hvalid|done].
  unfold verify, verify_argon2. cbn [PasswordHash.encoded].
  by rewrite Hprefix, Hsod, Hvalid, Hready, Hrange, Hmat; cbn; rewrite Hverify.
Qed.

(** What a password must do to be accepted: [verify] says yes only when the
    password's own derivation, under the parameters the stored text names and
    within the policy's bounds, is the derivation the text holds. *)
Lemma verify_scrypt_ok h password stored :
  verify_scrypt h password stored = Ok true -> exists salt wanted policy,
    created policy /\ fromBase64Url (field (split_on (PasswordHash.encoded stored) "$") 6) = Ok salt /\
    fromBase64Url (field (split_on (PasswordHash.encoded stored) "$") 7) = Ok wanted /\
    derive (m_pepper h) password salt policy = Ok wanted.
Proof.
  unfold verify_scrypt. set (fields := split_on _ _). destruct (_ || _); [done|].
  destruct (parseUnsigned (field fields 2)) as [c| |]; [|done..].
  destruct (parseUnsigned (field fields 3)) as [b| |] eqn:Hb; [|done..].
  destruct (parseUnsigned (field fields 4)) as [p| |] eqn:Hp; [|done..].
  destruct (parseUnsigned (field fields 5)) as [m| |]; [|done..].
  destruct (fromBase64Url (field fields 6)) as [salt| |]; [|done..].
  destruct (fromBase64Url (field fields 7)) as [wanted| |]; [|done..].
  intros (policy & Hpol & (actual & Hd & [= Heq])%result_bind_ok)%result_bind_ok.
  rewrite constant_time_equals_spec in Heq. apply bool_decide_eq_true in Heq as ->.
  exists salt, wanted, policy. split_and!; try done. exists c, b, p, (length salt), (length wanted), m.
  split_and!; [by apply parseUnsigned_range in Hb|by apply parseUnsigned_range in Hp|done].
Qed.
End passwords.

(** ** One-time codes *)

Lemma as_bytes_inj s t : as_bytes s = as_bytes t -> s = t.
Proof.
  intros E. rewrite <- (String.string_of_list_byte_of_string s), <- (String.string_of_list_byte_of_string t).
  unfold as_bytes in E. by rewrite E.
Qed.

Lemma digit_is_decimal d : 0 <= d < 10 -> decimal_octet (digit d) = true.
Proof.
  intros Hd. unfold decimal_octet, digit. rewrite N_ascii_embedding, Z2N.id by lia. apply andb_true_iff. lia.
Qed.

(** The windows are unsigned; the step count of a 64-bit clock stays far from
    the bound of its type. *)
Record totp_sane (policy : TotpPolicy.t) (now : Instant) : Prop := {
  sane_created : exists step digits past future, 0 <= past /\ 0 <= future /\
    TotpPolicy.create step digits past future = Ok policy;
  sane_now : 0 <= now < 2 ^ 63;
}.

Lemma totp_bounds policy now : totp_sane policy now ->
  (TotpPolicy.digits policy = 6 \/ TotpPolicy.digits policy = 8) /\
  0 <= TotpPolicy.pastWindow policy <= 10 /\ 0 <= TotpPolicy.futureWindow policy <= 10 /\
  15000 <= TotpPolicy.step policy /\
  timeStep now (TotpPolicy.step policy) = Ok (now / TotpPolicy.step policy) /\
  0 <= now / TotpPolicy.step policy < 2 ^ 63.
Proof.
  intros [(step & digits & past & future & Hp & Hf & Hcreate) Hnow]. unfold TotpPolicy.create, seconds, minutes in Hcreate.
  destruct (_ || _) eqn:G in Hcreate; [done|]. injection Hcreate as <-. cbn. bool_prop.
  assert (Hd : digits = 6 \/ digits = 8) by (destruct (Z.eqb_spec digits 6), (Z.eqb_spec digits 8); auto; done).
  assert (Hq : 0 <= now / step < 2 ^ 63).
  { split; [apply Z.div_pos; lia|]. apply Z.div_lt_upper_bound; lia. }
  split_and!; try lia; try done. unfold timeStep, u64.
  rewrite (proj2 (Z.ltb_ge now 0)), (proj2 (Z.leb_gt step 0)) by lia. simpl.
  rewrite Z.quot_div_nonneg by lia. by rewrite Z.mod_small by lia.
Qed.

Section one_time_codes.
Context `{Plat : Platform, !PlatformLaws Plat, C : !CredentialPlatform}.

Implicit Types (secret : TotpSecret.t) (presented : string).

(** A MAC of twenty octets always yields a code. *)
Lemma hotp_works secret counter digits :
  Z.of_nat (String.length (TotpSecret.bytes secret)) <= intMax ->
  (exists mac, HMAC_sha1 (as_bytes (TotpSecret.bytes secret)) (counterMessage counter) = Some mac /\ length mac = 20%nat) ->
  is_ok (hotp secret counter digits) = true.
Proof.
  intros Hkey (mac & Hmac & Hlen). unfold hotp. rewrite (proj2 (Z.ltb_ge _ _)) by done. rewrite Hmac, Hlen. cbv zeta.
  rewrite (land_low _ 4 15) by lia. pose proof (Z.mod_pos_bound (mac_at mac (Z.of_nat 20 - 1)) (2 ^ 4) ltac:(lia)).
  rewrite (proj2 (Z.ltb_ge (Z.of_nat 20) 20)), (proj2 (Z.ltb_ge (Z.of_nat 20) _)) by lia. done.
Qed.

(** The candidate [step] is the first of the window whose code is presented,
    and no step as late was accepted before. *)
Definition first_match secret digits presented accepted (first last step : Z) : Prop :=
  first <= step <= last /\ hotp secret step digits = Ok presented /\
  (forall earlier, first <= earlier < step ->
     exists code, hotp secret earlier digits = Ok code /\ code <> presented) /\
  present_and (fun accepted => step <=? accepted) accepted = false.

Lemma hotp_not_aborted secret counter digits : hotp secret counter digits <> Aborted.
Proof. unfold hotp. repeat case_match; done. Qed.

Lemma searchWindow_spec secret digits presented accepted last fuel candidate :
  0 <= candidate <= last + 1 -> last + 1 < 2 ^ 64 -> (Z.to_nat (last + 1 - candidate) < fuel)%nat ->
  exists r, searchWindow fuel secret digits presented accepted candidate last = Some r /\ r <> Aborted /\
    forall step, r = Ok step <-> first_match secret digits presented accepted candidate last step.
Proof.
  revert candidate. induction fuel as [|fuel IH]; intros candidate Hc Hl Hf; [lia|]. cbn [searchWindow].
  destruct (Z.ltb_spec last candidate) as [Hend|Hin].
  { eexists. split; [reflexivity|]. split; [done|]. intros step. split; [done|]. intros [? _]. lia. }
  destruct (hotp secret candidate digits) as [code|e|] eqn:Hcode.
  - rewrite constant_time_equals_spec. case_bool_decide as Heq.
    + apply as_bytes_inj in Heq as ->. destruct (present_and _ accepted) eqn:Hacc.
      * eexists. split; [reflexivity|]. split; [done|]. intros step. split; [done|].
        intros (Hr & Hs & Hearlier & Hfresh). destruct (decide (step = candidate)) as [->|Hne]; [congruence|].
        destruct (Hearlier candidate ltac:(lia)) as (code & Hc' & Hne'). congruence.
      * eexists. split; [reflexivity|]. split; [done|]. intros step. split.
        -- intros [= <-]. split_and!; try lia; try done.
        -- intros (Hr & Hs & Hearlier & Hfresh). destruct (decide (step = candidate)) as [->|Hne]; [done|].
           destruct (Hearlier candidate ltac:(lia)) as (code & Hc' & Hne'). congruence.
    + unfold u64. rewrite Z.mod_small by lia.
      destruct (IH (candidate + 1) ltac:(lia) Hl ltac:(lia)) as (r & Hrun & Hna & Hr).
      exists r. split; [done|]. split; [done|]. intros step. rewrite Hr. unfold first_match. split.
      * intros (H1 & H2 & H3 & H4). split_and!; try lia; try done. intros earlier He.
        destruct (decide (earlier = candidate)) as [->|]; [|apply H3; lia].
        exists code. split; [done|]. intros ->. by apply Heq.
      * intros (H1 & H2 & H3 & H4). destruct (decide (step = candidate)) as [->|Hne].
        -- exfalso. apply Heq. congruence.
        -- split_and!; try lia; try done. intros earlier He. apply H3. lia.
  - eexists. split; [reflexivity|]. split; [done|]. intros step. split; [done|].
    intros (Hr & Hs & Hearlier & _). destruct (decide (step = candidate)) as [->|Hne]; [congruence|].
    destruct (Hearlier candidate ltac:(lia)) as (code & Hc' & _). congruence.
  - by destruct (hotp_not_aborted secret candidate digits).
Qed.

(** The window of a sane policy. *)
Definition window_from (policy : TotpPolicy.t) (now : Instant) : Z :=
  Z.max 0 (now / TotpPolicy.step policy - TotpPolicy.pastWindow policy).
Definition window_to (policy : TotpPolicy.t) (now : Instant) : Z :=
  now / TotpPolicy.step policy + TotpPolicy.futureWindow policy.

Lemma window_bounds policy now : totp_sane policy now ->
  firstCandidate policy (now / TotpPolicy.step policy) = window_from policy now /\
  lastCandidate policy (now / TotpPolicy.step policy) = window_to policy now /\
  0 <= window_from policy now <= window_to policy now /\ window_to policy now + 1 < 2 ^ 64 /\
  window_to policy now - window_from policy now <= 20.
Proof.
  intros (_ & Hp & Hf & Hs & _ & Hq)%totp_bounds. unfold firstCandidate, lastCandidate, window_from, window_to, u64.
  rewrite Z.mod_small by lia. destruct (Z.leb_spec (TotpPolicy.pastWindow policy) (now / TotpPolicy.step policy)); lia.
Qed.

Lemma searchAround_spec secret policy presented accepted now : totp_sane policy now ->
  exists r, searchAround secret policy presented accepted (now / TotpPolicy.step policy) = Some r /\ r <> Aborted /\
    forall step, r = Ok step <-> first_match secret (TotpPolicy.digits policy) presented accepted
                                   (window_from policy now) (window_to policy now) step.
Proof.
  intros (E1 & E2 & Hw & Hl & _)%window_bounds. unfold searchAround, windowFuel. rewrite E1, E2.
  apply searchWindow_spec; lia.
Qed.

(** The search for a code ends. Under every policy that can be created and at
    every time a 64-bit clock shows, the loop over the window comes to an end
    within its fuel, after at most 21 candidates, though its counter is an
    unsigned 64-bit number compared with [<=]; [verifyTotp] always answers. *)
Theorem totp_search_ends secret policy presented now accepted :
  totp_sane policy now ->
  window_to policy now - window_from policy now + 1 <= 21 /\
  is_Some (searchAround secret policy presented accepted (now / TotpPolicy.step policy)) /\
  verifyTotp secret policy presented now accepted <> Aborted.
Proof.
  intros Hsane. destruct (window_bounds policy now Hsane) as (_ & _ & _ & _ & Hw). split; [lia|].
  destruct (searchAround_spec secret policy presented accepted now Hsane) as (r & Hr & Hna & _).
  split; [by rewrite Hr|]. unfold verifyTotp. case_match; [done|].
  destruct (totp_bounds policy now Hsane) as (_ & _ & _ & _ & -> & _). cbn [mbind result_bind]. by rewrite Hr.
Qed.

(** C33: A one-time code is accepted exactly when it should be: it has the policy's
    number of decimal digits, and the accepted step is the first in the window
    around the current one whose code it is, and it is later than the last
    step accepted before. *)
Theorem totp_accepts_exactly secret policy presented now accepted step :
  totp_sane policy now ->
  verifyTotp secret policy presented now accepted = Ok step <->
  Z.of_nat (String.length presented) = TotpPolicy.digits policy /\ all_octets decimal_octet presented = true /\
  first_match secret (TotpPolicy.digits policy) presented accepted (window_from policy now) (window_to policy now) step.
Proof.
  intros Hsane. destruct (searchAround_spec secret policy presented accepted now Hsane) as (r & Hr & _ & Hspec).
  unfold verifyTotp. destruct (totp_bounds policy now Hsane) as (_ & _ & _ & _ & -> & _).
  cbn [mbind result_bind]. rewrite Hr. simpl. rewrite <- Hspec.
  destruct (Z.eqb_spec (Z.of_nat (String.length presented)) (TotpPolicy.digits policy)); simpl; [|naive_solver].
  destruct (all_octets decimal_octet presented); simpl; naive_solver.
Qed.

(** ** What a code looks like, and that a fresh one is accepted *)

Lemma decimalModulus_value digits : digits = 6 \/ digits = 8 -> decimalModulus digits = 10 ^ digits.
Proof. by intros [->| ->]. Qed.

(** C40: A code consists of as many decimal digits as the policy says. Whatever the
    MAC, the text [hotp] returns has exactly six or eight octets, all of them
    decimal digits: it always passes the form check of [verifyTotp]. *)
Theorem totp_code_is_decimal secret counter digits code :
  digits = 6 \/ digits = 8 -> hotp secret counter digits = Ok code ->
  Z.of_nat (String.length code) = digits /\ all_octets decimal_octet code = true.
Proof.
  intros Hd Hrun. unfold hotp in Hrun. destruct (_ <? _); [done|].
  destruct (HMAC_sha1 _ _) as [mac|]; [|done]. cbv zeta in Hrun. destruct (_ <? 20); [done|]. destruct (_ <? _); [done|].
  injection Hrun as <-. rewrite decimalModulus_value by done. unfold zero_padded.
  pose proof (Z.mod_pos_bound (truncatedMac mac (Z.land (mac_at mac (Z.of_nat (length mac) - 1)) 15)) (10 ^ digits)
    ltac:(destruct Hd as [-> | ->]; lia)) as Hr.
  revert Hr. generalize (truncatedMac mac (Z.land (mac_at mac (Z.of_nat (length mac) - 1)) 15) mod 10 ^ digits).
  intros n Hr. pose proof (to_string_length n (Z.to_nat digits)
    ltac:(rewrite Z2Nat.id by (destruct Hd; lia); lia) ltac:(destruct Hd; lia)) as Hl.
  split.
  - rewrite iter_zero_length. lia.
  - rewrite iter_zero_octets by done. unfold to_string. destruct (Z.ltb_spec n 0); [lia|].
    rewrite digits_octets by (try lia; by apply digit_is_decimal). done.
Qed.

Lemma searchWindow_finds secret digits presented accepted last fuel candidate step :
  0 <= candidate <= step -> step <= last -> last + 1 < 2 ^ 64 -> (Z.to_nat (last + 1 - candidate) < fuel)%nat ->
  hotp secret step digits = Ok presented ->
  (forall c, candidate <= c <= step -> is_ok (hotp secret c digits) = true) ->
  present_and (fun accepted => candidate <=? accepted) accepted = false ->
  exists found, searchWindow fuel secret digits presented accepted candidate last = Some (Ok found) /\ found <= step.
Proof.
  intros Hc Hs Hl. revert candidate Hc. induction fuel as [|fuel IH]; intros candidate Hc Hf Hcode Hall Hacc; [lia|].
  cbn [searchWindow]. destruct (Z.ltb_spec last candidate); [lia|].
  destruct (hotp secret candidate digits) as [code| |] eqn:E;
    [|specialize (Hall candidate ltac:(lia)); by rewrite E in Hall..].
  rewrite constant_time_equals_spec. case_bool_decide as Heq.
  - rewrite Hacc. exists candidate. split; [done|lia].
  - destruct (decide (candidate = step)) as [->|Hne]; [exfalso; apply Heq; congruence|].
    unfold u64. rewrite Z.mod_small by lia. apply IH; try lia; try done.
    + intros c Hin. apply Hall. lia.
    + destruct accepted as [a|]; [|done]. simpl in *. apply Z.leb_gt in Hacc. apply Z.leb_gt. lia.
Qed.

(** The code of the moment is accepted. A code generated at one time is
    accepted at another when the step of the first lies in the window around
    the second, the generator works, and no step of the window was used up. *)
Theorem totp_round_trip secret policy made now accepted code :
  totp_sane policy made -> totp_sane policy now -> totpAt secret policy made = Ok code ->
  window_from policy now <= made / TotpPolicy.step policy <= window_to policy now ->
  (forall c, is_ok (hotp secret c (TotpPolicy.digits policy)) = true) ->
  present_and (fun accepted => window_from policy now <=? accepted) accepted = false ->
  exists step, verifyTotp secret policy code now accepted = Ok step /\ step <= made / TotpPolicy.step policy.
Proof.
  intros Hmade Hnow Hcode Hin Hall Hacc. unfold totpAt in Hcode.
  destruct (totp_bounds policy made Hmade) as (Hd & _ & _ & _ & E & _). rewrite E in Hcode. cbn in Hcode.
  destruct (totp_code_is_decimal _ _ _ _ Hd Hcode) as [Hlen Hdec].
  destruct (window_bounds policy now Hnow) as (E1 & E2 & Hw & Hl & _).
  destruct (searchWindow_finds secret (TotpPolicy.digits policy) code accepted (window_to policy now)
    (windowFuel policy (now / TotpPolicy.step policy)) (window_from policy now) (made / TotpPolicy.step policy))
    as (found & Hfound & Hle); try done; try lia.
  { unfold windowFuel. rewrite E1, E2. lia. }
  exists found. split; [|done]. unfold verifyTotp. rewrite Hlen, Z.eqb_refl, Hdec. simpl.
  destruct (totp_bounds policy now Hnow) as (_ & _ & _ & _ & -> & _). cbn [mbind result_bind].
  unfold searchAround. by rewrite E1, E2, Hfound.
Qed.
End one_time_codes.

(** ** Base32

    The reference of RFC 4648: the octets as one sequence of bits, cut into
    groups of five, the last one filled with zeros. *)

Definition octet_bits (b : byte) : list bool :=
  (fun i => Z.testbit (byteValue b) (Z.of_nat (7 - i))) <$> seq 0 8.

Definition bits_value (bits : list bool) : Z := foldl (fun v b => 2 * v + Z.b2z b) 0 bits.

Fixpoint quintets (bits : list bool) : string :=
  match bits with
  | a :: b :: c :: d :: e :: rest => String (at_ kBase32Alphabet (bits_value [a; b; c; d; e])) (quintets rest)
  | [] => ""
  | rest => String (at_ kBase32Alphabet (bits_value (rest ++ replicate (5 - length rest) false))) ""
  end.

Lemma bits_value_snoc p b : bits_value (p ++ [b]) = 2 * bits_value p + Z.b2z b.
Proof. unfold bits_value. by rewrite foldl_app. Qed.

Lemma bits_value_app p q : bits_value (p ++ q) = bits_value p * 2 ^ Z.of_nat (length q) + bits_value q.
Proof.
  induction q as [|b q IH] using rev_ind.
  - rewrite app_nil_r. change (bits_value []) with 0. simpl. lia.
  - rewrite app_assoc, !bits_value_snoc, IH, length_app, Nat2Z.inj_add, Z.pow_add_r by lia.
    change (2 ^ Z.of_nat (length [b])) with 2. ring.
Qed.

Lemma bits_value_range p : 0 <= bits_value p < 2 ^ Z.of_nat (length p).
Proof.
  induction p as [|b p IH] using rev_ind; [done|].
  rewrite bits_value_snoc, length_app, Nat2Z.inj_add, Z.pow_add_r by lia.
  change (2 ^ Z.of_nat (length [b])) with 2. destruct b; simpl Z.b2z; lia.
Qed.

Lemma octet_bits_value b : bits_value (octet_bits b) = byteValue b.
Proof. destruct b; reflexivity. Qed.

Lemma octet_bits_eight b : exists b7 b6 b5 b4 b3 b2 b1 b0, octet_bits b = [b7; b6; b5; b4; b3; b2; b1; b0].
Proof. repeat eexists. Qed.

(** What is pending: the low bits of the accumulator. *)
Lemma pushed_octet acc p b :
  (length p < 5)%nat -> endsIn acc (Z.of_nat (length p)) (bits_value p) ->
  endsIn (Z.lor (u32 (Z.shiftl acc 8)) (byteValue b)) (Z.of_nat (length (p ++ octet_bits b)))
    (bits_value (p ++ octet_bits b)).
Proof.
  intros Hp [q ->]. pose proof (byteValue_range b) as Hb. rewrite bits_value_app, octet_bits_value, length_app.
  change (length (octet_bits b)) with 8%nat. change (2 ^ Z.of_nat 8) with 256. rewrite Nat2Z.inj_add.
  change (Z.of_nat 8) with 8. unfold u32. rewrite Z.shiftl_mul_pow2 by lia.
  set (k := Z.of_nat (length p)) in *. set (v := bits_value p).
  assert (E : ((q * 2 ^ k + v) * 2 ^ 8) mod 2 ^ 32 = (((q * 2 ^ k + v) mod 2 ^ 24)) * 2 ^ 8).
  { change (2 ^ 32) with (2 ^ 24 * 2 ^ 8). by rewrite Z.mul_mod_distr_r. }
  rewrite E, <- Z.shiftl_mul_pow2, lor_shiftl_add by lia.
  exists ((q * 2 ^ k + v) / 2 ^ 24 * (- 2 ^ (24 - k)) + q). rewrite (Z.mod_eq (q * 2 ^ k + v)) by lia.
  rewrite Z.pow_add_r by lia. assert (E' : 2 ^ 24 = 2 ^ (24 - k) * 2 ^ k) by (rewrite <- Z.pow_add_r by lia; f_equal; lia).
  rewrite E' at 1. change (2 ^ 8) with 256. ring.
Qed.

(** Five bits leave; the rest stays pending. *)
Lemma drained acc q r :
  length q = 5%nat -> endsIn acc (Z.of_nat (length (q ++ r))) (bits_value (q ++ r)) ->
  base32Symbol (Z.shiftr acc (Z.of_nat (length r))) = at_ kBase32Alphabet (bits_value q) /\
  endsIn acc (Z.of_nat (length r)) (bits_value r).
Proof.
  intros Hq [x ->]. rewrite length_app, Hq, bits_value_app, Nat2Z.inj_add, Z.pow_add_r by lia.
  change (2 ^ Z.of_nat 5) with 32. pose proof (bits_value_range q) as Rq. rewrite Hq in Rq. change (2 ^ Z.of_nat 5) with 32 in Rq.
  pose proof (bits_value_range r) as Rr. split.
  - unfold base32Symbol. f_equal. rewrite (land_low _ 5 31), Z.shiftr_div_pow2 by lia. change (2 ^ 5) with 32.
    replace (x * (32 * 2 ^ Z.of_nat (length r)) + (bits_value q * 2 ^ Z.of_nat (length r) + bits_value r))
      with (bits_value r + (x * 32 + bits_value q) * 2 ^ Z.of_nat (length r)) by ring.
    rewrite Z.div_add, (Z.div_small (bits_value r)) by lia.
    rewrite Z.add_0_l, Z.add_comm, Z.mod_add, Z.mod_small by lia. done.
  - exists (x * 32 + bits_value q). ring.
Qed.

Lemma quintets_five q r : length q = 5%nat ->
  quintets (q ++ r) = String (at_ kBase32Alphabet (bits_value q)) (quintets r).
Proof. intros Hq. do 5 (destruct q as [|? q]; [done|]). by destruct q. Qed.

Lemma flushed acc p : (0 < length p < 5)%nat -> endsIn acc (Z.of_nat (length p)) (bits_value p) ->
  String (base32Symbol (u32 (Z.shiftl acc (5 - Z.of_nat (length p))))) "" = quintets p.
Proof.
  intros Hp [x E]. assert (Hz : forall n, bits_value (replicate n false) = 0).
  { induction n as [|n IH]; [done|]. rewrite replicate_S_end, bits_value_app, IH. reflexivity. }
  assert (Hq : quintets p = String (at_ kBase32Alphabet (bits_value (p ++ replicate (5 - length p) false))) "").
  { destruct p as [|? [|? [|? [|? [|? p]]]]]; simpl in *; try lia; reflexivity. }
  rewrite Hq. unfold base32Symbol. do 2 f_equal.
  pose proof (bits_value_range (p ++ replicate (5 - length p) false)) as R.
  rewrite bits_value_app, Hz in *. rewrite length_app, length_replicate in *.
  replace (length p + (5 - length p))%nat with 5%nat in R by lia.
  rewrite (land_low _ 5 31) by lia. unfold u32. rewrite Z.shiftl_mul_pow2 by lia. subst acc.
  replace (Z.of_nat (5 - length p)) with (5 - Z.of_nat (length p)) in * by lia.
  rewrite Z.mod_mod_divide by (exists (2 ^ 27); reflexivity).
  replace ((x * 2 ^ Z.of_nat (length p) + bits_value p) * 2 ^ (5 - Z.of_nat (length p)))
    with (bits_value p * 2 ^ (5 - Z.of_nat (length p)) + 0 + x * 2 ^ 5).
  - rewrite Z.mod_add, Z.mod_small by lia. done.
  - replace (2 ^ 5) with (2 ^ Z.of_nat (length p) * 2 ^ (5 - Z.of_nat (length p)))
      by (rewrite <- Z.pow_add_r by lia; f_equal; lia). ring.
Qed.

Lemma base32Drain_spec fuel acc l :
  (length l < 5 * S fuel)%nat -> endsIn acc (Z.of_nat (length l)) (bits_value l) ->
  exists out r, base32Drain fuel acc (Z.of_nat (length l)) = (out, Z.of_nat (length r)) /\ (length r < 5)%nat /\
    endsIn acc (Z.of_nat (length r)) (bits_value r) /\
    forall rest, out +:+ quintets (r ++ rest) = quintets (l ++ rest).
Proof.
  revert l. induction fuel as [|fuel IH]; intros l Hl Hacc.
  { exists "", l. split; [done|]. split; [lia|]. split; [done|]. done. }
  cbn [base32Drain]. destruct (Z.leb_spec 5 (Z.of_nat (length l))) as [H5|H5].
  - rewrite <- (take_drop 5 l) in Hacc.
    assert (Hq : length (take 5 l) = 5%nat) by (rewrite length_take; lia).
    destruct (drained acc (take 5 l) (drop 5 l) Hq Hacc) as [Hsym Hrest].
    destruct (IH (drop 5 l)) as (out & r & Hrun & Hr & Hacc' & Hout); [rewrite length_drop; lia|done|].
    replace (Z.of_nat (length l) - 5) with (Z.of_nat (length (drop 5 l))) by (rewrite length_drop; lia).
    rewrite Hrun, Hsym. exists (String (at_ kBase32Alphabet (bits_value (take 5 l))) out), r.
    split; [done|]. split; [done|]. split; [done|]. intros rest. rewrite sapp_cons, Hout.
    rewrite <- quintets_five by done. by rewrite app_assoc, take_drop.
  - exists "", l. split; [done|]. split; [lia|]. split; [done|]. done.
Qed.

Lemma base32Loop_spec bytes acc p :
  (length p < 5)%nat -> endsIn acc (Z.of_nat (length p)) (bits_value p) ->
  base32Loop bytes acc (Z.of_nat (length p)) = quintets (p ++ flat_map octet_bits bytes).
Proof.
  revert acc p. induction bytes as [|b bytes IH]; intros acc p Hp Hacc; cbn [base32Loop flat_map].
  - rewrite app_nil_r. destruct (Z.ltb_spec 0 (Z.of_nat (length p))); [apply flushed; [lia|done]|].
    by destruct p; [|simpl in *; lia].
  - apply (pushed_octet acc p b Hp) in Hacc.
    assert (Hlen : length (p ++ octet_bits b) = (length p + 8)%nat) by apply length_app.
    destruct (base32Drain_spec 2 _ _ ltac:(rewrite Hlen; lia) Hacc) as (out & r & Hrun & Hr & Hacc' & Hout).
    replace (Z.of_nat (length p) + 8) with (Z.of_nat (length (p ++ octet_bits b))) by (rewrite Hlen; lia).
    rewrite Hrun, IH by done. by rewrite Hout, app_assoc.
Qed.

(** The text of a seed is Base32. The loop that keeps pending bits in a 32-bit
    accumulator, whose high bits overflow, writes for every text what RFC 4648
    prescribes (without its padding): the octets as one sequence of bits in
    groups of five, the last group filled with zeros. *)
Theorem base32_is_rfc4648 bytes : base32 bytes = quintets (flat_map octet_bits (as_bytes bytes)).
Proof. apply (base32Loop_spec (as_bytes bytes) 0 []); [simpl; lia|by exists 0]. Qed.

(** ** Recovery codes *)

Section recovery_codes.
Context `{Plat : Platform, !PlatformLaws Plat}.
Import InMemoryRecoveryCodeRepository(replace, consume, eraseMatching).

Abbreviation codes := (gmap IdentityId (list RecoveryCodeDigest)).

Implicit Types (i : IdentityId) (d : RecoveryCodeDigest) (m : codes).

(** How often a digest occurs in a list. *)
Definition occurrences d (l : list RecoveryCodeDigest) : nat := length (filter (fun x => x = d) l).

Definition unused i d m : nat := match m !! i with Some l => occurrences d l | None => 0 end.

Lemma eraseMatching_some d l l' :
  eraseMatching d l = Some l' -> forall x, occurrences x l = ((if decide (x = d) then 1 else 0) + occurrences x l')%nat.
Proof.
  revert l'. induction l as [|c l IH]; intros l'; cbn [eraseMatching]; [done|].
  rewrite constant_time_equals_spec. unfold occurrences in *. case_bool_decide as Hc.
  - intros [= <-] x. subst c. rewrite filter_cons. destruct (decide (x = d)) as [->|Hx].
    + by rewrite decide_True by done.
    + by rewrite decide_False by congruence.
  - destruct (eraseMatching d l) as [l0|] eqn:E; [|done]. intros [= <-] x. rewrite !filter_cons.
    specialize (IH l0 eq_refl x). destruct (decide (c = x)); cbn [length]; lia.
Qed.

Lemma eraseMatching_none d l : eraseMatching d l = None <-> occurrences d l = 0%nat.
Proof.
  induction l as [|c l IH]; cbn [eraseMatching]; [done|]. rewrite constant_time_equals_spec.
  unfold occurrences in *. rewrite filter_cons. case_bool_decide as Hc.
  - subst c. rewrite decide_True by done. simpl. split; [done|lia].
  - rewrite decide_False by done. destruct (eraseMatching d l); [|naive_solver]. split; [done|]. intros H.
    apply IH in H. done.
Qed.

Lemma occurrences_NoDup d l : NoDup l -> occurrences d l = if decide (d ∈ l) then 1%nat else 0%nat.
Proof.
  unfold occurrences. induction 1 as [|x l Hx Hl IH]; [done|]. rewrite filter_cons.
  destruct (decide (x = d)) as [->|Hne].
  - cbn [length]. rewrite IH, decide_False by done. by rewrite decide_True by set_solver.
  - rewrite IH. destruct (decide (d ∈ l)), (decide (d ∈ x :: l)); set_solver.
Qed.

Lemma replace_cases i l m :
  (is_ok (replace i l m).1 = false /\ (replace i l m).2 = m) \/
  (NoDup l /\ (replace i l m).1 = ok /\ forall j x, unused j x (replace i l m).2 =
     if decide (j = i) then occurrences x l else unused j x m).
Proof.
  unfold replace. destruct (_ || _); [by left|]. destruct (has_adjacent (sort_keys l)) eqn:Ha; [by left|]. right.
  apply has_adjacent_sorted in Ha; [|apply sort_keys_sorted]. assert (Hperm : sort_keys l ≡ₚ l) by apply merge_sort_Permutation.
  assert (Hocc : forall x, occurrences x (sort_keys l) = occurrences x l).
  { intros x. unfold occurrences. by rewrite Hperm. }
  split; [by rewrite <- Hperm|]. case_bool_decide as Hnil; cbn [fst snd]; split; try done; intros j x; unfold unused.
  - destruct (decide (j = i)) as [->|Hne]; [|by rewrite lookup_delete_ne].
    rewrite lookup_delete_eq. rewrite <- Hocc, Hnil. done.
  - destruct (decide (j = i)) as [->|Hne]; [|by rewrite lookup_insert_ne]. by rewrite lookup_insert_eq.
Qed.

Lemma consume_cases i d m :
  (is_ok (consume i d m).1 = false /\ (consume i d m).2 = m /\ unused i d m = 0%nat) \/
  ((consume i d m).1 = ok /\ forall j x,
     unused j x m = ((if decide (j = i /\ x = d) then 1 else 0) + unused j x (consume i d m).2)%nat).
Proof.
  unfold consume, unused. destruct (m !! i) as [l|] eqn:Hl; [|by left].
  destruct (eraseMatching d l) as [l'|] eqn:He.
  - right. split; [done|]. intros j x. cbn [snd]. destruct (decide (j = i)) as [->|Hne].
    + rewrite Hl, lookup_insert_eq, (eraseMatching_some _ _ _ He).
      destruct (decide (x = d)), (decide (i = i /\ x = d)); naive_solver.
    + rewrite lookup_insert_ne by done. by rewrite decide_False by naive_solver.
  - left. split; [done|]. split; [done|]. by apply eraseMatching_none.
Qed.

(** The operations of a store, in any order, for any identities. *)
Inductive recovery_op :=
| Replace (identity : IdentityId) (digests : list RecoveryCodeDigest)
| Consume (identity : IdentityId) (digest : RecoveryCodeDigest).

Definition recovery_step (o : recovery_op) m : codes :=
  match o with Replace i l => (replace i l m).2 | Consume i d => (consume i d m).2 end.

Definition uses_code i d (o : recovery_op) m : bool :=
  match o with
  | Consume j x => bool_decide (j = i /\ x = d) && is_ok (consume j x m).1
  | Replace _ _ => false
  end.

Definition grants_code i d (o : recovery_op) m : bool :=
  match o with
  | Replace j l => bool_decide (j = i /\ d ∈ l) && is_ok (replace j l m).1
  | Consume _ _ => false
  end.

Lemma recovery_count_step i d o m :
  ((if uses_code i d o m then 1 else 0) + unused i d (recovery_step o m)
   <= (if grants_code i d o m then 1 else 0) + unused i d m)%nat.
Proof.
  destruct o as [j l|j x]; cbn [uses_code grants_code recovery_step].
  - destruct (replace_cases j l m) as [[-> ->]|(Hnd & -> & Hu)]; [rewrite andb_false_r; lia|].
    rewrite Hu, andb_true_r. destruct (decide (i = j)) as [->|Hne].
    + rewrite occurrences_NoDup by done.
      destruct (decide (d ∈ l)); [rewrite bool_decide_eq_true_2 by done; lia|]. destruct (bool_decide _); lia.
    + destruct (bool_decide _); lia.
  - destruct (consume_cases j x m) as [(-> & -> & _)|[-> Hu]]; [rewrite andb_false_r; lia|].
    rewrite (Hu i d), andb_true_r. case_bool_decide as Hc.
    + destruct Hc as [-> ->]. rewrite decide_True by done. lia.
    + destruct (decide (i = j /\ d = x)) as [[-> ->]|]; [naive_solver|lia].
Qed.

(** A recovery code works once. In every history of replacements and uses, for
    any identities and in any order, a code of an identity is accepted at most
    as often as a set that contains it was stored for that identity: a code is
    used up by its first use, and a set revokes what it replaces. *)
Theorem recovery_code_is_single_use i d ops :
  (count_steps recovery_step (uses_code i d) ops ∅ <= count_steps recovery_step (grants_code i d) ops ∅)%nat.
Proof.
  pose proof (taken_within_given recovery_step (uses_code i d) (grants_code i d) (unused i d) ops ∅
    (recovery_count_step i d)) as H.
  change (unused i d ∅) with 0%nat in H. lia.
Qed.

(** ** A batch of codes *)

Section batch.
Context (pepper : string).

Abbreviation state := (with_world codes world).

(** The digest of a code the key accepts. *)
Definition digest_of (code : string) : RecoveryCodeDigest :=
  match RecoveryCodeService.digest pepper code with Ok d => d | _ => [] end.

Lemma drawCodes_ok count (s s' : state) drawn :
  RecoveryCodeService.drawCodes pepper count s = (Ok drawn, s') ->
  v_store s' = v_store s /\ length drawn = count /\
  Forall (fun p => RecoveryCodeService.digest pepper p.1 = Ok p.2) drawn.
Proof.
  revert s s' drawn. induction count as [|count IH]; intros s s' drawn; cbn [RecoveryCodeService.drawCodes].
  { by intros [= <- <-]. }
  intros (code & s1 & Hc & (d & s2 & [Hd ->]%lift_ok & (rest & s3 & Hrest & [= <- <-])%prog_bind_ok)%prog_bind_ok)%prog_bind_ok.
  apply in_world_moved in Hc as (w & _ & ->). destruct (IH _ _ _ Hrest) as (Hs & Hl & Hall).
  split; [exact Hs|]. split; [simpl; congruence|]. by constructor.
Qed.

Lemma issue_codes_ok identity count (s s' : state) batch :
  RecoveryCodeService.issue pepper identity count s = (Ok batch, s') ->
  length batch = count /\ NoDup (digest_of <$> batch) /\
  Forall (fun c => RecoveryCodeService.digest pepper c = Ok (digest_of c)) batch /\
  forall j x, unused j x (v_store s') = if decide (j = identity) then occurrences x (digest_of <$> batch)
                                        else unused j x (v_store s).
Proof.
  unfold RecoveryCodeService.issue. destruct (_ || _); [done|].
  intros (drawn & s1 & Hdraw & ([] & s2 & Hrep & [= <- <-])%prog_bind_ok)%prog_bind_ok.
  apply drawCodes_ok in Hdraw as (Hs & Hl & Hall). rewrite in_store_run in Hrep. injection Hrep as Hok <-.
  assert (Hd : drawn.*2 = digest_of <$> drawn.*1).
  { rewrite <- list_fmap_compose. apply list_fmap_ext. intros k p Hp. rewrite Forall_lookup in Hall.
    unfold digest_of. simpl. by rewrite (Hall k p Hp). }
  cbn [rcr_replace InMemoryRecoveryCodeRepository.repository] in *.
  destruct (replace_cases identity drawn.*2 (v_store s1)) as [[Hno _]|(Hnd & _ & Hu)]; [by rewrite Hok in Hno|].
  rewrite <- Hd. split; [by rewrite length_fmap|]. split; [done|]. split.
  - apply Forall_fmap. eapply Forall_impl; [exact Hall|]. intros p Hp. simpl. unfold digest_of. by rewrite Hp.
  - intros j x. cbn [v_store]. by rewrite Hu, Hs.
Qed.

Lemma consume_code identity code d (s : state) :
  RecoveryCodeService.digest pepper code = Ok d ->
  RecoveryCodeService.consume pepper identity code s
  = ((consume identity d (v_store s)).1, mkWith (consume identity d (v_store s)).2 (v_world s)).
Proof.
  intros Hd. unfold RecoveryCodeService.consume. rewrite Hd. unfold mbind, prog_bind, lift. apply in_store_run.
Qed.

(** Presenting codes one after the other: were all accepted? *)
Fixpoint consume_all identity (presented : list string) (s : state) : bool * state :=
  match presented with
  | [] => (true, s)
  | code :: presented =>
      let '(r, s) := RecoveryCodeService.consume pepper identity code s in
      let '(all, s) := consume_all identity presented s in (is_ok r && all, s)
  end.

Lemma consume_all_ok identity presented (s : state) :
  Forall (fun c => RecoveryCodeService.digest pepper c = Ok (digest_of c)) presented ->
  (forall x, (occurrences x (digest_of <$> presented) <= unused identity x (v_store s))%nat) ->
  (consume_all identity presented s).1 = true /\
  forall x, unused identity x (v_store s)
            = (occurrences x (digest_of <$> presented) + unused identity x (v_store (consume_all identity presented s).2))%nat.
Proof.
  intros Hall. revert s. induction Hall as [|c presented Hc Hall IH]; intros s Hocc; cbn [consume_all]; [done|].
  rewrite (consume_code _ _ _ _ Hc). unfold occurrences in Hocc. cbn [fmap list_fmap] in Hocc.
  assert (Hstep : forall x, (occurrences x (digest_of <$> presented) + (if decide (x = digest_of c) then 1 else 0)
                             <= unused identity x (v_store s))%nat).
  { intros x. specialize (Hocc x). rewrite filter_cons in Hocc. unfold occurrences.
    destruct (decide (digest_of c = x)), (decide (x = digest_of c)); simpl in *; try congruence; lia. }
  destruct (consume_cases identity (digest_of c) (v_store s)) as [(_ & _ & H0)|[Hok Hu]].
  { specialize (Hstep (digest_of c)). rewrite decide_True in Hstep by done. lia. }
  set (s1 := mkWith (consume identity (digest_of c) (v_store s)).2 (v_world s)).
  destruct (IH s1) as [Hrest Hun].
  { intros x. specialize (Hstep x). rewrite (Hu identity x) in Hstep. simpl.
    destruct (decide (x = digest_of c)), (decide (identity = identity /\ x = digest_of c)); naive_solver lia. }
  destruct (consume_all identity presented s1) as [all s2]. simpl in *. rewrite Hok, Hrest. split; [done|].
  intros x. rewrite (Hu identity x), (Hun x). unfold occurrences. rewrite filter_cons.
  destruct (decide (digest_of c = x)), (decide (identity = identity /\ x = digest_of c)); simpl; naive_solver lia.
Qed.

(** Recovery codes work, each once, in any order. When [issue] succeeds it
    returns as many codes as were asked for; whichever different ones of them
    are presented, in whatever order, all are accepted; and then a presented
    text is accepted exactly when it has the digest of a code of the batch that
    was not presented yet. Codes of an earlier batch no longer count, and no
    other identity's codes are touched. *)
Theorem recovery_codes_round_trip identity count (s s1 : state) batch used :
  RecoveryCodeService.issue pepper identity count s = (Ok batch, s1) -> NoDup used -> used ⊆ batch ->
  length batch = count /\ (consume_all identity used s1).1 = true /\
  (forall presented, is_ok (RecoveryCodeService.consume pepper identity presented (consume_all identity used s1).2).1 = true
     <-> exists code, code ∈ batch /\ code ∉ used /\
           RecoveryCodeService.digest pepper presented = RecoveryCodeService.digest pepper code) /\
  forall other x, other <> identity -> unused other x (v_store s1) = unused other x (v_store s).
Proof.
  intros (Hl & Hnd & Hall & Hu)%issue_codes_ok Hused Hsub. split; [done|].
  assert (Hperm : exists left, batch ≡ₚ used ++ left).
  { apply submseteq_Permutation, NoDup_submseteq; [done|]. intros x. apply Hsub. }
  destruct Hperm as [left Hperm].
  assert (Hocc : forall x, unused identity x (v_store s1)
                           = (occurrences x (digest_of <$> used) + occurrences x (digest_of <$> left))%nat).
  { intros x. rewrite Hu, decide_True by done. unfold occurrences.
    by rewrite Hperm, fmap_app, filter_app, length_app. }
  assert (Hallu : Forall (fun c => RecoveryCodeService.digest pepper c = Ok (digest_of c)) used).
  { rewrite Hperm, Forall_app in Hall. apply Hall. }
  destruct (consume_all_ok identity used s1 Hallu) as [Hok Hun]; [intros x; rewrite Hocc; lia|].
  split; [done|]. split; [|intros other x Ho; rewrite Hu; by rewrite decide_False].
  assert (Hleft : forall x, unused identity x (v_store (consume_all identity used s1).2) = occurrences x (digest_of <$> left)).
  { intros x. specialize (Hun x). rewrite Hocc in Hun. lia. }
  rewrite Hperm in Hnd, Hall. rewrite fmap_app in Hnd. apply NoDup_app in Hnd as (_ & Hdisj & Hndl).
  rewrite Forall_app in Hall. destruct Hall as [_ Halll]. rewrite Forall_forall in Halll.
  intros presented. split.
  - intros Hc. destruct (RecoveryCodeService.digest pepper presented) as [d| |] eqn:Hd;
      [|unfold RecoveryCodeService.consume in Hc; by rewrite Hd in Hc..].
    rewrite (consume_code _ _ _ _ Hd) in Hc. cbn [fst] in Hc.
    destruct (consume_cases identity d (v_store (consume_all identity used s1).2)) as [(Hno & _)|[_ Hpos]]; [by rewrite Hno in Hc|].
    specialize (Hpos identity d). rewrite decide_True, Hleft, occurrences_NoDup in Hpos by done.
    destruct (decide (d ∈ digest_of <$> left)) as [Hin|]; [|lia].
    apply list_elem_of_fmap in Hin as (code & -> & Hcode). exists code. rewrite (Halll code Hcode). split_and!; [|  |done].
    + rewrite Hperm, elem_of_app. by right.
    + intros Hu'. apply (Hdisj (digest_of code)); apply list_elem_of_fmap; eauto.
  - intros (code & Hcode & Hnot & Hd). assert (Hin : code ∈ left).
    { rewrite Hperm, elem_of_app in Hcode. naive_solver. }
    rewrite (Halll code Hin) in Hd. rewrite (consume_code _ _ _ _ Hd). cbn [fst].
    destruct (consume_cases identity (digest_of code) (v_store (consume_all identity used s1).2)) as [(_ & _ & H0)|[-> _]]; [|done].
    rewrite Hleft, occurrences_NoDup, decide_True in H0 by (try done; apply list_elem_of_fmap; eauto). done.
Qed.
End batch.
End recovery_codes.

(** ** A hasher, a seed and a batch of codes *)

Module CredentialWitnesses.
Import TestPlatform.

Definition sample_argon2 : string :=
  "$argon2id$v=19$m=65536,t=3,p=1$c29tZXNhbHRzb21lc2FsdA$AAECAwQFBgcICQoLDA0ODxAREhMUFRYXGBkaGxwdHh8".

#[global] Instance test_credentials : CredentialPlatform := {
  HMAC_sha1 key message := Some (take 20 (checksum (key ++ message)));
  EVP_PBE_scrypt secret salt n r p m size :=
    let total := foldl (fun acc b => u32 (acc * 31 + byteValue b + 7)) 1 (secret ++ salt) in
    Some ((fun i => toByte (total + Z.of_nat i)) <$> seq 0 size);
  sodium := Some {| sodium_ready := true;
                    crypto_pwhash_str material w := (Some sample_argon2, w);
                    crypto_pwhash_str_verify encoded material := bool_decide (encoded = sample_argon2);
                    crypto_pwhash_str_needs_rehash encoded := false |};
}.

#[global] Instance test_credentials_laws : CredentialLaws test_credentials.
Proof.
  split.
  - intros secret salt n r p m size out [= <-]. by rewrite length_fmap, length_seq.
  - intros s material w encoded w' [= <-] [= <- <-]. split; vm_compute; reflexivity.
Qed.

Definition hasher : PasswordHasher.t :=
  PasswordHasher.mk "0123456789abcdef0123456789abcdef" PasswordPolicy.recommended "scrypt".

Lemma recommended_is_created : created PasswordPolicy.recommended.
Proof. exists 32768, 8, 1, 16%nat, 32%nat, 67108864. split; [done|]. split; [done|]. vm_compute. reflexivity. Qed.

Definition hashing : prog (world (Platform:=test)) Error PasswordHash.t :=
  PasswordHasher.hash (Plat:=test) hasher "correct horse".
Definition stored : PasswordHash.t := match (hashing 5).1 with Ok h => h | _ => PasswordHash.mk "" end.

Lemma password_hash_round_trip_witness : PasswordHasher.verify (Plat:=test) hasher "correct horse" stored = Ok true.
Proof.
  destruct (password_hash_round_trip (Plat:=test) hasher "correct horse" 5 stored (hashing 5).2) as [H _]; [| |exact H].
  - exact recommended_is_created.
  - apply (run_as (hashing 5)). vm_compute. reflexivity.
Defined.

(** Another password does not verify, and neither does a text that is no hash. *)
Example wrong_password :
  PasswordHasher.verify hasher "incorrect horse" stored = Ok false /\
  is_ok (PasswordHasher.verify hasher "correct horse" (PasswordHash.mk "scrypt$v1$3$8$1$67108864$AA$AA")) = false.
Proof. split; vm_compute; reflexivity. Qed.

Definition seed : TotpSecret.t := TotpSecret.mk "12345678901234567890".

Lemma recommended_is_sane now : 0 <= now < 2 ^ 63 -> totp_sane TotpPolicy.recommended now.
Proof. intros Hnow. split; [|done]. exists (seconds 30), 6, 1, 1. done. Qed.

Definition code_at_noon : string :=
  match totpAt seed TotpPolicy.recommended 43200000 with Ok code => code | _ => "" end.

Lemma totp_search_ends_witness :
  verifyTotp seed TotpPolicy.recommended "000000" 43200000 None <> Aborted.
Proof. apply (totp_search_ends seed TotpPolicy.recommended "000000" 43200000 None), recommended_is_sane. lia. Defined.

Lemma totp_accepts_exactly_witness :
  verifyTotp seed TotpPolicy.recommended code_at_noon 43200000 None = Ok 1440.
Proof.
  apply (totp_accepts_exactly seed TotpPolicy.recommended code_at_noon 43200000 None 1440).
  - apply recommended_is_sane. lia.
  - split; [vm_compute; reflexivity|]. split; [vm_compute; reflexivity|]. split; [vm_compute; split; discriminate|].
    split; [vm_compute; reflexivity|]. split; [|reflexivity]. intros earlier He.
    replace earlier with 1439 by (change (window_from TotpPolicy.recommended 43200000) with 1439 in He; lia).
    eexists. split; [vm_compute; reflexivity|]. vm_compute. discriminate.
Defined.

Lemma totp_code_is_decimal_witness :
  Z.of_nat (String.length code_at_noon) = 6 /\ all_octets decimal_octet code_at_noon = true.
Proof.
  apply (totp_code_is_decimal seed 1440 6 code_at_noon); [by left|]. vm_compute. reflexivity.
Defined.

Lemma test_mac key message : exists mac, HMAC_sha1 key message = Some mac /\ length mac = 20%nat.
Proof. eexists. split; [reflexivity|]. unfold checksum. by rewrite length_take, length_fmap, length_seq. Qed.

Lemma seed_codes c : is_ok (hotp seed c 6) = true.
Proof. apply hotp_works; [done|]. apply test_mac. Qed.

(** A code made at noon is accepted half a minute later, on the next step. *)
Lemma totp_round_trip_witness : exists step,
  verifyTotp seed TotpPolicy.recommended code_at_noon 43230000 None = Ok step /\ step <= 1440.
Proof.
  apply (totp_round_trip seed TotpPolicy.recommended 43200000 43230000 None code_at_noon).
  - apply recommended_is_sane. lia.
  - apply recommended_is_sane. lia.
  - vm_compute. reflexivity.
  - vm_compute. split; discriminate.
  - apply seed_codes.
  - reflexivity.
Defined.

Definition no_codes : with_world (gmap IdentityId (list RecoveryCodeDigest)) (world (Platform:=test)) := mkWith ∅ 7.
Definition pepper : string := "0123456789abcdef0123456789abcdef".
Definition issuing := RecoveryCodeService.issue (Plat:=test) pepper (mkId "alice") 3 no_codes.
Definition batch : list string := match issuing.1 with Ok codes => codes | _ => [] end.

Definition presented : list string := [nth 2 batch ""; nth 0 batch ""].
Definition after_two := consume_all (Plat:=test) pepper (mkId "alice") presented issuing.2.
Definition third :=
  RecoveryCodeService.consume (Plat:=test) (T:=gmap IdentityId (list RecoveryCodeDigest)) pepper (mkId "alice") (nth 2 batch "") after_two.2.

(** Two codes are used, in another order; one of them is presented again. *)
Lemma recovery_codes_round_trip_witness : after_two.1 = true /\ is_ok third.1 = false.
Proof.
  destruct (recovery_codes_round_trip (Plat:=test) pepper (mkId "alice") 3 no_codes issuing.2 batch presented)
    as (_ & Hall & _).
  - apply (run_as issuing). vm_compute. reflexivity.
  - apply (bool_decide_unpack _). vm_compute. exact I.
  - intros x Hx. apply (bool_decide_unpack (x ∈ batch)).
    apply elem_of_cons in Hx as [->|[->|Hx]%elem_of_cons]; [vm_compute; exact I..|]. destruct (not_elem_of_nil _ Hx).
  - split; [exact Hall|]. vm_compute. reflexivity.
Defined.

(** A set with two codes, one of which is presented twice. *)
Definition two_uses : list recovery_op :=
  let d := digest_of (Plat:=test) pepper "first" in
  [Replace (mkId "alice") [d; digest_of (Plat:=test) pepper "second"];
   Consume (mkId "alice") d; Consume (mkId "alice") d].

Lemma recovery_code_is_single_use_witness :
  (count_steps (recovery_step (Plat:=test))
     (uses_code (Plat:=test) (mkId "alice") (digest_of (Plat:=test) pepper "first")) two_uses ∅ <= 1)%nat.
Proof.
  exact (recovery_code_is_single_use (Plat:=test) (mkId "alice") (digest_of (Plat:=test) pepper "first") two_uses).
Defined.
End CredentialWitnesses.
