(* ===== verification/LocalAccounts.v ===== *)
(** * openproof.provider.local: local passwords and second factors

    Models [src/src/providers/local/local.cpp]: the directory of local accounts
    with its password and one-time-code checks, and the provider that turns
    what a user presents into an authentication outcome. Each operation of the
    directory is one step; an account is its password hash, its seed and the
    last accepted step. *)
From S2P Require Import Prelude Foundation Encoding Security Provider IdentityCore Link Wire Authorization Pushed Credentials.

Inductive LocalVerification := Password | PasswordAndTotp | PasswordAndRecoveryCode.

#[global] Instance LocalVerification_eq_dec : EqDecision LocalVerification.
Proof. solve_decision. Defined.

(** ** The directory *)

Definition isValidSubject (subject : ExternalSubject) : bool :=
  let value := id_value subject in
  negb (bool_decide (value = "")) && (String.length value <=? 320)%nat && negb (any_octet control_octet value).

Section interface.
Context `{Plat : Platform}.

(** The virtual interface; an operation may draw random octets. *)
Class LocalAccountDirectory (T : Type) := {
  lad_enroll : ExternalSubject -> string -> option TotpSecret.t -> prog (with_world T world) Error unit;
  lad_enrollPending : IdentityId -> ExternalSubject -> string -> option TotpSecret.t ->
    prog (with_world T world) Error unit;
  lad_rebindSubject : IdentityId -> ExternalSubject -> ExternalSubject -> prog (with_world T world) Error unit;
  lad_removePending : IdentityId -> ExternalSubject -> prog (with_world T world) Error unit;
  lad_changePassword : ExternalSubject -> string -> prog (with_world T world) Error unit;
  lad_verifyPassword : ExternalSubject -> string -> prog (with_world T world) Error unit;
  lad_passwordUpgradeNeeded : ExternalSubject -> prog (with_world T world) Error bool;
  lad_confirmPasswordUpgrade : ExternalSubject -> string -> prog (with_world T world) Error bool;
  lad_hasTotp : ExternalSubject -> prog (with_world T world) Error bool;
  lad_replaceTotp : ExternalSubject -> TotpSecret.t -> string -> Instant -> prog (with_world T world) Error unit;
  lad_removeTotp : ExternalSubject -> prog (with_world T world) Error unit;
  lad_verify : ExternalSubject -> string -> option string -> Instant ->
    prog (with_world T world) Error LocalVerification;
}.
End interface.

Module Account.
Record t := mk {
  identity : option IdentityId;
  password : PasswordHash.t;
  totp : option TotpSecret.t;
  lastAcceptedTotpStep : option Z;
}.

(** The constructor. *)
Definition create (password : PasswordHash.t) (totp : option TotpSecret.t) (identity : option IdentityId) : t :=
  mk identity password totp None.

Definition set_identity (identity : IdentityId) (a : t) : t :=
  mk (Some identity) (password a) (totp a) (lastAcceptedTotpStep a).
Definition set_password (password : PasswordHash.t) (a : t) : t :=
  mk (identity a) password (totp a) (lastAcceptedTotpStep a).
Definition set_totp (totp : option TotpSecret.t) (step : option Z) (a : t) : t :=
  mk (identity a) (password a) totp step.
End Account.

Module InMemoryLocalAccountDirectory.
Section directory.
Context `{Plat : Platform, !CredentialPlatform}.

Abbreviation t := (gmap ExternalSubject Account.t).
Abbreviation handler B := (prog (with_world t world) Error B).

(** [create]: the dummy hash is what an unknown subject's password is checked
    against. *)
Definition create (passwordHasher : PasswordHasher.t) : prog world Error PasswordHash.t :=
  PasswordHasher.hash passwordHasher "xxxxxxxxxxxxxxxxxxxxxxxxxxxxxxxx".

Context (m_passwordHasher : PasswordHasher.t) (m_totpPolicy : TotpPolicy.t) (m_dummyHash : PasswordHash.t).

Definition find (subject : ExternalSubject) : handler (option Account.t) :=
  query (fun m_accounts => Ok (m_accounts !! subject)).
Definition store (subject : ExternalSubject) (account : Account.t) : handler unit :=
  in_store (fun m_accounts => (ok, <[subject := account]> m_accounts)).
Definition erase (subject : ExternalSubject) : handler unit :=
  in_store (fun m_accounts => (ok, delete subject m_accounts)).
Definition hashPassword (password : string) : handler PasswordHash.t :=
  in_world (PasswordHasher.hash m_passwordHasher password).
Definition unknown {B} : handler B := throw (authenticationFailure "Local account is unknown.").

(** The work done for a subject without account. *)
Definition refuseUnknown {B} (password : string) : handler B :=
  _ ← lift (PasswordHasher.verify m_passwordHasher password m_dummyHash);
  unknown.

Definition enroll (subject : ExternalSubject) (password : string) (totp : option TotpSecret.t) : handler unit :=
  if negb (isValidSubject subject) then
    throw (Error_ofMessage InvalidArgument "The local account subject is invalid.")
  else
    passwordHash ← hashPassword password;
    found ← find subject;
    if bool_decide (is_Some found) then
      throw (Error_ofMessage AlreadyExists "The local account already exists.")
    else store subject (Account.create passwordHash totp None).

Definition enrollPending (canonicalIdentity : IdentityId) (subject : ExternalSubject) (password : string)
    (totp : option TotpSecret.t) : handler unit :=
  if id_empty canonicalIdentity || negb (isValidSubject subject) then
    throw (Error_ofMessage InvalidArgument "A pending local account requires valid identity and subject values.")
  else
    passwordHash ← hashPassword password;
    found ← find subject;
    if bool_decide (is_Some found) then
      throw (Error_ofMessage AlreadyExists "The local account already exists.")
    else store subject (Account.create passwordHash totp (Some canonicalIdentity)).

Definition rebindSubject (identity : IdentityId) (previous replacement : ExternalSubject) : handler unit :=
  if id_empty identity || id_empty previous || negb (isValidSubject replacement) then
    throw (Error_ofMessage InvalidArgument "A local account rebind requires valid identifiers.")
  else
    taken ← find replacement;
    if bool_decide (is_Some taken) then
      throw (Error_ofMessage AlreadyExists "The replacement local account subject already exists.")
    else
      found ← find previous;
      match found with
      | None => unknown
      | Some account =>
          if present_and (fun owner => negb (bool_decide (owner = identity))) (Account.identity account) then
            throw (Error_ofMessage PermissionDenied "The local account is owned by another identity.")
          else
            _ ← erase previous;
            store replacement (Account.set_identity identity account)
      end.

Definition removePending (identity : IdentityId) (subject : ExternalSubject) : handler unit :=
  found ← find subject;
  match found with
  | None => mret tt
  | Some account =>
      if negb (bool_decide (Account.identity account = Some identity)) then
        throw (Error_ofMessage PermissionDenied "The pending local account is owned by another identity.")
      else erase subject
  end.

Definition changePassword (subject : ExternalSubject) (password : string) : handler unit :=
  passwordHash ← hashPassword password;
  found ← find subject;
  match found with
  | None => unknown
  | Some account => store subject (Account.set_password passwordHash account)
  end.

(** The password check the operations share. *)
Definition checkPassword (password : string) (account : Account.t) (detail : string) : handler unit :=
  passwordMatches ← lift (PasswordHasher.verify m_passwordHasher password (Account.password account));
  if negb passwordMatches then throw (authenticationFailure detail) else mret tt.

Definition verifyPassword (subject : ExternalSubject) (password : string) : handler unit :=
  found ← find subject;
  match found with
  | None => refuseUnknown password
  | Some account => checkPassword password account "Local password did not verify."
  end.

Definition passwordUpgradeNeeded (subject : ExternalSubject) : handler bool :=
  if negb (PasswordHasher.prefersArgon2id m_passwordHasher) then mret false
  else
    found ← find subject;
    match found with
    | None => unknown
    | Some account => lift (PasswordHasher.needsRehash m_passwordHasher (Account.password account))
    end.

Definition confirmPasswordUpgrade (subject : ExternalSubject) (password : string) : handler bool :=
  if negb (PasswordHasher.prefersArgon2id m_passwordHasher) then
    throw (Error_ofMessage FailedPrecondition "Argon2id is not the selected password algorithm.")
  else
    found ← find subject;
    match found with
    | None => refuseUnknown password
    | Some account =>
        _ ← checkPassword password account "Local credential verification failed.";
        needed ← lift (PasswordHasher.needsRehash m_passwordHasher (Account.password account));
        if negb needed then mret false
        else
          upgraded ← hashPassword password;
          _ ← store subject (Account.set_password upgraded account);
          mret true
    end.

Definition hasTotp (subject : ExternalSubject) : handler bool :=
  found ← find subject;
  match found with
  | None => unknown
  | Some account => mret (bool_decide (is_Some (Account.totp account)))
  end.

Definition replaceTotp (subject : ExternalSubject) (secret : TotpSecret.t) (verificationCode : string) (now : Instant)
    : handler unit :=
  found ← find subject;
  match found with
  | None => unknown
  | Some account =>
      accepted ← lift (verifyTotp secret m_totpPolicy verificationCode now None);
      store subject (Account.set_totp (Some secret) (Some accepted) account)
  end.

Definition removeTotp (subject : ExternalSubject) : handler unit :=
  found ← find subject;
  match found with
  | None => unknown
  | Some account =>
      if bool_decide (Account.totp account = None) then
        throw (Error_ofMessage FailedPrecondition "TOTP is not enabled for this local account.")
      else store subject (Account.set_totp None None account)
  end.

(** The silent upgrade of a verified password; its failures are ignored. *)
Definition upgradePassword (subject : ExternalSubject) (password : string) (account : Account.t) : handler unit :=
  match PasswordHasher.needsRehash m_passwordHasher (Account.password account) with
  | Ok true =>
      upgraded ← attempt (hashPassword password);
      match upgraded with
      | Ok upgraded => store subject (Account.set_password upgraded account)
      | _ => mret tt
      end
  | _ => mret tt
  end.

Definition verify (subject : ExternalSubject) (password : string) (totp : option string) (now : Instant)
    : handler LocalVerification :=
  found ← find subject;
  match found with
  | None => refuseUnknown password
  | Some account =>
      _ ← checkPassword password account "Local password did not verify.";
      match Account.totp account with
      | None =>
          _ ← upgradePassword subject password account;
          mret Password
      | Some secret =>
          match totp with
          | None => throw (authenticationFailure "A second factor is required.")
          | Some presented =>
              accepted ← lift (verifyTotp secret m_totpPolicy presented now (Account.lastAcceptedTotpStep account));
              let account := Account.set_totp (Some secret) (Some accepted) account in
              _ ← store subject account;
              _ ← upgradePassword subject password account;
              mret PasswordAndTotp
          end
      end
  end.

#[global] Instance directory : LocalAccountDirectory t := {
  lad_enroll := enroll; lad_enrollPending := enrollPending; lad_rebindSubject := rebindSubject;
  lad_removePending := removePending; lad_changePassword := changePassword; lad_verifyPassword := verifyPassword;
  lad_passwordUpgradeNeeded := passwordUpgradeNeeded; lad_confirmPasswordUpgrade := confirmPasswordUpgrade;
  lad_hasTotp := hasTotp; lad_replaceTotp := replaceTotp; lad_removeTotp := removeTotp; lad_verify := verify;
}.
End directory.
End InMemoryLocalAccountDirectory.

(** ** The provider *)

(** What the provider works on: the accounts, the recovery codes, the world. *)
Record local_state (T R W : Type) := mkLocal { l_accounts : T; l_codes : R; l_world : W }.
Arguments mkLocal {T R W}.
Arguments l_accounts {T R W}.
Arguments l_codes {T R W}.
Arguments l_world {T R W}.

Module LocalAuthenticationProvider.
Section provider.
Context `{Plat : Platform}.
Context {T D R : Type} `{!LocalAccountDirectory T, !ExternalIdentityDirectory D, !RecoveryCodeRepository R}.

Abbreviation state := (local_state T R world).
Abbreviation handler B := (prog state Error B).

Definition on_accounts {B} (m : prog (with_world T world) Error B) : handler B :=
  zoom (fun s => mkWith (l_accounts s) (l_world s)) (fun a s => mkLocal (v_store a) (l_codes s) (v_world a)) m.
Definition on_codes {B} (m : prog (with_world R world) Error B) : handler B :=
  zoom (fun s => mkWith (l_codes s) (l_world s)) (fun c s => mkLocal (l_accounts s) (v_store c) (v_world c)) m.
Definition on_world {B} (m : prog world Error B) : handler B :=
  zoom l_world (fun w s => mkLocal (l_accounts s) (l_codes s) w) m.

(** [m_identities] and [m_recoveryCodes]: the directory, to be read, and the
    pepper of the service. *)
Record t := mk {
  m_id : ProviderId;
  m_challengeLifetime : Duration;
  m_identities : option D;
  m_recoveryCodes : option string;
}.

Definition create (id : ProviderId) (challengeLifetime : Duration) (identities : option D)
    (recoveryCodes : option string) : t :=
  if xorb (bool_decide (is_Some identities)) (bool_decide (is_Some recoveryCodes)) then
    mk id challengeLifetime None None
  else mk id challengeLifetime identities recoveryCodes.

Definition interactionModel : InteractionModel := ChallengeResponse.
Definition maximumClaimableAssurance : AssuranceLevel := Ial2.

Definition kIdentifierEntropyBytes : nat := 32.

Definition invalidRequest {B} : handler B :=
  throw (Error_ofMessage InvalidArgument "The local authentication request is invalid.").

Definition beginAuthentication (p : t) (request : AuthenticationRequest.t) : handler AuthenticationChallenge.t :=
  if id_empty (m_id p) || negb (bool_decide (AuthenticationRequest.provider request = m_id p))
     || (m_challengeLifetime p <=? 0) then invalidRequest
  else
    match AuthenticationRequest.parameters request !! "subject" with
    | None => invalidRequest
    | Some subjectParameter =>
        if negb (isValidSubject (mkId subjectParameter)) then invalidRequest
        else
          identifier ← on_world (randomTokenBase64Url kIdentifierEntropyBytes);
          now ← on_world now;
          mret (AuthenticationChallenge.setParameter
                  (AuthenticationChallenge.create (mkId identifier) (now + m_challengeLifetime p))
                  "method" "password_totp")
    end.

(** [parameter]. *)
Definition parameter (parameters : AttributeMap) (name : string) : option string := parameters !! name.

Definition refuse {B} (detail : string) : handler B := throw (authenticationFailure detail).

Definition verificationFailed {B} (error : Error) : handler B :=
  refuse ("Local credential verification failed: " +:+ error_internalDetail error).

(** The branch of a recovery code. *)
Definition verifyRecovery (p : t) (subject : ExternalSubject) (password recoveryValue : string)
    : handler LocalVerification :=
  match m_identities p, m_recoveryCodes p with
  | Some identities, Some pepper =>
      totpEnabled ← attempt (on_accounts (lad_hasTotp subject));
      match totpEnabled with
      | Ok true =>
          knowledgeVerified ← attempt (on_accounts (lad_verifyPassword subject password));
          match knowledgeVerified with
          | Err e => verificationFailed e
          | _ =>
              match ed_ownerOf identities (ExternalIdentityRef.mk (m_id p) subject None None None) with
              | Ok (Some owner) =>
                  consumed ← attempt (on_codes (RecoveryCodeService.consume pepper owner recoveryValue));
                  if negb (is_ok consumed) then refuse "Recovery code did not verify."
                  else mret PasswordAndRecoveryCode
              | _ => refuse "Recovery-code authentication could not resolve the local identity."
              end
          end
      | _ => refuse "Recovery code did not verify."
      end
  | _, _ => refuse "Recovery-code authentication is not configured."
  end.

(** The branch of a password with or without a one-time code. *)
Definition verifyCredential (subject : ExternalSubject) (password : string) (totpValue : option string) (now : Instant)
    : handler LocalVerification :=
  credentialVerified ← attempt (on_accounts (lad_verify subject password totpValue now));
  match credentialVerified with
  | Err e => verificationFailed e
  | r => lift r
  end.

Definition methodName (verified : LocalVerification) : string :=
  match verified with
  | Password => "password"
  | PasswordAndTotp => "password_totp"
  | PasswordAndRecoveryCode => "password_recovery_code"
  end.

(** The outcome of a verification. *)
Definition outcomeOf (p : t) (subject : ExternalSubject) (verified : LocalVerification) (now : Instant)
    : Result AuthenticationOutcome.t :=
  let multiFactor := negb (bool_decide (verified = Password)) in
  let factors := if multiFactor then Z.lor Knowledge Possession else Knowledge in
  AuthenticationOutcome.create (m_id p) subject VerifiedClaims.create
    (if multiFactor then Ial2 else Ial1) (AuthenticationStrength.mk factors false)
    (ProviderEvidence.add ProviderEvidence.create "method" (methodName verified)) now.

Definition completeAuthentication (p : t) (response : AuthenticationResponse.t) : handler AuthenticationOutcome.t :=
  match parameter (AuthenticationResponse.parameters response) "subject" with
  | None => refuse "Local subject is missing."
  | Some subjectValue =>
      let subject := mkId subjectValue in
      if negb (isValidSubject subject) then refuse "Local subject is invalid."
      else
        now ← on_world now;
        match parameter (AuthenticationResponse.parameters response) "password" with
        | None => refuse "Local password is missing."
        | Some password =>
            let totpValue := parameter (AuthenticationResponse.parameters response) "totp" in
            let recoveryValue := parameter (AuthenticationResponse.parameters response) "recovery_code" in
            if bool_decide (is_Some totpValue) && bool_decide (is_Some recoveryValue) then
              refuse "TOTP and recovery code cannot be presented together."
            else
              verified ← match recoveryValue with
                         | Some recoveryValue => verifyRecovery p subject password recoveryValue
                         | None => verifyCredential subject password totpValue now
                         end;
              lift (outcomeOf p subject verified now)
        end
  end.
End provider.
Arguments t : clear implicits.
End LocalAuthenticationProvider.

(** ** What a verification requires *)

Lemma searchWindow_fresh `{Plat : Platform, C : !CredentialPlatform} secret digits presented accepted last fuel candidate step :
  searchWindow fuel secret digits presented accepted candidate last = Some (Ok step) ->
  present_and (fun accepted => step <=? accepted) accepted = false.
Proof.
  revert candidate. induction fuel as [|fuel IH]; intros candidate; cbn [searchWindow]; [done|].
  destruct (last <? candidate); [done|]. destruct (hotp secret candidate digits); [|done..].
  destruct (constantTimeEquals _ _); [|apply IH]. case_match eqn:E; [done|]. intros [= <-]. exact E.
Qed.

(** Every step that is accepted is later than the last one. *)
Lemma verifyTotp_fresh `{Plat : Platform, C : !CredentialPlatform} secret policy presented now accepted step :
  verifyTotp secret policy presented now accepted = Ok step ->
  present_and (fun accepted => step <=? accepted) accepted = false.
Proof.
  unfold verifyTotp. destruct (_ || _); [done|]. intros (current & _ & H)%result_bind_ok.
  destruct (searchAround _ _ _ _ _) as [r|] eqn:E; [|done]. simpl in H. subst r. by eapply searchWindow_fresh.
Qed.

Section hashing.
Context `{Plat : Platform, C : !CredentialPlatform}.

Lemma hmacSha256_not_aborted key data : hmacSha256 key data <> Aborted.
Proof. unfold hmacSha256. repeat case_match; done. Qed.

Lemma derive_not_aborted pepper password salt policy : derive pepper password salt policy <> Aborted.
Proof.
  unfold derive. case_match; [done|]. pose proof (hmacSha256_not_aborted pepper password).
  destruct (hmacSha256 pepper password); [|done..]. cbn. by case_match.
Qed.

Lemma randomBytes_not_aborted n w : (randomBytes n w).1 <> Aborted.
Proof. unfold randomBytes. repeat case_match; done. Qed.

(** Making a hash gives a hash or an error. *)
Lemma hash_not_aborted h password w : (PasswordHasher.hash h password w).1 <> Aborted.
Proof.
  unfold PasswordHasher.hash. case_bool_decide.
  - unfold PasswordHasher.hash_argon2. destruct sodium as [s|]; [|done]. do 2 (case_match; [done|]).
    pose proof (hmacSha256_not_aborted (PasswordHasher.m_pepper h) password).
    unfold mbind, prog_bind, lift. destruct (hmacSha256 _ _); [|done..].
    unfold PasswordHasher.argon2_encode. by destruct (crypto_pwhash_str _ _ _) as [[]].
  - unfold PasswordHasher.hash_scrypt, mbind, prog_bind, lift.
    pose proof (randomBytes_not_aborted (PasswordPolicy.saltBytes (PasswordHasher.m_policy h)) w).
    destruct (randomBytes _ w) as [[salt|e|] w']; [|done..].
    pose proof (derive_not_aborted (PasswordHasher.m_pepper h) password salt (PasswordHasher.m_policy h)).
    by destruct (derive _ _ _ _).
Qed.

Lemma verify_not_aborted h password stored : PasswordHasher.verify h password stored <> Aborted.
Proof.
  unfold PasswordHasher.verify. case_match.
  - unfold PasswordHasher.verify_argon2. destruct sodium as [s|]; [|done]. do 2 (case_match; [done|]).
    pose proof (hmacSha256_not_aborted (PasswordHasher.m_pepper h) password). by destruct (hmacSha256 _ _).
  - unfold PasswordHasher.verify_scrypt, PasswordHasher.malformed. case_match; [done|].
    repeat (case_match; [|done..]). unfold PasswordPolicy.create. do 3 (case_match; [done|]). cbn [mbind result_bind].
    match goal with |- context [derive ?a ?b ?c ?d] => pose proof (derive_not_aborted a b c d); by destruct (derive a b c d) end.
Qed.
End hashing.

Section directory_theorems.
Context `{Plat : Platform, !PlatformLaws Plat, C : !CredentialPlatform}.
Context (hasher : PasswordHasher.t) (policy : TotpPolicy.t) (dummy : PasswordHash.t).

Abbreviation accounts := (gmap ExternalSubject Account.t).
Abbreviation state := (with_world accounts world).
Implicit Types (s : state) (subject : ExternalSubject).

Import InMemoryLocalAccountDirectory(hashPassword, checkPassword, upgradePassword, enroll, enrollPending,
  rebindSubject, removePending, changePassword, confirmPasswordUpgrade, replaceTotp, removeTotp, verify).

(** The last accepted step of an account's seed, [None] without account. *)
Definition last_step (m : accounts) subject : option (option Z) := Account.lastAcceptedTotpStep <$> m !! subject.

(** A step on which the account's seed did not yet sign anybody in. *)
Definition step_open subject (k : Z) s : nat :=
  match last_step (v_store s) subject with
  | None => 0
  | Some last => if present_and (fun accepted => k <=? accepted) last then 0 else 1
  end.

Lemma hashPassword_moved password s r s' :
  hashPassword hasher password s = (r, s') -> exists w, s' = moved s w.
Proof. intros (w & _ & ->)%in_world_moved. by exists w. Qed.

Lemma checkPassword_ok password account detail s s' :
  checkPassword hasher password account detail s = (Ok tt, s') <->
  PasswordHasher.verify hasher password (Account.password account) = Ok true /\ s' = s.
Proof.
  unfold checkPassword. destruct (PasswordHasher.verify _ _ _) as [[]|e|]; unfold mbind, prog_bind, lift; cbn.
  - split; [by intros [= <-]|by intros [_ ->]].
  - split; [done|by intros [[=] _]].
  - split; [done|by intros [[=] _]].
  - split; [done|by intros [[=] _]].
Qed.

(** The silent upgrade changes the account's password hash at most. *)
Lemma upgradePassword_run subject password account s :
  (upgradePassword hasher subject password account s).1 = ok /\
  exists w stored, (upgradePassword hasher subject password account s).2
    = mkWith (if decide (stored = None) then v_store s
              else <[subject := Account.set_password (default (Account.password account) stored) account]> (v_store s)) w.
Proof.
  unfold upgradePassword. destruct s as [m w0].
  destruct (PasswordHasher.needsRehash _ _) as [[]|e|]; [|by (split; [done|exists w0, None])..].
  unfold mbind, prog_bind, attempt, hashPassword, in_world, zoom.
  pose proof (hash_not_aborted hasher password w0) as Hna. cbn [v_world v_store].
  destruct (PasswordHasher.hash hasher password w0) as [[stored|e|] w] eqn:E; cbn in Hna; [| |done].
  - split; [done|]. exists w, (Some stored). done.
  - split; [done|]. exists w, None. done.
Qed.

(** What [verify] leaves behind: on failure everything as it was; on success
    the same account, its last step advanced when it has a seed. *)
Lemma verify_cases subject password totp now s r s' :
  verify hasher policy dummy subject password totp now s = (r, s') ->
  (is_ok r = false /\ s' = s) \/
  exists account account' w, v_store s !! subject = Some account /\
    PasswordHasher.verify hasher password (Account.password account) = Ok true /\
    s' = mkWith (<[subject := account']> (v_store s)) w /\
    Account.identity account' = Account.identity account /\ Account.totp account' = Account.totp account /\
    ((Account.totp account = None /\ r = Ok Password /\
      Account.lastAcceptedTotpStep account' = Account.lastAcceptedTotpStep account) \/
     exists secret presented step, Account.totp account = Some secret /\ totp = Some presented /\ r = Ok PasswordAndTotp /\
       verifyTotp secret policy presented now (Account.lastAcceptedTotpStep account) = Ok step /\
       Account.lastAcceptedTotpStep account' = Some step).
Proof.
  intros Hrun. unfold verify in Hrun. apply prog_bind_inv in Hrun as [(found & s1 & [= <- <-] & Hrun)|(_ & Hno & _)]; [|done].
  destruct (v_store s !! subject) as [account|] eqn:Ha.
  2:{ left. unfold InMemoryLocalAccountDirectory.refuseUnknown, InMemoryLocalAccountDirectory.unknown, throw, lift, mbind, prog_bind in Hrun.
      by destruct (PasswordHasher.verify hasher password dummy); injection Hrun as <- <-. }
  apply prog_bind_inv in Hrun as [([] & s1 & Hp & Hrun)|(Hr & _ & ->)].
  2:{ left. split; [done|]. unfold checkPassword, mbind, prog_bind, lift.
      by destruct (PasswordHasher.verify _ _ _) as [[]| |]. }
  apply checkPassword_ok in Hp as [Hp ->].
  assert (Hkeep : forall a, Account.totp a = Account.totp account -> Account.identity a = Account.identity account ->
    exists w a', (upgradePassword hasher subject password a (mkWith (<[subject := a]> (v_store s)) (v_world s))).2
      = mkWith (<[subject := a']> (v_store s)) w /\ Account.identity a' = Account.identity account /\
      Account.totp a' = Account.totp account /\ Account.lastAcceptedTotpStep a' = Account.lastAcceptedTotpStep a).
  { intros a Ht Hi. destruct (upgradePassword_run subject password a (mkWith (<[subject := a]> (v_store s)) (v_world s)))
      as [_ (w & stored & ->)]. exists w. case_decide; [by exists a|]. eexists. cbn [v_store]. rewrite insert_insert_eq.
    split; [reflexivity|]. done. }
  destruct (Account.totp account) as [secret|] eqn:Ht.
  - destruct totp as [presented|]; [|left; by injection Hrun as <- <-].
    apply prog_bind_inv in Hrun as [(step & s1 & [Hv ->]%lift_ok & Hrun)|(Hr & _ & ->)]; [|by left].
    cbv zeta in Hrun. set (a := Account.set_totp (Some secret) (Some step) account) in *.
    destruct (Hkeep a eq_refl eq_refl) as (w & a' & Hup & Hi & Ht' & Hl).
    apply prog_bind_inv in Hrun as [([] & s1 & [= <-] & Hrun)|(_ & Hno & _)]; [|done]. cbn [zoom] in Hrun.
    apply prog_bind_inv in Hrun as [([] & s2 & Hs2 & Hrun)|(_ & Hno & _)].
    + injection Hrun as <- <-. apply (f_equal snd) in Hs2. cbn [snd] in Hs2. rewrite Hup in Hs2. subst s2.
      right. exists account, a', w. split_and!; try done; [congruence|]. right. by exists secret, presented, step.
    + destruct (upgradePassword_run subject password a (mkWith (<[subject := a]> (v_store s)) (v_world s))) as [Hok _].
      by rewrite Hok in Hno.
  - assert (Hs : mkWith (<[subject := account]> (v_store s)) (v_world s) = s).
    { rewrite insert_id by done. by destruct s. }
    destruct (Hkeep account Ht eq_refl) as (w & a' & Hup & Hi & Ht' & Hl). rewrite Hs in Hup.
    apply prog_bind_inv in Hrun as [([] & s2 & Hs2 & Hrun)|(_ & Hno & _)].
    + injection Hrun as <- <-. apply (f_equal snd) in Hs2. cbn [snd] in Hs2. rewrite Hup in Hs2. subst s2.
      right. exists account, a', w. split_and!; try done; [congruence|]. by left.
    + destruct (upgradePassword_run subject password account s) as [Hok _]. by rewrite Hok in Hno.
Qed.

(** ** Histories of the directory *)

Inductive account_op :=
| Enroll (subject : ExternalSubject) (password : string) (totp : option TotpSecret.t)
| EnrollPending (identity : IdentityId) (subject : ExternalSubject) (password : string) (totp : option TotpSecret.t)
| Rebind (identity : IdentityId) (previous replacement : ExternalSubject)
| RemovePending (identity : IdentityId) (subject : ExternalSubject)
| ChangePassword (subject : ExternalSubject) (password : string)
| ConfirmUpgrade (subject : ExternalSubject) (password : string)
| ReplaceTotp (subject : ExternalSubject) (secret : TotpSecret.t) (code : string) (now : Instant)
| RemoveTotp (subject : ExternalSubject)
| Verify (subject : ExternalSubject) (password : string) (totp : option string) (now : Instant).

(** Did the operation succeed, and what did it leave? *)
Definition account_run (o : account_op) s : bool * state :=
  let answered {B} (m : prog state Error B) := (is_ok (m s).1, (m s).2) in
  match o with
  | Enroll subject password totp => answered (enroll hasher subject password totp)
  | EnrollPending identity subject password totp => answered (enrollPending hasher identity subject password totp)
  | Rebind identity previous replacement => answered (rebindSubject identity previous replacement)
  | RemovePending identity subject => answered (removePending identity subject)
  | ChangePassword subject password => answered (changePassword hasher subject password)
  | ConfirmUpgrade subject password => answered (confirmPasswordUpgrade hasher dummy subject password)
  | ReplaceTotp subject secret code now => answered (replaceTotp policy subject secret code now)
  | RemoveTotp subject => answered (removeTotp subject)
  | Verify subject password totp now => answered (verify hasher policy dummy subject password totp now)
  end.

Definition account_step (o : account_op) s : state := (account_run o s).2.

(** The operation puts a seed, or an account, where it was not. *)
Definition installs x (o : account_op) s : bool :=
  match o with
  | Enroll y _ _ | EnrollPending _ y _ _ | Rebind _ _ y | ReplaceTotp y _ _ _ | RemoveTotp y =>
      bool_decide (y = x) && (account_run o s).1
  | _ => false
  end.

(** The operation signs [x] in with the code of step [k]. *)
Definition signs_in x (k : Z) (o : account_op) s : bool :=
  match o with
  | Verify y password totp now =>
      bool_decide (y = x) && bool_decide ((verify hasher policy dummy y password totp now s).1 = Ok PasswordAndTotp)
      && bool_decide (last_step (v_store (account_step o s)) x = Some (Some k))
  | _ => false
  end.

(** What an operation does to an account's last step, when it installs nothing. *)
Definition keeps_steps x (o : account_op) s : Prop :=
  let after := last_step (v_store (account_step o s)) x in
  after = last_step (v_store s) x \/ after = None \/
  exists k, after = Some (Some k) /\ step_open x k s = 1%nat.

Lemma last_step_other m (a : Account.t) x y : y <> x -> last_step (<[y := a]> m) x = last_step m x.
Proof. intros Hne. unfold last_step. by rewrite lookup_insert_ne. Qed.

Lemma last_step_same m (a a' : Account.t) x y :
  m !! y = Some a -> Account.lastAcceptedTotpStep a' = Account.lastAcceptedTotpStep a ->
  last_step (<[y := a']> m) x = last_step m x.
Proof.
  intros Hy Hl. destruct (decide (y = x)) as [->|Hne]; [|by apply last_step_other].
  unfold last_step. rewrite lookup_insert_eq, Hy. simpl. by rewrite Hl.
Qed.

Lemma last_step_delete m x y : last_step (delete y m) x = last_step m x \/ last_step (delete y m) x = None.
Proof.
  unfold last_step. destruct (decide (y = x)) as [->|Hne]; [right; by rewrite lookup_delete_eq|left; by rewrite lookup_delete_ne].
Qed.

(** Runs an operation to its outcomes. *)
Ltac execute :=
  cbn [account_step account_run fst snd];
  unfold enroll, enrollPending, rebindSubject, removePending, changePassword, confirmPasswordUpgrade, replaceTotp,
    removeTotp, InMemoryLocalAccountDirectory.refuseUnknown, checkPassword,
    InMemoryLocalAccountDirectory.unknown, InMemoryLocalAccountDirectory.find, InMemoryLocalAccountDirectory.store,
    InMemoryLocalAccountDirectory.erase, hashPassword, query, in_store, in_world, zoom, lift, throw, mbind, prog_bind,
    mret, prog_ret, ok;
  repeat (case_match; simplify_eq/=).

Lemma step_steps x o s : installs x o s = true \/ keeps_steps x o s.
Proof.
  destruct (installs x o s) eqn:Hi; [by left|right]. unfold keeps_steps.
  destruct o as [y p t|i y p t|i y z|i y|y p|y p|y c t n|y|y p t n]; cbn [installs] in Hi.
  9: { cbn [account_step account_run snd]. destruct (verify hasher policy dummy y p t n s) as [r s'] eqn:Hrun.
       apply verify_cases in Hrun as [[_ ->]|(a & a' & w & Ha & _ & -> & _ & _ & Hcase)]; [by left|]. cbn [snd v_store].
       destruct Hcase as [(_ & _ & Hl)|(secret & presented & k & _ & _ & _ & Hv & Hl)]; [left; by eapply last_step_same|].
       destruct (decide (y = x)) as [->|Hne]; [|left; by apply last_step_other].
       right; right. exists k. apply verifyTotp_fresh in Hv. unfold step_open, last_step. rewrite lookup_insert_eq, Ha.
       simpl. by rewrite Hl, Hv. }
  all: unfold account_step; revert Hi; execute; intros Hi; try (by left); try (right; by left).
  all: try (left; apply last_step_other; intros ->; by rewrite bool_decide_eq_true_2 in Hi).
  - rewrite last_step_other by (intros ->; by rewrite bool_decide_eq_true_2 in Hi).
    destruct (last_step_delete (v_store s) x y) as [->| ->]; auto.
  - destruct (last_step_delete (v_store s) x y) as [->| ->]; auto.
  - left. by eapply last_step_same.
  - left. by eapply last_step_same.
Qed.

Lemma signs_in_open x k o s : signs_in x k o s = true -> step_open x k s = 1%nat /\ step_open x k (account_step o s) = 0%nat.
Proof.
  destruct o as [y p t|i y p t|i y z|i y|y p|y p|y c t n|y|y p t n]; try done. cbn [signs_in account_step account_run snd].
  intros H. bool_prop. subst y. destruct (verify hasher policy dummy x p t n s) as [r s'] eqn:Hrun. cbn [fst snd] in *.
  subst r. apply verify_cases in Hrun as [[Hno _]|(a & a' & w & Ha & _ & -> & _ & _ & Hcase)]; [done|].
  destruct Hcase as [(_ & [=] & _)|(secret & presented & step & _ & _ & _ & Hv & Hl)].
  unfold step_open, last_step in *. cbn [v_store] in *. rewrite lookup_insert_eq in *. simpl in *.
  rewrite Hl in *. match goal with H : Some _ = Some _ |- _ => injection H as -> end.
  apply verifyTotp_fresh in Hv. rewrite Ha. simpl. rewrite Hv. split; [done|]. simpl. by rewrite Z.leb_refl.
Qed.

Lemma account_count_step x k o s :
  ((if signs_in x k o s then 1 else 0) + step_open x k (account_step o s)
   <= (if installs x o s then 1 else 0) + step_open x k s)%nat.
Proof.
  assert (Hone : forall s', (step_open x k s' <= 1)%nat).
  { intros s'. unfold step_open. destruct (last_step _ _) as [l|]; [case_match|]; lia. }
  destruct (signs_in x k o s) eqn:Hs; [apply signs_in_open in Hs as [-> ->]; lia|].
  pose proof (Hone (account_step o s)) as H1. destruct (step_steps x o s) as [->|[E|[E|(k' & E & Ho)]]]; [lia|..].
  - unfold step_open. rewrite E. lia.
  - unfold step_open at 1. rewrite E. lia.
  - unfold step_open in *. rewrite E in *. destruct (last_step (v_store s) x) as [l|]; [|done].
    destruct l as [l|]; simpl in *; [|destruct (k <=? k'); lia].
    destruct (Z.leb_spec k' l); [done|]. destruct (Z.leb_spec k k'), (Z.leb_spec k l); lia.
Qed.

(** A one-time code signs in once. In every history of the directory, whatever
    is enrolled, renamed, upgraded, removed or verified, and at whatever times,
    an account is signed in with the code of one time step at most as often as
    an account or a seed was put at its name: between two installations no time
    step is accepted twice, whichever code is presented and when. *)
Theorem one_time_code_signs_in_once x k ops s :
  v_store s !! x = None ->
  (count_steps account_step (signs_in x k) ops s <= count_steps account_step (installs x) ops s)%nat.
Proof.
  intros Hnone.
  pose proof (taken_within_given account_step (signs_in x k) (installs x) (step_open x k) ops s (account_count_step x k)) as H.
  unfold step_open, last_step in H. rewrite Hnone in H. simpl in H. lia.
Qed.
End directory_theorems.

(** ** What the provider claims *)

Section refusals.
Context `{Plat : Platform}.
Context {T D R : Type} `{!LocalAccountDirectory T, !ExternalIdentityDirectory D, !RecoveryCodeRepository R}.
Import LocalAuthenticationProvider.

(** What a client can tell from a refusal. *)
Definition looks_refused (e : Error) : Prop :=
  error_code e = AuthenticationFailed /\ error_message e = defaultErrorMessage AuthenticationFailed.

(** Every error a handler ends in looks the same. *)
Definition refuses_alike {S B} (m : prog S Error B) : Prop := forall s e s', m s = (Err e, s') -> looks_refused e.

Lemma refuse_alike {B} detail : refuses_alike (refuse (Plat:=Plat) (T:=T) (R:=R) (B:=B) detail).
Proof. by intros s e s' [= <- <-]. Qed.

Lemma bind_alike {S A B} (m : prog S Error A) (k : A -> prog S Error B) :
  refuses_alike m -> (forall a, refuses_alike (k a)) -> refuses_alike (m ≫= k).
Proof. intros Hm Hk s e s' [H|(a & s1 & _ & H)]%prog_bind_err; [by eapply Hm|by eapply Hk]. Qed.

Lemma attempt_alike {S A} (m : prog S Error A) : refuses_alike (attempt m).
Proof. intros s e s'. unfold attempt. by destruct (m s) as [[] ?]. Qed.

Lemma ret_alike {S A} (a : A) : refuses_alike (S:=S) (mret a).
Proof. by intros s e s'. Qed.

Lemma verifyRecovery_alike (p : t D) subject password code :
  refuses_alike (verifyRecovery (T:=T) (R:=R) p subject password code).
Proof.
  unfold verifyRecovery. destruct (m_identities p) as [d|], (m_recoveryCodes p) as [pepper|]; try apply refuse_alike.
  apply bind_alike; [apply attempt_alike|]. intros [[]|e|]; try apply refuse_alike.
  apply bind_alike; [apply attempt_alike|]. intros r.
  assert (Hrest : refuses_alike
    (S := local_state T R world) (B := LocalVerification)
    match ed_ownerOf d (ExternalIdentityRef.mk (m_id p) subject None None None) with
    | Ok (Some owner) =>
        consumed ← attempt (on_codes (RecoveryCodeService.consume pepper owner code));
        if negb (is_ok consumed) then refuse "Recovery code did not verify." else mret PasswordAndRecoveryCode
    | _ => refuse "Recovery-code authentication could not resolve the local identity."
    end).
  { destruct (ed_ownerOf _ _) as [[owner|]| |]; try apply refuse_alike. apply bind_alike; [apply attempt_alike|].
    intros c. destruct (negb _); [apply refuse_alike|apply ret_alike]. }
  destruct r; [exact Hrest|apply refuse_alike|exact Hrest].
Qed.

Lemma outcomeOf_ok (p : t D) subject verified now :
  id_empty (m_id p) = false -> id_empty subject = false -> is_ok (outcomeOf p subject verified now) = true.
Proof. intros Hp Hs. unfold outcomeOf, AuthenticationOutcome.create. by rewrite Hp, Hs. Qed.

(** A refusal tells nothing. Over any directory of accounts, any recovery codes
    and any directory of identities, whatever is missing or wrong - the name,
    the password, the code, the account itself, a failing store - the client
    sees one and the same error: there is no telling an unknown account from a
    wrong password or a spent code. *)
Theorem refusals_look_alike (p : t D) response s e s' :
  id_empty (m_id p) = false ->
  completeAuthentication (T:=T) (R:=R) p response s = (Err e, s') -> looks_refused e.
Proof.
  intros Hid. revert s e s'. change (refuses_alike (completeAuthentication (T:=T) (R:=R) p response)).
  unfold completeAuthentication. destruct (parameter _ "subject") as [subject|]; [|apply refuse_alike].
  destruct (isValidSubject (mkId subject)) eqn:Hsub; [|apply refuse_alike]. cbn [negb].
  apply bind_alike; [intros s e s'; unfold on_world, zoom, now; by destruct (clock_now _)|]. intros t.
  destruct (parameter _ "password") as [password|]; [|apply refuse_alike].
  destruct (_ && _); [apply refuse_alike|]. apply bind_alike.
  - destruct (parameter _ "recovery_code"); [apply verifyRecovery_alike|]. apply bind_alike; [apply attempt_alike|].
    intros [v|e|]; [by intros ???|apply refuse_alike|by intros ???].
  - intros v s e s' [= Hout <-]. pose proof (outcomeOf_ok p (mkId subject) v t Hid) as Hok. rewrite Hout in Hok.
    discriminate Hok. unfold isValidSubject in Hsub. unfold id_empty. simpl in *. by destruct (bool_decide (subject = "")).
Qed.
End refusals.

Section assurance.
Context `{Plat : Platform, !PlatformLaws Plat, C : !CredentialPlatform}.
Context {D : Type} `{!ExternalIdentityDirectory D}.
Context (hasher : PasswordHasher.t) (policy : TotpPolicy.t) (dummy : PasswordHash.t).

Abbreviation accounts := (gmap ExternalSubject Account.t).
Abbreviation codes := (gmap IdentityId (list RecoveryCodeDigest)).
Abbreviation state := (local_state accounts codes world).

#[local] Instance local_directory : LocalAccountDirectory accounts :=
  InMemoryLocalAccountDirectory.directory hasher policy dummy.

Import LocalAuthenticationProvider.

Lemma attempt_inv {S A} (m : prog S Error A) s r s' : attempt m s = (Ok r, s') -> m s = (r, s').
Proof. unfold attempt. destruct (m s) as [[] ?]; by intros [= <- <-]. Qed.

(** A second factor was presented: a fresh one-time code, whose step is now
    the account's last, or an unused recovery code of the account's owner,
    which is now used up. *)
Definition presented_one_time_code (response : AuthenticationResponse.t) (s s' : state) subject account secret : Prop :=
  exists code step, AuthenticationResponse.parameters response !! "totp" = Some code /\
    verifyTotp secret policy code (clock_now (l_world s)).1 (Account.lastAcceptedTotpStep account) = Ok step /\
    last_step (l_accounts s') subject = Some (Some step).

Definition presented_recovery_code (p : t D) (response : AuthenticationResponse.t) (s s' : state) subject : Prop :=
  exists code identities pepper owner d, AuthenticationResponse.parameters response !! "recovery_code" = Some code /\
    m_identities p = Some identities /\ m_recoveryCodes p = Some pepper /\
    ed_ownerOf identities (ExternalIdentityRef.mk (m_id p) subject None None None) = Ok (Some owner) /\
    RecoveryCodeService.digest pepper code = Ok d /\
    unused owner d (l_codes s) = S (unused owner d (l_codes s')).

Lemma verifyRecovery_ok (p : t D) subject password code (s s' : state) v :
  verifyRecovery p subject password code s = (Ok v, s') ->
  v = PasswordAndRecoveryCode /\ exists account secret identities pepper owner d,
    l_accounts s !! subject = Some account /\
    PasswordHasher.verify hasher password (Account.password account) = Ok true /\ Account.totp account = Some secret /\
    m_identities p = Some identities /\ m_recoveryCodes p = Some pepper /\
    ed_ownerOf identities (ExternalIdentityRef.mk (m_id p) subject None None None) = Ok (Some owner) /\
    RecoveryCodeService.digest pepper code = Ok d /\ unused owner d (l_codes s) = S (unused owner d (l_codes s')).
Proof.
  unfold verifyRecovery. destruct (m_identities p) as [identities|] eqn:Hi, (m_recoveryCodes p) as [pepper|] eqn:Hc; try done.
  intros (r & s1 & Htotp%attempt_inv & Hrun)%prog_bind_ok. unfold on_accounts in Htotp.
  apply zoom_eq in Htotp as (a1 & Htotp & ->). cbn [lad_hasTotp local_directory InMemoryLocalAccountDirectory.directory] in Htotp.
  unfold InMemoryLocalAccountDirectory.hasTotp, InMemoryLocalAccountDirectory.find,
    InMemoryLocalAccountDirectory.unknown, throw, query, mbind, prog_bind in Htotp.
  cbn [v_store] in Htotp. destruct (l_accounts s !! subject) as [account|] eqn:Ha; [|by injection Htotp as <- <-].
  injection Htotp as <- <-. destruct (Account.totp account) as [secret|] eqn:Ht;
    [rewrite bool_decide_eq_true_2 in Hrun by eauto|by rewrite bool_decide_eq_false_2 in Hrun by (by intros [])].
  apply prog_bind_ok in Hrun as (r & s1 & Hpw%attempt_inv & Hrun). unfold on_accounts in Hpw.
  apply zoom_eq in Hpw as (a1 & Hpw & ->). cbn [lad_verifyPassword local_directory InMemoryLocalAccountDirectory.directory] in Hpw.
  unfold InMemoryLocalAccountDirectory.verifyPassword, InMemoryLocalAccountDirectory.find, query, mbind, prog_bind in Hpw.
  cbn [v_store l_accounts] in Hpw. rewrite Ha in Hpw.
  assert (Hr : r <> Aborted /\ a1 = mkWith (l_accounts s) (l_world s)).
  { unfold InMemoryLocalAccountDirectory.checkPassword, mbind, prog_bind, lift in Hpw.
    pose proof (verify_not_aborted hasher password (Account.password account)).
    by destruct (PasswordHasher.verify _ _ _) as [[]| |]; injection Hpw as <- <-. }
  destruct Hr as [Hna ->]. destruct r as [[]|e|]; [|done|done]. apply checkPassword_ok in Hpw as [Hpw _].
  cbn [l_codes v_store v_world] in Hrun.
  destruct (ed_ownerOf identities _) as [[owner|]| |] eqn:Ho; try done.
  apply prog_bind_ok in Hrun as (r & s2 & Hcons%attempt_inv & Hrun). unfold on_codes in Hcons.
  apply zoom_eq in Hcons as (c1 & Hcons & ->). destruct (is_ok r) eqn:Hok; [|done].
  cbn in Hrun. injection Hrun as <- <-.
  apply is_ok_spec in Hok as [[] ->]. split; [done|]. cbn [l_codes l_world] in Hcons.
  destruct (RecoveryCodeService.digest pepper code) as [d| |] eqn:Hd;
    [|unfold RecoveryCodeService.consume in Hcons; by rewrite Hd in Hcons..].
  rewrite (consume_code _ _ _ _ _ Hd) in Hcons. injection Hcons as Hcons <-. cbn [v_store] in *.
  exists account, secret, identities, pepper, owner, d. split_and!; try done. cbn [l_codes v_store].
  destruct (consume_cases owner d (l_codes s)) as [(Hno & _)|[_ Hu]]; [by rewrite Hcons in Hno|].
  rewrite (Hu owner d). by rewrite decide_True by done.
Qed.

(** C31: Assurance is earned by factors. When a local sign-in succeeds, the outcome
    is about the named account of this provider, carries no claims and the time
    of the clock, and the password was the account's. If the account has no
    seed, the outcome claims the first level and one factor. If it has one, the
    outcome claims the second level and two factors, and a second factor was
    indeed presented: an account with a second factor is never signed in by its
    password alone. *)
Theorem local_assurance_is_earned (p : t D) response (s s' : state) outcome :
  completeAuthentication p response s = (Ok outcome, s') ->
  exists subject password account,
    AuthenticationResponse.parameters response !! "subject" = Some (id_value subject) /\
    AuthenticationResponse.parameters response !! "password" = Some password /\
    l_accounts s !! subject = Some account /\
    PasswordHasher.verify hasher password (Account.password account) = Ok true /\
    AuthenticationOutcome.provider outcome = m_id p /\ AuthenticationOutcome.subject outcome = subject /\
    AuthenticationOutcome.claims outcome = VerifiedClaims.create /\
    AuthenticationOutcome.verifiedAt outcome = (clock_now (l_world s)).1 /\
    match Account.totp account with
    | None =>
        AuthenticationOutcome.claimedAssurance outcome = Ial1 /\
        AuthenticationOutcome.strength outcome = AuthenticationStrength.mk Knowledge false
    | Some secret =>
        AuthenticationOutcome.claimedAssurance outcome = Ial2 /\
        AuthenticationOutcome.strength outcome = AuthenticationStrength.mk (Z.lor Knowledge Possession) false /\
        (presented_one_time_code response s s' subject account secret \/ presented_recovery_code p response s s' subject)
    end.
Proof.
  unfold completeAuthentication, parameter. destruct (_ !! "subject") as [name|] eqn:Hsub; [|done].
  destruct (isValidSubject (mkId name)) eqn:Hvalid; [|done]. cbn [negb].
  intros (t & s1 & Ht & Hrun)%prog_bind_ok. unfold on_world in Ht. apply zoom_eq in Ht as (w & Ht & ->).
  unfold now in Ht. destruct (clock_now (l_world s)) as [t0 w0] eqn:Hclock. injection Ht as <- <-.
  destruct (_ !! "password") as [password|] eqn:Hpass; [|done].
  destruct (_ && _) eqn:Hboth; [done|]. apply prog_bind_ok in Hrun as (v & s2 & Hv & [Hout ->]%lift_ok).
  exists (mkId name), password. unfold outcomeOf, AuthenticationOutcome.create in Hout. cbv zeta in Hout.
  destruct (id_empty (m_id p)); [done|]. destruct (id_empty (mkId name)); [done|]. injection Hout as <-. cbn.
  destruct (_ !! "recovery_code") as [code|] eqn:Hrec.
  - apply verifyRecovery_ok in Hv as (-> & account & secret & ids & pepper & owner & d & Ha & Hp & Htotp & Hrest).
    exists account. rewrite Htotp. split_and!; try done. right. exists code, ids, pepper, owner, d. done.
  - unfold verifyCredential in Hv. apply prog_bind_ok in Hv as (r & s3 & Hver%attempt_inv & Hv).
    unfold on_accounts in Hver. apply zoom_eq in Hver as (a1 & Hver & ->). cbn [lad_verify local_directory InMemoryLocalAccountDirectory.directory] in Hver.
    destruct r as [x| |]; [|done..]. injection Hv as <- <-.
    apply verify_cases in Hver as [[? _]|(account & account' & w & Ha & Hp & -> & _ & _ & Hcase)]; [done|].
    cbn [v_store] in Ha. exists account.
    destruct Hcase as [(Htotp & [= ->] & _)|(secret & presented & step & Htotp & Hcode & [= ->] & Hok & Hl)]; rewrite Htotp;
      split_and!; try done. left. exists presented, step. rewrite Hclock. split_and!; try done.
    unfold last_step. cbn [l_accounts v_store]. rewrite lookup_insert_eq. simpl. by rewrite Hl.
Qed.
End assurance.

(** ** Alice signs in *)

Module LocalWitnesses.
Import TestPlatform CredentialWitnesses.

Abbreviation accounts := (gmap ExternalSubject Account.t).
Abbreviation codes := (gmap IdentityId (list RecoveryCodeDigest)).

Definition alice : ExternalSubject := mkId "alice@example.com".
Definition alice_account : Account.t := Account.create stored (Some seed) (Some (mkId "alice")).
Definition directory : accounts := {[ alice := alice_account ]}.
Definition provider : LocalAuthenticationProvider.t InMemoryExternalIdentityDirectory.t :=
  LocalAuthenticationProvider.create (mkId "local") 60000 None None.
(** Noon, by the clock of the test platform. *)
Definition before : local_state accounts codes (world (Platform:=test)) := mkLocal directory ∅ 43200000.

Definition answering (code : string) : AuthenticationResponse.t :=
  AuthenticationResponse.mk (mkId "challenge") ClientContext.create
    {[ "subject" := "alice@example.com"; "password" := "correct horse"; "totp" := code ]}.

#[local] Instance local_accounts : LocalAccountDirectory (Plat:=test) accounts :=
  InMemoryLocalAccountDirectory.directory (Plat:=test) hasher TotpPolicy.recommended stored.

Definition completing (code : string) (s : local_state accounts codes (world (Platform:=test))) :=
  LocalAuthenticationProvider.completeAuthentication (Plat:=test) (T:=accounts) (R:=codes) provider (answering code) s.
Definition signed_in := completing code_at_noon before.
Definition nobody : AuthenticationOutcome.t :=
  AuthenticationOutcome.mk (mkId "") (mkId "") VerifiedClaims.create Ial0 AuthenticationStrength.none ProviderEvidence.create 0.
Definition outcome : AuthenticationOutcome.t := match signed_in.1 with Ok o => o | _ => nobody end.

Lemma local_assurance_is_earned_witness : exists subject account,
  l_accounts before !! subject = Some account /\ AuthenticationOutcome.subject outcome = subject.
Proof.
  destruct (local_assurance_is_earned (Plat:=test) (D:=InMemoryExternalIdentityDirectory.t) hasher TotpPolicy.recommended
              stored provider (answering code_at_noon) before signed_in.2 outcome)
    as (subject & password & account & _ & _ & Ha & _ & _ & Hs & _).
  - apply (run_as signed_in). vm_compute. reflexivity.
  - exists subject, account. split; [exact Ha|exact Hs].
Defined.

(** The code that signed alice in does not sign her in again. *)
Definition replayed := completing code_at_noon signed_in.2.
Definition refusal : Error := match replayed.1 with Err e => e | _ => Error_ofCode Unknown end.

Example second_factor_is_spent :
  AuthenticationOutcome.claimedAssurance outcome = Ial2 /\ is_ok replayed.1 = false /\
  error_internalDetail refusal = "Local credential verification failed: TOTP response was replayed.".
Proof. split_and!; vm_compute; reflexivity. Qed.

Lemma refusals_look_alike_witness : looks_refused refusal.
Proof.
  apply (refusals_look_alike (Plat:=test) (T:=accounts) (R:=codes) provider (answering code_at_noon) signed_in.2 refusal replayed.2).
  - reflexivity.
  - apply (run_as replayed). vm_compute. reflexivity.
Defined.

Definition history : list account_op :=
  [Enroll alice "correct horse" (Some seed); Verify alice "correct horse" (Some code_at_noon) 43200000;
   Verify alice "correct horse" (Some code_at_noon) 43200000].
Definition empty_directory : with_world accounts (world (Platform:=test)) := mkWith ∅ 5.

Lemma one_time_code_signs_in_once_witness :
  (count_steps (account_step (Plat:=test) hasher TotpPolicy.recommended stored)
     (signs_in (Plat:=test) hasher TotpPolicy.recommended stored alice 1440) history empty_directory <= 1)%nat.
Proof.
  etrans; [apply (one_time_code_signs_in_once (Plat:=test) hasher TotpPolicy.recommended stored alice 1440 history
             empty_directory); apply lookup_empty|].
  vm_compute. reflexivity.
Defined.
End LocalWitnesses.
