(* ===== verification/Double.v ===== *)
(** * [double]: IEEE 754 binary64 as the standard library specifies it

    The rate limiter of the gateway and the metric registry compute with
    [double]. It is modelled by the specification floats of the standard library
    with 53 bits of precision, rounding to nearest, ties to even, as C++ does on
    every supported platform. The lemmas give the non-negative doubles a value,
    in units of the smallest subnormal, and show where a subtraction is exact. *)
From Stdlib Require Import SpecFloat.
From S2P Require Import Prelude.

Abbreviation double := spec_float.
Abbreviation valid_double := (valid_binary 53 1024).

Definition dadd : double -> double -> double := SFadd 53 1024.
Definition dsub : double -> double -> double := SFsub 53 1024.
Definition dmul : double -> double -> double := SFmul 53 1024.
Definition ddiv : double -> double -> double := SFdiv 53 1024.
Definition dltb : double -> double -> bool := SFltb.
Definition dleb : double -> double -> bool := SFleb.

(** [static_cast<double>] of an integer. *)
Definition of_int (z : Z) : double := binary_normalize 53 1024 z 0 false.
Definition dzero : double := S754_zero false.
Definition one_double : double := of_int 1.

Definition isfinite (x : double) : bool :=
  match x with S754_zero _ | S754_finite _ _ _ => true | _ => false end.

(** [std::min(a, b)]: [b < a ? b : a]. *)
Definition dmin (a b : double) : double := if dltb b a then b else a.

(** ** The value of a non-negative double *)

(** Zero or a positive finite double in canonical form. *)
Definition nonneg (x : double) : bool :=
  match x with S754_zero _ => true | S754_finite false _ _ => valid_double x | _ => false end.

(** The value in units of [2 ^ -1074], the distance of the subnormals. *)
Definition scaled (x : double) : Z :=
  match x with S754_finite s m e => cond_Zopp s (Z.pos m * 2 ^ (e + 1074)) | _ => 0 end.

Lemma digits2_size p : digits2_pos p = Pos.size p.
Proof. induction p as [p IH|p IH|]; simpl; by rewrite ?IH. Qed.

Lemma digits_bounds p : 2 ^ (Z.pos (digits2_pos p) - 1) <= Z.pos p < 2 ^ Z.pos (digits2_pos p).
Proof.
  rewrite digits2_size. pose proof (Pos.size_gt p) as Hg. pose proof (Pos.size_le p) as Hl.
  apply Pos2Z.pos_lt_pos in Hg. apply Pos2Z.pos_le_pos in Hl.
  rewrite Pos2Z.inj_pow in Hg, Hl. rewrite (Pos2Z.inj_xO p) in Hl. split; [|done].
  assert (2 ^ Z.pos (Pos.size p) = 2 * 2 ^ (Z.pos (Pos.size p) - 1)); [|lia].
  replace (Z.pos (Pos.size p)) with (Z.succ (Z.pos (Pos.size p) - 1)) at 1 by lia. by rewrite Z.pow_succ_r by lia.
Qed.

Lemma digits_unique p d : 0 < d -> 2 ^ (d - 1) <= Z.pos p < 2 ^ d -> Z.pos (digits2_pos p) = d.
Proof.
  intros Hd Hp. pose proof (digits_bounds p) as Hb. set (c := Z.pos (digits2_pos p)) in *.
  assert (0 < c) by (unfold c; lia).
  assert (c - 1 < d) by (apply (Z.pow_lt_mono_r_iff 2); lia).
  assert (d - 1 < c) by (apply (Z.pow_lt_mono_r_iff 2); lia). lia.
Qed.

(** Canonical form: 53 digits, or the least exponent. *)
Lemma bounded_spec m e :
  bounded 53 1024 m e = true <->
  e <= 971 /\ ((Z.pos (digits2_pos m) = 53 /\ -1074 <= e) \/ (Z.pos (digits2_pos m) < 53 /\ e = -1074)).
Proof.
  unfold bounded, canonical_mantissa, fexp, emin. rewrite andb_true_iff, Z.eqb_eq, Z.leb_le. lia.
Qed.

Lemma bounded_mantissa m e : bounded 53 1024 m e = true -> Z.pos m < 2 ^ 53.
Proof.
  intros [_ H]%bounded_spec. pose proof (digits_bounds m) as [_ Hm].
  eapply Z.lt_le_trans; [exact Hm|]. apply Z.pow_le_mono_r; lia.
Qed.

(** The mantissas are compared only under equal exponents. *)
Lemma dltb_spec x y : nonneg x = true -> nonneg y = true -> dltb x y = (scaled x <? scaled y).
Proof.
  assert (Hpos : forall m e, -1074 <= e -> 0 < Z.pos m * 2 ^ (e + 1074)).
  { intros m e He. apply Z.mul_pos_pos; [lia|]. apply Z.pow_pos_nonneg; lia. }
  destruct x as [sx| | |[] mx ex], y as [sy| | |[] my ey]; try done; unfold dltb, SFltb; cbn [SFcompare scaled cond_Zopp nonneg valid_binary].
  - intros _ [_ H]%bounded_spec. symmetry. apply Z.ltb_lt, Hpos. lia.
  - intros [_ H]%bounded_spec _. symmetry. apply Z.ltb_ge, Z.lt_le_incl, Hpos. lia.
  - intros Hx Hy. pose proof (bounded_mantissa _ _ Hx) as Hmx. pose proof (bounded_mantissa _ _ Hy) as Hmy.
    apply bounded_spec in Hx as [_ Hx], Hy as [_ Hy].
    pose proof (digits_bounds mx) as [Dx _]. pose proof (digits_bounds my) as [Dy _].
    assert (Hlt : forall m e m' e', e < e' -> -1074 <= e -> Z.pos m < 2 ^ 53 -> Z.pos (digits2_pos m') = 53 ->
                    2 ^ (Z.pos (digits2_pos m') - 1) <= Z.pos m' ->
                    Z.pos m * 2 ^ (e + 1074) < Z.pos m' * 2 ^ (e' + 1074)).
    { intros m e m' e' Hee He Hm Hd Hm'. rewrite Hd in Hm'. apply (Z.lt_le_trans _ (2 ^ 53 * 2 ^ (e + 1074))).
      - apply Z.mul_lt_mono_pos_r; [apply Z.pow_pos_nonneg|]; lia.
      - transitivity (2 ^ 52 * 2 ^ (e' + 1074)).
        + rewrite <-!Z.pow_add_r by lia. apply Z.pow_le_mono_r; lia.
        + apply Z.mul_le_mono_nonneg_r; [apply Z.pow_nonneg|]; lia. }
    destruct (Z.compare_spec ex ey) as [->|Hlt'|Hgt].
    + change (Pos.compare_cont Eq mx my) with (Pos.compare mx my).
      destruct (Pos.compare_spec mx my) as [->|H|H]; symmetry.
      * apply Z.ltb_irrefl.
      * apply Z.ltb_lt, Z.mul_lt_mono_pos_r; [apply Z.pow_pos_nonneg|]; lia.
      * apply Z.ltb_ge, Z.mul_le_mono_nonneg_r; [apply Z.pow_nonneg|]; lia.
    + symmetry. apply Z.ltb_lt. apply Hlt; lia.
    + symmetry. apply Z.ltb_ge, Z.lt_le_incl. apply Hlt; lia.
Qed.

(** ** Rounding of what is representable *)

Lemma iter_pos_nat {A} (f : A -> A) p x : SpecFloat.iter_pos f p x = Nat.iter (Pos.to_nat p) f x.
Proof.
  revert x. induction p as [p IH|p IH|]; intros x; cbn [SpecFloat.iter_pos]; [..|done].
  - rewrite !IH, Pos2Nat.inj_xI, <-Nat.iter_add, <-Nat.iter_succ_r. f_equal. lia.
  - rewrite !IH, Pos2Nat.inj_xO, <-Nat.iter_add. f_equal. lia.
Qed.

(** Shifting out zeros loses nothing. *)
Lemma shr_exact n k : 0 <= k ->
  Nat.iter n shr_1 (Build_shr_record (k * 2 ^ Z.of_nat n) false false) = Build_shr_record k false false.
Proof.
  intros Hk. induction n as [|n IH]; [simpl; f_equal; lia|].
  rewrite Nat.iter_succ_r, Nat2Z.inj_succ, Z.pow_succ_r by lia.
  replace (k * (2 * 2 ^ Z.of_nat n)) with (2 * (k * 2 ^ Z.of_nat n)) by lia. rewrite <-IH. f_equal.
  assert (0 <= k * 2 ^ Z.of_nat n) by (apply Z.mul_nonneg_nonneg; [done|apply Z.pow_nonneg; lia]).
  by destruct (k * 2 ^ Z.of_nat n).
Qed.

(** The two shifts of a rounding step, when the first one only drops zeros. *)
Lemma round_aux_exact k e n :
  0 <= n -> e + n <= 971 -> bounded 53 1024 k (e + n) = true ->
  binary_round_aux 53 1024 false (Z.pos k * 2 ^ n) e loc_Exact = S754_finite false k (e + n).
Proof.
  intros Hn He Hb. pose proof Hb as Hc. unfold bounded, canonical_mantissa in Hc.
  apply andb_true_iff in Hc as [Hc%Z.eqb_eq _].
  assert (Hd : Zdigits2 (Z.pos k * 2 ^ n) = Z.pos (digits2_pos k) + n).
  { assert (Hp : 0 < Z.pos k * 2 ^ n) by (apply Z.mul_pos_pos; [lia|apply Z.pow_pos_nonneg; lia]).
    destruct (Z.pos k * 2 ^ n) as [|p|p] eqn:E; [lia| |lia]. apply digits_unique; [lia|]. rewrite <-E.
    pose proof (digits_bounds k) as Hk.
    replace (Z.pos (digits2_pos k) + n - 1) with ((Z.pos (digits2_pos k) - 1) + n) by lia.
    rewrite !Z.pow_add_r by lia. pose proof (Z.pow_pos_nonneg 2 n ltac:(lia) Hn). nia. }
  unfold binary_round_aux, shr_fexp. cbn [shr_record_of_loc]. rewrite Hd.
  replace (Z.pos (digits2_pos k) + n + e) with (Z.pos (digits2_pos k) + (e + n)) by lia. rewrite Hc.
  replace (e + n - e) with n by lia.
  assert (Hshr : shr (Build_shr_record (Z.pos k * 2 ^ n) false false) e n
                 = (Build_shr_record (Z.pos k) false false, e + n)).
  { destruct n as [|p|p]; [simpl; f_equal; [f_equal|]; lia| |lia]. unfold shr. rewrite iter_pos_nat. f_equal.
    rewrite <-(positive_nat_Z p). by apply shr_exact. }
  rewrite Hshr. cbn [shr_m loc_of_shr_record round_nearest_even Zdigits2]. rewrite Hc, Z.sub_diag. cbn [shr shr_m].
  rewrite (proj2 (Z.leb_le _ _)); [done|lia].
Qed.

(** A mantissa with trailing zeros that fits in 53 bits without them is
    represented exactly. *)
Lemma round_exact m e k j :
  Z.pos m = Z.pos k * 2 ^ j -> 0 <= j -> Z.pos k < 2 ^ 53 -> -1074 <= e -> Z.pos (digits2_pos m) + e <= 1024 ->
  let x := binary_normalize 53 1024 (Z.pos m) e false in
  nonneg x = true /\ scaled x = Z.pos m * 2 ^ (e + 1074).
Proof.
  intros Hm Hj Hk He Hmax. cbv zeta. cbn [binary_normalize]. unfold binary_round, shl_align.
  set (d := Z.pos (digits2_pos m)) in *. set (f := fexp 53 1024 (d + e)).
  assert (Hf : f = Z.max (d + e - 53) (-1074)) by done.
  pose proof (digits_bounds m) as Hdm. fold d in Hdm. assert (0 < d) by (unfold d; lia).
  assert (Hdj : d <= 53 + j).
  { assert (Z.pos m < 2 ^ (53 + j)); [|enough (d - 1 < 53 + j) by lia; apply (Z.pow_lt_mono_r_iff 2); lia].
    rewrite Hm, Z.pow_add_r by lia. apply Z.mul_lt_mono_pos_r; [apply Z.pow_pos_nonneg|]; lia. }
  destruct (f - e) as [|p|p] eqn:Hfe.
  - assert (Hb : bounded 53 1024 m (e + 0) = true) by (apply bounded_spec; fold d; lia).
    replace (Z.pos m) with (Z.pos m * 2 ^ 0) by lia. rewrite round_aux_exact by (done || lia).
    cbn [nonneg valid_binary scaled cond_Zopp]. split; [done|]. by rewrite Z.add_0_r, Z.mul_1_r.
  - set (n := Z.pos p) in *. set (q := Z.to_pos (Z.pos k * 2 ^ (j - n))).
    assert (Hq : Z.pos m = Z.pos q * 2 ^ n).
    { unfold q. rewrite Z2Pos.id by (apply Z.mul_pos_pos; [lia|apply Z.pow_pos_nonneg; lia]).
      rewrite Hm, <-Z.mul_assoc, <-Z.pow_add_r by lia. do 2 f_equal. lia. }
    assert (Hdq : Z.pos (digits2_pos q) = 53).
    { apply digits_unique; [lia|]. rewrite Hq in Hdm. replace (d - 1) with (52 + n) in Hdm by lia.
      replace d with (53 + n) in Hdm by lia. rewrite !Z.pow_add_r in Hdm by lia.
      pose proof (Z.pow_pos_nonneg 2 n ltac:(lia) ltac:(lia)). change (53 - 1) with 52. nia. }
    rewrite Hq. assert (Hb : bounded 53 1024 q (e + n) = true) by (apply bounded_spec; lia).
    rewrite round_aux_exact by (done || lia). cbn [nonneg valid_binary scaled cond_Zopp]. split; [done|].
    replace (e + n + 1074) with (n + (e + 1074)) by lia. rewrite Z.pow_add_r by lia. lia.
  - set (n := Z.pos p) in *. set (q := Pos.iter xO m p).
    assert (Hq : Z.pos q = Z.pos m * 2 ^ n).
    { unfold q. change (Pos.iter xO m p) with (Zpower.shift_pos p m). rewrite Zpower.shift_pos_correct.
      change (Z.pow_pos 2 p) with (2 ^ n). lia. }
    assert (Hdq : Z.pos (digits2_pos q) = d + n).
    { apply digits_unique; [lia|]. rewrite Hq. replace (d + n - 1) with ((d - 1) + n) by lia.
      rewrite !Z.pow_add_r by lia. pose proof (Z.pow_pos_nonneg 2 n ltac:(lia) ltac:(lia)). nia. }
    assert (Hb : bounded 53 1024 q (f + 0) = true) by (apply bounded_spec; lia).
    replace (Z.pos q) with (Z.pos q * 2 ^ 0) by lia. rewrite round_aux_exact by (done || lia).
    cbn [nonneg valid_binary scaled cond_Zopp]. split; [done|].
    rewrite Hq, <-Z.mul_assoc, <-Z.pow_add_r by lia. do 2 f_equal. lia.
Qed.

(** ** Counting down by one is exact *)

Lemma one_double_value : one_double = S754_finite false 4503599627370496 (-52).
Proof. reflexivity. Qed.

Lemma scaled_one : scaled one_double = 2 ^ 1074.
Proof. rewrite one_double_value. cbn [scaled cond_Zopp]. change 4503599627370496 with (2 ^ 52). by rewrite <-Z.pow_add_r. Qed.

Lemma shl_align_spec m e e' : e' <= e -> Z.pos (fst (shl_align m e e')) = Z.pos m * 2 ^ (e - e').
Proof.
  intros He. unfold shl_align. destruct (e' - e) as [|p|p] eqn:E; [|lia|].
  - replace (e - e') with 0 by lia. cbn [fst]. lia.
  - cbn [fst]. change (Pos.iter xO m p) with (Zpower.shift_pos p m). rewrite Zpower.shift_pos_correct.
    change (Z.pow_pos 2 p) with (2 ^ Z.pos p). replace (e - e') with (Z.pos p) by lia. lia.
Qed.

(** From one to 2^53 the subtraction of one does not round. *)
Lemma dsub_one x :
  nonneg x = true -> 2 ^ 1074 <= scaled x <= 2 ^ 53 * 2 ^ 1074 ->
  nonneg (dsub x one_double) = true /\ scaled (dsub x one_double) = scaled x - 2 ^ 1074.
Proof.
  intros Hx Hs. destruct x as [s| | |[] mx ex]; try done.
  { cbn [scaled] in Hs. pose proof (Z.pow_pos_nonneg 2 1074 ltac:(lia) ltac:(lia)). lia. }
  cbn [nonneg valid_binary scaled cond_Zopp] in *. pose proof (bounded_mantissa _ _ Hx) as Hmx.
  apply bounded_spec in Hx as [Hex Hcan]. pose proof (digits_bounds mx) as [Hlow _].
  assert (Hge : -52 <= ex).
  { enough (1074 < 53 + (ex + 1074)) by lia. apply (Z.pow_lt_mono_r_iff 2); [lia|lia|].
    rewrite Z.pow_add_r by lia. eapply Z.le_lt_trans; [apply Hs|].
    apply Z.mul_lt_mono_pos_r; [apply Z.pow_pos_nonneg|]; lia. }
  assert (Hle : ex <= 0 \/ ex = 1 /\ Z.pos mx = 2 ^ 52).
  { destruct Hcan as [[Hd _]|]; [|lia]. rewrite Hd in Hlow. change (53 - 1) with 52 in Hlow.
    assert (52 + (ex + 1074) <= 53 + 1074).
    { apply (Z.pow_le_mono_r_iff 2); [lia|lia|]. rewrite !Z.pow_add_r by lia. etrans; [|apply Hs].
      apply Z.mul_le_mono_nonneg_r; [apply Z.pow_nonneg; lia|done]. }
    destruct (decide (ex <= 0)); [by left|right]. assert (ex = 1) as -> by lia. split; [done|].
    assert (Hm : Z.pos mx * 2 ^ 1075 <= 2 ^ 52 * 2 ^ 1075).
    { rewrite <-(Z.pow_add_r 2 52 1075) by lia. replace (2 ^ (52 + 1075)) with (2 ^ 53 * 2 ^ 1074); [apply Hs|].
      rewrite <-Z.pow_add_r by lia. done. }
    apply Z.mul_le_mono_pos_r in Hm; [lia|apply Z.pow_pos_nonneg; lia]. }
  rewrite one_double_value. unfold dsub, SFsub. cbn [cond_Zopp]. rewrite Z.min_r by lia.
  rewrite !shl_align_spec by lia. replace (ex - -52) with (ex + 52) by lia. change (-52 - -52) with 0.
  rewrite Z.pow_0_r, Z.mul_1_r. change (4503599627370496) with (2 ^ 52).
  assert (Hval : Z.pos mx * 2 ^ (ex + 1074) - 2 ^ 1074 = (Z.pos mx * 2 ^ (ex + 52) - 2 ^ 52) * 2 ^ (-52 + 1074)).
  { rewrite Z.mul_sub_distr_r, <-Z.mul_assoc, <-!Z.pow_add_r by lia. do 3 f_equal. lia. }
  assert (Hfit : exists k j, Z.pos mx * 2 ^ (ex + 52) - 2 ^ 52 = k * 2 ^ j /\ 0 <= j <= 52 /\ 0 <= k < 2 ^ 53).
  { assert (Hn : 0 <= Z.pos mx * 2 ^ (ex + 52) - 2 ^ 52).
    { apply (Z.mul_le_mono_pos_r _ _ (2 ^ (-52 + 1074))); [apply Z.pow_pos_nonneg; lia|]. rewrite <-Hval. lia. }
    destruct Hle as [Hle|[-> ->]]; [|exists (2 ^ 53 - 1), 52; split; [reflexivity|lia]].
    exists (Z.pos mx - 2 ^ (- ex)), (ex + 52).
    assert (Hk : Z.pos mx * 2 ^ (ex + 52) - 2 ^ 52 = (Z.pos mx - 2 ^ (- ex)) * 2 ^ (ex + 52)).
    { rewrite Z.mul_sub_distr_r, <-Z.pow_add_r by lia. do 2 f_equal. lia. }
    split_and!; [done|lia..| |].
    - rewrite Hk in Hn. apply (Z.mul_le_mono_pos_r 0 _ (2 ^ (ex + 52))); [apply Z.pow_pos_nonneg; lia|lia].
    - pose proof (Z.pow_pos_nonneg 2 (- ex) ltac:(lia) ltac:(lia)). lia. }
  rewrite Hval. destruct Hfit as (k & j & E & Hj & Hk). rewrite E.
  destruct k as [|k|k]; [by rewrite Z.mul_0_l| |lia].
  assert (Hpos : 0 < Z.pos k * 2 ^ j) by (apply Z.mul_pos_pos; [lia|apply Z.pow_pos_nonneg; lia]).
  destruct (Z.pos k * 2 ^ j) as [|m|m] eqn:Em; [lia| |lia]. apply (round_exact m (-52) k j); try lia.
  assert (Hd : Z.pos m < 2 ^ (53 + 52)).
  { rewrite <-Em, Z.pow_add_r by lia. apply (Z.le_lt_trans _ (Z.pos k * 2 ^ 52)).
    - apply Z.mul_le_mono_nonneg_l; [lia|]. apply Z.pow_le_mono_r; lia.
    - apply Z.mul_lt_mono_pos_r; lia. }
  pose proof (digits_bounds m) as [Hm _].
  enough (Z.pos (digits2_pos m) - 1 < 53 + 52) by lia. apply (Z.pow_lt_mono_r_iff 2); lia.
Qed.
