(* ===== verification/Http.v ===== *)
(** * openproof.gateway: requests, responses and the session credential

    Models the transport-neutral half of [src/src/gateway/gateway.cpp]: header
    names and values, [HttpRequest], [HttpResponse], the removal of hop-by-hop
    and trusted headers, and [takeSessionCredential], which takes the one
    credential of a request out of it before the request goes anywhere else. *)
From S2P Require Import Prelude Foundation.

(** [std::map] keyed by lower-case field names. *)
Abbreviation Headers := (gmap string string).

Definition lower_octet (value : ascii) : ascii :=
  let n := N_of_ascii value in
  if (65 <=? Z.of_N n) && (Z.of_N n <=? 90) then ascii_of_N (n + 32) else value.

Fixpoint lowercase (text : string) : string :=
  match text with "" => "" | String value text => String (lower_octet value) (lowercase text) end.

Definition between (low high symbol : ascii) : bool :=
  (N_of_ascii low <=? N_of_ascii symbol)%N && (N_of_ascii symbol <=? N_of_ascii high)%N.

Definition contains (value : string) (symbol : ascii) : bool :=
  any_octet (fun c => bool_decide (c = symbol)) value.

Definition isHeaderName (name : string) : bool :=
  negb (bool_decide (name = ""))
  && all_octets (fun value =>
       between "a" "z" value || between "A" "Z" value || between "0" "9" value
       || contains "!#$%&'*+-.^_`|~" value) name.

Definition tab : ascii := "009".

Definition hasControl (value : string) : bool :=
  any_octet (fun symbol =>
    let byte := Z.of_N (N_of_ascii symbol) in
    (byte =? 127) || ((byte <? 32) && negb (bool_decide (symbol = tab)))) value.

Definition invalidTargetCharacter (value : string) : bool :=
  any_octet (fun symbol =>
    let byte := Z.of_N (N_of_ascii symbol) in (byte <=? 32) || (byte =? 127)) value.

Definition isAmbiguousSingleton (name : string) : bool :=
  bool_decide (name = "authorization") || bool_decide (name = "host")
  || bool_decide (name = "content-length") || bool_decide (name = "transfer-encoding").

Inductive HttpMethod := Get | Head | Post | Put | Patch | Delete | Options.

#[global] Instance HttpMethod_eq_dec : EqDecision HttpMethod.
Proof. solve_decision. Defined.

Definition httpMethodName (method : HttpMethod) : string :=
  match method with
  | Get => "GET" | Head => "HEAD" | Post => "POST" | Put => "PUT" | Patch => "PATCH"
  | Delete => "DELETE" | Options => "OPTIONS"
  end.

Definition parseHttpMethod (method : string) : Result HttpMethod :=
  if bool_decide (method = "GET") then Ok Get
  else if bool_decide (method = "HEAD") then Ok Head
  else if bool_decide (method = "POST") then Ok Post
  else if bool_decide (method = "PUT") then Ok Put
  else if bool_decide (method = "PATCH") then Ok Patch
  else if bool_decide (method = "DELETE") then Ok Delete
  else if bool_decide (method = "OPTIONS") then Ok Options
  else fail InvalidArgument "The HTTP method is not supported.".

Definition retryable (method : HttpMethod) : bool :=
  bool_decide (method = Get) || bool_decide (method = Head) || bool_decide (method = Options).

(** ** Requests *)

Module HttpRequest.
Record t := mk {
  method : HttpMethod;
  target : string;
  path : string;
  headers : Headers;
  body : string;
  remoteAddress : string;
  correlation : CorrelationId;
}.

Definition header (r : t) (name : string) : option string := headers r !! lowercase name.

Definition with_headers (f : Headers -> Headers) (r : t) : t :=
  mk (method r) (target r) (path r) (f (headers r)) (body r) (remoteAddress r) (correlation r).

Definition setHeader (name value : string) : t -> t := with_headers <[lowercase name := value]>.
Definition eraseHeader (name : string) : t -> t := with_headers (delete (lowercase name)).

(** The loop that normalizes the fields of a request. *)
Fixpoint normalizeHeaders (headers : list (string * string)) (normalized : Headers) : Result Headers :=
  match headers with
  | [] => Ok normalized
  | (rawName, value) :: headers =>
      if (256 <? String.length rawName)%nat || (16384 <? Z.of_nat (String.length value))
         || negb (isHeaderName rawName) || hasControl value then
        fail InvalidArgument "The HTTP request contains an invalid header."
      else
        let name := lowercase rawName in
        match normalized !! name with
        | Some existing =>
            if isAmbiguousSingleton name then
              fail InvalidArgument "The HTTP request contains an ambiguous header."
            else
              let separator := if bool_decide (name = "cookie") then "; " else "," in
              normalizeHeaders headers (<[name := existing +:+ separator +:+ value]> normalized)
        | None => normalizeHeaders headers (<[name := value]> normalized)
        end
  end.

Definition create (method : HttpMethod) (target : string) (headers : list (string * string))
    (body remoteAddress : string) (correlation : CorrelationId) : Result t :=
  if bool_decide (target = "") || (8192 <? Z.of_nat (String.length target))
     || negb (starts_with target "/") || starts_with target "//" || contains target "#"
     || invalidTargetCharacter target || bool_decide (remoteAddress = "")
     || (256 <? String.length remoteAddress)%nat || hasControl remoteAddress
     || id_empty correlation || (256 <? length headers)%nat then
    fail InvalidArgument "The HTTP request target is invalid."
  else
    let path := (split_first (fun c => bool_decide (c = "?"%char)) target).1 in
    if bool_decide (path = "") then fail InvalidArgument "The HTTP request path is invalid."
    else
      normalized ← normalizeHeaders headers ∅;
      if bool_decide (is_Some (normalized !! "content-length"))
         && bool_decide (is_Some (normalized !! "transfer-encoding")) then
        fail InvalidArgument "The HTTP request framing is ambiguous."
      else Ok (mk method target path normalized body remoteAddress correlation).
End HttpRequest.

(** ** Responses *)

Module HttpResponse.
Record t := mk {
  status : Z;
  headers : Headers;
  repeatedHeaders : list (string * string);
  body : string;
}.

(** The constructor: no field is repeated yet. *)
Definition create (status : Z) (headers : Headers) (body : string) : t := mk status headers [] body.

Definition other (name : string) (header : string * string) : Prop := header.1 <> name.
#[global] Instance other_dec name header : Decision (other name header).
Proof. unfold other. apply _. Defined.

Definition addHeader (name value : string) (r : t) : t :=
  let name := lowercase name in
  if bool_decide (is_Some (headers r !! name)) then
    mk (status r) (headers r) (repeatedHeaders r ++ [(name, value)]) (body r)
  else mk (status r) (<[name := value]> (headers r)) (repeatedHeaders r) (body r).

Definition setHeader (name value : string) (r : t) : t :=
  let name := lowercase name in
  mk (status r) (<[name := value]> (headers r)) (filter (other name) (repeatedHeaders r)) (body r).

Definition eraseHeader (name : string) (r : t) : t :=
  let normalized := lowercase name in
  mk (status r) (delete normalized (headers r)) (filter (other normalized) (repeatedHeaders r)) (body r).
End HttpResponse.

(** ** Fields that end at the gateway *)

Definition hopByHopHeaders : list string :=
  ["connection"; "proxy-connection"; "keep-alive"; "transfer-encoding"; "te"; "trailer"; "upgrade"].

Definition blank (c : ascii) : bool := bool_decide (c = " "%char) || bool_decide (c = tab).

(** The loops that remove blanks in front of an item and after it. *)
Fixpoint trim_front (item : string) : string :=
  match item with
  | "" => ""
  | String c rest => if blank c then trim_front rest else item
  end.
Fixpoint trim_back (item : string) : string :=
  match item with
  | "" => ""
  | String c rest =>
      let rest := trim_back rest in if blank c && bool_decide (rest = "") then "" else String c rest
  end.
Definition trim (item : string) : string := trim_back (trim_front item).

Definition eraseHeaders (names : list string) (request : HttpRequest.t) : HttpRequest.t :=
  foldl (fun request name => HttpRequest.eraseHeader name request) request names.

(** The fields the connection header names, as [stripHopByHop] collects them. *)
Definition connectionHeaders (request : HttpRequest.t) : list string :=
  match HttpRequest.header request "connection" with
  | None => []
  | Some connection =>
      lowercase <$> filter (fun item => item <> "") (trim <$> split_on connection ",")
  end.

Definition stripHopByHop (request : HttpRequest.t) : HttpRequest.t :=
  eraseHeaders hopByHopHeaders (eraseHeaders (connectionHeaders request) request).

Definition kTrustedPrefix : string := "x-openproof-".

Definition stripTrustedIdentityHeaders (request : HttpRequest.t) : HttpRequest.t :=
  eraseHeaders
    (filter (fun name => starts_with name kTrustedPrefix = true) (map_iter (HttpRequest.headers request)).*1)
    request.

Definition secureResponse (response : HttpResponse.t) : HttpResponse.t :=
  let response := foldl (fun response name => HttpResponse.eraseHeader name response) response hopByHopHeaders in
  HttpResponse.setHeader "cache-control" "no-store"
    (HttpResponse.setHeader "referrer-policy" "no-referrer"
       (HttpResponse.setHeader "x-content-type-options" "nosniff" response)).

(** ** The session credential *)

Definition kSessionCookie : string := "__Host-openproof-session".

Definition unauthenticated {A} : Result A := fail AuthenticationRequired "Authentication is required.".

(** What follows the scheme of an authorization field: [None] for a scheme
    other than the two accepted ones. *)
Definition authorizationToken (authorization : string) : option string :=
  match strip_prefix "Bearer " authorization with
  | Some token => Some token
  | None => strip_prefix "DPoP " authorization
  end.

Definition takeBearer : prog HttpRequest.t Error (option string) := fun request =>
  match HttpRequest.header request "authorization" with
  | None => (Ok None, request)
  | Some authorization =>
      let request := HttpRequest.eraseHeader "authorization" request in
      match authorizationToken authorization with
      | None => (unauthenticated, request)
      | Some token =>
          if bool_decide (token = "") || contains token " " || contains token tab then (unauthenticated, request)
          else (Ok (Some token), request)
      end
  end.

Definition validCookieToken (value : string) : bool :=
  negb (bool_decide (value = "")) && (String.length value <=? 128)%nat
  && all_octets (fun symbol =>
       between "A" "Z" symbol || between "a" "z" symbol || between "0" "9" symbol
       || bool_decide (symbol = "-"%char) || bool_decide (symbol = "_"%char)) value.

(** [item.find('=')]: the value when the item is the platform's cookie. *)
Definition sessionCookieValue (item : string) : option string :=
  match split_first (fun c => bool_decide (c = "="%char)) item with
  | (name, String _ value) => if bool_decide (name = kSessionCookie) then Some value else None
  | _ => None
  end.

(** The loop over the items of a cookie field: the items to keep and the token,
    or [None] for a malformed or second token. *)
Fixpoint cookieLoop (items retained : list string) (cookieToken : option string)
    : option (list string * option string) :=
  match items with
  | [] => Some (retained, cookieToken)
  | item :: items =>
      let item := trim item in
      match sessionCookieValue item with
      | Some value =>
          if negb (validCookieToken value) || bool_decide (is_Some cookieToken) then None
          else cookieLoop items retained (Some value)
      | None =>
          if bool_decide (item = "") then cookieLoop items retained cookieToken
          else cookieLoop items (retained ++ [item]) cookieToken
      end
  end.

(** [rebuilt]: the items separated by a semicolon and a blank. *)
Fixpoint join_items (items : list string) : string :=
  match items with
  | [] => ""
  | item :: items => match items with [] => item | _ => item +:+ "; " +:+ join_items items end
  end.

Definition takeCookie : prog HttpRequest.t Error (option string) := fun request =>
  match HttpRequest.header request "cookie" with
  | None => (Ok None, request)
  | Some cookie =>
      match cookieLoop (split_on cookie ";") [] None with
      | None => (unauthenticated, HttpRequest.eraseHeader "cookie" request)
      | Some (retained, cookieToken) =>
          (Ok cookieToken,
           if bool_decide (retained = []) then HttpRequest.eraseHeader "cookie" request
           else HttpRequest.setHeader "cookie" (join_items retained) request)
      end
  end.

Definition takeSessionCredential : prog HttpRequest.t Error (option string) :=
  bearer ← takeBearer;
  cookieToken ← takeCookie;
  match bearer, cookieToken with
  | Some _, Some _ => lift unauthenticated
  | Some bearer, None => mret (Some bearer)
  | None, Some cookieToken => mret (Some cookieToken)
  | None, None => mret None
  end.

(** ** Lemmas: names, trimming, items *)

Lemma lower_octet_idem c : lower_octet (lower_octet c) = lower_octet c.
Proof. destruct c as [[] [] [] [] [] [] [] []]; reflexivity. Qed.

Lemma lowercase_idem s : lowercase (lowercase s) = lowercase s.
Proof. induction s as [|c s IH]; simpl; [done|]. by rewrite lower_octet_idem, IH. Qed.

(** The keys of a request are in lower case. *)
Definition canonical_names (headers : Headers) : Prop :=
  forall name value, headers !! name = Some value -> lowercase name = name.

Lemma header_set r name value k :
  HttpRequest.headers (HttpRequest.setHeader name value r) !! k
  = if decide (k = lowercase name) then Some value else HttpRequest.headers r !! k.
Proof.
  unfold HttpRequest.setHeader, HttpRequest.with_headers. cbn [HttpRequest.headers].
  case_decide; [subst; apply lookup_insert_eq|]. by apply lookup_insert_ne.
Qed.

Lemma header_erase r name k :
  HttpRequest.headers (HttpRequest.eraseHeader name r) !! k
  = if decide (k = lowercase name) then None else HttpRequest.headers r !! k.
Proof.
  unfold HttpRequest.eraseHeader, HttpRequest.with_headers. cbn [HttpRequest.headers].
  case_decide; [subst; apply lookup_delete_eq|]. by apply lookup_delete_ne.
Qed.

(** Everything of a request but its fields. *)
Definition same_line (r r' : HttpRequest.t) : Prop :=
  HttpRequest.method r = HttpRequest.method r' /\ HttpRequest.target r = HttpRequest.target r' /\
  HttpRequest.path r = HttpRequest.path r' /\ HttpRequest.body r = HttpRequest.body r' /\
  HttpRequest.remoteAddress r = HttpRequest.remoteAddress r' /\
  HttpRequest.correlation r = HttpRequest.correlation r'.

#[global] Instance same_line_preorder : PreOrder same_line.
Proof. unfold same_line. split; [intros r; done|]. intros r1 r2 r3. naive_solver congruence. Qed.

Lemma same_line_with f r : same_line r (HttpRequest.with_headers f r).
Proof. done. Qed.

Lemma header_erase_all names r k :
  HttpRequest.headers (eraseHeaders names r) !! k
  = if decide (k ∈ lowercase <$> names) then None else HttpRequest.headers r !! k.
Proof.
  revert r. induction names as [|n names IH]; intros r; cbn [eraseHeaders foldl]; [done|].
  change (foldl _ ?r names) with (eraseHeaders names r). rewrite IH, header_erase, fmap_cons.
  repeat case_decide; try done; set_solver.
Qed.

Lemma same_line_erase_all names r : same_line r (eraseHeaders names r).
Proof.
  revert r. induction names as [|n names IH]; intros r; [done|]. cbn [eraseHeaders foldl].
  change (foldl _ ?r names) with (eraseHeaders names r). etrans; [|apply IH]. apply same_line_with.
Qed.

Lemma stripped_trusted r k :
  canonical_names (HttpRequest.headers r) ->
  HttpRequest.headers (stripTrustedIdentityHeaders r) !! k
  = if starts_with k kTrustedPrefix then None else HttpRequest.headers r !! k.
Proof.
  intros Hc. unfold stripTrustedIdentityHeaders. rewrite header_erase_all.
  destruct (HttpRequest.headers r !! k) as [v|] eqn:Hk; [|by repeat case_match].
  case_decide as Hin.
  - apply list_elem_of_fmap in Hin as (n & -> & Hn). apply list_elem_of_filter in Hn as [Hn Hd].
    apply list_elem_of_fmap in Hd as ([n' v'] & -> & Hd%elem_of_map_iter).
    cbn [fst] in *. rewrite (Hc _ _ Hd), Hn. done.
  - case_match eqn:Hs; [|done]. destruct Hin. apply list_elem_of_fmap. exists k.
    split; [symmetry; by eapply Hc|]. apply list_elem_of_filter. split; [done|].
    apply list_elem_of_fmap. exists (k, v). split; [done|]. by apply elem_of_map_iter.
Qed.

(** Erasing fields only removes entries. *)
Definition fewer_headers (r r' : HttpRequest.t) : Prop :=
  same_line r r' /\ HttpRequest.headers r' ⊆ HttpRequest.headers r.

#[global] Instance fewer_headers_preorder : PreOrder fewer_headers.
Proof. split; [done|]. intros r1 r2 r3 [H1 H2] [H3 H4]. split; by etrans. Qed.

Lemma fewer_erase_all names r : fewer_headers r (eraseHeaders names r).
Proof.
  split; [apply same_line_erase_all|]. apply map_subseteq_spec. intros k v. rewrite header_erase_all.
  by case_decide.
Qed.

Lemma fewer_strip_hop r : fewer_headers r (stripHopByHop r).
Proof. unfold stripHopByHop. etrans; apply fewer_erase_all. Qed.

Lemma fewer_canonical r r' :
  fewer_headers r r' -> canonical_names (HttpRequest.headers r) -> canonical_names (HttpRequest.headers r').
Proof. intros [_ Hs] Hc n v Hn. eapply Hc, lookup_weaken; done. Qed.

Lemma canonical_set r name value :
  canonical_names (HttpRequest.headers r) -> canonical_names (HttpRequest.headers (HttpRequest.setHeader name value r)).
Proof. intros Hc n v. rewrite header_set. case_decide; [subst; by rewrite lowercase_idem|apply Hc]. Qed.

Lemma normalized_names headers normalized result :
  HttpRequest.normalizeHeaders headers normalized = Ok result -> canonical_names normalized -> canonical_names result.
Proof.
  assert (Hset : forall (m : Headers) raw v, canonical_names m -> canonical_names (<[lowercase raw := v]> m)).
  { intros m raw v Hc n w. destruct (decide (n = lowercase raw)) as [->|Hne]; [by rewrite lowercase_idem|].
    rewrite lookup_insert_ne by done. apply Hc. }
  revert normalized. induction headers as [|[raw v] headers IH]; intros normalized; cbn [HttpRequest.normalizeHeaders].
  { by intros [= ->]. }
  destruct (_ || _); [done|]. destruct (normalized !! lowercase raw); [destruct (isAmbiguousSingleton _); [done|]|];
    intros H Hc; eapply IH; eauto.
Qed.

(** A request the code accepts has canonical names. *)
Lemma created_names method target headers body address correlation r :
  HttpRequest.create method target headers body address correlation = Ok r ->
  canonical_names (HttpRequest.headers r).
Proof.
  unfold HttpRequest.create. intros H. destruct (_ || _); [done|]. cbv zeta in H. case_bool_decide; [done|].
  apply result_bind_ok in H as (n & Hn & H). destruct (_ && _); [done|]. injection H as <-.
  eapply normalized_names; [exact Hn|]. by intros k v.
Qed.

Lemma trim_back_empty s : trim_back s = "" -> all_octets blank s = true.
Proof.
  induction s as [|c s IH]; simpl; [done|]. destruct (blank c); simpl; [|done].
  case_bool_decide as E; [auto|done].
Qed.

Lemma trim_back_idem s : trim_back (trim_back s) = trim_back s.
Proof.
  induction s as [|c s IH]; simpl; [done|]. destruct (blank c && bool_decide (trim_back s = "")) eqn:E; [done|].
  simpl. by rewrite IH, E.
Qed.

Lemma trim_front_head s c rest : trim_front s = String c rest -> blank c = false.
Proof. induction s as [|d s IH]; simpl; [done|]. destruct (blank d) eqn:Hd; [auto|]. by intros [= <- <-]. Qed.

Lemma trim_idem s : trim (trim s) = trim s.
Proof.
  unfold trim. destruct (trim_front s) as [|c rest] eqn:E; [done|]. pose proof (trim_front_head _ _ _ E) as Hc.
  cbn [trim_back]. rewrite Hc. cbn [andb trim_front]. rewrite Hc. cbn [trim_back]. rewrite Hc. cbn [andb].
  by rewrite trim_back_idem.
Qed.

Lemma trim_blank c s : blank c = true -> trim (String c s) = trim s.
Proof. intros Hc. unfold trim. simpl. by rewrite Hc. Qed.

Lemma any_octet_trim p s : any_octet p s = false -> any_octet p (trim s) = false.
Proof.
  assert (Hf : forall s, any_octet p s = false -> any_octet p (trim_front s) = false).
  { induction s0 as [|c s0 IH]; simpl; [done|]. intros [Hc H]%orb_false_iff. destruct (blank c); [auto|].
    simpl. by rewrite Hc. }
  assert (Hb : forall s, any_octet p s = false -> any_octet p (trim_back s) = false).
  { induction s0 as [|c s0 IH]; simpl; [done|]. intros [Hc H]%orb_false_iff.
    case_match; [done|]. simpl. rewrite Hc. auto. }
  intros Hs. by apply Hb, Hf.
Qed.

Lemma split_on_no_delimiter s d item : item ∈ split_on s d -> contains item d = false.
Proof.
  unfold contains. revert item. induction s as [|c s IH]; intros item; simpl.
  { intros ->%list_elem_of_singleton. done. }
  case_bool_decide as Hc.
  - intros [->|Hin]%elem_of_cons; [done|]. auto.
  - destruct (split_on s d) as [|f fs]; intros Hin.
    + apply list_elem_of_singleton in Hin as ->. simpl. by rewrite bool_decide_eq_false_2.
    + apply elem_of_cons in Hin as [->|Hin]; [|apply IH; by right].
      simpl. rewrite bool_decide_eq_false_2 by done. apply IH. by left.
Qed.

(** An item of a list field: no separator, no surrounding blank. *)
Definition clean_item (item : string) : Prop := contains item ";" = false /\ trim item = item.

(** Rebuilt items are found again. *)
Lemma split_joined items :
  items <> [] -> Forall clean_item items -> trim <$> split_on (join_items items) ";" = items.
Proof.
  intros Hne Hf. induction Hf as [|item items [Hno Htrim] Hf IH]; [done|]. clear Hne. destruct items as [|next items].
  - cbn [join_items]. rewrite split_on_last by done. simpl. by rewrite Htrim.
  - change (join_items (item :: next :: items)) with (item +:+ "; " +:+ join_items (next :: items)).
    specialize (IH ltac:(done)). revert IH. generalize (join_items (next :: items)). intros s.
    change ("; " +:+ s) with (String ";" (String " " s)). rewrite split_on_app by done. cbn [split_on].
    rewrite bool_decide_eq_false_2 by done. destruct (split_on s ";") as [|f fs]; [done|].
    rewrite !fmap_cons, Htrim. intros <-. done.
Qed.

(** ** The credential leaves the request *)

(** The cookie loop keeps clean items other than the platform's cookie, and
    reads its token from an item. *)
Lemma cookieLoop_spec items retained token retained' token' :
  cookieLoop items retained token = Some (retained', token') ->
  Forall (fun item => contains item ";" = false) items ->
  Forall (fun item => clean_item item /\ item <> "" /\ sessionCookieValue item = None) retained ->
  Forall (fun item => clean_item item /\ item <> "" /\ sessionCookieValue item = None) retained' /\
  (token' = token \/ exists item value, item ∈ items /\ token' = Some value /\
     sessionCookieValue (trim item) = Some value /\ validCookieToken value = true).
Proof.
  revert retained token. induction items as [|item items IH]; intros retained token; cbn [cookieLoop].
  { intros [= <- <-] _ Hr. auto. }
  intros H [Hi Hf]%Forall_cons Hr. cbv zeta in H. destruct (sessionCookieValue (trim item)) as [v|] eqn:Hv.
  - destruct (_ || _) eqn:Hg; [done|]. bool_prop. destruct (IH _ _ H Hf Hr) as [Hr' [->|Hex]]; (split; [done|]); right.
    + exists item, v. split_and!; [by left|done..].
    + destruct Hex as (i & w & Hin & Hrest). exists i, w. split; [by right|done].
  - assert (Hr2 : Forall (fun item => clean_item item /\ item <> "" /\ sessionCookieValue item = None)
                    (if bool_decide (trim item = "") then retained else retained ++ [trim item])).
    { case_bool_decide as He; [done|]. apply Forall_app. split; [done|]. apply Forall_singleton.
      split_and!; try done. split; [|apply trim_idem]. by apply any_octet_trim. }
    destruct (IH (if bool_decide (trim item = "") then retained else retained ++ [trim item]) token) as [Hr' Htok];
      [by case_bool_decide|done|done|].
    split; [done|]. destruct Htok as [->|(i & w & Hin & Hrest)]; [by left|right]. exists i, w. split; [by right|done].
Qed.

Lemma takeBearer_ok r bearer r' :
  takeBearer r = (Ok bearer, r') ->
  fewer_headers r r' /\ HttpRequest.headers r' !! "authorization" = None /\
  (forall k, k <> "authorization" -> HttpRequest.headers r' !! k = HttpRequest.headers r !! k) /\
  (bearer = None -> HttpRequest.headers r !! "authorization" = None) /\
  forall token, bearer = Some token -> token <> "" /\
    (HttpRequest.headers r !! "authorization" = Some ("Bearer " +:+ token) \/
     HttpRequest.headers r !! "authorization" = Some ("DPoP " +:+ token)).
Proof.
  unfold takeBearer, HttpRequest.header. change (lowercase "authorization") with "authorization".
  destruct (HttpRequest.headers r !! "authorization") as [a|] eqn:Ha; [|intros [= <- <-]; split; [done|]; naive_solver].
  destruct (authorizationToken a) as [token|] eqn:Ht; [|done]. cbv zeta. destruct (_ || _) eqn:Hg; [done|].
  bool_prop. intros [= <- <-]. split_and!.
  - apply (fewer_erase_all ["authorization"]).
  - rewrite header_erase. by rewrite decide_True.
  - intros k Hk. rewrite header_erase. by rewrite decide_False.
  - done.
  - intros token' [= <-]. split; [done|]. unfold authorizationToken in Ht.
    destruct (strip_prefix "Bearer " a) as [x|] eqn:Hx.
    + injection Ht as ->. apply strip_prefix_some in Hx as ->. by left.
    + apply strip_prefix_some in Ht as ->. by right.
Qed.

(** No item of a cookie field is the platform's cookie. *)
Definition no_session_cookie (r : HttpRequest.t) : Prop :=
  forall cookie item, HttpRequest.headers r !! "cookie" = Some cookie -> item ∈ split_on cookie ";" ->
    sessionCookieValue (trim item) = None.

Lemma takeCookie_ok r token r' :
  takeCookie r = (Ok token, r') ->
  same_line r r' /\ no_session_cookie r' /\
  (forall k, k <> "cookie" -> HttpRequest.headers r' !! k = HttpRequest.headers r !! k) /\
  forall value, token = Some value -> validCookieToken value = true /\
    exists cookie item, HttpRequest.headers r !! "cookie" = Some cookie /\ item ∈ split_on cookie ";" /\
      sessionCookieValue (trim item) = Some value.
Proof.
  unfold takeCookie, HttpRequest.header, no_session_cookie. change (lowercase "cookie") with "cookie".
  destruct (HttpRequest.headers r !! "cookie") as [cookie|] eqn:Hc.
  2:{ intros [= <- <-]. split; [done|]. rewrite Hc. naive_solver. }
  destruct (cookieLoop _ _ _) as [[retained token']|] eqn:Hl; [|done]. intros [= -> <-].
  apply cookieLoop_spec in Hl as [Hr Htok];
    [|apply Forall_forall; intros i Hi; by eapply split_on_no_delimiter|constructor].
  split; [by case_bool_decide|]. split_and!.
  - intros c item. case_bool_decide as He.
    + rewrite header_erase. by rewrite decide_True.
    + rewrite header_set, decide_True by done. intros [= <-] Hin.
      assert (Hf : Forall clean_item retained) by (eapply Forall_impl; [exact Hr|naive_solver]).
      assert (Ht : trim item ∈ retained).
      { rewrite <-(split_joined retained) by done. by apply list_elem_of_fmap_2. }
      rewrite Forall_forall in Hr. by destruct (Hr _ Ht) as (_ & _ & ?).
  - intros k Hk. case_bool_decide; [rewrite header_erase|rewrite header_set]; by rewrite decide_False.
  - intros v ->. destruct Htok as [|(item & w & Hin & [= <-] & Hs & Hv)]; [done|]. split; [done|]. by exists cookie, item.
Qed.

(** What is taken is the token of the one accepted authorization field or the
    value of the one session cookie; neither is left in the request. *)
Lemma takeSessionCredential_ok r credential r' :
  takeSessionCredential r = (Ok credential, r') ->
  same_line r r' /\ HttpRequest.headers r' !! "authorization" = None /\ no_session_cookie r' /\
  (forall k, k <> "authorization" -> k <> "cookie" -> HttpRequest.headers r' !! k = HttpRequest.headers r !! k) /\
  forall token, credential = Some token -> token <> "" /\
    (HttpRequest.headers r !! "authorization" = Some ("Bearer " +:+ token) \/
     HttpRequest.headers r !! "authorization" = Some ("DPoP " +:+ token) \/
     HttpRequest.headers r !! "authorization" = None /\
       exists cookie item, HttpRequest.headers r !! "cookie" = Some cookie /\ item ∈ split_on cookie ";" /\
         sessionCookieValue (trim item) = Some token).
Proof.
  intros (bearer & r1 & Hb & H)%prog_bind_ok. apply prog_bind_ok in H as (cookie & r2 & Hc & H).
  apply takeBearer_ok in Hb as ([Hl1 _] & Ha1 & Hs1 & Hnone & Hb). apply takeCookie_ok in Hc as (Hl2 & Hn & Hs2 & Hc).
  assert (r2 = r') as -> by (destruct bearer, cookie; injection H as _ ->; done || idtac).
  split; [by etrans|]. split; [by rewrite Hs2|]. split; [done|].
  split; [intros k Hk1 Hk2; by rewrite Hs2, Hs1|]. intros token ->.
  destruct bearer as [b|], cookie as [c|]; try done.
  - injection H as ->. destruct (Hb _ eq_refl) as [? [|]]; auto.
  - injection H as ->. destruct (Hc _ eq_refl) as [Hv (ck & item & Hk & Hin & Hi)]. split.
    + intros ->. done.
    + right. right. rewrite Hs1 in Hk by done. split; [auto|by exists ck, item].
Qed.
