(* ===== verification/Gateway.v ===== *)
(** * openproof.gateway: the policy-enforcing reverse proxy

    Models [src/src/gateway/gateway.cpp] from the router to [Gateway::handle]:
    routes, endpoints and their discovery, the weighted load balancer, the rate
    limiter, the circuit breaker, the access controller, the signed context and
    the request path that composes them with the session service. Upstream
    services, the sender-constraint verifier and the token service are foreign:
    they are a record of operations on a state of their own. *)
From S2P Require Import Prelude Foundation Encoding Json Security Provider IdentityCore Organizations Wire Authentication Session SessionService Policy Double Http.

Inductive RouteIdTag := .
Inductive ServiceIdTag := .
Inductive EndpointIdTag := .
Abbreviation RouteId := (StrongId RouteIdTag).
Abbreviation ServiceId := (StrongId ServiceIdTag).
Abbreviation EndpointId := (StrongId EndpointIdTag).

(** ** Routes *)

Definition ends_with_slash (value : string) : bool :=
  match split_last "/" value with Some (_, "") => true | _ => false end.

Definition prefixMatches (path prefix : string) : bool :=
  match strip_prefix prefix path with
  | None => false
  | Some rest =>
      bool_decide (prefix = "/") || bool_decide (rest = "") || ends_with_slash prefix || starts_with rest "/"
  end.

Module Route.
Record t := mk {
  id : RouteId;
  method : HttpMethod;
  pathPrefix : string;
  service : ServiceId;
  isProtected : bool;
  organization : OrganizationId;
  action : Action;
  resource : Resource;
  requiredScope : string;
  requiredAudience : string;
}.

Definition create (id : RouteId) (method : HttpMethod) (pathPrefix : string) (service : ServiceId)
    (protectedRoute : bool) (organization : OrganizationId) (action : Action) (resource : Resource)
    (requiredScope requiredAudience : string) : Result t :=
  if id_empty id || id_empty service || bool_decide (pathPrefix = "")
     || negb (starts_with pathPrefix "/") || starts_with pathPrefix "//"
     || contains pathPrefix "?" || contains pathPrefix "#" || hasControl pathPrefix
     || ((1 <? String.length pathPrefix)%nat && ends_with_slash pathPrefix)
     || (128 <? String.length requiredScope)%nat || hasControl requiredScope
     || (2048 <? Z.of_nat (String.length requiredAudience)) || hasControl requiredAudience then
    fail InvalidArgument "The gateway route is invalid."
  else if protectedRoute && (id_empty organization || id_empty action || id_empty resource) then
    fail InvalidArgument "A protected route requires organization, action and resource."
  else Ok (mk id method pathPrefix service protectedRoute organization action resource
             requiredScope requiredAudience).
End Route.

Module Router.
Abbreviation t := (list Route.t).

Definition add (route : Route.t) : prog t Error unit := fun m_routes =>
  if existsb (fun existing =>
       bool_decide (Route.id existing = Route.id route)
       || (bool_decide (Route.method existing = Route.method route)
           && bool_decide (Route.pathPrefix existing = Route.pathPrefix route))) m_routes then
    (fail AlreadyExists "The gateway route already exists.", m_routes)
  else (ok, m_routes ++ [route]).

(** The loop over the routes with the best one so far. *)
Fixpoint best_of (method : HttpMethod) (path : string) (m_routes : t) (best : option Route.t) : option Route.t :=
  match m_routes with
  | [] => best
  | route :: m_routes =>
      let longer :=
        match best with
        | None => true
        | Some best => (String.length (Route.pathPrefix best) <? String.length (Route.pathPrefix route))%nat
        end in
      if bool_decide (Route.method route = method) && prefixMatches path (Route.pathPrefix route) && longer then
        best_of method path m_routes (Some route)
      else best_of method path m_routes best
  end.

Definition match_ (m_routes : t) (method : HttpMethod) (path : string) : option Route.t :=
  best_of method path m_routes None.
End Router.

(** ** Endpoints *)

Module Endpoint.
Record t := mk { id : EndpointId; host : string; port : Z; tls : bool; weight : Z }.

Definition create (id : EndpointId) (host : string) (port : Z) (tls : bool) (weight : Z) : Result t :=
  if id_empty id || bool_decide (host = "") || (253 <? String.length host)%nat || (port =? 0)
     || (weight =? 0) || (1000 <? weight) || invalidTargetCharacter host
     || contains host "/" || contains host "@" then
    fail InvalidArgument "The upstream endpoint is invalid."
  else Ok (mk id host port tls weight).
End Endpoint.

Module StaticServiceDiscovery.
Abbreviation t := (gmap ServiceId (list Endpoint.t)).

(** The loop that collects the identifiers; [false] at the first duplicate. *)
Fixpoint distinct (endpoints : list Endpoint.t) (ids : list EndpointId) : bool :=
  match endpoints with
  | [] => true
  | endpoint :: endpoints =>
      if bool_decide (Endpoint.id endpoint ∈ ids) then false
      else distinct endpoints (ids ++ [Endpoint.id endpoint])
  end.

Definition set (service : ServiceId) (endpoints : list Endpoint.t) : prog t Error unit := fun m_services =>
  if id_empty service || bool_decide (endpoints = []) then
    (fail InvalidArgument "A discovered service requires endpoints.", m_services)
  else if negb (distinct endpoints []) then
    (fail InvalidArgument "A discovered service contains duplicate endpoints.", m_services)
  else (ok, <[service := endpoints]> m_services).

Definition resolve (service : ServiceId) (m_services : t) : Result (list Endpoint.t) :=
  match m_services !! service with
  | None => fail Unavailable "The upstream service is unavailable."
  | Some endpoints => Ok endpoints
  end.
End StaticServiceDiscovery.

Module WeightedRoundRobin.
Abbreviation t := (gmap ServiceId Z).

(** The weights of the endpoints that are not excluded, in 64 bits. *)
Definition totalWeight (endpoints : list Endpoint.t) (excluded : list EndpointId) : Z :=
  foldl (fun total endpoint =>
    if bool_decide (Endpoint.id endpoint ∈ excluded) then total
    else u64 (total + Endpoint.weight endpoint)) 0 endpoints.

(** The loop that advances the cursor until it passes the slot. *)
Fixpoint pick (endpoints : list Endpoint.t) (excluded : list EndpointId) (slot cursor : Z) : option Endpoint.t :=
  match endpoints with
  | [] => None
  | endpoint :: endpoints =>
      if bool_decide (Endpoint.id endpoint ∈ excluded) then pick endpoints excluded slot cursor
      else
        let cursor := u64 (cursor + Endpoint.weight endpoint) in
        if slot <? cursor then Some endpoint else pick endpoints excluded slot cursor
  end.

Definition choose (service : ServiceId) (endpoints : list Endpoint.t) (excluded : list EndpointId)
    : prog t Error Endpoint.t := fun m_sequences =>
  let total := totalWeight endpoints excluded in
  if total =? 0 then (fail Unavailable "No upstream endpoint is available.", m_sequences)
  else
    let sequence := default 0 (m_sequences !! service) in
    let m_sequences := <[service := u64 (sequence + 1)]> m_sequences in
    match pick endpoints excluded (sequence mod total) 0 with
    | Some endpoint => (Ok endpoint, m_sequences)
    | None => (fail Internal "The load balancer could not select an endpoint.", m_sequences)
    end.
End WeightedRoundRobin.

(** ** Rate limiting *)

Module TokenBucketRateLimiter.
Record Bucket := mkBucket { tokens : double; updatedAt : Instant }.

Record t := mk {
  m_capacity : double;
  m_refillPerSecond : double;
  m_maximumKeys : nat;
  m_buckets : gmap string Bucket;
  m_overflowBucket : Bucket;
  m_overflowInitialized : bool;
}.

Definition create (capacity refillPerSecond : double) (maximumKeys : nat) : Result t :=
  if negb (isfinite capacity) || negb (isfinite refillPerSecond) || dltb capacity (of_int 1)
     || dleb refillPerSecond dzero || (maximumKeys =? 0)%nat then
    fail InvalidArgument "The rate-limit policy is invalid."
  else Ok (mk capacity refillPerSecond maximumKeys ∅ (mkBucket dzero 0) false).

(** What time since the last call adds to a bucket. *)
Definition refill (m : t) (bucket : Bucket) (now : Instant) : Bucket :=
  let elapsed := now - updatedAt bucket in
  if 0 <? elapsed then
    let seconds := ddiv (of_int elapsed) (of_int 1000) in
    mkBucket (dmin (m_capacity m) (dadd (tokens bucket) (dmul seconds (m_refillPerSecond m)))) now
  else bucket.

Definition spend (bucket : Bucket) (cost : double) : bool * Bucket :=
  if dltb (tokens bucket) cost then (false, bucket)
  else (true, mkBucket (dsub (tokens bucket) cost) (updatedAt bucket)).

Definition set_bucket (key : string) (bucket : Bucket) (m : t) : t :=
  mk (m_capacity m) (m_refillPerSecond m) (m_maximumKeys m) (<[key := bucket]> (m_buckets m))
     (m_overflowBucket m) (m_overflowInitialized m).
Definition set_overflow (bucket : Bucket) (m : t) : t :=
  mk (m_capacity m) (m_refillPerSecond m) (m_maximumKeys m) (m_buckets m) bucket true.

(** [allow] once the clock has been read. *)
Definition allowAt (key : string) (cost : double) (now : Instant) (m : t) : bool * t :=
  match m_buckets m !! key with
  | Some bucket =>
      let '(allowed, bucket) := spend (refill m bucket now) cost in (allowed, set_bucket key bucket m)
  | None =>
      if (m_maximumKeys m <=? base.size (m_buckets m))%nat then
        let bucket := if m_overflowInitialized m then m_overflowBucket m else mkBucket (m_capacity m) now in
        let '(allowed, bucket) := spend (refill m bucket now) cost in (allowed, set_overflow bucket m)
      else
        let '(allowed, bucket) := spend (refill m (mkBucket (m_capacity m) now) now) cost in
        (allowed, set_bucket key bucket m)
  end.

(** The calls [allow] refuses before it reads the clock. *)
Definition senseless (key : string) (cost : double) (m : t) : bool :=
  bool_decide (key = "") || negb (isfinite cost) || dleb cost dzero || dltb (m_capacity m) cost.

Definition allow `{Platform} (key : string) (cost : double) : prog (with_world t world) Error bool := fun s =>
  if senseless key cost (v_store s) then (Ok false, s)
  else
    let '(now, w) := clock_now (v_world s) in
    let '(allowed, m) := allowAt key cost now (v_store s) in
    (Ok allowed, mkWith m w).
End TokenBucketRateLimiter.

(** ** Circuit breaking *)

Module CircuitState.
Inductive t := Closed | Open | HalfOpen.
#[global] Instance t_eq_dec : EqDecision t.
Proof. solve_decision. Defined.
End CircuitState.

Module CircuitBreaker.
Record Entry := mkEntry {
  state : CircuitState.t;
  failures : Z;
  openedAt : Instant;
  probeInFlight : bool;
}.

(** [Entry{}]. *)
Definition initial : Entry := mkEntry CircuitState.Closed 0 0 false.

Record policy := mkPolicy { m_failureThreshold : Z; m_openDuration : Duration }.

Definition create (failureThreshold : Z) (openDuration : Duration) : Result policy :=
  if (failureThreshold =? 0) || (openDuration <=? 0) then
    fail InvalidArgument "The circuit-breaker policy is invalid."
  else Ok (mkPolicy failureThreshold openDuration).

Abbreviation t := (gmap EndpointId Entry).

Section operations.
Context `{Plat : Platform} (p : policy).

(** [m_entries[endpoint]]. *)
Definition entry (endpoint : EndpointId) (m_entries : t) : Entry := default initial (m_entries !! endpoint).

(** The half-open circuit admits one probe. *)
Definition probe (e : Entry) : bool * Entry :=
  if probeInFlight e then (false, e)
  else (true, mkEntry (state e) (failures e) (openedAt e) true).

Definition allow (endpoint : EndpointId) : prog (with_world t world) Error bool := fun s =>
  let e := entry endpoint (v_store s) in
  match state e with
  | CircuitState.Closed => (Ok true, mkWith (<[endpoint := e]> (v_store s)) (v_world s))
  | CircuitState.Open =>
      let '(now, w) := clock_now (v_world s) in
      if now - openedAt e <? m_openDuration p then (Ok false, mkWith (<[endpoint := e]> (v_store s)) w)
      else
        let '(admitted, e) := probe (mkEntry CircuitState.HalfOpen (failures e) (openedAt e) false) in
        (Ok admitted, mkWith (<[endpoint := e]> (v_store s)) w)
  | CircuitState.HalfOpen =>
      let '(admitted, e) := probe e in
      (Ok admitted, mkWith (<[endpoint := e]> (v_store s)) (v_world s))
  end.

Definition recordSuccess (endpoint : EndpointId) : prog (with_world t world) Error unit := fun s =>
  (ok, mkWith (<[endpoint := initial]> (v_store s)) (v_world s)).

(** [unsigned int] counts the failures; a failing probe is not counted. *)
Definition recordFailure (endpoint : EndpointId) : prog (with_world t world) Error unit := fun s =>
  let e := entry endpoint (v_store s) in
  let failures' :=
    if bool_decide (state e = CircuitState.HalfOpen) then failures e else u32 (failures e + 1) in
  if bool_decide (state e = CircuitState.HalfOpen) || (m_failureThreshold p <=? failures') then
    let '(now, w) := clock_now (v_world s) in
    (ok, mkWith (<[endpoint := mkEntry CircuitState.Open failures' now false]> (v_store s)) w)
  else (ok, mkWith (<[endpoint := mkEntry (state e) failures' (openedAt e) false]> (v_store s)) (v_world s)).

Definition state_of (endpoint : EndpointId) (m_entries : t) : CircuitState.t :=
  match m_entries !! endpoint with None => CircuitState.Closed | Some e => state e end.
End operations.
End CircuitBreaker.

(** ** Access control *)

Module PolicyAccessController.
Section authorize.
Context {O I M K W : Type} `{!OrganizationRepository O, !IdentityRepository I, !MembershipRepository M}.
Context (m_policies : option PolicyEngine) (m_organizations : O) (m_identities : I) (m_memberships : M).
(** The virtual [record] of the audit sink, when one is installed. *)
Context (m_decisionSink : option (AuthenticatedSession.t -> OrganizationId -> Action -> Resource ->
  AuthorizationDecision.t -> CorrelationId -> K * W -> Status * (K * W))).

(** [decision], once the sink has recorded it; [failed] when it cannot. *)
Definition recorded (authenticatedSession : AuthenticatedSession.t) (route : Route.t) (correlation : CorrelationId)
    (decision : AuthorizationDecision.t) (failed : string) : prog (K * W) Error AuthorizationDecision.t := fun u =>
  match m_decisionSink with
  | None => (Ok decision, u)
  | Some record =>
      match record authenticatedSession (Route.organization route) (Route.action route) (Route.resource route)
              decision correlation u with
      | (Ok _, u) => (Ok decision, u)
      | (Err _, u) => (Ok (AuthorizationDecision.indeterminate failed), u)
      | (Aborted, u) => (Aborted, u)
      end
  end.

Definition authorize (authenticatedSession : AuthenticatedSession.t) (route : Route.t) (correlation : CorrelationId)
    : prog (K * W) Error AuthorizationDecision.t :=
  match AuthorizationRequest.createFromSession authenticatedSession (Route.organization route) m_organizations
          m_identities m_memberships (Route.action route) (Route.resource route) with
  | Ok request =>
      let decision := evaluateProtected m_policies request in
      if AuthorizationDecision.isPermitted decision then mret decision
      else recorded authenticatedSession route correlation decision
             "Authorization was denied and its security audit could not be persisted."
  | Err e =>
      recorded authenticatedSession route correlation
        (AuthorizationDecision.indeterminate
           ("Trusted authorization context failed: " +:+ error_internalDetail e))
        "Authorization failed and its security audit could not be persisted."
  | Aborted => fun u => (Aborted, u)
  end.
End authorize.
End PolicyAccessController.

(** ** The signed context *)

Module TrustedContextKey.
Record t := mk { secret : string }.

Definition create (key : string) : Result t :=
  if (String.length key <? 32)%nat then
    fail InvalidArgument "A trusted-context key must contain at least 32 bytes."
  else Ok (mk key).
End TrustedContextKey.

Definition signedHeaders : list string :=
  ["x-openproof-request-id"; "x-openproof-identity"; "x-openproof-organization"; "x-openproof-provider";
   "x-openproof-assurance"; "x-openproof-client-id"; "x-openproof-scopes"; "x-openproof-context-issued-at"].

Definition trustedContextPayload (request : HttpRequest.t) : string :=
  concat_parts
    (httpMethodName (HttpRequest.method request) :: HttpRequest.target request
     :: ((fun name => default "" (HttpRequest.header request name)) <$> signedHeaders)).

Module TrustedContextSigner.
Record t := mk { m_key : TrustedContextKey.t; m_maximumAge : Duration }.

Definition create (key : TrustedContextKey.t) (maximumAge : Duration) : Result t :=
  if (maximumAge <=? 0) || (minutes 5 <? maximumAge) then
    fail InvalidArgument "The trusted-context freshness window is invalid."
  else Ok (mk key maximumAge).

Section operations.
Context `{Plat : Platform} (signer : t).

(** The request with its context sealed; a failure leaves the caller without one. *)
Definition seal (request : HttpRequest.t) : prog world Error HttpRequest.t :=
  now ← now;
  let request := HttpRequest.setHeader "x-openproof-context-issued-at" (to_string now) request in
  digest ← lift (hmacSha256 (TrustedContextKey.secret (m_key signer)) (trustedContextPayload request));
  mret (HttpRequest.setHeader "x-openproof-context-signature" (toHex digest) request).

Definition invalidContext {A} : Result A :=
  fail AuthenticationFailed "The trusted gateway context is invalid.".

Definition verify (request : HttpRequest.t) : prog world Error unit :=
  match HttpRequest.header request "x-openproof-context-issued-at",
        HttpRequest.header request "x-openproof-context-signature" with
  | Some issuedHeader, Some signature =>
      if negb (String.length signature =? 64)%nat then lift invalidContext
      else
        match from_chars_int64 issuedHeader with
        | None => lift invalidContext
        | Some issued =>
            now ← now;
            if (now + m_maximumAge signer <? issued) || (issued + m_maximumAge signer <? now) then
              throw (Error_ofMessage AuthenticationFailed "The trusted gateway context is stale.")
            else
              match hmacSha256 (TrustedContextKey.secret (m_key signer)) (trustedContextPayload request),
                    fromHex signature with
              | Ok expected, Ok supplied =>
                  if negb (length supplied =? length expected)%nat || negb (constantTimeEquals expected supplied)
                  then lift invalidContext
                  else mret tt
              | _, _ => lift invalidContext
              end
        end
  | _, _ => lift invalidContext
  end.
End operations.
End TrustedContextSigner.

(** ** The gateway *)

(** The state behind the references of a gateway: the sessions with the token
    service and the platform, the limiter, the balancer's sequence numbers, the
    circuits, and whatever is behind the foreign interfaces. *)
Record gateway (S X U W : Type) := mkGateway {
  g_service : service S X W;
  g_limiter : TokenBucketRateLimiter.t;
  g_balancer : WeightedRoundRobin.t;
  g_circuits : CircuitBreaker.t;
  g_outside : U;
}.
Arguments mkGateway {S X U W}.
Arguments g_service {S X U W}.
Arguments g_limiter {S X U W}.
Arguments g_balancer {S X U W}.
Arguments g_circuits {S X U W}.
Arguments g_outside {S X U W}.

(** The foreign interfaces: [AccessController], [ServiceDiscovery] and
    [ProxyTransport] are always present, [DelegatedAccessAuthenticator] and
    [SenderConstraintVerifier] may be null. The verifier is handed the request
    by reference and may change it. *)
Record interfaces (X U W : Type) := mkInterfaces {
  authorize : AuthenticatedSession.t -> Route.t -> CorrelationId -> prog (U * W) Error AuthorizationDecision.t;
  resolve : ServiceId -> prog (U * W) Error (list Endpoint.t);
  send : Endpoint.t -> HttpRequest.t -> Duration -> prog (U * W) Error HttpResponse.t;
  authenticateDelegated : option (string -> prog (X * W) Error DelegatedAccess.t);
  verifySender : option (DelegatedSenderConstraint.t -> string -> bool ->
                         prog (HttpRequest.t * (U * W)) Error unit);
}.
Arguments mkInterfaces {X U W}.
Arguments authorize {X U W}.
Arguments resolve {X U W}.
Arguments send {X U W}.
Arguments authenticateDelegated {X U W}.
Arguments verifySender {X U W}.

Module Gateway.
Section gateway.
Context `{Plat : Platform} {S X U : Type} `{!SessionRepository S}.

(** What a gateway is constructed with. *)
Record t := mk {
  m_router : Router.t;
  m_sessionKey : SessionKey.t;
  m_circuits : CircuitBreaker.policy;
  m_contextSigner : TrustedContextSigner.t;
  m_upstreamTimeout : Duration;
  m_interfaces : interfaces X U world;
}.

Abbreviation state := (gateway S X U world).
Abbreviation handler A := (prog state Error A).

Definition set_world (w : world) (s : state) : state :=
  mkGateway (mkService (s_sessions (g_service s)) (s_delegated (g_service s)) w) (g_limiter s) (g_balancer s)
    (g_circuits s) (g_outside s).

Definition on_service {A} (m : prog (service S X world) Error A) : handler A :=
  zoom g_service (fun x s => mkGateway x (g_limiter s) (g_balancer s) (g_circuits s) (g_outside s)) m.
Definition on_limiter {A} (m : prog (with_world TokenBucketRateLimiter.t world) Error A) : handler A :=
  zoom (fun s => mkWith (g_limiter s) (s_world (g_service s)))
    (fun x s => let s := set_world (v_world x) s in
                mkGateway (g_service s) (v_store x) (g_balancer s) (g_circuits s) (g_outside s)) m.
Definition on_balancer {A} (m : prog WeightedRoundRobin.t Error A) : handler A :=
  zoom g_balancer (fun x s => mkGateway (g_service s) (g_limiter s) x (g_circuits s) (g_outside s)) m.
Definition on_circuits {A} (m : prog (with_world CircuitBreaker.t world) Error A) : handler A :=
  zoom (fun s => mkWith (g_circuits s) (s_world (g_service s)))
    (fun x s => let s := set_world (v_world x) s in
                mkGateway (g_service s) (g_limiter s) (g_balancer s) (v_store x) (g_outside s)) m.
Definition on_outside {A} (m : prog (U * world) Error A) : handler A :=
  zoom (fun s => (g_outside s, s_world (g_service s)))
    (fun x s => let s := set_world x.2 s in
                mkGateway (g_service s) (g_limiter s) (g_balancer s) (g_circuits s) x.1) m.
Definition on_world {A} (m : prog world Error A) : handler A :=
  zoom (fun s => s_world (g_service s)) set_world m.

Definition errorResponse (error : Error) (request : HttpRequest.t) : Result HttpResponse.t :=
  json ← toClientJson error (id_value (HttpRequest.correlation request));
  Ok (secureResponse
        (HttpResponse.create (errorHttpStatus (error_code error)) {[ "content-type" := "application/json" ]} json)).

(** The early returns of [handle] all answer [errorResponse(error, request)]:
    here they throw the error, and [handle] renders it. *)
Definition refuse {A} (code : ErrorCode) : handler A := throw (Error_ofCode code).

Section handle.
Context (g : t).
Abbreviation outside := (m_interfaces g).

(** A first-party session, or delegated access when a token service is there. *)
Definition authenticateCaller (credential : string) : handler (AuthenticatedSession.t * option DelegatedAccess.t) :=
  authenticated ← attempt (on_service (SessionService.authenticate (m_sessionKey g) credential));
  match authenticated, authenticateDelegated outside with
  | Ok authenticated, _ => mret (authenticated, None)
  | Err e, None => throw e
  | Err _, Some delegated =>
      access ← on_service (SessionService.on_delegated (delegated credential));
      mret (DelegatedAccess.authenticated access, Some access)
  | Aborted, _ => fun s => (Aborted, s)
  end.

(** The proof of possession a sender-constrained token requires. *)
Definition verifyPossession (delegated : option DelegatedAccess.t) (credential : string)
    (dpopAuthorizationScheme : bool) (request : HttpRequest.t) : handler HttpRequest.t :=
  match delegated with
  | Some access =>
      match DelegatedAccess.senderConstraint access with
      | Some constraint =>
          match verifySender outside with
          | None => refuse AuthenticationFailed
          | Some verify =>
              on_outside (fun u =>
                match verify constraint credential dpopAuthorizationScheme (request, u) with
                | (Ok _, (request, u)) => (Ok request, u)
                | (Err e, (_, u)) => (Err e, u)
                | (Aborted, (_, u)) => (Aborted, u)
                end)
          end
      | None => if dpopAuthorizationScheme then refuse AuthenticationFailed else mret request
      end
  | None => if dpopAuthorizationScheme then refuse AuthenticationFailed else mret request
  end.

(** [!required.empty() && (!delegated.has_value() || !delegated->permits(required))]. *)
Definition lacks (permits : DelegatedAccess.t -> string -> bool) (delegated : option DelegatedAccess.t)
    (required : string) : bool :=
  negb (bool_decide (required = ""))
  && match delegated with Some access => negb (permits access required) | None => true end.

(** The scopes of delegated access, separated by blanks. *)
Fixpoint join_scopes (scopes : list string) (joined : string) : string :=
  match scopes with
  | [] => joined
  | scope :: scopes =>
      join_scopes scopes ((if bool_decide (joined = "") then joined else joined +:+ " ") +:+ scope)
  end.

(** The context headers of a protected request. *)
Definition identify (session : Session.t) (delegated : option DelegatedAccess.t) (route : Route.t)
    (request : HttpRequest.t) : HttpRequest.t :=
  let request := HttpRequest.setHeader "x-openproof-identity" (id_value (Session.identity session)) request in
  let request := HttpRequest.setHeader "x-openproof-provider" (id_value (Session.provider session)) request in
  let request := HttpRequest.setHeader "x-openproof-assurance" (assuranceLevelName (Session.assurance session)) request in
  let request := HttpRequest.setHeader "x-openproof-organization" (id_value (Route.organization route)) request in
  match delegated with
  | None => request
  | Some access =>
      HttpRequest.setHeader "x-openproof-scopes" (join_scopes (DelegatedAccess.scopes access) "")
        (HttpRequest.setHeader "x-openproof-client-id" (DelegatedAccess.clientId access) request)
  end.

(** [takeSessionCredential], and the refusal of a request without credential. *)
Definition demandCredential (request : HttpRequest.t) : handler (string * HttpRequest.t) := fun s =>
  match takeSessionCredential request with
  | (Ok (Some credential), request) => (Ok (credential, request), s)
  | (Ok None, _) => (Err (Error_ofCode AuthenticationRequired), s)
  | (Err e, _) => (Err e, s)
  | (Aborted, _) => (Aborted, s)
  end.

(** The part of [handle] that a protected route adds. *)
Definition admitCaller (route : Route.t) (request : HttpRequest.t) : handler HttpRequest.t :=
  let dpopAuthorizationScheme :=
    match HttpRequest.header request "authorization" with
    | Some authorization => starts_with authorization "DPoP "
    | None => false
    end in
  '(credential, request) ← demandCredential request;
  '(accepted, delegated) ← authenticateCaller credential;
  request ← verifyPossession delegated credential dpopAuthorizationScheme request;
  if lacks DelegatedAccess.permits delegated (Route.requiredScope route)
     || lacks DelegatedAccess.permitsAudience delegated (Route.requiredAudience route) then
    refuse PermissionDenied
  else
    let session := AuthenticatedSession.session accepted in
    allowed ← on_limiter (TokenBucketRateLimiter.allow ("identity:" +:+ id_value (Session.identity session)) (of_int 1));
    if negb allowed then refuse RateLimited
    else
      decision ← on_outside (authorize outside accepted route (HttpRequest.correlation request));
      if negb (AuthorizationDecision.isPermitted decision) then refuse PermissionDenied
      else mret (identify session delegated route request).

(** The loop over the attempts. The fuel bounds its iterations: each one adds
    an endpoint to [excluded], and the loop ends when as many are excluded as
    there are endpoints. *)
Fixpoint forwardLoop (fuel : nat) (route : Route.t) (request : HttpRequest.t) (endpoints : list Endpoint.t)
    (attempts : nat) (excluded : list EndpointId) (sentAttempts : nat) (lastFailure : Error)
    : handler HttpResponse.t :=
  let exhausted :=
    if bool_decide (error_code lastFailure = Timeout) then throw lastFailure else refuse Unavailable in
  match fuel with
  | O => exhausted
  | Datatypes.S fuel =>
      if negb ((sentAttempts <? attempts)%nat && (length excluded <? length endpoints)%nat) then exhausted
      else
        chosen ← attempt (on_balancer (WeightedRoundRobin.choose (Route.service route) endpoints excluded));
        match chosen with
        | Ok endpoint =>
            let excluded := excluded ++ [Endpoint.id endpoint] in
            allowed ← on_circuits (CircuitBreaker.allow (m_circuits g) (Endpoint.id endpoint));
            if negb allowed then
              forwardLoop fuel route request endpoints attempts excluded sentAttempts lastFailure
            else
              response ← attempt (on_outside (send outside endpoint request (m_upstreamTimeout g)));
              match response with
              | Ok response =>
                  let status := HttpResponse.status response in
                  if (status <? 100) || (599 <? status) then
                    _ ← on_circuits (CircuitBreaker.recordFailure (m_circuits g) (Endpoint.id endpoint));
                    refuse Unavailable
                  else
                    _ ← on_circuits
                          (if 500 <=? status then CircuitBreaker.recordFailure (m_circuits g) (Endpoint.id endpoint)
                           else CircuitBreaker.recordSuccess (Endpoint.id endpoint));
                    mret (secureResponse response)
              | Err e =>
                  _ ← on_circuits (CircuitBreaker.recordFailure (m_circuits g) (Endpoint.id endpoint));
                  forwardLoop fuel route request endpoints attempts excluded (Datatypes.S sentAttempts) e
              | Aborted => fun s => (Aborted, s)
              end
        | _ => exhausted
        end
  end.

Definition attemptsFor (method : HttpMethod) (endpoints : list Endpoint.t) : nat :=
  if retryable method then Nat.min 2 (length endpoints) else 1.

(** The part of [handle] after the request is admitted. *)
Definition forward (route : Route.t) (request : HttpRequest.t) : handler HttpResponse.t :=
  let request :=
    HttpRequest.setHeader "x-openproof-request-id" (id_value (HttpRequest.correlation request)) request in
  request ← on_world (TrustedContextSigner.seal (m_contextSigner g) request);
  endpoints ← on_outside (resolve outside (Route.service route));
  forwardLoop (length endpoints) route request endpoints (attemptsFor (HttpRequest.method request) endpoints) [] 0
    (Error_ofCode Unavailable).

Definition serve (request : HttpRequest.t) : handler HttpResponse.t :=
  match Router.match_ (m_router g) (HttpRequest.method request) (HttpRequest.path request) with
  | None => refuse NotFound
  | Some route =>
      allowed ← on_limiter (TokenBucketRateLimiter.allow (HttpRequest.remoteAddress request) (of_int 1));
      if negb allowed then refuse RateLimited
      else
        let request := stripHopByHop (stripTrustedIdentityHeaders request) in
        request ← (if Route.isProtected route then admitCaller route request else mret request);
        forward route request
  end.

Definition handle (request : HttpRequest.t) : handler HttpResponse.t := fun s =>
  match serve request s with
  | (Err e, s) => (errorResponse e request, s)
  | outcome => outcome
  end.
End handle.
End gateway.
End Gateway.
