(* ===== verification/Routing.v ===== *)
(** * openproof.gateway: routing and load balancing

    The router sends a request along the one most specific route, and the
    weighted load balancer chooses endpoints in exact proportion to their
    weights. *)
From S2P Require Import Prelude Foundation Encoding Security Wire Http Gateway.

(** ** Routing *)

Section routing.
Implicit Types (routes : list Route.t) (route : Route.t).

(** What a route must satisfy to serve a request. *)
Definition serves (method : HttpMethod) (path : string) route : bool :=
  bool_decide (Route.method route = method) && prefixMatches path (Route.pathPrefix route).

Definition prefix_length route : nat := String.length (Route.pathPrefix route).

Lemma best_of_spec method path routes best r :
  Router.best_of method path routes best = Some r ->
  (best = Some r \/ (r ∈ routes /\ serves method path r = true)) /\
  (forall b, best = Some b -> (prefix_length b <= prefix_length r)%nat) /\
  (forall x, x ∈ routes -> serves method path x = true -> (prefix_length x <= prefix_length r)%nat).
Proof.
  revert best. induction routes as [|x routes IH]; intros best; cbn [Router.best_of].
  { intros ->. split_and!; [by left|by intros b [= ->]|]. by intros x ?%not_elem_of_nil. }
  fold (serves method path x). fold (prefix_length x). destruct (serves method path x) eqn:Hx; cbn [andb].
  - destruct (match best with None => true | Some b => _ end) eqn:Hlonger; intros H; apply IH in H as (Hr & Hb & Hm).
    + specialize (Hb _ eq_refl). split_and!.
      * destruct Hr as [[= ->]|[? ?]]; right; (split; [|done]); [by left|by right].
      * intros b ->. apply Nat.ltb_lt in Hlonger. unfold prefix_length in *. lia.
      * intros y [->|Hy]%elem_of_cons Hs; [done|auto].
    + destruct best as [b|]; [|done]. apply Nat.ltb_ge in Hlonger. pose proof (Hb _ eq_refl). split_and!.
      * destruct Hr as [|[? ?]]; [by left|right]. split; [by right|done].
      * done.
      * intros y [->|Hy]%elem_of_cons Hs; [unfold prefix_length in *; lia|auto].
  - intros H. apply IH in H as (Hr & Hb & Hm). split_and!; [|done|].
    + destruct Hr as [|[? ?]]; [by left|right]. split; [by right|done].
    + intros y [->|Hy]%elem_of_cons Hs; [congruence|auto].
Qed.

Lemma best_of_none method path routes best :
  Router.best_of method path routes best = None ->
  best = None /\ forall x, x ∈ routes -> serves method path x = false.
Proof.
  revert best. induction routes as [|x routes IH]; intros best; cbn [Router.best_of].
  { intros ->. split; [done|]. by intros x ?%not_elem_of_nil. }
  fold (serves method path x). destruct (serves method path x) eqn:Hx; cbn [andb].
  - case_match eqn:Hlonger; intros H; apply IH in H as [Hb Hn]; [done|]. by destruct best.
  - intros H. apply IH in H as [Hb Hn]. split; [done|]. intros y [->|Hy]%elem_of_cons; auto.
Qed.

(** Two routes of one router differ in identifier and in what they serve. *)
Definition distinct_routes routes : Prop :=
  NoDup (Route.id <$> routes) /\ NoDup ((fun r => (Route.method r, Route.pathPrefix r)) <$> routes).

Lemma router_add_distinct route routes : distinct_routes routes -> distinct_routes (Router.add route routes).2.
Proof.
  intros [Hid Hkey]. unfold Router.add. destruct (existsb _ routes) eqn:He; [done|]. cbn [snd].
  assert (Hno : forall x, x ∈ routes -> Route.id x <> Route.id route /\
                  (Route.method x, Route.pathPrefix x) <> (Route.method route, Route.pathPrefix route)).
  { intros x Hx. apply not_true_iff_false in He.
    split; intros E; apply He, existsb_exists; exists x; (split; [by apply list_elem_of_In|]).
    - rewrite E. by rewrite bool_decide_eq_true_2.
    - injection E as E1 E2. by rewrite (bool_decide_eq_true_2 _ E1), (bool_decide_eq_true_2 _ E2), orb_true_r. }
  unfold distinct_routes. rewrite !fmap_app. split; apply NoDup_app; (split; [done|]); (split; [|apply NoDup_singleton]);
    intros k (x & -> & Hx)%list_elem_of_fmap Hk%list_elem_of_singleton; by destruct (Hno _ Hx).
Qed.

(** The router after any sequence of additions. *)
Definition routed (added : list Route.t) : Router.t := foldl (fun routes r => (Router.add r routes).2) [] added.

Lemma routed_distinct added : distinct_routes (routed added).
Proof.
  unfold routed. induction added as [|r added IH] using rev_ind; [split; constructor|].
  rewrite foldl_snoc. by apply router_add_distinct.
Qed.

(** Two prefixes of one path that have one length are one prefix. *)
Lemma serves_same_length method path r r' :
  serves method path r = true -> serves method path r' = true -> prefix_length r = prefix_length r' ->
  (Route.method r, Route.pathPrefix r) = (Route.method r', Route.pathPrefix r').
Proof.
  unfold serves, prefixMatches, prefix_length. rewrite !andb_true_iff, !bool_decide_eq_true.
  intros [-> H] [-> H'] Hl. destruct (strip_prefix (Route.pathPrefix r) path) as [x|] eqn:Hx; [|done].
  destruct (strip_prefix (Route.pathPrefix r') path) as [x'|] eqn:Hx'; [|done].
  apply strip_prefix_some in Hx, Hx'. rewrite Hx in Hx'. apply sapp_inj_length in Hx' as [-> _]; done.
Qed.

(** Routing picks the one most specific route. However the routes were
    added, a request is routed to a route exactly when the route has its
    method, its prefix ends at a segment boundary of the path, and every other
    route that serves the request has a shorter prefix; it is routed nowhere
    exactly when no route serves it. So the answer does not depend on the
    order in which the routes were added. *)
Theorem routing_is_most_specific added method path :
  let routes := routed added in
  (forall route, Router.match_ routes method path = Some route <->
     route ∈ routes /\ serves method path route = true /\
     forall other, other ∈ routes -> serves method path other = true -> other <> route ->
       (prefix_length other < prefix_length route)%nat) /\
  (Router.match_ routes method path = None <-> forall route, route ∈ routes -> serves method path route = false).
Proof.
  cbv zeta. pose proof (routed_distinct added) as [_ Hkeys]. set (routes := routed added) in *.
  assert (Hlt : forall r other, r ∈ routes -> serves method path r = true -> other ∈ routes ->
            serves method path other = true -> prefix_length other = prefix_length r -> other = r).
  { intros r other Hr Hs Ho Hso Hl.
    apply list_elem_of_lookup in Hr as [i Hi], Ho as [j Hj].
    pose proof (serves_same_length _ _ _ _ Hso Hs Hl) as E.
    assert (i = j) as ->; [|congruence]. eapply (NoDup_lookup _ _ _ _ Hkeys); rewrite list_lookup_fmap; [by rewrite Hi|].
    rewrite Hj. simpl. by rewrite E. }
  unfold Router.match_. destruct (Router.best_of method path routes None) as [b|] eqn:Hb.
  - apply best_of_spec in Hb as ([|[Hin Hs]] & _ & Hmax); [done|]. split.
    + intros route. split.
      * intros [= ->]. split_and!; [done|done|]. intros other Ho Hso Hne.
        pose proof (Hmax _ Ho Hso). apply Nat.le_neq. split; [done|]. intros E. by apply Hne, Hlt.
      * intros (Hr & Hsr & Hall). pose proof (Hmax _ Hr Hsr) as Hle.
        destruct (decide (prefix_length b = prefix_length route)) as [E|Hne]; [by rewrite (Hlt route b)|].
        enough (prefix_length b < prefix_length route)%nat by lia. apply Hall; [done|done|congruence].
    + split; [done|]. intros Hn. by rewrite Hn in Hs.
  - apply best_of_none in Hb as [_ Hn]. split; [|done]. intros route. split; [done|]. intros (Hr & Hs & _).
    by rewrite Hn in Hs.
Qed.
End routing.

(** ** Load balancing *)

Section balancing.
Implicit Types (endpoints : list Endpoint.t) (excluded : list EndpointId).
Import WeightedRoundRobin(totalWeight, pick, choose).

Definition eligible excluded (e : Endpoint.t) : Prop := Endpoint.id e ∉ excluded.
#[global] Instance eligible_dec excluded e : Decision (eligible excluded e).
Proof. unfold eligible. apply _. Defined.

Lemma eligible_cons excluded e l :
  filter (eligible excluded) (e :: l)
  = if bool_decide (Endpoint.id e ∈ excluded) then filter (eligible excluded) l
    else e :: filter (eligible excluded) l.
Proof. rewrite filter_cons. case_decide as Hd; unfold eligible in Hd; by case_bool_decide. Qed.

Definition weights (l : list Endpoint.t) : Z := foldr (fun e total => Endpoint.weight e + total) 0 l.

(** Weights are positive, and together fit in 64 bits. *)
Definition sound_weights endpoints : Prop :=
  Forall (fun e => 0 < Endpoint.weight e) endpoints /\ weights endpoints < 2 ^ 64.

Lemma weights_nonneg l : Forall (fun e => 0 < Endpoint.weight e) l -> 0 <= weights l.
Proof. induction 1; simpl; lia. Qed.

Lemma weights_filter_le excluded l :
  Forall (fun e => 0 < Endpoint.weight e) l -> 0 <= weights (filter (eligible excluded) l) <= weights l.
Proof. induction 1 as [|e l He Hl IH]; [done|]. rewrite filter_cons. case_decide; simpl; lia. Qed.

Lemma totalWeight_value endpoints excluded :
  sound_weights endpoints -> totalWeight endpoints excluded = weights (filter (eligible excluded) endpoints).
Proof.
  intros [Hpos Hsum]. unfold totalWeight.
  assert (H : forall acc, 0 <= acc -> acc + weights endpoints < 2 ^ 64 ->
    foldl (fun total e => if bool_decide (Endpoint.id e ∈ excluded) then total else u64 (total + Endpoint.weight e))
      acc endpoints = acc + weights (filter (eligible excluded) endpoints)).
  { clear Hsum. induction Hpos as [|e l He Hl IH]; intros acc H0 Hlt; cbn [foldl]; [simpl; lia|].
    cbn [weights foldr] in Hlt. change (foldr _ 0 l) with (weights l) in Hlt. pose proof (weights_nonneg l Hl).
    rewrite eligible_cons. case_bool_decide.
    - apply IH; lia.
    - rewrite u64_small by lia. rewrite IH by lia.
      cbn [weights foldr]. change (foldr _ 0 ?x) with (weights x). lia. }
  rewrite H by lia. lia.
Qed.

(** The endpoint whose share of the cycle holds a slot. *)
Fixpoint share (l : list Endpoint.t) (slot : Z) : option Endpoint.t :=
  match l with
  | [] => None
  | e :: l => if slot <? Endpoint.weight e then Some e else share l (slot - Endpoint.weight e)
  end.

Lemma pick_share endpoints excluded slot cursor :
  sound_weights endpoints -> 0 <= cursor -> cursor + weights endpoints < 2 ^ 64 ->
  pick endpoints excluded slot cursor = share (filter (eligible excluded) endpoints) (slot - cursor).
Proof.
  intros [Hpos _]. revert cursor. induction Hpos as [|e l He Hl IH]; intros cursor H0 Hlt; [done|].
  cbn [weights foldr] in Hlt. change (foldr _ 0 l) with (weights l) in Hlt. pose proof (weights_nonneg l Hl).
  cbn [pick]. rewrite eligible_cons. case_bool_decide.
  - apply IH; lia.
  - cbn [share]. rewrite u64_small by lia.
    destruct (Z.ltb_spec slot (cursor + Endpoint.weight e)), (Z.ltb_spec (slot - cursor) (Endpoint.weight e));
      [done|lia|lia|]. rewrite IH by lia. f_equal. lia.
Qed.

Lemma share_some l slot :
  Forall (fun e => 0 < Endpoint.weight e) l -> 0 <= slot < weights l -> exists e, share l slot = Some e /\ e ∈ l.
Proof.
  intros Hl. revert slot. induction Hl as [|e l He Hl IH]; intros slot; cbn [weights foldr share]; [lia|].
  change (foldr _ 0 l) with (weights l). intros Hs. destruct (Z.ltb_spec slot (Endpoint.weight e)).
  - exists e. split; [done|by left].
  - destruct (IH (slot - Endpoint.weight e)) as (x & Hx & Hin); [lia|]. exists x. split; [done|by right].
Qed.

Lemma pick_sub endpoints excluded slot cursor e :
  pick endpoints excluded slot cursor = Some e -> e ∈ endpoints /\ Endpoint.id e ∉ excluded.
Proof.
  revert cursor. induction endpoints as [|x l IH]; intros cursor; cbn [pick]; [done|].
  case_bool_decide; [intros H'%IH; split; [right|]; apply H'|].
  cbv zeta. destruct (_ <? _); [|intros H'%IH; split; [right|]; apply H'].
  intros [= <-]. split; [by left|done].
Qed.

Lemma choose_sub service endpoints excluded m e m' :
  choose service endpoints excluded m = (Ok e, m') -> e ∈ endpoints /\ Endpoint.id e ∉ excluded.
Proof.
  unfold choose. destruct (totalWeight endpoints excluded =? 0); [done|]. cbv zeta.
  destruct (pick _ _ _ _) eqn:Hp; [|done]. intros [= <- _]. by eapply pick_sub.
Qed.

(** How many of the slots [[0, n)] a test accepts. *)
Fixpoint count_slots (test : Z -> bool) (n : nat) : nat :=
  match n with
  | O => 0
  | S n => count_slots test n + if test (Z.of_nat n) then 1 else 0
  end.

Lemma count_slots_ext f g n :
  (forall i, 0 <= i < Z.of_nat n -> f i = g i) -> count_slots f n = count_slots g n.
Proof.
  induction n as [|n IH]; intros H; [done|]. cbn [count_slots]. rewrite IH by (intros; apply H; lia).
  by rewrite H by lia.
Qed.

Lemma count_slots_add f m n :
  count_slots f (m + n) = (count_slots f m + count_slots (fun i => f (Z.of_nat m + i)%Z) n)%nat.
Proof.
  induction n as [|n IH]; [by rewrite !Nat.add_0_r|]. rewrite Nat.add_succ_r. cbn [count_slots]. rewrite IH.
  replace (Z.of_nat (m + n)) with (Z.of_nat m + Z.of_nat n) by lia. lia.
Qed.

(** Any window of one period counts alike. *)
Lemma count_slots_period f (total : nat) s :
  0 <= s -> (0 < total)%nat ->
  count_slots (fun i => f ((s + i) mod Z.of_nat total)) total = count_slots f total.
Proof.
  intros Hs Ht. revert s Hs. apply natlike_ind.
  - apply count_slots_ext. intros i Hi. by rewrite Z.add_0_l, Z.mod_small.
  - intros s Hs IH. rewrite <-IH. set (g i := f (i mod Z.of_nat total)).
    assert (E : forall k, count_slots (fun i => f ((k + i) mod Z.of_nat total)) total
                          = count_slots (fun i => g (k + i)) total) by done.
    rewrite !E. destruct total as [|n]; [lia|]. cbn [count_slots].
    transitivity (count_slots (fun i => g (s + i)%Z) (1 + S n) - (if g s then 1 else 0))%nat.
    + rewrite count_slots_add. cbn [count_slots]. change (Z.of_nat 0) with 0. rewrite Z.add_0_r.
      replace (Z.succ s + Z.of_nat n) with (s + (Z.of_nat 1 + Z.of_nat n)) by lia.
      rewrite (count_slots_ext (fun i => g (Z.succ s + i)) (fun i => g (s + (Z.of_nat 1 + i)))); [lia|].
      intros i _. f_equal. lia.
    + cbn [Nat.add]. cbn [count_slots]. replace (Z.of_nat (S n)) with (0 + Z.of_nat (S n)) by lia.
      assert (Hg : g (s + (0 + Z.of_nat (S n))) = g s).
      { unfold g. f_equal. rewrite Z.add_0_l. rewrite <-(Z.mul_1_l (Z.of_nat (S n))) at 1. by rewrite Z.mod_add by lia. }
      rewrite Hg. lia.
Qed.


Lemma count_slots_const f b n :
  (forall i, 0 <= i < Z.of_nat n -> f i = b) -> count_slots f n = if b then n else 0%nat.
Proof.
  induction n as [|n IH]; intros H; cbn [count_slots]; [by destruct b|].
  rewrite IH by (intros; apply H; lia). rewrite H by lia. destruct b; lia.
Qed.

Definition is_endpoint (e : Endpoint.t) (chosen : option Endpoint.t) : bool :=
  match chosen with Some e' => bool_decide (Endpoint.id e' = Endpoint.id e) | None => false end.

Lemma share_absent l e slot :
  Endpoint.id e ∉ Endpoint.id <$> l -> is_endpoint e (share l slot) = false.
Proof.
  revert slot. induction l as [|x l IH]; intros slot Hn; cbn [share]; [done|].
  rewrite fmap_cons, not_elem_of_cons in Hn. destruct Hn as [Hne Hn].
  destruct (slot <? Endpoint.weight x); [|by apply IH]. simpl. by case_bool_decide.
Qed.

(** The slots of one cycle give every endpoint its weight. *)
Lemma share_counts l e :
  Forall (fun e => 0 < Endpoint.weight e) l -> NoDup (Endpoint.id <$> l) -> e ∈ l ->
  count_slots (fun i => is_endpoint e (share l i)) (Z.to_nat (weights l)) = Z.to_nat (Endpoint.weight e).
Proof.
  induction 1 as [|x l Hx Hl IH]; intros Hnd Hin; [by apply not_elem_of_nil in Hin|].
  rewrite fmap_cons in Hnd. apply NoDup_cons in Hnd as [Hnx Hnd]. pose proof (weights_nonneg l Hl).
  cbn [weights foldr]. change (foldr _ 0 l) with (weights l). rewrite Z2Nat.inj_add, count_slots_add by lia.
  rewrite (count_slots_const _ (bool_decide (Endpoint.id x = Endpoint.id e))); cycle 1.
  { intros i Hi. cbn [share]. rewrite (proj2 (Z.ltb_lt _ _)) by lia. done. }
  rewrite (count_slots_ext _ (fun i => is_endpoint e (share l i))); cycle 1.
  { intros i Hi. cbn [share]. rewrite (proj2 (Z.ltb_ge _ _)) by lia. do 2 f_equal. lia. }
  apply elem_of_cons in Hin as [->|Hin].
  - rewrite bool_decide_eq_true_2 by done. rewrite (count_slots_const _ false); [lia|].
    intros i _. by apply share_absent.
  - rewrite IH, bool_decide_eq_false_2 by (done || (intros E; apply Hnx; rewrite E; by apply list_elem_of_fmap_2)). lia.
Qed.

(** The answers of [n] calls of [choose] in a row. *)
Fixpoint choices (service : ServiceId) endpoints excluded (n : nat) (m : WeightedRoundRobin.t)
    : list (Result Endpoint.t) :=
  match n with
  | O => []
  | S n => let '(chosen, m) := choose service endpoints excluded m in chosen :: choices service endpoints excluded n m
  end.

Definition at_slot endpoints excluded (sequence : Z) : Result Endpoint.t :=
  match share (filter (eligible excluded) endpoints) (sequence mod totalWeight endpoints excluded) with
  | Some e => Ok e
  | None => fail Internal "The load balancer could not select an endpoint."
  end.

Lemma choices_slots service endpoints excluded n m sequence :
  sound_weights endpoints -> totalWeight endpoints excluded <> 0 ->
  default 0 (m !! service) = sequence -> 0 <= sequence -> sequence + Z.of_nat n <= 2 ^ 64 ->
  choices service endpoints excluded n m = at_slot endpoints excluded <$> seqZ sequence (Z.of_nat n).
Proof.
  intros Hw Ht. revert m sequence. induction n as [|n IH]; intros m sequence Hm H0 Hle; [done|].
  cbn [choices]. rewrite seqZ_cons by lia. rewrite fmap_cons. unfold choose.
  rewrite (proj2 (Z.eqb_neq _ _) Ht). cbv zeta. rewrite Hm, pick_share, Z.sub_0_r by (done || (destruct Hw; lia)).
  assert (E : choices service endpoints excluded n (<[service:=u64 (sequence + 1)]> m)
              = at_slot endpoints excluded <$> seqZ (Z.succ sequence) (Z.pred (Z.of_nat (S n)))).
  { replace (Z.pred (Z.of_nat (S n))) with (Z.of_nat n) by lia. destruct n as [|n]; [done|].
    apply IH; [|lia..]. rewrite lookup_insert_eq. simpl. rewrite u64_small; lia. }
  unfold at_slot at 1. destruct (share _ _); cbn [fst snd]; by rewrite E.
Qed.

Definition given (e : Endpoint.t) (answer : Result Endpoint.t) : Prop :=
  is_endpoint e (match answer with Ok e => Some e | _ => None end) = true.
#[global] Instance given_dec e answer : Decision (given e answer).
Proof. unfold given. apply _. Defined.

Lemma given_count e (answers : Z -> Result Endpoint.t) s n :
  length (filter (given e) (answers <$> seqZ s (Z.of_nat n)))
  = count_slots (fun i => is_endpoint e (match answers (s + i) with Ok e => Some e | _ => None end)) n.
Proof.
  induction n as [|n IH]; [done|]. rewrite Nat2Z.inj_succ, <-Z.add_1_r, Z.add_1_r, <-Nat2Z.inj_succ.
  rewrite seqZ_S, fmap_app, filter_app, length_app, IH. cbn [count_slots]. f_equal.
  rewrite fmap_cons. unfold filter, list_filter. case_decide as Hd; unfold given in Hd; simpl.
  - by rewrite Hd.
  - by apply not_true_is_false in Hd as ->.
Qed.

(** Load balancing is exactly proportional to the weights. Over one cycle
    of choices (as many as the weights of the endpoints that are not excluded
    add up to) from any point of the 64-bit sequence that the cycle does not
    wrap, no choice fails, no excluded endpoint is chosen, and every other
    endpoint is chosen exactly as often as its weight says; when all are
    excluded the choice fails as unavailable and the sequence stays. *)
Theorem round_robin_is_weighted service endpoints excluded m :
  sound_weights endpoints -> NoDup (Endpoint.id <$> endpoints) ->
  0 <= default 0 (m !! service) -> default 0 (m !! service) + totalWeight endpoints excluded <= 2 ^ 64 ->
  let answers := choices service endpoints excluded (Z.to_nat (totalWeight endpoints excluded)) m in
  (forall answer, answer ∈ answers ->
     exists e, answer = Ok e /\ e ∈ endpoints /\ Endpoint.id e ∉ excluded) /\
  (forall e, e ∈ endpoints -> Endpoint.id e ∉ excluded ->
     length (filter (given e) answers) = Z.to_nat (Endpoint.weight e)) /\
  ((forall e, e ∈ endpoints -> Endpoint.id e ∈ excluded) <->
     choose service endpoints excluded m = (fail Unavailable "No upstream endpoint is available.", m)).
Proof.
  intros Hw Hnd H0 Hle. cbv zeta. pose proof (totalWeight_value _ excluded Hw) as Ht.
  set (l := filter (eligible excluded) endpoints) in *.
  assert (Hl : Forall (fun e => 0 < Endpoint.weight e) l).
  { apply Forall_forall. intros e [_ He]%list_elem_of_filter. by eapply Forall_forall in He; [|apply Hw]. }
  assert (Hin : forall e, e ∈ l <-> e ∈ endpoints /\ Endpoint.id e ∉ excluded).
  { intros e. unfold l. rewrite list_elem_of_filter. unfold eligible. tauto. }
  pose proof (weights_nonneg l Hl) as Hnn.
  destruct (decide (totalWeight endpoints excluded = 0)) as [Hz|Hz].
  - assert (l = []) as El.
    { destruct l as [|x l']; [done|]. apply Forall_cons in Hl as [Hx Hl']. cbn [weights foldr] in *.
      change (foldr _ 0 l') with (weights l') in *. pose proof (weights_nonneg l' Hl'). lia. }
    rewrite Hz. split_and!.
    + by intros answer ?%not_elem_of_nil.
    + intros e He Hx. assert (e ∈ l) as Hc by (by apply Hin). rewrite El in Hc. by apply not_elem_of_nil in Hc.
    + split; [|intros _ e He].
      * intros _. unfold choose. by rewrite Hz.
      * apply dec_stable. intros Hx. assert (e ∈ l) as Hc by (by apply Hin). rewrite El in Hc. by apply not_elem_of_nil in Hc.
  - rewrite (choices_slots _ _ _ _ _ (default 0 (m !! service))) by (done || lia).
    set (s := default 0 (m !! service)) in *. rewrite Ht in *. split_and!.
    + intros answer (i & -> & Hi)%list_elem_of_fmap. unfold at_slot. fold l. rewrite Ht.
      destruct (share_some l (i mod weights l) Hl) as (e & -> & He); [apply Z.mod_pos_bound; lia|].
      exists e. by apply Hin in He.
    + intros e He Hx. rewrite given_count, (count_slots_ext _ (fun i => is_endpoint e (share l ((s + i) mod weights l)))).
      2:{ intros i _. unfold at_slot. fold l. rewrite Ht. by destruct (share l _). }
      pose proof (count_slots_period (fun i => is_endpoint e (share l i)) (Z.to_nat (weights l)) s) as Hp.
      rewrite Z2Nat.id in Hp by lia. rewrite Hp by lia.
      apply share_counts; [done| |by apply Hin]. unfold l. eapply sublist_NoDup; [exact Hnd|].
      apply fmap_sublist, sublist_filter.
    + split.
      * intros Hall. exfalso. apply Hz. destruct l as [|x l'] eqn:El; [done|].
        destruct (proj1 (Hin x)) as [Hx1 Hx2]; [by left|]. by destruct Hx2; apply Hall.
      * unfold choose. rewrite Ht, (proj2 (Z.eqb_neq _ _) Hz). cbv zeta. intros H.
        destruct (pick _ _ _ _); discriminate H.
Qed.
End balancing.

Module RoutingWitnesses.
Definition api : ServiceId := mkId "api".
Definition heavy : Endpoint.t := Endpoint.mk (mkId "heavy") "10.0.0.1" 8443 true 2.
Definition light : Endpoint.t := Endpoint.mk (mkId "light") "10.0.0.2" 8443 true 1.
Definition spare : Endpoint.t := Endpoint.mk (mkId "spare") "10.0.0.3" 8443 true 5.

(** Two of three endpoints in use, from a sequence that has already moved. *)
Lemma round_robin_is_weighted_witness :
  let answers := choices api [heavy; spare; light] [Endpoint.id spare] 3 {[ api := 4 ]} in
  length (filter (given heavy) answers) = 2%nat /\ length (filter (given light) answers) = 1%nat.
Proof.
  destruct (round_robin_is_weighted api [heavy; spare; light] [Endpoint.id spare] {[ api := 4 ]}) as (_ & H & _).
  - split; [|vm_compute; reflexivity]. repeat constructor.
  - repeat constructor; set_solver.
  - vm_compute. discriminate.
  - vm_compute. discriminate.
  - split; [apply (H heavy)|apply (H light)]; set_solver.
Defined.
End RoutingWitnesses.
