(* ===== verification/Traffic.v ===== *)
(** * openproof.gateway: circuits and rates

    The circuit breaker refines a machine that says of one endpoint whether it
    serves, is broken, or is being probed. The token bucket admits at one
    instant what its capacity allows, and keeps a bounded number of buckets. *)
From S2P Require Import Prelude Foundation Encoding Security Double Http Gateway.
From Stdlib Require Import SpecFloat.

(** ** Circuits *)

(** What the breaker promises of one endpoint: it serves with so many failures
    in a row, it is broken since an instant, or it is broken and one caller is
    finding out whether it still is. *)
Inductive circuit := Serving (failures : Z) | Broken (since : Instant) | Probing.

Inductive circuit_op := Allow (e : EndpointId) | Success (e : EndpointId) | Failure (e : EndpointId).

Section circuits.
Context `{Plat : Platform} (p : CircuitBreaker.policy).
Import CircuitBreaker(m_failureThreshold, m_openDuration, mkEntry, entry, initial).

Definition on_endpoint (op : circuit_op) : EndpointId :=
  match op with Allow e | Success e | Failure e => e end.

(** The machine: its answer to [Allow], the circuit it leaves and the clock. *)
Definition circuit_step (op : circuit_op) (c : circuit) (w : world) : bool * circuit * world :=
  match op, c with
  | Allow _, Serving n => (true, Serving n, w)
  | Allow _, Broken since =>
      let '(now, w) := clock_now w in
      if now - since <? m_openDuration p then (false, Broken since, w) else (true, Probing, w)
  | Allow _, Probing => (false, Probing, w)
  | Success _, _ => (true, Serving 0, w)
  | Failure _, Serving n =>
      if n + 1 <? m_failureThreshold p then (true, Serving (n + 1), w)
      else let '(now, w) := clock_now w in (true, Broken now, w)
  | Failure _, _ => let '(now, w) := clock_now w in (true, Broken now, w)
  end.

(** A map of circuits; every endpoint serves at first. *)
Abbreviation circuits := (gmap EndpointId circuit).
Definition circuit_of (cs : circuits) (e : EndpointId) : circuit := default (Serving 0) (cs !! e).

Definition spec_step (op : circuit_op) (s : with_world circuits world) : bool * with_world circuits world :=
  let e := on_endpoint op in
  let '(answer, c, w) := circuit_step op (circuit_of (v_store s) e) (v_world s) in
  (answer, mkWith (<[e := c]> (v_store s)) w).

Definition breaker_step (op : circuit_op) (s : with_world CircuitBreaker.t world)
    : bool * with_world CircuitBreaker.t world :=
  match op with
  | Allow e =>
      let '(answer, s) := CircuitBreaker.allow p e s in (match answer with Ok b => b | _ => false end, s)
  | Success e => (true, (CircuitBreaker.recordSuccess e s).2)
  | Failure e => (true, (CircuitBreaker.recordFailure p e s).2)
  end.

(** The answers of a history. *)
Fixpoint answers {St} (step : circuit_op -> St -> bool * St) (ops : list circuit_op) (s : St) : list bool :=
  match ops with
  | [] => []
  | op :: ops => let '(b, s) := step op s in b :: answers step ops s
  end.

(** An entry stands for a circuit; [n] bounds the failures counted so far. *)
Definition represents (n : Z) (e : CircuitBreaker.Entry) (c : circuit) : Prop :=
  0 <= CircuitBreaker.failures e <= n /\
  match c with
  | Serving k =>
      CircuitBreaker.state e = CircuitState.Closed /\ CircuitBreaker.failures e = k /\ k < m_failureThreshold p
      /\ CircuitBreaker.probeInFlight e = false
  | Broken since =>
      CircuitBreaker.state e = CircuitState.Open /\ CircuitBreaker.openedAt e = since
      /\ m_failureThreshold p <= CircuitBreaker.failures e
  | Probing =>
      CircuitBreaker.state e = CircuitState.HalfOpen /\ CircuitBreaker.probeInFlight e = true
      /\ m_failureThreshold p <= CircuitBreaker.failures e
  end.

Definition simulates (n : Z) (s : with_world CircuitBreaker.t world) (a : with_world circuits world) : Prop :=
  v_world s = v_world a /\
  forall e, represents n (entry e (v_store s)) (circuit_of (v_store a) e).

Lemma represents_mono n n' e c : n <= n' -> represents n e c -> represents n' e c.
Proof. unfold represents. intros Hn [Hf Hc]. split; [lia|done]. Qed.

Lemma simulates_update n n' s a e entry' c w :
  n <= n' -> simulates n s a -> represents n' entry' c ->
  simulates n' (mkWith (<[e := entry']> (v_store s)) w) (mkWith (<[e := c]> (v_store a)) w).
Proof.
  intros Hn [_ Hs] Hr. split; [done|]. intros x. unfold entry, circuit_of. cbn [v_store].
  destruct (decide (x = e)) as [->|Hx]; [rewrite !lookup_insert_eq; exact Hr|].
  rewrite !lookup_insert_ne by done. eapply represents_mono; [exact Hn|apply Hs].
Qed.

Lemma breaker_step_simulates n op s a :
  0 <= n -> n + 1 < 2 ^ 32 -> 0 < m_failureThreshold p -> simulates n s a ->
  (breaker_step op s).1 = (spec_step op a).1 /\ simulates (n + 1) (breaker_step op s).2 (spec_step op a).2.
Proof.
  intros H0 Hn Hp Hs. pose proof Hs as [Hw He]. specialize (He (on_endpoint op)). unfold spec_step. rewrite <-Hw.
  destruct op as [e|e|e]; cbn [on_endpoint] in *; cbn [breaker_step].
  - unfold CircuitBreaker.allow. generalize dependent (entry e (v_store s)). intros en He. destruct He as [Hf Hc].
    destruct (circuit_of (v_store a) e) as [k|since|]; destruct Hc as (Hst & Hc); rewrite Hst; cbn [circuit_step].
    + split; [done|]. apply (simulates_update n); [lia|done|]. split; [lia|]. done.
    + destruct (clock_now (v_world s)) as [t w]. destruct Hc as [<- Ht].
      destruct (t - CircuitBreaker.openedAt en <? m_openDuration p); cbn [fst snd]; (split; [done|]);
        (apply (simulates_update n); [lia|done|]); (split; [cbn; lia|]); cbn; split_and!; try done; lia.
    + unfold CircuitBreaker.probe. destruct Hc as [Hpr Ht]. rewrite Hpr. cbn [fst snd]. split; [done|].
      apply (simulates_update n); [lia|done|]. split; [lia|]. done.
  - split; [done|]. unfold CircuitBreaker.recordSuccess. cbn [snd]. apply (simulates_update n); [lia|done|].
    split; [cbn; lia|]. cbn. split_and!; done.
  - unfold CircuitBreaker.recordFailure. generalize dependent (entry e (v_store s)). intros en He. destruct He as [Hf Hc].
    assert (Hu : u32 (CircuitBreaker.failures en + 1) = CircuitBreaker.failures en + 1).
    { unfold u32. apply Z.mod_small. lia. }
    destruct (circuit_of (v_store a) e) as [k|since|]; destruct Hc as (Hst & Hc); rewrite Hst; cbn [circuit_step].
    + rewrite !bool_decide_eq_false_2 by done. cbv zeta. rewrite Hu. destruct Hc as (Hfk & Hk & Hpr). rewrite Hfk in *. cbn [orb].
      destruct (Z.leb_spec (m_failureThreshold p) (k + 1)).
      * rewrite (proj2 (Z.ltb_ge _ _)) by lia. destruct (clock_now (v_world s)) as [t w]. cbn [fst snd]. split; [done|].
        apply (simulates_update n); [lia|done|]. split; [cbn; lia|]. cbn. split_and!; try done; lia.
      * rewrite (proj2 (Z.ltb_lt _ _)) by lia. cbn [fst snd]. split; [done|].
        apply (simulates_update n); [lia|done|]. split; [cbn; lia|]. cbn. split_and!; try done; lia.
    + rewrite !bool_decide_eq_false_2 by done. cbv zeta. rewrite Hu. destruct Hc as [_ Ht]. cbn [orb].
      rewrite (proj2 (Z.leb_le _ _)) by lia. destruct (clock_now (v_world s)) as [t w]. cbn [fst snd]. split; [done|].
      apply (simulates_update n); [lia|done|]. split; [cbn; lia|]. cbn. split_and!; try done; lia.
    + rewrite !bool_decide_eq_true_2 by done. cbv zeta. cbn [orb]. destruct Hc as [_ Ht].
      destruct (clock_now (v_world s)) as [t w]. cbn [fst snd]. split; [done|].
      apply (simulates_update n); [lia|done|]. split; [cbn; lia|]. cbn. split_and!; try done; lia.
Qed.

Lemma breaker_simulates n ops s a :
  0 <= n -> n + Z.of_nat (length ops) < 2 ^ 32 -> 0 < m_failureThreshold p -> simulates n s a ->
  answers breaker_step ops s = answers spec_step ops a.
Proof.
  revert n s a. induction ops as [|op ops IH]; intros n s a H0 Hn Hp Hs; cbn [answers length] in *; [done|].
  destruct (breaker_step_simulates n op s a) as [Ha Hs']; [lia..|done|].
  destruct (breaker_step op s) as [b s1], (spec_step op a) as [b' a1]. cbn [fst snd] in *. rewrite Ha.
  f_equal. apply (IH (n + 1)); [lia..|done].
Qed.

(** The circuit breaker does what its machine says. Every history of fewer
    than 2^32 calls on a new breaker with a valid policy, over any number of
    endpoints and whatever the clock does, gets the answers of the machine in
    which an endpoint serves until a threshold of failures in a row breaks it,
    a broken one is refused until the open time has passed since, then one
    caller probes while all others are refused, and the outcome of the probe
    alone decides whether it serves or is broken from that instant. *)
Theorem circuit_breaker_refines threshold duration ops w :
  CircuitBreaker.create threshold duration = Ok p -> 0 <= threshold < 2 ^ 32 ->
  Z.of_nat (length ops) < 2 ^ 32 ->
  answers breaker_step ops (mkWith ∅ w) = answers spec_step ops (mkWith ∅ w).
Proof.
  unfold CircuitBreaker.create. intros H Ht Hl. destruct (threshold =? 0) eqn:E; [done|].
  destruct (duration <=? 0); [done|]. injection H as Hp. apply Z.eqb_neq in E.
  assert (0 < m_failureThreshold p) by (rewrite <-Hp; cbn; lia).
  apply (breaker_simulates 0); [lia|done|done|]. split; [done|]. intros e.
  unfold entry, circuit_of. cbn [v_store]. rewrite !lookup_empty. cbn. split_and!; done || lia.
Qed.
End circuits.

(** ** Rates *)

(** Closes a goal on counts once a comparison is decided. *)
Ltac by_count :=
  match goal with |- context [(0 <? ?n)%nat] => destruct (Nat.ltb_spec 0 n) end; cbn [andb]; cbn match; lia.

Section rates.
Import TokenBucketRateLimiter.
Implicit Types (m : TokenBucketRateLimiter.t) (b : Bucket) (keys : list string).

(** A call of cost one, when the clock reads [now]. *)
Definition call (now : Instant) (key : string) m : bool * TokenBucketRateLimiter.t :=
  if senseless key one_double m then (false, m) else allowAt key one_double now m.

Lemma allow_calls `{Plat : Platform} key (s : with_world TokenBucketRateLimiter.t world) :
  exists now,
    (allow key one_double s).1 = Ok (call now key (v_store s)).1 /\
    v_store (allow key one_double s).2 = (call now key (v_store s)).2.
Proof.
  unfold allow, call. destruct (senseless _ _ _); [by exists 0|]. destruct (clock_now (v_world s)) as [now w].
  exists now. by destruct (allowAt _ _ _ _).
Qed.

(** The limiter after calls at one instant, and how many of them are admitted
    among those a test selects. *)
Definition after_calls (now : Instant) keys m : TokenBucketRateLimiter.t :=
  foldl (fun m key => (call now key m).2) m keys.
Fixpoint admitted (now : Instant) (who : string -> bool) keys m : nat :=
  match keys with
  | [] => 0
  | key :: keys => (if who key && (call now key m).1 then 1 else 0) + admitted now who keys (call now key m).2
  end.
Definition asked (who : string -> bool) keys : nat := length (filter (fun key => who key = true) keys).

Definition whole (x : double) : nat := Z.to_nat (scaled x / 2 ^ 1074).

(** A balance the arithmetic is exact on. *)
Definition exact (x : double) : Prop := nonneg x = true /\ 0 <= scaled x <= 2 ^ 53 * 2 ^ 1074.

Lemma unit_positive : 0 < 2 ^ 1074.
Proof. by apply Z.pow_pos_nonneg. Qed.

Lemma spend_one b :
  exact (tokens b) ->
  (spend b one_double).1 = (0 <? whole (tokens b))%nat /\
  whole (tokens (spend b one_double).2) = (whole (tokens b) - 1)%nat /\
  exact (tokens (spend b one_double).2) /\ updatedAt (spend b one_double).2 = updatedAt b.
Proof.
  intros [Hn Hs]. pose proof unit_positive as Hu. unfold spend, whole. rewrite (dltb_spec _ _ Hn) by reflexivity.
  rewrite scaled_one. set (u := 2 ^ 1074) in *. destruct (Z.ltb_spec (scaled (tokens b)) u) as [Hlt|Hge]; cbn [fst snd].
  - rewrite Z.div_small by lia. by split_and!.
  - destruct (dsub_one _ Hn) as [Hn' Hs']; [lia|]. cbn [tokens updatedAt]. fold u in Hs'. rewrite Hs'.
    assert (E : (scaled (tokens b) - u) / u = scaled (tokens b) / u - 1).
    { replace (scaled (tokens b) - u) with (scaled (tokens b) + (-1) * u) by lia. rewrite Z.div_add by lia. lia. }
    assert (1 <= scaled (tokens b) / u) by (apply Z.div_le_lower_bound; lia).
    split_and!; [|rewrite E; lia|split; [done|rewrite Hs'; lia]|done]. symmetry. apply Nat.ltb_lt. lia.
Qed.

(** Every bucket is as of [now], with an exact balance. *)
Definition settled (now : Instant) m : Prop :=
  exact (m_capacity m) /\ dltb (m_capacity m) one_double = false /\ (m_maximumKeys m > 0)%nat /\
  (forall k b, m_buckets m !! k = Some b -> exact (tokens b) /\ updatedAt b = now) /\
  (m_overflowInitialized m = true -> exact (tokens (m_overflowBucket m)) /\ updatedAt (m_overflowBucket m) = now).

(** What a key may still take at this instant. *)
Definition left_of m key : nat :=
  whole (match m_buckets m !! key with Some b => tokens b | None => m_capacity m end).
Definition left_over m : nat :=
  whole (if m_overflowInitialized m then tokens (m_overflowBucket m) else m_capacity m).

Lemma refill_now m b now : updatedAt b = now -> refill m b now = b.
Proof. intros <-. unfold refill. by rewrite Z.sub_diag. Qed.

Lemma call_effect now key m :
  settled now m -> key <> "" ->
  let full := (m_maximumKeys m <=? base.size (m_buckets m))%nat in
  exists b, exact (tokens b) /\ updatedAt b = now /\ call now key m =
    match m_buckets m !! key with
    | Some _ => ((0 <? left_of m key)%nat, set_bucket key b m)
    | None => if full then ((0 <? left_over m)%nat, set_overflow b m)
              else ((0 <? left_of m key)%nat, set_bucket key b m)
    end /\
    whole (tokens b) = ((if bool_decide (m_buckets m !! key = None) && full then left_over m else left_of m key) - 1)%nat.
Proof.
  intros (Hc & Hone & _ & Hb & Ho) Hk. cbv zeta. unfold call.
  assert (senseless key one_double m = false) as ->.
  { unfold senseless. rewrite bool_decide_eq_false_2, Hone by done. reflexivity. }
  unfold allowAt, left_of, left_over. destruct (m_buckets m !! key) as [b|] eqn:E; cbn [andb].
  - destruct (Hb _ _ E) as [He Hu]. rewrite (refill_now _ _ _ Hu). destruct (spend_one b He) as (H1 & H2 & H3 & H4).
    destruct (spend b one_double) as [ok b']. cbn [fst snd] in *. exists b'. subst ok. by rewrite H4.
  - destruct (_ <=? _)%nat.
    + set (b := if m_overflowInitialized m then _ else _).
      assert (exact (tokens b) /\ updatedAt b = now /\
        tokens b = if m_overflowInitialized m then tokens (m_overflowBucket m) else m_capacity m) as (He & Hu & Ht).
      { unfold b. destruct (m_overflowInitialized m); [by destruct Ho|done]. }
      rewrite (refill_now _ _ _ Hu), <-Ht. destruct (spend_one b He) as (H1 & H2 & H3 & H4).
      destruct (spend b one_double) as [ok b']. cbn [fst snd] in *. exists b'. subst ok. by rewrite H4.
    + rewrite refill_now by done. destruct (spend_one (mkBucket (m_capacity m) now) Hc) as (H1 & H2 & H3 & H4).
      destruct (spend _ one_double) as [ok b']. cbn [fst snd tokens updatedAt] in *. exists b'. subst ok. by rewrite H4.
Qed.

Lemma call_settled now key m : settled now m -> settled now (call now key m).2.
Proof.
  intros Hs. destruct (decide (key = "")) as [->|Hk]; [done|].
  destruct (call_effect now key m Hs Hk) as (b & He & Hu & -> & _). destruct Hs as (Hc & Hone & Hm & Hb & Ho).
  assert (settled now (set_bucket key b m)).
  { split_and!; try done. intros k b'. cbn [set_bucket m_buckets]. destruct (decide (k = key)) as [->|Hne].
    - rewrite lookup_insert_eq. by intros [= <-].
    - rewrite lookup_insert_ne by done. apply Hb. }
  destruct (m_buckets m !! key); [done|]. destruct (_ <=? _)%nat; [|done]. by split_and!.
Qed.

(** The keys that have a bucket. *)
Definition tracked m (key : string) : Prop := is_Some (m_buckets m !! key).

Lemma call_tracked now key m k :
  tracked (call now key m).2 k <->
  tracked m k \/ (k = key /\ senseless key one_double m = false /\ (base.size (m_buckets m) < m_maximumKeys m)%nat).
Proof.
  unfold call, tracked, allowAt. destruct (senseless _ _ _); [naive_solver|].
  destruct (m_buckets m !! key) as [b|] eqn:E.
  - destruct (spend _ _). cbn [snd set_bucket m_buckets]. destruct (decide (k = key)) as [->|Hne].
    + rewrite lookup_insert_eq, E. naive_solver.
    + rewrite lookup_insert_ne by done. naive_solver.
  - destruct (Nat.leb_spec (m_maximumKeys m) (base.size (m_buckets m))); destruct (spend _ _);
      cbn [snd set_bucket set_overflow m_buckets]; [naive_solver lia|].
    destruct (decide (k = key)) as [->|Hne]; [rewrite lookup_insert_eq; naive_solver|].
    rewrite lookup_insert_ne by done. naive_solver.
Qed.

Lemma after_tracked now keys m k : tracked m k -> tracked (after_calls now keys m) k.
Proof.
  revert m. induction keys as [|key keys IH]; intros m Hk; [done|]. apply IH, call_tracked. by left.
Qed.

Definition full m : Prop := (m_maximumKeys m <= base.size (m_buckets m))%nat.

(** A call leaves the policy, keeps the bound, and once the bound is met no key
    gets a bucket. *)
Lemma call_bounds now key m :
  m_capacity (call now key m).2 = m_capacity m /\ m_maximumKeys (call now key m).2 = m_maximumKeys m /\
  (base.size (m_buckets m) <= base.size (m_buckets (call now key m).2))%nat /\
  (base.size (m_buckets m) <= m_maximumKeys m ->
   base.size (m_buckets (call now key m).2) <= m_maximumKeys m)%nat.
Proof.
  unfold call, allowAt. destruct (senseless _ _ _); [done|].
  destruct (m_buckets m !! key) as [b|] eqn:E.
  - destruct (spend _ _). cbn [snd set_bucket m_buckets m_capacity m_maximumKeys].
    rewrite map_size_insert_Some by done. done.
  - destruct (Nat.leb_spec (m_maximumKeys m) (base.size (m_buckets m))); destruct (spend _ _);
      cbn [snd set_bucket set_overflow m_buckets m_capacity m_maximumKeys]; [done|].
    rewrite map_size_insert_None by done. split_and!; [done|done|lia|lia].
Qed.

Lemma full_tracked now keys m k : full m -> tracked (after_calls now keys m) k -> tracked m k.
Proof.
  unfold full. revert m. induction keys as [|key keys IH]; intros m Hf Hk; [done|]. cbn [after_calls foldl] in Hk.
  destruct (call_bounds now key m) as (_ & Hm & Hs & _). apply IH in Hk; [|lia].
  apply call_tracked in Hk as [|(_ & _ & ?)]; [done|lia].
Qed.

Definition is_key (k key : string) : bool := bool_decide (key = k).
(** The keys without a bucket of their own share the overflow bucket. *)
Definition shares m (key : string) : bool :=
  negb (bool_decide (key = "")) && bool_decide (m_buckets m !! key = None).

Lemma asked_cons who key keys : asked who (key :: keys) = ((if who key then 1 else 0) + asked who keys)%nat.
Proof. unfold asked. rewrite filter_cons. case_decide as E; [by rewrite E|]. apply not_true_is_false in E as ->. done. Qed.

Lemma tracked_exact now keys m k :
  settled now m -> k <> "" -> tracked (after_calls now keys m) k ->
  admitted now (is_key k) keys m = Nat.min (asked (is_key k) keys) (left_of m k).
Proof.
  revert m. induction keys as [|key keys IH]; intros m Hs Hk Ht; [done|].
  cbn [admitted after_calls foldl] in *. change (foldl _ ?m keys) with (after_calls now keys m) in Ht.
  rewrite (IH _ (call_settled now key m Hs) Hk Ht), asked_cons. unfold is_key at 1 3. case_bool_decide as E.
  - subst key. destruct (call_effect now k m Hs Hk) as (b & _ & _ & Hcall & Hb).
    destruct (m_buckets m !! k) as [b'|] eqn:Em.
    + rewrite bool_decide_eq_false_2 in Hb by done. cbn [andb] in Hb.
      rewrite Hcall. unfold left_of at 2. cbn [fst snd set_bucket m_buckets]. rewrite lookup_insert_eq, Hb. by_count.
    + rewrite bool_decide_eq_true_2 in Hb by done. cbn [andb] in Hb.
      destruct (Nat.leb_spec (m_maximumKeys m) (base.size (m_buckets m))) as [Hf|Hf].
      * exfalso. assert (tracked m k) as [? ?]; [|congruence].
        apply (full_tracked now (k :: keys)); [done|]. exact Ht.
      * rewrite Hcall. unfold left_of at 2. cbn [fst snd set_bucket m_buckets]. rewrite lookup_insert_eq, Hb.
        by_count.
  - cbn [andb]. f_equal. unfold left_of. destruct (call_bounds now key m) as (Hc & _).
    destruct (decide (key = "")) as [->|Hkey]; [done|].
    destruct (call_effect now key m Hs Hkey) as (b & _ & _ & Hcall & _).
    assert (m_buckets (call now key m).2 !! k = m_buckets m !! k) as ->; [|by rewrite Hc].
    rewrite Hcall. destruct (m_buckets m !! key); [|destruct (_ <=? _)%nat];
      cbn [snd set_bucket set_overflow m_buckets]; try done; by rewrite lookup_insert_ne.
Qed.

Lemma shared_exact now keys m :
  settled now m ->
  admitted now (shares (after_calls now keys m)) keys m
  = Nat.min (asked (shares (after_calls now keys m)) keys) (left_over m).
Proof.
  revert m. induction keys as [|key keys IH]; intros m Hs; [done|].
  cbn [admitted after_calls foldl] in *. change (foldl _ ?m keys) with (after_calls now keys m).
  rewrite (IH _ (call_settled now key m Hs)), asked_cons. set (final := after_calls _ _ _).
  destruct (decide (key = "")) as [->|Hkey]; [done|].
  destruct (call_effect now key m Hs Hkey) as (b & _ & _ & Hcall & Hb).
  destruct (shares final key) eqn:E; cbn [andb].
  - unfold shares in E. apply andb_true_iff in E as [_ E%bool_decide_eq_true].
    assert (Hno : ~ tracked (call now key m).2 key).
    { intros H. apply (after_tracked now keys) in H as [? ?]. unfold final in E. congruence. }
    destruct (m_buckets m !! key) as [b'|] eqn:Em; [exfalso; apply Hno, call_tracked; by left; exists b'|].
    rewrite bool_decide_eq_true_2 in Hb by done. cbn [andb] in Hb.
    destruct (m_maximumKeys m <=? base.size (m_buckets m))%nat eqn:Ef.
    + rewrite Hcall. unfold left_over at 2. cbn [fst snd set_overflow m_overflowInitialized m_overflowBucket].
      rewrite Hb. by_count.
    + exfalso. apply Hno. rewrite Hcall. unfold tracked. cbn [snd set_bucket m_buckets]. by rewrite lookup_insert_eq.
  - f_equal. destruct (m_buckets m !! key) as [b'|] eqn:Em; [by rewrite Hcall|].
    destruct (m_maximumKeys m <=? base.size (m_buckets m))%nat eqn:Ef; [|by rewrite Hcall].
    exfalso. unfold shares in E. rewrite bool_decide_eq_false_2 in E by done. cbn [negb andb] in E.
    apply bool_decide_eq_false in E. apply Nat.leb_le in Ef. assert (tracked m key) as [? ?]; [|congruence].
    apply (full_tracked now (key :: keys)); [done|]. by apply not_eq_None_Some.
Qed.

Lemma after_bounds now keys m :
  (base.size (m_buckets m) <= m_maximumKeys m)%nat ->
  (base.size (m_buckets (after_calls now keys m)) <= m_maximumKeys m)%nat.
Proof.
  revert m. induction keys as [|key keys IH]; intros m Hm; [done|]. cbn [after_calls foldl].
  destruct (call_bounds now key m) as (_ & Hk & _ & Hle). rewrite <-Hk. apply IH. rewrite Hk. auto.
Qed.

(** C19: The rate limiter is exact. From a new limiter whose capacity is a
    proper [double] up to 2^53, any calls at one instant leave at most the
    allowed number of buckets; every key that has a bucket is admitted exactly
    as often as it asked, up to the whole part of the capacity; and all the
    keys beyond the allowed number together are admitted exactly as often as
    they asked, up to the whole part of the capacity once: the floating-point
    arithmetic loses nothing, and inventing keys buys nothing. *)
Theorem rate_limit_is_exact capacity refillPerSecond maximumKeys m now keys :
  create capacity refillPerSecond maximumKeys = Ok m ->
  nonneg capacity = true -> scaled capacity <= 2 ^ 53 * 2 ^ 1074 ->
  let final := after_calls now keys m in
  (base.size (m_buckets final) <= maximumKeys)%nat /\
  (forall k, k <> "" -> tracked final k ->
     admitted now (is_key k) keys m = Nat.min (asked (is_key k) keys) (whole capacity)) /\
  admitted now (shares final) keys m = Nat.min (asked (shares final) keys) (whole capacity).
Proof.
  unfold create. intros H Hn Hs. destruct (_ || _) eqn:Ec; [done|]. injection H as <-. bool_prop. cbv zeta.
  set (m := mk _ _ _ _ _ _).
  assert (Hpos : 0 <= scaled capacity).
  { destruct capacity as [| | |[] ? ?]; try done. cbn. apply Z.mul_nonneg_nonneg; [lia|]. by apply Z.pow_nonneg. }
  assert (Hm : settled now m).
  { refine (conj (conj Hn (conj Hpos Hs)) (conj _ (conj _ (conj _ _)))); [done| | |done].
    { match goal with Hk : (_ =? 0)%nat = false |- _ => apply Nat.eqb_neq in Hk; cbn; lia end. }
    intros k b. unfold m. cbn. by rewrite lookup_empty. }
  split_and!.
  - apply (after_bounds now keys m). cbn [m_buckets m_maximumKeys m]. unfold m. cbn. rewrite map_size_empty. lia.
  - intros k Hk Ht. rewrite (tracked_exact _ _ _ _ Hm Hk Ht). unfold left_of. cbn. by rewrite lookup_empty.
  - apply (shared_exact _ _ _ Hm).
Qed.
End rates.

Module TrafficWitnesses.
Import TestPlatform.
Definition upstream : EndpointId := mkId "upstream".
Definition policy : CircuitBreaker.policy := CircuitBreaker.mkPolicy 2 3.

(** Two failures break the circuit at instant 10; it is refused at 11 and 12,
    a probe is admitted at 13, another caller is refused, and a success mends it. *)
Definition history : list circuit_op :=
  [Allow upstream; Failure upstream; Failure upstream; Allow upstream; Allow upstream; Allow upstream;
   Allow upstream; Success upstream; Allow upstream].

Lemma circuit_breaker_refines_witness :
  answers (breaker_step (Plat:=test) policy) history (mkWith ∅ (10 : @world test))
  = answers (spec_step (Plat:=test) policy) history (mkWith ∅ (10 : @world test)) /\
  answers (breaker_step (Plat:=test) policy) history (mkWith ∅ (10 : @world test))
  = [true; true; true; false; false; true; false; true; true].
Proof.
  split; [|vm_compute; reflexivity].
  apply (circuit_breaker_refines (Plat:=test) policy 2 3); [reflexivity|vm_compute; split; [discriminate|reflexivity]|].
  vm_compute. reflexivity.
Defined.

Definition limiter : TokenBucketRateLimiter.t :=
  TokenBucketRateLimiter.mk (of_int 2) (of_int 1) 1 ∅ (TokenBucketRateLimiter.mkBucket dzero 0) false.

(** One bucket of two tokens: the first client gets two of its three calls, and
    all other clients together get two. *)
Lemma rate_limit_is_exact_witness :
  let keys := ["a"; "b"; "a"; "c"; "a"; "d"; "b"] in
  admitted 0 (is_key "a") keys limiter = 2%nat /\
  admitted 0 (shares (after_calls 0 keys limiter)) keys limiter = 2%nat.
Proof.
  cbv zeta.
  destruct (rate_limit_is_exact (of_int 2) (of_int 1) 1 limiter 0 ["a"; "b"; "a"; "c"; "a"; "d"; "b"])
    as (_ & Hkey & Hover); [reflexivity|reflexivity|vm_compute; discriminate|]. split.
  - rewrite (Hkey "a"); [vm_compute; reflexivity|done|]. vm_compute. by eexists.
  - rewrite Hover. vm_compute. reflexivity.
Defined.
End TrafficWitnesses.
