(* ===== verification/TrustedContext.v ===== *)
(** * openproof.gateway: the signed context

    What the gateway seals onto a request verifies at the upstream service for
    as long as it is fresh, and nothing else verifies under its signature. *)
From S2P Require Import Prelude Foundation Encoding Security Wire Http Gateway.

Section context.
Context `{Plat : Platform, !PlatformLaws Plat} (signer : TrustedContextSigner.t).
Import TrustedContextSigner(seal, verify, m_key, m_maximumAge).

Definition context_key : string := TrustedContextKey.secret (m_key signer).

(** The fields a signature must cover. *)
Definition context_names : list string :=
  ["x-openproof-request-id"; "x-openproof-identity"; "x-openproof-organization"; "x-openproof-provider";
   "x-openproof-assurance"; "x-openproof-client-id"; "x-openproof-scopes"; "x-openproof-context-issued-at"].

Lemma signed_names : signedHeaders = context_names.
Proof. reflexivity. Qed.

(** What the signature covers. *)
Definition same_context (r r' : HttpRequest.t) : Prop :=
  HttpRequest.method r = HttpRequest.method r' /\ HttpRequest.target r = HttpRequest.target r' /\
  forall name, name ∈ context_names -> default "" (HttpRequest.header r name) = default "" (HttpRequest.header r' name).

Lemma httpMethodName_inj m m' : httpMethodName m = httpMethodName m' -> m = m'.
Proof. by destruct m, m'. Qed.

Lemma fmap_agrees {A B} (f g : A -> B) (l : list A) : f <$> l = g <$> l <-> forall x, x ∈ l -> f x = g x.
Proof.
  induction l as [|y l IH]; [by split; [intros _ x ?%not_elem_of_nil|]|]. rewrite !fmap_cons. split.
  - intros [= Hy Hl] x [->|Hx]%elem_of_cons; [done|by apply IH].
  - intros H. rewrite (H y) by left. f_equal. apply IH. intros x Hx. apply H. by right.
Qed.

Lemma payload_context r r' : trustedContextPayload r = trustedContextPayload r' <-> same_context r r'.
Proof.
  unfold trustedContextPayload, same_context. rewrite signed_names. split.
  - intros [Hm [Ht Hh]%(inj2 cons)]%concat_parts_inj%(inj2 cons).
    split_and!; [by apply httpMethodName_inj|done|]. by apply fmap_agrees.
  - intros (-> & -> & Hh). do 3 f_equal. by apply fmap_agrees.
Qed.

Lemma seal_run r w sealed w1 :
  seal signer r w = (Ok sealed, w1) ->
  exists t digest, clock_now w = (t, w1) /\
    let stamped := HttpRequest.setHeader "x-openproof-context-issued-at" (to_string t) r in
    hmacSha256 context_key (trustedContextPayload stamped) = Ok digest /\
    sealed = HttpRequest.setHeader "x-openproof-context-signature" (toHex digest) stamped.
Proof.
  unfold seal. intros (t & w2 & Hn & H)%prog_bind_ok. unfold now in Hn. destruct (clock_now w) as [t' w'] eqn:Hc.
  injection Hn as -> ->. cbv zeta in H. apply prog_bind_ok in H as (digest & w3 & [Hd ->]%lift_ok & H).
  injection H as <- <-. by exists t, digest.
Qed.

(** The signature is not among the fields it covers. *)
Lemma payload_unsigned r value :
  trustedContextPayload (HttpRequest.setHeader "x-openproof-context-signature" value r) = trustedContextPayload r.
Proof.
  apply payload_context. split_and!; [done|done|]. intros name Hn. unfold HttpRequest.header.
  rewrite header_set. case_decide as E; [|done]. exfalso. unfold context_names in Hn.
  repeat (apply elem_of_cons in Hn as [->|Hn]; [discriminate E|]). by apply not_elem_of_nil in Hn.
Qed.

(** C14: The signed context means what it says. Of a sealed request, any
    request that carries the time and the signature of the seal verifies, at a
    clock within the freshness window on either side, exactly when it has the
    method, the target and the eight signed fields of the sealed one; the only
    other possibility is that two different payloads have one HMAC. Outside the
    window it never verifies. *)
Theorem sealed_context_is_bound r w sealed w1 t r' w' t' w1' :
  clock_now w = (t, w1) -> 0 <= t < 2 ^ 63 -> seal signer r w = (Ok sealed, w1) ->
  HttpRequest.header r' "x-openproof-context-signature" = HttpRequest.header sealed "x-openproof-context-signature" ->
  HttpRequest.header r' "x-openproof-context-issued-at" = HttpRequest.header sealed "x-openproof-context-issued-at" ->
  clock_now w' = (t', w1') ->
  (Z.abs (t' - t) <= m_maximumAge signer ->
   same_context sealed r' -> verify signer r' w' = (Ok tt, w1')) /\
  (forall w2, verify signer r' w' = (Ok tt, w2) ->
     Z.abs (t' - t) <= m_maximumAge signer /\
     (same_context sealed r' \/
      exists p q digest, p <> q /\ hmacSha256 context_key p = Ok digest /\ hmacSha256 context_key q = Ok digest)).
Proof.
  intros Hc Ht Hseal Hsig Hat Hc'. apply seal_run in Hseal as (t0 & digest & Hc0 & Hd & ->).
  rewrite Hc in Hc0. injection Hc0 as <-. cbv zeta in *.
  set (stamped := HttpRequest.setHeader "x-openproof-context-issued-at" (to_string t) r) in *.
  assert (Hsigned : HttpRequest.header r' "x-openproof-context-signature" = Some (toHex digest)).
  { rewrite Hsig. unfold HttpRequest.header. by rewrite header_set. }
  assert (Hissued : HttpRequest.header r' "x-openproof-context-issued-at" = Some (to_string t)).
  { rewrite Hat. unfold HttpRequest.header, stamped. by rewrite !header_set. }
  assert (Hlen : length digest = 32%nat) by (by eapply hmac_deterministic_length).
  assert (Hctx : same_context (HttpRequest.setHeader "x-openproof-context-signature" (toHex digest) stamped) r'
                 <-> trustedContextPayload stamped = trustedContextPayload r').
  { by rewrite <-payload_context, payload_unsigned. }
  assert (Hrun : verify signer r' w' =
    if (t' + m_maximumAge signer <? t) || (t + m_maximumAge signer <? t') then
      (Err (Error_ofMessage AuthenticationFailed "The trusted gateway context is stale."), w1')
    else match hmacSha256 context_key (trustedContextPayload r') with
         | Ok expected => if negb (length digest =? length expected)%nat || negb (constantTimeEquals expected digest)
                          then lift TrustedContextSigner.invalidContext w1' else (Ok tt, w1')
         | _ => lift TrustedContextSigner.invalidContext w1'
         end).
  { unfold verify. rewrite Hsigned, Hissued, toHex_length.
    assert ((2 * length digest =? 64)%nat = true) as -> by (by rewrite Hlen). cbn [negb].
    unfold from_chars_int64. rewrite from_chars_to_string by lia.
    unfold mbind, prog_bind, now. rewrite Hc'. destruct (_ || _); [done|].
    rewrite fromHex_toHex. unfold context_key.
    destruct (hmacSha256 _ (trustedContextPayload r')); [|done..]. by destruct (_ || _). }
  rewrite Hrun. split.
  - intros Hfresh Hp%Hctx. rewrite (proj2 (orb_false_iff _ _)) by (split; apply Z.ltb_ge; lia).
    rewrite <-Hp, Hd, Nat.eqb_refl. cbn [negb orb]. by rewrite constant_time_equals_spec, bool_decide_eq_true_2.
  - intros w2. destruct (_ || _) eqn:Hf; [done|]. apply orb_false_iff in Hf as [Hf1%Z.ltb_ge Hf2%Z.ltb_ge].
    destruct (hmacSha256 _ (trustedContextPayload r')) as [expected| |] eqn:He; [|done..].
    destruct (_ || _) eqn:Hq; [done|]. intros _. split; [lia|].
    apply orb_false_iff in Hq as [_ Hq%negb_false_iff]. rewrite constant_time_equals_spec in Hq. apply bool_decide_eq_true in Hq. subst expected.
    destruct (decide (trustedContextPayload stamped = trustedContextPayload r')) as [Hp|Hp]; [left; by apply Hctx|right].
    exists (trustedContextPayload stamped), (trustedContextPayload r'), digest. by split_and!.
Qed.
End context.

Module TrustedContextWitnesses.
Import TestPlatform.
Definition signer : TrustedContextSigner.t :=
  TrustedContextSigner.mk (TrustedContextKey.mk "0123456789abcdef0123456789abcdef") (minutes 1).
Definition request : HttpRequest.t :=
  HttpRequest.mk Get "/orders?page=2" "/orders" {[ "x-openproof-identity" := "alice" ]} "" "10.0.0.9" (mkId "r-1").
Definition stamp (r : Result HttpRequest.t) : HttpRequest.t := match r with Ok r => r | _ => request end.
Definition sealed : HttpRequest.t := stamp (TrustedContextSigner.seal (Plat:=test) signer request (1000 : @world test)).1.

(** A sealed request verifies half a minute later. *)
Lemma sealed_context_is_bound_witness :
  TrustedContextSigner.verify (Plat:=test) signer sealed (31000 : @world test) = (Ok tt, (31001 : @world test)).
Proof.
  destruct (sealed_context_is_bound (Plat:=test) signer request 1000 sealed 1001 1000 sealed 31000 31000 31001)
    as [Hok _]; [reflexivity|lia|vm_compute; reflexivity|reflexivity|reflexivity|reflexivity|].
  apply Hok; [vm_compute; discriminate|]. split_and!; done.
Defined.
End TrustedContextWitnesses.
