(* ===== verification/Enforcement.v ===== *)
(** * openproof.gateway: what reaches an upstream service

    The transport of a gateway is wrapped by one that records what is sent. The
    theorems speak of every record of a run of [Gateway::handle], whatever the
    sessions, the token service, the access controller, the discovery, the
    balancer, the circuits and the upstream services answer. *)
From S2P Require Import Prelude Foundation Encoding Json Security Provider IdentityCore Organizations Wire Authentication Session SessionService Policy Double Http Gateway Routing TrustedContext.

(** ** Recording *)

Abbreviation record_log := (list (Endpoint.t * HttpRequest.t)).

(** An operation of the foreign state, beside the record. *)
Definition beside {U W A} (m : prog (U * W) Error A) : prog ((U * record_log) * W) Error A :=
  zoom (fun s => (s.1.1, s.2)) (fun x s => ((x.1, s.1.2), x.2)) m.

Definition recording {X U W} (i : interfaces X U W) : interfaces X (U * record_log) W := {|
  authorize a r c := beside (authorize i a r c);
  resolve service := beside (resolve i service);
  send endpoint request timeout s :=
    let '(answer, x) := send i endpoint request timeout (s.1.1, s.2) in
    (answer, ((x.1, s.1.2 ++ [(endpoint, request)]), x.2));
  authenticateDelegated := authenticateDelegated i;
  verifySender :=
    (fun verify constraint credential dpop s =>
       let '(answer, (request, x)) := verify constraint credential dpop (s.1, (s.2.1.1, s.2.2)) in
       (answer, (request, ((x.1, s.2.1.2), x.2)))) <$> verifySender i;
|}.

Section enforcement.
Context `{Plat : Platform} {S X U : Type} `{!SessionRepository S}.
Context (g : Gateway.t (X:=X) (U:=U)).

Definition recorded : Gateway.t (X:=X) (U:=U * record_log) :=
  Gateway.mk (Gateway.m_router g) (Gateway.m_sessionKey g) (Gateway.m_circuits g) (Gateway.m_contextSigner g)
    (Gateway.m_upstreamTimeout g) (recording (Gateway.m_interfaces g)).

Abbreviation LS := (gateway S X (U * record_log) world).
Implicit Types (s : LS) (request r : HttpRequest.t).

Definition log s : record_log := (g_outside s).2.

(** The gateway with nothing recorded. *)
Definition unrecorded (s : gateway S X U world) : LS :=
  mkGateway (g_service s) (g_limiter s) (g_balancer s) (g_circuits s) (g_outside s, []).

(** What a run of [handle] sends. *)
Definition sent_by request (s : gateway S X U world) : record_log :=
  log (Gateway.handle recorded request (unrecorded s)).2.

Definition same_log : relation LS := fun s s' => log s = log s'.
#[global] Instance same_log_preorder : PreOrder same_log.
Proof. split; [done|]. intros s1 s2 s3 H1 H2. unfold same_log in *. congruence. Qed.

Abbreviation quiet m := (advances same_log m).

Lemma quiet_zoom {T A} (get_part : LS -> T) put_part (m : prog T Error A) :
  (forall x s, log (put_part x s) = log s) -> quiet (zoom get_part put_part m).
Proof. intros H s. unfold zoom. destruct (m (get_part s)) as [a x]. unfold same_log. symmetry. apply H. Qed.

Lemma quiet_still {A} (m : prog LS Error A) : (forall s, (m s).2 = s) -> quiet m.
Proof. apply (advances_still same_log). Qed.
Lemma quiet_seq {A B} (m : prog LS Error A) (k : A -> prog LS Error B) :
  quiet m -> (forall a, quiet (k a)) -> quiet (m ≫= k).
Proof. apply (advances_bind same_log). Qed.

Lemma quiet_service {A} (m : prog (service S X world) Error A) : quiet (Gateway.on_service m).
Proof. by apply quiet_zoom. Qed.
Lemma quiet_limiter {A} (m : prog (with_world TokenBucketRateLimiter.t world) Error A) : quiet (Gateway.on_limiter m).
Proof. by apply quiet_zoom. Qed.
Lemma quiet_balancer {A} (m : prog WeightedRoundRobin.t Error A) : quiet (Gateway.on_balancer m).
Proof. by apply quiet_zoom. Qed.
Lemma quiet_circuits {A} (m : prog (with_world CircuitBreaker.t world) Error A) : quiet (Gateway.on_circuits m).
Proof. by apply quiet_zoom. Qed.
Lemma quiet_world {A} (m : prog world Error A) : quiet (Gateway.on_world m).
Proof. by apply quiet_zoom. Qed.

Lemma quiet_outside {A} (m : prog ((U * record_log) * world) Error A) :
  (forall x, (m x).2.1.2 = x.1.2) -> quiet (Gateway.on_outside m).
Proof.
  intros H s. unfold Gateway.on_outside, zoom. specialize (H (g_outside s, s_world (g_service s))).
  destruct (m _) as [a x]. unfold same_log, log. cbn in *. congruence.
Qed.

Lemma quiet_beside {A} (m : prog (U * world) Error A) : quiet (Gateway.on_outside (beside m)).
Proof. apply quiet_outside. intros x. unfold beside, zoom. by destruct (m _). Qed.

(** What is in the record after a sequence whose first part sends nothing was
    sent by the rest. *)
Lemma sent_bind {A B} (m : prog LS Error A) (k : A -> prog LS Error B) s p :
  quiet m -> log s = [] -> p ∈ log ((m ≫= k) s).2 ->
  exists a s1, m s = (Ok a, s1) /\ log s1 = [] /\ p ∈ log (k a s1).2.
Proof.
  intros Hq Hs Hp. specialize (Hq s). unfold same_log in Hq. unfold mbind, prog_bind in Hp.
  destruct (m s) as [[a|e|] s1]; cbn [snd] in *; [exists a, s1; by split_and!; [|congruence|]|..];
    rewrite <-Hq, Hs in Hp; by apply not_elem_of_nil in Hp.
Qed.

Lemma sent_nothing {A} (e : Error) s p : log s = [] -> p ∉ log (throw (A:=A) e s).2.
Proof. unfold throw. cbn [snd]. intros ->. by apply not_elem_of_nil. Qed.

(** ** Forwarding *)

(** The record grew by one request sent to distinct endpoints. *)
Definition sent_along request (endpoints : list Endpoint.t) (excluded : list EndpointId) (room : nat)
    (l l' : record_log) : Prop :=
  exists es : list Endpoint.t,
    l' = l ++ ((fun e => (e, request)) <$> es) /\ NoDup (Endpoint.id <$> es) /\ (length es <= room)%nat /\
    (forall e, e ∈ es -> e ∈ endpoints /\ Endpoint.id e ∉ excluded).

Lemma sent_along_refl request endpoints excluded room l : sent_along request endpoints excluded room l l.
Proof.
  exists []. cbn. rewrite app_nil_r. split_and!; [done|constructor|lia|]. by intros e ?%not_elem_of_nil.
Qed.

Lemma sent_along_skip request endpoints excluded x room l l' :
  sent_along request endpoints (excluded ++ [x]) room l l' -> sent_along request endpoints excluded room l l'.
Proof.
  intros (es & -> & Hn & Hl & He). exists es. split_and!; [done|done|done|]. intros e Hin.
  destruct (He e Hin) as [? Hx]. split; [done|]. intros Hm. apply Hx, elem_of_app. by left.
Qed.

Lemma sent_along_cons request endpoints excluded endpoint room l l' :
  endpoint ∈ endpoints -> Endpoint.id endpoint ∉ excluded ->
  sent_along request endpoints (excluded ++ [Endpoint.id endpoint]) room (l ++ [(endpoint, request)]) l' ->
  sent_along request endpoints excluded (Datatypes.S room) l l'.
Proof.
  intros Hin Hex (es & -> & Hn & Hl & He). exists (endpoint :: es). split_and!.
  - by rewrite <-app_assoc.
  - rewrite fmap_cons. constructor; [|done]. intros (e & Hid & Hie)%list_elem_of_fmap.
    destruct (He e Hie) as [_ Hx]. apply Hx, elem_of_app. right. rewrite Hid. by left.
  - simpl. lia.
  - intros e [->|Hie]%elem_of_cons; [done|]. destruct (He e Hie) as [? Hx]. split; [done|].
    intros Hm. apply Hx, elem_of_app. by left.
Qed.

(** A sequence that begins with a quiet part. *)
Lemma quiet_bind (P : record_log -> Prop) {A B} (m : prog LS Error A) (k : A -> prog LS Error B) s :
  quiet m -> P (log s) -> (forall a s1, m s = (Ok a, s1) -> log s1 = log s -> P (log (k a s1).2)) ->
  P (log ((m ≫= k) s).2).
Proof.
  intros Hq H0 Hk. specialize (Hq s). unfold same_log in Hq. unfold mbind, prog_bind.
  destruct (m s) as [[a|e|] s1]; cbn [snd] in *; [by apply Hk|by rewrite <-Hq..].
Qed.

Lemma send_log endpoint request s :
  log (Gateway.on_outside (send (Gateway.m_interfaces recorded) endpoint request (Gateway.m_upstreamTimeout recorded)) s).2
  = log s ++ [(endpoint, request)].
Proof. unfold Gateway.on_outside, zoom. simpl. by destruct (send _ _ _ _ _). Qed.

Lemma forwardLoop_log fuel route request endpoints attempts excluded sent lastFailure s :
  sent_along request endpoints excluded (attempts - sent) (log s)
    (log (Gateway.forwardLoop recorded fuel route request endpoints attempts excluded sent lastFailure s).2).
Proof.
  revert excluded sent lastFailure s.
  induction fuel as [|fuel IH]; intros excluded sent lastFailure s; cbn [Gateway.forwardLoop].
  { destruct (bool_decide _); apply sent_along_refl. }
  destruct (negb _) eqn:Hgo; [destruct (bool_decide _); apply sent_along_refl|].
  apply negb_false_iff, andb_true_iff in Hgo as [Hgo%Nat.ltb_lt _].
  apply (quiet_bind (sent_along _ _ _ _ (log s))); [apply advances_attempt, quiet_balancer|apply sent_along_refl|].
  intros chosen s1 Hchosen Hl1. destruct chosen as [endpoint|e|];
    [|destruct (bool_decide _); cbn; rewrite Hl1; apply sent_along_refl..].
  assert (Hsub : endpoint ∈ endpoints /\ Endpoint.id endpoint ∉ excluded).
  { unfold attempt, Gateway.on_balancer, zoom in Hchosen.
    destruct (WeightedRoundRobin.choose _ _ _ _) as [[x|x|] m] eqn:Hc; [|done..].
    injection Hchosen as -> _. by apply choose_sub in Hc. }
  destruct Hsub as [Hin Hex]. cbv zeta.
  apply (quiet_bind (sent_along _ _ _ _ (log s))); [apply quiet_circuits|rewrite Hl1; apply sent_along_refl|].
  intros allowed s2 _ Hl2. rewrite Hl1 in Hl2. destruct (negb allowed).
  { apply (sent_along_skip _ _ _ (Endpoint.id endpoint)). rewrite <-Hl2. apply IH. }
  replace (attempts - sent)%nat with (Datatypes.S (attempts - Datatypes.S sent)) by lia.
  apply (sent_along_cons _ _ _ endpoint); [done|done|]. rewrite <-Hl2, <-send_log. clear Hl1 Hl2 Hchosen.
  unfold mbind at 1, prog_bind at 1. unfold attempt at 1.
  destruct (Gateway.on_outside _ s2) as [response s3]. cbn [snd].
  destruct response as [response|e|]; [|apply (quiet_bind (sent_along _ _ _ _ (log s3)))|apply sent_along_refl].
  - cbv zeta. destruct (_ || _); (apply (quiet_bind (sent_along _ _ _ _ (log s3)));
      [apply quiet_circuits|apply sent_along_refl|intros a s4 _ <-; apply sent_along_refl]).
  - apply quiet_circuits.
  - apply sent_along_refl.
  - intros a s4 _ <-. apply IH.
Qed.

(** ** Admission *)

(** A credential the request presents. *)
Definition presented request (token : string) : Prop :=
  HttpRequest.headers request !! "authorization" = Some ("Bearer " +:+ token) \/
  HttpRequest.headers request !! "authorization" = Some ("DPoP " +:+ token) \/
  exists cookie item, HttpRequest.headers request !! "cookie" = Some cookie /\ item ∈ split_on cookie ";" /\
    sessionCookieValue (trim item) = Some token.

(** The credential opened a session, or delegated access. *)
Inductive authenticates (credential : string) : AuthenticatedSession.t -> option DelegatedAccess.t -> Prop :=
  | by_session x accepted x' :
      SessionService.authenticate (X:=X) (Gateway.m_sessionKey g) credential x = (Ok accepted, x') ->
      authenticates credential accepted None
  | by_delegation delegated xw access xw' :
      authenticateDelegated (Gateway.m_interfaces g) = Some delegated ->
      delegated credential xw = (Ok access, xw') ->
      authenticates credential (DelegatedAccess.authenticated access) (Some access).

(** A sender-constrained token came with its proof, and nothing else with the
    scheme of one. *)
Definition possessed (credential : string) (dpop : bool) (delegated : option DelegatedAccess.t) : Prop :=
  match delegated ≫= DelegatedAccess.senderConstraint with
  | Some constraint =>
      exists verify x x', verifySender (Gateway.m_interfaces g) = Some verify /\
        verify constraint credential dpop x = (Ok tt, x')
  | None => dpop = false
  end.

(** What a caller must have to be admitted along a route. *)
Definition admitted_along (route : Route.t) (correlation : CorrelationId) (accepted : AuthenticatedSession.t)
    (delegated : option DelegatedAccess.t) : Prop :=
  (Route.requiredScope route <> "" ->
     exists access, delegated = Some access /\ DelegatedAccess.permits access (Route.requiredScope route) = true) /\
  (Route.requiredAudience route <> "" ->
     exists access, delegated = Some access /\ DelegatedAccess.permitsAudience access (Route.requiredAudience route) = true) /\
  exists u decision u', authorize (Gateway.m_interfaces g) accepted route correlation u = (Ok decision, u') /\
    AuthorizationDecision.isPermitted decision = true.

Lemma lacks_false permits delegated required :
  Gateway.lacks permits delegated required = false -> required <> "" ->
  exists access, delegated = Some access /\ permits access required = true.
Proof.
  unfold Gateway.lacks. intros H Hne. rewrite bool_decide_eq_false_2 in H by done. cbn [negb andb] in H.
  destruct delegated as [access|]; [|done]. exists access. split; [done|]. by apply negb_false_iff.
Qed.

(** The verifier of the sender's proof only takes fields out of the request. *)
Definition verifier_only_removes : Prop :=
  forall verify constraint credential dpop r x r' x',
    verifySender (Gateway.m_interfaces g) = Some verify ->
    verify constraint credential dpop (r, x) = (Ok tt, (r', x')) -> fewer_headers r r'.

Lemma authenticateCaller_ok credential s accepted delegated s' :
  Gateway.authenticateCaller recorded credential s = (Ok (accepted, delegated), s') ->
  authenticates credential accepted delegated.
Proof.
  unfold Gateway.authenticateCaller. intros (a & s1 & Ha & H)%prog_bind_ok.
  unfold attempt, Gateway.on_service, zoom in Ha.
  destruct (SessionService.authenticate _ _ _) as [[x|e|] y] eqn:Hs; [|..|done]; injection Ha as <- <-.
  - injection H as <- <- <-. by eapply by_session.
  - cbn [recorded Gateway.m_interfaces recording authenticateDelegated] in H.
    destruct (authenticateDelegated (Gateway.m_interfaces g)) as [d|] eqn:Hd; [|done].
    apply prog_bind_ok in H as (access & s2 & Hz & H). injection H as <- <- _.
    unfold Gateway.on_service in Hz. apply zoom_eq in Hz as (y2 & Hz & _).
    unfold SessionService.on_delegated in Hz. apply zoom_eq in Hz as (xw & Hz & _).
    by eapply by_delegation.
Qed.

Lemma quiet_authenticateCaller credential : quiet (Gateway.authenticateCaller recorded credential).
Proof.
  unfold Gateway.authenticateCaller. apply quiet_seq; [apply advances_attempt, quiet_service|].
  intros [x|e|]; [by apply quiet_still| |by apply quiet_still].
  destruct (authenticateDelegated _); [|by apply quiet_still].
  apply quiet_seq; [apply quiet_service|]. intros access. by apply quiet_still.
Qed.

Lemma verifyPossession_ok delegated credential dpop r s r' s' :
  verifier_only_removes ->
  Gateway.verifyPossession recorded delegated credential dpop r s = (Ok r', s') ->
  fewer_headers r r' /\ possessed credential dpop delegated.
Proof.
  intros Hv. unfold Gateway.verifyPossession, possessed.
  destruct delegated as [access|]; [|cbn; destruct dpop; [done|]; by intros [= <- _]]. cbn [mbind option_bind].
  destruct (DelegatedAccess.senderConstraint access) as [constraint|]; [|destruct dpop; [done|]; by intros [= <- _]].
  cbn [recorded Gateway.m_interfaces recording verifySender].
  destruct (verifySender (Gateway.m_interfaces g)) as [verify|] eqn:Hverify; [|done].
  cbn [fmap option_fmap option_map]. unfold Gateway.on_outside. intros (x & Hx & _)%zoom_eq.
  cbn [fst snd] in Hx.
  destruct (verify _ _ _ _) as [answer [req y]] eqn:Hrun. destruct answer as [[]|e|]; [|done..].
  injection Hx as -> _. split; [by eapply Hv|]. by eexists _, _, _.
Qed.

Lemma quiet_verifyPossession delegated credential dpop r :
  quiet (Gateway.verifyPossession recorded delegated credential dpop r).
Proof.
  unfold Gateway.verifyPossession. repeat case_match; try by apply quiet_still.
  apply quiet_outside. intros [[u l] w]. cbn [recorded Gateway.m_interfaces recording verifySender] in *.
  destruct (verifySender (Gateway.m_interfaces g)) as [verify|]; [|done]. simplify_eq/=.
  by destruct (verify _ _ _ _) as [[] [? ?]].
Qed.

Definition dpop_scheme request : bool :=
  match HttpRequest.header request "authorization" with
  | Some authorization => starts_with authorization "DPoP "
  | None => false
  end.

Lemma quiet_demandCredential r : quiet (Gateway.demandCredential r).
Proof.
  apply quiet_still. intros s. unfold Gateway.demandCredential.
  by destruct (takeSessionCredential r) as [[[]| |] ?].
Qed.

Lemma demandCredential_ok r credential r' s s' :
  Gateway.demandCredential r s = (Ok (credential, r'), s') -> takeSessionCredential r = (Ok (Some credential), r').
Proof.
  unfold Gateway.demandCredential. destruct (takeSessionCredential r) as [[[c|]| |] r1]; try done.
  by intros [= -> -> _].
Qed.

Lemma admit_ok route r s r' s' :
  verifier_only_removes -> Gateway.admitCaller recorded route r s = (Ok r', s') ->
  exists credential accepted delegated r1 r2,
    takeSessionCredential r = (Ok (Some credential), r1) /\ authenticates credential accepted delegated /\
    fewer_headers r1 r2 /\ possessed credential (dpop_scheme r) delegated /\
    admitted_along route (HttpRequest.correlation r2) accepted delegated /\
    r' = Gateway.identify (AuthenticatedSession.session accepted) delegated route r2.
Proof.
  intros Hv. unfold Gateway.admitCaller. fold (dpop_scheme r). cbv zeta.
  intros ([credential r1] & s1 & Hc & Hrun)%prog_bind_ok. apply demandCredential_ok in Hc.
  apply prog_bind_ok in Hrun as ([accepted delegated] & s2 & Ha & Hrun). apply authenticateCaller_ok in Ha.
  apply prog_bind_ok in Hrun as (r2 & s3 & Hp & Hrun). apply verifyPossession_ok in Hp as [Hf Hp]; [|done].
  destruct (_ || _) eqn:Hl; [done|]. apply orb_false_iff in Hl as [Hscope Haud].
  apply prog_bind_ok in Hrun as (allowed & s4 & _ & Hrun). destruct (negb allowed); [done|].
  apply prog_bind_ok in Hrun as (decision & s5 & Hd & Hrun). destruct (negb _) eqn:Hperm; [done|].
  injection Hrun as <- _. apply negb_false_iff in Hperm.
  unfold Gateway.on_outside in Hd. apply zoom_eq in Hd as (x & Hd & _). cbn [recorded Gateway.m_interfaces recording authorize] in Hd.
  unfold beside in Hd. apply zoom_eq in Hd as (u & Hd & _).
  exists credential, accepted, delegated, r1, r2. split_and!; try done.
  split_and!; [by apply lacks_false|by apply lacks_false|]. by eexists _, decision, _.
Qed.

Lemma quiet_admit route r : quiet (Gateway.admitCaller recorded route r).
Proof.
  unfold Gateway.admitCaller. cbv zeta. apply quiet_seq; [apply quiet_demandCredential|]. intros [credential r1].
  apply quiet_seq; [apply quiet_authenticateCaller|]. intros [accepted delegated].
  apply quiet_seq; [apply quiet_verifyPossession|]. intros r2. destruct (_ || _); [by apply quiet_still|].
  apply quiet_seq; [apply quiet_limiter|]. intros allowed. destruct (negb allowed); [by apply quiet_still|].
  apply quiet_seq; [apply quiet_beside|]. intros decision. destruct (negb _); by apply quiet_still.
Qed.

(** One sealed request went to endpoints of the service of a route. *)
Definition forwarded route r1 (l : record_log) : Prop :=
  l = [] \/ exists sent w w1 es endpoints u u',
    TrustedContextSigner.seal (Gateway.m_contextSigner g)
      (HttpRequest.setHeader "x-openproof-request-id" (id_value (HttpRequest.correlation r1)) r1) w = (Ok sent, w1) /\
    resolve (Gateway.m_interfaces g) (Route.service route) u = (Ok endpoints, u') /\
    l = (fun e => (e, sent)) <$> es /\ NoDup (Endpoint.id <$> es) /\ (forall e, e ∈ es -> e ∈ endpoints) /\
    (length es <= Gateway.attemptsFor (HttpRequest.method sent) endpoints)%nat.

Lemma forward_log route r1 s : log s = [] -> forwarded route r1 (log (Gateway.forward recorded route r1 s).2).
Proof.
  intros H0. unfold Gateway.forward. cbv zeta.
  apply (quiet_bind (forwarded route r1)); [apply quiet_world|by left|]. intros sent s1 Hseal H1.
  unfold Gateway.on_world in Hseal. apply zoom_eq in Hseal as (w1 & Hseal & _).
  apply (quiet_bind (forwarded route r1)); [apply quiet_beside|left; by rewrite H1|]. intros endpoints s2 Hres H2.
  unfold Gateway.on_outside in Hres. apply zoom_eq in Hres as (x & Hres & _).
  cbn [recorded Gateway.m_interfaces recording resolve] in Hres. unfold beside in Hres.
  apply zoom_eq in Hres as (u' & Hres & _).
  destruct (forwardLoop_log (length endpoints) route sent endpoints
    (Gateway.attemptsFor (HttpRequest.method sent) endpoints) [] 0 (Error_ofCode Unavailable) s2) as (es & Hl & Hn & Hlen & He).
  right. exists sent, (s_world (g_service s)), w1, es, endpoints. eexists _, _. split_and!; [exact Hseal|exact Hres|..].
  - rewrite Hl, H2, H1, H0. done.
  - done.
  - intros e Hin. by apply He.
  - lia.
Qed.

(** The whole of [handle]: the request is routed, admitted when the route is
    protected, and forwarded. *)
Definition handled request (l : record_log) : Prop :=
  l = [] \/ exists route r1,
    Router.match_ (Gateway.m_router g) (HttpRequest.method request) (HttpRequest.path request) = Some route /\
    (let stripped := stripHopByHop (stripTrustedIdentityHeaders request) in
     if Route.isProtected route then exists s0 s1, Gateway.admitCaller recorded route stripped s0 = (Ok r1, s1)
     else r1 = stripped) /\
    forwarded route r1 l.

Lemma handle_log request s : log s = [] -> handled request (log (Gateway.handle recorded request s).2).
Proof.
  intros H0. assert (log (Gateway.handle recorded request s).2 = log (Gateway.serve recorded request s).2) as ->.
  { unfold Gateway.handle. by destruct (Gateway.serve _ _ _) as [[] ?]. }
  unfold Gateway.serve. cbn [recorded Gateway.m_router].
  destruct (Router.match_ _ _ _) as [route|] eqn:Hroute; [|by left].
  apply (quiet_bind (handled request)); [apply quiet_limiter|by left|]. intros allowed s1 _ H1. rewrite H0 in H1.
  destruct (negb allowed); [by left|]. cbv zeta.
  apply (quiet_bind (handled request)); [|by left|].
  - destruct (Route.isProtected route); [apply quiet_admit|by apply quiet_still].
  - intros r1 s2 Hr Hs2. rewrite H1 in Hs2. right. exists route, r1. split; [done|]. split; [|by apply forward_log].
    cbv zeta. destruct (Route.isProtected route); [by eexists _, _|by injection Hr as ->].
Qed.

(** ** The request that was admitted *)

Definition cleaned request : HttpRequest.t := stripHopByHop (stripTrustedIdentityHeaders request).

(** Who a request is forwarded for: nobody, or a session with or without
    delegated access. *)
Abbreviation caller := (option (AuthenticatedSession.t * option DelegatedAccess.t)).

(** The context fields of a forwarded request. *)
Definition context_fields (route : Route.t) (c : caller) : Headers :=
  match c with
  | None => ∅
  | Some (accepted, delegated) =>
      let session := AuthenticatedSession.session accepted in
      let fields : Headers :=
        <["x-openproof-organization" := id_value (Route.organization route)]>
        (<["x-openproof-assurance" := assuranceLevelName (Session.assurance session)]>
        (<["x-openproof-provider" := id_value (Session.provider session)]>
        (<["x-openproof-identity" := id_value (Session.identity session)]> ∅))) in
      match delegated with
      | None => fields
      | Some access =>
          <["x-openproof-scopes" := Gateway.join_scopes (DelegatedAccess.scopes access) ""]>
          (<["x-openproof-client-id" := DelegatedAccess.clientId access]> fields)
      end
  end.

(** How the caller earned it. *)
Definition earned request route (c : caller) : Prop :=
  match c with
  | None => Route.isProtected route = false
  | Some (accepted, delegated) =>
      Route.isProtected route = true /\
      exists credential, presented (cleaned request) credential /\ authenticates credential accepted delegated /\
        possessed credential (dpop_scheme (cleaned request)) delegated /\
        admitted_along route (HttpRequest.correlation request) accepted delegated
  end.

Lemma identify_headers accepted delegated route r :
  HttpRequest.headers (Gateway.identify (AuthenticatedSession.session accepted) delegated route r)
  = context_fields route (Some (accepted, delegated)) ∪ HttpRequest.headers r.
Proof.
  unfold Gateway.identify, context_fields, HttpRequest.setHeader. cbv zeta.
  destruct delegated; cbn [HttpRequest.with_headers HttpRequest.headers];
    rewrite <-!insert_union_l, map_empty_union; reflexivity.
Qed.

Lemma identify_line session delegated route r : same_line r (Gateway.identify session delegated route r).
Proof. by destruct delegated. Qed.

Definition trusted_name (k : string) : bool := starts_with k kTrustedPrefix.

Lemma context_fields_trusted route c k v : context_fields route c !! k = Some v -> trusted_name k = true.
Proof.
  destruct c as [[accepted [access|]]|]; cbn [context_fields]; cbv zeta; intros H; [..|by rewrite lookup_empty in H];
    repeat (apply lookup_insert_Some in H as [[<- _]|[_ H]]; [reflexivity|]); by rewrite lookup_empty in H.
Qed.

Lemma fewer_absent r r' k :
  fewer_headers r r' -> HttpRequest.headers r !! k = None -> HttpRequest.headers r' !! k = None.
Proof. intros [_ H] Hk. by eapply lookup_weaken_None. Qed.

Lemma fewer_present r r' k v :
  fewer_headers r r' -> HttpRequest.headers r' !! k = Some v -> HttpRequest.headers r !! k = Some v.
Proof. intros [_ H] Hk. by eapply lookup_weaken. Qed.

Lemma cleaned_fewer request : fewer_headers request (cleaned request).
Proof. unfold cleaned. etrans; [apply fewer_erase_all|apply fewer_strip_hop]. Qed.

Lemma cleaned_trusted request k :
  canonical_names (HttpRequest.headers request) -> trusted_name k = true ->
  HttpRequest.headers (cleaned request) !! k = None.
Proof.
  intros Hc Hk. unfold cleaned. eapply fewer_absent; [apply fewer_strip_hop|].
  rewrite stripped_trusted by done. unfold trusted_name in Hk. by rewrite Hk.
Qed.

Lemma cleaned_hop request h : h ∈ hopByHopHeaders -> HttpRequest.headers (cleaned request) !! h = None.
Proof.
  intros Hh. unfold cleaned, stripHopByHop. rewrite header_erase_all. rewrite decide_True; [done|].
  unfold hopByHopHeaders in *. repeat (apply elem_of_cons in Hh as [->|Hh]; [cbn; set_solver|]).
  by apply not_elem_of_nil in Hh.
Qed.

(** What the request admitted along a route is made of: fields of the cleaned
    one, the credential taken out, and the context fields. *)
Definition prepared request route (c : caller) r1 : Prop :=
  exists r2, same_line request r2 /\
    HttpRequest.headers r1 = context_fields route c ∪ HttpRequest.headers r2 /\ same_line r2 r1 /\
    (forall k, HttpRequest.headers (cleaned request) !! k = None -> HttpRequest.headers r2 !! k = None) /\
    (forall k v, k <> "cookie" -> HttpRequest.headers r2 !! k = Some v -> HttpRequest.headers request !! k = Some v) /\
    (c <> None -> HttpRequest.headers r2 !! "authorization" = None /\ no_session_cookie r2).

Lemma no_session_cookie_fewer r r' : fewer_headers r r' -> no_session_cookie r -> no_session_cookie r'.
Proof. intros Hf Hn cookie item Hc. eapply Hn, fewer_present; done. Qed.

Lemma takeSessionCredential_absent r credential r' k :
  takeSessionCredential r = (Ok credential, r') ->
  HttpRequest.headers r !! k = None -> HttpRequest.headers r' !! k = None.
Proof.
  unfold takeSessionCredential. intros (b & r1 & Hb & H)%prog_bind_ok Hk. apply prog_bind_ok in H as (c & r2 & Hc & H).
  apply takeBearer_ok in Hb as (Hf & _). apply fewer_absent with (k := k) in Hf; [|done].
  assert (r' = r2) as ->.
  { destruct b, c; by injection H. }
  destruct (decide (k = "cookie")) as [->|Hne].
  - unfold takeCookie, HttpRequest.header in Hc. change (lowercase "cookie") with "cookie" in Hc. rewrite Hf in Hc.
    by injection Hc as _ <-.
  - apply takeCookie_ok in Hc as (_ & _ & Hs & _). by rewrite Hs.
Qed.

Lemma admitted_request route request r1 :
  verifier_only_removes ->
  (if Route.isProtected route then exists s0 s1, Gateway.admitCaller recorded route (cleaned request) s0 = (Ok r1, s1)
   else r1 = cleaned request) ->
  exists c, earned request route c /\ prepared request route c r1.
Proof.
  intros Hv. pose proof (cleaned_fewer request) as Hclean. destruct (Route.isProtected route) eqn:Hprot.
  - intros (s0 & s1 & Hadmit). apply admit_ok in Hadmit as (cred & accepted & delegated & q1 & q2 & Htake & Hauth & Hf & Hpos & Hadm & ->); [|done].
    exists (Some (accepted, delegated)).
    pose proof (fun k => takeSessionCredential_absent _ _ _ k Htake) as Habs.
    apply takeSessionCredential_ok in Htake as (Hl & Ha & Hn & Hsame & Htok).
    assert (Hline : same_line request q2) by (etrans; [exact (proj1 Hclean)|]; etrans; [exact Hl|exact (proj1 Hf)]).
    split.
    + split; [done|]. exists cred. split_and!; [|done|done|].
      * destruct (Htok _ eq_refl) as [_ [|[|[_ ?]]]]; unfold presented; auto.
      * destruct Hline as (_ & _ & _ & _ & _ & ->). done.
    + exists q2. split_and!; [done|apply identify_headers|apply identify_line|..].
      * intros k Hk. eapply fewer_absent; [exact Hf|auto].
      * intros k v Hk Hq. eapply fewer_present; [exact Hclean|]. apply (fewer_present _ _ _ _ Hf) in Hq.
        destruct (decide (k = "authorization")) as [->|Hka]; [congruence|]. by rewrite <-Hsame.
      * intros _. split; [by eapply fewer_absent|by eapply no_session_cookie_fewer].
  - intros ->. exists None. split; [done|]. exists (cleaned request). split_and!; [exact (proj1 Hclean)| |done|done| |done].
    + cbn [context_fields]. by rewrite map_empty_union.
    + intros k v _. by apply fewer_present.
Qed.

Lemma sealed_request route request c r1 w sent w1 :
  prepared request route c r1 ->
  TrustedContextSigner.seal (Gateway.m_contextSigner g)
    (HttpRequest.setHeader "x-openproof-request-id" (id_value (HttpRequest.correlation r1)) r1) w = (Ok sent, w1) ->
  same_line request sent /\
  forall k, k <> "x-openproof-context-issued-at" -> k <> "x-openproof-context-signature" ->
    HttpRequest.headers sent !! k
    = (<["x-openproof-request-id" := id_value (HttpRequest.correlation request)]> (HttpRequest.headers r1)) !! k.
Proof.
  intros (r2 & Hl & _ & Hl1 & _) Hseal. apply seal_run in Hseal as (t & digest & _ & _ & ->).
  assert (Hline : same_line request r1) by (by etrans). split.
  - etrans; [exact Hline|]. done.
  - intros k H1 H2. rewrite !header_set, !decide_False by done. destruct Hline as (_ & _ & _ & _ & _ & ->).
    case_decide as E; [rewrite E|]; change (lowercase "x-openproof-request-id") with "x-openproof-request-id" in *;
      [by rewrite lookup_insert_eq|by rewrite lookup_insert_ne].
Qed.


(** Retries are bounded. Whatever the upstream services answer, what one
    request makes the gateway send is one sealed request, to endpoints the
    discovery named for the service of the route, none of them twice, and to at
    most two of them when the method may be repeated safely and one when not. *)
Theorem retries_are_bounded request (s : gateway S X U world) :
  verifier_only_removes ->
  let sent := sent_by request s in
  (exists r, forall p, p ∈ sent -> p.2 = r) /\
  NoDup ((fun p => Endpoint.id p.1) <$> sent) /\
  (length sent <= if retryable (HttpRequest.method request) then 2 else 1)%nat /\
  (sent <> [] -> exists route endpoints u u',
     Router.match_ (Gateway.m_router g) (HttpRequest.method request) (HttpRequest.path request) = Some route /\
     resolve (Gateway.m_interfaces g) (Route.service route) u = (Ok endpoints, u') /\
     forall p, p ∈ sent -> p.1 ∈ endpoints).
Proof.
  intros Hv. cbv zeta. unfold sent_by.
  assert (Hnil : forall l : record_log, l = [] ->
    (exists r, forall p, p ∈ l -> p.2 = r) /\ NoDup ((fun p => Endpoint.id p.1) <$> l) /\
    (length l <= if retryable (HttpRequest.method request) then 2 else 1)%nat).
  { intros l ->. split_and!; [exists request; by intros p ?%not_elem_of_nil|constructor|simpl; lia]. }
  destruct (handle_log request (unrecorded s) eq_refl) as [Hl|(route & r1 & Hroute & Hr1 & Hf)];
    [destruct (Hnil _ Hl) as (? & ? & ?); by split_and!|].
  destruct Hf as [Hl|(sent & w & w1 & es & endpoints & u & u' & Hseal & Hres & Hl & Hn & He & Hlen)];
    [destruct (Hnil _ Hl) as (? & ? & ?); by split_and!|].
  destruct (admitted_request route request r1 Hv Hr1) as (c & _ & Hprep).
  pose proof (sealed_request _ _ _ _ _ _ _ Hprep Hseal) as [(Hm & _) _].
  rewrite Hl. split_and!.
  - exists sent. intros p (e & -> & _)%list_elem_of_fmap. done.
  - by rewrite <-list_fmap_compose.
  - rewrite length_fmap. etrans; [exact Hlen|]. unfold Gateway.attemptsFor. rewrite <-Hm.
    destruct (retryable _); lia.
  - intros _. exists route, endpoints, u, u'. split_and!; [done|done|].
    intros p (e & -> & Hin)%list_elem_of_fmap. by apply He.
Qed.

(** ** What the client gets *)

Definition hardened (r : HttpResponse.t) : Prop :=
  HttpResponse.headers r !! "cache-control" = Some "no-store" /\
  HttpResponse.headers r !! "referrer-policy" = Some "no-referrer" /\
  HttpResponse.headers r !! "x-content-type-options" = Some "nosniff" /\
  (forall k, k ∈ hopByHopHeaders -> HttpResponse.headers r !! k = None) /\
  (forall k v, (k, v) ∈ HttpResponse.repeatedHeaders r ->
     k ∉ hopByHopHeaders /\ k <> "cache-control" /\ k <> "referrer-policy" /\ k <> "x-content-type-options").

Lemma secureResponse_hardened (r : HttpResponse.t) : hardened (secureResponse r).
Proof.
  assert (Herased : forall names (r : HttpResponse.t),
    (forall k, HttpResponse.headers (foldl (fun response name => HttpResponse.eraseHeader name response) r names) !! k
               = if decide (k ∈ lowercase <$> names) then None else HttpResponse.headers r !! k) /\
    (forall p, p ∈ HttpResponse.repeatedHeaders (foldl (fun response name => HttpResponse.eraseHeader name response) r names) ->
               p.1 ∉ lowercase <$> names)).
  { induction names as [|n names IH]; intros q; cbn [foldl]; [split; [done|intros; apply not_elem_of_nil]|].
    destruct (IH (HttpResponse.eraseHeader n q)) as [Hk Hr]. split.
    - intros k. rewrite Hk, fmap_cons. unfold HttpResponse.eraseHeader. cbn [HttpResponse.headers].
      destruct (decide (k = lowercase n)) as [->|Hne].
      + rewrite lookup_delete_eq. rewrite (decide_True (P := lowercase n ∈ _ :: _)) by left. by case_decide.
      + rewrite lookup_delete_ne by done. repeat case_decide; try done; set_solver.
    - intros p Hp. rewrite fmap_cons, not_elem_of_cons. split; [|by apply Hr].
      revert Hp. clear. intros Hp Hn.
      assert (Hsub : forall names q, p ∈ HttpResponse.repeatedHeaders (foldl (fun response name => HttpResponse.eraseHeader name response) q names) ->
                p ∈ HttpResponse.repeatedHeaders q).
      { induction names0 as [|m names0 IH0]; intros q0; cbn [foldl]; [done|]. intros H0. apply IH0 in H0.
        unfold HttpResponse.eraseHeader in H0. cbn in H0. by apply list_elem_of_filter in H0 as [_ ?]. }
      apply Hsub in Hp. unfold HttpResponse.eraseHeader in Hp. cbn in Hp.
      apply list_elem_of_filter in Hp as [Ho _]. by apply Ho. }
  destruct (Herased hopByHopHeaders r) as [Hk Hr]. unfold hardened, secureResponse. cbv zeta.
  set (q := foldl _ r hopByHopHeaders) in *. change (lowercase <$> hopByHopHeaders) with hopByHopHeaders in *. clearbody q.
  unfold HttpResponse.setHeader. cbn [HttpResponse.headers HttpResponse.repeatedHeaders HttpResponse.status HttpResponse.body].
  change (lowercase "cache-control") with "cache-control". change (lowercase "referrer-policy") with "referrer-policy".
  change (lowercase "x-content-type-options") with "x-content-type-options".
  split_and!.
  - by rewrite lookup_insert_eq.
  - rewrite lookup_insert_ne by done. by rewrite lookup_insert_eq.
  - rewrite !lookup_insert_ne by done. by rewrite lookup_insert_eq.
  - intros k Hin. unfold hopByHopHeaders in Hin.
    repeat (apply elem_of_cons in Hin as [->|Hin]; [rewrite !lookup_insert_ne by done; rewrite Hk; reflexivity|]).
    by apply not_elem_of_nil in Hin.
  - intros k v Hp. cbn in Hp. rewrite !list_elem_of_filter in Hp. destruct Hp as (H1 & H2 & H3 & Hp).
    split_and!; [exact (Hr (k, v) Hp)|..]; intros ->; unfold HttpResponse.other in *; by cbn in *.
Qed.

Lemma errorResponse_hardened e request : exists response, Gateway.errorResponse e request = Ok response /\ hardened response.
Proof.
  unfold Gateway.errorResponse. destruct (toClientJson_reads e (id_value (HttpRequest.correlation request))) as (text & -> & _).
  eexists. split; [reflexivity|]. apply secureResponse_hardened.
Qed.

Lemma forwardLoop_hardened fuel route request endpoints attempts excluded sent lastFailure (s s' : gateway S X U world) response :
  Gateway.forwardLoop g fuel route request endpoints attempts excluded sent lastFailure s = (Ok response, s') ->
  hardened response.
Proof.
  assert (Hex : forall b (s1 : gateway S X U world), (if b : bool then throw lastFailure else Gateway.refuse Unavailable) s1 <> (Ok response, s'))
    by (by intros []).
  revert excluded sent lastFailure s Hex.
  induction fuel as [|fuel IH]; intros excluded sent lastFailure s Hex; cbn [Gateway.forwardLoop].
  { intros H. by destruct (bool_decide _). }
  destruct (negb _); [intros H; by destruct (bool_decide _)|].
  intros (chosen & s1 & _ & H)%prog_bind_ok. destruct chosen as [endpoint|e|]; [|by destruct (bool_decide _)..].
  cbv zeta in H. apply prog_bind_ok in H as (allowed & s2 & _ & H).
  destruct (negb allowed); [eapply IH; [exact Hex|exact H]|]. apply prog_bind_ok in H as (answer & s3 & _ & H).
  destruct answer as [upstream|e|]; [|apply prog_bind_ok in H as (? & s4 & _ & H); eapply IH; [|exact H]; by intros []|done].
  destruct (_ || _); apply prog_bind_ok in H as (? & s4 & _ & H); [done|]. injection H as <- _.
  apply secureResponse_hardened.
Qed.

Lemma serve_hardened request (s s' : gateway S X U world) response :
  Gateway.serve g request s = (Ok response, s') -> hardened response.
Proof.
  unfold Gateway.serve. destruct (Router.match_ _ _ _) as [route|]; [|done].
  intros (allowed & s1 & _ & H)%prog_bind_ok. destruct (negb allowed); [done|]. cbv zeta in H.
  apply prog_bind_ok in H as (r1 & s2 & _ & H). unfold Gateway.forward in H. cbv zeta in H.
  apply prog_bind_ok in H as (sent & s3 & _ & H). apply prog_bind_ok in H as (endpoints & s4 & _ & H).
  by eapply forwardLoop_hardened.
Qed.

(** C36: Every answer is hardened. [Gateway::handle] turns every error into a
    response, so it never fails itself; and every response it returns, its own
    or an upstream one, forbids caching, sniffing and referrers and has lost
    every hop-by-hop field, repeated fields included. *)
Theorem every_response_is_hardened request (s : gateway S X U world) :
  (forall e, (Gateway.handle g request s).1 <> Err e) /\
  (forall response, (Gateway.handle g request s).1 = Ok response -> hardened response).
Proof.
  unfold Gateway.handle. destruct (Gateway.serve g request s) as [r s'] eqn:Hs. destruct r as [response|e|].
  - split; [done|]. intros response' [= <-]. by eapply serve_hardened.
  - destruct (errorResponse_hardened e request) as (response & Hr & Hh). cbn [fst]. rewrite Hr.
    split; [done|]. by intros response' [= <-].
  - done.
Qed.
End enforcement.

Module EnforcementWitnesses.
Import TestPlatform.
Abbreviation sessions := InMemorySessionRepository.t.

Definition acme : OrganizationId := mkId "acme".
Definition orders : Route.t :=
  Route.mk (mkId "orders") Get "/orders" (mkId "api") true acme (mkId "read") (mkId "orders") "" "".
Definition upstream : Endpoint.t := Endpoint.mk (mkId "one") "10.0.0.1" 8443 true 1.
Definition answer : HttpResponse.t := HttpResponse.create 200 {[ "connection" := "close" ]} "[]".

(** Permits every session; one endpoint; every request is answered. *)
Definition outside : interfaces unit unit (@world test) := {|
  authorize _ _ _ u := (Ok (AuthorizationDecision.allow "The session may read."), u);
  resolve _ u := (Ok [upstream], u);
  send _ _ _ u := (Ok answer, u);
  authenticateDelegated := None;
  verifySender := None;
|}.

Definition limiter : TokenBucketRateLimiter.t :=
  TokenBucketRateLimiter.mk (of_int 10) (of_int 1) 100 ∅ (TokenBucketRateLimiter.mkBucket dzero 0) false.
Definition proxy : Gateway.t (Plat:=test) (X:=unit) (U:=unit) :=
  Gateway.mk [orders] ServiceWitnesses.key (CircuitBreaker.mkPolicy 3 1000) TrustedContextWitnesses.signer 1000 outside.
Definition running : gateway sessions unit unit (@world test) :=
  mkGateway ServiceWitnesses.first_sign_in.2 limiter ∅ ∅ tt.

(** A signed-in client that claims to be somebody else. *)
Definition request : HttpRequest.t :=
  HttpRequest.mk Get "/orders?page=2" "/orders"
    {[ "authorization" := "Bearer " +:+ ServiceWitnesses.cookie; "x-openproof-identity" := "mallory";
       "accept" := "application/json" ]} "" "10.0.0.9" (mkId "r-1").

Definition sent : HttpRequest.t :=
  match sent_by (Plat:=test) (S:=sessions) proxy request running with (_, r) :: _ => r | [] => request end.

Lemma no_verifier : verifier_only_removes proxy.
Proof. by intros verify. Qed.

Lemma request_names : canonical_names (HttpRequest.headers request).
Proof.
  intros k v Hk. unfold request in Hk. cbn [HttpRequest.headers] in Hk.
  repeat (apply lookup_insert_Some in Hk as [[<- _]|[_ Hk]]; [reflexivity|]).
  apply lookup_singleton_Some in Hk as [<- _]. reflexivity.
Qed.


Lemma retries_are_bounded_witness :
  sent_by (Plat:=test) (S:=sessions) proxy request running = [(upstream, sent)] /\
  (length (sent_by (Plat:=test) (S:=sessions) proxy request running) <= 2)%nat.
Proof.
  split; [vm_compute; reflexivity|].
  destruct (retries_are_bounded (Plat:=test) (S:=sessions) proxy request running no_verifier) as (_ & _ & H & _).
  eapply Nat.le_trans; [exact H|]. vm_compute. done.
Defined.
End EnforcementWitnesses.
