(* ===== verification/Account.v ===== *)
(** * openproof.account: self-service accounts

    Models [src/src/account/model.cpp], [repository.cpp] and [service.cpp]:
    verification challenges, the in-memory repository that holds them with the
    reservations of subjects, and the coordinator of signup, email and phone
    verification, password reset, profile updates and one-time-code enrollment
    over the repositories of the other components. Delivery of a secret is
    foreign. *)
From S2P Require Import Prelude Foundation Encoding Security Provider IdentityCore Link Profile Wire Authentication Session SessionService Credentials LocalAccounts.

Inductive VerificationIdTag := .
Abbreviation VerificationId := (StrongId VerificationIdTag).

Inductive VerificationPurpose := SignupEmail | ChangeEmail | VerifyPhone | PasswordReset.
#[global] Instance VerificationPurpose_eq_dec : EqDecision VerificationPurpose.
Proof. solve_decision. Defined.

Definition verificationPurposeName (purpose : VerificationPurpose) : string :=
  match purpose with
  | SignupEmail => "signup_email"
  | ChangeEmail => "change_email"
  | VerifyPhone => "verify_phone"
  | PasswordReset => "password_reset"
  end.

Inductive VerificationChannel := EmailChannel | SmsChannel.
#[global] Instance VerificationChannel_eq_dec : EqDecision VerificationChannel.
Proof. solve_decision. Defined.

Definition verificationChannelName (channel : VerificationChannel) : string :=
  match channel with EmailChannel => "email" | SmsChannel => "sms" end.

Abbreviation VerificationDigest := (list byte).

Module VerificationChallenge.
Record t := mk {
  id : VerificationId;
  identity : IdentityId;
  purpose : VerificationPurpose;
  channel : VerificationChannel;
  destination : string;
  digest : VerificationDigest;
  createdAt : Instant;
  expiresAt : Instant;
  attempts : Z;
}.

Definition create (id : VerificationId) (identity : IdentityId) (purpose : VerificationPurpose)
    (channel : VerificationChannel) (destination : string) (digest : VerificationDigest)
    (createdAt : Instant) (lifetime : Duration) : Result t :=
  if id_empty id || id_empty identity || bool_decide (destination = "")
     || (512 <? String.length destination)%nat || (lifetime <=? 0) then
    fail InvalidArgument "The verification challenge is invalid."
  else Ok (mk id identity purpose channel destination digest createdAt (createdAt + lifetime) 0).

Definition restore (id : VerificationId) (identity : IdentityId) (purpose : VerificationPurpose)
    (channel : VerificationChannel) (destination : string) (digest : VerificationDigest)
    (createdAt expiresAt : Instant) (attempts : Z) : Result t :=
  if id_empty id || id_empty identity || bool_decide (destination = "")
     || (512 <? String.length destination)%nat || (expiresAt <=? createdAt) then
    fail Internal "Stored verification challenge data is invalid."
  else Ok (mk id identity purpose channel destination digest createdAt expiresAt attempts).

Definition expiredAt (c : t) (now : Instant) : bool := expiresAt c <=? now.
End VerificationChallenge.

Module VerificationDispatch.
Record t := mk {
  id : VerificationId;
  identity : IdentityId;
  purpose : VerificationPurpose;
  channel : VerificationChannel;
  destination : string;
  secret : string;
  expiresAt : Instant;
}.
End VerificationDispatch.

(** ** The repository *)

Definition invalidVerification (detail : string) : Error :=
  Error_ofDetail AuthenticationFailed (defaultErrorMessage AuthenticationFailed) detail.

(** The virtual interface. [expectedIdentity] may be null. *)
Class AccountRepository (T : Type) := {
  ar_replace : VerificationChallenge.t -> prog T Error unit;
  ar_consume : VerificationId -> VerificationDigest -> Instant -> Z -> option IdentityId ->
    prog T Error VerificationChallenge.t;
  ar_reserveSubject : ExternalIdentityRef.t -> IdentityId -> Instant -> Instant -> prog T Error unit;
  ar_reservedOwner : T -> ExternalIdentityRef.t -> Instant -> Result (option IdentityId);
  ar_releaseSubject : ExternalIdentityRef.t -> IdentityId -> prog T Error unit;
}.

Module InMemoryAccountRepository.
Record ChallengeState := mkChallenge { challenge : VerificationChallenge.t; attempts : Z }.
Record Reservation := mkReservation { identity : IdentityId; expiresAt : Instant }.

Record t := mk {
  challenges : gmap VerificationId ChallengeState;
  reservations : gmap ExternalKey Reservation;
}.

Definition empty : t := mk ∅ ∅.

Definition with_challenges (f : gmap VerificationId ChallengeState -> gmap VerificationId ChallengeState) (r : t) : t :=
  mk (f (challenges r)) (reservations r).
Definition with_reservations (f : gmap ExternalKey Reservation -> gmap ExternalKey Reservation) (r : t) : t :=
  mk (challenges r) (f (reservations r)).

Section repository.
Context `{Plat : Platform}.

(** The loop of [replace] erases the challenges with this identity and purpose. *)
Definition replaced_by (c : VerificationChallenge.t) (old : VerificationId * ChallengeState) : bool :=
  bool_decide (VerificationChallenge.identity (challenge old.2) = VerificationChallenge.identity c)
  && bool_decide (VerificationChallenge.purpose (challenge old.2) = VerificationChallenge.purpose c).

(** [map::emplace] keeps an existing entry. *)
Definition replace (c : VerificationChallenge.t) : prog t Error unit := fun r =>
  let kept := filter (fun old => replaced_by c old = false) (challenges r) in
  let id := VerificationChallenge.id c in
  (ok, mk (match kept !! id with Some _ => kept | None => <[id := mkChallenge c 0]> kept end) (reservations r)).

Definition consume (id : VerificationId) (presented : VerificationDigest) (now : Instant) (maximumAttempts : Z)
    (expectedIdentity : option IdentityId) : prog t Error VerificationChallenge.t := fun r =>
  if maximumAttempts =? 0 then (fail InvalidArgument "Verification attempt policy is invalid.", r)
  else
    match challenges r !! id with
    | None => (Err (invalidVerification "Verification challenge is unknown or consumed."), r)
    | Some found =>
        let c := challenge found in
        let gone := with_challenges (delete id) r in
        if match expectedIdentity with
           | Some expected => negb (bool_decide (VerificationChallenge.identity c = expected))
           | None => false
           end then
          (Err (invalidVerification "Verification challenge does not belong to the authenticated identity."), r)
        else if VerificationChallenge.expiredAt c now || (maximumAttempts <=? attempts found) then
          (Err (invalidVerification "Verification challenge expired or exhausted."), gone)
        else if negb (constantTimeEquals (VerificationChallenge.digest c) presented) then
          let tried := u32 (attempts found + 1) in
          (Err (invalidVerification "Verification secret did not match."),
           if maximumAttempts <=? tried then gone
           else with_challenges <[id := mkChallenge c tried]> r)
        else (Ok c, gone)
    end.

Definition reserveSubject (external : ExternalIdentityRef.t) (owner : IdentityId) (now expires : Instant)
    : prog t Error unit := fun r =>
  if id_empty (ExternalIdentityRef.providerId external) || id_empty (ExternalIdentityRef.subject external)
     || id_empty owner then
    (fail InvalidArgument "An account subject reservation is invalid.", r)
  else
    let k := ExternalIdentityRef.key external in
    let reserve := with_reservations <[k := mkReservation owner expires]> in
    match reservations r !! k with
    | None => (ok, reserve r)
    | Some found =>
        if expiresAt found <=? now then (ok, reserve r)
        else if bool_decide (identity found = owner) then (ok, reserve r)
        else (fail AlreadyExists "That account identifier is already reserved.", r)
    end.

Definition reservedOwner (r : t) (external : ExternalIdentityRef.t) (now : Instant) : Result (option IdentityId) :=
  match reservations r !! ExternalIdentityRef.key external with
  | None => Ok None
  | Some found => if expiresAt found <=? now then Ok None else Ok (Some (identity found))
  end.

Definition releaseSubject (external : ExternalIdentityRef.t) (expectedOwner : IdentityId) : prog t Error unit := fun r =>
  match reservations r !! ExternalIdentityRef.key external with
  | None => (ok, r)
  | Some found =>
      if negb (bool_decide (identity found = expectedOwner)) then
        (fail PermissionDenied "That account reservation belongs to another identity.", r)
      else (ok, with_reservations (delete (ExternalIdentityRef.key external)) r)
  end.

#[global] Instance in_memory_accounts : AccountRepository t := {
  ar_replace := replace;
  ar_consume := consume;
  ar_reserveSubject := reserveSubject;
  ar_reservedOwner := reservedOwner;
  ar_releaseSubject := releaseSubject;
}.
End repository.
End InMemoryAccountRepository.

(** ** The service *)

Definition kIdentityEntropyBytes : nat := 24.
Definition kVerificationIdEntropyBytes : nat := 24.
Definition kEmailSecretEntropyBytes : nat := 24.
Definition kTotpEnrollmentIdEntropyBytes : nat := 24.
Definition kTotpEnrollmentLifetime : Duration := minutes 10.
Definition kTotpEnrollmentMaximumAttempts : Z := 5.

(** [value.rfind('@')] and the conditions on the two sides. *)
Definition validEmail (value : string) : bool :=
  negb ((String.length value <? 3)%nat || (320 <? String.length value)%nat
        || starts_with value "@" || any_octet (fun c => bool_decide (c = " "%char)) value)
  && match split_last "@" value with
     | Some (local, domain) =>
         negb (bool_decide (local = "")) && negb (bool_decide (domain = ""))
         && any_octet (fun c => bool_decide (c = "."%char)) domain
     | None => false
     end.

Definition normalizeEmail (value : string) : Result string :=
  if negb (validEmail value) then fail InvalidArgument "The email address is invalid."
  else Ok (lowercase value).

Definition ascii_digit (symbol : ascii) : bool :=
  let byte := Z.of_N (N_of_ascii symbol) in (48 <=? byte) && (byte <=? 57).

Definition normalizePhone (value : string) : Result string :=
  match value with
  | String plus rest =>
      if (String.length value <? 8)%nat || (16 <? String.length value)%nat
         || negb (bool_decide (plus = "+"%char)) then
        fail InvalidArgument "The phone number must use E.164 form."
      else if negb (all_octets ascii_digit rest) then
        fail InvalidArgument "The phone number must use E.164 form."
      else Ok value
  | "" => fail InvalidArgument "The phone number must use E.164 form."
  end.

(** The inner loop of [numericCode]: octets from 250 up are skipped. *)
Fixpoint appendDigits (digits : nat) (bytes : list byte) (output : string) : string :=
  match bytes with
  | [] => output
  | raw :: bytes =>
      let value := byteValue raw in
      if 250 <=? value then appendDigits digits bytes output
      else
        let output := output +:+ String (ascii_of_N (Z.to_N (48 + value mod 10))) "" in
        if (String.length output =? digits)%nat then output else appendDigits digits bytes output
  end.

(** The outer loop draws until enough octets were accepted. The fuel bounds
    the draws; the code has no bound, so running out of it is no result. *)
Fixpoint numericCodeLoop `{Platform} (fuel digits : nat) (output : string) : prog world Error string :=
  if (digits <=? String.length output)%nat then mret output
  else
    match fuel with
    | O => fun w => (Aborted, w)
    | S fuel =>
        bytes ← randomBytes (digits * 2);
        numericCodeLoop fuel digits (appendDigits digits bytes output)
    end.

Definition kDraws : nat := 64.
Definition numericCode `{Platform} (digits : nat) : prog world Error string := numericCodeLoop kDraws digits "".

Definition genericVerificationFailure (detail : string) : Error :=
  Error_ofDetail AuthenticationFailed (defaultErrorMessage AuthenticationFailed) detail.

Module VerificationKey.
Record t := mk { m_key : string }.

Definition create (key : string) : Result t :=
  if (String.length key <? 32)%nat then
    fail InvalidArgument "A verification key must contain at least 32 bytes."
  else Ok (mk key).
End VerificationKey.

Module AccountPolicy.
Record t := mk {
  emailVerificationLifetime : Duration;
  phoneVerificationLifetime : Duration;
  passwordResetLifetime : Duration;
  maximumAttempts : Z;
}.

Definition hours (n : Z) : Duration := minutes (60 * n).

Definition create (emailVerificationLifetime phoneVerificationLifetime passwordResetLifetime : Duration)
    (maximumAttempts : Z) : Result t :=
  if (emailVerificationLifetime <=? 0) || (phoneVerificationLifetime <=? 0) || (passwordResetLifetime <=? 0)
     || (hours 48 <? emailVerificationLifetime) || (minutes 30 <? phoneVerificationLifetime)
     || (hours 2 <? passwordResetLifetime) || (maximumAttempts =? 0) || (20 <? maximumAttempts) then
    fail InvalidArgument "The account verification policy is invalid."
  else Ok (mk emailVerificationLifetime phoneVerificationLifetime passwordResetLifetime maximumAttempts).
End AccountPolicy.

Inductive TotpEnrollmentIdTag := .
Abbreviation TotpEnrollmentId := (StrongId TotpEnrollmentIdTag).

Module TotpEnrollmentStart.
Record t := mk { id : TotpEnrollmentId; secretBase32 : string; expiresAt : Instant; replacing : bool }.
End TotpEnrollmentStart.

Module PendingTotpEnrollment.
Record t := mk {
  identity : IdentityId;
  subject : ExternalSubject;
  secret : TotpSecret.t;
  expiresAt : Instant;
  replacementAuthorized : bool;
  attempts : Z;
}.

Definition set_attempts (attempts : Z) (p : t) : t :=
  mk (identity p) (subject p) (secret p) (expiresAt p) (replacementAuthorized p) attempts.
End PendingTotpEnrollment.

(** The state behind the references of the service, its pending enrollments,
    the delivery boundary and the platform. *)
Record accounts (I D P T R A S U W : Type) := mkAccounts {
  a_identities : I;
  a_externalIdentities : D;
  a_profiles : P;
  a_localAccounts : T;
  a_recoveryCodes : R;
  a_repository : A;
  a_sessions : S;
  a_pendingTotp : gmap TotpEnrollmentId PendingTotpEnrollment.t;
  a_delivery : U;
  a_world : W;
}.
Arguments mkAccounts {I D P T R A S U W}.
Arguments a_identities {I D P T R A S U W}.
Arguments a_externalIdentities {I D P T R A S U W}.
Arguments a_profiles {I D P T R A S U W}.
Arguments a_localAccounts {I D P T R A S U W}.
Arguments a_recoveryCodes {I D P T R A S U W}.
Arguments a_repository {I D P T R A S U W}.
Arguments a_sessions {I D P T R A S U W}.
Arguments a_pendingTotp {I D P T R A S U W}.
Arguments a_delivery {I D P T R A S U W}.
Arguments a_world {I D P T R A S U W}.

Module AccountService.
(** What the constructor stores. *)
Record t (U W : Type) := mk {
  m_organization : OrganizationId;
  m_localProvider : ProviderId;
  m_phoneProvider : ProviderId;
  m_key : VerificationKey.t;
  m_policy : AccountPolicy.t;
  m_delivery : VerificationDispatch.t -> prog (U * W) Error unit;
}.
Arguments mk {U W}.
Arguments m_organization {U W}.
Arguments m_localProvider {U W}.
Arguments m_phoneProvider {U W}.
Arguments m_key {U W}.
Arguments m_policy {U W}.
Arguments m_delivery {U W}.

Section service.
Context `{Plat : Platform}.
Context {I D P T R A S U : Type}
  `{!IdentityRepository I, !ExternalIdentityDirectory D, !IdentityProfileRepository P, !LocalAccountDirectory T,
    !RecoveryCodeRepository R, !AccountRepository A, !SessionRepository S}.

Abbreviation state := (accounts I D P T R A S U world).
Abbreviation handler B := (prog state Error B).

Definition set_world (w : world) (s : state) : state :=
  mkAccounts (a_identities s) (a_externalIdentities s) (a_profiles s) (a_localAccounts s) (a_recoveryCodes s)
    (a_repository s) (a_sessions s) (a_pendingTotp s) (a_delivery s) w.
Definition on_identities {B} (m : prog I Error B) : handler B :=
  zoom a_identities (fun x s => mkAccounts x (a_externalIdentities s) (a_profiles s) (a_localAccounts s)
    (a_recoveryCodes s) (a_repository s) (a_sessions s) (a_pendingTotp s) (a_delivery s) (a_world s)) m.
Definition on_externalIdentities {B} (m : prog D Error B) : handler B :=
  zoom a_externalIdentities (fun x s => mkAccounts (a_identities s) x (a_profiles s) (a_localAccounts s)
    (a_recoveryCodes s) (a_repository s) (a_sessions s) (a_pendingTotp s) (a_delivery s) (a_world s)) m.
Definition on_profiles {B} (m : prog P Error B) : handler B :=
  zoom a_profiles (fun x s => mkAccounts (a_identities s) (a_externalIdentities s) x (a_localAccounts s)
    (a_recoveryCodes s) (a_repository s) (a_sessions s) (a_pendingTotp s) (a_delivery s) (a_world s)) m.
Definition on_localAccounts {B} (m : prog (with_world T world) Error B) : handler B :=
  zoom (fun s => mkWith (a_localAccounts s) (a_world s))
    (fun x s => mkAccounts (a_identities s) (a_externalIdentities s) (a_profiles s) (v_store x)
      (a_recoveryCodes s) (a_repository s) (a_sessions s) (a_pendingTotp s) (a_delivery s) (v_world x)) m.
Definition on_recoveryCodes {B} (m : prog (with_world R world) Error B) : handler B :=
  zoom (fun s => mkWith (a_recoveryCodes s) (a_world s))
    (fun x s => mkAccounts (a_identities s) (a_externalIdentities s) (a_profiles s) (a_localAccounts s)
      (v_store x) (a_repository s) (a_sessions s) (a_pendingTotp s) (a_delivery s) (v_world x)) m.
Definition on_repository {B} (m : prog A Error B) : handler B :=
  zoom a_repository (fun x s => mkAccounts (a_identities s) (a_externalIdentities s) (a_profiles s)
    (a_localAccounts s) (a_recoveryCodes s) x (a_sessions s) (a_pendingTotp s) (a_delivery s) (a_world s)) m.
Definition on_sessions {B} (m : prog (service S unit world) Error B) : handler B :=
  zoom (fun s => mkService (a_sessions s) tt (a_world s))
    (fun x s => mkAccounts (a_identities s) (a_externalIdentities s) (a_profiles s) (a_localAccounts s)
      (a_recoveryCodes s) (a_repository s) (s_sessions x) (a_pendingTotp s) (a_delivery s) (s_world x)) m.
Definition on_pending {B} (m : prog (gmap TotpEnrollmentId PendingTotpEnrollment.t) Error B) : handler B :=
  zoom a_pendingTotp (fun x s => mkAccounts (a_identities s) (a_externalIdentities s) (a_profiles s)
    (a_localAccounts s) (a_recoveryCodes s) (a_repository s) (a_sessions s) x (a_delivery s) (a_world s)) m.
Definition on_delivery {B} (m : prog (U * world) Error B) : handler B :=
  zoom (fun s => (a_delivery s, a_world s))
    (fun x s => mkAccounts (a_identities s) (a_externalIdentities s) (a_profiles s) (a_localAccounts s)
      (a_recoveryCodes s) (a_repository s) (a_sessions s) (a_pendingTotp s) x.1 x.2) m.
Definition on_world {B} (m : prog world Error B) : handler B := zoom a_world set_world m.
Definition clock : handler Instant := on_world now.

(** Queries: [const] member functions of the collaborators. *)
Definition ask {B} (f : state -> Result B) : handler B := fun s => (f s, s).

Context (c : t U world).
Abbreviation policy := (m_policy c).
Abbreviation local_ref subject := (ExternalIdentityRef.mk (m_localProvider c) subject None None None).
Abbreviation phone_ref subject := (ExternalIdentityRef.mk (m_phoneProvider c) subject None None None).

Definition digest (id : VerificationId) (secret : string) : Result VerificationDigest :=
  if id_empty id || bool_decide (secret = "") || (256 <? String.length secret)%nat then
    Err (genericVerificationFailure "Verification input is malformed.")
  else hmacSha256 (VerificationKey.m_key (m_key c)) (id_value id +:+ ":" +:+ secret).

Definition issue (identity : IdentityId) (purpose : VerificationPurpose) (channel : VerificationChannel)
    (destination : string) (lifetime : Duration) : handler VerificationDispatch.t :=
  idRaw ← on_world (randomTokenBase64Url kVerificationIdEntropyBytes);
  let id : VerificationId := mkId ("opv_" +:+ idRaw) in
  secret ← on_world (if bool_decide (channel = SmsChannel) then numericCode 8
                     else randomTokenBase64Url kEmailSecretEntropyBytes);
  fingerprint ← lift (digest id secret);
  now ← clock;
  challenge ← lift (VerificationChallenge.create id identity purpose channel destination fingerprint now lifetime);
  _ ← on_repository (ar_replace challenge);
  mret (VerificationDispatch.mk id identity purpose channel destination secret
          (VerificationChallenge.expiresAt challenge)).

Definition deliver (dispatch : VerificationDispatch.t) : handler unit := on_delivery (m_delivery c dispatch).

Definition consume (id : VerificationId) (secret : string) (purpose : VerificationPurpose)
    (expectedIdentity : option IdentityId) : handler VerificationChallenge.t :=
  fingerprint ← lift (digest id secret);
  now ← clock;
  challenge ← on_repository (ar_consume id fingerprint now (AccountPolicy.maximumAttempts policy) expectedIdentity);
  if negb (bool_decide (VerificationChallenge.purpose challenge = purpose)) then
    throw (genericVerificationFailure "Verification challenge purpose did not match the endpoint.")
  else mret challenge.

Definition requireProfile (identity : IdentityId) : handler IdentityProfile.t :=
  found ← ask (fun s => pr_find (a_profiles s) identity);
  match found with None => throw (Error_ofCode NotFound) | Some profile => mret profile end.

Definition attachVerified (identity : IdentityId) (external : ExternalIdentityRef.t) : handler unit :=
  now ← clock;
  link ← lift (IdentityLink.request identity external now (minutes 5));
  now ← clock;
  link ← lift (mutate (IdentityLink.requireVerification now) link);
  now ← clock;
  link ← lift (mutate (IdentityLink.markVerified now) link);
  now ← clock;
  link ← lift (mutate (IdentityLink.complete now) link);
  on_externalIdentities (ed_attach link).

Definition ownerOf (external : ExternalIdentityRef.t) : handler (option IdentityId) :=
  ask (fun s => ed_ownerOf (a_externalIdentities s) external).
Definition reservedOwner (external : ExternalIdentityRef.t) : handler (option IdentityId) :=
  now ← clock;
  ask (fun s => ar_reservedOwner (a_repository s) external now).
Definition reserve (external : ExternalIdentityRef.t) (identity : IdentityId) (lifetime : Duration) : handler unit :=
  now ← clock;
  later ← clock;
  on_repository (ar_reserveSubject external identity now (later + lifetime)).
Definition release (external : ExternalIdentityRef.t) (identity : IdentityId) : handler unit :=
  on_repository (ar_releaseSubject external identity).
Definition retire (identity : IdentityId) : handler unit :=
  on_identities (ir_changeStatus (m_organization c) identity Deleted).
Definition removePending (identity : IdentityId) (subject : ExternalSubject) : handler unit :=
  on_localAccounts (lad_removePending identity subject).

(** [setEmail] at the current time. *)
Definition setEmail (email : string) (verified : bool) (profile : IdentityProfile.t) : handler IdentityProfile.t :=
  now ← clock;
  lift (mutate (IdentityProfile.setEmail email verified now) profile).

(** The loop over the identities whose verified email matches. *)
Fixpoint sortMatches (candidates active : list IdentityId) (blocked : nat) : handler (list IdentityId * nat) :=
  match candidates with
  | [] => mret (active, blocked)
  | candidate :: candidates =>
      canonical ← ask (fun s => ir_findById (a_identities s) (m_organization c) candidate);
      match canonical with
      | None => sortMatches candidates active blocked
      | Some canonical =>
          if Identity.canAuthenticate canonical then sortMatches candidates (active ++ [candidate]) blocked
          else if negb (bool_decide (Identity.status canonical = Deleted))
                  && negb (bool_decide (Identity.status canonical = Merged)) then
            sortMatches candidates active (Datatypes.S blocked)
          else sortMatches candidates active blocked
      end
  end.

Definition is_local (connected : ExternalIdentityRef.t) : bool :=
  bool_decide (ExternalIdentityRef.providerId connected = m_localProvider c).

(** Signup for an identity that already holds the verified address. *)
Definition signupExisting (existing : IdentityId) (email password : string) : handler IdentityId :=
  let subject : ExternalSubject := mkId email in
  let external := local_ref subject in
  connections ← ask (fun s => ed_externalIdentitiesOf (a_externalIdentities s) existing);
  if existsb is_local connections then
    throw (Error_ofMessage AlreadyExists "Email sign-in is already configured for this account.")
  else
    _ ← reserve external existing (AccountPolicy.emailVerificationLifetime policy);
    _ ← orUndo (release external existing)
          (on_localAccounts (lad_enrollPending existing subject password None));
    let undo := _ ← ignore (removePending existing subject); release external existing in
    dispatch ← orUndo undo
      (issue existing SignupEmail EmailChannel email (AccountPolicy.emailVerificationLifetime policy));
    _ ← orUndo undo (deliver dispatch);
    mret existing.

(** Signup with a new identity, which cannot authenticate yet. *)
Definition signupNew (email password : string) (displayName : option string) : handler IdentityId :=
  let subject : ExternalSubject := mkId email in
  let external := local_ref subject in
  idRaw ← on_world (randomTokenBase64Url kIdentityEntropyBytes);
  let identity : IdentityId := mkId ("opi_" +:+ idRaw) in
  now ← clock;
  canonical ← lift (Identity.create identity Human now);
  canonical ← lift (mutate (Identity.changeStatus Deactivated) canonical);
  _ ← on_identities (ir_add (m_organization c) canonical);
  _ ← orUndo (retire identity) (reserve external identity (AccountPolicy.emailVerificationLifetime policy));
  _ ← orUndo (_ ← ignore (release external identity); retire identity)
        (on_localAccounts (lad_enrollPending identity subject password None));
  now ← clock;
  profile ← lift (IdentityProfile.create identity now);
  profile ← setEmail email false profile;
  profile ← match displayName with
            | Some name =>
                now ← clock;
                lift (mutate (IdentityProfile.updateSelfService (Some name) None None None now) profile)
            | None => mret profile
            end;
  _ ← orUndo (_ ← ignore (removePending identity subject); _ ← ignore (release external identity); retire identity)
        (on_profiles (pr_save profile));
  dispatch ← issue identity SignupEmail EmailChannel email (AccountPolicy.emailVerificationLifetime policy);
  _ ← deliver dispatch;
  mret identity.

Definition signup (email password : string) (displayName : option string) : handler IdentityId :=
  email ← lift (normalizeEmail email);
  let external := local_ref (mkId email) in
  existing ← ownerOf external;
  if bool_decide (is_Some existing) then
    throw (Error_ofMessage AlreadyExists "An account with that identifier already exists.")
  else
    reserved ← reservedOwner external;
    if bool_decide (is_Some reserved) then
      throw (Error_ofMessage AlreadyExists "An account with that identifier is already pending verification.")
    else
      verifiedMatches ← ask (fun s => pr_findVerifiedByEmail (a_profiles s) email);
      '(active, blocked) ← sortMatches verifiedMatches [] 0;
      if (1 <? length active)%nat || ((0 <? blocked)%nat && negb (bool_decide (active = []))) then
        throw (Error_ofDetail Conflict "That verified email is already associated with multiple identities."
                 "Local signup refused to guess between canonical identities that share the same verified email. An explicit merge is required.")
      else if bool_decide (active = []) && (0 <? blocked)%nat then
        throw (Error_ofMessage AlreadyExists "An account with that verified email already exists.")
      else
        match active with
        | existing :: _ => signupExisting existing email password
        | [] => signupNew email password displayName
        end.

Definition resendSignupVerification (email : string) : handler unit :=
  email ← lift (normalizeEmail email);
  let external := local_ref (mkId email) in
  reserved ← reservedOwner external;
  match reserved with
  | None => mret tt
  | Some owner =>
      dispatch ← issue owner SignupEmail EmailChannel email (AccountPolicy.emailVerificationLifetime policy);
      deliver dispatch
  end.

(** Takes the verified mark off the address again. *)
Definition unverify (email : string) (profile : IdentityProfile.t) : handler unit :=
  profile ← (fun s => match attempt (setEmail email false profile) s with
                      | (Ok (Ok profile), s) => (Ok profile, s)
                      | (Aborted, s) => (Aborted, s)
                      | (_, s) => (Ok profile, s)
                      end);
  on_profiles (pr_save profile).

Definition verifyEmailAndGetExternal (id : VerificationId) (secret : string) : handler ExternalIdentityRef.t :=
  challenge ← consume id secret SignupEmail None;
  let identity := VerificationChallenge.identity challenge in
  let email := VerificationChallenge.destination challenge in
  let external := local_ref (mkId email) in
  reserved ← attempt (reservedOwner external);
  if negb (bool_decide (reserved = Ok (Some identity))) then
    throw (genericVerificationFailure "Signup subject reservation is absent or belongs to another identity.")
  else
    profile ← requireProfile identity;
    profile ← setEmail email true profile;
    _ ← on_profiles (pr_save profile);
    _ ← orUndo (unverify email profile) (attachVerified identity external);
    _ ← orUndo (_ ← ignore (on_externalIdentities (ed_detach external identity)); unverify email profile)
          (on_identities (ir_changeStatus (m_organization c) identity Active));
    _ ← release external identity;
    mret external.

Definition verifyEmail (id : VerificationId) (secret : string) : handler unit :=
  _ ← verifyEmailAndGetExternal id secret;
  mret tt.

Definition beginEmailChange (identity : IdentityId) (replacementEmail : string) : handler unit :=
  email ← lift (normalizeEmail replacementEmail);
  _ ← requireProfile identity;
  let external := local_ref (mkId email) in
  owner ← ownerOf external;
  if match owner with Some owner => negb (bool_decide (owner = identity)) | None => false end then
    throw (Error_ofMessage AlreadyExists "That email address is already in use.")
  else
    _ ← reserve external identity (AccountPolicy.emailVerificationLifetime policy);
    dispatch ← orUndo (release external identity)
      (issue identity ChangeEmail EmailChannel email (AccountPolicy.emailVerificationLifetime policy));
    orUndo (release external identity) (deliver dispatch).

Definition outside_password_range (password : string) : bool :=
  (String.length password <? 8)%nat || (1024 <? String.length password)%nat.

Definition detach (external : ExternalIdentityRef.t) (identity : IdentityId) : handler unit :=
  on_externalIdentities (ed_detach external identity).

(** The verified address goes into the profile and the profile into the store. *)
Definition storeEmail (email : string) (profile : IdentityProfile.t) : handler unit :=
  profile ← setEmail email true profile;
  on_profiles (pr_save profile).

Definition completeEmailChange (expectedIdentity : IdentityId) (id : VerificationId) (secret : string)
    (newPassword : option string) : handler unit :=
  if match newPassword with Some password => outside_password_range password | None => false end then
    throw (Error_ofMessage InvalidArgument "The password length is outside the accepted range.")
  else
    challenge ← consume id secret ChangeEmail (Some expectedIdentity);
    let identity := VerificationChallenge.identity challenge in
    let replacement := VerificationChallenge.destination challenge in
    let subject : ExternalSubject := mkId replacement in
    let newExternal := local_ref subject in
    let releaseReservation := release newExternal identity in
    reserved ← reservedOwner newExternal;
    if negb (bool_decide (reserved = Some identity)) then
      throw (genericVerificationFailure "Email subject reservation is absent or belongs to another identity.")
    else
      profile ← orUndo releaseReservation (requireProfile identity);
      connections ← orUndo releaseReservation
        (ask (fun s => ed_externalIdentitiesOf (a_externalIdentities s) identity));
      match List.find is_local connections, newPassword with
      | None, Some password =>
          let removed := _ ← ignore (removePending identity subject); releaseReservation in
          _ ← orUndo releaseReservation (on_localAccounts (lad_enrollPending identity subject password None));
          _ ← orUndo removed (attachVerified identity newExternal);
          _ ← orUndo (_ ← ignore (detach newExternal identity); removed) (storeEmail replacement profile);
          releaseReservation
      | None, None =>
          _ ← orUndo releaseReservation (storeEmail replacement profile);
          releaseReservation
      | Some local, _ =>
          let previous := ExternalIdentityRef.subject local in
          if bool_decide (id_value previous = replacement) then
            _ ← orUndo releaseReservation (storeEmail replacement profile);
            releaseReservation
          else
            let undo := _ ← ignore (detach newExternal identity); releaseReservation in
            _ ← orUndo releaseReservation (attachVerified identity newExternal);
            _ ← orUndo undo (on_localAccounts (lad_rebindSubject identity previous subject));
            _ ← orUndo (_ ← ignore (on_localAccounts (lad_rebindSubject identity subject previous)); undo)
                  (storeEmail replacement profile);
            _ ← orUndo releaseReservation (detach (local_ref previous) identity);
            releaseReservation
      end.

Definition beginPhoneVerification (identity : IdentityId) (phoneNumber : string) : handler unit :=
  phone ← lift (normalizePhone phoneNumber);
  let external := phone_ref (mkId phone) in
  owner ← ownerOf external;
  if match owner with Some owner => negb (bool_decide (owner = identity)) | None => false end then
    throw (Error_ofMessage AlreadyExists "That phone number is already in use.")
  else
    _ ← reserve external identity (AccountPolicy.phoneVerificationLifetime policy);
    dispatch ← issue identity VerifyPhone SmsChannel phone (AccountPolicy.phoneVerificationLifetime policy);
    deliver dispatch.

Definition completePhoneVerification (expectedIdentity : IdentityId) (id : VerificationId) (secret : string)
    : handler unit :=
  challenge ← consume id secret VerifyPhone None;
  let identity := VerificationChallenge.identity challenge in
  if negb (bool_decide (identity = expectedIdentity)) then
    throw (genericVerificationFailure "Verification challenge does not belong to the authenticated identity.")
  else
    let phone := VerificationChallenge.destination challenge in
    let external := phone_ref (mkId phone) in
    _ ← attachVerified identity external;
    profile ← orUndo (detach external identity) (requireProfile identity);
    now ← clock;
    profile ← lift (mutate (IdentityProfile.setPhoneNumber phone true now) profile);
    _ ← orUndo (detach external identity) (on_profiles (pr_save profile));
    release external identity.

Definition beginPasswordReset (email : string) : handler unit :=
  match normalizeEmail email with
  | Ok email =>
      owner ← attempt (ownerOf (local_ref (mkId email)));
      match owner with
      | Ok (Some owner) =>
          dispatch ← issue owner PasswordReset EmailChannel email (AccountPolicy.passwordResetLifetime policy);
          deliver dispatch
      | _ => mret tt
      end
  | _ => mret tt
  end.

Definition completePasswordReset (id : VerificationId) (secret newPassword : string) : handler unit :=
  if outside_password_range newPassword then
    throw (Error_ofMessage InvalidArgument "The password length is outside the accepted range.")
  else
    challenge ← consume id secret PasswordReset None;
    let identity := VerificationChallenge.identity challenge in
    let external := local_ref (mkId (VerificationChallenge.destination challenge)) in
    owner ← attempt (ownerOf external);
    if negb (bool_decide (owner = Ok (Some identity))) then
      throw (genericVerificationFailure "Password reset subject ownership changed during the ceremony.")
    else
      _ ← on_localAccounts (lad_changePassword (ExternalIdentityRef.subject external) newPassword);
      _ ← on_sessions (SessionService.revokeAll identity);
      mret tt.

Definition updateProfile (identity : IdentityId) (displayName preferredUsername locale pictureUrl : option string)
    (avatarSource : option string) : handler unit :=
  profile ← requireProfile identity;
  now ← clock;
  profile ← lift (mutate (IdentityProfile.updateSelfService displayName preferredUsername locale pictureUrl now) profile);
  profile ← match avatarSource with
            | None => mret profile
            | Some source =>
                allowed ← (if bool_decide (source = "profile") then
                             mret (bool_decide (is_Some (IdentityProfile.pictureUrl profile)))
                           else if bool_decide (source = "auto") then mret true
                           else
                             connections ← ask (fun s => ed_externalIdentitiesOf (a_externalIdentities s) identity);
                             mret (existsb (fun external =>
                                     bool_decide (id_value (ExternalIdentityRef.providerId external) = source)
                                     && bool_decide (is_Some (ExternalIdentityRef.pictureUrl external))) connections));
                if negb allowed then
                  throw (Error_ofMessage InvalidArgument "The selected avatar source is not available.")
                else lift (mutate (IdentityProfile.setAvatarSource source now) profile)
            end;
  on_profiles (pr_save profile).

Definition profile (identity : IdentityId) : handler IdentityProfile.t := requireProfile identity.

Definition localSubject (identity : IdentityId) : handler (option ExternalSubject) :=
  connections ← ask (fun s => ed_externalIdentitiesOf (a_externalIdentities s) identity);
  mret (ExternalIdentityRef.subject <$> List.find is_local connections).

Definition totpEnabled (identity : IdentityId) : handler (option bool) :=
  subject ← localSubject identity;
  match subject with
  | None => mret None
  | Some subject => enabled ← on_localAccounts (lad_hasTotp subject); mret (Some enabled)
  end.

Definition passwordUpgradeNeeded (identity : IdentityId) : handler (option bool) :=
  subject ← localSubject identity;
  match subject with
  | None => mret None
  | Some subject => needed ← on_localAccounts (lad_passwordUpgradeNeeded subject); mret (Some needed)
  end.

Definition confirmPasswordUpgrade (identity : IdentityId) (password : string) : handler bool :=
  subject ← localSubject identity;
  match subject with
  | None => throw (Error_ofMessage FailedPrecondition "This identity has no local password.")
  | Some subject => on_localAccounts (lad_confirmPasswordUpgrade subject password)
  end.

(** The loops over the pending enrollments. That of [beginTotpEnrollment] reads
    the clock for the entries of other identities. *)
Definition ends (expired : bool) (identity : IdentityId) (pending : PendingTotpEnrollment.t) : handler bool :=
  if bool_decide (PendingTotpEnrollment.identity pending = identity) then mret true
  else if expired then
    now ← clock;
    mret (PendingTotpEnrollment.expiresAt pending <=? now)
  else mret false.

Definition erasePendingOne (expired : bool) (identity : IdentityId) (id : TotpEnrollmentId)
    (pending : PendingTotpEnrollment.t) : handler unit :=
  gone ← ends expired identity pending;
  if gone : bool then on_pending (fun m => (ok, delete id m)) else mret tt.

Fixpoint erasePending (expired : bool) (identity : IdentityId)
    (entries : list (TotpEnrollmentId * PendingTotpEnrollment.t)) : handler unit :=
  match entries with
  | [] => mret tt
  | (id, pending) :: entries =>
      _ ← erasePendingOne expired identity id pending;
      erasePending expired identity entries
  end.

Definition eachPending (expired : bool) (identity : IdentityId) : handler unit := fun s =>
  erasePending expired identity (map_iter (a_pendingTotp s)) s.

Definition requireLocalMethod (subject : option ExternalSubject) : handler ExternalSubject :=
  match subject with
  | None => throw (Error_ofMessage FailedPrecondition "A local email/password sign-in method is required.")
  | Some subject => mret subject
  end.

Definition beginTotpEnrollment (identity : IdentityId) (password : string) (currentAssurance : AssuranceLevel)
    : handler TotpEnrollmentStart.t :=
  subject ← localSubject identity;
  subject ← requireLocalMethod subject;
  _ ← on_localAccounts (lad_verifyPassword subject password);
  enabled ← on_localAccounts (lad_hasTotp subject);
  if enabled && negb (meetsAssurance currentAssurance Ial2) then
    throw (Error_ofMessage AssuranceInsufficient "Replacing an existing authenticator requires an IAL2 session.")
  else
    secret ← on_world (TotpSecret.generate 20);
    identifier ← on_world (randomTokenBase64Url kTotpEnrollmentIdEntropyBytes);
    let enrollmentId : TotpEnrollmentId := mkId ("opt_" +:+ identifier) in
    now ← clock;
    let expiresAt := now + kTotpEnrollmentLifetime in
    currentEnabled ← on_localAccounts (lad_hasTotp subject);
    if negb (bool_decide (currentEnabled = enabled)) then
      throw (Error_ofMessage FailedPrecondition "The authenticator state changed while enrollment was starting.")
    else
      _ ← eachPending true identity;
      let pending := PendingTotpEnrollment.mk identity subject secret expiresAt enabled 0 in
      (* [map::emplace] keeps an existing entry *)
      _ ← on_pending (fun m => (ok, match m !! enrollmentId with Some _ => m | None => <[enrollmentId := pending]> m end));
      mret (TotpEnrollmentStart.mk enrollmentId (TotpSecret.enrollmentBase32 secret) expiresAt enabled).

Definition forget (id : TotpEnrollmentId) : handler unit := on_pending (fun m => (ok, delete id m)).

(** A wrong code counts; the last one allowed ends the enrollment. *)
Definition countAttempt (id : TotpEnrollmentId) (pending : PendingTotpEnrollment.t) (e : Error) : handler unit :=
  if bool_decide (error_code e = AuthenticationFailed) then
    let tried := u32 (PendingTotpEnrollment.attempts pending + 1) in
    if kTotpEnrollmentMaximumAttempts <=? tried then forget id
    else on_pending (fun m => (ok, <[id := PendingTotpEnrollment.set_attempts tried pending]> m))
  else mret tt.

Definition completeTotpEnrollment (identity : IdentityId) (enrollmentId : TotpEnrollmentId)
    (verificationCode : string) (currentAssurance : AssuranceLevel) : handler unit :=
  if id_empty enrollmentId || negb (String.length verificationCode =? 6)%nat
     || negb (all_octets ascii_digit verificationCode) then
    throw (Error_ofMessage InvalidArgument "The authenticator verification code is invalid.")
  else
    found ← ask (fun s => Ok (a_pendingTotp s !! enrollmentId));
    match found with
    | None => throw (genericVerificationFailure "The authenticator enrollment is unknown.")
    | Some pending =>
        if negb (bool_decide (PendingTotpEnrollment.identity pending = identity)) then
          throw (genericVerificationFailure "The authenticator enrollment belongs to another identity.")
        else
          now ← clock;
          if PendingTotpEnrollment.expiresAt pending <=? now then
            _ ← forget enrollmentId;
            throw (genericVerificationFailure "The authenticator enrollment expired.")
          else if PendingTotpEnrollment.replacementAuthorized pending && negb (meetsAssurance currentAssurance Ial2) then
            throw (Error_ofMessage AssuranceInsufficient "Replacing an existing authenticator requires an IAL2 session.")
          else
            let subject := PendingTotpEnrollment.subject pending in
            enabled ← on_localAccounts (lad_hasTotp subject);
            if negb (bool_decide (enabled = PendingTotpEnrollment.replacementAuthorized pending)) then
              _ ← forget enrollmentId;
              throw (Error_ofMessage FailedPrecondition "The authenticator state changed during enrollment.")
            else
              now ← clock;
              installed ← attempt (on_localAccounts
                (lad_replaceTotp subject (PendingTotpEnrollment.secret pending) verificationCode now));
              match installed with
              | Ok _ => forget enrollmentId
              | Err e => _ ← countAttempt enrollmentId pending e; throw e
              | Aborted => fun s => (Aborted, s)
              end
    end.

Definition disableTotp (identity : IdentityId) (password : string) (currentAssurance : AssuranceLevel) : handler unit :=
  if negb (meetsAssurance currentAssurance Ial2) then
    throw (Error_ofMessage AssuranceInsufficient "Disabling an authenticator requires an IAL2 session.")
  else
    subject ← localSubject identity;
    subject ← requireLocalMethod subject;
    _ ← on_localAccounts (lad_verifyPassword subject password);
    enabled ← on_localAccounts (lad_hasTotp subject);
    if negb enabled then
      throw (Error_ofMessage FailedPrecondition "TOTP is not enabled for this local account.")
    else
      _ ← eachPending false identity;
      _ ← on_recoveryCodes (RecoveryCodeService.revoke identity);
      on_localAccounts (lad_removeTotp subject).
End service.
End AccountService.
