(* ===== verification/AccountSecurity.v ===== *)
(** * openproof.account: what verification proves

    A verification secret can be guessed at a bounded number of times; what an
    account operation attaches was verified; a password reset ends every
    session; and no operation takes a sign-in subject away from its owner. *)
From S2P Require Import Prelude Foundation Encoding Security Provider IdentityCore Link Profile Wire Authentication Session SessionService Credentials LocalAccounts Account.

(** ** Guessing *)

Section guessing.
Context `{Plat : Platform}.
Import InMemoryAccountRepository.
Implicit Types (r : InMemoryAccountRepository.t).

(** An operation of the repository. *)
Inductive account_store_op :=
  | AReplace (c : VerificationChallenge.t)
  | AConsume (id : VerificationId) (presented : VerificationDigest) (now : Instant) (expected : option IdentityId)
  | AReserve (external : ExternalIdentityRef.t) (owner : IdentityId) (now expires : Instant)
  | ARelease (external : ExternalIdentityRef.t) (owner : IdentityId).

Context (maximumAttempts : Z).

Definition store_run (o : account_store_op) r : result Error unit * InMemoryAccountRepository.t :=
  match o with
  | AReplace c => replace c r
  | AConsume id presented now expected =>
      let '(answer, r) := consume id presented now maximumAttempts expected r in (_ ← answer; Ok tt, r)
  | AReserve external owner now expires => reserveSubject external owner now expires r
  | ARelease external owner => releaseSubject external owner r
  end.
Definition account_store_step (o : account_store_op) r : InMemoryAccountRepository.t := (store_run o r).2.

(** The operation stores a challenge with this identifier. *)
Definition stores_challenge (id : VerificationId) (o : account_store_op) r : bool :=
  match o with AReplace c => bool_decide (VerificationChallenge.id c = id) | _ => false end.

(** The operation compares a presented secret with that of the challenge. *)
Definition guesses (id : VerificationId) (o : account_store_op) r : bool :=
  match o with
  | AConsume id' _ now expected =>
      bool_decide (id' = id) && negb (maximumAttempts =? 0)
      && match challenges r !! id with
         | None => false
         | Some found =>
             match expected with
             | Some owner => bool_decide (VerificationChallenge.identity (challenge found) = owner)
             | None => true
             end
             && negb (VerificationChallenge.expiredAt (challenge found) now)
             && negb (maximumAttempts <=? attempts found)
         end
  | _ => false
  end.

(** The operation proves the challenge. *)
Definition proves (id : VerificationId) (o : account_store_op) r : bool :=
  match o with AConsume id' _ _ _ => bool_decide (id' = id) && is_ok (store_run o r).1 | _ => false end.

Definition guesses_left (id : VerificationId) r : nat :=
  match challenges r !! id with Some found => Z.to_nat (maximumAttempts - attempts found) | None => 0 end.

Definition open_challenges (id : VerificationId) r : nat :=
  match challenges r !! id with Some _ => 1 | None => 0 end.

(** Attempts are counted from zero. *)
Definition counted r : Prop :=
  forall id found, challenges r !! id = Some found -> 0 <= attempts found.

Lemma kept_challenge c r id found :
  filter (fun old => replaced_by c old = false) (challenges r) !! id = Some found -> challenges r !! id = Some found.
Proof. by intros [? _]%map_lookup_filter_Some. Qed.

Lemma replace_challenges c r id :
  challenges (replace c r).2 !! id =
    if decide (id = VerificationChallenge.id c /\
               filter (fun old => replaced_by c old = false) (challenges r) !! id = None)
    then Some (mkChallenge c 0)
    else filter (fun old => replaced_by c old = false) (challenges r) !! id.
Proof.
  unfold replace. cbn [snd challenges]. set (kept := filter _ _). clearbody kept.
  destruct (kept !! VerificationChallenge.id c) as [x|] eqn:Hk.
  - rewrite decide_False; [done|]. intros [-> Hn]. congruence.
  - destruct (decide (id = VerificationChallenge.id c)) as [->|Hne].
    + by rewrite lookup_insert_eq, decide_True.
    + rewrite lookup_insert_ne, decide_False by (done || (by intros [? _])). done.
Qed.

Lemma consume_challenges id presented now expected r :
  let o := AConsume id presented now expected in
  (forall id', id' <> id -> challenges (account_store_step o r) !! id' = challenges r !! id') /\
  match challenges r !! id with
  | None => challenges (account_store_step o r) !! id = None
  | Some found =>
      let after := challenges (account_store_step o r) !! id in
      after = None \/
      (guesses id o r = true /\ after = Some (mkChallenge (challenge found) (u32 (attempts found + 1))) /\
       u32 (attempts found + 1) < maximumAttempts) \/
      (guesses id o r = false /\ after = Some found)
  end /\
  (guesses id o r = false -> proves id o r = false).
Proof.
  cbv zeta. unfold account_store_step, store_run, proves, guesses, store_run, consume.
  rewrite bool_decide_eq_true_2 by done. cbn [andb].
  destruct (maximumAttempts =? 0) eqn:Hmax.
  { cbn [negb andb fst snd]. split; [done|]. split; [|done]. destruct (challenges r !! id) eqn:E; [|done]. by right; right. }
  destruct (challenges r !! id) as [found|] eqn:E; [|by split].
  assert (Hexp : match expected with Some x => negb (bool_decide (VerificationChallenge.identity (challenge found) = x)) | None => false end
    = negb (match expected with Some x => bool_decide (VerificationChallenge.identity (challenge found) = x) | None => true end)) by (by destruct expected).
  rewrite Hexp. destruct (match expected with Some _ => _ | None => true end); cbn [negb andb];
    [|split; [done|]; split; [by right; right|done]].
  destruct (VerificationChallenge.expiredAt (challenge found) now) eqn:He; cbn [negb andb orb].
  { cbn [fst snd with_challenges challenges]. split; [by intros; apply lookup_delete_ne|]. split; [|done].
    left. apply lookup_delete_eq. }
  destruct (maximumAttempts <=? attempts found) eqn:Ha; cbn [negb andb orb].
  { cbn [fst snd with_challenges challenges]. split; [by intros; apply lookup_delete_ne|]. split; [|done].
    left. apply lookup_delete_eq. }
  destruct (negb (constantTimeEquals _ _)).
  - destruct (maximumAttempts <=? u32 (attempts found + 1)) eqn:Ht; cbn [fst snd with_challenges challenges].
    + split; [by intros; apply lookup_delete_ne|]. split; [|done]. left. apply lookup_delete_eq.
    + split; [by intros; apply lookup_insert_ne|]. split; [|done]. right. left. split; [done|].
      split; [apply lookup_insert_eq|]. apply Z.leb_gt in Ht. done.
  - cbn [fst snd with_challenges challenges]. split; [by intros; apply lookup_delete_ne|]. split; [|done].
    left. apply lookup_delete_eq.
Qed.

Lemma store_challenges o r :
  match o with AReserve _ _ _ _ | ARelease _ _ => challenges (account_store_step o r) = challenges r | _ => True end.
Proof.
  destruct o; try done; unfold account_store_step, store_run, reserveSubject, releaseSubject; repeat case_match; done.
Qed.

Lemma counted_step o r : counted r -> counted (account_store_step o r).
Proof.
  intros Hc. destruct o as [c|id presented now expected|external owner now expires|external owner]; intros id' found Hf.
  - unfold account_store_step, store_run in Hf. rewrite replace_challenges in Hf. case_decide; [by injection Hf as <-|]. by eapply Hc, kept_challenge.
  - destruct (consume_challenges id presented now expected r) as (Hother & Hsame & _).
    destruct (decide (id' = id)) as [->|Hne]; [|rewrite Hother in Hf by done; by eapply Hc].
    destruct (challenges r !! id) as [old|] eqn:Hold; [|congruence].
    destruct Hsame as [Hs|[(_ & Hs & _)|[_ Hs]]]; rewrite Hs in Hf; [done| |].
    + injection Hf as <-. cbn. unfold u32. apply Z.mod_pos_bound. lia.
    + injection Hf as <-. by eapply Hc.
  - pose proof (store_challenges (AReserve external owner now expires) r) as E. cbn in E. rewrite E in Hf. by eapply Hc.
  - pose proof (store_challenges (ARelease external owner) r) as E. cbn in E. rewrite E in Hf. by eapply Hc.
Qed.

Lemma guess_step id o r :
  0 <= maximumAttempts < 2 ^ 32 -> counted r ->
  ((if guesses id o r then 1 else 0) + guesses_left id (account_store_step o r)
   <= Z.to_nat maximumAttempts * (if stores_challenge id o r then 1 else 0) + guesses_left id r)%nat.
Proof.
  intros Hm Hc. unfold guesses_left. destruct o as [c|id' presented now expected|external owner now expires|external owner].
  - unfold account_store_step, store_run. cbn [guesses stores_challenge]. rewrite replace_challenges.
    destruct (filter (fun old => replaced_by c old = false) (challenges r) !! id) as [found|] eqn:Hk.
    + rewrite decide_False by (by intros [_ ?]). rewrite (kept_challenge _ _ _ _ Hk). lia.
    + case_decide as Hd; [|lia]. destruct Hd as [-> _]. rewrite bool_decide_eq_true_2 by done. cbn [attempts]. lia.
  - destruct (consume_challenges id' presented now expected r) as (Hother & Hsame & _).
    cbn [stores_challenge]. destruct (decide (id' = id)) as [->|Hne].
    + destruct (challenges r !! id) as [found|] eqn:Hold.
      * pose proof (Hc _ _ Hold) as H0.
        destruct Hsame as [Hs|[(Hg & Hs & Hlt)|[Hg Hs]]].
        -- rewrite Hs. destruct (guesses id _ r) eqn:Hg; [|lia]. cbn [guesses] in Hg. rewrite Hold in Hg. bool_prop. lia.
        -- rewrite Hg, Hs. cbn [attempts]. cbn [guesses] in Hg. rewrite Hold in Hg. bool_prop.
           assert (u32 (attempts found + 1) = attempts found + 1) as -> by (unfold u32; apply Z.mod_small; lia). lia.
        -- rewrite Hg, Hs. lia.
      * rewrite Hsame. cbn [guesses]. rewrite Hold, andb_false_r. lia.
    + rewrite Hother by done. cbn [guesses]. rewrite bool_decide_eq_false_2 by done. cbn [andb]. lia.
  - pose proof (store_challenges (AReserve external owner now expires) r) as E. cbn in E. rewrite E. cbn. lia.
  - pose proof (store_challenges (ARelease external owner) r) as E. cbn in E. rewrite E. cbn. lia.
Qed.

Lemma prove_step id o r :
  ((if proves id o r then 1 else 0) + open_challenges id (account_store_step o r)
   <= (if stores_challenge id o r then 1 else 0) + open_challenges id r)%nat.
Proof.
  unfold open_challenges. destruct o as [c|id' presented now expected|external owner now expires|external owner].
  - unfold account_store_step, store_run. cbn [proves stores_challenge]. rewrite replace_challenges.
    destruct (filter (fun old => replaced_by c old = false) (challenges r) !! id) as [found|] eqn:Hk.
    + rewrite decide_False by (by intros [_ ?]). rewrite (kept_challenge _ _ _ _ Hk). lia.
    + case_decide as Hd; [|lia]. destruct Hd as [-> _]. rewrite bool_decide_eq_true_2 by done. lia.
  - destruct (decide (id' = id)) as [->|Hne].
    + destruct (proves id (AConsume id presented now expected) r) eqn:Hp.
      * unfold proves, account_store_step, store_run, consume in *. rewrite bool_decide_eq_true_2 in Hp by done. cbn [andb] in Hp.
        destruct (maximumAttempts =? 0); [done|]. destruct (challenges r !! id) as [found|]; [|done].
        destruct (match expected with Some _ => _ | None => _ end); [done|]. destruct (_ || _); [done|].
        destruct (negb (constantTimeEquals _ _)); [destruct (maximumAttempts <=? _); done|].
        cbn [snd with_challenges challenges]. rewrite lookup_delete_eq. lia.
      * destruct (consume_challenges id presented now expected r) as (_ & Hsame & _).
        destruct (challenges r !! id) as [found|]; [|rewrite Hsame; lia]. destruct (challenges _ !! id); lia.
    + destruct (consume_challenges id' presented now expected r) as (Hother & _). rewrite Hother by done.
      cbn [proves]. rewrite bool_decide_eq_false_2 by done. cbn [andb]. lia.
  - pose proof (store_challenges (AReserve external owner now expires) r) as E. cbn in E. rewrite E. cbn. lia.
  - pose proof (store_challenges (ARelease external owner) r) as E. cbn in E. rewrite E. cbn. lia.
Qed.

(** C18: A verification secret cannot be guessed at for long. Over any history
    of the repository, however the presented secrets are chosen, a challenge is
    compared with at most the allowed number of them each time one is stored
    under its identifier, and it is proved at most once. *)
Theorem verification_guesses_are_bounded id ops :
  0 <= maximumAttempts < 2 ^ 32 ->
  (count_steps account_store_step (guesses id) ops empty
   <= Z.to_nat maximumAttempts * count_steps account_store_step (stores_challenge id) ops empty)%nat /\
  (count_steps account_store_step (proves id) ops empty
   <= count_steps account_store_step (stores_challenge id) ops empty)%nat.
Proof.
  intros Hm. split.
  - pose proof (taken_within_given_times account_store_step counted (Z.to_nat maximumAttempts) (guesses id)
      (stores_challenge id) (guesses_left id) ops empty) as H.
    cut (guesses_left id empty = 0%nat); [intros E; rewrite E, Nat.add_0_r in H; apply H|reflexivity].
    + intros o r Hc. split; [by apply counted_step|by apply guess_step].
    + intros x found H'. cbn [empty challenges] in H'. by rewrite lookup_empty in H'.
  - pose proof (taken_within_given account_store_step (proves id) (stores_challenge id) (open_challenges id) ops empty
      (prove_step id)) as H. assert (open_challenges id empty = 0%nat) as E by reflexivity. rewrite E in H. lia.
Qed.
End guessing.

(** ** The code of a text message *)

Section numeric.
Context `{Plat : Platform}.

(** The digit an accepted octet stands for. *)
Definition digit_of (raw : byte) : ascii := ascii_of_N (Z.to_N (48 + byteValue raw mod 10)).

Lemma accepted_digit_is_decimal raw : ascii_digit (digit_of raw) = true.
Proof. by destruct raw; vm_compute. Qed.

(** What one draw appends: never too much, and something if an octet of it is
    accepted. *)
Lemma appendDigits_grows digits bytes output :
  (String.length output < digits)%nat -> all_octets ascii_digit output = true ->
  (String.length output <= String.length (appendDigits digits bytes output) <= digits)%nat /\
  all_octets ascii_digit (appendDigits digits bytes output) = true /\
  (Exists (fun b => byteValue b < 250) bytes ->
   (String.length output < String.length (appendDigits digits bytes output))%nat).
Proof.
  revert output. induction bytes as [|raw bytes IH]; intros output Hlen Hdec; cbn [appendDigits].
  { split; [lia|]. split; [done|]. by intros ?%Exists_nil. }
  destruct (Z.leb_spec 250 (byteValue raw)) as [Hb|Hb].
  { destruct (IH output Hlen Hdec) as (Hr & Hd & He). split; [done|]. split; [done|].
    intros [?|?]%Exists_cons; [lia|auto]. }
  fold (digit_of raw). set (longer := output +:+ String (digit_of raw) "").
  assert (String.length longer = Datatypes.S (String.length output)) as Hl.
  { unfold longer. rewrite slength_app. cbn. lia. }
  assert (all_octets ascii_digit longer = true) as Hd.
  { unfold longer. rewrite all_octets_app, Hdec. cbn [all_octets andb]. by rewrite accepted_digit_is_decimal. }
  clearbody longer. destruct (Nat.eqb_spec (String.length longer) digits) as [E|E].
  { rewrite <- E. split; [lia|]. split; [done|]. lia. }
  destruct (IH longer ltac:(lia) Hd) as (Hr & Hd' & _). split; [lia|]. split; [done|]. lia.
Qed.

(** The octets drawn at this world: as many as asked for, one of them accepted. *)
Definition draws (digits : nat) : Prop :=
  forall w, exists bytes w', RAND_bytes (digits * 2) w = (Some bytes, w') /\ Exists (fun b => byteValue b < 250) bytes.

Lemma numericCodeLoop_ends digits fuel output w :
  draws digits -> (0 < digits)%nat -> Z.of_nat (digits * 2) <= intMax ->
  (String.length output <= digits)%nat -> all_octets ascii_digit output = true ->
  (digits - String.length output <= fuel)%nat ->
  exists code w', numericCodeLoop fuel digits output w = (Ok code, w') /\
    String.length code = digits /\ all_octets ascii_digit code = true.
Proof.
  intros Hdraws Hpos Hmax. revert output w. induction fuel as [|fuel IH]; intros output w Hlen Hdec Hfuel; cbn [numericCodeLoop];
    destruct (Nat.leb_spec digits (String.length output)) as [Hd|Hd]; try lia.
  1, 2: exists output, w; split; [done|]; split; [lia|done].
  destruct (Hdraws w) as (bytes & w' & Hrand & Hgood).
  assert (randomBytes (digits * 2) w = (Ok bytes, w')) as Hrun.
  { unfold randomBytes. destruct (Nat.eqb_spec (digits * 2) 0); [lia|].
    destruct (Z.ltb_spec intMax (Z.of_nat (digits * 2))); [lia|]. by rewrite Hrand. }
  rewrite (bind_run _ _ _ _ _ Hrun).
  destruct (appendDigits_grows digits bytes output Hd Hdec) as (Hr & Hdec' & Hmore).
  specialize (Hmore Hgood). apply IH; [lia|done|lia].
Qed.

(** C39: The code of a text message is complete, decimal and fair. As long as
    every draw succeeds and holds one octet below 250, no more than one draw
    for each digit is needed, whatever the bound on the draws, and the result is
    exactly that many decimal digits; and each of the ten digits stands for
    exactly 25 of the octets that are accepted. *)
Theorem numeric_code_is_complete digits fuel w :
  draws digits -> (0 < digits <= fuel)%nat -> Z.of_nat (digits * 2) <= intMax ->
  (exists code w', numericCodeLoop fuel digits "" w = (Ok code, w') /\
     String.length code = digits /\ all_octets ascii_digit code = true) /\
  forall d, 0 <= d < 10 ->
    length (filter (fun b => appendDigits digits [b] "" = String (ascii_of_N (Z.to_N (48 + d))) "")
              (toByte <$> seqZ 0 256)) = 25%nat.
Proof.
  intros Hdraws Hdigits Hmax. split; [apply numericCodeLoop_ends; cbn; try done; lia|].
  intros d Hd. destruct digits as [|digits]; [lia|].
  rewrite (list_filter_iff _ (fun b => byteValue b < 250 /\ byteValue b mod 10 = d)).
  - assert (d = 0 \/ d = 1 \/ d = 2 \/ d = 3 \/ d = 4 \/ d = 5 \/ d = 6 \/ d = 7 \/ d = 8 \/ d = 9) as Hcases by lia.
    repeat (destruct Hcases as [-> | Hcases]; [vm_compute; reflexivity|]). subst. vm_compute. reflexivity.
  - intros b. cbn [appendDigits]. destruct (Z.leb_spec 250 (byteValue b)) as [Hb|Hb]; [split; [done|lia]|].
    fold (digit_of b). replace (if (_ =? _)%nat then _ else _) with (String (digit_of b) "") by (by destruct (_ =? _)%nat).
    unfold digit_of.
    pose proof (Z.mod_pos_bound (byteValue b) 10 ltac:(lia)). split; [intros E|intros [_ E]; by rewrite E].
    split; [done|]. injection E as E. apply (f_equal N_of_ascii) in E. rewrite !N_ascii_embedding in E by lia. lia.
Qed.
End numeric.

(** ** Proofs and what they allow *)

Section proofs.
Context `{Plat : Platform, !PlatformLaws Plat}.
Context {I D P T R S U : Type}
  `{!IdentityRepository I, !ExternalIdentityDirectory D, !IdentityProfileRepository P, !LocalAccountDirectory T,
    !RecoveryCodeRepository R, !SessionRepository S}.
Import AccountService.
Context (c : AccountService.t U world).
Abbreviation state := (accounts I D P T R InMemoryAccountRepository.t S U world).
Implicit Types s : state.

Abbreviation account_challenges s := (InMemoryAccountRepository.challenges (a_repository s)).

(** The presented secret proves this stored challenge at the time of [s]. *)
Definition proved (id : VerificationId) (secret : string) (purpose : VerificationPurpose)
    (challenge : VerificationChallenge.t) s : Prop :=
  exists attempts t w,
    account_challenges s !! id = Some (InMemoryAccountRepository.mkChallenge challenge attempts) /\
    digest c id secret = Ok (VerificationChallenge.digest challenge) /\
    VerificationChallenge.purpose challenge = purpose /\
    clock_now (a_world s) = (t, w) /\ t < VerificationChallenge.expiresAt challenge /\
    attempts < AccountPolicy.maximumAttempts (m_policy c).

Lemma account_clock_run s : exists t w, clock_now (a_world s) = (t, w) /\ clock s = (Ok t, set_world w s).
Proof. unfold clock, on_world, zoom, now. destruct (clock_now _) as [t w]. by exists t, w. Qed.

(** What [consume] answers with, and all it leaves changed. *)
Lemma consume_ok id secret purpose expected s challenge s' :
  consume c id secret purpose expected s = (Ok challenge, s') ->
  proved id secret purpose challenge s /\
  (forall owner, expected = Some owner -> VerificationChallenge.identity challenge = owner) /\
  exists w, s' = mkAccounts (a_identities s) (a_externalIdentities s) (a_profiles s) (a_localAccounts s)
    (a_recoveryCodes s) (InMemoryAccountRepository.with_challenges (delete id) (a_repository s)) (a_sessions s)
    (a_pendingTotp s) (a_delivery s) w.
Proof.
  intros (fp & s0 & (Hfp & ->)%lift_ok & H)%prog_bind_ok.
  destruct (account_clock_run s) as (t & w & Ht & Hrun). rewrite (bind_run _ _ _ _ _ Hrun) in H.
  apply prog_bind_ok in H as (found & s1 & (r & Hr & ->)%zoom_eq & H).
  branch H Hp; [done|]. injection H as <- <-. cbn [set_world a_repository] in Hr.
  unfold ar_consume, InMemoryAccountRepository.in_memory_accounts, InMemoryAccountRepository.consume in Hr.
  branch Hr Hz; [done|].
  destruct (InMemoryAccountRepository.challenges (a_repository s) !! id) as [[ch n]|] eqn:Hch; [|done].
  cbn [InMemoryAccountRepository.challenge InMemoryAccountRepository.attempts] in Hr.
  branch Hr He; [done|]. branch Hr Hx; [done|]. branch Hr Hd; [by destruct (_ <=? _)|]. injection Hr as <- <-.
  rewrite constant_time_equals_spec in Hd. unfold VerificationChallenge.expiredAt in Hx. bool_prop. subst.
  split; [|split].
  - by exists n, t, w.
  - intros owner ->. by bool_prop.
  - by exists w.
Qed.
End proofs.

Section reset.
Context `{Plat : Platform, !PlatformLaws Plat}.
Context {I D P T R U : Type}
  `{!IdentityRepository I, !ExternalIdentityDirectory D, !IdentityProfileRepository P, !LocalAccountDirectory T,
    !RecoveryCodeRepository R}.
Import AccountService.
Context (c : AccountService.t U world).
Implicit Types s : accounts I D P T R InMemoryAccountRepository.t InMemorySessionRepository.t U world.

(** C17: A password reset is earned and ends every session. When it succeeds, the
    presented secret proved an unexpired challenge of that purpose, which is
    spent; the address it was sent to still belongs to the identity it was
    issued for; that account has the new password, of an accepted length; no
    identity, link or profile changed; and whatever operations of the session
    repository follow, as long as none opens a session for the identity, no
    token opens one of its sessions. *)
Theorem password_reset_is_earned id secret newPassword s s' :
  consistent (a_sessions s) ->
  completePasswordReset c id secret newPassword s = (Ok tt, s') ->
  exists challenge,
    let owner := VerificationChallenge.identity challenge in
    let subject : ExternalSubject := mkId (VerificationChallenge.destination challenge) in
    proved c id secret PasswordReset challenge s /\
    InMemoryAccountRepository.challenges (a_repository s') !! id = None /\
    ed_ownerOf (a_externalIdentities s) (ExternalIdentityRef.mk (m_localProvider c) subject None None None)
      = Ok (Some owner) /\
    (exists w w', lad_changePassword subject newPassword (mkWith (a_localAccounts s) w)
                  = (Ok tt, mkWith (a_localAccounts s') w')) /\
    (8 <= String.length newPassword <= 1024)%nat /\
    (a_identities s', a_externalIdentities s', a_profiles s')
      = (a_identities s, a_externalIdentities s, a_profiles s) /\
    forall os token now x,
      Forall (fun o => match o with SAdd x => Session.identity x <> owner | _ => True end) os ->
      (sr_use token now (session_run os (a_sessions s'))).1 = Ok x -> Session.identity x <> owner.
Proof.
  intros Hc H. unfold completePasswordReset in H. branch H Hpw; [done|].
  apply prog_bind_ok in H as (challenge & s1 & (Hproved & _ & w & ->)%(consume_ok c) & H).
  exists challenge. intros owner subject. split; [done|].
  apply prog_bind_ok in H as (found & s2 & Howner & H). unfold ownerOf, ask, attempt in Howner.
  branch H Ho; [done|]. bool_prop. subst found.
  cbn [a_externalIdentities] in Howner.
  destruct (ed_ownerOf (a_externalIdentities s) _) as [o|e|] eqn:Hown; [|done..].
  injection Howner as -> <-. fold owner subject in Hown.
  apply prog_bind_ok in H as ([] & s3 & ([accounts w1] & Hchange & ->)%zoom_eq & H).
  apply prog_bind_ok in H as (n & s4 & ([sessions [] w2] & Hrevoke & ->)%zoom_eq & [= <-]).
  cbn [a_localAccounts a_world ExternalIdentityRef.subject v_store v_world] in Hchange, Hrevoke.
  cbn [a_repository InMemoryAccountRepository.with_challenges InMemoryAccountRepository.challenges
    a_localAccounts a_identities a_externalIdentities a_profiles a_sessions s_sessions v_store].
  split; [apply lookup_delete_eq|]. split; [done|]. split; [by exists w, w1|].
  split; [unfold outside_password_range in Hpw; bool_prop; split; [by apply Nat.ltb_ge|by apply Nat.ltb_ge]|].
  split; [done|]. intros os token now x Hos.
  unfold SessionService.revokeAll in Hrevoke.
  apply prog_bind_ok in Hrevoke as (t & s5 & (w3 & Hnow & ->)%zoom_eq & (r' & Hr & Heq)%zoom_eq).
  injection Heq as -> _. cbn [s_sessions a_sessions] in Hr.
  edestruct (revokeAll_closes owner t (a_sessions s) Hc) as (k & r1 & Hr1 & Hclosed & Hc').
  fold owner in Hr. rewrite Hr1 in Hr. injection Hr as <- ->.
  by apply (closed_refuses (fun x => Session.identity x = owner));
    [intros ?? (_ & -> & _)|..].
Qed.
End reset.

Lemma mutate_move (f : prog IdentityLink.t Error unit) move l l' :
  f = IdentityLink.run_move move -> mutate f l = Ok l' ->
  IdentityLink.owner l' = IdentityLink.owner l /\ IdentityLink.external l' = IdentityLink.external l.
Proof.
  intros ->. unfold mutate. intros Hm. destruct (IdentityLink.run_move_frame move l) as [st Hst].
  destruct (IdentityLink.run_move move l) as [[[]|e|] l1]; [|done..].
  cbn in Hm, Hst. injection Hm as <-. subst. done.
Qed.

Section signup.
Context `{Plat : Platform, !PlatformLaws Plat}.
Context {I D T R S U : Type}
  `{IdentityRepositoryLaws I, ExternalIdentityDirectoryLaws D, !LocalAccountDirectory T,
    !RecoveryCodeRepository R, !SessionRepository S}.
Import AccountService.
Context (c : AccountService.t U world).
Abbreviation state :=
  (accounts I D InMemoryIdentityProfileRepository.t T R InMemoryAccountRepository.t S U world).
Implicit Types s : state.

(** A completed attachment: the subject was free or already the identity's. *)
Lemma account_attach_ok identity external s s' :
  attachVerified identity external s = (Ok tt, s') ->
  let k := ExternalIdentityRef.key external in
  exists d w,
    (ed_owner (a_externalIdentities s) k = None \/ ed_owner (a_externalIdentities s) k = Some identity) /\
    (forall k', ed_owner d k' = if decide (k' = k) then Some identity else ed_owner (a_externalIdentities s) k') /\
    s' = mkAccounts (a_identities s) d (a_profiles s) (a_localAccounts s) (a_recoveryCodes s) (a_repository s)
      (a_sessions s) (a_pendingTotp s) (a_delivery s) w.
Proof.
  intros Hrun. cbv zeta.
  apply prog_bind_ok in Hrun as (t1 & s1 & (w1 & _ & ->)%zoom_eq & Hrun).
  apply prog_bind_ok in Hrun as (l1 & s2 & [Hreq ->]%lift_ok & Hrun).
  apply prog_bind_ok in Hrun as (t2 & s2 & (w2 & _ & ->)%zoom_eq & Hrun).
  apply prog_bind_ok in Hrun as (l2 & s3 & [[Ho2 Hx2]%(mutate_move _ (IdentityLink.RequireVerification, t2) _ _ eq_refl) ->]%lift_ok & Hrun).
  apply prog_bind_ok in Hrun as (t3 & s3 & (w3 & _ & ->)%zoom_eq & Hrun).
  apply prog_bind_ok in Hrun as (l3 & s4 & [[Ho3 Hx3]%(mutate_move _ (IdentityLink.MarkVerified, t3) _ _ eq_refl) ->]%lift_ok & Hrun).
  apply prog_bind_ok in Hrun as (t4 & s4 & (w4 & _ & ->)%zoom_eq & Hrun).
  apply prog_bind_ok in Hrun as (l4 & s5 & [[Ho4 Hx4]%(mutate_move _ (IdentityLink.Complete, t4) _ _ eq_refl) ->]%lift_ok & Hrun).
  apply zoom_eq in Hrun as (d & Hattach & ->). cbn [a_externalIdentities set_world] in Hattach.
  apply ed_attach_ok in Hattach as (_ & Hfree & Howner).
  assert (IdentityLink.owner l4 = identity /\ IdentityLink.external l4 = external) as [E1 E2].
  { unfold IdentityLink.request in Hreq. handler Hreq. cbn in *. split; congruence. }
  rewrite E1, E2 in Howner, Hfree. by exists d, w4.
Qed.

Lemma release_ok external owner s s' :
  release external owner s = (Ok tt, s') ->
  InMemoryAccountRepository.reservations (a_repository s') !! ExternalIdentityRef.key external = None /\
  exists r, InMemoryAccountRepository.challenges r = InMemoryAccountRepository.challenges (a_repository s) /\
    s' = mkAccounts (a_identities s) (a_externalIdentities s) (a_profiles s) (a_localAccounts s)
      (a_recoveryCodes s) r (a_sessions s) (a_pendingTotp s) (a_delivery s) (a_world s).
Proof.
  intros (r & Hr & ->)%zoom_eq. cbn [a_repository].
  cbn [ar_releaseSubject InMemoryAccountRepository.in_memory_accounts] in Hr.
  unfold InMemoryAccountRepository.releaseSubject in Hr.
  destruct (InMemoryAccountRepository.reservations (a_repository s) !! _) as [found|] eqn:E.
  - destruct (negb _); [done|]. injection Hr as <-. split; [apply lookup_delete_eq|]. eexists; split; [|reflexivity]; reflexivity.
  - injection Hr as <-. split; [done|]. eexists; split; [|reflexivity]; reflexivity.
Qed.

Lemma setEmail_ok email verified profile s profile' s' :
  setEmail email verified profile s = (Ok profile', s') ->
  IdentityProfile.identity profile' = IdentityProfile.identity profile /\
  IdentityProfile.email profile' = Some email /\ IdentityProfile.emailVerified profile' = verified /\
  exists w, s' = set_world w s.
Proof.
  intros (t & s1 & (w & _ & ->)%zoom_eq & [Hm ->]%lift_ok)%prog_bind_ok.
  unfold mutate, IdentityProfile.setEmail in Hm. destruct (_ || _); [done|].
  injection Hm as <-. cbn. split_and!; try done. by exists w.
Qed.

Lemma requireProfile_ok identity s profile s' :
  requireProfile identity s = (Ok profile, s') -> a_profiles s !! identity = Some profile /\ s' = s.
Proof.
  unfold requireProfile, ask. intros (found & s1 & [= Hf <-] & Hrun)%prog_bind_ok.
  destruct found; [|done]. by injection Hrun as -> ->.
Qed.

Lemma reservedOwner_ok external owner s s' :
  attempt (reservedOwner external) s = (Ok (Ok (Some owner)), s') ->
  exists w, s' = set_world w s /\
    InMemoryAccountRepository.identity <$>
      (InMemoryAccountRepository.reservations (a_repository s) !! ExternalIdentityRef.key external) = Some owner.
Proof.
  destruct (account_clock_run s) as (t & w & _ & Hclock).
  unfold attempt, reservedOwner. rewrite (bind_run _ _ _ _ _ Hclock). unfold ask.
  cbn [ar_reservedOwner InMemoryAccountRepository.in_memory_accounts set_world a_repository].
  unfold InMemoryAccountRepository.reservedOwner.
  destruct (InMemoryAccountRepository.reservations (a_repository s) !! _) as [found|]; [|done].
  destruct (_ <=? _); [done|]. intros [= <- <-]. by exists w.
Qed.

Abbreviation linked s k := (ed_owner (a_externalIdentities s) k).
Abbreviation seen s := (ir_view (a_identities s)).

(** C16: A verified email sign-in is earned. When the verification of a signup
    succeeds, the presented secret proved an unexpired challenge of that
    purpose, which is spent; the challenge's identity held the reservation of
    the address it was sent to, which is released; that subject was free or
    already this identity's and is now linked to it, every other link being what
    it was; the stored profile of the identity shows the address as verified;
    the identity is active, no other changed; and neither a session nor a
    password was touched. *)
Theorem verified_email_is_earned id secret s external s' :
  (forall i p, a_profiles s !! i = Some p -> IdentityProfile.identity p = i) ->
  verifyEmailAndGetExternal c id secret s = (Ok external, s') ->
  exists challenge profile ident,
    let owner := VerificationChallenge.identity challenge in
    let email := VerificationChallenge.destination challenge in
    let k := ExternalIdentityRef.key external in
    proved c id secret SignupEmail challenge s /\
    InMemoryAccountRepository.challenges (a_repository s') !! id = None /\
    external = ExternalIdentityRef.mk (m_localProvider c) (mkId email) None None None /\
    InMemoryAccountRepository.identity <$> (InMemoryAccountRepository.reservations (a_repository s) !! k) = Some owner /\
    InMemoryAccountRepository.reservations (a_repository s') !! k = None /\
    (linked s k = None \/ linked s k = Some owner) /\
    (forall k', linked s' k' = if decide (k' = k) then Some owner else linked s k') /\
    a_profiles s' !! owner = Some profile /\
    IdentityProfile.email profile = Some email /\ IdentityProfile.emailVerified profile = true /\
    (forall org i, seen s' org i =
      if decide (org = m_organization c /\ i = owner) then Some ident else seen s org i) /\
    Identity.status ident = Active /\
    a_sessions s' = a_sessions s /\ a_localAccounts s' = a_localAccounts s.
Proof.
  intros Hkeyed Hrun. unfold verifyEmailAndGetExternal in Hrun.
  apply prog_bind_ok in Hrun as (challenge & s1 & (Hproved & _ & w & ->)%(consume_ok c) & Hrun).
  apply prog_bind_ok in Hrun as (reserved & s2 & Hreserved & Hrun). branch Hrun Hr; [done|]. bool_prop. subst reserved.
  apply prog_bind_ok in Hrun as (found & s3 & Hfound & Hrun).
  apply prog_bind_ok in Hrun as (profile & s4 & (Hpi & Hpe & Hpv & w4 & ->)%setEmail_ok & Hrun).
  apply prog_bind_ok in Hrun as ([] & s5 & (profiles & [= <-] & ->)%zoom_eq & Hrun).
  apply prog_bind_ok in Hrun as ([] & s6 & (d & w6 & Hfree & Howner & ->)%orUndo_ok%account_attach_ok & Hrun).
  apply prog_bind_ok in Hrun as ([] & s7 & (identities & Hstatus & ->)%orUndo_ok%zoom_eq & Hrun).
  apply prog_bind_ok in Hrun as ([] & s8 & (Hgone & r & Hch & ->)%release_ok & [= <- <-]).
  apply ir_changeStatus_view in Hstatus as (i & ident & _ & [_ ->]%Identity.changeStatus_ok & Hview).
  apply reservedOwner_ok in Hreserved as (w2 & -> & Hres).
  apply requireProfile_ok in Hfound as [Hfound ->]. apply Hkeyed in Hfound. rewrite Hfound in Hpi.
  cbn [a_repository a_profiles a_externalIdentities a_sessions a_localAccounts a_identities set_world] in *.
  exists challenge. eexists. eexists. cbv zeta. rewrite Hch.
  split; [exact Hproved|]. split; [apply lookup_delete_eq|]. split; [done|]. split; [exact Hres|].
  split; [exact Hgone|]. split; [exact Hfree|]. split; [exact Howner|].
  split; [rewrite <- Hpi; apply lookup_insert_eq|]. split; [exact Hpe|]. split; [exact Hpv|].
  split; [exact Hview|]. done.
Qed.
End signup.

(** ** Links *)

(** Only links of [actor] differ: a subject that changed hands was free or the
    actor's before, and is free or the actor's after. *)
Definition links_of {D} `{ExternalIdentityDirectoryLaws D} (actor : IdentityId) (d d' : D) : Prop :=
  forall k, ed_owner d' k = ed_owner d k \/
    ((ed_owner d k = None \/ ed_owner d k = Some actor) /\ (ed_owner d' k = None \/ ed_owner d' k = Some actor)).

#[global] Instance links_of_preorder {D} `{ExternalIdentityDirectoryLaws D} actor : PreOrder (links_of (D:=D) actor).
Proof.
  split; [intros d k; by left|]. intros d1 d2 d3 H12 H23 k.
  destruct (H12 k) as [E|[H1 H2]], (H23 k) as [E'|[H2' H3]]; rewrite ?E' ; auto; rewrite ?E in *; auto.
Qed.

Section links.
Context `{Plat : Platform, !PlatformLaws Plat}.
Context {I D P T R A S U : Type}
  `{!IdentityRepository I, ExternalIdentityDirectoryLaws D, !IdentityProfileRepository P, !LocalAccountDirectory T,
    !RecoveryCodeRepository R, !AccountRepository A, !SessionRepository S}.
Import AccountService.
Context (c : AccountService.t U world).
Abbreviation state := (accounts I D P T R A S U world).
Implicit Types s : state.

Definition moved_links (actor : IdentityId) s s' : Prop :=
  links_of actor (a_externalIdentities s) (a_externalIdentities s').
#[global] Instance moved_links_preorder actor : PreOrder (moved_links actor).
Proof. split; [intros s; unfold moved_links; reflexivity|intros s1 s2 s3; unfold moved_links; apply transitivity]. Qed.

Section actor.
Context (actor : IdentityId).
Abbreviation own := (moved_links actor).

Lemma own_still {B} (m : prog state Error B) :
  (forall s, a_externalIdentities (m s).2 = a_externalIdentities s) -> advances own m.
Proof. intros Hm s. unfold moved_links. by rewrite Hm. Qed.

Lemma own_on_identities {B} (m : prog I Error B) : advances own (on_identities m).
Proof. apply own_still. intros s. unfold on_identities, zoom. by destruct (m _). Qed.
Lemma own_on_profiles {B} (m : prog P Error B) : advances own (on_profiles m).
Proof. apply own_still. intros s. unfold on_profiles, zoom. by destruct (m _). Qed.
Lemma own_on_localAccounts {B} (m : prog (with_world T world) Error B) : advances own (on_localAccounts m).
Proof. apply own_still. intros s. unfold on_localAccounts, zoom. by destruct (m _). Qed.
Lemma own_on_repository {B} (m : prog A Error B) : advances own (on_repository m).
Proof. apply own_still. intros s. unfold on_repository, zoom. by destruct (m _). Qed.
Lemma own_on_sessions {B} (m : prog (SessionService.service S unit world) Error B) : advances own (on_sessions m).
Proof. apply own_still. intros s. unfold on_sessions, zoom. by destruct (m _). Qed.
Lemma own_on_recoveryCodes {B} (m : prog (with_world R world) Error B) : advances own (on_recoveryCodes m).
Proof. apply own_still. intros s. unfold on_recoveryCodes, zoom. by destruct (m _). Qed.
Lemma own_on_pending {B} (m : prog (gmap TotpEnrollmentId PendingTotpEnrollment.t) Error B) : advances own (on_pending m).
Proof. apply own_still. intros s. unfold on_pending, zoom. by destruct (m _). Qed.
Lemma own_on_delivery {B} (m : prog (U * world) Error B) : advances own (on_delivery m).
Proof. apply own_still. intros s. unfold on_delivery, zoom. by destruct (m _). Qed.
Lemma own_on_world {B} (m : prog world Error B) : advances own (on_world m).
Proof. apply own_still. intros s. unfold on_world, zoom. by destruct (m _). Qed.
Lemma own_lift {B} (r : Result B) : advances own (lift r).
Proof. by apply own_still. Qed.
Lemma own_throw {B} (e : Error) : advances own (throw (A:=B) e).
Proof. by apply own_still. Qed.
Lemma own_ret {B} (b : B) : advances own (mret (M:=prog state Error) b).
Proof. by apply own_still. Qed.
Lemma own_ask {B} (f : state -> Result B) : advances own (ask f).
Proof. by apply own_still. Qed.

Lemma own_detach external : advances own (detach external actor).
Proof.
  intros s k. unfold detach, on_externalIdentities, zoom.
  destruct (ed_detach external actor (a_externalIdentities s)) as [r d] eqn:Hr. cbn.
  destruct (is_ok r) eqn:Hok.
  - apply is_ok_spec in Hok as [[] ->]. apply ed_detach_ok in Hr as (Hk & ->).
    case_decide; [subst; right; auto|by left].
  - pose proof (ed_detach_not_ok (a_externalIdentities s) external actor) as Hn. rewrite Hr in Hn.
    cbn in Hn. left. by rewrite Hn.
Qed.

(** The attachment of a link of the actor. *)
Lemma own_attach l : IdentityLink.owner l = actor -> advances own (on_externalIdentities (ed_attach l)).
Proof.
  intros Hl s k. unfold on_externalIdentities, zoom.
  destruct (ed_attach l (a_externalIdentities s)) as [r d] eqn:Hr. cbn.
  destruct (is_ok r) eqn:Hok.
  - apply is_ok_spec in Hok as [[] ->]. apply ed_attach_ok in Hr as (_ & Hk & ->). rewrite Hl in *.
    case_decide; [subst; right; auto|by left].
  - pose proof (ed_attach_not_ok (a_externalIdentities s) l) as Hn. rewrite Hr in Hn.
    cbn in Hn. left. by rewrite Hn.
Qed.

Lemma own_lift_bind {B B'} (r : Result B) (k : B -> prog state Error B') :
  (forall b, r = Ok b -> advances own (k b)) -> advances own (b ← lift r; k b).
Proof.
  intros Hk s. unfold mbind, prog_bind, lift. destruct r as [b|e|]; [by apply Hk|reflexivity..].
Qed.

(** Walks through an operation, one construct at a time. *)
Ltac tread :=
  repeat first
    [ apply own_on_world | apply own_on_identities | apply own_on_recoveryCodes | apply own_on_pending | apply own_on_profiles | apply own_on_localAccounts
    | apply own_on_repository | apply own_on_sessions | apply own_on_delivery | apply own_detach
    | apply own_throw | apply own_ret | apply own_ask | apply own_lift | apply advances_orUndo; [apply _| |]
    | apply advances_attempt | apply advances_ignore
    | apply advances_bind; [apply _| |intros ?]
    | progress cbv zeta
    | match goal with |- advances _ (match ?x with _ => _ end) => destruct x end ].

Lemma own_attachVerified external : advances own (attachVerified actor external).
Proof.
  unfold attachVerified. apply advances_bind; [apply _|unfold clock; tread|intros t1].
  apply own_lift_bind; intros l1 H1. apply advances_bind; [apply _|unfold clock; tread|intros t2].
  apply own_lift_bind; intros l2 [H2 _]%(mutate_move _ (IdentityLink.RequireVerification, t2) _ _ eq_refl).
  apply advances_bind; [apply _|unfold clock; tread|intros t3].
  apply own_lift_bind; intros l3 [H3 _]%(mutate_move _ (IdentityLink.MarkVerified, t3) _ _ eq_refl).
  apply advances_bind; [apply _|unfold clock; tread|intros t4].
  apply own_lift_bind; intros l4 [H4 _]%(mutate_move _ (IdentityLink.Complete, t4) _ _ eq_refl).
  apply own_attach. unfold IdentityLink.request in H1. handler H1. cbn in *. congruence.
Qed.

(** The parts of the operations that are the same for every actor. *)
Lemma own_reservedOwner external : advances own (reservedOwner external).
Proof. unfold reservedOwner, clock. tread. Qed.
Lemma own_reserve external identity lifetime : advances own (reserve external identity lifetime).
Proof. unfold reserve, clock. tread. Qed.
Lemma own_issue identity purpose channel destination lifetime :
  advances own (issue c identity purpose channel destination lifetime).
Proof. unfold issue, clock. tread. Qed.
Lemma own_consume id secret purpose expected : advances own (consume c id secret purpose expected).
Proof. unfold consume, clock. tread. Qed.
Lemma own_requireProfile identity : advances own (requireProfile identity).
Proof. unfold requireProfile. tread. Qed.
Lemma own_setEmail email verified profile : advances own (setEmail email verified profile).
Proof. unfold setEmail, clock. tread. Qed.
Lemma own_sortMatches cs active blocked : advances own (sortMatches c cs active blocked).
Proof. revert active blocked. induction cs as [|i cs IH]; intros; simpl; tread; apply IH. Qed.
Lemma own_localSubject identity : advances own (localSubject c identity).
Proof. unfold localSubject. tread. Qed.
Lemma own_unverify email profile : advances own (unverify email profile).
Proof.
  unfold unverify. apply advances_bind; [apply _| |intros; tread]. intros s.
  pose proof (advances_attempt own _ (own_setEmail email false profile) s) as Ha.
  by destruct (attempt _ s) as [[[]| |] ?].
Qed.
Lemma own_eachPending expired identity : advances own (eachPending expired identity).
Proof.
  intros s. unfold eachPending. generalize (map_iter (a_pendingTotp s)). intros entries.
  revert s. change (advances own (erasePending expired identity entries)).
  induction entries as [|[id pending] entries IH]; cbn [erasePending]; [tread|].
  apply advances_bind; [apply _|unfold erasePendingOne, ends, clock; tread|by intros _].
Qed.
End actor.
End links.

(** An operation of the service. *)
Inductive account_op :=
  | Signup (email password : string) (displayName : option string)
  | ResendSignup (email : string)
  | VerifyEmail (id : VerificationId) (secret : string)
  | BeginEmailChange (identity : IdentityId) (email : string)
  | CompleteEmailChange (identity : IdentityId) (id : VerificationId) (secret : string) (newPassword : option string)
  | BeginPhone (identity : IdentityId) (phone : string)
  | CompletePhone (identity : IdentityId) (id : VerificationId) (secret : string)
  | BeginReset (email : string)
  | CompleteReset (id : VerificationId) (secret newPassword : string)
  | UpdateProfile (identity : IdentityId) (displayName preferredUsername locale pictureUrl avatar : option string)
  | BeginTotp (identity : IdentityId) (password : string) (assurance : AssuranceLevel)
  | CompleteTotp (identity : IdentityId) (id : TotpEnrollmentId) (code : string) (assurance : AssuranceLevel)
  | DisableTotp (identity : IdentityId) (password : string) (assurance : AssuranceLevel).

Section transfers.
Context `{Plat : Platform, !PlatformLaws Plat}.
Context {I D P T R S U : Type}
  `{!IdentityRepository I, ExternalIdentityDirectoryLaws D, !IdentityProfileRepository P, !LocalAccountDirectory T,
    !RecoveryCodeRepository R, !SessionRepository S}.
Import AccountService.
Context (c : AccountService.t U world).
Abbreviation state := (accounts I D P T R InMemoryAccountRepository.t S U world).
Implicit Types s : state.

Definition account_step (o : account_op) s : state :=
  match o with
  | Signup email password displayName => (signup c email password displayName s).2
  | ResendSignup email => (resendSignupVerification c email s).2
  | VerifyEmail id secret => (verifyEmail c id secret s).2
  | BeginEmailChange identity email => (beginEmailChange c identity email s).2
  | CompleteEmailChange identity id secret newPassword => (completeEmailChange c identity id secret newPassword s).2
  | BeginPhone identity phone => (beginPhoneVerification c identity phone s).2
  | CompletePhone identity id secret => (completePhoneVerification c identity id secret s).2
  | BeginReset email => (beginPasswordReset c email s).2
  | CompleteReset id secret newPassword => (completePasswordReset c id secret newPassword s).2
  | UpdateProfile identity name username locale picture avatar =>
      (updateProfile identity name username locale picture avatar s).2
  | BeginTotp identity password assurance => (beginTotpEnrollment c identity password assurance s).2
  | CompleteTotp identity id code assurance => (completeTotpEnrollment identity id code assurance s).2
  | DisableTotp identity password assurance => (disableTotp c identity password assurance s).2
  end.

(** Whose links the operation may change: the signed-in identity's, or those of
    the identity the challenge was issued for; most change none. *)
Definition acts_for (o : account_op) s : option IdentityId :=
  match o with
  | VerifyEmail id _ =>
      VerificationChallenge.identity ∘ InMemoryAccountRepository.challenge
        <$> InMemoryAccountRepository.challenges (a_repository s) !! id
  | CompleteEmailChange identity _ _ _ | CompletePhone identity _ _ => Some identity
  | _ => None
  end.

Lemma own_consume_bind {B} actor id secret purpose expected (k : VerificationChallenge.t -> prog state Error B) s :
  (forall challenge n,
     InMemoryAccountRepository.challenges (a_repository s) !! id = Some (InMemoryAccountRepository.mkChallenge challenge n) ->
     (forall owner, expected = Some owner -> VerificationChallenge.identity challenge = owner) ->
     advances (moved_links actor) (k challenge)) ->
  moved_links actor s ((challenge ← consume c id secret purpose expected; k challenge) s).2.
Proof.
  intros Hk. pose proof (own_consume c actor id secret purpose expected s) as Hm.
  destruct (consume c id secret purpose expected s) as [r s1] eqn:Hr.
  unfold mbind, prog_bind. rewrite Hr. destruct r as [challenge|e|]; [|exact Hm..].
  apply consume_ok in Hr as ((n & t & w & Hch & _) & Hexp & _).
  cbn in Hm. unfold moved_links in *. etrans; [exact Hm|]. by apply (Hk challenge n).
Qed.

(** Walks through an operation, with its parts. *)
Ltac tread :=
  repeat first
    [ apply own_reservedOwner | apply own_reserve | apply own_issue | apply own_requireProfile | apply own_setEmail
    | apply own_sortMatches | apply own_localSubject | apply own_eachPending | apply own_unverify
    | apply own_attachVerified
    | apply own_on_world | apply own_on_identities | apply own_on_recoveryCodes | apply own_on_pending
    | apply own_on_profiles | apply own_on_localAccounts
    | apply own_on_repository | apply own_on_sessions | apply own_on_delivery | apply own_detach
    | apply own_throw | apply own_ret | apply own_ask | apply own_lift | apply advances_orUndo; [apply _| |]
    | apply advances_attempt | apply advances_ignore
    | apply advances_bind; [apply _| |intros ?]
    | progress cbv zeta
    | match goal with |- advances _ (match ?x with _ => _ end) => destruct x end ].

Section unlinked.
Context (actor : IdentityId).
Abbreviation own := (moved_links (I:=I) (P:=P) (T:=T) (R:=R) (A:=InMemoryAccountRepository.t) (S:=S) (U:=U) actor).

Lemma own_signup email password displayName : advances own (signup c email password displayName).
Proof. unfold signup, signupExisting, signupNew, release, retire, removePending, deliver, ownerOf, clock. tread. Qed.
Lemma own_resend email : advances own (resendSignupVerification c email).
Proof. unfold resendSignupVerification, deliver. tread. Qed.
Lemma own_beginEmailChange identity email : advances own (beginEmailChange c identity email).
Proof. unfold beginEmailChange, release, deliver, ownerOf. tread. Qed.
Lemma own_beginPhone identity phone : advances own (beginPhoneVerification c identity phone).
Proof. unfold beginPhoneVerification, deliver, ownerOf. tread. Qed.
Lemma own_beginReset email : advances own (beginPasswordReset c email).
Proof. unfold beginPasswordReset, deliver, ownerOf. tread. Qed.
Lemma own_completeReset id secret newPassword : advances own (completePasswordReset c id secret newPassword).
Proof. unfold completePasswordReset, ownerOf. tread. Qed.
Lemma own_updateProfile identity name username locale picture avatar :
  advances own (updateProfile identity name username locale picture avatar).
Proof. unfold updateProfile, clock. tread. Qed.
Lemma own_beginTotp identity password assurance : advances own (beginTotpEnrollment c identity password assurance).
Proof. unfold beginTotpEnrollment, requireLocalMethod, clock. tread. Qed.
Lemma own_completeTotp identity id code assurance : advances own (completeTotpEnrollment identity id code assurance).
Proof. unfold completeTotpEnrollment, forget, countAttempt, clock. tread. Qed.
Lemma own_disableTotp identity password assurance : advances own (disableTotp c identity password assurance).
Proof. unfold disableTotp, requireLocalMethod. tread. Qed.
End unlinked.

Lemma own_verifyEmail actor id secret s :
  acts_for (VerifyEmail id secret) s = Some actor \/ acts_for (VerifyEmail id secret) s = None ->
  moved_links actor s (verifyEmail c id secret s).2.
Proof.
  intros Hactor. cbn in Hactor.
  assert (moved_links actor s (verifyEmailAndGetExternal c id secret s).2) as Hext.
  { apply own_consume_bind. intros challenge n Hch _. rewrite Hch in Hactor.
    destruct Hactor as [[= ->]|Hactor]; [|done]. unfold release. tread. }
  unfold verifyEmail, mbind, prog_bind. by destruct (verifyEmailAndGetExternal c id secret s) as [[]].
Qed.

Lemma own_completeEmailChange actor id secret newPassword s :
  moved_links actor s (completeEmailChange c actor id secret newPassword s).2.
Proof.
  unfold completeEmailChange. destruct (match newPassword with Some _ => _ | None => _ end); [apply own_throw|].
  apply own_consume_bind. intros challenge n _ Hexp. rewrite (Hexp actor eq_refl).
  unfold release, removePending, storeEmail. tread.
Qed.

Lemma own_completePhone actor id secret s : moved_links actor s (completePhoneVerification c actor id secret s).2.
Proof.
  apply own_consume_bind. intros challenge n _ _.
  destruct (negb (bool_decide (VerificationChallenge.identity challenge = actor))) eqn:Hi; [apply own_throw|].
  bool_prop. rewrite Hi. unfold release, clock. tread.
Qed.

Lemma own_step actor o s :
  acts_for o s = Some actor \/ acts_for o s = None -> moved_links actor s (account_step o s).
Proof.
  destruct o; intros Hfor; cbn [account_step];
    [apply own_signup|apply own_resend|by apply own_verifyEmail|apply own_beginEmailChange| |apply own_beginPhone|
    |apply own_beginReset|apply own_completeReset|apply own_updateProfile|apply own_beginTotp|apply own_completeTotp
    |apply own_disableTotp]; (destruct Hfor as [[= ->]|?]; [|done]).
  - apply own_completeEmailChange.
  - apply own_completePhone.
Qed.

(** C15: Account operations never transfer a sign-in subject. Each of them, whether
    it succeeds or fails half-way and undoes its steps, leaves every link as it
    was except links of one identity: the one it was called for, or the one its
    challenge was issued for. A subject linked to anybody else stays linked to
    that identity, and a subject that ends up with a new owner was free or that
    identity's, and is that identity's now. *)
Theorem accounts_never_transfer o s k owner :
  (ed_owner (a_externalIdentities s) k = Some owner -> acts_for o s <> Some owner ->
   ed_owner (a_externalIdentities (account_step o s)) k = Some owner) /\
  (ed_owner (a_externalIdentities (account_step o s)) k = Some owner ->
   ed_owner (a_externalIdentities s) k = Some owner \/
   (ed_owner (a_externalIdentities s) k = None /\ acts_for o s = Some owner)).
Proof.
  destruct (acts_for o s) as [actor|] eqn:Hfor.
  - destruct (own_step actor o s (or_introl Hfor) k) as [->|[Hb Ha]]; [by split; auto|].
    split; [intros E Hne|intros E]; rewrite E in *; [|destruct Ha as [|Ha]; [done|injection Ha as ->]; destruct Hb; auto].
    destruct Hb as [|Hb]; [done|injection Hb as ->; by destruct Hne].
  - assert (ed_owner (a_externalIdentities (account_step o s)) k = ed_owner (a_externalIdentities s) k) as ->; [|by split; auto].
    destruct (own_step (mkId "a") o s (or_intror Hfor) k) as [|[Hb Ha]]; [done|].
    destruct (own_step (mkId "b") o s (or_intror Hfor) k) as [|[Hb' Ha']]; [done|].
    destruct Ha as [E|E], Hb as [E'|E'], Ha' as [F|F], Hb' as [F'|F']; congruence.
Qed.
End transfers.

(** ** A run *)

Module AccountWitnesses.
Import TestPlatform CredentialWitnesses.

Abbreviation local_table := (gmap ExternalSubject Account.t).
Abbreviation codes := (gmap IdentityId (list RecoveryCodeDigest)).
Abbreviation mailbox := (list VerificationDispatch.t).
Abbreviation run_state :=
  (accounts InMemoryIdentityRepository.t InMemoryExternalIdentityDirectory.t InMemoryIdentityProfileRepository.t
     local_table codes InMemoryAccountRepository.t InMemorySessionRepository.t mailbox (world (Platform:=test))).

#[local] Instance local_accounts : LocalAccountDirectory (Plat:=test) local_table :=
  InMemoryLocalAccountDirectory.directory (Plat:=test) hasher TotpPolicy.recommended stored.

Definition policy : AccountPolicy.t := AccountPolicy.mk (minutes 1440) (minutes 10) (minutes 30) 3.
Definition service : AccountService.t mailbox (world (Platform:=test)) :=
  AccountService.mk (mkId "org") (mkId "local") (mkId "phone")
    (VerificationKey.mk "0123456789abcdef0123456789abcdef") policy
    (fun dispatch s => (ok, (dispatch :: s.1, s.2))).

Definition start : run_state :=
  mkAccounts ∅ InMemoryExternalIdentityDirectory.empty ∅ ∅ ∅ InMemoryAccountRepository.empty
    InMemorySessionRepository.empty ∅ [] 43200000.

(** Bob signs up; the letter carries the identifier and the secret. *)
Definition after_signup : run_state :=
  (AccountService.signup (Plat:=test) service "Bob@Example.com" "correct horse" None start).2.
Definition no_letter : VerificationDispatch.t :=
  VerificationDispatch.mk (mkId "") (mkId "") SignupEmail EmailChannel "" "" 0.
Definition letter (s : run_state) : VerificationDispatch.t := hd no_letter (a_delivery s).
Definition verifying (s : run_state) :=
  AccountService.verifyEmailAndGetExternal (Plat:=test) service
    (VerificationDispatch.id (letter s)) (VerificationDispatch.secret (letter s)) s.
Definition bob : IdentityId := VerificationDispatch.identity (letter after_signup).

Definition answered : ExternalIdentityRef.t :=
  match (verifying after_signup).1 with Ok external => external | _ => ExternalIdentityRef.mk (mkId "") (mkId "") None None None end.

Definition after_verification : run_state := (verifying after_signup).2.
Definition after_request : run_state :=
  (AccountService.beginPasswordReset (Plat:=test) service "bob@example.com" after_verification).2.
Definition resetting :=
  AccountService.completePasswordReset (Plat:=test) service (VerificationDispatch.id (letter after_request))
    (VerificationDispatch.secret (letter after_request)) "battery staple" after_request.

Example run_goes_through :
  (verifying after_signup).1 = Ok answered /\ id_value (ExternalIdentityRef.subject answered) = "bob@example.com" /\
  resetting.1 = ok.
Proof. vm_compute. done. Qed.

(** An administrator suspends Bob before he opens the letter: following the
    link in it makes him active again. *)
Definition suspended : run_state :=
  (AccountService.on_identities (Plat:=test) (ir_changeStatus (mkId "org") bob Suspended) after_signup).2.
Definition status_of (s : run_state) : option IdentityStatus :=
  Identity.status <$> InMemoryIdentityRepository.view (a_identities s) (mkId "org") bob.
Example verification_lifts_a_suspension :
  status_of suspended = Some Suspended /\ is_ok (verifying suspended).1 = true /\
  status_of (verifying suspended).2 = Some Active.
Proof. vm_compute. done. Qed.

Definition challenge_of (s : run_state) : VerificationChallenge.t :=
  match InMemoryAccountRepository.challenges (a_repository s) !! VerificationDispatch.id (letter s) with
  | Some found => InMemoryAccountRepository.challenge found
  | None => VerificationChallenge.mk (mkId "") (mkId "") SignupEmail EmailChannel "" [] 0 0 0
  end.

Definition guessing : list account_store_op :=
  [AReplace (challenge_of after_signup);
   AConsume (VerificationChallenge.id (challenge_of after_signup)) [] 43200000 None;
   AConsume (VerificationChallenge.id (challenge_of after_signup))
     (VerificationChallenge.digest (challenge_of after_signup)) 43200000 None;
   AConsume (VerificationChallenge.id (challenge_of after_signup))
     (VerificationChallenge.digest (challenge_of after_signup)) 43200000 None].

Lemma verification_guesses_are_bounded_witness :
  (count_steps (account_store_step (Plat:=test) 3)
     (proves (Plat:=test) 3 (VerificationChallenge.id (challenge_of after_signup))) guessing
     InMemoryAccountRepository.empty <= 1)%nat.
Proof.
  etrans.
  - apply (verification_guesses_are_bounded (Plat:=test) 3 (VerificationChallenge.id (challenge_of after_signup)) guessing).
    lia.
  - vm_compute. lia.
Defined.

Lemma test_draws : draws (Plat:=test) 8.
Proof.
  intros w. eexists _, _. split; [reflexivity|]. apply Exists_exists.
  assert (forall i, (i < 16)%nat -> toByte (w + Z.of_nat i) ∈ ((fun i => toByte (w + Z.of_nat i)) <$> seq 0 (8 * 2))) as Hin.
  { intros i Hi. apply list_elem_of_fmap. exists i. split; [done|]. apply elem_of_seq. lia. }
  destruct (Z.lt_ge_cases (w mod 256) 250) as [H|H];
    [exists (toByte (w + Z.of_nat 0))|exists (toByte (w + Z.of_nat 6))]; (split; [apply Hin; lia|]); rewrite byteValue_toByte;
    Z.to_euclidean_division_equations; lia.
Qed.

Lemma numeric_code_is_complete_witness : exists code w',
  numericCode (H:=test) 8 43200000 = (Ok code, w') /\ String.length code = 8%nat.
Proof.
  destruct (numeric_code_is_complete (Plat:=test) 8 kDraws 43200000) as [(code & w' & Hrun & Hlen & _) _].
  - exact test_draws.
  - unfold kDraws. lia.
  - unfold intMax. lia.
  - by exists code, w'.
Defined.

Lemma verified_email_is_earned_witness : exists challenge,
  proved (Plat:=test) service (VerificationDispatch.id (letter after_signup))
    (VerificationDispatch.secret (letter after_signup)) SignupEmail challenge after_signup.
Proof.
  destruct (verified_email_is_earned (Plat:=test) service (VerificationDispatch.id (letter after_signup))
              (VerificationDispatch.secret (letter after_signup)) after_signup answered after_verification)
    as (challenge & profile & ident & Hproved & _).
  - assert (map_Forall (fun i p => IdentityProfile.identity p = i) (a_profiles after_signup)) as Hall
      by (apply (bool_decide_eq_true_1 _); vm_compute; reflexivity).
    exact Hall.
  - apply (run_as (verifying after_signup)). vm_compute. reflexivity.
  - by exists challenge.
Defined.

(** Whatever Mallory answers to a challenge for a telephone number, the address
    stays Bob's. *)
Lemma accounts_never_transfer_witness :
  ed_owner (a_externalIdentities (account_step (Plat:=test) service
    (CompletePhone (mkId "mallory") (VerificationDispatch.id (letter after_signup))
       (VerificationDispatch.secret (letter after_signup))) after_verification))
    (ExternalIdentityRef.key answered) = Some bob.
Proof.
  apply (accounts_never_transfer (Plat:=test) service).
  - vm_compute. reflexivity.
  - vm_compute. discriminate.
Defined.

Lemma consistent_after_request : consistent (a_sessions after_request).
Proof.
  assert (a_sessions after_request = InMemorySessionRepository.empty) as -> by (vm_compute; reflexivity).
  apply consistent_empty.
Qed.

Lemma password_reset_is_earned_witness : exists challenge,
  proved (Plat:=test) service (VerificationDispatch.id (letter after_request))
    (VerificationDispatch.secret (letter after_request)) PasswordReset challenge after_request.
Proof.
  destruct (password_reset_is_earned (Plat:=test) service (VerificationDispatch.id (letter after_request))
              (VerificationDispatch.secret (letter after_request)) "battery staple" after_request resetting.2)
    as (challenge & Hproved & _).
  - exact consistent_after_request.
  - apply (run_as resetting). vm_compute. reflexivity.
  - by exists challenge.
Defined.
End AccountWitnesses.
