(* ===== verification/Scim.v ===== *)
(** * openproof.enterprise.scim: provisioning users and groups

    Models [src/src/enterprise/scim/scim.cpp]: the metadata of provisioned users
    and groups, the contract of the directory that stores them, and the service
    that keeps an identity, its membership, its profile and its metadata in step;
    with the tables of [src/src/storage/postgres/postgres.cpp] behind the
    directory, whose keys and references are those of
    [src/migrations/0012_enterprise_scim.sql]. *)
From S2P Require Import Prelude Foundation Database Encoding Security IdentityCore Profile Organizations.

Inductive GroupIdTag := .
Abbreviation GroupId := (StrongId GroupIdTag).

Definition validText (value : string) (maximum : nat) : bool :=
  negb (bool_decide (value = "")) && (String.length value <=? maximum)%nat && negb (any_octet control_octet value).

Definition validOptional (value : option string) (maximum : nat) : bool :=
  match value with None => true | Some value => validText value maximum end.

Definition newIdentityId `{Platform} : prog world Error IdentityId :=
  random ← randomTokenBase64Url 24;
  mret (mkId ("scim_" +:+ random)).

Definition newGroupId `{Platform} : prog world Error GroupId :=
  random ← randomTokenBase64Url 24;
  mret (mkId ("scim_group_" +:+ random)).

Module UserRecord.
Record t := mk {
  identity : IdentityId;
  organization : OrganizationId;
  userName : string;
  externalId : option string;
  createdAt : Instant;
  updatedAt : Instant;
}.

#[global] Instance eq_dec : EqDecision t.
Proof. solve_decision. Defined.

Definition create (identity : IdentityId) (organization : OrganizationId) (userName : string)
    (externalId : option string) (createdAt updatedAt : Instant) : Result t :=
  if id_empty identity || id_empty organization || negb (validText userName 320)
     || negb (validOptional externalId 1024) || (updatedAt <? createdAt) then
    fail InvalidArgument "The SCIM user metadata is invalid."
  else Ok (mk identity organization userName externalId createdAt updatedAt).

Definition rename (userName' : string) (externalId' : option string) (now : Instant) : prog t Error unit := fun r =>
  if negb (validText userName' 320) || negb (validOptional externalId' 1024) || (now <? createdAt r) then
    (failCode InvalidArgument, r)
  else (ok, mk (identity r) (organization r) userName' externalId' (createdAt r) now).
End UserRecord.

Module GroupRecord.
Record t := mk {
  id : GroupId;
  organization : OrganizationId;
  displayName : string;
  externalId : option string;
  createdAt : Instant;
  updatedAt : Instant;
}.

#[global] Instance eq_dec : EqDecision t.
Proof. solve_decision. Defined.

Definition create (id : GroupId) (organization : OrganizationId) (displayName : string)
    (externalId : option string) (createdAt updatedAt : Instant) : Result t :=
  if id_empty id || id_empty organization || negb (validText displayName 512)
     || negb (validOptional externalId 1024) || (updatedAt <? createdAt) then
    fail InvalidArgument "The SCIM group metadata is invalid."
  else Ok (mk id organization displayName externalId createdAt updatedAt).

Definition rename (displayName' : string) (externalId' : option string) (now : Instant) : prog t Error unit := fun r =>
  if negb (validText displayName' 512) || negb (validOptional externalId' 1024) || (now <? createdAt r) then
    (failCode InvalidArgument, r)
  else (ok, mk (id r) (organization r) displayName' externalId' (createdAt r) now).
End GroupRecord.

(** ** The directory *)

Class DirectoryRepository (T : Type) := {
  dr_addUser : UserRecord.t -> prog T Error unit;
  dr_saveUser : UserRecord.t -> prog T Error unit;
  dr_removeUser : OrganizationId -> IdentityId -> prog T Error unit;
  dr_findUser : T -> OrganizationId -> IdentityId -> Result (option UserRecord.t);
  dr_findUserByName : T -> OrganizationId -> string -> Result (option UserRecord.t);
  dr_users : T -> OrganizationId -> Result (list UserRecord.t);
  dr_addGroup : GroupRecord.t -> prog T Error unit;
  dr_saveGroup : GroupRecord.t -> prog T Error unit;
  dr_removeGroup : OrganizationId -> GroupId -> prog T Error unit;
  dr_findGroup : T -> OrganizationId -> GroupId -> Result (option GroupRecord.t);
  dr_findGroupByName : T -> OrganizationId -> string -> Result (option GroupRecord.t);
  dr_groups : T -> OrganizationId -> Result (list GroupRecord.t);
  dr_groupMembers : T -> OrganizationId -> GroupId -> Result (list IdentityId);
  dr_replaceGroupMembers : OrganizationId -> GroupId -> list IdentityId -> prog T Error unit;
}.

(** What the service relies on: the users of the directory; a failed operation
    changes none of them, and the group operations change none. *)
Class DirectoryRepositoryLaws (T : Type) `{DirectoryRepository T} := {
  dr_user : T -> OrganizationId -> IdentityId -> option UserRecord.t;
  dr_findUser_view : forall s org id found, dr_findUser s org id = Ok found ->
    found = dr_user s org id;
  (** Each user is stored under its organization and identity. *)
  dr_wf : T -> Prop;
  dr_findUser_keyed : forall s org id r, dr_wf s -> dr_findUser s org id = Ok (Some r) ->
    UserRecord.organization r = org /\ UserRecord.identity r = id;
  dr_addUser_wf : forall r, preserves dr_wf (dr_addUser r);
  dr_saveUser_wf : forall r, preserves dr_wf (dr_saveUser r);
  dr_removeUser_wf : forall org id, preserves dr_wf (dr_removeUser org id);
  dr_addGroup_wf : forall g, preserves dr_wf (dr_addGroup g);
  dr_saveGroup_wf : forall g, preserves dr_wf (dr_saveGroup g);
  dr_removeGroup_wf : forall org g, preserves dr_wf (dr_removeGroup org g);
  dr_replaceGroupMembers_wf : forall org g ms, preserves dr_wf (dr_replaceGroupMembers org g ms);
  dr_findUserByName_none : forall s org name id r, dr_findUserByName s org name = Ok None ->
    dr_user s org id = Some r -> UserRecord.userName r <> name;
  dr_addUser_ok : forall s r s', dr_addUser r s = (ok, s') ->
    dr_user s (UserRecord.organization r) (UserRecord.identity r) = None /\
    forall org id, dr_user s' org id =
      if decide (org = UserRecord.organization r /\ id = UserRecord.identity r) then Some r else dr_user s org id;
  dr_saveUser_ok : forall s r s', dr_saveUser r s = (ok, s') ->
    exists old, dr_user s (UserRecord.organization r) (UserRecord.identity r) = Some old /\
    forall org id, dr_user s' org id =
      if decide (org = UserRecord.organization r /\ id = UserRecord.identity r)
      then Some (UserRecord.mk (UserRecord.identity old) (UserRecord.organization old) (UserRecord.userName r)
                   (UserRecord.externalId r) (UserRecord.createdAt old) (UserRecord.updatedAt r))
      else dr_user s org id;
  dr_removeUser_ok : forall s org id s', dr_removeUser org id s = (ok, s') ->
    is_Some (dr_user s org id) /\
    forall org' id', dr_user s' org' id' = if decide (org' = org /\ id' = id) then None else dr_user s org' id';
  dr_addUser_not_ok : forall s r, is_ok (dr_addUser r s).1 = false -> dr_user (dr_addUser r s).2 = dr_user s;
  dr_saveUser_not_ok : forall s r, is_ok (dr_saveUser r s).1 = false -> dr_user (dr_saveUser r s).2 = dr_user s;
  dr_removeUser_not_ok : forall s org id,
    is_ok (dr_removeUser org id s).1 = false -> dr_user (dr_removeUser org id s).2 = dr_user s;
  dr_addGroup_users : forall s g, dr_user (dr_addGroup g s).2 = dr_user s;
  dr_saveGroup_users : forall s g, dr_user (dr_saveGroup g s).2 = dr_user s;
  dr_removeGroup_users : forall s org g, dr_user (dr_removeGroup org g s).2 = dr_user s;
  dr_replaceGroupMembers_users : forall s org g ms, dr_user (dr_replaceGroupMembers org g ms s).2 = dr_user s;
}.

(** *** The tables *)

Module PostgresScimDirectoryRepository.
(** The rows of [scim_users], [scim_groups] and [scim_group_members] by their
    primary keys. Records come from [create] and [rename], so an external
    identifier is never empty ([NULLIF] keeps it) and the length checks of the
    columns, which count characters, follow from those of the domain, which
    count octets. *)
Record t := mk {
  scim_users : gmap IdentityId UserRecord.t;
  scim_groups : gmap GroupId GroupRecord.t;
  scim_group_members : gset (OrganizationId * GroupId * IdentityId);
}.

Definition empty : t := mk ∅ ∅ ∅.

Definition with_users (f : gmap IdentityId UserRecord.t -> gmap IdentityId UserRecord.t) (s : t) : t :=
  mk (f (scim_users s)) (scim_groups s) (scim_group_members s).
Definition with_groups (f : gmap GroupId GroupRecord.t -> gmap GroupId GroupRecord.t) (s : t) : t :=
  mk (scim_users s) (f (scim_groups s)) (scim_group_members s).
Definition with_members (f : gset (OrganizationId * GroupId * IdentityId) -> gset (OrganizationId * GroupId * IdentityId))
    (s : t) : t :=
  mk (scim_users s) (scim_groups s) (f (scim_group_members s)).

Section tables.
(** The rows of the tables of identities and organizations, which the foreign
    keys need, and the collations the listings are ordered by. *)
Context (identity_exists : IdentityId -> bool) (organization_exists : OrganizationId -> bool).
Context (order_users : list UserRecord.t -> list UserRecord.t) (order_groups : list GroupRecord.t -> list GroupRecord.t)
  (order_members : list IdentityId -> list IdentityId).

(** The unique key of [scim_users] on organization and user name. *)
Definition user_name_taken (s : t) (r : UserRecord.t) : bool :=
  existsb (fun row : IdentityId * UserRecord.t =>
    negb (bool_decide (row.1 = UserRecord.identity r))
    && bool_decide (UserRecord.organization row.2 = UserRecord.organization r)
    && bool_decide (UserRecord.userName row.2 = UserRecord.userName r)) (map_to_list (scim_users s)).

Definition addUser (user : UserRecord.t) : prog t Error unit := fun s =>
  let id := UserRecord.identity user in
  if bool_decide (is_Some (scim_users s !! id)) || user_name_taken s user then
    (Err (databaseError unique_violation "insert SCIM user"), s)
  else if negb (identity_exists id) || negb (organization_exists (UserRecord.organization user)) then
    (Err (databaseError foreign_key_violation "insert SCIM user"), s)
  else (ok, with_users <[id := user]> s).

(** The row of an identity, when it is one of the organization. *)
Definition user_row (s : t) (organization : OrganizationId) (id : IdentityId) : option UserRecord.t :=
  match scim_users s !! id with
  | Some row => if bool_decide (UserRecord.organization row = organization) then Some row else None
  | None => None
  end.

Definition saveUser (user : UserRecord.t) : prog t Error unit := fun s =>
  let id := UserRecord.identity user in
  match user_row s (UserRecord.organization user) id with
  | None => (failCode NotFound, s)
  | Some row =>
      if user_name_taken s user then (Err (databaseError unique_violation "save SCIM user"), s)
      else (ok, with_users <[id := UserRecord.mk (UserRecord.identity row) (UserRecord.organization row)
                                     (UserRecord.userName user) (UserRecord.externalId user)
                                     (UserRecord.createdAt row) (UserRecord.updatedAt user)]> s)
  end.

(** The deletion cascades to the memberships of the row. *)
Definition removeUser (organization : OrganizationId) (id : IdentityId) : prog t Error unit := fun s =>
  match user_row s organization id with
  | None => (failCode NotFound, s)
  | Some _ =>
      (ok, with_members (filter (fun m => ~ (m.1.1 = organization /\ m.2 = id))) (with_users (delete id) s))
  end.

(** A row read back passes the checks of the domain again. *)
Definition readUser (row : UserRecord.t) : Result UserRecord.t :=
  UserRecord.create (UserRecord.identity row) (UserRecord.organization row) (UserRecord.userName row)
    (UserRecord.externalId row) (UserRecord.createdAt row) (UserRecord.updatedAt row).

Definition found {R} (read : R -> Result R) (row : option R) : Result (option R) :=
  match row with None => Ok None | Some row => record ← read row; Ok (Some record) end.

Definition findUser (s : t) (organization : OrganizationId) (id : IdentityId) : Result (option UserRecord.t) :=
  found readUser (user_row s organization id).

Definition users_of (s : t) (organization : OrganizationId) : list UserRecord.t :=
  filter (fun row => UserRecord.organization row = organization) (map_to_list (scim_users s)).*2.

Definition findUserByName (s : t) (organization : OrganizationId) (userName : string) : Result (option UserRecord.t) :=
  found readUser (head (filter (fun row => UserRecord.userName row = userName) (users_of s organization))).

Fixpoint readAll {R} (read : R -> Result R) (rows : list R) : Result (list R) :=
  match rows with
  | [] => Ok []
  | row :: rows => record ← read row; records ← readAll read rows; Ok (record :: records)
  end.

Definition users (s : t) (organization : OrganizationId) : Result (list UserRecord.t) :=
  readAll readUser (order_users (users_of s organization)).

(** The unique key of [scim_groups] on organization and display name. *)
Definition display_name_taken (s : t) (g : GroupRecord.t) : bool :=
  existsb (fun row : GroupId * GroupRecord.t =>
    negb (bool_decide (row.1 = GroupRecord.id g))
    && bool_decide (GroupRecord.organization row.2 = GroupRecord.organization g)
    && bool_decide (GroupRecord.displayName row.2 = GroupRecord.displayName g)) (map_to_list (scim_groups s)).

Definition group_row (s : t) (organization : OrganizationId) (id : GroupId) : option GroupRecord.t :=
  match scim_groups s !! id with
  | Some row => if bool_decide (GroupRecord.organization row = organization) then Some row else None
  | None => None
  end.

Definition addGroup (group : GroupRecord.t) : prog t Error unit := fun s =>
  let id := GroupRecord.id group in
  if bool_decide (is_Some (scim_groups s !! id)) || display_name_taken s group then
    (Err (databaseError unique_violation "insert SCIM group"), s)
  else if negb (organization_exists (GroupRecord.organization group)) then
    (Err (databaseError foreign_key_violation "insert SCIM group"), s)
  else (ok, with_groups <[id := group]> s).

Definition saveGroup (group : GroupRecord.t) : prog t Error unit := fun s =>
  let id := GroupRecord.id group in
  match group_row s (GroupRecord.organization group) id with
  | None => (failCode NotFound, s)
  | Some row =>
      if display_name_taken s group then (Err (databaseError unique_violation "save SCIM group"), s)
      else (ok, with_groups <[id := GroupRecord.mk (GroupRecord.id row) (GroupRecord.organization row)
                                      (GroupRecord.displayName group) (GroupRecord.externalId group)
                                      (GroupRecord.createdAt row) (GroupRecord.updatedAt group)]> s)
  end.

Definition removeGroup (organization : OrganizationId) (id : GroupId) : prog t Error unit := fun s =>
  match group_row s organization id with
  | None => (failCode NotFound, s)
  | Some _ =>
      (ok, with_members (filter (fun m => ~ (m.1.1 = organization /\ m.1.2 = id))) (with_groups (delete id) s))
  end.

Definition readGroup (row : GroupRecord.t) : Result GroupRecord.t :=
  GroupRecord.create (GroupRecord.id row) (GroupRecord.organization row) (GroupRecord.displayName row)
    (GroupRecord.externalId row) (GroupRecord.createdAt row) (GroupRecord.updatedAt row).

Definition findGroup (s : t) (organization : OrganizationId) (id : GroupId) : Result (option GroupRecord.t) :=
  found readGroup (group_row s organization id).

Definition groups_of (s : t) (organization : OrganizationId) : list GroupRecord.t :=
  filter (fun row => GroupRecord.organization row = organization) (map_to_list (scim_groups s)).*2.

Definition findGroupByName (s : t) (organization : OrganizationId) (displayName : string)
    : Result (option GroupRecord.t) :=
  found readGroup (head (filter (fun row => GroupRecord.displayName row = displayName) (groups_of s organization))).

Definition groups (s : t) (organization : OrganizationId) : Result (list GroupRecord.t) :=
  readAll readGroup (order_groups (groups_of s organization)).

Definition groupMembers (s : t) (organization : OrganizationId) (id : GroupId) : Result (list IdentityId) :=
  match group_row s organization id with
  | None => failCode NotFound
  | Some _ =>
      Ok (order_members (filter (fun m : OrganizationId * GroupId * IdentityId => m.1.1 = organization /\ m.1.2 = id)
                           (elements (scim_group_members s))).*2)
  end.

(** The insertions of [replaceGroupMembers], one statement each. *)
Fixpoint insertMembers (organization : OrganizationId) (id : GroupId) (members : list IdentityId)
    : prog t Error unit := fun s =>
  match members with
  | [] => (ok, s)
  | member :: members =>
      if bool_decide ((organization, id, member) ∈ scim_group_members s) then
        (Err (databaseError unique_violation "insert SCIM group member"), s)
      else if negb (bool_decide (is_Some (user_row s organization member))) then
        (Err (databaseError foreign_key_violation "insert SCIM group member"), s)
      else insertMembers organization id members (with_members (union {[ (organization, id, member) ]}) s)
  end.

(** One transaction: a failed insertion rolls the deletion back. *)
Definition replaceGroupMembers (organization : OrganizationId) (id : GroupId) (members : list IdentityId)
    : prog t Error unit := fun s =>
  match group_row s organization id with
  | None => (failCode NotFound, s)
  | Some _ =>
      let removed := with_members (filter (fun m => ~ (m.1.1 = organization /\ m.1.2 = id))) s in
      match insertMembers organization id members removed with
      | (Ok _, s') => (ok, s')
      | (r, _) => (r, s)
      end
  end.

Definition directory : DirectoryRepository t := {|
  dr_addUser := addUser; dr_saveUser := saveUser; dr_removeUser := removeUser; dr_findUser := findUser;
  dr_findUserByName := findUserByName; dr_users := users; dr_addGroup := addGroup; dr_saveGroup := saveGroup;
  dr_removeGroup := removeGroup; dr_findGroup := findGroup; dr_findGroupByName := findGroupByName;
  dr_groups := groups; dr_groupMembers := groupMembers; dr_replaceGroupMembers := replaceGroupMembers;
|}.
End tables.
End PostgresScimDirectoryRepository.

(** ** The service *)

Module UserView.
Record t := mk {
  record : UserRecord.t;
  status : IdentityStatus;
  profile : option IdentityProfile.t;
}.
End UserView.

Module GroupView.
Record t := mk { record : GroupRecord.t; members : list IdentityId }.
End GroupView.

(** The state behind the references of the service, and the platform. *)
Record provisioning (D I P M W : Type) := mkProvisioning {
  p_directory : D;
  p_identities : I;
  p_profiles : P;
  p_memberships : M;
  p_world : W;
}.
Arguments mkProvisioning {D I P M W}.
Arguments p_directory {D I P M W}.
Arguments p_identities {D I P M W}.
Arguments p_profiles {D I P M W}.
Arguments p_memberships {D I P M W}.
Arguments p_world {D I P M W}.

Module Service.
Section service.
Context `{Plat : Platform}.
Context {D I P M : Type}
  `{!DirectoryRepository D, !IdentityRepository I, !IdentityProfileRepository P, !MembershipRepository M}.
Abbreviation state := (provisioning D I P M world).
Abbreviation handler B := (prog state Error B).

Definition on_directory {B} (m : prog D Error B) : handler B :=
  zoom p_directory
    (fun x s => mkProvisioning x (p_identities s) (p_profiles s) (p_memberships s) (p_world s)) m.
Definition on_identities {B} (m : prog I Error B) : handler B :=
  zoom p_identities
    (fun x s => mkProvisioning (p_directory s) x (p_profiles s) (p_memberships s) (p_world s)) m.
Definition on_profiles {B} (m : prog P Error B) : handler B :=
  zoom p_profiles
    (fun x s => mkProvisioning (p_directory s) (p_identities s) x (p_memberships s) (p_world s)) m.
Definition on_memberships {B} (m : prog M Error B) : handler B :=
  zoom p_memberships
    (fun x s => mkProvisioning (p_directory s) (p_identities s) (p_profiles s) x (p_world s)) m.
Definition on_world {B} (m : prog world Error B) : handler B :=
  zoom p_world
    (fun x s => mkProvisioning (p_directory s) (p_identities s) (p_profiles s) (p_memberships s) x) m.

(** Queries: [const] member functions of the collaborators. *)
Definition ask {B} (f : state -> Result B) : handler B := fun s => (f s, s).

Context (m_organization : OrganizationId).

Definition hydrate (record : UserRecord.t) : handler UserView.t :=
  identity ← ask (fun s => ir_findById (p_identities s) m_organization (UserRecord.identity record));
  match identity with
  | None => throw (Error_ofCode NotFound)
  | Some identity =>
      profile ← ask (fun s => pr_find (p_profiles s) (UserRecord.identity record));
      mret (UserView.mk record (Identity.status identity) profile)
  end.

Definition setActive (id : IdentityId) (active : bool) : handler unit :=
  membership ← ask (fun s => mr_find (p_memberships s) m_organization id);
  match membership with
  | None => throw (Error_ofCode NotFound)
  | Some current =>
      if bool_decide (Membership.state current = MembershipState.Removed) then
        throw (Error_ofMessage FailedPrecondition "A removed SCIM membership cannot change active state.")
      else if active then
        _ ← (if bool_decide (Membership.state current = MembershipState.Suspended) then
               current ← lift (mutate Membership.reinstate current);
               on_memberships (mr_save current)
             else mret tt);
        on_identities (ir_changeStatus m_organization id Active)
      else
        _ ← (if bool_decide (Membership.state current = MembershipState.Active) then
               current ← lift (mutate Membership.suspend current);
               on_memberships (mr_save current)
             else mret tt);
        on_identities (ir_changeStatus m_organization id Suspended)
  end.

(** The profile of a new or replaced user. *)
Definition describe (userName : string) (displayName email : option string) (now : Instant)
    (profile : IdentityProfile.t) : Result IdentityProfile.t :=
  profile ← mutate (IdentityProfile.updateSelfService displayName (Some userName) None None now) profile;
  match email with
  | Some email => mutate (IdentityProfile.setEmail email false now) profile
  | None => Ok profile
  end.

(** The stores of a new user, one after the other. *)
Definition storeUser (identity : Identity.t) (membership : Membership.t) (profile : IdentityProfile.t)
    (record : UserRecord.t) : handler unit :=
  let id := UserRecord.identity record in
  _ ← on_identities (ir_add m_organization identity);
  _ ← orUndo (on_identities (ir_changeStatus m_organization id Deactivated)) (on_memberships (mr_add membership));
  _ ← orUndo (setActive id false) (on_profiles (pr_save profile));
  orUndo (setActive id false) (on_directory (dr_addUser record)).

Definition createUser (userName : string) (externalId : option string) (active : bool)
    (displayName email : option string) : handler UserView.t :=
  if negb (validText userName 320) || negb (validOptional displayName 512) || negb (validOptional email 320)
     || negb (validOptional externalId 1024) then
    throw (Error_ofCode InvalidArgument)
  else
    existing ← ask (fun s => dr_findUserByName (p_directory s) m_organization userName);
    match existing with
    | Some _ => throw (Error_ofCode AlreadyExists)
    | None =>
        id ← on_world newIdentityId;
        now ← on_world now;
        match Identity.create id Human now, Membership.invite m_organization id now,
              IdentityProfile.create id now, UserRecord.create id m_organization userName externalId now now with
        | Ok identity, Ok membership, Ok profile, Ok record =>
            match mutate Membership.accept membership, describe userName displayName email now profile with
            | Ok membership, Ok profile =>
                _ ← storeUser identity membership profile record;
                _ ← (if active then mret tt else setActive id false);
                hydrate record
            | _, _ => throw (Error_ofCode InvalidArgument)
            end
        | _, _, _, _ => throw (Error_ofCode InvalidArgument)
        end
    end.

(** The profile to update. [value()] throws when the identifier is empty. *)
Definition profileOrNew (id : IdentityId) (profile : option IdentityProfile.t) : handler IdentityProfile.t :=
  match profile with
  | Some profile => mret profile
  | None =>
      now ← on_world now;
      lift (match IdentityProfile.create id now with Ok profile => Ok profile | _ => Aborted end)
  end.

Definition replaceUser (id : IdentityId) (userName : string) (externalId : option string) (active : bool)
    (displayName email : option string) : handler UserView.t :=
  existing ← ask (fun s => dr_findUser (p_directory s) m_organization id);
  match existing with
  | None => throw (Error_ofCode NotFound)
  | Some record =>
      byName ← ask (fun s => dr_findUserByName (p_directory s) m_organization userName);
      if match byName with
         | Some other => negb (bool_decide (UserRecord.identity other = id))
         | None => false
         end then
        throw (Error_ofCode AlreadyExists)
      else
        profile ← ask (fun s => pr_find (p_profiles s) id);
        updated ← profileOrNew id profile;
        now ← on_world now;
        updated ← lift (describe userName displayName email now updated);
        _ ← setActive id active;
        _ ← on_profiles (pr_save updated);
        record ← lift (mutate (UserRecord.rename userName externalId now) record);
        _ ← on_directory (dr_saveUser record);
        hydrate record
  end.

Definition user (id : IdentityId) : handler UserView.t :=
  record ← ask (fun s => dr_findUser (p_directory s) m_organization id);
  match record with None => throw (Error_ofCode NotFound) | Some record => hydrate record end.

Fixpoint hydrateAll (records : list UserRecord.t) : handler (list UserView.t) :=
  match records with
  | [] => mret []
  | record :: records =>
      value ← hydrate record;
      output ← hydrateAll records;
      mret (value :: output)
  end.

Definition users : handler (list UserView.t) :=
  records ← ask (fun s => dr_users (p_directory s) m_organization);
  hydrateAll records.

Definition userByName (userName : string) : handler (option UserView.t) :=
  record ← ask (fun s => dr_findUserByName (p_directory s) m_organization userName);
  match record with
  | None => mret None
  | Some record => value ← hydrate record; mret (Some value)
  end.

Definition removeUser (id : IdentityId) : handler unit :=
  membership ← ask (fun s => mr_find (p_memberships s) m_organization id);
  _ ← match membership with
      | Some current =>
          if negb (bool_decide (Membership.state current = MembershipState.Removed)) then
            current ← lift (mutate Membership.remove current);
            on_memberships (mr_save current)
          else mret tt
      | None => mret tt
      end;
  _ ← on_identities (ir_changeStatus m_organization id Deactivated);
  on_directory (dr_removeUser m_organization id).

(** The loop of [validateMembers] over the members. *)
Fixpoint requireUsers (members : list IdentityId) : handler unit :=
  match members with
  | [] => mret tt
  | member :: members =>
      user ← ask (fun s => dr_findUser (p_directory s) m_organization member);
      match user with None => throw (Error_ofCode NotFound) | Some _ => requireUsers members end
  end.

Definition validateMembers (members : list IdentityId) : handler unit :=
  if has_adjacent (sort_keys members) then
    throw (Error_ofMessage InvalidArgument "A SCIM group contains duplicate members.")
  else requireUsers members.

Definition createGroup (displayName : string) (externalId : option string) (members : list IdentityId)
    : handler GroupView.t :=
  existing ← ask (fun s => dr_findGroupByName (p_directory s) m_organization displayName);
  match existing with
  | Some _ => throw (Error_ofCode AlreadyExists)
  | None =>
      _ ← validateMembers members;
      id ← on_world newGroupId;
      now ← on_world now;
      record ← lift (GroupRecord.create id m_organization displayName externalId now now);
      _ ← on_directory (dr_addGroup record);
      _ ← orUndo (on_directory (dr_removeGroup m_organization id))
            (on_directory (dr_replaceGroupMembers m_organization id members));
      mret (GroupView.mk record members)
  end.

Definition replaceGroup (id : GroupId) (displayName : string) (externalId : option string)
    (members : list IdentityId) : handler GroupView.t :=
  existing ← ask (fun s => dr_findGroup (p_directory s) m_organization id);
  match existing with
  | None => throw (Error_ofCode NotFound)
  | Some record =>
      duplicate ← ask (fun s => dr_findGroupByName (p_directory s) m_organization displayName);
      if match duplicate with
         | Some other => negb (bool_decide (GroupRecord.id other = id))
         | None => false
         end then
        throw (Error_ofCode AlreadyExists)
      else
        _ ← validateMembers members;
        now ← on_world now;
        record ← lift (mutate (GroupRecord.rename displayName externalId now) record);
        _ ← on_directory (dr_saveGroup record);
        _ ← on_directory (dr_replaceGroupMembers m_organization id members);
        mret (GroupView.mk record members)
  end.

(** A stored group with its members. *)
Definition withMembers (record : GroupRecord.t) : handler GroupView.t :=
  members ← ask (fun s => dr_groupMembers (p_directory s) m_organization (GroupRecord.id record));
  mret (GroupView.mk record members).

Definition group (id : GroupId) : handler GroupView.t :=
  record ← ask (fun s => dr_findGroup (p_directory s) m_organization id);
  match record with None => throw (Error_ofCode NotFound) | Some record => withMembers record end.

Fixpoint withMembersAll (records : list GroupRecord.t) : handler (list GroupView.t) :=
  match records with
  | [] => mret []
  | record :: records =>
      value ← withMembers record;
      output ← withMembersAll records;
      mret (value :: output)
  end.

Definition groups : handler (list GroupView.t) :=
  records ← ask (fun s => dr_groups (p_directory s) m_organization);
  withMembersAll records.

Definition groupByName (displayName : string) : handler (option GroupView.t) :=
  record ← ask (fun s => dr_findGroupByName (p_directory s) m_organization displayName);
  match record with
  | None => mret None
  | Some record => value ← withMembers record; mret (Some value)
  end.

Definition removeGroup (id : GroupId) : handler unit := on_directory (dr_removeGroup m_organization id).
End service.
End Service.
