(* ===== verification/Provisioning.v ===== *)
(** * openproof.enterprise.scim: what provisioning promises

    The tables of the directory keep the contract and their references; a
    provisioned user is as requested in every store, a removed one is locked
    out, and the service of one organization touches no other. *)
From S2P Require Import Prelude Foundation Encoding Security IdentityCore Profile Organizations Scim.

(** ** The tables *)

Section tables.
Import PostgresScimDirectoryRepository.
Context (identity_exists : IdentityId -> bool) (organization_exists : OrganizationId -> bool).
Context (order_users : list UserRecord.t -> list UserRecord.t) (order_groups : list GroupRecord.t -> list GroupRecord.t)
  (order_members : list IdentityId -> list IdentityId).
Implicit Types s : PostgresScimDirectoryRepository.t.

Lemma user_row_some s org id r :
  user_row s org id = Some r <-> scim_users s !! id = Some r /\ UserRecord.organization r = org.
Proof.
  unfold user_row. destruct (scim_users s !! id) as [row|]; [|naive_solver].
  case_bool_decide; naive_solver.
Qed.

Lemma group_row_some s org id r :
  group_row s org id = Some r <-> scim_groups s !! id = Some r /\ GroupRecord.organization r = org.
Proof.
  unfold group_row. destruct (scim_groups s !! id) as [row|]; [|naive_solver].
  case_bool_decide; naive_solver.
Qed.

Lemma found_user row r : found readUser row = Ok r -> r = row.
Proof.
  unfold found. destruct row as [row|]; [|naive_solver]. intros (record & Hr & [= <-])%result_bind_ok.
  unfold readUser, UserRecord.create in Hr. destruct (_ || _); [done|]. injection Hr as <-. by destruct row.
Qed.

(** Storing a row changes what is seen of its identity only. *)
Lemma user_row_insert s id r org' id' :
  user_row (with_users <[id := r]> s) org' id' =
    if decide (id' = id) then (if bool_decide (UserRecord.organization r = org') then Some r else None)
    else user_row s org' id'.
Proof. unfold user_row, with_users. cbn [scim_users]. rewrite lookup_insert. by repeat case_decide; subst. Qed.

(** *** Keys and references *)

Inductive directory_statement :=
  | StAddUser (r : UserRecord.t)
  | StSaveUser (r : UserRecord.t)
  | StRemoveUser (org : OrganizationId) (id : IdentityId)
  | StAddGroup (g : GroupRecord.t)
  | StSaveGroup (g : GroupRecord.t)
  | StRemoveGroup (org : OrganizationId) (id : GroupId)
  | StReplaceMembers (org : OrganizationId) (id : GroupId) (members : list IdentityId).

Definition statement_step (o : directory_statement) s : PostgresScimDirectoryRepository.t :=
  match o with
  | StAddUser r => (addUser identity_exists organization_exists r s).2
  | StSaveUser r => (saveUser r s).2
  | StRemoveUser org id => (removeUser org id s).2
  | StAddGroup g => (addGroup organization_exists g s).2
  | StSaveGroup g => (saveGroup g s).2
  | StRemoveGroup org id => (removeGroup org id s).2
  | StReplaceMembers org id members => (replaceGroupMembers org id members s).2
  end.

(** Rows are keyed, names are unique in an organization, and a membership
    joins a user and a group of one organization. *)
Record directory_consistent s : Prop := {
  users_keyed : forall id r, scim_users s !! id = Some r -> UserRecord.identity r = id;
  groups_keyed : forall id g, scim_groups s !! id = Some g -> GroupRecord.id g = id;
  user_names : forall i j r q, scim_users s !! i = Some r -> scim_users s !! j = Some q ->
    UserRecord.organization r = UserRecord.organization q -> UserRecord.userName r = UserRecord.userName q -> i = j;
  group_names : forall i j r q, scim_groups s !! i = Some r -> scim_groups s !! j = Some q ->
    GroupRecord.organization r = GroupRecord.organization q -> GroupRecord.displayName r = GroupRecord.displayName q ->
    i = j;
  members_refer : forall org g i, (org, g, i) ∈ scim_group_members s ->
    is_Some (user_row s org i) /\ is_Some (group_row s org g);
}.

Lemma user_name_free s r id row :
  user_name_taken s r = false -> scim_users s !! id = Some row -> id <> UserRecord.identity r ->
  UserRecord.organization row = UserRecord.organization r -> UserRecord.userName row <> UserRecord.userName r.
Proof.
  intros Hfree Hrow Hid Ho Hn. apply not_true_iff_false in Hfree. apply Hfree. apply existsb_exists. exists (id, row).
  split; [apply list_elem_of_In; by apply elem_of_map_to_list|]. cbn.
  by rewrite bool_decide_eq_false_2, !bool_decide_eq_true_2.
Qed.

Lemma display_name_free s g id row :
  display_name_taken s g = false -> scim_groups s !! id = Some row -> id <> GroupRecord.id g ->
  GroupRecord.organization row = GroupRecord.organization g -> GroupRecord.displayName row <> GroupRecord.displayName g.
Proof.
  intros Hfree Hrow Hid Ho Hn. apply not_true_iff_false in Hfree. apply Hfree. apply existsb_exists. exists (id, row).
  split; [apply list_elem_of_In; by apply elem_of_map_to_list|]. cbn.
  by rewrite bool_decide_eq_false_2, !bool_decide_eq_true_2.
Qed.

(** A user row is written: a new one, or an old one of the same organization. *)
Lemma write_user_consistent s id r :
  directory_consistent s -> UserRecord.identity r = id -> user_name_taken s r = false ->
  (forall row, scim_users s !! id = Some row -> UserRecord.organization row = UserRecord.organization r) ->
  directory_consistent (with_users <[id := r]> s).
Proof.
  intros [Hu Hg Hun Hgn Hm] Hid Hfree Hold. split; cbn [with_users scim_users scim_groups scim_group_members]; try done.
  - intros i q. rewrite lookup_insert. case_decide; [intros [= <-]; by subst|]. apply Hu.
  - intros i j q q' Hi Hj Ho Hn. rewrite lookup_insert in Hi, Hj.
    destruct (decide (id = i)) as [Ei|Ei], (decide (id = j)) as [Ej|Ej].
    + congruence.
    + injection Hi as <-. exfalso. eapply (user_name_free s r j q'); eauto; congruence.
    + injection Hj as <-. exfalso. eapply (user_name_free s r i q); eauto; congruence.
    + by eapply Hun.
  - intros org g i Hin. destruct (Hm _ _ _ Hin) as [[row Hrow] Hgroup]. split; [|done].
    rewrite user_row_insert. case_decide as Ei; [|by eexists]. subst i.
    apply user_row_some in Hrow as [Hrow <-]. rewrite bool_decide_eq_true_2 by (symmetry; by apply Hold). by eexists.
Qed.

Lemma write_group_consistent s id g :
  directory_consistent s -> GroupRecord.id g = id -> display_name_taken s g = false ->
  (forall row, scim_groups s !! id = Some row -> GroupRecord.organization row = GroupRecord.organization g) ->
  directory_consistent (with_groups <[id := g]> s).
Proof.
  intros [Hu Hg Hun Hgn Hm] Hid Hfree Hold. split; cbn [with_groups scim_users scim_groups scim_group_members]; try done.
  - intros i q. rewrite lookup_insert. case_decide; [intros [= <-]; by subst|]. apply Hg.
  - intros i j q q' Hi Hj Ho Hn. rewrite lookup_insert in Hi, Hj.
    destruct (decide (id = i)) as [Ei|Ei], (decide (id = j)) as [Ej|Ej].
    + congruence.
    + injection Hi as <-. exfalso. eapply (display_name_free s g j q'); eauto; congruence.
    + injection Hj as <-. exfalso. eapply (display_name_free s g i q); eauto; congruence.
    + by eapply Hgn.
  - intros org g' i Hin. destruct (Hm _ _ _ Hin) as [Huser [row Hrow]]. split; [done|].
    unfold group_row, with_groups. cbn [scim_groups]. rewrite lookup_insert.
    apply group_row_some in Hrow as [Hrow <-]. case_decide as Ei; [|rewrite Hrow, bool_decide_eq_true_2 by done; by eexists].
    subst. rewrite bool_decide_eq_true_2 by (symmetry; by apply Hold). by eexists.
Qed.

(** The memberships of a deleted row go with it. *)
Lemma remove_user_consistent s org id row :
  directory_consistent s -> user_row s org id = Some row ->
  directory_consistent (with_members (filter (fun m => ~ (m.1.1 = org /\ m.2 = id))) (with_users (delete id) s)).
Proof.
  intros [Hu Hg Hun Hgn Hm] Hrow. split; cbn [with_members with_users scim_users scim_groups scim_group_members]; try done.
  - intros i r [_ Hi]%lookup_delete_Some. by apply Hu.
  - intros i j r q [_ Hi]%lookup_delete_Some [_ Hj]%lookup_delete_Some. by apply Hun.
  - intros o g i [Hne Hin]%elem_of_filter. cbn in Hne. destruct (Hm _ _ _ Hin) as [[u Hu'] Hgroup]. split; [|done].
    exists u. apply user_row_some in Hu' as [Hu' Ho]. apply user_row_some. split; [|done].
    apply lookup_delete_Some. split; [|done]. intros ->. apply Hne. split; [|done].
    apply user_row_some in Hrow as [Hrow <-]. congruence.
Qed.

Lemma remove_group_consistent s org id row :
  directory_consistent s -> group_row s org id = Some row ->
  directory_consistent (with_members (filter (fun m => ~ (m.1.1 = org /\ m.1.2 = id))) (with_groups (delete id) s)).
Proof.
  intros [Hu Hg Hun Hgn Hm] Hrow. split; cbn [with_members with_groups scim_users scim_groups scim_group_members]; try done.
  - intros i r [_ Hi]%lookup_delete_Some. by apply Hg.
  - intros i j r q [_ Hi]%lookup_delete_Some [_ Hj]%lookup_delete_Some. by apply Hgn.
  - intros o g i [Hne Hin]%elem_of_filter. cbn in Hne. destruct (Hm _ _ _ Hin) as [Huser [u Hu']]. split; [done|].
    exists u. apply group_row_some in Hu' as [Hu' Ho]. apply group_row_some. split; [|done].
    apply lookup_delete_Some. split; [|done]. intros ->. apply Hne. split; [|done].
    apply group_row_some in Hrow as [Hrow <-]. congruence.
Qed.

Lemma with_members_consistent s f :
  directory_consistent s ->
  (forall org g i, (org, g, i) ∈ f (scim_group_members s) -> is_Some (user_row s org i) /\ is_Some (group_row s org g)) ->
  directory_consistent (with_members f s).
Proof. intros [Hu Hg Hun Hgn Hm] Hf. split; try done. Qed.

Lemma insertMembers_consistent org g members s s' :
  directory_consistent s -> is_Some (group_row s org g) -> insertMembers org g members s = (ok, s') ->
  directory_consistent s'.
Proof.
  revert s. induction members as [|m members IH]; intros s Hs Hgroup; cbn [insertMembers]; [by intros [= <-]|].
  case_bool_decide; [done|]. case_bool_decide as Huser; [|done]. cbn [negb]. apply IH; [|done].
  apply with_members_consistent; [done|]. intros o g' i [Hin|Hin]%elem_of_union.
  - apply elem_of_singleton in Hin as [= -> -> ->]. done.
  - by apply (members_refer _ Hs).
Qed.

Lemma statement_consistent o s : directory_consistent s -> directory_consistent (statement_step o s).
Proof.
  intros Hs. destruct o; cbn [statement_step].
  - unfold addUser. case_bool_decide as Hk; [done|]. cbn [orb]. destruct (user_name_taken s r) eqn:Hn; [done|].
    destruct (_ || _); [done|]. apply write_user_consistent; try done. intros row Hrow. destruct Hk. by eexists.
  - unfold saveUser. destruct (user_row s _ _) as [row|] eqn:Hrow; [|done]. destruct (user_name_taken s r) eqn:Hn; [done|].
    apply user_row_some in Hrow as [Hrow Ho]. pose proof (users_keyed _ Hs _ _ Hrow) as Hid.
    apply write_user_consistent; try done.
    + unfold user_name_taken in *. cbn [UserRecord.identity UserRecord.organization UserRecord.userName].
      by rewrite Ho, Hid.
    + intros row' Hrow'. cbn. congruence.
  - unfold removeUser. destruct (user_row s org id) as [row|] eqn:Hrow; [|done]. by eapply remove_user_consistent.
  - unfold addGroup. case_bool_decide as Hk; [done|]. cbn [orb]. destruct (display_name_taken s g) eqn:Hn; [done|].
    destruct (negb _); [done|]. apply write_group_consistent; try done. intros row Hrow. destruct Hk. by eexists.
  - unfold saveGroup. destruct (group_row s _ _) as [row|] eqn:Hrow; [|done]. destruct (display_name_taken s g) eqn:Hn; [done|].
    apply group_row_some in Hrow as [Hrow Ho]. pose proof (groups_keyed _ Hs _ _ Hrow) as Hid.
    apply write_group_consistent; try done.
    + unfold display_name_taken in *. cbn [GroupRecord.id GroupRecord.organization GroupRecord.displayName].
      by rewrite Ho, Hid.
    + intros row' Hrow'. cbn. congruence.
  - unfold removeGroup. destruct (group_row s org id) as [row|] eqn:Hrow; [|done]. by eapply remove_group_consistent.
  - unfold replaceGroupMembers. destruct (group_row s org id) as [row|] eqn:Hrow; [|done].
    destruct (insertMembers org id members _) as [[[]|e|] s'] eqn:Hins; [|done..]. cbn [snd].
    eapply insertMembers_consistent; [| |exact Hins].
    + apply with_members_consistent; [done|]. intros o g i [_ Hin]%elem_of_filter. by apply (members_refer _ Hs).
    + by exists row.
Qed.

(** The tables keep the contract of the directory. *)
#[global] Program Instance laws :
  DirectoryRepositoryLaws (H := directory identity_exists organization_exists order_users order_groups order_members)
    PostgresScimDirectoryRepository.t := {| dr_user := user_row; dr_wf := directory_consistent |}.
Next Obligation.
  intros s org id r Hr%found_user. done.
Qed.
Next Obligation.
  intros s org id r Hs Hr%found_user. apply symmetry, user_row_some in Hr as [Hr Ho].
  by apply (users_keyed _ Hs) in Hr.
Qed.
Next Obligation. intros r s. apply (statement_consistent (StAddUser r)). Qed.
Next Obligation. intros r s. apply (statement_consistent (StSaveUser r)). Qed.
Next Obligation. intros org id s. apply (statement_consistent (StRemoveUser org id)). Qed.
Next Obligation. intros g s. apply (statement_consistent (StAddGroup g)). Qed.
Next Obligation. intros g s. apply (statement_consistent (StSaveGroup g)). Qed.
Next Obligation. intros org g s. apply (statement_consistent (StRemoveGroup org g)). Qed.
Next Obligation. intros org g ms s. apply (statement_consistent (StReplaceMembers org g ms)). Qed.
Next Obligation.
  intros s org name id r Hn%found_user Hr. apply user_row_some in Hr as [Hr Ho]. intros Hname.
  assert (r ∈ filter (fun row => UserRecord.userName row = name) (users_of s org)) as Hin.
  { apply list_elem_of_filter. split; [done|]. apply list_elem_of_filter. split; [done|].
    apply list_elem_of_fmap. exists (id, r). split; [done|]. by apply elem_of_map_to_list. }
  destruct (filter _ _); [by apply not_elem_of_nil in Hin|done].
Qed.
Next Obligation.
  intros s r s'. cbn. unfold addUser. case_bool_decide as Hk; [done|]. destruct (user_name_taken s r); [done|].
  cbn [orb]. destruct (negb (identity_exists _) || _); [done|]. intros [= <-]. apply eq_None_not_Some in Hk.
  split; [unfold user_row; by rewrite Hk|]. intros org id. rewrite user_row_insert.
  unfold user_row. case_decide as Hi; [subst|by rewrite decide_False by naive_solver].
  case_bool_decide; [by rewrite decide_True|]. rewrite decide_False by naive_solver. by rewrite Hk.
Qed.
Next Obligation.
  intros s r s'. cbn. unfold saveUser. destruct (user_row s _ _) as [row|] eqn:Hrow; [|done].
  destruct (user_name_taken s r); [done|]. intros [= <-]. exists row. split; [done|]. intros org id.
  rewrite user_row_insert. cbn [UserRecord.organization]. apply user_row_some in Hrow as [Hrow Ho].
  case_decide as Hi; [subst|by rewrite decide_False by naive_solver].
  case_bool_decide as Horg; [by rewrite decide_True by (split; congruence)|].
  rewrite decide_False by (intros [? _]; congruence). unfold user_row. rewrite Hrow.
  by rewrite bool_decide_eq_false_2.
Qed.
Next Obligation.
  intros s org id s'. cbn. unfold removeUser. destruct (user_row s org id) as [row|] eqn:Hrow; [|done].
  intros [= <-]. split; [done|]. intros org' id'. apply user_row_some in Hrow as [Hrow Ho].
  unfold user_row, with_members, with_users. cbn [scim_users]. rewrite lookup_delete.
  repeat case_decide; subst; try naive_solver. rewrite Hrow. rewrite bool_decide_eq_false_2; [done|]. naive_solver.
Qed.
Next Obligation. intros s r. cbn. unfold addUser. by repeat case_match. Qed.
Next Obligation. intros s r. cbn. unfold saveUser. by repeat case_match. Qed.
Next Obligation. intros s org id. cbn. unfold removeUser. by repeat case_match. Qed.
Next Obligation. intros s g. cbn. unfold addGroup. by repeat case_match. Qed.
Next Obligation. intros s g. cbn. unfold saveGroup. by repeat case_match. Qed.
Next Obligation. intros s org g. cbn. unfold removeGroup. by repeat case_match. Qed.
Next Obligation.
  intros s org g ms. cbn. unfold replaceGroupMembers. destruct (group_row s org g); [|done].
  assert (forall ms s, scim_users (insertMembers org g ms s).2 = scim_users s) as Hins.
  { clear. intros ms. induction ms as [|m ms IH]; intros s; cbn [insertMembers]; [done|].
    destruct (bool_decide _); [done|]. destruct (negb _); [done|]. by rewrite IH. }
  specialize (Hins ms (with_members (filter (fun m => ~ (m.1.1 = org /\ m.1.2 = g))) s)).
  destruct (insertMembers org g ms _) as [[[]| |] s']; cbn in *; [|done..].
  unfold user_row. by rewrite Hins.
Qed.

(** The directory keeps its keys and references. After any sequence of its
    statements, whether they succeed or fail, every row is stored under its
    identifier, no two users and no two groups of one organization share a name,
    and every membership joins a user and a group that exist, both in the
    organization of the membership. *)
Theorem directory_keeps_references os : directory_consistent (foldl (fun s o => statement_step o s) empty os).
Proof.
  assert (directory_consistent empty) as Hempty.
  { split; cbn [empty scim_users scim_groups scim_group_members]; intros *; rewrite ?lookup_empty; done. }
  revert Hempty. generalize empty. induction os as [|o os IH]; intros s Hs; cbn [foldl]; [done|].
  by apply IH, statement_consistent.
Qed.
End tables.

(** ** The service *)

Section provisioning.
Context `{Plat : Platform}.
Context {D I P M : Type}
  `{DirectoryRepositoryLaws D, IdentityRepositoryLaws I, !IdentityProfileRepository P, MembershipRepositoryLaws M}.
Import Service.
Context (org : OrganizationId).
Abbreviation state := (provisioning D I P M world).
Implicit Types s : state.

Abbreviation identity_of s := (ir_view (p_identities s)).
Abbreviation membership_of s := (mr_view (p_memberships s)).
Abbreviation user_of s := (dr_user (p_directory s)).

(** Memberships and users are stored under their keys. *)
Definition sound s : Prop := mr_wf (p_memberships s) /\ dr_wf (p_directory s).

(** Nothing is different but what belongs to [id] in the organization of the
    service, and what is stored stays under its key. *)
Definition touches (id : IdentityId) s s' : Prop :=
  sound s ->
  sound s' /\
  forall o i, ~ (o = org /\ i = id) ->
    identity_of s' o i = identity_of s o i /\ membership_of s' o i = membership_of s o i /\
    user_of s' o i = user_of s o i.

#[local] Instance touches_preorder id : PreOrder (touches id).
Proof.
  split; [by intros s Hs|]. intros s1 s2 s3 H12 H23 Hwf. destruct (H12 Hwf) as [Hwf2 E12].
  destruct (H23 Hwf2) as [Hwf3 E23]. split; [done|]. intros o i Hne.
  destruct (E12 o i Hne) as (? & ? & ?), (E23 o i Hne) as (? & ? & ?). split_and!; congruence.
Qed.

Section target.
Context (id : IdentityId).
Abbreviation within := (touches id).

Lemma touch_still {B} (m : prog state Error B) :
  (forall s, p_directory (m s).2 = p_directory s /\ p_identities (m s).2 = p_identities s /\
     p_memberships (m s).2 = p_memberships s) -> advances within m.
Proof. intros Hm s Hwf. unfold sound. destruct (Hm s) as (-> & -> & ->). done. Qed.

Lemma touch_world {B} (m : prog world Error B) : advances within (on_world m).
Proof. apply touch_still. intros s. unfold on_world, zoom. by destruct (m _). Qed.
Lemma touch_profiles {B} (m : prog P Error B) : advances within (on_profiles m).
Proof. apply touch_still. intros s. unfold on_profiles, zoom. by destruct (m _). Qed.
Lemma touch_ask {B} (f : state -> Result B) : advances within (ask f).
Proof. by apply touch_still. Qed.
Lemma touch_lift {B} (r : Result B) : advances within (lift r).
Proof. by apply touch_still. Qed.
Lemma touch_throw {B} (e : Error) : advances within (throw (A:=B) e).
Proof. by apply touch_still. Qed.
Lemma touch_ret {B} (b : B) : advances within (mret (M:=prog state Error) b).
Proof. by apply touch_still. Qed.

Lemma touch_lift_bind {B B'} (r : Result B) (k : B -> prog state Error B') :
  (forall b, r = Ok b -> advances within (k b)) -> advances within (b ← lift r; k b).
Proof. intros Hk s. unfold mbind, prog_bind, lift. destruct r as [b|e|]; [by apply Hk|reflexivity..]. Qed.

Lemma touch_changeStatus status : advances within (on_identities (ir_changeStatus org id status)).
Proof.
  intros s Hwf. unfold on_identities, zoom. destruct (ir_changeStatus org id status (p_identities s)) as [r i] eqn:Hr.
  cbn. split; [done|]. intros o j Hne. split; [|done]. destruct (is_ok r) eqn:Hok.
  - apply is_ok_spec in Hok as [[] ->]. apply ir_changeStatus_view in Hr as (? & ? & _ & _ & ->).
    by rewrite decide_False.
  - pose proof (ir_changeStatus_not_ok (p_identities s) org id status) as Hn. rewrite Hr in Hn. cbn in Hn. by rewrite Hn.
Qed.

Lemma touch_addIdentity i : Identity.id i = id -> advances within (on_identities (ir_add org i)).
Proof.
  intros Hi s Hwf. unfold on_identities, zoom. destruct (ir_add org i (p_identities s)) as [r s'] eqn:Hr.
  cbn. split; [done|]. intros o j Hne. split; [|done]. destruct (is_ok r) eqn:Hok.
  - apply is_ok_spec in Hok as [[] ->]. rewrite (ir_add_view _ _ _ _ Hr), decide_False; [done|]. by rewrite Hi.
  - pose proof (ir_add_not_ok (p_identities s) org i) as Hn. rewrite Hr in Hn. cbn in Hn. by rewrite Hn.
Qed.

Lemma touch_addMembership m :
  Membership.organization m = org -> Membership.identity m = id -> advances within (on_memberships (mr_add m)).
Proof.
  intros Ho Hi s [Hwf Hd]. unfold on_memberships, zoom. pose proof (mr_add_wf m _ Hwf) as Hwf'.
  destruct (mr_add m (p_memberships s)) as [r s'] eqn:Hr. cbn in *. split; [done|]. intros o j Hne. split; [done|].
  split; [|done]. destruct (is_ok r) eqn:Hok.
  - apply is_ok_spec in Hok as [[] ->]. apply mr_add_ok in Hr as [_ ->]. rewrite decide_False; [done|]. by rewrite Ho, Hi.
  - pose proof (mr_add_not_ok (p_memberships s) m) as Hn. rewrite Hr in Hn. cbn in Hn. by rewrite Hn.
Qed.

Lemma touch_saveMembership m :
  Membership.organization m = org -> Membership.identity m = id -> advances within (on_memberships (mr_save m)).
Proof.
  intros Ho Hi s [Hwf Hd]. unfold on_memberships, zoom. pose proof (mr_save_wf m _ Hwf) as Hwf'.
  destruct (mr_save m (p_memberships s)) as [r s'] eqn:Hr. cbn in *. split; [done|]. intros o j Hne. split; [done|].
  split; [|done]. destruct (is_ok r) eqn:Hok.
  - apply is_ok_spec in Hok as [[] ->]. rewrite (mr_save_ok _ _ _ Hr), decide_False; [done|]. by rewrite Ho, Hi.
  - pose proof (mr_save_not_ok (p_memberships s) m) as Hn. rewrite Hr in Hn. cbn in Hn. by rewrite Hn.
Qed.

Lemma touch_addUser r :
  UserRecord.organization r = org -> UserRecord.identity r = id -> advances within (on_directory (dr_addUser r)).
Proof.
  intros Ho Hi s [Hm Hwf]. unfold on_directory, zoom. pose proof (dr_addUser_wf r _ Hwf) as Hwf'.
  destruct (dr_addUser r (p_directory s)) as [a s'] eqn:Hr. cbn in *. split; [done|]. intros o j Hne. split; [done|]. split; [done|]. destruct (is_ok a) eqn:Hok.
  - apply is_ok_spec in Hok as [[] ->]. apply dr_addUser_ok in Hr as [_ ->]. rewrite decide_False; [done|]. by rewrite Ho, Hi.
  - pose proof (dr_addUser_not_ok (p_directory s) r) as Hn. rewrite Hr in Hn. cbn in Hn. by rewrite Hn.
Qed.

Lemma touch_saveUser r :
  UserRecord.organization r = org -> UserRecord.identity r = id -> advances within (on_directory (dr_saveUser r)).
Proof.
  intros Ho Hi s [Hm Hwf]. unfold on_directory, zoom. pose proof (dr_saveUser_wf r _ Hwf) as Hwf'.
  destruct (dr_saveUser r (p_directory s)) as [a s'] eqn:Hr. cbn in *. split; [done|]. intros o j Hne. split; [done|]. split; [done|]. destruct (is_ok a) eqn:Hok.
  - apply is_ok_spec in Hok as [[] ->]. apply dr_saveUser_ok in Hr as (old & _ & ->).
    rewrite decide_False; [done|]. by rewrite Ho, Hi.
  - pose proof (dr_saveUser_not_ok (p_directory s) r) as Hn. rewrite Hr in Hn. cbn in Hn. by rewrite Hn.
Qed.

Lemma touch_removeUser : advances within (on_directory (dr_removeUser org id)).
Proof.
  intros s [Hm Hwf]. unfold on_directory, zoom. pose proof (dr_removeUser_wf org id _ Hwf) as Hwf'.
  destruct (dr_removeUser org id (p_directory s)) as [a s'] eqn:Hr. cbn in *. split; [done|]. intros o j Hne. split; [done|]. split; [done|]. destruct (is_ok a) eqn:Hok.
  - apply is_ok_spec in Hok as [[] ->]. apply dr_removeUser_ok in Hr as [_ ->]. by rewrite decide_False.
  - pose proof (dr_removeUser_not_ok (p_directory s) org id) as Hn. rewrite Hr in Hn. cbn in Hn. by rewrite Hn.
Qed.

(** A change to the groups of the directory. *)
Lemma touch_groups (m : prog D Error unit) :
  (forall d, dr_user (m d).2 = dr_user d) -> preserves dr_wf m -> advances within (on_directory m).
Proof.
  intros Hm Hk s [Hms Hwf]. unfold on_directory, zoom. specialize (Hm (p_directory s)). specialize (Hk _ Hwf).
  destruct (m _) as [r d]. cbn in *. split; [done|]. intros o j _. by rewrite Hm.
Qed.

(** The membership the service works on is the one it asked for. *)
Lemma touch_membership {B} (k : option Membership.t -> prog state Error B) :
  (forall m, Membership.organization m = org -> Membership.identity m = id -> advances within (k (Some m))) ->
  advances within (k None) ->
  advances within (found ← ask (fun s => mr_find (p_memberships s) org id); k found).
Proof.
  intros Hsome Hnone s Hs. unfold mbind, prog_bind, ask.
  destruct (mr_find (p_memberships s) org id) as [[m|]|e|] eqn:Hf; [|by apply Hnone|done..].
  destruct (mr_find_keyed _ _ _ _ (proj1 Hs) Hf) as [Ho Hi]. by apply Hsome.
Qed.

(** Walks through an operation of the service, one construct at a time. *)
Ltac roam :=
  repeat first
    [ apply touch_world | apply touch_profiles | apply touch_ask | apply touch_lift | apply touch_throw | apply touch_ret
    | apply touch_changeStatus | apply touch_removeUser
    | apply advances_orUndo; [apply _| |] | apply advances_bind; [apply _| |intros ?]
    | match goal with |- advances _ (match ?x with _ => _ end) => destruct x end ].

Lemma touch_hydrate record : advances within (hydrate org record).
Proof. unfold hydrate. roam. Qed.

(** The moves of a membership keep its pair. *)
Lemma moved_membership (f : prog Membership.t Error unit) m m' :
  In f [Membership.suspend; Membership.reinstate; Membership.remove; Membership.accept] -> mutate f m = Ok m' ->
  Membership.organization m' = Membership.organization m /\ Membership.identity m' = Membership.identity m.
Proof.
  intros Hf Hm%mutate_ok. unfold Membership.suspend, Membership.reinstate, Membership.remove, Membership.accept in Hf.
  repeat (destruct Hf as [<-|Hf]); [| | | |done]; (destruct (bool_decide _) in Hm; cbn [negb] in Hm; [|]);
    try done; by injection Hm as <-.
Qed.

Lemma touch_setActive active : advances within (setActive org id active).
Proof.
  unfold setActive. apply touch_membership; [|apply touch_throw]. intros m Ho Hi.
  destruct (bool_decide _); [apply touch_throw|].
  destruct active; (apply advances_bind; [apply _| |intros _; apply touch_changeStatus]);
    (destruct (bool_decide _); [|apply touch_ret]); apply touch_lift_bind; intros m' Hm';
    apply moved_membership in Hm' as [Ho' Hi']; try (cbn; tauto); apply touch_saveMembership; congruence.
Qed.

Lemma touch_storeUser identity membership profile record :
  Identity.id identity = id -> Membership.organization membership = org -> Membership.identity membership = id ->
  UserRecord.organization record = org -> UserRecord.identity record = id ->
  advances within (storeUser org identity membership profile record).
Proof.
  intros Hi Ho Hm Hr Hu. unfold storeUser. rewrite Hu.
  apply advances_bind; [apply _|by apply touch_addIdentity|intros _].
  apply advances_bind; [apply _| |intros _].
  { apply advances_orUndo; [apply _|apply touch_changeStatus|by apply touch_addMembership]. }
  apply advances_bind; [apply _| |intros _].
  - apply advances_orUndo; [apply _|apply touch_setActive|apply touch_profiles].
  - apply advances_orUndo; [apply _|apply touch_setActive|by apply touch_addUser].
Qed.

Lemma touch_removeUserOp : advances within (removeUser org id).
Proof.
  unfold removeUser. apply touch_membership.
  - intros m Ho Hi. apply advances_bind; [apply _| |intros _; roam]. destruct (negb _); [|apply touch_ret].
    apply touch_lift_bind. intros m' Hm'. apply moved_membership in Hm' as [Ho' Hi']; [|cbn; tauto].
    apply touch_saveMembership; congruence.
  - roam.
Qed.

(** The metadata the service renames is that of the user it asked for. *)
Lemma touch_user {B} (k : option UserRecord.t -> prog state Error B) :
  (forall r, UserRecord.organization r = org -> UserRecord.identity r = id -> advances within (k (Some r))) ->
  advances within (k None) ->
  advances within (found ← ask (fun s => dr_findUser (p_directory s) org id); k found).
Proof.
  intros Hsome Hnone s Hs. unfold mbind, prog_bind, ask.
  destruct (dr_findUser (p_directory s) org id) as [[r|]|e|] eqn:Hf; [|by apply Hnone|done..].
  destruct (dr_findUser_keyed _ _ _ _ (proj2 Hs) Hf) as [Ho Hi]. by apply Hsome.
Qed.

Lemma renamed_user userName externalId now r r' :
  mutate (UserRecord.rename userName externalId now) r = Ok r' ->
  UserRecord.organization r' = UserRecord.organization r /\ UserRecord.identity r' = UserRecord.identity r.
Proof. intros Hr%mutate_ok. unfold UserRecord.rename in Hr. destruct (_ || _); [done|]. by injection Hr as <-. Qed.

Lemma touch_replaceUser userName externalId active displayName email :
  advances within (replaceUser org id userName externalId active displayName email).
Proof.
  unfold replaceUser. apply touch_user; [|apply touch_throw]. intros record Ho Hi.
  apply advances_bind; [apply _|apply touch_ask|intros byName].
  destruct (match byName with Some _ => _ | None => _ end); [apply touch_throw|].
  apply advances_bind; [apply _|apply touch_ask|intros profile].
  apply advances_bind; [apply _|unfold profileOrNew; roam|intros updated].
  apply advances_bind; [apply _|apply touch_world|intros now].
  apply advances_bind; [apply _|apply touch_lift|intros updated'].
  apply advances_bind; [apply _|apply touch_setActive|intros _].
  apply advances_bind; [apply _|apply touch_profiles|intros _].
  apply touch_lift_bind. intros record' [Ho' Hi']%renamed_user.
  apply advances_bind; [apply _|apply touch_saveUser; congruence|intros _]. apply touch_hydrate.
Qed.

Lemma touch_addGroup g : advances within (on_directory (dr_addGroup g)).
Proof. apply touch_groups; [intros d; apply dr_addGroup_users|apply dr_addGroup_wf]. Qed.
Lemma touch_saveGroup g : advances within (on_directory (dr_saveGroup g)).
Proof. apply touch_groups; [intros d; apply dr_saveGroup_users|apply dr_saveGroup_wf]. Qed.
Lemma touch_removeGroup g : advances within (on_directory (dr_removeGroup org g)).
Proof. apply touch_groups; [intros d; apply dr_removeGroup_users|apply dr_removeGroup_wf]. Qed.
Lemma touch_replaceMembers g ms : advances within (on_directory (dr_replaceGroupMembers org g ms)).
Proof. apply touch_groups; [intros d; apply dr_replaceGroupMembers_users|apply dr_replaceGroupMembers_wf]. Qed.

Lemma touch_validateMembers members : advances within (validateMembers org members).
Proof.
  unfold validateMembers. destruct (has_adjacent _); [apply touch_throw|].
  induction members as [|m ms IH]; cbn [requireUsers]; [apply touch_ret|].
  apply advances_bind; [apply _|apply touch_ask|]. intros [user|]; [exact IH|apply touch_throw].
Qed.

Lemma touch_createGroup displayName externalId members :
  advances within (createGroup org displayName externalId members).
Proof.
  unfold createGroup. roam; first [apply touch_validateMembers|apply touch_addGroup|apply touch_removeGroup|apply touch_replaceMembers].
Qed.

Lemma touch_replaceGroup g displayName externalId members :
  advances within (replaceGroup org g displayName externalId members).
Proof.
  unfold replaceGroup. roam; first [apply touch_validateMembers|apply touch_saveGroup|apply touch_replaceMembers].
Qed.
End target.

(** A creation touches one identity: the one it generated. *)
Lemma touch_generated {B} (m : prog state Error IdentityId) (k : IdentityId -> prog state Error B) s :
  (forall id, advances (touches id) m) -> (forall id, advances (touches id) (k id)) ->
  exists id, touches id s ((id ← m; k id) s).2.
Proof.
  intros Hm Hk. destruct (m s) as [[id|e|] s1] eqn:Hr.
  - exists id. unfold mbind, prog_bind. rewrite Hr. specialize (Hm id s). rewrite Hr in Hm. cbn in Hm.
    etrans; [exact Hm|apply Hk].
  - exists (mkId ""). specialize (Hm (mkId "") s). unfold mbind, prog_bind. by rewrite Hr in *.
  - exists (mkId ""). specialize (Hm (mkId "") s). unfold mbind, prog_bind. by rewrite Hr in *.
Qed.

Lemma touch_createUser userName externalId active displayName email s :
  exists id, touches id s (createUser org userName externalId active displayName email s).2.
Proof.
  unfold createUser. destruct (_ || _); [exists (mkId ""); apply touch_throw|].
  unfold ask at 1. unfold mbind at 1. unfold prog_bind at 1.
  destruct (dr_findUserByName _ org userName) as [[r|]|e|]; [exists (mkId ""); reflexivity| |exists (mkId ""); reflexivity..].
  apply touch_generated; [intros id; apply touch_world|intros id].
  apply advances_bind; [apply _|apply touch_world|intros now].
  destruct (Identity.create id Human now) as [identity| |] eqn:Hi; try apply touch_throw.
  destruct (Membership.invite org id now) as [membership| |] eqn:Hm; try apply touch_throw.
  destruct (IdentityProfile.create id now) as [profile| |] eqn:Hp; try apply touch_throw.
  destruct (UserRecord.create id org userName externalId now now) as [record| |] eqn:Hu; try apply touch_throw.
  destruct (mutate Membership.accept membership) as [membership'| |] eqn:Hm'; try apply touch_throw.
  destruct (describe userName displayName email now profile) as [profile'| |] eqn:Hp'; try apply touch_throw.
  apply moved_membership in Hm' as [Ho' Hi']; [|cbn; tauto].
  unfold Identity.create in Hi. destruct (id_empty id); [done|]. injection Hi as <-.
  unfold Membership.invite in Hm. destruct (id_empty org); [done|]. destruct (id_empty id); [done|]. injection Hm as <-.
  unfold UserRecord.create in Hu. destruct (_ || _); [done|]. injection Hu as <-.
  apply advances_bind; [apply _|by apply touch_storeUser|intros _].
  apply advances_bind; [apply _| |intros _; apply touch_hydrate].
  destruct active; [apply touch_ret|apply touch_setActive].
Qed.

(** An operation of the service that changes something. *)
Inductive scim_op :=
  | CreateUser (userName : string) (externalId : option string) (active : bool) (displayName email : option string)
  | ReplaceUser (id : IdentityId) (userName : string) (externalId : option string) (active : bool)
      (displayName email : option string)
  | RemoveUser (id : IdentityId)
  | CreateGroup (displayName : string) (externalId : option string) (members : list IdentityId)
  | ReplaceGroup (id : GroupId) (displayName : string) (externalId : option string) (members : list IdentityId)
  | RemoveGroup (id : GroupId).

Definition scim_step (o : scim_op) s : state :=
  match o with
  | CreateUser userName externalId active displayName email =>
      (createUser org userName externalId active displayName email s).2
  | ReplaceUser id userName externalId active displayName email =>
      (replaceUser org id userName externalId active displayName email s).2
  | RemoveUser id => (removeUser org id s).2
  | CreateGroup displayName externalId members => (createGroup org displayName externalId members s).2
  | ReplaceGroup id displayName externalId members => (replaceGroup org id displayName externalId members s).2
  | RemoveGroup id => (removeGroup org id s).2
  end.

(** The user an operation names. *)
Definition scim_target (o : scim_op) : option IdentityId :=
  match o with ReplaceUser id _ _ _ _ _ | RemoveUser id => Some id | _ => None end.

Definition about_users (o : scim_op) : bool :=
  match o with CreateUser _ _ _ _ _ | ReplaceUser _ _ _ _ _ _ | RemoveUser _ => true | _ => false end.

(** Nothing that the service keeps of a user is different. *)
Definition same_user s s' (o : OrganizationId) (i : IdentityId) : Prop :=
  identity_of s' o i = identity_of s o i /\ membership_of s' o i = membership_of s o i /\ user_of s' o i = user_of s o i.

(** Provisioning stays where it was sent. On sound stores, every operation of
    the service of an organization, whether it succeeds, fails or fails half-way
    and undoes its steps, leaves the stores sound and changes the identity, the
    membership and the metadata of one user of that organization at most: the
    one it names, or the one it creates. Other organizations and other users
    are as before in all three stores, and the operations on groups change no
    user. *)
Theorem provisioning_is_confined o s :
  sound s ->
  sound (scim_step o s) /\
  exists id, (forall target, scim_target o = Some target -> id = target) /\
    forall org' i, org' <> org \/ i <> id \/ about_users o = false -> same_user s (scim_step o s) org' i.
Proof.
  intros Hs.
  assert (forall id, about_users o = true -> touches id s (scim_step o s) -> sound (scim_step o s) /\
    forall org' i, org' <> org \/ i <> id \/ about_users o = false -> same_user s (scim_step o s) org' i) as Huser.
  { intros id Ho Htouch. destruct (Htouch Hs) as [Hs' E]. split; [done|]. intros o' i Hne. apply E.
    intros [-> ->]. rewrite Ho in Hne. by destruct Hne as [?|[?|?]]. }
  assert ((forall id, touches id s (scim_step o s)) -> sound (scim_step o s) /\
    forall org' i, org' <> org \/ i <> mkId "" \/ about_users o = false -> same_user s (scim_step o s) org' i) as Hgroup.
  { intros Htouch. destruct (Htouch (mkId "a") Hs) as [Hs' E]. split; [done|]. intros o' i _.
    destruct (Htouch (mkId "b") Hs) as [_ E']. destruct (decide (i = mkId "a")) as [->|Hne].
    - apply E'. by intros [_ ?].
    - apply E. tauto. }
  destruct o; cbn [scim_target scim_step about_users] in *.
  - destruct (touch_createUser userName externalId active displayName email s) as [id Hid].
    destruct (Huser id eq_refl Hid) as [? ?]. split; [done|]. by exists id.
  - destruct (Huser id eq_refl (touch_replaceUser id userName externalId active displayName email s)) as [? ?].
    split; [done|]. exists id. split; [by intros target [= ->]|done].
  - destruct (Huser id eq_refl (touch_removeUserOp id s)) as [? ?].
    split; [done|]. exists id. split; [by intros target [= ->]|done].
  - destruct Hgroup as [? ?]; [intros i; apply touch_createGroup|]. split; [done|]. by exists (mkId "").
  - destruct Hgroup as [? ?]; [intros i; apply touch_replaceGroup|]. split; [done|]. by exists (mkId "").
  - destruct Hgroup as [? ?]; [intros i; apply touch_removeGroup|]. split; [done|]. by exists (mkId "").
Qed.
End provisioning.

(** ** Users *)

Section users.
Context `{Plat : Platform}.
Context {D I M : Type}
  `{DirectoryRepositoryLaws D, IdentityRepositoryLaws I, MembershipRepositoryLaws M}.
Import Service.
Context (org : OrganizationId).
Abbreviation state := (provisioning D I InMemoryIdentityProfileRepository.t M world).
Implicit Types s : state.

Abbreviation identity_of s := (ir_view (p_identities s)).
Abbreviation membership_of s := (mr_view (p_memberships s)).
Abbreviation user_of s := (dr_user (p_directory s)).

(** The state a membership has once its user is active, or is not. *)
Definition activated (active : bool) (m : MembershipState.t) : MembershipState.t :=
  match active, m with
  | true, MembershipState.Suspended => MembershipState.Active
  | false, MembershipState.Active => MembershipState.Suspended
  | _, m => m
  end.

Definition status_for (active : bool) : IdentityStatus := if active then Active else Suspended.

Lemma changeStatus_run id status s s' :
  on_identities (ir_changeStatus org id status) s = (Ok tt, s') ->
  exists i old, identity_of s org id = Some old /\
    identity_of s' org id = Some (Identity.mk (Identity.id old) (Identity.kind old) status (Identity.createdAt old)) /\
    s' = mkProvisioning (p_directory s) i (p_profiles s) (p_memberships s) (p_world s).
Proof.
  intros (i & Hi & ->)%zoom_eq. apply ir_changeStatus_view in Hi as (old & new & Hold & [_ ->]%Identity.changeStatus_ok & Hv).
  exists i, old. split; [done|]. cbn. rewrite Hv, decide_True by done. done.
Qed.

Lemma setActive_ok id active s s' :
  sound s -> setActive org id active s = (Ok tt, s') ->
  exists m old i ms,
    membership_of s org id = Some m /\ Membership.state m <> MembershipState.Removed /\
    identity_of s org id = Some old /\
    s' = mkProvisioning (p_directory s) i (p_profiles s) ms (p_world s) /\
    identity_of s' org id =
      Some (Identity.mk (Identity.id old) (Identity.kind old) (status_for active) (Identity.createdAt old)) /\
    membership_of s' org id = Some (Membership.set_state m (activated active (Membership.state m))).
Proof.
  intros [Hwf _] Hrun. unfold setActive, ask in Hrun. apply prog_bind_ok in Hrun as (found & s1 & [= Hf <-] & Hrun).
  destruct found as [m|]; [|done]. destruct (mr_find_keyed _ _ _ _ Hwf Hf) as [Ho Hi]. apply mr_find_view in Hf.
  branch Hrun Hrem; [done|]. bool_prop. exists m.
  assert (forall st, Membership.state m = st -> Membership.set_state m st = m) as Hsame by (intros st <-; by destruct m).
  destruct active; apply prog_bind_ok in Hrun as ([] & s2 & Hsave & Hrun);
    apply changeStatus_run in Hrun as (i & old & Hold & Hnew & ->).
  - branch Hsave Hst; bool_prop.
    + apply prog_bind_ok in Hsave as (m' & s3 & [Hm' ->]%lift_ok & (ms & Hms & ->)%zoom_eq).
      apply mutate_ok in Hm'. unfold Membership.reinstate in Hm'. rewrite Hst in Hm'. injection Hm' as <-.
      cbn in Hold. exists old, i, ms. rewrite Hst. split_and!; try done. cbn.
      rewrite (mr_save_ok _ _ _ Hms), decide_True; done.
    + injection Hsave as <-. exists old, i, (p_memberships s). split_and!; try done. cbn.
      rewrite Hsame; [done|]. by destruct (Membership.state m).
  - branch Hsave Hst; bool_prop.
    + apply prog_bind_ok in Hsave as (m' & s3 & [Hm' ->]%lift_ok & (ms & Hms & ->)%zoom_eq).
      apply mutate_ok in Hm'. unfold Membership.suspend in Hm'. rewrite Hst in Hm'. injection Hm' as <-.
      cbn in Hold. exists old, i, ms. rewrite Hst. split_and!; try done. cbn.
      rewrite (mr_save_ok _ _ _ Hms), decide_True; done.
    + injection Hsave as <-. exists old, i, (p_memberships s). split_and!; try done. cbn.
      rewrite Hsame; [done|]. by destruct (Membership.state m).
Qed.

(** C38: A removed user is locked out. When a removal succeeds, the identity is
    deactivated and cannot authenticate, its membership, if it had one, is
    removed, and the directory no longer knows the user. *)
Theorem removed_user_is_locked_out id s s' :
  sound s -> removeUser org id s = (Ok tt, s') ->
  (exists i, identity_of s' org id = Some i /\ Identity.status i = Deactivated /\ Identity.canAuthenticate i = false) /\
  (forall m, membership_of s' org id = Some m ->
     Membership.state m = MembershipState.Removed /\ permitsAccess (Membership.state m) = false) /\
  (membership_of s org id = None <-> membership_of s' org id = None) /\
  user_of s' org id = None.
Proof.
  intros [Hwf _] Hrun. unfold removeUser, ask in Hrun. apply prog_bind_ok in Hrun as (found & s1 & [= Hf <-] & Hrun).
  apply prog_bind_ok in Hrun as ([] & s2 & Hm & Hrun).
  apply prog_bind_ok in Hrun as ([] & s3 & Hid & (d & Hd & ->)%zoom_eq).
  apply changeStatus_run in Hid as (i & old & Hold & Hnew & ->). cbn in *.
  apply dr_removeUser_ok in Hd as [_ Hd]. split; [eexists; split; [exact Hnew|done]|].
  rewrite Hd, decide_True by done.
  assert (forall m, membership_of s2 org id = Some m -> Membership.state m = MembershipState.Removed) as Hrem.
  { intros m' Hm'. destruct found as [m|]; [|injection Hm as <-; apply mr_find_view in Hf; congruence].
    destruct (mr_find_keyed _ _ _ _ Hwf Hf) as [Ho Hi]. apply mr_find_view in Hf.
    branch Hm Hst; bool_prop; [|injection Hm as <-; congruence].
    apply prog_bind_ok in Hm as (r & s3 & [Hr ->]%lift_ok & (ms & Hms & ->)%zoom_eq). apply mutate_ok in Hr.
    unfold Membership.remove in Hr. rewrite bool_decide_eq_false_2 in Hr by done. injection Hr as <-.
    cbn in Hm'. rewrite (mr_save_ok _ _ _ Hms), decide_True in Hm' by done. by injection Hm' as <-. }
  split; [intros m Hm'; specialize (Hrem m Hm'); by rewrite Hrem|]. split; [|done].
  destruct found as [m|].
  - destruct (mr_find_keyed _ _ _ _ Hwf Hf) as [Ho Hi]. apply mr_find_view in Hf. rewrite <- Hf.
    split; [done|]. intros Hnone. exfalso. branch Hm Hst; [|injection Hm as <-; congruence].
    apply prog_bind_ok in Hm as (r & s3 & [Hr ->]%lift_ok & (ms & Hms & ->)%zoom_eq). apply mutate_ok in Hr.
    bool_prop. unfold Membership.remove in Hr. rewrite bool_decide_eq_false_2 in Hr by done. injection Hr as <-.
    cbn in Hnone. by rewrite (mr_save_ok _ _ _ Hms), decide_True in Hnone by done.
  - injection Hm as <-. done.
Qed.

(** What the four stores hold once a user is stored. *)
Lemma storeUser_ok identity membership profile record s s' :
  Identity.id identity = UserRecord.identity record ->
  Membership.organization membership = org -> Membership.identity membership = UserRecord.identity record ->
  UserRecord.organization record = org ->
  storeUser org identity membership profile record s = (Ok tt, s') ->
  let id := UserRecord.identity record in
  (forall o, identity_of s o id = None) /\ membership_of s org id = None /\ user_of s org id = None /\
  exists d i ms,
    s' = mkProvisioning d i (<[IdentityProfile.identity profile := profile]> (p_profiles s)) ms (p_world s) /\
    identity_of s' org id = Some identity /\ membership_of s' org id = Some membership /\ user_of s' org id = Some record.
Proof.
  intros Hi Ho Hm Hr Hrun. unfold storeUser in Hrun. cbv zeta.
  apply prog_bind_ok in Hrun as ([] & s1 & (i & Hadd & ->)%zoom_eq & Hrun).
  apply prog_bind_ok in Hrun as ([] & s2 & (ms & Hms & ->)%orUndo_ok%zoom_eq & Hrun).
  apply prog_bind_ok in Hrun as ([] & s3 & (ps & [= <-] & ->)%orUndo_ok%zoom_eq & Hrun).
  apply orUndo_ok, zoom_eq in Hrun as (d & Hd & ->). cbn in *.
  pose proof (ir_add_fresh _ _ _ _ Hadd) as Hfresh. pose proof (ir_add_view _ _ _ _ Hadd) as Hview.
  apply mr_add_ok in Hms as [Hnone Hms]. apply dr_addUser_ok in Hd as [Hno Hd]. rewrite Ho, Hm in *. rewrite Hr in *.
  rewrite Hi in *. split; [done|]. split; [done|]. split; [done|]. exists d, i, ms. split; [done|].
  by rewrite Hview, Hms, Hd, !decide_True by done.
Qed.

Lemma describe_ok userName displayName email now profile profile' :
  IdentityProfile.email profile = None -> IdentityProfile.emailVerified profile = false ->
  describe userName displayName email now profile = Ok profile' ->
  IdentityProfile.identity profile' = IdentityProfile.identity profile /\
  IdentityProfile.preferredUsername profile' = Some userName /\ IdentityProfile.displayName profile' = displayName /\
  IdentityProfile.email profile' = email /\ IdentityProfile.emailVerified profile' = false.
Proof.
  intros He Hv. unfold describe. intros (p & Hp%mutate_ok & Hdesc)%result_bind_ok.
  unfold IdentityProfile.updateSelfService in Hp. destruct (_ <? _); [done|]. destruct (_ || _); [done|].
  injection Hp as <-. destruct email as [email|]; [|by injection Hdesc as <-].
  apply mutate_ok in Hdesc. unfold IdentityProfile.setEmail in Hdesc. destruct (_ || _); [done|]. by injection Hdesc as <-.
Qed.

Lemma hydrate_ok record s view s' :
  hydrate org record s = (Ok view, s') ->
  s' = s /\ UserView.record view = record /\
  (exists i, identity_of s org (UserRecord.identity record) = Some i /\ UserView.status view = Identity.status i) /\
  UserView.profile view = p_profiles s !! UserRecord.identity record.
Proof.
  intros (found & s1 & [= Hf <-] & Hrun)%prog_bind_ok. apply ir_findById_view in Hf. destruct found as [i|]; [|done].
  apply prog_bind_ok in Hrun as (p & s1 & [= Hp <-] & [= <- <-]). cbn.
  split; [done|]. split; [done|]. split; [by exists i|]. done.
Qed.

(** A provisioned user is as requested. When a creation succeeds, the user is
    new to every store, no user of the organization had its name, and in the
    stores it leaves the human identity has the requested status, the
    membership is active or suspended with it and holds no role, the profile
    shows the requested names and address, the address unverified, and the
    directory and the answer show the user that was asked for. *)
Theorem provisioned_user_is_as_requested userName externalId active displayName email s view s' :
  sound s -> createUser org userName externalId active displayName email s = (Ok view, s') ->
  let id := UserRecord.identity (UserView.record view) in
  (forall o, identity_of s o id = None) /\ membership_of s org id = None /\ user_of s org id = None /\
  (forall i r, user_of s org i = Some r -> UserRecord.userName r <> userName) /\
  (exists i, identity_of s' org id = Some i /\ Identity.kind i = Human /\ Identity.status i = status_for active) /\
  (exists m, membership_of s' org id = Some m /\ Membership.roles m = [] /\
     Membership.state m = if active then MembershipState.Active else MembershipState.Suspended) /\
  user_of s' org id = Some (UserView.record view) /\
  UserRecord.userName (UserView.record view) = userName /\ UserRecord.externalId (UserView.record view) = externalId /\
  UserView.status view = status_for active /\
  exists p, p_profiles s' !! id = Some p /\ UserView.profile view = Some p /\
    IdentityProfile.preferredUsername p = Some userName /\ IdentityProfile.displayName p = displayName /\
    IdentityProfile.email p = email /\ IdentityProfile.emailVerified p = false.
Proof.
  intros Hs Hrun. unfold createUser in Hrun. branch Hrun Hvalid; [done|].
  apply prog_bind_ok in Hrun as (existing & s0 & [= Hex <-] & Hrun). destruct existing; [done|].
  apply prog_bind_ok in Hrun as (id & s1 & (w1 & _ & ->)%zoom_eq & Hrun).
  apply prog_bind_ok in Hrun as (now & s1 & (w2 & _ & ->)%zoom_eq & Hrun). cbn [p_directory p_identities p_profiles p_memberships] in Hrun.
  destruct (Identity.create id Human now) as [identity| |] eqn:Hi; [|done..].
  destruct (Membership.invite org id now) as [membership| |] eqn:Hm; [|done..].
  destruct (IdentityProfile.create id now) as [profile| |] eqn:Hp; [|done..].
  destruct (UserRecord.create id org userName externalId now now) as [record| |] eqn:Hu; [|done..].
  destruct (mutate Membership.accept membership) as [membership'| |] eqn:Hm'; [|done..].
  destruct (describe userName displayName email now profile) as [profile'| |] eqn:Hp'; [|done..].
  unfold Identity.create in Hi. destruct (id_empty id); [done|]. injection Hi as <-.
  unfold Membership.invite in Hm. destruct (id_empty org); [done|]. destruct (id_empty id); [done|]. injection Hm as <-.
  apply mutate_ok in Hm'. unfold Membership.accept in Hm'. cbn in Hm'. injection Hm' as <-.
  unfold UserRecord.create in Hu. branch Hu Hc; [done|]. injection Hu as <-.
  unfold IdentityProfile.create in Hp. destruct (id_empty id); [done|]. injection Hp as <-.
  apply describe_ok in Hp' as (Hpi & Hpu & Hpd & Hpe & Hpv); [|done..]. cbn [IdentityProfile.identity] in Hpi.
  apply prog_bind_ok in Hrun as ([] & s2 & Hstore & Hrun).
  pose proof Hstore as Htouch. apply (f_equal snd) in Htouch. cbn [snd] in Htouch.
  apply storeUser_ok in Hstore as (Hf1 & Hf2 & Hf3 & d & i & ms & -> & Hi' & Hm' & Hu'); [|done..].
  apply prog_bind_ok in Hrun as ([] & s3 & Hact & (-> & Hrec & (i' & Hi'' & Hst) & Hprof)%hydrate_ok).
  rewrite Hrec. cbn in *. rewrite Hpi in *.
  split; [exact Hf1|]. split; [exact Hf2|]. split; [exact Hf3|].
  split; [intros j r Hj; by eapply dr_findUserByName_none|].
  destruct active.
  - injection Hact as <-. cbn in *. rewrite Hi' in Hi''. injection Hi'' as <-.
    split; [by eexists|]. split; [by eexists|]. split; [done|]. split; [done|]. split; [done|]. split; [done|].
    exists profile'. rewrite Hprof, lookup_insert_eq. done.
  - apply setActive_ok in Hact as (m & old & i2 & ms2 & Hm2 & _ & Hold & -> & Hi2 & Hms2).
    + cbn in *. rewrite Hm' in Hm2. injection Hm2 as <-. rewrite Hi' in Hold. injection Hold as <-.
      rewrite Hi2 in Hi''. injection Hi'' as <-. cbn in *.
      split; [by eexists|]. split; [by eexists|]. split; [done|]. split; [done|]. split; [done|]. split; [done|].
      exists profile'. rewrite Hprof, lookup_insert_eq. done.
    + rewrite <- Htouch. eapply touch_storeUser; [reflexivity..|]. exact Hs.
Qed.
End users.

(** ** A run *)

Module ProvisioningWitnesses.
Import TestPlatform Service.

#[local] Instance test_directory : DirectoryRepository PostgresScimDirectoryRepository.t :=
  PostgresScimDirectoryRepository.directory (fun _ => true) (fun _ => true) (fun l => l) (fun l => l) (fun l => l).
#[local] Instance test_directory_laws : DirectoryRepositoryLaws PostgresScimDirectoryRepository.t :=
  laws (fun _ => true) (fun _ => true) (fun l => l) (fun l => l) (fun l => l).

Abbreviation run_state :=
  (provisioning PostgresScimDirectoryRepository.t InMemoryIdentityRepository.t InMemoryIdentityProfileRepository.t
     InMemoryMembershipRepository.t (world (Platform:=test))).

Definition acme : OrganizationId := mkId "acme".
Definition start : run_state := mkProvisioning PostgresScimDirectoryRepository.empty ∅ ∅ ∅ 7.

Lemma start_sound : sound (Plat:=test) start.
Proof.
  split; [apply map_Forall_empty|].
  apply (directory_keeps_references (fun _ => true) (fun _ => true) []).
Qed.

Definition creating := createUser (Plat:=test) acme "carol" None false (Some "Carol") (Some "carol@example.com") start.
Definition nobody : UserView.t := UserView.mk (UserRecord.mk (mkId "") (mkId "") "" None 0 0) Deleted None.
Definition carol : UserView.t := match creating.1 with Ok view => view | _ => nobody end.

Lemma provisioned_user_is_as_requested_witness : UserView.status carol = Suspended.
Proof.
  destruct (provisioned_user_is_as_requested (Plat:=test) acme "carol" None false (Some "Carol") (Some "carol@example.com")
              start carol creating.2) as (_ & _ & _ & _ & _ & _ & _ & _ & _ & Hstatus & _).
  - exact start_sound.
  - apply (run_as creating). vm_compute. reflexivity.
  - exact Hstatus.
Defined.

Definition carol_id : IdentityId := UserRecord.identity (UserView.record carol).

Lemma provisioning_is_confined_witness :
  sound (Plat:=test) (scim_step (Plat:=test) acme (RemoveUser carol_id) start).
Proof. exact (proj1 (provisioning_is_confined (Plat:=test) acme (RemoveUser carol_id) start start_sound)). Defined.

Lemma created_sound : sound (Plat:=test) creating.2.
Proof.
  destruct (touch_createUser (Plat:=test) acme "carol" None false (Some "Carol") (Some "carol@example.com") start) as [id Hid].
  exact (proj1 (Hid start_sound)).
Qed.

Definition removing := removeUser (Plat:=test) acme carol_id creating.2.

Lemma removed_user_is_locked_out_witness :
  dr_user (p_directory removing.2) acme carol_id = None.
Proof.
  apply (removed_user_is_locked_out (Plat:=test) acme carol_id creating.2 removing.2).
  - exact created_sound.
  - apply (run_as removing). vm_compute. reflexivity.
Defined.

(** An identity that was never provisioned is deactivated by a removal that
    answers that there is no such user. *)
Definition dave : IdentityId := mkId "dave".
Definition with_dave : run_state :=
  mkProvisioning PostgresScimDirectoryRepository.empty
    {[ dave := InMemoryIdentityRepository.mkOwned acme (Identity.mk dave Human Active 1) ]} ∅ ∅ 7.
Example removal_of_an_unknown_user_deactivates :
  (removeUser (Plat:=test) acme dave with_dave).1 = failCode NotFound /\
  Identity.status <$> ir_view (p_identities (removeUser (Plat:=test) acme dave with_dave).2) acme dave = Some Deactivated.
Proof. vm_compute. done. Qed.

(** A user name of 129 octets passes the checks of the component and is refused
    by the profile. *)
Definition long_name : string := String.string_of_list_byte (replicate 129 (toByte 97)).
Example long_user_names_are_refused :
  validText long_name 320 = true /\
  (createUser (Plat:=test) acme long_name None true None None start).1 = failCode InvalidArgument.
Proof. vm_compute. done. Qed.

(** A replacement whose external identifier is malformed fails after it has
    suspended the user. *)
Definition active_start := (createUser (Plat:=test) acme "carol" None true None None start).2.
Definition replacing := replaceUser (Plat:=test) acme carol_id "carol" (Some "") false None None active_start.
Example failed_replacement_suspends :
  Identity.status <$> ir_view (p_identities active_start) acme carol_id = Some Active /\
  replacing.1 = failCode InvalidArgument /\
  Identity.status <$> ir_view (p_identities replacing.2) acme carol_id = Some Suspended.
Proof. vm_compute. done. Qed.
End ProvisioningWitnesses.
