(* ===== verification/Administration.v ===== *)
(** * openproof.administration: administrative commands

    Models [src/src/administration/administration.cpp]: the validated requests
    of the administrators, each of which is made of aggregates that pass through
    their own state machines, and the contract of the component that carries
    them out. *)
From S2P Require Import Prelude Foundation IdentityCore Provider Link Organizations Credentials.

Definition validText (value : string) (maximum : nat) : bool :=
  negb (bool_decide (value = "")) && (String.length value <=? maximum)%nat && negb (any_octet control_octet value).

(** [std::chrono::minutes{5}]. *)
Definition ceremonyLifetime : Duration := 5 * 60 * 1000.

Definition owner_role : Role := mkId "owner".

(** The link of a ceremony, verified under the authority of the operator. *)
Definition verifiedLink (identityId : IdentityId) (providerId : ProviderId) (externalSubject : ExternalSubject)
    (now : Instant) : Result IdentityLink.t :=
  link ← IdentityLink.request identityId (ExternalIdentityRef.mk providerId externalSubject None None None) now ceremonyLifetime;
  link ← mutate (IdentityLink.requireVerification now) link;
  link ← mutate (IdentityLink.markVerified now) link;
  mutate (IdentityLink.complete now) link.

Module InitialAdministrator.
Record t := mk {
  m_organization : Organization.t;
  m_identity : Identity.t;
  m_link : IdentityLink.t;
  m_membership : Membership.t;
  m_password : string;
  m_totp : TotpSecret.t;
}.

Definition create (organizationId : OrganizationId) (organizationName : string) (identityId : IdentityId)
    (providerId : ProviderId) (externalSubject : ExternalSubject) (password : string) (totp : TotpSecret.t)
    (now : Instant) : Result t :=
  if negb (validText (id_value organizationId) 200) || negb (validText organizationName 500)
     || negb (validText (id_value identityId) 200) || negb (validText (id_value providerId) 200)
     || negb (validText (id_value externalSubject) 1000)
     || (String.length password <? 16)%nat || (1024 <? String.length password)%nat
     || bool_decide (id_value identityId = id_value externalSubject) then
    fail InvalidArgument "The initial-administrator request is invalid."
  else
    tenant ← Organization.create organizationId organizationName now;
    subject ← Identity.create identityId Human now;
    link ← verifiedLink identityId providerId externalSubject now;
    membership ← Membership.invite organizationId identityId now;
    membership ← mutate (Membership.grantRole owner_role) membership;
    membership ← mutate Membership.accept membership;
    Ok (mk tenant subject link membership password totp).
End InitialAdministrator.

(** The roles of a request are sorted, and none may appear twice. *)
Definition uniqueRoles (roles : list Role) (message : string) : Result (list Role) :=
  let roles := sort_keys roles in
  if has_adjacent roles then fail InvalidArgument message else Ok roles.

(** [for (role : roles) membership->grantRole(role)]. *)
Fixpoint grantRoles (roles : list Role) (membership : Membership.t) : Result Membership.t :=
  match roles with
  | [] => Ok membership
  | role :: roles => membership ← mutate (Membership.grantRole role) membership; grantRoles roles membership
  end.

Module LocalMemberEnrollment.
Record t := mk {
  m_organizationId : OrganizationId;
  m_identity : Identity.t;
  m_link : IdentityLink.t;
  m_membership : Membership.t;
  m_generatedPassword : string;
  m_generatedTotp : TotpSecret.t;
}.

Definition create (organizationId : OrganizationId) (identityId : IdentityId) (providerId : ProviderId)
    (externalSubject : ExternalSubject) (roles : list Role) (generatedPassword : string)
    (generatedTotp : TotpSecret.t) (now : Instant) : Result t :=
  if negb (validText (id_value organizationId) 200) || negb (validText (id_value identityId) 200)
     || negb (validText (id_value providerId) 200) || negb (validText (id_value externalSubject) 1000)
     || bool_decide (id_value identityId = id_value externalSubject)
     || (length roles =? 0)%nat || (16 <? length roles)%nat
     || (String.length generatedPassword <? 32)%nat || (1024 <? String.length generatedPassword)%nat
     || existsb (fun role => negb (validText (id_value role) 200)) roles then
    fail InvalidArgument "The local-member enrollment request is invalid."
  else
    roles ← uniqueRoles roles "Local-member roles must be unique.";
    identityValue ← Identity.create identityId Human now;
    link ← IdentityLink.request identityId (ExternalIdentityRef.mk providerId externalSubject None None None) now ceremonyLifetime;
    membership ← Membership.invite organizationId identityId now;
    link ← mutate (IdentityLink.requireVerification now) link;
    link ← mutate (IdentityLink.markVerified now) link;
    link ← mutate (IdentityLink.complete now) link;
    membership ← grantRoles roles membership;
    membership ← mutate Membership.accept membership;
    Ok (mk organizationId identityValue link membership generatedPassword generatedTotp).
End LocalMemberEnrollment.

Inductive MemberLifecycleAction := Suspend | Reinstate | Remove.

#[global] Instance MemberLifecycleAction_eq_dec : EqDecision MemberLifecycleAction.
Proof. solve_decision. Defined.

Definition memberLifecycleActionName (action : MemberLifecycleAction) : string :=
  match action with
  | Suspend => "suspend"
  | Reinstate => "reinstate"
  | Remove => "remove"
  end.

Module MemberRoleReplacement.
Record t := mk {
  m_organizationId : OrganizationId;
  m_identityId : IdentityId;
  m_roles : list Role;
  m_occurredAt : Instant;
}.

Definition create (organizationId : OrganizationId) (identityId : IdentityId) (roles : list Role) (now : Instant)
    : Result t :=
  if negb (validText (id_value organizationId) 200) || negb (validText (id_value identityId) 200)
     || (length roles =? 0)%nat || (16 <? length roles)%nat
     || existsb (fun role => negb (validText (id_value role) 200)) roles then
    fail InvalidArgument "The role replacement request is invalid."
  else
    roles ← uniqueRoles roles "Replacement roles must be unique.";
    Ok (mk organizationId identityId roles now).
End MemberRoleReplacement.

(** An action is one of the three, so the test that it is recognized passes. *)
Module MemberLifecycleChange.
Record t := mk {
  m_organizationId : OrganizationId;
  m_identityId : IdentityId;
  m_action : MemberLifecycleAction;
  m_occurredAt : Instant;
}.

Definition create (organizationId : OrganizationId) (identityId : IdentityId) (action : MemberLifecycleAction)
    (now : Instant) : Result t :=
  let recognized := bool_decide (action = Suspend) || bool_decide (action = Reinstate) || bool_decide (action = Remove) in
  if negb (validText (id_value organizationId) 200) || negb (validText (id_value identityId) 200)
     || negb recognized then
    fail InvalidArgument "The membership lifecycle request is invalid."
  else Ok (mk organizationId identityId action now).
End MemberLifecycleChange.

Module LocalCredentialReset.
Record t := mk {
  m_organizationId : OrganizationId;
  m_identityId : IdentityId;
  m_generatedPassword : string;
  m_generatedTotp : TotpSecret.t;
  m_occurredAt : Instant;
}.

Definition create (organizationId : OrganizationId) (identityId : IdentityId) (generatedPassword : string)
    (generatedTotp : TotpSecret.t) (now : Instant) : Result t :=
  if negb (validText (id_value organizationId) 200) || negb (validText (id_value identityId) 200)
     || (String.length generatedPassword <? 32)%nat || (1024 <? String.length generatedPassword)%nat then
    fail InvalidArgument "The credential reset request is invalid."
  else Ok (mk organizationId identityId generatedPassword generatedTotp now).
End LocalCredentialReset.

(** The two persistence contracts, as one class over the state of the store. *)
Class AdministrationRepository (T : Type) := {
  adr_initialize : InitialAdministrator.t -> prog T Error unit;
  adr_provision : IdentityId -> LocalMemberEnrollment.t -> prog T Error unit;
  adr_replaceRoles : IdentityId -> MemberRoleReplacement.t -> prog T Error unit;
  adr_changeLifecycle : IdentityId -> MemberLifecycleChange.t -> prog T Error unit;
  adr_resetCredentials : IdentityId -> LocalCredentialReset.t -> prog T Error unit;
}.
