(* ===== verification/Deployment.v ===== *)
(** * openproof.storage.postgres: the tables of a deployment

    Models the tables that administration works on, with the keys and
    references of [src/migrations/0001_identity_auth_gateway.sql] and
    [0002_memberships.sql], and the statements of
    [PostgresAdministrationRepository] in [src/src/storage/postgres/postgres.cpp],
    one step per statement. A text that reaches a column has passed the checks
    of the domain, which are at least as strict as those of the columns (they
    count octets where the columns count characters). *)
From S2P Require Import Prelude Foundation Database Encoding Security IdentityCore Provider Link Organizations Session Credentials AuditLog Administration.
Import InMemoryIdentityRepository(Owned, mkOwned).

Module ExternalIdentityRow.
Record t := mk { identity_id : IdentityId; linked_at : Instant }.
End ExternalIdentityRow.

Module MembershipRow.
Record t := mk { state : MembershipState.t; invited_at : Instant }.
End MembershipRow.

Module PasswordRow.
Record t := mk { password_hash : string; changed_at : Instant }.
End PasswordRow.

Module TotpRow.
Record t := mk {
  encrypted_seed : list byte;
  key_version : Z;
  last_accepted_step : option Z;
  enrolled_at : Instant;
}.
End TotpRow.

Module OutboxRow.
Record t := mk { event_id : AuditEventId; occurred_at : Instant; payload : string }.
End OutboxRow.

(** The rows by their primary keys. The rows of the audit table are in the
    order of their insertion. *)
Module Deployment.
Record t := mk {
  organizations : gmap OrganizationId Organization.t;
  identities : gmap IdentityId Owned;
  external_identities : gmap ExternalKey ExternalIdentityRow.t;
  memberships : gmap (OrganizationId * IdentityId) MembershipRow.t;
  membership_roles : gset (OrganizationId * IdentityId * Role);
  password_credentials : gmap IdentityId PasswordRow.t;
  totp_credentials : gmap IdentityId TotpRow.t;
  recovery_codes : gset (IdentityId * Sha256Digest);
  sessions : gmap SessionId Session.t;
  audit_events : list AuditRecord.t;
  security_event_outbox : list OutboxRow.t;
}.

Definition empty : t := mk ∅ ∅ ∅ ∅ ∅ ∅ ∅ ∅ ∅ [] [].

Definition with_organizations (f : _ -> _) (s : t) : t :=
  mk (f (organizations s)) (identities s) (external_identities s) (memberships s) (membership_roles s) (password_credentials s)
     (totp_credentials s) (recovery_codes s) (sessions s) (audit_events s) (security_event_outbox s).
Definition with_identities (f : _ -> _) (s : t) : t :=
  mk (organizations s) (f (identities s)) (external_identities s) (memberships s) (membership_roles s) (password_credentials s)
     (totp_credentials s) (recovery_codes s) (sessions s) (audit_events s) (security_event_outbox s).
Definition with_external_identities (f : _ -> _) (s : t) : t :=
  mk (organizations s) (identities s) (f (external_identities s)) (memberships s) (membership_roles s) (password_credentials s)
     (totp_credentials s) (recovery_codes s) (sessions s) (audit_events s) (security_event_outbox s).
Definition with_memberships (f : _ -> _) (s : t) : t :=
  mk (organizations s) (identities s) (external_identities s) (f (memberships s)) (membership_roles s) (password_credentials s)
     (totp_credentials s) (recovery_codes s) (sessions s) (audit_events s) (security_event_outbox s).
Definition with_membership_roles (f : _ -> _) (s : t) : t :=
  mk (organizations s) (identities s) (external_identities s) (memberships s) (f (membership_roles s)) (password_credentials s)
     (totp_credentials s) (recovery_codes s) (sessions s) (audit_events s) (security_event_outbox s).
Definition with_password_credentials (f : _ -> _) (s : t) : t :=
  mk (organizations s) (identities s) (external_identities s) (memberships s) (membership_roles s) (f (password_credentials s))
     (totp_credentials s) (recovery_codes s) (sessions s) (audit_events s) (security_event_outbox s).
Definition with_totp_credentials (f : _ -> _) (s : t) : t :=
  mk (organizations s) (identities s) (external_identities s) (memberships s) (membership_roles s) (password_credentials s)
     (f (totp_credentials s)) (recovery_codes s) (sessions s) (audit_events s) (security_event_outbox s).
Definition with_recovery_codes (f : _ -> _) (s : t) : t :=
  mk (organizations s) (identities s) (external_identities s) (memberships s) (membership_roles s) (password_credentials s)
     (totp_credentials s) (f (recovery_codes s)) (sessions s) (audit_events s) (security_event_outbox s).
Definition with_sessions (f : _ -> _) (s : t) : t :=
  mk (organizations s) (identities s) (external_identities s) (memberships s) (membership_roles s) (password_credentials s)
     (totp_credentials s) (recovery_codes s) (f (sessions s)) (audit_events s) (security_event_outbox s).
Definition with_audit_events (f : _ -> _) (s : t) : t :=
  mk (organizations s) (identities s) (external_identities s) (memberships s) (membership_roles s) (password_credentials s)
     (totp_credentials s) (recovery_codes s) (sessions s) (f (audit_events s)) (security_event_outbox s).
Definition with_security_event_outbox (f : _ -> _) (s : t) : t :=
  mk (organizations s) (identities s) (external_identities s) (memberships s) (membership_roles s) (password_credentials s)
     (totp_credentials s) (recovery_codes s) (sessions s) (audit_events s) (f (security_event_outbox s)).
End Deployment.
Import Deployment(organizations, identities, external_identities, memberships, membership_roles,
  password_credentials, totp_credentials, recovery_codes, sessions, audit_events, security_event_outbox,
  with_organizations, with_identities, with_external_identities, with_memberships, with_membership_roles,
  with_password_credentials, with_totp_credentials, with_recovery_codes, with_sessions, with_audit_events,
  with_security_event_outbox).

(** ** Statements that insert *)

Abbreviation deploymentStatement B := (prog Deployment.t Error B).

(** An insertion: the primary key is new, the references exist. *)
Definition insertion (operation : string) (present referenced : Deployment.t -> bool)
    (insert : Deployment.t -> Deployment.t) : deploymentStatement unit := fun t =>
  if present t then (Err (databaseError unique_violation operation), t)
  else if negb (referenced t) then (Err (databaseError foreign_key_violation operation), t)
  else (ok, insert t).

(** The identity is one of the organization. *)
Definition belongs (t : Deployment.t) (org : OrganizationId) (id : IdentityId) : bool :=
  match identities t !! id with
  | Some row => bool_decide (InMemoryIdentityRepository.organization row = org)
  | None => false
  end.

Definition insertOrganization (operation : string) (o : Organization.t) : deploymentStatement unit :=
  insertion operation (fun t => bool_decide (is_Some (organizations t !! Organization.id o))) (fun _ => true)
    (with_organizations <[Organization.id o := o]>).

Definition insertIdentity (operation : string) (org : OrganizationId) (i : Identity.t) : deploymentStatement unit :=
  insertion operation (fun t => bool_decide (is_Some (identities t !! Identity.id i)))
    (fun t => bool_decide (is_Some (organizations t !! org))) (with_identities <[Identity.id i := mkOwned org i]>).

Definition insertExternalIdentity (operation : string) (external : ExternalIdentityRef.t) (id : IdentityId)
    (linkedAt : Instant) : deploymentStatement unit :=
  let key := ExternalIdentityRef.key external in
  insertion operation (fun t => bool_decide (is_Some (external_identities t !! key)))
    (fun t => bool_decide (is_Some (identities t !! id)))
    (with_external_identities <[key := ExternalIdentityRow.mk id linkedAt]>).

Definition insertMembership (operation : string) (org : OrganizationId) (id : IdentityId)
    (state : MembershipState.t) (invitedAt : Instant) : deploymentStatement unit :=
  insertion operation (fun t => bool_decide (is_Some (memberships t !! (org, id)))) (fun t => belongs t org id)
    (with_memberships <[(org, id) := MembershipRow.mk state invitedAt]>).

Definition insertRole (operation : string) (org : OrganizationId) (id : IdentityId) (role : Role)
    : deploymentStatement unit :=
  insertion operation (fun t => bool_decide ((org, id, role) ∈ membership_roles t))
    (fun t => bool_decide (is_Some (memberships t !! (org, id))))
    (with_membership_roles (union {[ (org, id, role) ]})).

Definition insertPassword (operation : string) (id : IdentityId) (hash : PasswordHash.t) (changedAt : Instant)
    : deploymentStatement unit :=
  insertion operation (fun t => bool_decide (is_Some (password_credentials t !! id)))
    (fun t => bool_decide (is_Some (identities t !! id)))
    (with_password_credentials <[id := PasswordRow.mk (PasswordHash.encoded hash) changedAt]>).

(** [key_version] is a column of 32 bits. *)
Definition numeric_value_out_of_range : option string := Some "22003".
Definition fits_integer (n : Z) : bool := n <=? 2147483647.

Definition insertTotp (operation : string) (id : IdentityId) (seed : list byte) (keyVersion : Z)
    (enrolledAt : Instant) : deploymentStatement unit := fun t =>
  if negb (fits_integer keyVersion) then (Err (databaseError numeric_value_out_of_range operation), t)
  else
    insertion operation (fun t => bool_decide (is_Some (totp_credentials t !! id)))
      (fun t => bool_decide (is_Some (identities t !! id)))
      (with_totp_credentials <[id := TotpRow.mk seed keyVersion None enrolledAt]>) t.

Definition insertSecurityEvent (operation : string) (id : AuditEventId) (occurredAt : Instant) (payload : string)
    : deploymentStatement unit :=
  insertion operation (fun t => existsb (fun row => bool_decide (OutboxRow.event_id row = id)) (security_event_outbox t))
    (fun _ => true) (with_security_event_outbox (fun rows => rows ++ [OutboxRow.mk id occurredAt payload])).

(** The row of an audit event, at the sequence the column gave it. The [detail]
    column holds the fields. *)
Definition insertAuditEvent (operation : string) (event : AuditEvent.t) (sequence : Z)
    (previous : option Sha256Digest) : deploymentStatement unit :=
  insertion operation
    (fun t => existsb (fun row => bool_decide (AuditEvent.id (AuditRecord.event row) = AuditEvent.id event))
                (audit_events t))
    (fun _ => true)
    (with_audit_events (fun rows => rows ++ [AuditRecord.mk sequence event previous zeroDigest])).

(** ** Statements that change rows *)

Definition sealAuditEvent (sequence : Z) (hash : Sha256Digest) : deploymentStatement unit := fun t =>
  (ok, with_audit_events (fmap (fun row =>
         if AuditRecord.sequence row =? sequence
         then AuditRecord.mk (AuditRecord.sequence row) (AuditRecord.event row) (AuditRecord.previousHash row) hash
         else row)) t).

Definition deleteRoles (org : OrganizationId) (id : IdentityId) : deploymentStatement unit := fun t =>
  (ok, with_membership_roles (filter (fun r => ~ (r.1.1 = org /\ r.1.2 = id))) t).

Definition setMembershipState (org : OrganizationId) (id : IdentityId) (state : MembershipState.t)
    : deploymentStatement unit := fun t =>
  (ok, with_memberships (alter (fun row => MembershipRow.mk state (MembershipRow.invited_at row)) (org, id)) t).

(** [UPDATE ... SET state=1,revoked_at_ms=$2 WHERE identity_id=$1 AND state=0]. *)
Definition revokeRow (id : IdentityId) (now : Instant) (s : Session.t) : Session.t :=
  if bool_decide (Session.identity s = id) && bool_decide (Session.state s = SessionState.Active)
  then Session.set s SessionState.Revoked (Session.tokenDigest s) (Session.lastSeenAt s) (Some now)
  else s.

Definition revokeSessions (id : IdentityId) (now : Instant) : deploymentStatement unit := fun t =>
  (ok, with_sessions (fmap (revokeRow id now)) t).

(** The two updates of a reset answer the number of rows they found. *)
Definition resetPassword (id : IdentityId) (hash : PasswordHash.t) (now : Instant) : deploymentStatement nat := fun t =>
  (Ok (if bool_decide (is_Some (password_credentials t !! id)) then 1 else 0)%nat,
   with_password_credentials (alter (fun _ => PasswordRow.mk (PasswordHash.encoded hash) now) id) t).

Definition resetTotp (operation : string) (id : IdentityId) (seed : list byte) (keyVersion : Z) (now : Instant)
    : deploymentStatement nat := fun t =>
  if negb (fits_integer keyVersion) then (Err (databaseError numeric_value_out_of_range operation), t)
  else (Ok (if bool_decide (is_Some (totp_credentials t !! id)) then 1 else 0)%nat,
        with_totp_credentials (alter (fun _ => TotpRow.mk seed keyVersion None now) id) t).

Definition deleteRecoveryCodes (id : IdentityId) : deploymentStatement unit := fun t =>
  (ok, with_recovery_codes (filter (fun c => c.1 <> id)) t).

(** ** Queries *)

Definition identity_is_active (t : Deployment.t) (id : IdentityId) : bool :=
  match identities t !! id with
  | Some row => bool_decide (Identity.status (InMemoryIdentityRepository.identity row) = Active)
  | None => false
  end.

Definition membership_is_active (t : Deployment.t) (org : OrganizationId) (id : IdentityId) : bool :=
  match memberships t !! (org, id) with
  | Some row => bool_decide (MembershipRow.state row = MembershipState.Active)
  | None => false
  end.

Definition organization_is_active (t : Deployment.t) (org : OrganizationId) : bool :=
  match organizations t !! org with
  | Some row => bool_decide (Organization.status row = OrganizationStatus.Active)
  | None => false
  end.

(** The query of [authorizeActiveOwner]: one row, or none. *)
Definition activeOwner (t : Deployment.t) (org : OrganizationId) (id : IdentityId) : bool :=
  organization_is_active t org && belongs t org id && identity_is_active t id && membership_is_active t org id
  && bool_decide ((org, id, owner_role) ∈ membership_roles t).

(** The query of [activeOwnerCount]. *)
Definition countActiveOwners (t : Deployment.t) (org : OrganizationId) : nat :=
  base.size (filter (fun r : OrganizationId * IdentityId * Role =>
    r.1.1 = org /\ r.2 = owner_role /\ membership_is_active t org r.1.2 = true /\ identity_is_active t r.1.2 = true)
    (membership_roles t)).

(** The query of [lockLocalMember]: the state of a membership of an active
    identity of an active organization that the provider knows, and whether it
    is an owner's. *)
Definition knownTo (t : Deployment.t) (provider : ProviderId) (id : IdentityId) : bool :=
  existsb (fun row : ExternalKey * ExternalIdentityRow.t =>
    bool_decide (ExternalIdentityRow.identity_id row.2 = id) && bool_decide (row.1.1 = provider))
    (map_to_list (external_identities t)).

Definition localMember (t : Deployment.t) (org : OrganizationId) (id : IdentityId) (provider : ProviderId)
    : option (MembershipState.t * bool) :=
  if organization_is_active t org && belongs t org id && identity_is_active t id && knownTo t provider id then
    match memberships t !! (org, id) with
    | Some row => Some (MembershipRow.state row, bool_decide ((org, id, owner_role) ∈ membership_roles t))
    | None => None
    end
  else None.

(** [SELECT event_hash ... ORDER BY sequence DESC LIMIT 1]. *)
Definition later_row (best : option AuditRecord.t) (row : AuditRecord.t) : option AuditRecord.t :=
  match best with
  | Some b => if AuditRecord.sequence b <? AuditRecord.sequence row then Some row else best
  | None => Some row
  end.

Definition chainHead (t : Deployment.t) : option Sha256Digest :=
  AuditRecord.hash <$> foldl later_row None (audit_events t).

(** The counts of [repairInitialOwnerMembership]. *)
Definition countOwnerRoles (t : Deployment.t) : nat :=
  base.size (filter (fun r : OrganizationId * IdentityId * Role => r.2 = owner_role) (membership_roles t)).

Definition countBootstraps (t : Deployment.t) : nat :=
  length (filter (fun row => AuditEvent.action (AuditRecord.event row) = "bootstrap.initial-owner"
                             /\ AuditEvent.outcome (AuditRecord.event row) = "success") (audit_events t)).

(** Rows of the join of an identity with its links to the provider and its two
    credentials. *)
Definition countEligible (t : Deployment.t) (org : OrganizationId) (id : IdentityId) (provider : ProviderId) : nat :=
  if belongs t org id && identity_is_active t id
     && match identities t !! id with
        | Some row => bool_decide (Identity.kind (InMemoryIdentityRepository.identity row) = Human)
        | None => false
        end
     && bool_decide (is_Some (password_credentials t !! id)) && bool_decide (is_Some (totp_credentials t !! id)) then
    length (filter (fun row : ExternalKey * ExternalIdentityRow.t =>
      ExternalIdentityRow.identity_id row.2 = id /\ row.1.1 = provider) (map_to_list (external_identities t)))
  else 0.

(** [assurance >= 2]: the levels are stored in their order. *)
Definition assuranceAtLeastIal2 (level : AssuranceLevel) : bool :=
  match level with Ial0 | Ial1 => false | _ => true end.

Definition countStrongSessions (t : Deployment.t) (id : IdentityId) (now : Instant) : nat :=
  length (filter (fun s => Session.identity s = id /\ Session.state s = SessionState.Active
    /\ assuranceAtLeastIal2 (Session.assurance s) = true
    /\ now < Session.absoluteExpiresAt s /\ now < Session.lastSeenAt s + Session.idleTimeout s)
    (map_to_list (sessions t)).*2).
