(* ===== verification/AdministrationStore.v ===== *)
(** * openproof.storage.postgres: administration as transactions

    Models [PostgresAdministrationRepository] and
    [PostgresAuthorizationDecisionSink] of
    [src/src/storage/postgres/postgres.cpp]: each operation is one transaction
    over the tables of the file Deployment, statement by statement, with the
    audit record and the security event it appends. *)
From S2P Require Import Prelude Foundation Json Database Encoding Security Aead IdentityCore Provider Link Organizations Session SessionService Policy Credentials AuditLog Administration Deployment.
Import Deployment(audit_events, organizations, memberships).

(** A JSON object of strings. *)
Definition jsonObject (entries : list (string * string)) : Result string :=
  writer ← foldl (fun w entry => w ← w; JsonObjectWriter.addString w entry.1 entry.2) (Ok JsonObjectWriter.create) entries;
  Ok (JsonObjectWriter.build writer).

Section records.
Context `{Plat : Platform} `{Db : Database}.
Abbreviation state := (database Deployment.t world).
Abbreviation session B := (prog state Error B).

(** ** Audit records and security events *)

(** [fields.emplace]: an entry that is there stays. *)
Definition emplace (name value : string) (fields : AuditFields) : AuditFields :=
  match fields !! name with Some _ => fields | None => <[name := value]> fields end.

Definition administrationEvent (action : string) (organizationId : OrganizationId) (target actor : IdentityId)
    (now : Instant) (fields : AuditFields) : session AuditEvent.t :=
  randomId ← on_platform (randomTokenBase64Url 24);
  let eventId := "admin-" +:+ randomId in
  lift (AuditEvent.create (mkId eventId) now (mkId eventId) (Some organizationId) (Some target)
          "administration" action "success" (emplace "actor_identity_id" (id_value actor) fields)).

(** The statements that append to the chain, with the names of their failures:
    the lock, the head, the row, the seal. *)
Definition appendChained (readHead append seal : string) (event : AuditEvent.t) (key : AuditKey.t) : session unit :=
  _ ← request "lock audit chain" (mret tt);
  previousHash ← select readHead chainHead;
  sequence ← request append (sequence ← nextval; _ ← on_tables (insertAuditEvent append event sequence previousHash);
                             mret sequence);
  recordHash ← lift (computeAuditRecordHash event sequence previousHash key);
  execute seal (sealAuditEvent sequence recordHash).

Definition appendAuditRecord (event : AuditEvent.t) (key : AuditKey.t) : session unit :=
  appendChained "read audit chain head" "append administration audit event" "seal administration audit event" event key.

(** The organization and the identity of an event the repository made. *)
Definition presentId {Tag} (id : option (StrongId Tag)) : Result string :=
  match id with Some id => Ok (id_value id) | None => Aborted end.

Definition appendSecurityRecord (event : AuditEvent.t) (securityType actorIdentity severity : string) : session unit :=
  organization ← lift (presentId (AuditEvent.organization event));
  identity ← lift (presentId (AuditEvent.identity event));
  payload ← lift (jsonObject [("event_id", id_value (AuditEvent.id event)); ("type", securityType);
                              ("organization_id", organization); ("identity_id", identity);
                              ("actor_identity_id", actorIdentity); ("severity", severity)]);
  execute "append security event"
    (insertSecurityEvent "append security event" (AuditEvent.id event) (AuditEvent.occurredAt event) payload).

(** [event.fields().at("actor_identity_id")] throws when there is none. *)
Definition appendAdministrationRecords (event : AuditEvent.t) (key : AuditKey.t) (securityType : string) : session unit :=
  _ ← appendAuditRecord event key;
  actor ← lift (match AuditEvent.fields event !! "actor_identity_id" with Some actor => Ok actor | None => Aborted end);
  appendSecurityRecord event securityType actor "critical".

(** [SET TRANSACTION ISOLATION LEVEL SERIALIZABLE] and the advisory lock of the
    operation, which leave no row. *)
Definition serialize (isolation lock : string) : session unit :=
  _ ← request isolation (mret tt);
  request lock (mret tt).

Definition prepareAdministrationTransaction : session unit :=
  serialize "set administration isolation" "lock administration mutation".

(** One statement for each role. *)
Fixpoint insertRoles (operation : string) (org : OrganizationId) (id : IdentityId) (roles : list Role) : session unit :=
  match roles with
  | [] => mret tt
  | role :: roles =>
      _ ← execute operation (insertRole operation org id role);
      insertRoles operation org id roles
  end.

Definition authorizeActiveOwner (operation : string) (organizationId : OrganizationId) (actor : IdentityId)
    : session unit :=
  authorized ← select operation (fun t => activeOwner t organizationId actor);
  if (authorized : bool) then mret tt
  else throw (Error_ofMessage PermissionDenied "The operation is not permitted.").

Definition lockLocalMember (organizationId : OrganizationId) (identityId : IdentityId) (provider : ProviderId)
    : session (MembershipState.t * bool) :=
  target ← select "lock managed local member" (fun t => localMember t organizationId identityId provider);
  match target with
  | Some member => mret member
  | None => throw (Error_ofMessage NotFound "That local member was not found.")
  end.

Definition activeOwnerCount (organizationId : OrganizationId) : session nat :=
  select "count active owners" (fun t => countActiveOwners t organizationId).

Definition revokeMemberSessions (identityId : IdentityId) (now : Instant) : session unit :=
  execute "revoke managed member sessions" (revokeSessions identityId now).
End records.

(** Roles in a field, separated by commas. *)
Definition roleList (roles : list Role) : string :=
  foldl (fun text role => (if bool_decide (text = "") then text else text +:+ ",") +:+ id_value role) "" roles.

Definition precondition (condition : bool) (message : string) {S} : prog S Error unit :=
  if condition then mret tt else throw (Error_ofMessage FailedPrecondition message).

Module PostgresAdministrationRepository.
Section repository.
Context `{Plat : Platform} `{!CredentialPlatform} {A : AeadPlatform} `{Db : Database}.
Abbreviation state := (database Deployment.t world).
Abbreviation session B := (prog state Error B).

Record t := mk {
  m_passwordHasher : PasswordHasher.t;
  m_totpKey : AeadKey.t;
  m_keyVersion : Z;
  m_provider : ProviderId;
  m_auditKey : AuditKey.t;
}.

Definition create (passwordHasher : PasswordHasher.t) (totpKey : AeadKey.t) (keyVersion : Z)
    (providerId : ProviderId) (auditKey : AuditKey.t) : Result t :=
  if (keyVersion =? 0) || id_empty providerId then
    fail InvalidArgument "The PostgreSQL bootstrap configuration is invalid."
  else Ok (mk passwordHasher totpKey keyVersion providerId auditKey).

Context (r : t).

(** The password hash and the sealed seed of an identity. *)
Definition hashPassword (password : string) : session PasswordHash.t :=
  on_platform (PasswordHasher.hash (m_passwordHasher r) password).
Definition sealTotp (id : IdentityId) (totp : TotpSecret.t) : session (list byte) :=
  on_platform (sealAes256Gcm (m_totpKey r) (TotpSecret.bytes totp) ("openproof/totp/v1:" +:+ id_value id)).

(** A new identity with its link, its membership, its roles and its two
    credentials; each operation names the failures of its statements. *)
Definition insertMember (identity external membershipName role password totp : string) (org : OrganizationId)
    (identityValue : Identity.t) (link : IdentityLink.t) (membership : Membership.t) (hash : PasswordHash.t)
    (seed : list byte) : session unit :=
  let id := Identity.id identityValue in
  _ ← execute identity (insertIdentity identity org identityValue);
  _ ← execute external (insertExternalIdentity external (IdentityLink.external link) id (IdentityLink.requestedAt link));
  _ ← execute membershipName (insertMembership membershipName org id (Membership.state membership)
                                (Membership.invitedAt membership));
  _ ← insertRoles role org id (Membership.roles membership);
  _ ← execute password (insertPassword password id hash (Identity.createdAt identityValue));
  execute totp (insertTotp totp id seed (m_keyVersion r) (Identity.createdAt identityValue)).

Definition initialize (administrator : InitialAdministrator.t) : session unit :=
  let tenant := InitialAdministrator.m_organization administrator in
  let identityValue := InitialAdministrator.m_identity administrator in
  let link := InitialAdministrator.m_link administrator in
  let membership := InitialAdministrator.m_membership administrator in
  if negb (Organization.isUsable tenant) || negb (Identity.canAuthenticate identityValue)
     || negb (bool_decide (Identity.kind identityValue = Human))
     || negb (bool_decide (IdentityLink.state link = LinkState.Linked))
     || negb (bool_decide (ExternalIdentityRef.providerId (IdentityLink.external link) = m_provider r))
     || negb (bool_decide (IdentityLink.owner link = Identity.id identityValue))
     || negb (bool_decide (Membership.organization membership = Organization.id tenant))
     || negb (bool_decide (Membership.identity membership = Identity.id identityValue))
     || negb (bool_decide (Membership.state membership = MembershipState.Active))
     || negb (Membership.hasRole membership owner_role) then
    throw (Error_ofMessage FailedPrecondition "The initial-administrator ceremony is incomplete.")
  else
    passwordHash ← hashPassword (InitialAdministrator.m_password administrator);
    encryptedTotp ← sealTotp (Identity.id identityValue) (InitialAdministrator.m_totp administrator);
    randomId ← on_platform (randomTokenBase64Url 24);
    let eventId := "bootstrap-" +:+ randomId in
    auditEvent ← lift (AuditEvent.create (mkId eventId) (Identity.createdAt identityValue) (mkId eventId)
                         (Some (Organization.id tenant)) (Some (Identity.id identityValue)) "administration"
                         "bootstrap.initial-owner" "success"
                         {["provider" := id_value (m_provider r); "role" := "owner"]});
    transaction (
      _ ← serialize "set bootstrap isolation" "lock bootstrap ceremony";
      organizationCount ← select "check bootstrap state" (fun t => base.size (organizations t));
      if negb (organizationCount =? 0)%nat then
        throw (Error_ofMessage AlreadyExists "The deployment has already been initialized.")
      else
        _ ← execute "bootstrap organization" (insertOrganization "bootstrap organization" tenant);
        _ ← insertMember "bootstrap identity" "bootstrap external identity" "bootstrap membership"
              "bootstrap membership role" "bootstrap password" "bootstrap TOTP" (Organization.id tenant)
              identityValue link membership passwordHash encryptedTotp;
        _ ← appendChained "read audit chain head" "append bootstrap audit event" "seal bootstrap audit event"
              auditEvent (m_auditKey r);
        payload ← lift (jsonObject [("event_id", eventId); ("type", "bootstrap.initial-owner");
                                    ("organization_id", id_value (Organization.id tenant));
                                    ("identity_id", id_value (Identity.id identityValue)); ("severity", "critical")]);
        execute "append bootstrap security event"
          (insertSecurityEvent "append bootstrap security event" (mkId eventId) (Identity.createdAt identityValue) payload)).

Definition repairInitialOwnerMembership (organizationId : OrganizationId) (identityId : IdentityId) (now : Instant)
    : session unit :=
  if id_empty organizationId || id_empty identityId then
    throw (Error_ofMessage InvalidArgument "The initial-owner repair target is invalid.")
  else
    event ← administrationEvent "bootstrap.initial-owner.repair" organizationId identityId identityId now
              {["role" := "owner"; "recovery_mode" := "empty-membership-bootstrap"]};
    transaction (
      _ ← serialize "set owner-repair isolation" "lock owner-repair ceremony";
      organizationCount ← select "count organizations for owner repair" (fun t => base.size (organizations t));
      _ ← precondition (organizationCount =? 1)%nat "Initial-owner repair requires exactly one organization.";
      targetOrganization ← select "validate owner-repair organization" (fun t => organization_is_active t organizationId);
      _ ← precondition targetOrganization "The owner-repair organization is not active.";
      membershipCount ← select "count memberships for owner repair" (fun t => base.size (memberships t));
      ownerCount ← select "count owners for owner repair" countOwnerRoles;
      priorBootstrap ← select "check bootstrap audit for owner repair" countBootstraps;
      _ ← precondition ((membershipCount =? 0) && (ownerCount =? 0) && (priorBootstrap =? 0))%nat
            "Initial-owner repair is permitted only for an unowned incomplete bootstrap.";
      eligibleIdentity ← select "validate owner-repair identity"
                           (fun t => countEligible t organizationId identityId (m_provider r));
      _ ← precondition (eligibleIdentity =? 1)%nat
            "Initial-owner repair requires one active local human identity with password and TOTP.";
      ial2Sessions ← select "validate owner-repair IAL2 session" (fun t => countStrongSessions t identityId now);
      if (ial2Sessions =? 0)%nat then
        throw (Error_ofMessage AssuranceInsufficient
                 "Initial-owner repair requires an active IAL2 session for the target identity.")
      else
        _ ← execute "repair initial owner membership"
              (insertMembership "repair initial owner membership" organizationId identityId MembershipState.Active now);
        _ ← execute "repair initial owner role" (insertRole "repair initial owner role" organizationId identityId owner_role);
        appendAdministrationRecords event (m_auditKey r) "bootstrap.initial-owner.repaired").

Definition provision (actor : IdentityId) (enrollment : LocalMemberEnrollment.t) : session unit :=
  let org := LocalMemberEnrollment.m_organizationId enrollment in
  let identityValue := LocalMemberEnrollment.m_identity enrollment in
  let link := LocalMemberEnrollment.m_link enrollment in
  let membership := LocalMemberEnrollment.m_membership enrollment in
  if id_empty actor || negb (Identity.canAuthenticate identityValue)
     || negb (bool_decide (Identity.kind identityValue = Human))
     || negb (bool_decide (IdentityLink.state link = LinkState.Linked))
     || negb (bool_decide (ExternalIdentityRef.providerId (IdentityLink.external link) = m_provider r))
     || negb (bool_decide (IdentityLink.owner link = Identity.id identityValue))
     || negb (bool_decide (Membership.organization membership = org))
     || negb (bool_decide (Membership.identity membership = Identity.id identityValue))
     || negb (bool_decide (Membership.state membership = MembershipState.Active)) then
    throw (Error_ofMessage FailedPrecondition "The local-member enrollment ceremony is incomplete.")
  else
    passwordHash ← hashPassword (LocalMemberEnrollment.m_generatedPassword enrollment);
    encryptedTotp ← sealTotp (Identity.id identityValue) (LocalMemberEnrollment.m_generatedTotp enrollment);
    randomId ← on_platform (randomTokenBase64Url 24);
    let eventId := "admin-member-" +:+ randomId in
    auditEvent ← lift (AuditEvent.create (mkId eventId) (Identity.createdAt identityValue) (mkId eventId)
                         (Some org) (Some (Identity.id identityValue)) "administration" "local-member.create" "success"
                         {["actor_identity_id" := id_value actor; "provider" := id_value (m_provider r);
                           "roles" := roleList (Membership.roles membership)]});
    transaction (
      _ ← serialize "set administration isolation" "lock administration mutation";
      _ ← authorizeActiveOwner "authorize member provisioning" org actor;
      _ ← insertMember "create managed identity" "create managed external identity" "create managed membership"
            "create managed membership role" "create managed password" "create managed TOTP" org
            identityValue link membership passwordHash encryptedTotp;
      _ ← appendChained "read audit chain head" "append member audit event" "seal member audit event"
            auditEvent (m_auditKey r);
      payload ← lift (jsonObject [("event_id", eventId); ("type", "administration.local-member.created");
                                  ("organization_id", id_value org); ("actor_identity_id", id_value actor);
                                  ("identity_id", id_value (Identity.id identityValue)); ("severity", "critical")]);
      execute "append member security event"
        (insertSecurityEvent "append member security event" (mkId eventId) (Identity.createdAt identityValue) payload)).

(** [member->state == Active && member->owner && loses]: an active owner loses
    that place only when another one is left. *)
Definition keepAnOwner (organizationId : OrganizationId) (member : MembershipState.t * bool) (loses : bool)
    (message : string) : session unit :=
  if bool_decide (member.1 = MembershipState.Active) && member.2 && loses then
    owners ← activeOwnerCount organizationId;
    precondition (negb (owners <=? 1)%nat) message
  else mret tt.

Definition invalidActor {B} : session B :=
  throw (Error_ofMessage InvalidArgument "The administrative actor is invalid.").

Definition replaceRoles (actor : IdentityId) (replacement : MemberRoleReplacement.t) : session unit :=
  let org := MemberRoleReplacement.m_organizationId replacement in
  let id := MemberRoleReplacement.m_identityId replacement in
  let roles := MemberRoleReplacement.m_roles replacement in
  let now := MemberRoleReplacement.m_occurredAt replacement in
  if id_empty actor then invalidActor
  else
    let replacementHasOwner := existsb (fun role => bool_decide (id_value role = "owner")) roles in
    event ← administrationEvent "local-member.roles.replace" org id actor now {["roles" := roleList roles]};
    transaction (
      _ ← prepareAdministrationTransaction;
      _ ← authorizeActiveOwner "authorize administration" org actor;
      member ← lockLocalMember org id (m_provider r);
      _ ← precondition (negb (bool_decide (member.1 = MembershipState.Removed)))
            "A removed membership cannot receive roles.";
      _ ← keepAnOwner org member (negb replacementHasOwner) "The final active owner cannot lose the owner role.";
      _ ← execute "replace managed member roles" (deleteRoles org id);
      _ ← insertRoles "insert replacement member role" org id roles;
      _ ← revokeMemberSessions id now;
      appendAdministrationRecords event (m_auditKey r) "administration.local-member.roles-replaced").

(** The state an action leads to from the state of the member. *)
Definition nextState (action : MemberLifecycleAction) (state : MembershipState.t) : Result MembershipState.t :=
  match action with
  | Suspend =>
      if negb (bool_decide (state = MembershipState.Active)) then
        fail FailedPrecondition "Only an active membership can be suspended."
      else Ok MembershipState.Suspended
  | Reinstate =>
      if negb (bool_decide (state = MembershipState.Suspended)) then
        fail FailedPrecondition "Only a suspended membership can be reinstated."
      else Ok MembershipState.Active
  | Remove =>
      if bool_decide (state = MembershipState.Removed) then
        fail FailedPrecondition "This membership has already been removed."
      else Ok MembershipState.Removed
  end.

Definition changeLifecycle (actor : IdentityId) (change : MemberLifecycleChange.t) : session unit :=
  let org := MemberLifecycleChange.m_organizationId change in
  let id := MemberLifecycleChange.m_identityId change in
  let action := MemberLifecycleChange.m_action change in
  let now := MemberLifecycleChange.m_occurredAt change in
  if id_empty actor then invalidActor
  else
    let actionName := memberLifecycleActionName action in
    event ← administrationEvent ("local-member." +:+ actionName) org id actor now ∅;
    transaction (
      _ ← prepareAdministrationTransaction;
      _ ← authorizeActiveOwner "authorize administration" org actor;
      member ← lockLocalMember org id (m_provider r);
      next ← lift (nextState action member.1);
      _ ← keepAnOwner org member (negb (bool_decide (action = Reinstate)))
            "The final active owner cannot be suspended or removed.";
      _ ← execute "change managed member lifecycle" (setMembershipState org id next);
      _ ← (if bool_decide (next = MembershipState.Removed)
           then execute "drop removed member roles" (deleteRoles org id) else mret tt);
      _ ← revokeMemberSessions id now;
      appendAdministrationRecords event (m_auditKey r) ("administration.local-member." +:+ actionName)).

Definition resetCredentials (actor : IdentityId) (reset : LocalCredentialReset.t) : session unit :=
  let org := LocalCredentialReset.m_organizationId reset in
  let id := LocalCredentialReset.m_identityId reset in
  let now := LocalCredentialReset.m_occurredAt reset in
  if id_empty actor then invalidActor
  else
    passwordHash ← hashPassword (LocalCredentialReset.m_generatedPassword reset);
    encryptedTotp ← sealTotp id (LocalCredentialReset.m_generatedTotp reset);
    event ← administrationEvent "local-member.credentials.reset" org id actor now
              {["provider" := id_value (m_provider r)]};
    transaction (
      _ ← prepareAdministrationTransaction;
      _ ← authorizeActiveOwner "authorize administration" org actor;
      member ← lockLocalMember org id (m_provider r);
      _ ← precondition (bool_decide (member.1 = MembershipState.Active))
            "Credentials can be reset only for an active member.";
      password ← execute "reset managed member password" (resetPassword id passwordHash now);
      totp ← execute "reset managed member TOTP"
               (resetTotp "reset managed member TOTP" id encryptedTotp (m_keyVersion r) now);
      _ ← precondition ((password =? 1) && (totp =? 1))%nat
            "The local member does not have a complete credential set.";
      _ ← execute "invalidate managed member recovery codes" (deleteRecoveryCodes id);
      _ ← revokeMemberSessions id now;
      appendAdministrationRecords event (m_auditKey r) "administration.local-member.credentials-reset").

#[global] Instance administration : AdministrationRepository state := {|
  adr_initialize := initialize; adr_provision := provision; adr_replaceRoles := replaceRoles;
  adr_changeLifecycle := changeLifecycle; adr_resetCredentials := resetCredentials;
|}.
End repository.
End PostgresAdministrationRepository.

(** The sink of denied requests: the same records, under the default isolation
    level and without the lock of administration. *)
Module PostgresAuthorizationDecisionSink.
Section sink.
Context `{Plat : Platform} `{Db : Database}.
Context (m_auditKey : AuditKey.t).
Abbreviation state := (database Deployment.t world).

Definition record (authenticatedSession : AuthenticatedSession.t) (organization : OrganizationId)
    (action : Action) (resource : Resource) (decision : AuthorizationDecision.t) (correlation : CorrelationId)
    : prog state Error unit :=
  let session := AuthenticatedSession.session authenticatedSession in
  randomId ← on_platform (randomTokenBase64Url 24);
  now ← on_platform now;
  event ← lift (AuditEvent.create (mkId ("authorization-" +:+ randomId)) now correlation (Some organization)
                  (Some (Session.identity session)) "authorization" "protected-route.evaluate"
                  (decisionKindName (AuthorizationDecision.kind decision))
                  {["action" := id_value action; "assurance" := assuranceLevelName (Session.assurance session);
                    "provider" := id_value (Session.provider session);
                    "reason" := AuthorizationDecision.reason decision; "resource" := id_value resource]});
  transaction (
    _ ← appendAuditRecord event m_auditKey;
    appendSecurityRecord event "authorization.protected-route.denied" (id_value (Session.identity session)) "warning").
End sink.
End PostgresAuthorizationDecisionSink.
