(* ===== verification/AdministrationSafety.v ===== *)
(** * openproof.storage.postgres: what administration promises

    Theorems about the operations of the file AdministrationStore: owners are
    not lost, changes are authorized and confined, sessions end with the
    authority they carried, and every change is recorded in a chain that
    verifies. They hold whatever request the server fails. *)
From S2P Require Import Prelude Foundation Json Database Encoding Security Aead IdentityCore Provider Link Organizations Session SessionService Policy Credentials AuditLog Administration Deployment AdministrationStore.
Import PostgresAdministrationRepository.
Import Deployment(organizations, identities, external_identities, memberships, membership_roles,
  password_credentials, totp_credentials, recovery_codes, sessions, audit_events, security_event_outbox,
  with_organizations, with_identities, with_external_identities, with_memberships, with_membership_roles,
  with_password_credentials, with_totp_credentials, with_recovery_codes, with_sessions, with_audit_events,
  with_security_event_outbox).
Import InMemoryAuditRepository(verifyFrom).

Implicit Types t : Deployment.t.

(** ** Statements *)

(** The tables without their two logs. The queries do not read those. *)
Definition business t : Deployment.t := with_audit_events (fun _ => []) (with_security_event_outbox (fun _ => []) t).

Lemma insertion_ok operation present referenced insert t t' :
  insertion operation present referenced insert t = (Ok tt, t') ->
  present t = false /\ referenced t = true /\ t' = insert t.
Proof.
  unfold insertion. intros H. branch H Hp; [done|]. branch H Hr; [done|]. apply negb_false_iff in Hr.
  injection H as <-. done.
Qed.

(** An insertion is all or nothing. *)
Lemma insertion_effect operation present referenced insert t :
  (insertion operation present referenced insert t).2 = t \/
  (present t = false /\ referenced t = true /\ (insertion operation present referenced insert t).2 = insert t).
Proof.
  unfold insertion. destruct (present t); [by left|]. destruct (referenced t); [by right|by left].
Qed.

Lemma insertTotp_effect operation id seed version at_ t :
  (insertTotp operation id seed version at_ t).2 = t \/
  totp_credentials t !! id = None /\
  (insertTotp operation id seed version at_ t).2 =
    with_totp_credentials <[id := TotpRow.mk seed version None at_]> t.
Proof.
  unfold insertTotp. destruct (negb _); [by left|].
  edestruct insertion_effect as [->|(Hp & _ & ->)]; [by left|right].
  apply bool_decide_eq_false in Hp. rewrite <- eq_None_not_Some in Hp. done.
Qed.

(** ** References *)

(** Memberships are those of identities of the organization, roles are those of
    memberships, and identities are those of organizations. *)
Record referential t : Prop := {
  ref_membership org id : is_Some (memberships t !! (org, id)) -> belongs t org id = true;
  ref_role org id role : (org, id, role) ∈ membership_roles t -> is_Some (memberships t !! (org, id));
  ref_identity id row :
    identities t !! id = Some row -> is_Some (organizations t !! InMemoryIdentityRepository.organization row);
}.

(** Additions only: what an insertion may do. *)
Record grows t t' : Prop := {
  grows_organizations : organizations t ⊆ organizations t';
  grows_identities : identities t ⊆ identities t';
  grows_memberships : memberships t ⊆ memberships t';
  grows_roles : membership_roles t ⊆ membership_roles t';
}.

#[global] Instance grows_preorder : PreOrder grows.
Proof.
  split; [by split|]. intros t1 t2 t3 [????] [????]. split; by etrans.
Qed.

Lemma belongs_spec t org id :
  belongs t org id = true <->
  exists row, identities t !! id = Some row /\ InMemoryIdentityRepository.organization row = org.
Proof.
  unfold belongs. destruct (identities t !! id) as [row|]; [|naive_solver].
  rewrite bool_decide_eq_true. naive_solver.
Qed.

Lemma identity_is_active_spec t id :
  identity_is_active t id = true <->
  exists row, identities t !! id = Some row /\ Identity.status (InMemoryIdentityRepository.identity row) = Active.
Proof.
  unfold identity_is_active. destruct (identities t !! id) as [row|]; [|naive_solver].
  rewrite bool_decide_eq_true. naive_solver.
Qed.

Lemma membership_is_active_spec t org id :
  membership_is_active t org id = true <->
  exists row, memberships t !! (org, id) = Some row /\ MembershipRow.state row = MembershipState.Active.
Proof.
  unfold membership_is_active. destruct (memberships t !! (org, id)) as [row|]; [|naive_solver].
  rewrite bool_decide_eq_true. naive_solver.
Qed.

Lemma organization_is_active_spec t org :
  organization_is_active t org = true <->
  exists row, organizations t !! org = Some row /\ Organization.status row = OrganizationStatus.Active.
Proof.
  unfold organization_is_active. destruct (organizations t !! org) as [row|]; [|naive_solver].
  rewrite bool_decide_eq_true. naive_solver.
Qed.

Lemma activeOwner_spec t org id :
  activeOwner t org id = true <->
  organization_is_active t org = true /\ belongs t org id = true /\ identity_is_active t id = true /\
  membership_is_active t org id = true /\ (org, id, owner_role) ∈ membership_roles t.
Proof. unfold activeOwner. rewrite !andb_true_iff, bool_decide_eq_true. tauto. Qed.

(** An owner stays one when rows are only added. *)
Lemma activeOwner_grows t t' org id : grows t t' -> activeOwner t org id = true -> activeOwner t' org id = true.
Proof.
  intros [Ho Hi Hm Hr]. rewrite !activeOwner_spec, !organization_is_active_spec, !belongs_spec,
    !identity_is_active_spec, !membership_is_active_spec.
  intros ((o & ? & ?) & (i & ? & ?) & (i' & ? & ?) & (m & ? & ?) & ?).
  split_and!; [exists o|exists i|exists i'|exists m|by apply Hr]; (split; [by eapply lookup_weaken|done]).
Qed.

(** Nothing but the rows of one member: its identity, its membership of the
    organization with its roles, its credentials, its links and its sessions. *)
Record about (org : OrganizationId) (id : IdentityId) t t' : Prop := {
  about_organizations : organizations t' = organizations t;
  about_identities i : i <> id -> identities t' !! i = identities t !! i;
  about_memberships o i : o <> org \/ i <> id -> memberships t' !! (o, i) = memberships t !! (o, i);
  about_roles o i role :
    o <> org \/ i <> id -> (o, i, role) ∈ membership_roles t' <-> (o, i, role) ∈ membership_roles t;
  about_passwords i : i <> id -> password_credentials t' !! i = password_credentials t !! i;
  about_totp i : i <> id -> totp_credentials t' !! i = totp_credentials t !! i;
  about_recovery i code : i <> id -> (i, code) ∈ recovery_codes t' <-> (i, code) ∈ recovery_codes t;
  about_external key row :
    ExternalIdentityRow.identity_id row <> id ->
    external_identities t' !! key = Some row <-> external_identities t !! key = Some row;
  about_sessions key s :
    Session.identity s <> id -> sessions t' !! key = Some s <-> sessions t !! key = Some s;
}.

#[global] Instance about_preorder org id : PreOrder (about org id).
Proof.
  split; [intros t; split; done|]. intros t1 t2 t3 H12 H23. split.
  - by rewrite (about_organizations _ _ _ _ H23), (about_organizations _ _ _ _ H12).
  - intros i Hi. by rewrite (about_identities _ _ _ _ H23), (about_identities _ _ _ _ H12).
  - intros o i Hi. by rewrite (about_memberships _ _ _ _ H23), (about_memberships _ _ _ _ H12).
  - intros o i role Hi. by rewrite (about_roles _ _ _ _ H23), (about_roles _ _ _ _ H12).
  - intros i Hi. by rewrite (about_passwords _ _ _ _ H23), (about_passwords _ _ _ _ H12).
  - intros i Hi. by rewrite (about_totp _ _ _ _ H23), (about_totp _ _ _ _ H12).
  - intros i code Hi. by rewrite (about_recovery _ _ _ _ H23), (about_recovery _ _ _ _ H12).
  - intros key row Hi. by rewrite (about_external _ _ _ _ H23), (about_external _ _ _ _ H12).
  - intros key s Hi. by rewrite (about_sessions _ _ _ _ H23), (about_sessions _ _ _ _ H12).
Qed.

Lemma pair_ne (org o : OrganizationId) (id i : IdentityId) : o <> org \/ i <> id -> (org, id) <> (o, i).
Proof. intros [H|H] [= -> ->]; by apply H. Qed.

(** A step that changes one member, or nothing. *)
Ltac member_step :=
  split; intros; cbn in *; try done;
  rewrite ?lookup_insert_ne, ?lookup_alter_ne by (done || by apply pair_ne); try done.

Section about.
Context (org : OrganizationId) (id : IdentityId).

Lemma about_logs t t' : business t' = business t -> about org id t t'.
Proof.
  intros H. destruct t, t'. unfold business, with_audit_events, with_security_event_outbox in H. cbn in H.
  injection H as -> -> -> -> -> -> -> -> ->. by split.
Qed.

Lemma about_insertIdentity op i t : Identity.id i = id -> about org id t (insertIdentity op org i t).2.
Proof.
  intros <-. unfold insertIdentity. edestruct insertion_effect as [->|(_ & _ & ->)]; [done|]. member_step.
Qed.

Lemma about_insertExternalIdentity op external at_ t : about org id t (insertExternalIdentity op external id at_ t).2.
Proof.
  unfold insertExternalIdentity. edestruct insertion_effect as [->|(Hp & _ & ->)]; [done|].
  apply bool_decide_eq_false in Hp. rewrite <- eq_None_not_Some in Hp. member_step.
  destruct (decide (key = ExternalIdentityRef.key external)) as [->|Hne]; [|by rewrite lookup_insert_ne].
  rewrite lookup_insert_eq, Hp. split; [intros [= <-]; by cbn in *|done].
Qed.

Lemma about_insertMembership op state at_ t : about org id t (insertMembership op org id state at_ t).2.
Proof. unfold insertMembership. edestruct insertion_effect as [->|(_ & _ & ->)]; [done|]. member_step. Qed.

Lemma about_insertRole op role t : about org id t (insertRole op org id role t).2.
Proof.
  unfold insertRole. edestruct insertion_effect as [->|(_ & _ & ->)]; [done|]. member_step.
  rewrite elem_of_union, elem_of_singleton. split; [|by right]. intros [[= -> -> ->]|?]; [tauto|done].
Qed.

Lemma about_insertPassword op hash at_ t : about org id t (insertPassword op id hash at_ t).2.
Proof. unfold insertPassword. edestruct insertion_effect as [->|(_ & _ & ->)]; [done|]. member_step. Qed.

Lemma about_insertTotp op seed version at_ t : about org id t (insertTotp op id seed version at_ t).2.
Proof. edestruct insertTotp_effect as [->|[_ ->]]; [done|]. member_step. Qed.

Lemma about_deleteRoles t : about org id t (deleteRoles org id t).2.
Proof. member_step. rewrite elem_of_filter. cbn. naive_solver. Qed.

Lemma about_setMembershipState state t : about org id t (setMembershipState org id state t).2.
Proof. member_step. Qed.

Lemma revokeRow_identity now s : Session.identity (revokeRow id now s) = Session.identity s.
Proof. unfold revokeRow. by destruct (_ && _). Qed.

Lemma revokeRow_other now s : Session.identity s <> id -> revokeRow id now s = s.
Proof. intros Hne. unfold revokeRow. by rewrite bool_decide_eq_false_2. Qed.

Lemma about_revokeSessions now t : about org id t (revokeSessions id now t).2.
Proof.
  member_step. rewrite lookup_fmap_Some. split.
  - intros (s' & <- & Hs'). rewrite revokeRow_identity in *. by rewrite revokeRow_other.
  - intros Hs. exists s. by rewrite revokeRow_other.
Qed.

Lemma about_resetPassword hash now t : about org id t (resetPassword id hash now t).2.
Proof. member_step. Qed.

Lemma about_resetTotp op seed version now t : about org id t (resetTotp op id seed version now t).2.
Proof. unfold resetTotp. destruct (negb _); [done|]. member_step. Qed.

Lemma about_deleteRecoveryCodes t : about org id t (deleteRecoveryCodes id t).2.
Proof. member_step. rewrite elem_of_filter. cbn. naive_solver. Qed.

Lemma about_insertAuditEvent op event sequence previous t :
  about org id t (insertAuditEvent op event sequence previous t).2.
Proof. apply about_logs. unfold insertAuditEvent. by edestruct insertion_effect as [->|(_ & _ & ->)]. Qed.

Lemma about_sealAuditEvent sequence hash t : about org id t (sealAuditEvent sequence hash t).2.
Proof. by apply about_logs. Qed.

Lemma about_insertSecurityEvent op event at_ payload t :
  about org id t (insertSecurityEvent op event at_ payload t).2.
Proof. apply about_logs. unfold insertSecurityEvent. by edestruct insertion_effect as [->|(_ & _ & ->)]. Qed.
End about.

(** ** Operations *)

Section operations.
Context `{Plat : Platform} `{Cred : !CredentialPlatform} {A : AeadPlatform} `{Db : Database}.
Context (r : PostgresAdministrationRepository.t).
Abbreviation state := (database Deployment.t world).
Abbreviation session B := (prog state Error B).

#[local] Hint Resolve about_insertIdentity about_insertExternalIdentity about_insertMembership about_insertRole
  about_insertPassword about_insertTotp about_deleteRoles about_setMembershipState about_revokeSessions
  about_resetPassword about_resetTotp about_deleteRecoveryCodes about_insertAuditEvent about_sealAuditEvent
  about_insertSecurityEvent : about.

Section about_member.
Context (org : OrganizationId) (id : IdentityId).
Abbreviation along := (advances (tables_along (about org id))).

Lemma along_serialize isolation lock : along (serialize isolation lock).
Proof. unfold serialize. stride. Qed.

Lemma along_appendChained head append seal event key : along (appendChained head append seal event key).
Proof. unfold appendChained. stride; auto with about. Qed.

Lemma along_appendSecurityRecord event type actor severity : along (appendSecurityRecord event type actor severity).
Proof. unfold appendSecurityRecord. stride; auto with about. Qed.

Lemma along_appendAdministrationRecords event key type : along (appendAdministrationRecords event key type).
Proof.
  unfold appendAdministrationRecords, appendAuditRecord. stride;
    [apply along_appendChained|apply along_appendSecurityRecord..].
Qed.

Lemma along_insertRoles op roles : along (insertRoles op org id roles).
Proof. induction roles as [|role roles IH]; cbn [insertRoles]; stride; auto with about. Qed.

Lemma along_insertMember n1 n2 n3 n4 n5 n6 i link membership hash seed :
  Identity.id i = id -> along (insertMember r n1 n2 n3 n4 n5 n6 org i link membership hash seed).
Proof.
  intros E. unfold insertMember. rewrite E. stride; auto with about. apply along_insertRoles.
Qed.
End about_member.

#[local] Hint Resolve along_serialize along_appendChained along_appendSecurityRecord
  along_appendAdministrationRecords along_insertRoles along_insertMember : about.

(** The steps of an operation before its statements. *)
Ltac opened := unfold prepareAdministrationTransaction, administrationEvent, hashPassword, sealTotp, authorizeActiveOwner, lockLocalMember,
  keepAnOwner, activeOwnerCount, precondition, revokeMemberSessions, invalidActor.

(** The organization, the member and the actor of an operation on members. *)
Inductive member_op :=
  | Provision (actor : IdentityId) (enrollment : LocalMemberEnrollment.t)
  | ReplaceRoles (actor : IdentityId) (replacement : MemberRoleReplacement.t)
  | ChangeLifecycle (actor : IdentityId) (change : MemberLifecycleChange.t)
  | ResetCredentials (actor : IdentityId) (reset : LocalCredentialReset.t).

Definition op_actor (o : member_op) : IdentityId :=
  match o with
  | Provision actor _ | ReplaceRoles actor _ | ChangeLifecycle actor _ | ResetCredentials actor _ => actor
  end.

Definition op_organization (o : member_op) : OrganizationId :=
  match o with
  | Provision _ e => LocalMemberEnrollment.m_organizationId e
  | ReplaceRoles _ c => MemberRoleReplacement.m_organizationId c
  | ChangeLifecycle _ c => MemberLifecycleChange.m_organizationId c
  | ResetCredentials _ c => LocalCredentialReset.m_organizationId c
  end.

Definition op_member (o : member_op) : IdentityId :=
  match o with
  | Provision _ e => Identity.id (LocalMemberEnrollment.m_identity e)
  | ReplaceRoles _ c => MemberRoleReplacement.m_identityId c
  | ChangeLifecycle _ c => MemberLifecycleChange.m_identityId c
  | ResetCredentials _ c => LocalCredentialReset.m_identityId c
  end.

Definition run_member_op (o : member_op) : session unit :=
  match o with
  | Provision actor e => provision r actor e
  | ReplaceRoles actor c => replaceRoles r actor c
  | ChangeLifecycle actor c => changeLifecycle r actor c
  | ResetCredentials actor c => resetCredentials r actor c
  end.

Lemma about_member_op o : advances (tables_along (about (op_organization o) (op_member o))) (run_member_op o).
Proof.
  destruct o; cbn [run_member_op op_organization op_member];
    unfold provision, replaceRoles, changeLifecycle, resetCredentials; opened; stride; auto with about.
Qed.

(** What a successful step that only reads leaves. *)
Definition still (s s' : state) : Prop := db_tables s' = db_tables s /\ db_sequence s' = db_sequence s.

Lemma authorizeActiveOwner_ok op org actor s s' :
  authorizeActiveOwner op org actor s = (Ok tt, s') -> activeOwner (db_tables s) org actor = true /\ still s s'.
Proof.
  unfold authorizeActiveOwner. intros (b & s1 & Hread & Hrun)%prog_bind_ok. apply select_ok in Hread as [-> ->].
  branch Hrun Hb; [|done]. by injection Hrun as <-.
Qed.

Lemma lockLocalMember_ok org id provider s member s' :
  lockLocalMember org id provider s = (Ok member, s') ->
  localMember (db_tables s) org id provider = Some member /\ still s s'.
Proof.
  unfold lockLocalMember. intros (found & s1 & Hread & Hrun)%prog_bind_ok. apply select_ok in Hread as [-> ->].
  destruct (localMember _ _ _ _) as [m|]; [|done]. by injection Hrun as -> <-.
Qed.

Lemma precondition_ok condition message (s s' : state) :
  precondition condition message s = (Ok tt, s') -> condition = true /\ s' = s.
Proof. unfold precondition. destruct condition; [|done]. by intros [= <-]. Qed.

Lemma keepAnOwner_ok org member loses message s s' :
  keepAnOwner org member loses message s = (Ok tt, s') ->
  (member.1 = MembershipState.Active -> member.2 = true -> loses = true -> (1 < countActiveOwners (db_tables s) org)%nat) /\
  still s s'.
Proof.
  unfold keepAnOwner, activeOwnerCount. intros H. branch H Hb.
  - apply prog_bind_ok in H as (n & s1 & Hread & Hp). apply precondition_ok in Hp as [Hn ->].
    apply select_ok in Hread as [-> ->]. apply negb_true_iff, Nat.leb_gt in Hn. done.
  - injection H as <-. split; [|done]. intros E1 E2 E3. rewrite E1, E2, E3 in Hb. by rewrite bool_decide_eq_true_2 in Hb.
Qed.

Lemma serialize_ok isolation lock s s' : serialize isolation lock s = (Ok tt, s') -> still s s'.
Proof.
  unfold serialize. intros ([] & s1 & H1 & H2)%prog_bind_ok. apply request_ok in H1, H2.
  injection H1 as <-. by injection H2 as <-.
Qed.

Lemma administrationEvent_ok action org target actor now fields s event s' :
  administrationEvent action org target actor now fields s = (Ok event, s') ->
  still s s' /\ AuditEvent.organization event = Some org /\ AuditEvent.identity event = Some target /\
  AuditEvent.fields event = emplace "actor_identity_id" (id_value actor) fields.
Proof.
  unfold administrationEvent. intros (token & s1 & H1 & [H2 ->]%lift_ok)%prog_bind_ok.
  apply on_platform_ok in H1. split; [done|]. unfold AuditEvent.create in H2. branch H2 Hb; [done|].
  by injection H2 as <-.
Qed.

(** Only the logs change. *)
Definition quiet t t' : Prop := business t' = business t.

#[local] Instance quiet_preorder : PreOrder quiet.
Proof. split; [by intros t|]. intros t1 t2 t3. unfold quiet. congruence. Qed.

Lemma quiet_insertion op present referenced insert t :
  (forall u, quiet u (insert u)) -> quiet t (insertion op present referenced insert t).2.
Proof. intros Hq. by edestruct insertion_effect as [->|(_ & _ & ->)]. Qed.

Lemma quiet_appendChained head append seal event key :
  advances (tables_along quiet) (appendChained head append seal event key).
Proof. unfold appendChained. stride; [by apply quiet_insertion|done]. Qed.

Lemma quiet_appendAdministrationRecords event key type :
  advances (tables_along quiet) (appendAdministrationRecords event key type).
Proof.
  unfold appendAdministrationRecords, appendAuditRecord, appendSecurityRecord. stride;
    [apply quiet_appendChained|by apply quiet_insertion..].
Qed.

Lemma insertRoles_ok op org id roles s s' :
  insertRoles op org id roles s = (Ok tt, s') ->
  db_tables s' = with_membership_roles (union (list_to_set (pair (org, id) <$> roles))) (db_tables s).
Proof.
  revert s. induction roles as [|role roles IH]; cbn [insertRoles]; intros s Hrun.
  - injection Hrun as <-. destruct s as [[] ? ? ?]. unfold with_membership_roles. cbn. by rewrite union_empty_l_L.
  - apply prog_bind_ok in Hrun as ([] & s1 & He & Hrun). apply IH in Hrun as ->.
    apply execute_ok in He as (t & Hi & ->).
    unfold insertRole in Hi. apply insertion_ok in Hi as (_ & _ & ->).
    unfold with_membership_roles. cbn. f_equal. set_solver.
Qed.

(** What the operations on an existing member begin and end with. *)
Lemma guarded_ok {B} org id actor provider (k : MembershipState.t * bool -> session B) s b s' :
  transaction (_ ← prepareAdministrationTransaction; _ ← authorizeActiveOwner "authorize administration" org actor;
               member ← lockLocalMember org id provider; k member) s = (Ok b, s') ->
  activeOwner (db_tables s) org actor = true /\
  exists member s1 s2, localMember (db_tables s) org id provider = Some member /\
    db_tables s1 = db_tables s /\ k member s1 = (Ok b, s2) /\ db_tables s' = db_tables s2.
Proof.
  intros (s1 & s2 & E1 & _ & Hrun & E2 & _)%transaction_ok. rewrite <- E1.
  apply prog_bind_ok in Hrun as ([] & s3 & [E3 _]%serialize_ok & Hrun). rewrite <- E3.
  apply prog_bind_ok in Hrun as ([] & s4 & [Hown [E4 _]]%authorizeActiveOwner_ok & Hrun). rewrite <- E4 in Hown |- *.
  apply prog_bind_ok in Hrun as (member & s5 & [Hmem [E5 _]]%lockLocalMember_ok & Hrun).
  split; [done|]. by exists member, s5, s2.
Qed.

Definition with_sessions_ended (id : IdentityId) (now : Instant) : Deployment.t -> Deployment.t :=
  with_sessions (fmap (revokeRow id now)).

Lemma closing_ok id now event key type s s' :
  (_ ← revokeMemberSessions id now; appendAdministrationRecords event key type) s = (Ok tt, s') ->
  quiet (with_sessions_ended id now (db_tables s)) (db_tables s').
Proof.
  intros ([] & s1 & He & Hrun)%prog_bind_ok. apply execute_ok in He as (t & [= <-] & ->).
  match type of Hrun with _ ?x = _ => pose proof (quiet_appendAdministrationRecords event key type x) as Hq end.
  by rewrite Hrun in Hq.
Qed.

(** The tables a replacement of roles leaves, without the logs. *)
Definition with_roles_replaced (c : MemberRoleReplacement.t) t : Deployment.t :=
  let org := MemberRoleReplacement.m_organizationId c in
  let id := MemberRoleReplacement.m_identityId c in
  with_sessions_ended id (MemberRoleReplacement.m_occurredAt c)
    (with_membership_roles (union (list_to_set (pair (org, id) <$> MemberRoleReplacement.m_roles c)))
      (deleteRoles org id t).2).

Lemma replaceRoles_ok actor c s s' :
  replaceRoles r actor c s = (Ok tt, s') ->
  let org := MemberRoleReplacement.m_organizationId c in
  let id := MemberRoleReplacement.m_identityId c in
  activeOwner (db_tables s) org actor = true /\
  (exists member, localMember (db_tables s) org id (m_provider r) = Some member /\
     member.1 <> MembershipState.Removed /\
     (member.1 = MembershipState.Active -> member.2 = true ->
      owner_role ∉ MemberRoleReplacement.m_roles c -> (1 < countActiveOwners (db_tables s) org)%nat)) /\
  quiet (with_roles_replaced c (db_tables s)) (db_tables s').
Proof.
  intros Hrun org id. unfold replaceRoles in Hrun. branch Hrun Ha; [done|].
  apply prog_bind_ok in Hrun as (event & s0 & [[E0 _] _]%administrationEvent_ok & Hrun).
  apply guarded_ok in Hrun as (Hown & member & s1 & s2 & Hmem & E1 & Hrun & ->). rewrite E0 in *.
  apply prog_bind_ok in Hrun as ([] & s6 & Hp & Hrun). apply precondition_ok in Hp as [Hst ->].
  apply prog_bind_ok in Hrun as ([] & s7 & [Hkeep [E7 _]]%keepAnOwner_ok & Hrun). rewrite E1 in *.
  apply prog_bind_ok in Hrun as ([] & s8 & He & Hrun). apply execute_ok in He as (t & [= <-] & ->). rewrite E7 in Hrun.
  apply prog_bind_ok in Hrun as ([] & s9 & E9%insertRoles_ok & Hrun%closing_ok). rewrite E9 in Hrun.
  split; [done|]. split; [|done]. exists member. split; [done|].
  apply negb_true_iff, bool_decide_eq_false in Hst. split; [done|]. intros H1 H2 Hno. apply Hkeep; [done..|].
  apply negb_true_iff, not_true_iff_false. rewrite existsb_exists. intros (role & Hin & Hname).
  apply bool_decide_eq_true in Hname. apply Hno. apply list_elem_of_In in Hin. destruct role. cbn in Hname. by subst.
Qed.

(** The tables a change of lifecycle leaves, without the logs. *)
Definition with_lifecycle_changed (c : MemberLifecycleChange.t) (next : MembershipState.t) t : Deployment.t :=
  let org := MemberLifecycleChange.m_organizationId c in
  let id := MemberLifecycleChange.m_identityId c in
  let changed := (setMembershipState org id next t).2 in
  with_sessions_ended id (MemberLifecycleChange.m_occurredAt c)
    (if bool_decide (next = MembershipState.Removed) then (deleteRoles org id changed).2 else changed).

Lemma changeLifecycle_ok actor c s s' :
  changeLifecycle r actor c s = (Ok tt, s') ->
  let org := MemberLifecycleChange.m_organizationId c in
  let id := MemberLifecycleChange.m_identityId c in
  activeOwner (db_tables s) org actor = true /\
  exists member next, localMember (db_tables s) org id (m_provider r) = Some member /\
    nextState (MemberLifecycleChange.m_action c) member.1 = Ok next /\
    (member.1 = MembershipState.Active -> member.2 = true -> (1 < countActiveOwners (db_tables s) org)%nat) /\
    quiet (with_lifecycle_changed c next (db_tables s)) (db_tables s').
Proof.
  intros Hrun org id. unfold changeLifecycle in Hrun. branch Hrun Ha; [done|].
  apply prog_bind_ok in Hrun as (event & s0 & [[E0 _] _]%administrationEvent_ok & Hrun).
  apply guarded_ok in Hrun as (Hown & member & s1 & s2 & Hmem & E1 & Hrun & ->). rewrite E0 in *.
  apply prog_bind_ok in Hrun as (next & s6 & Hn & Hrun). apply lift_ok in Hn as [Hn ->].
  apply prog_bind_ok in Hrun as ([] & s7 & [Hkeep [E7 _]]%keepAnOwner_ok & Hrun). rewrite E1 in *.
  apply prog_bind_ok in Hrun as ([] & s8 & He & Hrun). apply execute_ok in He as (t & [= <-] & ->). rewrite E7 in Hrun.
  apply prog_bind_ok in Hrun as ([] & s9 & Hd & Hrun%closing_ok).
  split; [done|]. exists member, next. split_and!; [done|done| |].
  - intros H1 H2. apply Hkeep; [done..|]. apply negb_true_iff, bool_decide_eq_false. intros E.
    rewrite E, H1 in Hn. done.
  - unfold with_lifecycle_changed. destruct (bool_decide (next = MembershipState.Removed)).
    + apply execute_ok in Hd as (t & [= <-] & ->). done.
    + by injection Hd as <-.
Qed.

(** The tables a reset of credentials leaves, without the logs. *)
Definition with_credentials_reset (c : LocalCredentialReset.t) (hash : PasswordHash.t) (seed : list byte) t : Deployment.t :=
  let id := LocalCredentialReset.m_identityId c in
  let now := LocalCredentialReset.m_occurredAt c in
  with_sessions_ended id now
    (deleteRecoveryCodes id
       (with_totp_credentials (alter (fun _ => TotpRow.mk seed (m_keyVersion r) None now) id)
          (resetPassword id hash now t).2)).2.

Lemma resetCredentials_ok actor c s s' :
  resetCredentials r actor c s = (Ok tt, s') ->
  let org := LocalCredentialReset.m_organizationId c in
  let id := LocalCredentialReset.m_identityId c in
  activeOwner (db_tables s) org actor = true /\
  exists owner hash seed,
    localMember (db_tables s) org id (m_provider r) = Some (MembershipState.Active, owner) /\
    is_Some (password_credentials (db_tables s) !! id) /\ is_Some (totp_credentials (db_tables s) !! id) /\
    (exists w w', PasswordHasher.hash (m_passwordHasher r) (LocalCredentialReset.m_generatedPassword c) w = (Ok hash, w')) /\
    (exists w w', sealAes256Gcm (m_totpKey r) (TotpSecret.bytes (LocalCredentialReset.m_generatedTotp c))
                    ("openproof/totp/v1:" +:+ id_value id) w = (Ok seed, w')) /\
    quiet (with_credentials_reset c hash seed (db_tables s)) (db_tables s').
Proof.
  intros Hrun org id. unfold resetCredentials in Hrun. branch Hrun Ha; [done|].
  apply prog_bind_ok in Hrun as (hash & s01 & Hh & Hrun). apply prog_bind_ok in Hrun as (seed & s02 & Hs & Hrun).
  unfold hashPassword, sealTotp in *. pose proof Hh as [Eh _]%on_platform_ok. pose proof Hs as [Es _]%on_platform_ok.
  apply zoom_eq in Hh as (w & Hh & _). apply zoom_eq in Hs as (w' & Hs & _).
  apply prog_bind_ok in Hrun as (event & s0 & [[E0 _] _]%administrationEvent_ok & Hrun). rewrite Es, Eh in E0.
  apply guarded_ok in Hrun as (Hown & [mstate owner] & s1 & s2 & Hmem & E1 & Hrun & ->). rewrite E0 in *.
  apply prog_bind_ok in Hrun as ([] & s6 & Hp & Hrun). apply precondition_ok in Hp as [Hst ->].
  apply bool_decide_eq_true in Hst. cbn in Hst. subst mstate.
  apply prog_bind_ok in Hrun as (n1 & s7 & He & Hrun). apply execute_ok in He as (t1 & [= <- <-] & ->).
  apply prog_bind_ok in Hrun as (n2 & s8 & He & Hrun). apply execute_ok in He as (t2 & Ht & ->).
  unfold resetTotp in Ht. branch Ht Hfit; [done|]. injection Ht as <- <-.
  apply prog_bind_ok in Hrun as ([] & s9 & Hp & Hrun). apply precondition_ok in Hp as [Hcount ->].
  apply prog_bind_ok in Hrun as ([] & s10 & He & Hrun%closing_ok). apply execute_ok in He as (t3 & [= <-] & ->).
  cbn [db_tables with_tables count_request] in *. rewrite E1 in *.
  split; [done|]. exists owner, hash, seed. apply andb_true_iff in Hcount as [Hc1 Hc2]. cbn in Hc2.
  destruct (bool_decide _) eqn:Hpw in Hc1; [|done]. destruct (bool_decide _) eqn:Htotp in Hc2; [|done].
  apply bool_decide_eq_true in Hpw, Htotp.
  split_and!; [done|done|done|by eexists _, _|by eexists _, _|done].
Qed.

(** *** All or nothing *)

(** What fails leaves the tables as they were. *)
Definition atomic {B} (m : session B) : Prop :=
  forall s, is_ok (m s).1 = false -> db_tables (m s).2 = db_tables s.

Lemma atomic_bind {C B} (m : session C) (k : C -> session B) :
  advances (tables_along eq) m -> (forall c, atomic (k c)) -> atomic (m ≫= k).
Proof.
  intros Hm Hk s. specialize (Hm s). unfold mbind, prog_bind. unfold tables_along in Hm.
  destruct (m s) as [[c|e|] s1]; cbn in *; [|by intros _..]. intros Hr. rewrite Hm. by apply Hk.
Qed.

Lemma atomic_transaction {B} (body : session B) : atomic (transaction body).
Proof. intros s Hr. destruct (transaction body s) as [x s'] eqn:E. by eapply transaction_not_ok. Qed.

Lemma atomic_throw {B} e : atomic (throw (A:=B) e).
Proof. by intros s _. Qed.

Ltac settle :=
  repeat first
  [ progress cbn zeta
  | match goal with
    | |- forall _, atomic _ => intros ?
    | |- atomic (transaction _) => apply atomic_transaction
    | |- atomic (throw _) => apply atomic_throw
    | |- atomic (if ?c then _ else _) => destruct c
    | |- atomic (_ ≫= _) => apply atomic_bind; [by stride|]
    end ].

Lemma member_op_atomic o : atomic (run_member_op o).
Proof.
  destruct o; cbn [run_member_op]; unfold provision, replaceRoles, changeLifecycle, resetCredentials; opened; settle.
Qed.

Lemma initialize_atomic a : atomic (initialize r a).
Proof. unfold initialize; opened; settle. Qed.

Lemma repair_atomic org id now : atomic (repairInitialOwnerMembership r org id now).
Proof. unfold repairInitialOwnerMembership; opened; settle. Qed.

(** *** References *)

Definition keeps_references t t' : Prop := referential t -> referential t'.

#[local] Instance keeps_references_preorder : PreOrder keeps_references.
Proof. split; [by intros t ?|]. unfold keeps_references. intros t1 t2 t3. auto. Qed.

(** What a change may not take away. *)
Lemma references_kept t t' :
  (forall org, is_Some (organizations t !! org) -> is_Some (organizations t' !! org)) ->
  (forall org id, belongs t org id = true -> belongs t' org id = true) ->
  (forall org id, is_Some (memberships t !! (org, id)) -> is_Some (memberships t' !! (org, id))) ->
  (forall id row, identities t' !! id = Some row -> identities t !! id = Some row \/
     is_Some (organizations t' !! InMemoryIdentityRepository.organization row)) ->
  (forall org id, is_Some (memberships t' !! (org, id)) -> is_Some (memberships t !! (org, id)) \/ belongs t' org id = true) ->
  (forall org id role, (org, id, role) ∈ membership_roles t' ->
     (org, id, role) ∈ membership_roles t \/ is_Some (memberships t' !! (org, id))) ->
  keeps_references t t'.
Proof.
  intros Ho Hb Hm Hid Hmem Hrole Ht. split.
  - intros org id [Hold|]%Hmem; [|done]. by apply Hb, (ref_membership _ Ht).
  - intros org id role [Hold|]%Hrole; [|done]. by eapply Hm, (ref_role _ Ht).
  - intros id row [Hold|]%Hid; [|done]. by eapply Ho, (ref_identity _ Ht).
Qed.

Lemma keeps_references_insertOrganization op o t : keeps_references t (insertOrganization op o t).2.
Proof.
  unfold insertOrganization. edestruct insertion_effect as [->|(_ & _ & ->)]; [by intros ?|].
  apply references_kept; cbn; auto. intros org Horg. rewrite lookup_insert_is_Some'. auto.
Qed.

Lemma keeps_references_insertIdentity op org i t : keeps_references t (insertIdentity op org i t).2.
Proof.
  unfold insertIdentity. edestruct insertion_effect as [->|(Hp & Hr & ->)]; [by intros ?|].
  apply bool_decide_eq_false in Hp. apply bool_decide_eq_true in Hr.
  apply references_kept; cbn; auto.
  - intros o id. rewrite !belongs_spec. cbn. intros (row & Hrow & Ho). exists row. split; [|done].
    rewrite lookup_insert_ne; [done|]. intros <-. by apply Hp.
  - intros id row [[<- <-]|[_ ?]]%lookup_insert_Some; [by right|by left].
Qed.

Lemma keeps_references_insertMembership op org id state at_ t :
  keeps_references t (insertMembership op org id state at_ t).2.
Proof.
  unfold insertMembership. edestruct insertion_effect as [->|(_ & Hr & ->)]; [by intros ?|].
  apply references_kept; cbn; auto.
  - intros o i Hi. rewrite lookup_insert_is_Some'. auto.
  - intros o i. rewrite lookup_insert_is_Some'. intros [[= <- <-]|?]; [by right|by left].
Qed.

Lemma keeps_references_insertRole op org id role t : keeps_references t (insertRole op org id role t).2.
Proof.
  unfold insertRole. edestruct insertion_effect as [->|(_ & Hr & ->)]; [by intros ?|].
  apply bool_decide_eq_true in Hr. apply references_kept; cbn; auto.
  intros o i role' [[= -> -> ->]%elem_of_singleton|?]%elem_of_union; [by right|by left].
Qed.

Lemma keeps_references_deleteRoles org id t : keeps_references t (deleteRoles org id t).2.
Proof. apply references_kept; cbn; auto. intros o i role [_ ?]%elem_of_filter. by left. Qed.

Lemma keeps_references_setMembershipState org id state t : keeps_references t (setMembershipState org id state t).2.
Proof.
  apply references_kept; cbn; auto; intros o i; rewrite lookup_alter_is_Some; auto.
Qed.

(** The tables of the keys and references are the same. *)
Definition same_keys t t' : Prop :=
  organizations t' = organizations t /\ identities t' = identities t /\ memberships t' = memberships t /\
  membership_roles t' = membership_roles t.

Lemma keeps_references_same t t' : same_keys t t' -> keeps_references t t'.
Proof.
  intros (Ho & Hi & Hm & Hr). assert (forall o i, belongs t' o i = belongs t o i) as Hb.
  { intros o i. unfold belongs. by rewrite Hi. }
  apply references_kept; rewrite ?Ho, ?Hi, ?Hm, ?Hr; auto. intros o i. by rewrite Hb.
Qed.

Lemma same_keys_insertion op present referenced insert t :
  (forall u, same_keys u (insert u)) -> same_keys t (insertion op present referenced insert t).2.
Proof. intros Hq. by edestruct insertion_effect as [->|(_ & _ & ->)]. Qed.

Lemma same_keys_insertTotp op id seed version at_ t : same_keys t (insertTotp op id seed version at_ t).2.
Proof. by edestruct insertTotp_effect as [->|[_ ->]]. Qed.

Lemma same_keys_resetTotp op id seed version now t : same_keys t (resetTotp op id seed version now t).2.
Proof. unfold resetTotp. by destruct (negb _). Qed.

Lemma references_insertRoles op org id roles : advances (tables_along keeps_references) (insertRoles op org id roles).
Proof.
  induction roles as [|role roles IH]; cbn [insertRoles]; stride; [apply keeps_references_insertRole|done].
Qed.

Lemma references_logs :
  (forall h a sl event key, advances (tables_along keeps_references) (appendChained h a sl event key)) /\
  (forall event type actor severity,
     advances (tables_along keeps_references) (appendSecurityRecord event type actor severity)).
Proof.
  unfold appendChained, appendSecurityRecord. split; intros; stride; apply keeps_references_same;
    first [by apply same_keys_insertion|done].
Qed.

#[local] Hint Resolve keeps_references_insertOrganization keeps_references_insertIdentity
  keeps_references_insertMembership keeps_references_insertRole keeps_references_deleteRoles
  keeps_references_setMembershipState references_insertRoles same_keys_insertTotp same_keys_resetTotp : references.

Ltac referenced := first
  [ apply references_logs
  | solve [auto with references]
  | apply keeps_references_same; first [by apply same_keys_insertion | solve [auto with references] | done] ].

(** The operations of administration. *)
Inductive admin_op :=
  | Initialize (administrator : InitialAdministrator.t)
  | Repair (organization : OrganizationId) (identity : IdentityId) (now : Instant)
  | OnMember (o : member_op).

Definition run_admin_op (o : admin_op) : session unit :=
  match o with
  | Initialize a => initialize r a
  | Repair org id now => repairInitialOwnerMembership r org id now
  | OnMember o => run_member_op o
  end.

Lemma admin_op_references o : advances (tables_along keeps_references) (run_admin_op o).
Proof.
  destruct o as [a|org id now|[]]; cbn [run_admin_op run_member_op];
    unfold initialize, repairInitialOwnerMembership, provision, replaceRoles, changeLifecycle, resetCredentials,
      insertMember, appendAdministrationRecords, appendAuditRecord, serialize; opened; unfold serialize; stride; referenced.
Qed.

Lemma admin_op_atomic o : atomic (run_admin_op o).
Proof. destruct o; [apply initialize_atomic|apply repair_atomic|apply member_op_atomic]. Qed.
End operations.
