(* ===== verification/AdministrationProperties.v ===== *)
(** * openproof.storage.postgres: the properties of administration

    Ownership, authorization, effects and the audit chain, for any sequence of
    operations and whatever request the server fails, from the lemmas of the
    file AdministrationSafety; and a run on concrete tables. *)
From S2P Require Import Prelude Foundation Json Database Encoding Security Aead IdentityCore Provider Link Organizations Session SessionService Policy Credentials AuditLog Administration Deployment AdministrationStore AdministrationSafety.
Import PostgresAdministrationRepository.
Import Deployment(organizations, identities, external_identities, memberships, membership_roles,
  password_credentials, totp_credentials, recovery_codes, sessions, audit_events, security_event_outbox,
  with_organizations, with_identities, with_external_identities, with_memberships, with_membership_roles,
  with_password_credentials, with_totp_credentials, with_recovery_codes, with_sessions, with_audit_events,
  with_security_event_outbox).
Import InMemoryAuditRepository(verifyFrom).

Implicit Types t : Deployment.t.

(** ** Owners *)

(** The organization has an active owner. *)
Definition owned t (org : OrganizationId) : Prop := exists id, activeOwner t org id = true.

Lemma activeOwner_quiet t t' org id : quiet t t' -> activeOwner t' org id = activeOwner t org id.
Proof.
  unfold quiet. change (business t' = business t -> activeOwner (business t') org id = activeOwner (business t) org id).
  by intros ->.
Qed.

Lemma count_another t org id :
  (1 < countActiveOwners t org)%nat ->
  exists i, i <> id /\ membership_is_active t org i = true /\ identity_is_active t i = true /\
    (org, i, owner_role) ∈ membership_roles t.
Proof.
  unfold countActiveOwners. set (X := filter _ _). intros Hsize.
  assert (X ∖ {[ (org, id, owner_role) ]} ≢ ∅) as Hne.
  { intros E. apply size_empty_iff in E. pose proof (size_difference_alt X {[ (org, id, owner_role) ]}) as Hd.
    assert (base.size (X ∩ {[ (org, id, owner_role) ]}) <= 1)%nat.
    { rewrite <- (size_singleton (C:=gset _) (org, id, owner_role)). apply subseteq_size. set_solver. }
    lia. }
  apply set_choose in Hne as [[[o i] role] Hin]. apply elem_of_difference in Hin as [Hin Hne].
  unfold X in Hin. apply elem_of_filter in Hin as [(Ho & Hr & Hm & Hi) Hin]. cbn in *. subst o role.
  exists i. split_and!; [|done..]. intros ->. by apply Hne, elem_of_singleton.
Qed.

(** A change to one member, which stays an owner or is not the last. *)
Record demotes (org : OrganizationId) (id : IdentityId) t t' : Prop := {
  demotes_organizations : organizations t' = organizations t;
  demotes_identities : identities t' = identities t;
  demotes_memberships o i : o <> org \/ i <> id -> memberships t' !! (o, i) = memberships t !! (o, i);
  demotes_roles o i role :
    o <> org \/ i <> id -> (o, i, role) ∈ membership_roles t' <-> (o, i, role) ∈ membership_roles t;
}.

Lemma demotes_about org id t t' :
  about org id t t' -> identities t' = identities t -> demotes org id t t'.
Proof. intros [] Hi. by split. Qed.

Lemma activeOwner_demotes org id t t' o i :
  demotes org id t t' -> o <> org \/ i <> id -> activeOwner t' o i = activeOwner t o i.
Proof.
  intros [Ho Hi Hm Hr] Hne.
  assert (organization_is_active t' o = organization_is_active t o) as E1 by (unfold organization_is_active; by rewrite Ho).
  assert (belongs t' o i = belongs t o i) as E2 by (unfold belongs; by rewrite Hi).
  assert (identity_is_active t' i = identity_is_active t i) as E3 by (unfold identity_is_active; by rewrite Hi).
  assert (membership_is_active t' o i = membership_is_active t o i) as E4 by (unfold membership_is_active; by rewrite Hm).
  unfold activeOwner. rewrite E1, E2, E3, E4. f_equal. by apply bool_decide_ext, Hr.
Qed.

Lemma demotes_keeps_owners org id t t' :
  referential t -> demotes org id t t' ->
  (activeOwner t org id = true -> activeOwner t' org id = true \/ (1 < countActiveOwners t org)%nat) ->
  forall o, owned t o -> owned t' o.
Proof.
  intros Hrefs Hd Hlast o [x Hx].
  destruct (decide (o = org)) as [->|Ho].
  2: { exists x. erewrite activeOwner_demotes; [done|done|by left]. }
  destruct (decide (x = id)) as [->|Hi].
  2: { exists x. erewrite activeOwner_demotes; [done|done|by right]. }
  destruct (Hlast Hx) as [Hstay|Hcount]; [by exists id|].
  destruct (count_another t org id Hcount) as (i & Hne & Hm & Hact & Hrole).
  exists i. erewrite activeOwner_demotes; [|done|by right]. apply activeOwner_spec in Hx as (Horg & _).
  apply activeOwner_spec. split_and!; try done. apply (ref_membership _ Hrefs).
  apply membership_is_active_spec in Hm as (row & -> & _). by eexists.
Qed.

Lemma localMember_owner t org id provider member :
  localMember t org id provider = Some member -> activeOwner t org id = true ->
  member.1 = MembershipState.Active /\ member.2 = true.
Proof.
  unfold localMember. intros Hm (_ & _ & _ & Hact & Hrole)%activeOwner_spec.
  destruct (_ && _ && _); [|done]. apply membership_is_active_spec in Hact as (row & Hrow & Hst).
  rewrite Hrow in Hm. injection Hm as <-. cbn. split; [done|]. by apply bool_decide_eq_true.
Qed.

Section owners.
Context `{Plat : Platform} `{Cred : !CredentialPlatform} {A : AeadPlatform} `{Db : Database}.
Context (r : PostgresAdministrationRepository.t).
Abbreviation state := (database Deployment.t world).

(** The state an operation leaves. *)
Definition admin_step (o : admin_op) (s : state) : state := (run_admin_op r o s).2.

Lemma initialize_ok a s s' :
  initialize r a s = (Ok tt, s') -> base.size (organizations (db_tables s)) = 0%nat.
Proof.
  unfold initialize. intros Hrun. cbn zeta in Hrun. branch Hrun Hc; [done|].
  apply prog_bind_ok in Hrun as (hash & s1 & [E1 _]%on_platform_ok & Hrun).
  apply prog_bind_ok in Hrun as (seed & s2 & [E2 _]%on_platform_ok & Hrun).
  apply prog_bind_ok in Hrun as (token & s3 & [E3 _]%on_platform_ok & Hrun).
  apply prog_bind_ok in Hrun as (event & s4 & [_ ->]%lift_ok & Hrun).
  apply transaction_ok in Hrun as (s5 & s6 & E5 & _ & Hrun & _).
  apply prog_bind_ok in Hrun as ([] & s7 & [E7 _]%serialize_ok & Hrun).
  apply prog_bind_ok in Hrun as (n & s8 & Hread & Hrun). apply select_ok in Hread as [-> ->].
  branch Hrun Hn; [done|]. apply negb_false_iff, Nat.eqb_eq in Hn. congruence.
Qed.

Lemma repair_ok org id now s s' :
  repairInitialOwnerMembership r org id now s = (Ok tt, s') -> base.size (memberships (db_tables s)) = 0%nat.
Proof.
  unfold repairInitialOwnerMembership. intros Hrun. branch Hrun Hc; [done|].
  apply prog_bind_ok in Hrun as (event & s1 & [[E1 _] _]%administrationEvent_ok & Hrun).
  apply transaction_ok in Hrun as (s2 & s3 & E2 & _ & Hrun & _).
  apply prog_bind_ok in Hrun as ([] & s4 & [E4 _]%serialize_ok & Hrun).
  apply prog_bind_ok in Hrun as (n1 & s5 & Hread & Hrun). apply select_ok in Hread as [-> ->].
  apply prog_bind_ok in Hrun as ([] & s6 & Hp & Hrun). apply precondition_ok in Hp as [_ ->].
  apply prog_bind_ok in Hrun as (n2 & s7 & Hread & Hrun). apply select_ok in Hread as [-> ->].
  apply prog_bind_ok in Hrun as ([] & s8 & Hp & Hrun). apply precondition_ok in Hp as [_ ->].
  apply prog_bind_ok in Hrun as (n3 & s9 & Hread & Hrun). apply select_ok in Hread as [-> ->].
  apply prog_bind_ok in Hrun as (n4 & s10 & Hread & Hrun). apply select_ok in Hread as [-> ->].
  apply prog_bind_ok in Hrun as (n5 & s11 & Hread & Hrun). apply select_ok in Hread as [-> ->].
  apply prog_bind_ok in Hrun as ([] & s12 & Hp & _). apply precondition_ok in Hp as [Hn _].
  rewrite !andb_true_iff, !Nat.eqb_eq in Hn. destruct Hn as [[Hn _] _]. cbn in Hn. congruence.
Qed.

Lemma grows_insertion op present referenced insert t :
  (forall u, present u = false -> grows u (insert u)) -> grows t (insertion op present referenced insert t).2.
Proof. intros Hg. edestruct insertion_effect as [->|(Hp & _ & ->)]; [done|by apply Hg]. Qed.

Lemma grows_same_keys t t' : same_keys t t' -> grows t t'.
Proof. intros (Ho & Hi & Hm & Hr). split; by rewrite ?Ho, ?Hi, ?Hm, ?Hr. Qed.

Lemma grows_insertIdentity op org i t : grows t (insertIdentity op org i t).2.
Proof.
  apply grows_insertion. intros u Hp. apply bool_decide_eq_false in Hp. rewrite <- eq_None_not_Some in Hp.
  split; cbn; try done. by apply insert_subseteq.
Qed.

Lemma grows_insertMembership op org id mstate at_ t : grows t (insertMembership op org id mstate at_ t).2.
Proof.
  apply grows_insertion. intros u Hp. apply bool_decide_eq_false in Hp. rewrite <- eq_None_not_Some in Hp.
  split; cbn; try done. by apply insert_subseteq.
Qed.

Lemma grows_insertRole op org id role t : grows t (insertRole op org id role t).2.
Proof. apply grows_insertion. intros u _. split; cbn; try done. set_solver. Qed.

Lemma grows_insertRoles op org id roles : advances (tables_along grows) (insertRoles op org id roles).
Proof. induction roles as [|role roles IH]; cbn [insertRoles]; stride; [apply grows_insertRole|done]. Qed.

Lemma provision_grows actor e : advances (tables_along grows) (provision r actor e).
Proof.
  unfold provision, insertMember, hashPassword, sealTotp, serialize, authorizeActiveOwner, appendChained. stride;
    first [ apply grows_insertIdentity | apply grows_insertMembership | apply grows_insertRoles
          | apply grows_same_keys; first [by apply same_keys_insertion | by apply same_keys_insertTotp | done] ].
Qed.

Lemma quiet_owned t t' org : quiet t t' -> owned t org -> owned t' org.
Proof. intros Hq [x Hx]. exists x. by rewrite (activeOwner_quiet _ _ _ _ Hq). Qed.

(** The tables that say who is an owner, after each operation. *)
Lemma replaced_demotes c t :
  demotes (MemberRoleReplacement.m_organizationId c) (MemberRoleReplacement.m_identityId c) t (with_roles_replaced c t).
Proof.
  split; cbn; try done. intros o i role Hne. rewrite elem_of_union, elem_of_list_to_set, elem_of_filter. cbn. split.
  - intros [(role' & E & _)%list_elem_of_fmap|[_ ?]]; [|done]. injection E as -> -> ->. tauto.
  - intros Hin. right. split; [|done]. intros [-> ->]. tauto.
Qed.

Lemma changed_demotes c next t :
  demotes (MemberLifecycleChange.m_organizationId c) (MemberLifecycleChange.m_identityId c) t
    (with_lifecycle_changed c next t).
Proof.
  unfold with_lifecycle_changed. case_bool_decide; split; cbn; try done; intros o i; intros.
  - by apply lookup_alter_ne, pair_ne.
  - rewrite elem_of_filter. cbn. split; [by intros [_ ?]|]. intros Hin. split; [|done]. intros [-> ->]. tauto.
  - by apply lookup_alter_ne, pair_ne.
Qed.

Lemma replaced_stays c t member :
  localMember t (MemberRoleReplacement.m_organizationId c) (MemberRoleReplacement.m_identityId c) (m_provider r)
    = Some member ->
  (member.1 = MembershipState.Active -> member.2 = true -> owner_role ∉ MemberRoleReplacement.m_roles c ->
   (1 < countActiveOwners t (MemberRoleReplacement.m_organizationId c))%nat) ->
  let org := MemberRoleReplacement.m_organizationId c in
  let id := MemberRoleReplacement.m_identityId c in
  activeOwner t org id = true ->
  activeOwner (with_roles_replaced c t) org id = true \/ (1 < countActiveOwners t org)%nat.
Proof.
  intros Hmem Hkeep org id Hown. destruct (localMember_owner _ _ _ _ _ Hmem Hown) as [Hst Hrole].
  destruct (decide (owner_role ∈ MemberRoleReplacement.m_roles c)) as [Hin|Hout]; [left|right; by apply Hkeep].
  apply activeOwner_spec in Hown as (H1 & H2 & H3 & H4 & _). apply activeOwner_spec. split_and!; [done..|].
  cbn. rewrite elem_of_union, elem_of_list_to_set. left. by apply list_elem_of_fmap_2.
Qed.

Lemma member_op_keeps_owners o s s' :
  run_member_op r o s = (Ok tt, s') -> referential (db_tables s) ->
  forall org, owned (db_tables s) org -> owned (db_tables s') org.
Proof.
  intros Hrun Hrefs. destruct o as [actor e|actor c|actor c|actor c]; cbn [run_member_op] in Hrun.
  - intros org [x Hx]. exists x. eapply activeOwner_grows; [|exact Hx].
    pose proof (provision_grows actor e s) as Hg. unfold tables_along in Hg. by rewrite Hrun in Hg.
  - apply replaceRoles_ok in Hrun as (_ & (member & Hmem & _ & Hkeep) & Hq). intros org Hown.
    eapply quiet_owned, demotes_keeps_owners; [exact Hq|done|apply replaced_demotes| |done].
    by eapply replaced_stays.
  - apply changeLifecycle_ok in Hrun as (_ & member & next & Hmem & _ & Hkeep & Hq). intros org Hown.
    eapply quiet_owned, demotes_keeps_owners; [exact Hq|done|apply changed_demotes| |done].
    intros Hx. right. destruct (localMember_owner _ _ _ _ _ Hmem Hx). by apply Hkeep.
  - apply resetCredentials_ok in Hrun as (_ & owner & hash & seed & _ & _ & _ & _ & _ & Hq). intros org Hown.
    by eapply quiet_owned.
Qed.

(** C6: An organization never loses its last active owner. On tables whose keys and
    references hold, any sequence of initializations, repairs, enrollments, role
    replacements, changes of lifecycle and credential resets, by whomever and
    whatever request the server fails, keeps the keys and references and leaves
    an active owner to every organization that had one. *)
Theorem administration_keeps_an_owner os s :
  referential (db_tables s) ->
  let s' := foldl (fun s o => admin_step o s) s os in
  referential (db_tables s') /\ forall org, owned (db_tables s) org -> owned (db_tables s') org.
Proof.
  revert s. induction os as [|o os IH]; intros s Hs; cbn [foldl]; [done|].
  assert (referential (db_tables (admin_step o s))) as Hs1 by (by apply (admin_op_references r o s)).
  destruct (IH _ Hs1) as [Hs' Hkeep]. split; [done|]. intros org Hown. apply Hkeep. unfold admin_step.
  destruct (run_admin_op r o s) as [[[]|e|] s1] eqn:Hrun; cbn.
  2,3: pose proof (admin_op_atomic r o s) as Ha; rewrite Hrun in Ha; cbn in Ha; by rewrite Ha.
  destruct o as [a|o id now|o]; cbn [run_admin_op] in Hrun.
  - apply initialize_ok in Hrun. apply map_size_empty_inv in Hrun. destruct Hown as [x Hx].
    apply activeOwner_spec in Hx as (Horg & _). apply organization_is_active_spec in Horg as (row & Hrow & _).
    by rewrite Hrun, lookup_empty in Hrow.
  - apply repair_ok in Hrun. apply map_size_empty_inv in Hrun. destruct Hown as [x Hx].
    apply activeOwner_spec in Hx as (_ & _ & _ & Hm & _). apply membership_is_active_spec in Hm as (row & Hrow & _).
    by rewrite Hrun, lookup_empty in Hrow.
  - by eapply member_op_keeps_owners.
Qed.

(** ** Authorization *)

Lemma provision_authorized actor e s s' :
  provision r actor e s = (Ok tt, s') ->
  activeOwner (db_tables s) (LocalMemberEnrollment.m_organizationId e) actor = true.
Proof.
  unfold provision. intros Hrun. cbn zeta in Hrun. branch Hrun Hc; [done|].
  apply prog_bind_ok in Hrun as (hash & s1 & [E1 _]%on_platform_ok & Hrun).
  apply prog_bind_ok in Hrun as (seed & s2 & [E2 _]%on_platform_ok & Hrun).
  apply prog_bind_ok in Hrun as (token & s3 & [E3 _]%on_platform_ok & Hrun).
  apply prog_bind_ok in Hrun as (event & s4 & [_ ->]%lift_ok & Hrun).
  apply transaction_ok in Hrun as (s5 & s6 & E5 & _ & Hrun & _).
  apply prog_bind_ok in Hrun as ([] & s7 & [E7 _]%serialize_ok & Hrun).
  apply prog_bind_ok in Hrun as ([] & s8 & [Hown _]%authorizeActiveOwner_ok & _). congruence.
Qed.

Lemma member_op_authorized o s s' :
  run_member_op r o s = (Ok tt, s') -> activeOwner (db_tables s) (op_organization o) (op_actor o) = true.
Proof.
  destruct o as [actor e|actor c|actor c|actor c]; cbn [run_member_op op_organization op_actor].
  - apply provision_authorized.
  - by intros [? _]%replaceRoles_ok.
  - by intros [? _]%changeLifecycle_ok.
  - by intros [? _]%resetCredentials_ok.
Qed.

(** C7: Only an active owner changes anything, and only the member it names. When an
    operation on a member leaves any table different, it succeeded and its actor
    was an active owner of that organization when it ran; and whether it
    succeeds or fails, organizations and every other identity, membership, role,
    credential, link and session are as before. *)
Theorem member_changes_are_authorized o s :
  about (op_organization o) (op_member o) (db_tables s) (db_tables (run_member_op r o s).2) /\
  (db_tables (run_member_op r o s).2 <> db_tables s ->
   activeOwner (db_tables s) (op_organization o) (op_actor o) = true /\ (run_member_op r o s).1 = Ok tt).
Proof.
  split; [apply (about_member_op r o s)|]. intros Hne. pose proof (member_op_atomic r o s) as Hatomic.
  destruct (run_member_op r o s) as [[[]|e|] s'] eqn:Hrun; cbn in *.
  - split; [by eapply member_op_authorized|done].
  - by rewrite Hatomic in Hne.
  - by rewrite Hatomic in Hne.
Qed.

(** ** Effects *)

Lemma ended_sessions id now t k s :
  sessions (with_sessions_ended id now t) !! k = Some s -> Session.identity s = id ->
  Session.state s <> SessionState.Active.
Proof.
  cbn. rewrite lookup_fmap_Some. intros (s0 & <- & _). rewrite revokeRow_identity. intros <-.
  unfold revokeRow. rewrite bool_decide_eq_true_2 by done. cbn [andb].
  case_bool_decide; [done|]. done.
Qed.

(** What a successful operation on an existing member means. *)
Definition takes_effect (o : member_op) t t' : Prop :=
  let org := op_organization o in
  let id := op_member o in
  match o with
  | Provision _ e =>
      exists hash seed linked,
        identities t !! id = None /\
        identities t' !! id = Some (InMemoryIdentityRepository.mkOwned org (LocalMemberEnrollment.m_identity e)) /\
        (exists invited, memberships t' !! (org, id) = Some (MembershipRow.mk MembershipState.Active invited)) /\
        (forall role, (org, id, role) ∈ membership_roles t' <-> role ∈ Membership.roles (LocalMemberEnrollment.m_membership e)) /\
        external_identities t' !! ExternalIdentityRef.key (IdentityLink.external (LocalMemberEnrollment.m_link e))
          = Some (ExternalIdentityRow.mk id linked) /\
        (exists changed, password_credentials t' !! id = Some (PasswordRow.mk (PasswordHash.encoded hash) changed)) /\
        (exists w w', PasswordHasher.hash (m_passwordHasher r) (LocalMemberEnrollment.m_generatedPassword e) w = (Ok hash, w')) /\
        (exists enrolled, totp_credentials t' !! id = Some (TotpRow.mk seed (m_keyVersion r) None enrolled)) /\
        openAes256Gcm (m_totpKey r) seed ("openproof/totp/v1:" +:+ id_value id)
          = Ok (TotpSecret.bytes (LocalMemberEnrollment.m_generatedTotp e))
  | ReplaceRoles _ c =>
      forall role, (org, id, role) ∈ membership_roles t' <-> role ∈ MemberRoleReplacement.m_roles c
  | ChangeLifecycle _ c =>
      exists row row', memberships t !! (org, id) = Some row /\ memberships t' !! (org, id) = Some row' /\
        nextState (MemberLifecycleChange.m_action c) (MembershipRow.state row) = Ok (MembershipRow.state row') /\
        (MemberLifecycleChange.m_action c = Administration.Remove ->
         forall role, (org, id, role) ∉ membership_roles t')
  | ResetCredentials _ c =>
      exists hash seed, password_credentials t' !! id
          = Some (PasswordRow.mk (PasswordHash.encoded hash) (LocalCredentialReset.m_occurredAt c)) /\
        (exists w w', PasswordHasher.hash (m_passwordHasher r) (LocalCredentialReset.m_generatedPassword c) w = (Ok hash, w')) /\
        totp_credentials t' !! id = Some (TotpRow.mk seed (m_keyVersion r) None (LocalCredentialReset.m_occurredAt c)) /\
        openAes256Gcm (m_totpKey r) seed ("openproof/totp/v1:" +:+ id_value id)
          = Ok (TotpSecret.bytes (LocalCredentialReset.m_generatedTotp c)) /\
        forall code, (id, code) ∉ recovery_codes t'
  end.

Lemma nextState_removed action state next :
  nextState action state = Ok next -> action = Administration.Remove -> next = MembershipState.Removed.
Proof. intros Hn ->. unfold nextState in Hn. branch Hn Hb; [done|]. by injection Hn as <-. Qed.

Lemma localMember_row t org id provider member :
  localMember t org id provider = Some member ->
  exists row, memberships t !! (org, id) = Some row /\ MembershipRow.state row = member.1.
Proof.
  unfold localMember. destruct (_ && _ && _); [|done]. destruct (memberships t !! (org, id)) as [row|]; [|done].
  intros [= <-]. by exists row.
Qed.

Lemma quiet_tables t t' : quiet t t' ->
  memberships t' = memberships t /\ membership_roles t' = membership_roles t /\ sessions t' = sessions t /\
  password_credentials t' = password_credentials t /\ totp_credentials t' = totp_credentials t /\
  recovery_codes t' = recovery_codes t /\ identities t' = identities t /\
  external_identities t' = external_identities t.
Proof.
  intros Hq. unfold quiet in Hq.
  change (memberships (business t') = memberships t /\ membership_roles (business t') = membership_roles t /\
    sessions (business t') = sessions t /\ password_credentials (business t') = password_credentials t /\
    totp_credentials (business t') = totp_credentials t /\ recovery_codes (business t') = recovery_codes t /\
    identities (business t') = identities t /\ external_identities (business t') = external_identities t).
  by rewrite Hq.
Qed.

(** What the statements of a new member leave. *)
Lemma insertMember_ok n1 n2 n3 n4 n5 n6 org i link membership hash seed s s' :
  insertMember r n1 n2 n3 n4 n5 n6 org i link membership hash seed s = (Ok tt, s') ->
  let id := Identity.id i in
  let created := Identity.createdAt i in
  identities (db_tables s) !! id = None /\
  db_tables s' =
    with_totp_credentials <[id := TotpRow.mk seed (m_keyVersion r) None created]>
      (with_password_credentials <[id := PasswordRow.mk (PasswordHash.encoded hash) created]>
        (with_membership_roles (union (list_to_set (pair (org, id) <$> Membership.roles membership)))
          (with_memberships <[(org, id) := MembershipRow.mk (Membership.state membership) (Membership.invitedAt membership)]>
            (with_external_identities
               <[ExternalIdentityRef.key (IdentityLink.external link) :=
                   ExternalIdentityRow.mk id (IdentityLink.requestedAt link)]>
               (with_identities <[id := InMemoryIdentityRepository.mkOwned org i]> (db_tables s)))))).
Proof.
  intros Hrun id created. unfold insertMember in Hrun. cbn zeta in Hrun. fold id created in Hrun.
  apply prog_bind_ok in Hrun as ([] & s1 & He & Hrun). apply execute_ok in He as (t1 & H1 & ->).
  unfold insertIdentity in H1. apply insertion_ok in H1 as (Hp & _ & ->). apply bool_decide_eq_false in Hp. rewrite <- eq_None_not_Some in Hp.
  apply prog_bind_ok in Hrun as ([] & s2 & He & Hrun). apply execute_ok in He as (t2 & H2 & ->).
  unfold insertExternalIdentity in H2. apply insertion_ok in H2 as (_ & _ & ->).
  apply prog_bind_ok in Hrun as ([] & s3 & He & Hrun). apply execute_ok in He as (t3 & H3 & ->).
  unfold insertMembership in H3. apply insertion_ok in H3 as (_ & _ & ->).
  apply prog_bind_ok in Hrun as ([] & s4 & E4%insertRoles_ok & Hrun).
  apply prog_bind_ok in Hrun as ([] & s5 & He & Hrun). apply execute_ok in He as (t5 & H5 & ->).
  unfold insertPassword in H5. apply insertion_ok in H5 as (_ & _ & ->). apply execute_ok in Hrun as (t6 & H6 & ->).
  unfold insertTotp in H6. branch H6 Hfit; [done|]. apply insertion_ok in H6 as (_ & _ & ->).
  cbn [db_tables with_tables count_request] in *. by rewrite E4.
Qed.

Section effects.
Context `{!PlatformLaws Plat} `{!AeadPlatformLaws A}.

Lemma sealed_seed id totp (s s' : state) seed :
  sealTotp r id totp s = (Ok seed, s') ->
  openAes256Gcm (m_totpKey r) seed ("openproof/totp/v1:" +:+ id_value id) = Ok (TotpSecret.bytes totp).
Proof.
  intros (w & Hs & _)%zoom_eq. apply seal_ok in Hs as (Hs & nonce & cipher & tag & -> & Hn & He).
  destruct (aes256gcm_lengths _ _ _ _ _ _ He) as [_ Ht]. by apply open_ok.
Qed.

Lemma provision_takes_effect actor e s s' :
  referential (db_tables s) -> provision r actor e s = (Ok tt, s') ->
  takes_effect (Provision actor e) (db_tables s) (db_tables s').
Proof.
  intros Hrefs Hrun. unfold provision in Hrun. cbn zeta in Hrun. branch Hrun Hc; [done|]. bool_prop.
  repeat match goal with Hb : negb _ = false |- _ => apply negb_false_iff in Hb end.
  repeat match goal with Hb : bool_decide _ = true |- _ => apply bool_decide_eq_true in Hb end.
  apply prog_bind_ok in Hrun as (hash & s1 & Hh & Hrun). pose proof Hh as [E1 _]%on_platform_ok.
  apply prog_bind_ok in Hrun as (seed & s2 & Hs & Hrun). pose proof Hs as [E2 _]%on_platform_ok.
  apply prog_bind_ok in Hrun as (token & s3 & [E3 _]%on_platform_ok & Hrun).
  apply prog_bind_ok in Hrun as (event & s4 & [_ ->]%lift_ok & Hrun).
  apply transaction_ok in Hrun as (s5 & s6 & E5 & _ & Hrun & -> & _).
  apply prog_bind_ok in Hrun as ([] & s7 & [E7 _]%serialize_ok & Hrun).
  apply prog_bind_ok in Hrun as ([] & s8 & [_ [E8 _]]%authorizeActiveOwner_ok & Hrun).
  apply prog_bind_ok in Hrun as ([] & s9 & [Hnone E9]%insertMember_ok & Hrun).
  rewrite E8, E7, E5, E3, E2, E1 in Hnone, E9.
  apply prog_bind_ok in Hrun as ([] & s10 & Hlog & Hrun). apply prog_bind_ok in Hrun as (payload & s11 & [_ ->]%lift_ok & Hrun).
  assert (quiet (db_tables s9) (db_tables s6)) as Hq.
  { match type of Hlog with appendChained ?h ?a ?sl ?ev ?k ?x = _ =>
      pose proof (quiet_appendChained h a sl ev k x) as Hq1 end.
    rewrite Hlog in Hq1. apply execute_ok in Hrun as (t & Hi & ->). unfold insertSecurityEvent in Hi.
    apply insertion_ok in Hi as (_ & _ & ->). exact Hq1. }
  apply quiet_tables in Hq as (Em & Er & _ & Epw & Et & _ & Ei & Ex).
  exists hash, seed, (IdentityLink.requestedAt (LocalMemberEnrollment.m_link e)).
  rewrite Em, Er, Epw, Et, Ei, Ex, E9. cbn. rewrite !lookup_insert_eq.
  split_and!; try done; try by eexists.
  - eexists. f_equal. f_equal. done.
  - intros role. rewrite elem_of_union, elem_of_list_to_set. split.
    + intros [(role' & [= ->] & Hin)%list_elem_of_fmap|Hold]; [done|]. exfalso.
      apply (ref_role _ Hrefs), (ref_membership _ Hrefs), belongs_spec in Hold as (row & Hrow & _). congruence.
    + intros Hin. left. by apply list_elem_of_fmap_2.
  - apply zoom_eq in Hh as (w & Hh & _). by eexists _, _.
  - by eapply sealed_seed.
Qed.

(** C9: A member is what the administrator asked for, and its sessions end with the
    authority they carried. After a successful operation on tables whose keys
    and references hold: a new member is an active identity of the organization
    with the local link, exactly the roles and the two credentials of its
    enrollment; a replacement leaves exactly the requested roles; a change of
    lifecycle moves the membership as the action says, and a removal leaves no
    role; a reset leaves the new password hash, the new seed, which opens under
    the key of the deployment and the name of its owner, and no recovery code.
    Except for a new member, no session of the member is active any more. *)
Theorem member_change_takes_effect o s s' :
  referential (db_tables s) -> run_member_op r o s = (Ok tt, s') ->
  takes_effect o (db_tables s) (db_tables s') /\
  ((exists actor e, o = Provision actor e) \/
   forall k session, sessions (db_tables s') !! k = Some session -> Session.identity session = op_member o ->
     Session.state session <> SessionState.Active).
Proof.
  intros Hrefs Hrun. destruct o as [actor e|actor c|actor c|actor c]; cbn [run_member_op] in Hrun.
  - split; [by apply provision_takes_effect|]. left. by eexists _, _.
  - apply replaceRoles_ok in Hrun as (_ & _ & Hq). apply quiet_tables in Hq as (_ & Hr & Hs & _).
    split; [|right; intros k session; rewrite Hs; apply ended_sessions].
    cbn. intros role. rewrite Hr. cbn. rewrite elem_of_union, elem_of_list_to_set, elem_of_filter. cbn. split.
    + intros [(role' & [= ->] & Hin)%list_elem_of_fmap|[Hno _]]; [done|]. by destruct Hno.
    + intros Hin. left. by apply list_elem_of_fmap_2.
  - apply changeLifecycle_ok in Hrun as (_ & member & next & Hmem & Hnext & _ & Hq).
    apply quiet_tables in Hq as (Hm & Hr & Hs & _).
    split; [|right; intros k session; rewrite Hs; apply ended_sessions].
    apply localMember_row in Hmem as (row & Hrow & Hst). rewrite <- Hst in Hnext.
    exists row, (MembershipRow.mk next (MembershipRow.invited_at row)). rewrite Hm, Hr. unfold with_lifecycle_changed.
    split_and!; [done| |done|].
    + case_bool_decide; cbn; rewrite lookup_alter_eq, Hrow; done.
    + intros Hrem role. pose proof (nextState_removed _ _ _ Hnext Hrem) as ->.
      rewrite bool_decide_eq_true_2 by done. intros [Hno _]%elem_of_filter. by apply Hno.
  - apply resetCredentials_ok in Hrun as (_ & owner & hash & seed & _ & [pw Hpw] & [tr Htr] & Hh & (w & w' & Hs) & Hq).
    apply quiet_tables in Hq as (_ & _ & Hses & Ep & Et & Er & _).
    split; [|right; intros k session; rewrite Hses; apply ended_sessions].
    exists hash, seed. rewrite Ep, Et, Er. cbn. rewrite !lookup_alter_eq. unfold op_member. rewrite Hpw, Htr. split_and!; try done.
    + apply seal_ok in Hs as (Hs & nonce & cipher & tag & -> & Hn & He).
      destruct (aes256gcm_lengths _ _ _ _ _ _ He) as [_ Ht]. by apply open_ok.
    + intros code [Hno _]%elem_of_filter. by apply Hno.
Qed.
End effects.

(** ** The audit chain *)

(** What reaches the audit table: administration, and the sink of denials. *)
Inductive log_op :=
  | Administer (o : admin_op)
  | Deny (session : AuthenticatedSession.t) (organization : OrganizationId) (action : Action) (resource : Resource)
      (decision : AuthorizationDecision.t) (correlation : CorrelationId).

Definition run_log_op (o : log_op) : prog state Error unit :=
  match o with
  | Administer o => run_admin_op r o
  | Deny sess org action resource decision correlation =>
      PostgresAuthorizationDecisionSink.record (m_auditKey r) sess org action resource decision correlation
  end.

Definition run_log_ops (os : list log_op) (s : state) : state := foldl (fun s o => (run_log_op o s).2) s os.

(** How many of the operations of a run succeed. *)
Fixpoint successes (os : list log_op) (s : state) : nat :=
  match os with
  | [] => 0
  | o :: os => (if is_ok (run_log_op o s).1 then 1 else 0) + successes os (run_log_op o s).2
  end.

Section chain.
Context `{!PlatformLaws Plat}.
Context (key : AuditKey.t).
Abbreviation session B := (prog state Error B).

(** The rows are in the order of their numbers, none above the last number
    drawn, and the chain verifies under the key. *)
Record chained (s : state) : Prop := {
  chain_sorted : StronglySorted Z.lt (AuditRecord.sequence <$> audit_events (db_tables s));
  chain_bound : Forall (fun row => AuditRecord.sequence row <= db_sequence s) (audit_events (db_tables s));
  chain_verifies : verifyFrom key None (audit_events (db_tables s)) = ok;
}.

(** A successful run keeps the chain and appends [n] records to it. *)
Definition logs (n : nat) {B} (m : session B) : Prop :=
  forall s b s', m s = (Ok b, s') -> chained s ->
    chained s' /\ exists new, length new = n /\ audit_events (db_tables s') = audit_events (db_tables s) ++ new.

Lemma logs_bind n k {B C} (m : session B) (f : B -> session C) :
  logs n m -> (forall b, logs k (f b)) -> logs (n + k) (m ≫= f).
Proof.
  intros Hm Hf s c s' (b & s1 & H1 & H2)%prog_bind_ok Hs.
  destruct (Hm _ _ _ H1 Hs) as (Hs1 & l1 & <- & E1). destruct (Hf _ _ _ _ H2 Hs1) as (Hs' & l2 & <- & E2).
  split; [done|]. exists (l1 ++ l2). by rewrite length_app, E2, E1, app_assoc.
Qed.

Lemma logs_nothing {B} (m : session B) :
  (forall s b s', m s = (Ok b, s') ->
     audit_events (db_tables s') = audit_events (db_tables s) /\ db_sequence s' = db_sequence s) -> logs 0 m.
Proof.
  intros Hm s b s' [Ea Es]%Hm [Hsort Hbound Hver]. split; [split; rewrite ?Ea, ?Es; done|].
  exists []. by rewrite Ea, app_nil_r.
Qed.

Lemma logs_execute {B} op (m : prog Deployment.t Error B) :
  (forall t b t', m t = (Ok b, t') -> audit_events t' = audit_events t) -> logs 0 (execute op m).
Proof. intros Hm. apply logs_nothing. intros s b s' (t & Ht & ->)%execute_ok. split; [by apply Hm in Ht|done]. Qed.

Lemma logs_select {B} op (f : Deployment.t -> B) : logs 0 (select op f).
Proof. apply logs_nothing. intros s b s' Hread. by apply select_ok in Hread as [_ ->]. Qed.

Lemma logs_platform {B} (m : prog world Error B) : logs 0 (on_platform m).
Proof. apply logs_nothing. intros s b s' [-> ->]%on_platform_ok. done. Qed.

Lemma logs_lift {B} (x : Result B) : logs 0 (lift (S:=state) x).
Proof. apply logs_nothing. by intros s b s' [_ ->]%lift_ok. Qed.

Lemma logs_ret {B} (b : B) : logs 0 (mret (M:=prog state Error) b).
Proof. apply logs_nothing. by intros s b' s' [= _ <-]. Qed.

Lemma logs_throw n {B} e : logs n (throw (S:=state) (A:=B) e).
Proof. by intros s b s'. Qed.

Lemma logs_request_ret op : logs 0 (request op (mret (M:=prog state Error) tt)).
Proof. apply logs_nothing. intros s b s' Hr%request_ok. by injection Hr as <- <-. Qed.

Lemma logs_transaction n {B} (body : session B) : logs n body -> logs n (transaction body).
Proof.
  intros Hbody s b s' (s1 & s2 & E1 & Q1 & Hrun & E2 & Q2)%transaction_ok [Hsort Hbound Hver].
  destruct (Hbody _ _ _ Hrun) as ([] & new & Hnew & E); [split; rewrite ?E1, ?Q1; done|].
  split; [split; rewrite ?E2, ?Q2; done|]. exists new. by rewrite E2, E, E1.
Qed.

(** The head of a chain in order is its last row. *)
Lemma head_is_last rows best :
  StronglySorted Z.lt (AuditRecord.sequence <$> (default [] ((.:: []) <$> best) ++ rows)) ->
  foldl later_row best rows = match last rows with Some row => Some row | None => best end.
Proof.
  revert best. induction rows as [|row rows IH]; intros best Hsort; cbn [foldl]; [done|].
  assert (later_row best row = Some row) as ->.
  { destruct best as [b|]; cbn in *; [|done]. apply StronglySorted_inv in Hsort as [_ Hb]. cbn in Hb.
    apply Forall_cons in Hb as [Hb _]. by rewrite (proj2 (Z.ltb_lt _ _)). }
  rewrite IH.
  - rewrite last_cons. by destruct (last rows).
  - destruct best as [b|]; [|done]. cbn in *. by apply StronglySorted_inv in Hsort as [? _].
Qed.

Lemma logs_appendChained h a sl event : logs 1 (appendChained h a sl event key).
Proof.
  intros s [] s' Hrun [Hsort Hbound Hver]. unfold appendChained in Hrun.
  apply prog_bind_ok in Hrun as ([] & s1 & Hr & Hrun). apply request_ok in Hr. injection Hr as <-.
  apply prog_bind_ok in Hrun as (previous & s2 & Hread & Hrun). apply select_ok in Hread as [-> ->].
  apply prog_bind_ok in Hrun as (sequence & s3 & Hins & Hrun). apply request_ok in Hins.
  apply prog_bind_ok in Hins as (n & s4 & Hn & Hins). injection Hn as <- <-.
  apply prog_bind_ok in Hins as ([] & s5 & (t & Hi & ->)%zoom_eq & Hins). injection Hins as <- <-.
  unfold insertAuditEvent in Hi. apply insertion_ok in Hi as (_ & _ & ->).
  apply prog_bind_ok in Hrun as (hash & s6 & [Hhash ->]%lift_ok & Hrun). apply execute_ok in Hrun as (t & [= <-] & ->).
  cbn in Hhash |- *. set (rows := audit_events (db_tables s)) in *.
  assert (chainHead (db_tables s) = InMemoryAuditRepository.back_hash rows) as Ehead.
  { unfold chainHead, InMemoryAuditRepository.back_hash. fold rows. rewrite head_is_last by done. by destruct (last rows). }
  rewrite Ehead in *. set (n := db_sequence s + 1) in *.
  set (record := AuditRecord.mk n event (InMemoryAuditRepository.back_hash rows) hash).
  match goal with |- chained ?x /\ _ => set (s' := x) end.
  assert (audit_events (db_tables s') = rows ++ [record]) as E.
  { unfold s'. cbn. fold rows. rewrite ?Ehead, fmap_app. cbn. rewrite Z.eqb_refl. f_equal.
    rewrite <- (list_fmap_id rows) at 2. apply list_fmap_ext. intros i row Hi.
    pose proof (Forall_lookup_1 _ _ _ _ Hbound Hi) as Hle. cbn in Hle. unfold n.
    by rewrite (proj2 (Z.eqb_neq _ _)) by lia. }
  split; [|by exists [record]]. split; rewrite E.
  - rewrite fmap_app. apply StronglySorted_app. split_and!; [|done|by repeat constructor].
    intros x y (row & -> & Hrow)%list_elem_of_fmap Hy. cbn in Hy. apply list_elem_of_singleton in Hy as ->.
    apply (proj1 (Forall_forall _ _) Hbound) in Hrow. unfold n. lia.
  - apply Forall_app. split.
    + eapply Forall_impl; [exact Hbound|]. cbn. intros row Hle. unfold n. lia.
    + apply Forall_singleton. cbn. unfold n. lia.
  - apply verifyFrom_snoc. split; [done|]. by rewrite last_hash_none.
Qed.

Lemma logs_insertRoles op org id roles : logs 0 (insertRoles op org id roles).
Proof.
  induction roles as [|role roles IH]; cbn [insertRoles]; [apply logs_ret|].
  apply (logs_bind 0 0); [|done]. apply logs_execute. intros t [] t' Hi.
  unfold insertRole in Hi. by apply insertion_ok in Hi as (_ & _ & ->).
Qed.

(** A statement on other tables. *)
Ltac silent :=
  let x := fresh in intros ? x ? Hi; match type of x with unit => destruct x | _ => idtac end;
  unfold insertOrganization, insertIdentity, insertExternalIdentity, insertMembership, insertRole, insertPassword, insertTotp, insertSecurityEvent, resetTotp in Hi;
  try (let Hfit := fresh in branch Hi Hfit; [done|]);
  first [ by apply insertion_ok in Hi as (_ & _ & ->) | by injection Hi as <- | by injection Hi as _ <- ].

(** Counts the records of an operation, one construct at a time. *)
Ltac tally :=
  repeat first
  [ match goal with
    | |- forall _, logs _ _ => intros ?
    | |- logs _ (transaction _) => apply logs_transaction
    | |- logs _ (appendChained _ _ _ _ _) => apply logs_appendChained
    | |- logs _ (appendChained _ _ _ _ _ ≫= _) => apply (logs_bind 1 0)
    | |- logs ?n (_ ≫= _) => apply (logs_bind 0 n)
    | |- logs _ (select _ _) => apply logs_select
    | |- logs _ (execute _ _) => apply logs_execute; silent
    | |- logs _ (on_platform _) => apply logs_platform
    | |- logs _ (insertRoles _ _ _ _) => apply logs_insertRoles
    | |- logs _ (request _ (mret tt)) => apply logs_request_ret
    | |- logs _ (throw _) => apply logs_throw
    | |- logs _ (mret _) => apply logs_ret
    | |- logs _ (lift _) => apply logs_lift
    | |- logs _ (if ?c then _ else _) => destruct c
    | |- logs _ (match ?x with _ => _ end) => destruct x
    end
  | progress cbn zeta ].

Lemma logs_records event type : logs 1 (appendAdministrationRecords event key type).
Proof. unfold appendAdministrationRecords, appendAuditRecord, appendSecurityRecord. tally. Qed.

Lemma logs_sink sess org action resource decision correlation :
  logs 1 (PostgresAuthorizationDecisionSink.record key sess org action resource decision correlation).
Proof. unfold PostgresAuthorizationDecisionSink.record, appendAuditRecord, appendSecurityRecord. tally. Qed.
Lemma log_op_logs o : m_auditKey r = key -> logs 1 (run_log_op o).
Proof.
  intros E. destruct o as [[a|org id now|[]]|]; cbn [run_log_op run_admin_op run_member_op];
    [..|rewrite E; apply logs_sink];
    unfold initialize, repairInitialOwnerMembership, provision, replaceRoles, changeLifecycle, resetCredentials,
      insertMember, prepareAdministrationTransaction, serialize, administrationEvent, hashPassword, sealTotp,
      authorizeActiveOwner, lockLocalMember, keepAnOwner, activeOwnerCount, precondition, revokeMemberSessions, invalidActor;
    rewrite ?E; tally.
  all: apply logs_records.
Qed.
End chain.

Lemma insertRoles_climbs op org id roles : advances climbs (insertRoles (Plat:=Plat) op org id roles).
Proof. induction roles as [|role roles IH]; cbn [insertRoles]; climb; done. Qed.

Lemma log_op_climbs o : advances climbs (run_log_op o).
Proof.
  destruct o as [[a|org id now|[]]|]; cbn [run_log_op run_admin_op run_member_op];
    unfold initialize, repairInitialOwnerMembership, provision, replaceRoles, changeLifecycle, resetCredentials,
      PostgresAuthorizationDecisionSink.record,
      insertMember, prepareAdministrationTransaction, serialize, administrationEvent, hashPassword, sealTotp,
      authorizeActiveOwner, lockLocalMember, keepAnOwner, activeOwnerCount, precondition, revokeMemberSessions, invalidActor,
      appendAdministrationRecords, appendAuditRecord, appendSecurityRecord, appendChained;
    climb; apply insertRoles_climbs.
Qed.

Lemma log_op_atomic o : atomic (run_log_op o).
Proof.
  destruct o as [o|]; [apply admin_op_atomic|]. cbn [run_log_op]. unfold PostgresAuthorizationDecisionSink.record.
  repeat (apply atomic_bind; [by stride|intros ?]). apply atomic_transaction.
Qed.

Lemma chained_rolled_back key (s s1 : state) :
  (false = false -> db_tables s1 = db_tables s) -> climbs s s1 -> chained key s ->
  chained key s1 /\ exists new, audit_events (db_tables s1) = audit_events (db_tables s) ++ new /\ length new = 0%nat.
Proof.
  intros E Hclimb [Hsort Hbound Hver]. rewrite E by done. split; [|exists []; by rewrite app_nil_r].
  split; rewrite ?E by done; [done| |done]. eapply Forall_impl; [exact Hbound|].
  unfold climbs in Hclimb. cbn. lia.
Qed.

(** C8: The audit trail is a chain, and complete. From tables whose audit rows are in
    order and verify under the key of the deployment, any sequence of operations
    of administration and of records of denied requests, whatever request the
    server fails, leaves rows that are in order and verify; rows are only ever
    appended, one for each operation that succeeds and none for one that fails.
    The operations run one after the other: two that interleave under different
    isolation levels can read the same head. *)
Theorem audit_trail_is_chained `{!PlatformLaws Plat} os s :
  chained (m_auditKey r) s ->
  let s' := run_log_ops os s in
  chained (m_auditKey r) s' /\
  exists new, audit_events (db_tables s') = audit_events (db_tables s) ++ new /\ length new = successes os s.
Proof.
  revert s. induction os as [|o os IH]; intros s Hs; cbn [run_log_ops foldl successes].
  { split; [done|]. exists []. by rewrite app_nil_r. }
  assert (chained (m_auditKey r) (run_log_op o s).2 /\ exists new,
    audit_events (db_tables (run_log_op o s).2) = audit_events (db_tables s) ++ new /\
    length new = if is_ok (run_log_op o s).1 then 1%nat else 0%nat) as (Hs1 & new & E & Hnew).
  { pose proof (log_op_climbs o s) as Hclimb. pose proof (log_op_atomic o s) as Hatomic.
    destruct (run_log_op o s) as [[[]|e|] s1] eqn:Hrun; cbn in *.
    - destruct (log_op_logs (m_auditKey r) o eq_refl _ _ _ Hrun Hs) as (? & new & Hn & E). split; [done|by exists new].
    - by eapply chained_rolled_back.
    - by eapply chained_rolled_back. }
  destruct (IH _ Hs1) as [Hs' (new' & E' & Hn')]. split; [done|]. exists (new ++ new').
  rewrite length_app, app_assoc, <- E, Hnew. split; [done|]. by rewrite Hn'.
Qed.

(** ** The first owner *)

Lemma negb_decide_false (P : Prop) `{!Decision P} : negb (bool_decide P) = false -> P.
Proof. intros Hb. apply negb_false_iff in Hb. by apply bool_decide_eq_true in Hb. Qed.

Lemma initialize_owned a s s' :
  initialize r a s = (Ok tt, s') ->
  activeOwner (db_tables s') (Organization.id (InitialAdministrator.m_organization a))
    (Identity.id (InitialAdministrator.m_identity a)) = true.
Proof.
  unfold initialize. intros Hrun. cbn zeta in Hrun. branch Hrun Hc; [done|]. bool_prop.
  repeat match goal with Hb : negb (bool_decide _) = false |- _ => apply negb_decide_false in Hb
                       | Hb : negb _ = false |- _ => apply negb_false_iff in Hb end.
  apply prog_bind_ok in Hrun as (hash & s1 & [E1 _]%on_platform_ok & Hrun).
  apply prog_bind_ok in Hrun as (seed & s2 & [E2 _]%on_platform_ok & Hrun).
  apply prog_bind_ok in Hrun as (token & s3 & [E3 _]%on_platform_ok & Hrun).
  apply prog_bind_ok in Hrun as (event & s4 & [_ ->]%lift_ok & Hrun).
  apply transaction_ok in Hrun as (s5 & s6 & E5 & _ & Hrun & -> & _).
  apply prog_bind_ok in Hrun as ([] & s7 & [E7 _]%serialize_ok & Hrun).
  apply prog_bind_ok in Hrun as (n & s8 & Hread & Hrun). apply select_ok in Hread as [_ ->]. branch Hrun Hn; [done|].
  apply prog_bind_ok in Hrun as ([] & s9 & He & Hrun). apply execute_ok in He as (t & Hi & ->).
  unfold insertOrganization in Hi. apply insertion_ok in Hi as (_ & _ & ->).
  apply prog_bind_ok in Hrun as ([] & s10 & [_ E10]%insertMember_ok & Hrun).
  apply prog_bind_ok in Hrun as ([] & s11 & Hlog & Hrun). apply prog_bind_ok in Hrun as (payload & s12 & [_ ->]%lift_ok & Hrun).
  match type of Hlog with appendChained ?h ?w ?sl ?ev ?k ?x = _ => pose proof (quiet_appendChained h w sl ev k x) as Hq end.
  rewrite Hlog in Hq. apply execute_ok in Hrun as (t & Hi & ->). unfold insertSecurityEvent in Hi.
  apply insertion_ok in Hi as (_ & _ & ->). change (quiet (db_tables s10) (db_tables s11)) in Hq.
  match goal with |- activeOwner ?t' _ _ = true => change (quiet (db_tables s10) t') in Hq end.
  rewrite (activeOwner_quiet _ _ _ _ Hq), E10. apply activeOwner_spec.
  rewrite organization_is_active_spec, belongs_spec, identity_is_active_spec, membership_is_active_spec. cbn.
  rewrite !lookup_insert_eq. split_and!; try (eexists; split; [reflexivity|]); try done.
  - unfold Organization.isUsable in *. by destruct (Organization.status _).
  - unfold Identity.canAuthenticate in *. cbn. by destruct (Identity.status _).
  - rewrite elem_of_union, elem_of_list_to_set. left. apply list_elem_of_fmap_2.
    match goal with Hb : Membership.hasRole _ _ = true |- _ => unfold Membership.hasRole in Hb; branch Hb Hp; [done|];
      by apply bool_decide_eq_true in Hb end.
Qed.

Definition more_organizations t t' : Prop := organizations t ⊆ organizations t'.

#[local] Instance more_organizations_preorder : PreOrder more_organizations.
Proof. unfold more_organizations. split; [by intros t|]. intros t1 t2 t3. by etrans. Qed.

Lemma more_same t t' : organizations t' = organizations t -> more_organizations t t'.
Proof. unfold more_organizations. by intros ->. Qed.

Lemma more_insertOrganization op o t : more_organizations t (insertOrganization op o t).2.
Proof.
  unfold insertOrganization. edestruct insertion_effect as [->|(Hp & _ & ->)]; [done|].
  apply bool_decide_eq_false in Hp. rewrite <- eq_None_not_Some in Hp. by apply insert_subseteq.
Qed.

Lemma more_insertion op present referenced insert t :
  (forall u, organizations (insert u) = organizations u) ->
  more_organizations t (insertion op present referenced insert t).2.
Proof. intros Hq. unfold more_organizations. edestruct insertion_effect as [->|(_ & _ & ->)]; [done|by rewrite Hq]. Qed.

Lemma more_insertRoles op org id roles : advances (tables_along more_organizations) (insertRoles op org id roles).
Proof. induction roles as [|role roles IH]; cbn [insertRoles]; stride; [by apply more_insertion|done]. Qed.

Lemma more_insertTotp op id seed version at_ t : more_organizations t (insertTotp op id seed version at_ t).2.
Proof. unfold more_organizations. by edestruct insertTotp_effect as [->|[_ ->]]. Qed.

Lemma admin_op_organizations o : advances (tables_along more_organizations) (run_admin_op r o).
Proof.
  destruct o as [a|org id now|o].
  - cbn [run_admin_op]. unfold initialize, insertMember, hashPassword, sealTotp, serialize, appendChained. stride;
      first [apply more_insertOrganization | apply more_insertRoles | apply more_insertTotp | by apply more_insertion | by apply more_same].
  - cbn [run_admin_op]. unfold repairInitialOwnerMembership, administrationEvent, precondition, serialize,
      appendAdministrationRecords, appendAuditRecord, appendSecurityRecord, appendChained. stride;
      first [by apply more_insertion | by apply more_same].
  - intros s. unfold tables_along, more_organizations. cbn [run_admin_op].
    by rewrite (about_organizations _ _ _ _ (about_member_op r o s)).
Qed.

(** How many initializations of a run succeed. *)
Fixpoint initializations (os : list admin_op) (s : state) : nat :=
  match os with
  | [] => 0
  | o :: os =>
      (match o with Initialize _ => if is_ok (run_admin_op r o s).1 then 1 else 0 | _ => 0 end)
      + initializations os (admin_step o s)
  end.

Lemma initializations_none os s : organizations (db_tables s) <> ∅ -> initializations os s = 0%nat.
Proof.
  revert s. induction os as [|o os IH]; intros s Hs; cbn [initializations]; [done|].
  rewrite IH.
  - destruct o as [a| |]; [|done..]. destruct (run_admin_op r (Initialize a) s) as [[[]|e|] s1] eqn:Hrun; [|done..].
    cbn [run_admin_op] in Hrun. apply initialize_ok, map_size_empty_inv in Hrun. done.
  - pose proof (admin_op_organizations o s) as Hmore. unfold tables_along, more_organizations in Hmore.
    intros E. unfold admin_step in E. rewrite E in Hmore. apply Hs. apply map_eq. intros i. rewrite lookup_empty.
    apply eq_None_not_Some. intros [x Hx]. by apply (lookup_weaken _ _ _ _ Hx) in Hmore.
Qed.

(** A deployment is initialized once, and then has an owner. In any sequence of
    operations of administration at most one initialization succeeds, none when
    there already is an organization; and one that succeeds leaves its
    administrator an active owner of its organization. *)
Theorem deployment_is_initialized_once os s :
  (initializations os s <= 1)%nat /\
  (organizations (db_tables s) <> ∅ -> initializations os s = 0%nat) /\
  (forall a, (initialize r a s).1 = Ok tt ->
     activeOwner (db_tables (initialize r a s).2) (Organization.id (InitialAdministrator.m_organization a))
       (Identity.id (InitialAdministrator.m_identity a)) = true).
Proof.
  split_and!; [|apply initializations_none|].
  - revert s. induction os as [|o os IH]; intros s; cbn [initializations]; [lia|].
    destruct o as [a| |]; [|apply IH..]. cbn [run_admin_op].
    destruct (initialize r a s) as [[[]|e|] s1] eqn:Hrun; cbn [fst is_ok]; [|apply IH..].
    rewrite initializations_none; [lia|]. unfold admin_step. cbn [run_admin_op]. rewrite Hrun. cbn.
    apply initialize_owned, activeOwner_spec in Hrun as (Horg & _).
    apply organization_is_active_spec in Horg as (row & Hrow & _). intros E. by rewrite E, lookup_empty in Hrow.
  - intros a Hok. destruct (initialize r a s) as [x s'] eqn:Hrun. cbn in Hok. subst x. by apply initialize_owned in Hrun.
Qed.
End owners.

(** ** A run *)

Module AdministrationWitnesses.
Import TestPlatform TestCipher CredentialWitnesses ReliableServer.

Definition acme : OrganizationId := mkId "acme".
Definition local_provider : ProviderId := mkId "local".
Definition ada : IdentityId := mkId "ada".
Definition bob : IdentityId := mkId "bob".
Definition some_seed : TotpSecret.t := TotpSecret.mk "01234567890123456789".
Definition audit_key : AuditKey.t := AuditKey.mk "an audit key of at least 32 octets".

Definition repository : PostgresAdministrationRepository.t :=
  PostgresAdministrationRepository.mk hasher (AeadKey.mk "0123456789abcdef0123456789abcdef") 1 local_provider audit_key.

Definition value {A} (x : Result A) (other : A) : A := match x with Ok a => a | _ => other end.
Definition nobody : Identity.t := Identity.mk (mkId "") Human Active 0.
Definition no_link : IdentityLink.t :=
  IdentityLink.mk (mkId "") (ExternalIdentityRef.mk (mkId "") (mkId "") None None None) LinkState.LinkRequested 0 0.
Definition no_membership : Membership.t := Membership.mk (mkId "") (mkId "") MembershipState.Invited 0 [].

(** The requests of the run, through the checks of the domain. *)
Definition first_owner : InitialAdministrator.t :=
  value (InitialAdministrator.create acme "Acme" ada local_provider (mkId "ada@local") "a long enough password" some_seed 100)
    (InitialAdministrator.mk (Organization.mk acme "" OrganizationStatus.Active 0) nobody no_link no_membership "" some_seed).
Definition new_member : LocalMemberEnrollment.t :=
  value (LocalMemberEnrollment.create acme bob local_provider (mkId "bob@local") [mkId "owner"; mkId "auditor"]
           "a generated password of 32 octets" some_seed 200)
    (LocalMemberEnrollment.mk acme nobody no_link no_membership "" some_seed).
Definition demotion (id : IdentityId) : MemberRoleReplacement.t :=
  MemberRoleReplacement.mk acme id [mkId "auditor"] 300.
Definition suspension (id : IdentityId) : MemberLifecycleChange.t := MemberLifecycleChange.mk acme id Suspend 400.
Definition removal (id : IdentityId) : MemberLifecycleChange.t := MemberLifecycleChange.mk acme id Administration.Remove 500.

Definition blank : database Deployment.t Z := mkDatabase Deployment.empty 0 0 7.

Abbreviation step o s := (admin_step (Plat:=test) (A:=test_cipher) repository o s).
Definition initialized := step (Initialize first_owner) blank.
Definition enrolled := step (OnMember (Provision ada new_member)) initialized.

(** Both owners go, one after the other; the last one cannot. *)
Definition requests : list admin_op :=
  [OnMember (ReplaceRoles ada (demotion bob)); OnMember (ChangeLifecycle ada (suspension ada));
   OnMember (ChangeLifecycle bob (removal ada)); OnMember (ChangeLifecycle ada (removal bob))].

Lemma empty_referential : referential Deployment.empty.
Proof. split; cbn; intros *; rewrite ?lookup_empty; [by intros []|set_solver|done]. Qed.

Lemma administration_keeps_an_owner_witness :
  activeOwner (db_tables initialized) acme ada = true /\
  owned (db_tables (foldl (fun s o => step o s) initialized (OnMember (Provision ada new_member) :: requests))) acme.
Proof.
  split; [vm_compute; reflexivity|].
  eapply (administration_keeps_an_owner (Plat:=test) (A:=test_cipher) repository
            (OnMember (Provision ada new_member) :: requests) initialized).
  - apply (admin_op_references (Plat:=test) repository (Initialize first_owner) blank), empty_referential.
  - exists ada. vm_compute. reflexivity.
Defined.

Definition enrolling := run_member_op (Plat:=test) (A:=test_cipher) repository (Provision ada new_member) initialized.

Lemma member_change_takes_effect_witness :
  takes_effect (Plat:=test) (A:=test_cipher) repository (Provision ada new_member) (db_tables initialized) (db_tables enrolling.2).
Proof.
  apply (member_change_takes_effect (Plat:=test) (A:=test_cipher) repository (Provision ada new_member) initialized enrolling.2).
  - apply (admin_op_references (Plat:=test) repository (Initialize first_owner) blank), empty_referential.
  - apply (run_as enrolling). vm_compute. reflexivity.
Defined.

Lemma audit_trail_is_chained_witness :
  length (audit_events (db_tables (run_log_ops (Plat:=test) (A:=test_cipher) repository
    (Administer <$> (Initialize first_owner :: OnMember (Provision ada new_member) :: requests)) blank))) = 4%nat.
Proof.
  destruct (audit_trail_is_chained (Plat:=test) (A:=test_cipher) repository
    (Administer <$> (Initialize first_owner :: OnMember (Provision ada new_member) :: requests)) blank) as [_ (new & -> & E)].
  - split; [constructor|constructor|reflexivity].
  - cbn [audit_events db_tables blank app]. rewrite length_app, E. vm_compute. reflexivity.
Defined.

(** A stranger changes nothing, and neither does a deployment's second ceremony. *)
Example strangers_are_refused :
  (run_member_op (Plat:=test) (A:=test_cipher) repository (ReplaceRoles (mkId "eve") (demotion ada)) initialized).1
    = fail PermissionDenied "The operation is not permitted." /\
  (initialize (Plat:=test) (A:=test_cipher) repository first_owner initialized).1
    = fail AlreadyExists "The deployment has already been initialized.".
Proof. split; vm_compute; reflexivity. Qed.

(** The last owner cannot be demoted or suspended. *)
Example the_last_owner_stays :
  (run_member_op (Plat:=test) (A:=test_cipher) repository (ReplaceRoles ada (demotion ada)) initialized).1
    = fail FailedPrecondition "The final active owner cannot lose the owner role." /\
  (run_member_op (Plat:=test) (A:=test_cipher) repository (ChangeLifecycle ada (suspension ada)) initialized).1
    = fail FailedPrecondition "The final active owner cannot be suspended or removed.".
Proof. split; vm_compute; reflexivity. Qed.

(** Two appends that read the same head, as when the serializable transaction of
    an administrator took its snapshot before a denial was recorded and appends
    after it: the records of both are there, and the chain no longer verifies. *)
Definition forked : list AuditRecord.t :=
  let append s event := (appendAuditRecord (Plat:=test) event audit_key s).2 in
  let event name := AuditEvent.mk (mkId name) 600 (mkId name) (Some acme) (Some ada) "authorization" name "deny" ∅ in
  let denied := append initialized (event "denial") in
  let stale := mkDatabase (db_tables initialized) (db_sequence denied) (db_requests denied) (db_world denied) in
  audit_events (db_tables denied) ++ drop 1 (audit_events (db_tables (append stale (event "change")))).

Example a_stale_head_forks_the_chain :
  length forked = 3%nat /\ verifyFrom (Plat:=test) audit_key None (audit_events (db_tables initialized)) = ok /\
  verifyFrom (Plat:=test) audit_key None forked = fail FailedPrecondition "The audit chain is not intact.".
Proof. split_and!; vm_compute; reflexivity. Qed.
End AdministrationWitnesses.
