(* ===== verification/SessionTable.v ===== *)
(** * openproof.storage.postgres: the table of sessions

    Models [PostgresSessionRepository] of
    [src/src/storage/postgres/postgres.cpp] over the tables of the file
    Deployment, with the checks of [openproof.sessions] in
    [src/migrations/0001_identity_auth_gateway.sql] and
    [0017_session_client_metadata.sql]. Each operation is one statement, or two
    when it asks why the first found no row. Texts are valid UTF-8 without
    octets of zero, and instants are in the range of [bigint]. *)
From S2P Require Import Prelude Foundation Database Encoding Security IdentityCore Provider Session Deployment.
Import Deployment(sessions, identities, with_sessions).

Implicit Types t : Deployment.t.

(** [length(text)] counts the characters: the octets that do not continue one. *)
Definition continuation_octet (c : ascii) : bool := (128 <=? Z.of_N (N_of_ascii c)) && (Z.of_N (N_of_ascii c) <? 192).

Fixpoint characters (s : string) : nat :=
  match s with
  | "" => 0
  | String c s => if continuation_octet c then characters s else S (characters s)
  end.

Module PostgresSessionRepository.

(** *** Rows *)

Definition at_most (bound : nat) (value : option string) : bool :=
  match value with None => true | Some value => (characters value <=? bound)%nat end.

Definition between_1_and (bound : nat) (value : string) : bool :=
  (1 <=? characters value)%nat && (characters value <=? bound)%nat.

(** The checks of the table on one row; the enumerations are within theirs. *)
Definition row_checks (row : Session.t) : bool :=
  between_1_and 200 (id_value (Session.id row)) && between_1_and 200 (id_value (Session.provider row))
  && (length (Session.tokenDigest row) =? 32)%nat && (0 <? Session.idleTimeout row)
  && (Session.authenticatedAt row <=? Session.issuedAt row) && (Session.issuedAt row <=? Session.lastSeenAt row)
  && (Session.lastSeenAt row <? Session.absoluteExpiresAt row)
  && Bool.eqb (bool_decide (Session.state row = SessionState.Revoked)) (bool_decide (is_Some (Session.revokedAt row)))
  && at_most 1024 (Session.userAgent row) && at_most 128 (Session.remoteAddress row).

(** [UNIQUE] on the token digest. *)
Definition digests (rows : gmap SessionId Session.t) : list TokenDigest :=
  (fun row : SessionId * Session.t => Session.tokenDigest row.2) <$> map_to_list rows.

(** [NULLIF(value, '')], of the text that [value_or("")] gives. *)
Definition nullif (value : option string) : option string :=
  match value with Some "" => None | value => value end.

(** The row of a session, which an insertion never revokes. *)
Definition rowOf (value : Session.t) : Session.t :=
  Session.mk (Session.id value) (Session.identity value) (Session.provider value) (Session.assurance value)
    (Session.strength value) (Session.state value) (Session.authenticatedAt value) (Session.tokenDigest value)
    (Session.issuedAt value) (Session.lastSeenAt value) (Session.absoluteExpiresAt value) (Session.idleTimeout value)
    None (nullif (Session.userAgent value)) (nullif (Session.remoteAddress value)).

(** [sessionFromRow]: the columns have the types and ranges it checks. *)
Definition sessionFromRow (row : Session.t) : Result Session.t :=
  Session.restore (Session.id row) (Session.identity row) (Session.provider row) (Session.assurance row)
    (Session.strength row) (Session.state row) (Session.authenticatedAt row) (Session.tokenDigest row)
    (Session.issuedAt row) (Session.lastSeenAt row) (Session.absoluteExpiresAt row) (Session.idleTimeout row)
    (Session.revokedAt row) (Session.userAgent row) (Session.remoteAddress row).

(** *** Statements *)

Definition insert (operation : string) (row : Session.t) : deploymentStatement unit := fun t =>
  if negb (row_checks row) then (Err (databaseError check_violation operation), t)
  else if bool_decide (is_Some (sessions t !! Session.id row))
          || bool_decide (Session.tokenDigest row ∈ digests (sessions t)) then
    (Err (databaseError unique_violation operation), t)
  else if negb (bool_decide (is_Some (identities t !! Session.identity row))) then
    (Err (databaseError foreign_key_violation operation), t)
  else (ok, with_sessions <[Session.id row := row]> t).

(** [UPDATE openproof.sessions SET ... WHERE ... RETURNING ...]. *)
Definition update (operation : string) (matches : Session.t -> bool) (change : Session.t -> Session.t)
    : deploymentStatement (list Session.t) := fun t =>
  let changed := change <$> matching matches (sessions t) in
  let rows := change_rows matches change (sessions t) in
  if negb (forallb row_checks changed) then (Err (databaseError check_violation operation), t)
  else if negb (bool_decide (NoDup (digests rows))) then (Err (databaseError unique_violation operation), t)
  else (Ok changed, with_sessions (fun _ => rows) t).

(** [DELETE FROM openproof.sessions WHERE ...], with the number of rows. *)
Definition deleteRows (matches : Session.t -> bool) : deploymentStatement nat := fun t =>
  (Ok (length (matching matches (sessions t))), with_sessions (filter (fun row => matches row.2 = false)) t).

Definition active (row : Session.t) : bool := bool_decide (Session.state row = SessionState.Active).

(** [$2 < absolute_expires_at_ms AND $2 < last_seen_at_ms + idle_timeout_ms]. *)
Definition lasts (now : Instant) (row : Session.t) : bool :=
  (now <? Session.absoluteExpiresAt row) && (now <? Session.lastSeenAt row + Session.idleTimeout row).

(** The [SET] of [use]: a session past a deadline expires, another is seen. *)
Definition touch (now : Instant) (row : Session.t) : Session.t :=
  Session.set row
    (if (Session.absoluteExpiresAt row <=? now) || (Session.lastSeenAt row + Session.idleTimeout row <=? now)
     then SessionState.Expired else Session.state row)
    (Session.tokenDigest row) (if lasts now row then now else Session.lastSeenAt row) (Session.revokedAt row).

(** The [WHERE] of [rotate]. *)
Definition rotates (id : SessionId) (expected : TokenDigest) (now : Instant) (row : Session.t) : bool :=
  bool_decide (Session.id row = id) && bool_decide (Session.tokenDigest row = expected) && active row && lasts now row.

Definition withToken (replacement : TokenDigest) (now : Instant) (row : Session.t) : Session.t :=
  Session.set row (Session.state row) replacement now (Session.revokedAt row).

Definition withRevocation (now : Instant) (row : Session.t) : Session.t :=
  Session.set row SessionState.Revoked (Session.tokenDigest row) (Session.lastSeenAt row) (Some now).

(** [ORDER BY last_seen_at_ms DESC]; rows that were seen together come in an
    order of the server's. *)
Definition seen_later (a b : Session.t) : Prop := Session.lastSeenAt b <= Session.lastSeenAt a.
#[global] Instance seen_later_dec a b : Decision (seen_later a b).
Proof. unfold seen_later. apply _. Defined.

Section repository.
Context `{Db : Database} {W : Type}.
Abbreviation state := (database Deployment.t W).
Abbreviation session B := (prog state Error B).

Definition add (value : Session.t) : session unit :=
  _ ← lease;
  execute "insert session" (insert "insert session" (rowOf value)).

Definition use (token : TokenDigest) (now : Instant) : session Session.t :=
  _ ← lease;
  rows ← execute "use session"
           (update "use session" (fun row => bool_decide (Session.tokenDigest row = token) && active row) (touch now));
  match rows with
  | [row] =>
      restored ← lift (sessionFromRow row);
      if negb (active restored) then throw (authenticationFailure "Session deadline passed.")
      else mret restored
  | _ => throw (authenticationFailure "Session is unknown or inactive.")
  end.

Definition rotate (id : SessionId) (expected replacement : TokenDigest) (now : Instant) : session unit :=
  _ ← lease;
  rows ← execute "rotate session"
           (update "rotate session" (rotates id expected now) (withToken replacement now));
  match rows with
  | [_] => mret tt
  | _ => throw (authenticationFailure "Session rotation was refused.")
  end.

Definition revoke (id : SessionId) (now : Instant) : session unit :=
  _ ← lease;
  rows ← execute "revoke session"
           (update "revoke session" (fun row => bool_decide (Session.id row = id) && active row) (withRevocation now));
  match rows with
  | [_] => mret tt
  | _ =>
      state ← select "read session state" (fun t => Session.state <$> sessions t !! id);
      match state with
      | None => throw (Error_ofMessage NotFound "That session was not found.")
      | Some state =>
          if bool_decide (state = SessionState.Revoked) then mret tt
          else throw (Error_ofMessage FailedPrecondition "An expired session cannot be revoked.")
      end
  end.

Definition revokeAll (identity : IdentityId) (now : Instant) : session nat :=
  _ ← lease;
  rows ← execute "revoke identity sessions"
           (update "revoke identity sessions"
              (fun row => bool_decide (Session.identity row = identity) && active row) (withRevocation now));
  mret (length rows).

Definition find (id : SessionId) : session (option Session.t) :=
  _ ← lease;
  row ← select "find session" (fun t => sessions t !! id);
  match row with
  | None => mret None
  | Some row => value ← lift (sessionFromRow row); mret (Some value)
  end.

Fixpoint readAll (rows : list Session.t) : Result (list Session.t) :=
  match rows with
  | [] => Ok []
  | row :: rows => value ← sessionFromRow row; values ← readAll rows; Ok (value :: values)
  end.

Definition list (identity : IdentityId) : session (Datatypes.list Session.t) :=
  _ ← lease;
  rows ← select "list identity sessions"
           (fun t => merge_sort seen_later
                       (matching (fun row => bool_decide (Session.identity row = identity)) (sessions t)));
  lift (readAll rows).

Definition purgeExpired (now : Instant) : state -> nat * state :=
  counted (_ ← lease; execute "purge sessions" (deleteRows (fun row => Session.isExpiredAt row now))).

Definition size : state -> nat * state :=
  counted (_ ← lease; select "count sessions" (fun t => base.size (sessions t))).

(** The table as a repository of sessions. *)
#[global] Instance repository : SessionRepository state := {
  sr_add := add; sr_use := use; sr_rotate := rotate; sr_revoke := revoke; sr_revokeAll := revokeAll;
  sr_find s id := (find id s).1; sr_list s identity := (list identity s).1;
  sr_purgeExpired := purgeExpired; sr_size s := (size s).1;
}.

(** The state an operation on sessions leaves. *)
Definition session_table_step (o : session_op) (s : state) : state :=
  match o with
  | SAdd value => (add value s).2
  | SUse token now => (use token now s).2
  | SRotate id expected replacement now => (rotate id expected replacement now s).2
  | SRevoke id now => (revoke id now s).2
  | SRevokeAll identity now => (revokeAll identity now s).2
  | SPurge now => (purgeExpired now s).2
  end.

Definition session_table_run (os : Datatypes.list session_op) (s : state) : state :=
  foldl (fun s o => session_table_step o s) s os.
End repository.
End PostgresSessionRepository.
