(* ===== verification/PersistentSessions.v ===== *)
(** * openproof.storage.postgres: what the table of sessions promises

    The table refines the in-memory repository of sessions: over any sequence of
    operations in the order of time, a token opens the same session in both. And
    a member whose sessions an administrator ended stays signed out, whatever
    happens to the tables afterwards and whatever request the server fails. *)
From S2P Require Import Prelude Foundation Database Encoding Security Aead IdentityCore Provider Organizations Session SessionService Policy Credentials AuditLog Administration Deployment AdministrationStore AdministrationSafety AdministrationProperties SessionTable.
Import Deployment(sessions, identities, with_sessions).
Import PostgresAdministrationRepository(initialize, repairInitialOwnerMembership, provision, replaceRoles, changeLifecycle, resetCredentials, insertMember, hashPassword, sealTotp, keepAnOwner, invalidActor).
Import PostgresSessionRepository(at_most, between_1_and, row_checks, digests, nullif, rowOf, sessionFromRow, insert, update, deleteRows, active, lasts, touch, rotates, withToken, withRevocation, add, use, rotate, revoke, revokeAll, purgeExpired, repository, session_table_step, session_table_run).

Implicit Types t : Deployment.t.

(** ** Statements on the table *)

Lemma update_ok operation matches change t rows t' :
  update operation matches change t = (Ok rows, t') ->
  rows = change <$> matching matches (sessions t) /\
  forallb row_checks rows = true /\ NoDup (digests (sessions t')) /\
  t' = with_sessions (fun _ => change_rows matches change (sessions t)) t.
Proof.
  unfold update. intros H. branch H Hc; [done|]. apply negb_false_iff in Hc. branch H Hd; [done|].
  apply negb_false_iff, bool_decide_eq_true in Hd. injection H as <- <-. done.
Qed.

Lemma update_effect operation matches change t :
  (update operation matches change t).2 = t \/
  (update operation matches change t).2 = with_sessions (fun _ => change_rows matches change (sessions t)) t.
Proof. unfold update. destruct (negb _); [by left|]. destruct (negb _); [by left|by right]. Qed.

(** ** The table refines the store *)

(** A session as its row has it: an empty text of the client is none. *)
Definition normal (m : Session.t) : Session.t :=
  Session.mk (Session.id m) (Session.identity m) (Session.provider m) (Session.assurance m) (Session.strength m)
    (Session.state m) (Session.authenticatedAt m) (Session.tokenDigest m) (Session.issuedAt m) (Session.lastSeenAt m)
    (Session.absoluteExpiresAt m) (Session.idleTimeout m) (Session.revokedAt m)
    (nullif (Session.userAgent m)) (nullif (Session.remoteAddress m)).

(** The row [p] of the session [m] of the store at the time [T]. A refused
    rotation marks an expired session in the store but not in the table, and a
    revocation closes it in the table but not in the store: past its deadlines,
    the two may differ in how they say that the session is over. *)
Record lag (T : Instant) (m p : Session.t) : Prop := {
  lag_row : p = Session.set (normal m) (Session.state p) (Session.tokenDigest m) (Session.lastSeenAt m) (Session.revokedAt p);
  lag_state : (Session.state p = Session.state m /\ Session.revokedAt p = Session.revokedAt m) \/
    (Session.state m = SessionState.Expired /\ Session.isExpiredAt m T = true);
}.

(** A row the table accepts and the repository reads back. *)
Record sound (T : Instant) (p : Session.t) : Prop := {
  sound_checks : row_checks p = true;
  sound_reads : sessionFromRow p = Ok p;
  sound_issued : Session.issuedAt p <= T;
}.

Record sim (T : Instant) (store : InMemorySessionRepository.t) (rows : gmap SessionId Session.t) : Prop := {
  sim_consistent : consistent store;
  sim_lag k : option_Forall2 (lag T) (InMemorySessionRepository.m_sessions store !! k) (rows !! k);
  sim_sound k p : rows !! k = Some p -> sound T p;
}.

Section simulation.
Import InMemorySessionRepository(m_sessions, m_tokens).
Implicit Types (store : InMemorySessionRepository.t) (rows : gmap SessionId Session.t) (m p : Session.t).

Lemma lag_fields T m p : lag T m p ->
  Session.id p = Session.id m /\ Session.identity p = Session.identity m /\
  Session.tokenDigest p = Session.tokenDigest m /\ Session.lastSeenAt p = Session.lastSeenAt m /\
  Session.absoluteExpiresAt p = Session.absoluteExpiresAt m /\ Session.idleTimeout p = Session.idleTimeout m /\
  Session.issuedAt p = Session.issuedAt m.
Proof. intros [E _]. rewrite E. done. Qed.

Lemma lag_expired T m p now : lag T m p -> Session.isExpiredAt p now = Session.isExpiredAt m now.
Proof.
  intros (_ & _ & _ & El & Ea & Ei & _)%lag_fields. unfold Session.isExpiredAt, Session.idleExpiresAt. by rewrite El, Ea, Ei.
Qed.

Lemma isExpiredAt_later m T T' : T <= T' -> Session.isExpiredAt m T = true -> Session.isExpiredAt m T' = true.
Proof. unfold Session.isExpiredAt. rewrite !orb_true_iff, !Z.leb_le. lia. Qed.

Lemma lag_later T T' m p : T <= T' -> lag T m p -> lag T' m p.
Proof. intros HT [E [Hs|[Hs He]]]; split; auto. right. split; [done|by eapply isExpiredAt_later]. Qed.

Lemma sound_later T T' p : T <= T' -> sound T p -> sound T' p.
Proof. intros HT [? ? ?]. split; [done..|lia]. Qed.

Lemma sim_later T T' store rows : T <= T' -> sim T store rows -> sim T' store rows.
Proof.
  intros HT [Hc Hl Hs]. split; [done| |].
  - intros k. destruct (Hl k); constructor. by eapply lag_later.
  - intros k p Hk. by eapply sound_later, Hs.
Qed.

Lemma sim_some T store rows k m : sim T store rows -> m_sessions store !! k = Some m ->
  exists p, rows !! k = Some p /\ lag T m p.
Proof. intros [_ Hl _] Hm. specialize (Hl k). rewrite Hm in Hl. inversion Hl; subst. by eexists. Qed.

Lemma sim_row T store rows k p : sim T store rows -> rows !! k = Some p ->
  exists m, m_sessions store !! k = Some m /\ lag T m p.
Proof. intros [_ Hl _] Hp. specialize (Hl k). rewrite Hp in Hl. inversion Hl; subst. by eexists. Qed.

Lemma sim_none T store rows k : sim T store rows -> m_sessions store !! k = None <-> rows !! k = None.
Proof. intros [_ Hl _]. specialize (Hl k). by inversion Hl. Qed.

(** A digest leads to one row, the one the index of the store leads to. *)
Lemma sim_token T store rows d k : sim T store rows ->
  m_tokens store !! d = Some k <-> exists p, rows !! k = Some p /\ Session.tokenDigest p = d.
Proof.
  intros Hsim. pose proof (sim_consistent _ _ _ Hsim) as [Hs Ht]. split.
  - intros (m & Hm & <-)%Ht. destruct (sim_some _ _ _ _ _ Hsim Hm) as (p & Hp & Hl). exists p.
    by apply lag_fields in Hl as (_ & _ & -> & _).
  - intros (p & Hp & <-). destruct (sim_row _ _ _ _ _ Hsim Hp) as (m & Hm & Hl).
    apply lag_fields in Hl as (_ & _ & -> & _). by apply Hs.
Qed.

Lemma sim_key T store rows k p : sim T store rows -> rows !! k = Some p -> Session.id p = k.
Proof.
  intros Hsim Hp. destruct (sim_row _ _ _ _ _ Hsim Hp) as (m & Hm & Hl). apply lag_fields in Hl as (-> & _).
  by apply (sim_consistent _ _ _ Hsim).
Qed.

Lemma sim_digests T store rows : sim T store rows -> NoDup (digests rows).
Proof.
  intros Hsim. unfold digests. apply NoDup_fmap_2_strong; [|apply NoDup_map_to_list].
  intros [k p] [k' p'] Hk%elem_of_map_to_list Hk'%elem_of_map_to_list Hd. cbn in Hd.
  assert (m_tokens store !! Session.tokenDigest p = Some k) as E by (apply (sim_token _ _ _ _ _ Hsim); by exists p).
  assert (m_tokens store !! Session.tokenDigest p = Some k') as E' by (apply (sim_token _ _ _ _ _ Hsim); by exists p').
  rewrite E in E'. injection E' as <-. congruence.
Qed.

(** Both sides move one session on. *)
Lemma sim_update T store rows k m m' p' tokens :
  sim T store rows -> m_sessions store !! k = Some m ->
  consistent (InMemorySessionRepository.mk (<[k := m']> (m_sessions store)) tokens) -> lag T m' p' -> sound T p' ->
  sim T (InMemorySessionRepository.mk (<[k := m']> (m_sessions store)) tokens) (<[k := p']> rows).
Proof.
  intros [_ Hl Hs] Hm Hc Hlag Hsound. split; [done| |].
  - intros k'. cbn. rewrite !lookup_insert. case_decide; [by constructor|apply Hl].
  - intros k' x. rewrite lookup_insert. case_decide; [by intros [= <-]|apply Hs].
Qed.

End simulation.

(** *** The rows *)

Lemma sound_set T T' p st d seen rv :
  sound T p -> T <= T' -> Session.issuedAt p <= seen -> seen < Session.absoluteExpiresAt p -> length d = 32%nat ->
  (st = SessionState.Revoked <-> is_Some rv) -> sound T' (Session.set p st d seen rv).
Proof.
  intros [Hc Hr Hi] HT Hseen Habs Hd Hrv. unfold row_checks in Hc. unfold sessionFromRow, Session.restore in Hr.
  rewrite !andb_true_iff in Hc. destruct Hc as [[[[[[[[[? ?] ?] ?] ?] ?] ?] ?] ?] ?].
  branch Hr Hg; [done|]. rewrite !orb_false_iff in Hg. destruct Hg as [[[[[[[[[? ?] ?] ?] ?] ?] ?] ?] ?] ?].
  assert (Bool.eqb (bool_decide (st = SessionState.Revoked)) (bool_decide (is_Some rv)) = true) as Hb.
  { apply eqb_true_iff. by apply bool_decide_ext. }
  split; cbn; [| |lia].
  - unfold row_checks. cbn. rewrite !andb_true_iff, Hb, Nat.eqb_eq. split_and!; try done; lia.
  - unfold sessionFromRow, Session.restore. cbn. rewrite Hb.
    replace (_ || _) with false; [done|]. symmetry. rewrite !orb_false_iff. split_and!; try done; lia.
Qed.

Lemma sound_order T p : sound T p ->
  Session.issuedAt p <= Session.lastSeenAt p /\ Session.lastSeenAt p < Session.absoluteExpiresAt p /\
  length (Session.tokenDigest p) = 32%nat /\ (Session.state p = SessionState.Revoked <-> is_Some (Session.revokedAt p)).
Proof.
  intros [Hc _ _]. unfold row_checks in Hc. rewrite !andb_true_iff in Hc.
  destruct Hc as [[[[[[[[[? ?] Hd] ?] ?] ?] ?] Hb] ?] ?]. apply eqb_prop in Hb. apply Nat.eqb_eq in Hd.
  split_and!; [lia..|done|]. by rewrite <- (bool_decide_eq_true (_ = _)), Hb, bool_decide_eq_true.
Qed.

(** Requests that the server answers. *)
Lemma reliable_statement {W B C} operation (m : deploymentStatement B) (k : B -> prog (database Deployment.t W) Error C) s :
  (_ ← lease; x ← execute operation m; k x) s =
  match m (db_tables s) with
  | (Ok x, t) => k x (with_tables t (count_request (count_request s)))
  | (Err e, t) => (Err e, with_tables t (count_request (count_request s)))
  | (Aborted, t) => (Aborted, with_tables t (count_request (count_request s)))
  end.
Proof. unfold mbind, prog_bind, lease, execute, request, on_tables, zoom. cbn. by destruct (m _) as [[]]. Qed.

(** An update whose rows stand for a store goes through. *)
Lemma update_through T store operation matches change t rows :
  change_rows matches change (sessions t) = rows -> sim T store rows ->
  update operation matches change t = (Ok (change <$> matching matches (sessions t)), with_sessions (fun _ => rows) t).
Proof.
  intros <- Hsim. unfold update.
  replace (forallb _ _) with true; [rewrite bool_decide_eq_true_2 by (by eapply sim_digests); done|].
  symmetry. apply forallb_forall. intros p Hp%list_elem_of_In.
  apply list_elem_of_fmap in Hp as (row & -> & [Hm [k Hk]]%elem_of_matching).
  apply (sim_sound _ _ _ Hsim k). by rewrite lookup_change_rows, Hk; cbn; rewrite Hm.
Qed.


Section refinement.
Context `{Plat : Platform, !PlatformLaws Plat} {W : Type}.
Import InMemorySessionRepository(m_sessions, m_tokens).
Implicit Types (store : InMemorySessionRepository.t) (s : database Deployment.t W).

(** The answers of the two sides to one presented token. *)
Definition agree (x y : Result Session.t) : Prop :=
  match x with Ok m => y = Ok (normal m) | _ => is_ok y = false end.

(** The tables of a server that answers stand for the store at the time [T]. *)
Abbreviation stands T store s := (sim T store (sessions (db_tables s))).

Lemma unmarked_update T store s operation matches change (C : Type)
    (k : list Session.t -> prog (database Deployment.t W) Error C) :
  stands T store s ->
  (forall k p, sessions (db_tables s) !! k = Some p -> matches p = false) ->
  (_ ← lease; rows ← execute operation (update operation matches change); k rows) s =
    k [] (with_tables (with_sessions (fun _ => sessions (db_tables s)) (db_tables s)) (count_request (count_request s))).
Proof.
  intros Hsim Hnone. rewrite reliable_statement.
  destruct (change_rows_none matches change _ Hnone) as [Em Ec].
  by rewrite (update_through T store _ _ _ _ _ Ec Hsim), Em.
Qed.

Lemma marked_update T store s operation matches change (C : Type)
    (k : list Session.t -> prog (database Deployment.t W) Error C) id p :
  sessions (db_tables s) !! id = Some p -> matches p = true ->
  (forall id' p', sessions (db_tables s) !! id' = Some p' -> matches p' = true -> id' = id) ->
  sim T store (<[id := change p]> (sessions (db_tables s))) ->
  (_ ← lease; rows ← execute operation (update operation matches change); k rows) s =
    k [change p] (with_tables (with_sessions (fun _ => <[id := change p]> (sessions (db_tables s))) (db_tables s))
                    (count_request (count_request s))).
Proof.
  intros Hk Hm Hone Hsim. rewrite reliable_statement.
  destruct (change_rows_one matches change _ _ _ Hk Hm Hone) as [Em Ec].
  by rewrite (update_through T store _ _ _ _ _ Ec Hsim), Em.
Qed.

(** A digest has one row. *)
Lemma digest_unique T store rows token k k' p' :
  sim T store rows -> m_tokens store !! token = Some k -> rows !! k' = Some p' -> Session.tokenDigest p' = token -> k' = k.
Proof.
  intros Hsim Htok Hp' Hd. assert (m_tokens store !! token = Some k') by (apply (sim_token _ _ _ _ _ Hsim); by exists p').
  congruence.
Qed.

(** One row and its session, presented with a token. *)

Lemma use_over T now m p token : lag T m p -> T <= now -> active p = false \/ Session.isExpiredAt m now = true ->
  let u := (Session.use token now m).1 in let m' := (Session.use token now m).2 in
  is_ok u = false /\ Session.id m' = Session.id m /\ Session.tokenDigest m' = Session.tokenDigest m /\
  (active p = true -> m' = Session.set_state m SessionState.Expired) /\ (active p = false -> m' = m).
Proof.
  intros Hlag HT Hover. unfold active in *. rewrite bool_decide_eq_true, bool_decide_eq_false in *. unfold Session.use.
  assert (Session.state m = SessionState.Expired -> Session.set_state m SessionState.Expired = m) as Hsame
    by (destruct m; cbn; by intros ->).
  destruct (lag_state _ _ _ Hlag) as [[Est _]|[Est _]].
  - case_bool_decide as Hm; cbn; [|split_and!; done || congruence].
    destruct Hover as [?|Hexp]; [congruence|]. rewrite Hexp. cbn. split_and!; done || congruence.
  - rewrite bool_decide_eq_false_2 by congruence. cbn. split_and!; try done. by rewrite Hsame.
Qed.

Lemma touch_over T now m p : lag T m p -> sound T p -> T <= now -> active p = true -> Session.isExpiredAt m now = true ->
  lag now (Session.set_state m SessionState.Expired) (touch now p) /\ sound now (touch now p) /\ active (touch now p) = false.
Proof.
  intros Hlag Hsound HT Hact Hexp. apply bool_decide_eq_true in Hact.
  pose proof (sound_order _ _ Hsound) as (Ho1 & Ho2 & Ho3 & Ho4).
  assert (touch now p = Session.set p SessionState.Expired (Session.tokenDigest p) (Session.lastSeenAt p) (Session.revokedAt p)) as ->.
  { unfold touch, lasts. rewrite <- (lag_expired _ _ _ now Hlag) in Hexp.
    unfold Session.isExpiredAt, Session.idleExpiresAt in Hexp. rewrite Hexp. apply orb_true_iff in Hexp.
    rewrite !Z.leb_le in Hexp. f_equal. destruct (_ && _) eqn:Hl; [|done]. bool_prop. lia. }
  split_and!; [|eapply sound_set; try done|done].
  - split; [by rewrite (lag_row _ _ _ Hlag)|]. right. split; [done|]. exact Hexp.
  - split; [done|]. intros Hr%Ho4. congruence.
Qed.

Lemma touch_lasts T now m p : lag T m p -> sound T p -> T <= now -> active p = true -> Session.isExpiredAt m now = false ->
  lag now (Session.set_lastSeenAt m now) (touch now p) /\ sound now (touch now p) /\
  touch now p = normal (Session.set_lastSeenAt m now) /\ Session.state m = SessionState.Active.
Proof.
  intros Hlag Hsound HT Hact Hexp. pose proof Hact as Hact'%bool_decide_eq_true.
  pose proof (sound_order _ _ Hsound) as (Ho1 & Ho2 & Ho3 & Ho4).
  destruct (lag_state _ _ _ Hlag) as [[Est Erv]|[_ Hdead]].
  2: { apply (isExpiredAt_later _ _ now) in Hdead; [congruence|done]. }
  rewrite <- (lag_expired _ _ _ now Hlag) in Hexp. apply Session.isExpiredAt_false in Hexp as [Ha Hi].
  assert (touch now p = Session.set p (Session.state p) (Session.tokenDigest p) now (Session.revokedAt p)) as Et.
  { unfold touch, lasts. rewrite (proj2 (Z.ltb_lt _ _)), (proj2 (Z.ltb_lt _ _)) by lia.
    destruct (_ || _) eqn:Hd; [|done]. rewrite orb_true_iff, !Z.leb_le in Hd. lia. }
  assert (touch now p = normal (Session.set_lastSeenAt m now)) as En.
  { rewrite Et, (lag_row _ _ _ Hlag). unfold normal, Session.set_lastSeenAt, Session.set. cbn. by rewrite Est, Erv. }
  split_and!; [|rewrite Et; eapply sound_set; try done; destruct Hsound; lia|done|congruence].
  rewrite En. split; [done|by left].
Qed.

Lemma sim_use T now store s token :
  stands T store s -> T <= now ->
  stands now (sr_use token now store).2 (use token now s).2 /\
  agree (sr_use token now store).1 (use token now s).1.
Proof.
  intros Hsim HT. cbn [sr_use InMemorySessionRepository.repository]. pose proof (sim_later _ _ _ _ HT Hsim) as Hlater.
  destruct (InMemorySessionRepository.use token now store) as [x store'] eqn:Hstore.
  apply use_cases in Hstore as [(Htok & -> & ->)|(k & m & u & m' & Htok & Hm & Hu & -> & ->)];
    [| |by apply (sim_consistent _ _ _ Hsim)]; unfold use.
  { rewrite (unmarked_update T store); [by split|done|]. intros k p Hp. apply andb_false_iff; left.
    apply bool_decide_eq_false. intros Hd.
    assert (m_tokens store !! token = Some k) by (apply (sim_token _ _ _ _ _ Hsim); by exists p). congruence. }
  pose proof Htok as (p & Hp & Hd)%(sim_token _ _ _ _ _ Hsim).
  pose proof (sim_some _ _ _ _ _ Hsim Hm) as (p0 & Hp0 & Hlag). rewrite Hp in Hp0. injection Hp0 as <-.
  assert (forall k' p', sessions (db_tables s) !! k' = Some p' ->
    bool_decide (Session.tokenDigest p' = token) && active p' = true -> k' = k) as Hone.
  { intros k' p' Hp' [E%bool_decide_eq_true _]%andb_true_iff. by eapply digest_unique. }
  pose proof (sim_sound _ _ _ Hsim _ _ Hp) as Hsound. pose proof (sim_consistent _ _ _ Hsim) as Hcons.
  destruct (active p) eqn:Hact; [destruct (Session.isExpiredAt m now) eqn:Hexp|].
  - destruct (use_over T now m p token Hlag HT) as (Hno & E1 & E2 & E3 & _); [by right|]. rewrite Hu in *. cbn in *.
    rewrite (E3 Hact) in *. destruct (touch_over T now m p) as (Hl & Hs & Ha); [done..|].
    assert (sim now (InMemorySessionRepository.mk (<[k := Session.set_state m SessionState.Expired]> (m_sessions store)) (m_tokens store))
      (<[k := touch now p]> (sessions (db_tables s)))) as Hnext
      by (eapply sim_update; [done|done|by eapply consistent_update|done|done]).
    erewrite marked_update; [|exact Hp|by rewrite Hd, Hact, bool_decide_eq_true_2|exact Hone|exact Hnext].
    unfold mbind, prog_bind, lift. rewrite (sound_reads _ _ Hs), Ha. cbn. split; [done|]. by destruct u.
  - destruct (touch_lasts T now m p) as (Hl & Hs & En & Hst); [done..|].
    assert (u = ok /\ m' = Session.set_lastSeenAt m now) as [-> ->].
    { apply Session.isExpiredAt_false in Hexp. apply lag_fields in Hlag as (_ & _ & Ed & _).
      assert (Session.usable m token now) as Hus by (unfold Session.usable; split_and!; try tauto; congruence).
      rewrite (proj2 (Session.use_ok_iff _ _ _ _) (conj Hus eq_refl)) in Hu. by injection Hu as <- <-. }
    assert (sim now (InMemorySessionRepository.mk (<[k := Session.set_lastSeenAt m now]> (m_sessions store)) (m_tokens store))
      (<[k := touch now p]> (sessions (db_tables s)))) as Hnext
      by (eapply sim_update; [done|done|by eapply consistent_update|done|done]).
    erewrite marked_update; [|exact Hp|by rewrite Hd, Hact, bool_decide_eq_true_2|exact Hone|exact Hnext].
    unfold mbind, prog_bind, lift. rewrite (sound_reads _ _ Hs).
    assert (active (touch now p) = true) as -> by (rewrite En; apply bool_decide_eq_true_2; exact Hst).
    cbn. split; [done|]. by rewrite <- En.
  - destruct (use_over T now m p token Hlag HT) as (Hno & _ & _ & _ & E); [by left|]. rewrite Hu in *. cbn in *.
    rewrite (E Hact), insert_id by done. rewrite (unmarked_update T store); [|done|].
    + split; [by destruct store|by destruct u].
    + intros k' p' Hp'. destruct (_ && _) eqn:Hm'; [|done]. pose proof (Hone _ _ Hp' Hm') as ->.
      apply andb_true_iff in Hm' as [_ Hm']. congruence.
Qed.
(** *** Rotation *)

Lemma rotates_spec id e now p : rotates id e now p = true <->
  Session.id p = id /\ Session.tokenDigest p = e /\ active p = true /\ Session.isExpiredAt p now = false.
Proof.
  unfold rotates, lasts. rewrite !andb_true_iff, !bool_decide_eq_true, !Z.ltb_lt, Session.isExpiredAt_false. tauto.
Qed.

(** The row of the table moves exactly when the session of the store does. *)
Lemma rotates_use T now m p id e : lag T m p -> T <= now -> Session.id p = id ->
  let u := (Session.use e now m).1 in let m' := (Session.use e now m).2 in
  if rotates id e now p then u = ok /\ m' = Session.set_lastSeenAt m now /\ Session.state p = Session.state m /\ Session.revokedAt p = Session.revokedAt m
  else is_ok u = false /\ lag now m' p /\ Session.id m' = Session.id m /\ Session.tokenDigest m' = Session.tokenDigest m.
Proof.
  intros Hlag HT Hid. pose proof (lag_fields _ _ _ Hlag) as (_ & _ & Ed & _). destruct (rotates id e now p) eqn:Hr.
  - apply rotates_spec in Hr as (_ & Hd & Hact & Hexp). apply bool_decide_eq_true in Hact.
    rewrite (lag_expired _ _ _ now Hlag) in Hexp.
    destruct (lag_state _ _ _ Hlag) as [[Est Erv]|[_ Hdead]].
    2: { apply (isExpiredAt_later _ _ now) in Hdead; [congruence|done]. }
    apply Session.isExpiredAt_false in Hexp.
    assert (Session.usable m e now) as Hus by (unfold Session.usable; split_and!; try tauto; congruence).
    by rewrite (proj2 (Session.use_ok_iff _ _ _ _) (conj Hus eq_refl)).
  - destruct (Session.use e now m) as [u m'] eqn:Hu. cbn. assert (is_ok u = false) as Hno.
    { destruct u as [[]|err|]; [|done|done]. exfalso. apply Session.use_ok_iff in Hu as [(Hst & Ha & Hi & ->) _].
      assert (rotates id (Session.tokenDigest m) now p = true); [|congruence]. apply rotates_spec.
      rewrite (lag_expired _ _ _ now Hlag), Session.isExpiredAt_false. split_and!; try done.
      apply bool_decide_eq_true. destruct (lag_state _ _ _ Hlag) as [[-> _]|[E _]]; [done|congruence]. }
    split; [done|]. pose proof (use_digest _ _ _ _ _ Hu) as [? ?]. split; [|done].
    unfold Session.use in Hu. apply (lag_later _ now) in Hlag; [|done].
    case_bool_decide; cbn in Hu; [|by injection Hu as <- <-].
    destruct (Session.isExpiredAt m now) eqn:Hexp; [|by destruct (negb _) in Hu; injection Hu as <- <-].
    injection Hu as <- <-. split; [by rewrite (lag_row _ _ _ Hlag)|by right].
Qed.

(** A digest that is taken fails the update. *)
Lemma update_taken operation matches change t k k' p p' :
  sessions t !! k = Some p -> matches p = true -> sessions t !! k' = Some p' -> k' <> k -> matches p' = false ->
  Session.tokenDigest (change p) = Session.tokenDigest p' -> (update operation matches change t).2 = t.
Proof.
  intros Hp Hm Hp' Hne Hm' Hd. unfold update. destruct (negb _); [done|].
  rewrite bool_decide_eq_false_2; [done|]. intros Hnd. unfold digests in Hnd.
  assert ((k, change p) ∈ map_to_list (change_rows matches change (sessions t))) as Hin.
  { apply elem_of_map_to_list. rewrite lookup_change_rows, Hp. cbn. by rewrite Hm. }
  assert ((k', p') ∈ map_to_list (change_rows matches change (sessions t))) as Hin'.
  { apply elem_of_map_to_list. rewrite lookup_change_rows, Hp'. cbn. by rewrite Hm'. }
  apply list_elem_of_lookup in Hin as [i Hi], Hin' as [j Hj].
  assert (i = j) as <-; [|congruence]. eapply NoDup_lookup; [exact Hnd|..];
    rewrite list_lookup_fmap, ?Hi, ?Hj; cbn; [done|by rewrite Hd].
Qed.

Lemma sim_rotate T now store s id e d :
  stands T store s -> T <= now -> e <> d -> length d = 32%nat ->
  stands now (sr_rotate id e d now store).2 (rotate id e d now s).2.
Proof.
  intros Hsim HT Hne Hlen. cbn [sr_rotate InMemorySessionRepository.repository]. pose proof (sim_later _ _ _ _ HT Hsim) as Hlater.
  assert (forall k p, sessions (db_tables s) !! k = Some p -> rotates id e now p = true -> k = id) as Hone.
  { intros k p Hp (Hid & _)%rotates_spec. by rewrite <- (sim_key _ _ _ _ _ Hsim Hp). }
  assert ((forall p, sessions (db_tables s) !! id = Some p -> rotates id e now p = false) ->
    sessions (db_tables (rotate id e d now s).2) = sessions (db_tables s)) as Hstill.
  { intros Hno. unfold rotate. rewrite (unmarked_update T store); [done|done|]. intros k p Hp. destruct (rotates id e now p) eqn:Hr; [|done].
    pose proof (Hone _ _ Hp Hr) as ->. by rewrite <- Hr, Hno. }
  unfold InMemorySessionRepository.rotate. destruct (m_sessions store !! id) as [m|] eqn:Hm.
  2: { rewrite Hstill; [done|]. intros p Hp. apply (sim_none _ _ _ _ Hsim) in Hm. congruence. }
  destruct (sim_some _ _ _ _ _ Hsim Hm) as (p & Hp & Hlag). pose proof (sim_key _ _ _ _ _ Hsim Hp) as Hid.
  pose proof (sim_consistent _ _ _ Hsim) as Hcons. pose proof (sim_sound _ _ _ Hsim _ _ Hp) as Hsound.
  pose proof (rotates_use T now m p id e Hlag HT Hid) as Huse. unfold Session.rotateToken. cbn zeta in Huse.
  destruct (Session.use e now m) as [u m'] eqn:Hu. cbn in Huse. case_bool_decide as Htaken.
  - destruct (rotates id e now p) eqn:Hr.
    2: { rewrite Hstill; [done|]. intros p0. rewrite Hp. by intros [= <-]. }
    unfold rotate. rewrite reliable_statement. destruct Htaken as [k Hk]. pose proof Hk as (q & Hq & Hqd)%(sim_token _ _ _ _ _ Hsim).
    apply rotates_spec in Hr as (_ & Hpd & Hact & Hexp).
    assert (k <> id) as Hkid by (intros ->; congruence).
    pose proof (update_taken "rotate session" (rotates id e now) (withToken d now) (db_tables s) id k p q Hp) as Hup.
    rewrite rotates_spec in Hup. specialize (Hup (conj Hid (conj Hpd (conj Hact Hexp))) Hq Hkid).
    assert ((update "rotate session" (rotates id e now) (withToken d now) (db_tables s)).2 = db_tables s) as E.
    { apply Hup; [|done]. destruct (rotates id e now q) eqn:Hr; [|done]. by destruct Hkid; eapply Hone. }
    destruct (update _ _ _ _) as [[rows|?|] t]; cbn in E; subst; cbn; [|done..]. by destruct rows as [|? [|]].
  - destruct (rotates id e now p) eqn:Hr.
    + destruct Huse as (-> & -> & Est & Erv). apply eq_None_not_Some in Htaken.
      pose proof (sound_order _ _ Hsound) as (Ho1 & Ho2 & Ho3 & Ho4). apply rotates_spec in Hr as Hr'.
      destruct Hr' as (_ & Hpd & _ & [Ha Hi]%Session.isExpiredAt_false).
      assert (sim now (InMemorySessionRepository.mk
          (<[id := Session.set_tokenDigest (Session.set_lastSeenAt m now) d]> (m_sessions store))
          (<[d := id]> (delete (Session.tokenDigest m) (m_tokens store))))
        (<[id := withToken d now p]> (sessions (db_tables s)))) as Hnext.
      { eapply sim_update; [done|done|by eapply consistent_rotate| |eapply sound_set; try done; destruct Hsound; lia].
        split; [by rewrite (lag_row _ _ _ Hlag)|by left]. }
      unfold rotate. by erewrite marked_update; [|exact Hp|exact Hr|exact Hone|exact Hnext].
    + destruct Huse as (Hno & Hlag' & E1 & E2). rewrite Hstill by (intros p0; rewrite Hp; by intros [= <-]).
      assert (sim now (InMemorySessionRepository.mk (<[id := m']> (m_sessions store)) (m_tokens store)) (sessions (db_tables s))) as Hnext.
      { rewrite <- (insert_id (sessions (db_tables s)) id p Hp).
        eapply sim_update; [done|done|by eapply consistent_update|done|by eapply sound_later]. }
      by destruct u as [[]| |].
Qed.
(** *** Revocation and removal *)

Lemma sim_revoke T now store s id :
  stands T store s -> T <= now -> stands now (sr_revoke id now store).2 (revoke id now s).2.
Proof.
  intros Hsim HT. cbn [sr_revoke InMemorySessionRepository.repository]. pose proof (sim_later _ _ _ _ HT Hsim) as Hlater.
  assert (forall k p, sessions (db_tables s) !! k = Some p ->
    bool_decide (Session.id p = id) && active p = true -> k = id) as Hone.
  { intros k p Hp [Hid%bool_decide_eq_true _]%andb_true_iff. by rewrite <- (sim_key _ _ _ _ _ Hsim Hp). }
  assert ((forall p, sessions (db_tables s) !! id = Some p -> active p = false) ->
    sessions (db_tables (revoke id now s).2) = sessions (db_tables s)) as Hstill.
  { intros Hno. unfold revoke. rewrite (unmarked_update T store); [|done|].
    - unfold mbind, prog_bind, select, execute, request, on_tables, zoom. cbn.
      destruct (_ !! id) as [p|]; cbn; [by case_bool_decide|done].
    - intros k p Hp. destruct (_ && _) eqn:Hm; [|done]. pose proof (Hone _ _ Hp Hm) as ->.
      apply andb_true_iff in Hm as [_ Ha]. by rewrite (Hno p Hp) in Ha. }
  unfold InMemorySessionRepository.revoke. destruct (m_sessions store !! id) as [m|] eqn:Hm.
  2: { rewrite Hstill; [done|]. intros p Hp. apply (sim_none _ _ _ _ Hsim) in Hm. congruence. }
  destruct (sim_some _ _ _ _ _ Hsim Hm) as (p & Hp & Hlag). pose proof (sim_key _ _ _ _ _ Hsim Hp) as Hid.
  pose proof (sim_consistent _ _ _ Hsim) as Hcons. pose proof (sim_sound _ _ _ Hsim _ _ Hp) as Hsound.
  pose proof (sound_order _ _ Hsound) as (Ho1 & Ho2 & Ho3 & Ho4).
  destruct (Session.revoke now m) as [u m'] eqn:Hu. pose proof (revoke_digest _ _ _ _ Hu) as [E1 E2].
  destruct (active p) eqn:Hact.
  - assert (lag now m' (withRevocation now p)) as Hlag'.
    { apply bool_decide_eq_true in Hact. unfold Session.revoke in Hu.
      destruct (lag_state _ _ _ Hlag) as [[Est _]|[Est Hexp]].
      - rewrite <- Est, Hact in Hu. cbn in Hu. injection Hu as <- <-.
        split; [by rewrite (lag_row _ _ _ Hlag)|by left].
      - rewrite Est in Hu. cbn in Hu. injection Hu as <- <-. split; [by rewrite (lag_row _ _ _ Hlag)|right].
        split; [done|by eapply isExpiredAt_later]. }
    assert (sim now (InMemorySessionRepository.mk (<[id := m']> (m_sessions store)) (m_tokens store))
      (<[id := withRevocation now p]> (sessions (db_tables s)))) as Hnext.
    { eapply sim_update; [done|done|by eapply consistent_update|done|eapply sound_set; done]. }
    unfold revoke. by erewrite marked_update; [|exact Hp|by rewrite Hact, bool_decide_eq_true_2|exact Hone|exact Hnext].
  - assert (m' = m) as ->.
    { apply bool_decide_eq_false in Hact. unfold Session.revoke in Hu.
      destruct (lag_state _ _ _ Hlag) as [[Est _]|[Est _]]; destruct (Session.state m) eqn:Est'; cbn in Hu;
        by injection Hu as <- <-. }
    rewrite insert_id, Hstill by (done || intros p0; rewrite Hp; by intros [= <-]). by destruct store.
Qed.

(** The sessions that the loop of [revokeAll] closes. *)
Definition closeOne (identity : IdentityId) (now : Instant) m : Session.t :=
  if bool_decide (Session.identity m = identity) && bool_decide (Session.state m = SessionState.Active)
  then Session.set m SessionState.Revoked (Session.tokenDigest m) (Session.lastSeenAt m) (Some now) else m.

Lemma revokeEach_closes identity now entries n store :
  NoDup entries.*1 -> (forall k m, (k, m) ∈ entries -> m_sessions store !! k = Some m) ->
  let store' := (InMemorySessionRepository.revokeEach identity now entries n store).2 in
  m_tokens store' = m_tokens store /\
  forall k, m_sessions store' !! k = if decide (k ∈ entries.*1) then closeOne identity now <$> m_sessions store !! k
                                     else m_sessions store !! k.
Proof.
  revert n store. induction entries as [|[k m] entries IH]; intros n store Hnd Hin; cbn [InMemorySessionRepository.revokeEach].
  { split; [done|]. intros k. by rewrite decide_False by set_solver. }
  rewrite fmap_cons in Hnd |- *. apply NoDup_cons in Hnd as [Hk Hnd]. cbn in Hk.
  assert (m_sessions store !! k = Some m) as Hm by (apply Hin; by left).
  destruct (_ && _) eqn:Hc.
  - assert (Session.revoke now m = (ok, closeOne identity now m)) as ->.
    { unfold closeOne. rewrite Hc. apply andb_true_iff in Hc as [_ Hst%bool_decide_eq_true]. unfold Session.revoke.
      by rewrite Hst. }
    cbn. set (store1 := InMemorySessionRepository.mk _ _). destruct (IH (S n) store1 Hnd) as [Et Es].
    { intros k' m' Hin'. cbn. rewrite lookup_insert_ne; [apply Hin; by right|]. intros <-. apply Hk.
      apply list_elem_of_fmap. by exists (k, m'). }
    split; [done|]. intros k'. rewrite Es. cbn. destruct (decide (k' = k)) as [->|Hne].
    + rewrite decide_False by done. rewrite decide_True by (by left). by rewrite lookup_insert_eq, Hm.
    + rewrite lookup_insert_ne by done. apply decide_ext. set_solver.
  - destruct (IH n store Hnd) as [Et Es]; [set_solver|]. split; [done|]. intros k'. rewrite Es.
    destruct (decide (k' = k)) as [->|Hne].
    + rewrite decide_False by done. rewrite decide_True by (by left). rewrite Hm. cbn. unfold closeOne. by rewrite Hc.
    + apply decide_ext. set_solver.
Qed.

Lemma revokeAll_closes_each identity now store :
  let store' := (sr_revokeAll identity now store).2 in
  m_tokens store' = m_tokens store /\ m_sessions store' = closeOne identity now <$> m_sessions store.
Proof.
  destruct (revokeEach_closes identity now (map_iter (m_sessions store)) 0 store) as [Et Es].
  - apply NoDup_map_iter_fst.
  - by intros k m ?%elem_of_map_iter.
  - split; [exact Et|]. apply map_eq. intros k. rewrite lookup_fmap. cbn in Es |- *.
    unfold InMemorySessionRepository.revokeAll. rewrite Es. case_decide as Hk; [done|].
    destruct (m_sessions store !! k) as [m|] eqn:Hm; [|done]. destruct Hk. apply list_elem_of_fmap. exists (k, m).
    split; [done|]. by apply elem_of_map_iter.
Qed.

Lemma lag_close T now m p identity : lag T m p -> sound T p -> T <= now ->
  let p' := if bool_decide (Session.identity p = identity) && active p then withRevocation now p else p in
  lag now (closeOne identity now m) p' /\ sound now p'.
Proof.
  intros Hlag Hsound HT. pose proof (sound_order _ _ Hsound) as (Ho1 & Ho2 & Ho3 & Ho4).
  pose proof (lag_fields _ _ _ Hlag) as (_ & Ei & _). rewrite Ei. cbn zeta. unfold closeOne, active.
  destruct (bool_decide (Session.identity m = identity)); cbn; [|split; [by eapply lag_later|by eapply sound_later]].
  destruct (decide (Session.state p = SessionState.Active)) as [Hact|Hact];
    [rewrite (bool_decide_eq_true_2 _ Hact)|rewrite (bool_decide_eq_false_2 _ Hact)].
  - split; [|by eapply sound_set]. destruct (lag_state _ _ _ Hlag) as [[Est _]|[Est Hexp]].
    + rewrite bool_decide_eq_true_2 by congruence. split; [by rewrite (lag_row _ _ _ Hlag)|by left].
    + rewrite bool_decide_eq_false_2 by congruence. split; [by rewrite (lag_row _ _ _ Hlag)|right].
      split; [done|by eapply isExpiredAt_later].
  - rewrite bool_decide_eq_false_2; [split; [by eapply lag_later|by eapply sound_later]|].
    destruct (lag_state _ _ _ Hlag) as [[Est _]|[Est _]]; congruence.
Qed.

Lemma sim_revokeAll T now store s identity :
  stands T store s -> T <= now -> stands now (sr_revokeAll identity now store).2 (revokeAll identity now s).2.
Proof.
  intros Hsim HT. destruct (revokeAll_closes_each identity now store) as [_ Es].
  assert (sim now (sr_revokeAll identity now store).2
    (change_rows (fun row => bool_decide (Session.identity row = identity) && active row) (withRevocation now)
       (sessions (db_tables s)))) as Hnext.
  { split.
    - apply (run_consistent [SRevokeAll identity now]), (sim_consistent _ _ _ Hsim).
    - intros k. rewrite Es, lookup_change_rows, lookup_fmap. pose proof (sim_sound _ _ _ Hsim k) as Hs.
      destruct (sim_lag _ _ _ Hsim k) as [m p Hlag|]; constructor. eapply lag_close; [done|by apply Hs|done].
    - intros k p. rewrite lookup_change_rows. intros (p0 & Hp0 & ->)%fmap_Some.
      destruct (sim_row _ _ _ _ _ Hsim Hp0) as (m & _ & Hlag).
      eapply lag_close; [done|by eapply sim_sound|done]. }
  unfold revokeAll. rewrite reliable_statement. by rewrite (update_through now _ _ _ _ _ _ eq_refl Hnext).
Qed.

Lemma purgeEach_removes now entries n store :
  NoDup entries.*1 -> (forall k m, (k, m) ∈ entries -> m_sessions store !! k = Some m) ->
  forall k, m_sessions (InMemorySessionRepository.purgeEach now entries n store).2 !! k =
    match m_sessions store !! k with
    | Some m => if bool_decide (k ∈ entries.*1) && Session.isExpiredAt m now then None else Some m
    | None => None
    end.
Proof.
  revert n store. induction entries as [|[k m] entries IH]; intros n store Hnd Hin k'; cbn [InMemorySessionRepository.purgeEach].
  { cbn. by destruct (_ !! _). }
  rewrite fmap_cons in Hnd |- *. apply NoDup_cons in Hnd as [Hk Hnd]. cbn in Hk.
  assert (m_sessions store !! k = Some m) as Hm by (apply Hin; by left).
  assert (forall k' m', (k', m') ∈ entries -> k' <> k) as Hne.
  { intros k1 m1 Hin1 ->. apply Hk, list_elem_of_fmap. by exists (k, m1). }
  destruct (Session.isExpiredAt m now) eqn:He.
  - rewrite IH; [|done|].
    2: { intros k1 m1 Hin1. cbn. rewrite lookup_delete_ne by (symmetry; by eapply Hne). apply Hin. by right. }
    cbn. destruct (decide (k' = k)) as [->|Hk'].
    + rewrite lookup_delete_eq, Hm, He. by rewrite bool_decide_eq_true_2 by (by left).
    + rewrite lookup_delete_ne by done. destruct (_ !! k'); [|done].
      rewrite (bool_decide_ext (k' ∈ entries.*1) (k' ∈ k :: entries.*1)); [done|set_solver].
  - rewrite IH; [|done|set_solver]. destruct (decide (k' = k)) as [->|Hk'].
    + rewrite Hm, He, !andb_false_r. done.
    + destruct (_ !! k'); [|done]. rewrite (bool_decide_ext (k' ∈ entries.*1) (k' ∈ k :: entries.*1)); [done|set_solver].
Qed.

Lemma sim_purge T now store s :
  stands T store s -> T <= now -> stands now (sr_purgeExpired now store).2 (purgeExpired now s).2.
Proof.
  intros Hsim HT. pose proof (sim_later _ _ _ _ HT Hsim) as Hlater.
  assert (sessions (db_tables (purgeExpired now s).2) =
    filter (fun row : SessionId * Session.t => Session.isExpiredAt row.2 now = false) (sessions (db_tables s))) as -> by done.
  split.
  - apply (run_consistent [SPurge now]), (sim_consistent _ _ _ Hsim).
  - intros k. cbn. unfold InMemorySessionRepository.purgeExpired.
    rewrite purgeEach_removes; [|apply NoDup_map_iter_fst|by intros ? ? ?%elem_of_map_iter].
    pose proof (sim_lag _ _ _ Hlater k) as Hk. destruct (m_sessions store !! k) as [m|] eqn:Hm; inversion Hk as [? p Hlag Hp1 Hp2|Hp1 Hp2].
    + rewrite bool_decide_eq_true_2.
      2: { apply list_elem_of_fmap. exists (k, m). split; [done|]. by apply elem_of_map_iter. }
      cbn. rewrite <- (lag_expired _ _ _ now Hlag). symmetry in Hp2. destruct (Session.isExpiredAt p now) eqn:He.
      * rewrite (proj2 (map_lookup_filter_None _ _ _)); [constructor|]. right. intros p1. rewrite Hp2. intros [= <-]. cbn. congruence.
      * rewrite (proj2 (map_lookup_filter_Some _ _ _ p)); [by constructor|done].
    + rewrite (proj2 (map_lookup_filter_None _ _ _)); [constructor|by left].
  - intros k p [Hp _]%map_lookup_filter_Some. by eapply sim_sound.
Qed.
(** *** New sessions *)

Lemma characters_length text : (characters text <= String.length text)%nat.
Proof. induction text as [|c text IH]; cbn; [lia|]. destruct (continuation_octet c); lia. Qed.

Lemma at_most_nullif bound value :
  longer_than bound value = false -> at_most (Z.to_nat bound) (nullif value) = true.
Proof.
  destruct value as [[|c text]|]; cbn [longer_than nullif at_most]; try done. intros H%Z.ltb_ge. apply Nat.leb_le.
  pose proof (characters_length (String c text)). lia.
Qed.

Lemma longer_than_nullif bound value : longer_than bound value = false -> longer_than bound (nullif value) = false.
Proof. destruct value as [[|c text]|]; done. Qed.

(** A session as [Session::create] makes it, with identifiers the columns take. *)
Definition storable (value : Session.t) : Prop :=
  (exists id identity provider assurance strength authenticatedAt digest issuedAt absolute idle agent address,
     Session.create id identity provider assurance strength authenticatedAt digest issuedAt absolute idle agent address = Ok value) /\
  between_1_and 200 (id_value (Session.id value)) = true /\ between_1_and 200 (id_value (Session.provider value)) = true /\
  length (Session.tokenDigest value) = 32%nat.

Lemma storable_row value : storable value ->
  sound (Session.issuedAt value) (rowOf value) /\ lag (Session.issuedAt value) value (rowOf value).
Proof.
  intros [(id & identity & provider & assurance & strength & auth & digest & issued & absolute & idle & agent & address & Hc)
          (Hid & Hprov & Hlen)].
  unfold Session.create in Hc. branch Hc Hg1; [done|]. branch Hc Hg2; [done|]. branch Hc Hg3; [done|]. branch Hc Hg4; [done|].
  injection Hc as <-. cbn in *. rewrite !orb_false_iff in *. bool_prop.
  repeat match goal with H : _ /\ _ |- _ => destruct H end.
  split.
  - split; cbn; [| |lia].
    + unfold row_checks. cbn. rewrite !andb_true_iff, Nat.eqb_eq. pose proof (at_most_nullif 1024 agent).
      pose proof (at_most_nullif 128 address). split_and!; try done; try lia; tauto.
    + unfold sessionFromRow, Session.restore. cbn. rewrite !longer_than_nullif by tauto.
      replace (_ || _) with false; [done|]. symmetry. rewrite !orb_false_iff. split_and!; try tauto; lia.
  - split; [done|by left].
Qed.

Lemma sim_add T store s value :
  stands T store s -> T <= Session.issuedAt value -> storable value ->
  is_Some (identities (db_tables s) !! Session.identity value) ->
  stands (Session.issuedAt value) (sr_add value store).2 (add value s).2.
Proof.
  intros Hsim HT Hst Hident. pose proof (sim_later _ _ _ _ HT Hsim) as Hlater.
  destruct (storable_row value Hst) as [Hsound Hlag]. cbn [sr_add InMemorySessionRepository.repository].
  unfold add, mbind, prog_bind, lease, execute, request, on_tables, zoom. cbn. unfold insert. rewrite (sound_checks _ _ Hsound). cbn.
  assert (bool_decide (is_Some (sessions (db_tables s) !! Session.id value)) =
          bool_decide (is_Some (m_sessions store !! Session.id value))) as ->.
  { apply bool_decide_ext. rewrite <- !not_eq_None_Some. by rewrite (sim_none _ _ _ _ Hsim). }
  assert (bool_decide (Session.tokenDigest value ∈ digests (sessions (db_tables s))) =
          bool_decide (is_Some (m_tokens store !! Session.tokenDigest value))) as ->.
  { apply bool_decide_ext. unfold digests. rewrite list_elem_of_fmap. split.
    - intros ([k p] & Hd & Hp%elem_of_map_to_list). exists k. apply (sim_token _ _ _ _ _ Hsim). by exists p.
    - intros [k (p & Hp & Hd)%(sim_token _ _ _ _ _ Hsim)]. exists (k, p). split; [done|]. by apply elem_of_map_to_list. }
  unfold InMemorySessionRepository.add.
  destruct (_ || _) eqn:Htaken; [done|]. apply orb_false_iff in Htaken as [Hn1 Hn2].
  apply bool_decide_eq_false, eq_None_not_Some in Hn1, Hn2. rewrite bool_decide_eq_true_2 by done. cbn. split.
  - apply consistent_insert; [by apply (sim_consistent _ _ _ Hsim)|done..].
  - intros k. cbn. rewrite !lookup_insert. case_decide; [by constructor|apply Hlater].
  - intros k p. rewrite lookup_insert. case_decide; [by intros [= <-]|apply Hlater].
Qed.

(** *** Runs *)

Definition op_time (o : session_op) : Instant :=
  match o with
  | SAdd value => Session.issuedAt value
  | SUse _ now | SRotate _ _ _ now | SRevoke _ now | SRevokeAll _ now | SPurge now => now
  end.

(** Operations in the order of time, from [T] to [now]. *)
Fixpoint in_order (T now : Instant) (os : list session_op) : Prop :=
  match os with [] => T <= now | o :: os => T <= op_time o /\ in_order (op_time o) now os end.

(** What the callers keep to: a session added is a new one of an identity of the
    tables, and a rotation has a new token of the length of a digest. *)
Definition well_formed_op (known : IdentityId -> Prop) (o : session_op) : Prop :=
  match o with
  | SAdd value => storable value /\ known (Session.identity value)
  | SRotate _ expected replacement _ => expected <> replacement /\ length replacement = 32%nat
  | _ => True
  end.

Lemma sim_step T store s o :
  stands T store s -> T <= op_time o -> well_formed_op (fun id => is_Some (identities (db_tables s) !! id)) o ->
  stands (op_time o) (session_step o store) (session_table_step o s).
Proof.
  intros Hsim HT Ho. destruct o as [value|token now|id e d now|id now|identity now|now]; cbn [op_time session_step session_table_step] in *.
  - destruct Ho. by eapply sim_add.
  - by eapply sim_use.
  - destruct Ho. by eapply sim_rotate.
  - by eapply sim_revoke.
  - by eapply sim_revokeAll.
  - by eapply sim_purge.
Qed.

Definition same_identities t t' : Prop := identities t' = identities t.
#[local] Instance same_identities_preorder : PreOrder same_identities.
Proof. split; [done|]. intros t1 t2 t3. unfold same_identities. congruence. Qed.

Lemma session_step_identities o s : identities (db_tables (session_table_step o s)) = identities (db_tables s).
Proof.
  assert (forall op matches change t, same_identities t (update op matches change t).2) as Hup.
  { intros op matches change t. by edestruct update_effect as [->| ->]. }
  assert (advances (S:=database Deployment.t W) (tables_along same_identities) lease) as Hlease by done.
  revert s. destruct o as [value|token now|id e d now|id now|identity now|now]; cbn [session_table_step].
  - change (advances (S:=database Deployment.t W) (tables_along same_identities) (add value)). unfold add. stride; [done|].
    unfold insert. by repeat case_match.
  - change (advances (S:=database Deployment.t W) (tables_along same_identities) (use token now)). unfold use. stride; done.
  - change (advances (S:=database Deployment.t W) (tables_along same_identities) (rotate id e d now)). unfold rotate. stride; done.
  - change (advances (S:=database Deployment.t W) (tables_along same_identities) (revoke id now)). unfold revoke. stride; done.
  - change (advances (S:=database Deployment.t W) (tables_along same_identities) (revokeAll identity now)). unfold revokeAll. stride; done.
  - done.
Qed.

Lemma sim_run T now os store s :
  stands T store s -> in_order T now os ->
  Forall (well_formed_op (fun id => is_Some (identities (db_tables s) !! id))) os ->
  stands now (session_run os store) (session_table_run os s).
Proof.
  revert T store s. induction os as [|o os IH]; intros T store s Hsim Horder Hwf; cbn in *; [by eapply sim_later|].
  apply Forall_cons in Hwf as [Ho Hwf]. destruct Horder as [HT Horder].
  apply (IH (op_time o)); [by apply (sim_step T)|done|]. eapply Forall_impl; [exact Hwf|]. cbn. intros o'. by rewrite session_step_identities.
Qed.

(** C21: The table of sessions refines the in-memory repository. Run the same
    operations, in the order of time and as the callers make them, on an empty
    store and on tables without sessions of a server that answers. Then whatever
    token is presented afterwards opens a session in the table exactly when it
    opens one in the store, and both answer with the same session, up to an
    empty text of the client, which the table does not keep. *)
Theorem session_table_refines_store T now os s token :
  sessions (db_tables s) = ∅ -> in_order T now os ->
  Forall (well_formed_op (fun id => is_Some (identities (db_tables s) !! id))) os ->
  agree (sr_use token now (session_run os InMemorySessionRepository.empty)).1
        (sr_use token now (session_table_run os s)).1.
Proof.
  intros E Horder Hwf.
  edestruct (sim_use now now (session_run os InMemorySessionRepository.empty) (session_table_run os s) token) as [_ Ha];
    [|reflexivity|exact Ha].
  apply (sim_run T now); [|done..]. rewrite E. split; [apply consistent_empty|intros k; constructor|done].
Qed.
End refinement.

(** ** Signing out *)

(** The active sessions afterwards are active sessions from before, of the same
    identities. *)
Definition no_revival t t' : Prop :=
  forall k row', sessions t' !! k = Some row' -> active row' = true ->
    exists row, sessions t !! k = Some row /\ active row = true /\ Session.identity row = Session.identity row'.

#[global] Instance no_revival_preorder : PreOrder no_revival.
Proof.
  split; [by intros t k row ? ?; exists row|]. intros t1 t2 t3 H12 H23 k row3 Hk Ha.
  destruct (H23 k row3 Hk Ha) as (row2 & Hk2 & Ha2 & E2). destruct (H12 k row2 Hk2 Ha2) as (row1 & ? & ? & E1).
  exists row1. split_and!; [done..|congruence].
Qed.

Lemma no_revival_same t t' : sessions t' = sessions t -> no_revival t t'.
Proof. intros E k row Hk Ha. rewrite E in Hk. by exists row. Qed.

Lemma no_revival_change t matches change :
  (forall row, Session.identity (change row) = Session.identity row) ->
  (forall row, matches row = true -> active (change row) = true -> active row = true) ->
  no_revival t (with_sessions (fun _ => change_rows matches change (sessions t)) t).
Proof.
  intros Hid Hact k row' Hk Ha. cbn in Hk. rewrite lookup_change_rows in Hk.
  apply fmap_Some in Hk as (row & Hk & ->). exists row. destruct (matches row) eqn:Hm; [|done].
  rewrite Hid. split_and!; [done|by apply Hact|done].
Qed.

Lemma no_revival_update operation matches change t :
  (forall row, Session.identity (change row) = Session.identity row) ->
  (forall row, matches row = true -> active (change row) = true -> active row = true) ->
  no_revival t (update operation matches change t).2.
Proof. intros Hid Hact. edestruct update_effect as [->| ->]; [reflexivity|by apply no_revival_change]. Qed.

Lemma no_revival_revokeSessions id now t : no_revival t (revokeSessions id now t).2.
Proof.
  intros k row' Hk Ha. cbn in Hk. rewrite lookup_fmap in Hk. apply fmap_Some in Hk as (row & Hk & ->).
  exists row. rewrite revokeRow_identity. split_and!; [done| |done]. unfold revokeRow in Ha.
  destruct (_ && _) eqn:E; [|done]. by apply andb_true_iff in E as [_ ?].
Qed.

Lemma no_revival_insertion op present referenced insert t :
  (forall u, sessions (insert u) = sessions u) -> no_revival t (insertion op present referenced insert t).2.
Proof. intros E. apply no_revival_same. by edestruct insertion_effect as [->|(_ & _ & ->)]. Qed.

Lemma no_revival_insertTotp op id seed version at_ t : no_revival t (insertTotp op id seed version at_ t).2.
Proof. apply no_revival_same. by edestruct insertTotp_effect as [->|[_ ->]]. Qed.

Lemma no_revival_resetTotp op id seed version now t : no_revival t (resetTotp op id seed version now t).2.
Proof. apply no_revival_same. unfold resetTotp. by destruct (negb _). Qed.

#[local] Hint Resolve no_revival_revokeSessions no_revival_insertTotp no_revival_resetTotp : no_revival.

Ltac unrevived := first
  [ solve [auto with no_revival]
  | by apply no_revival_insertion
  | by apply no_revival_same ].

Section sign_out.
Context `{Plat : Platform} `{Cred : !CredentialPlatform} {A : AeadPlatform} `{Db : Database}.
Context (r : PostgresAdministrationRepository.t).
Abbreviation state := (database Deployment.t world).
Abbreviation session B := (prog state Error B).
Implicit Types s : state.

(** *** Administration *)

Lemma no_revival_insertRoles op org id roles : advances (tables_along no_revival) (insertRoles op org id roles).
Proof. induction roles as [|role roles IH]; cbn [insertRoles]; stride; [unrevived|done]. Qed.

Lemma no_revival_logs :
  (forall h a sl event key, advances (tables_along no_revival) (appendChained h a sl event key)) /\
  (forall event type actor severity,
     advances (tables_along no_revival) (appendSecurityRecord event type actor severity)).
Proof. unfold appendChained, appendSecurityRecord. split; intros; stride; unrevived. Qed.

Lemma log_op_revives_nothing o : advances (tables_along no_revival) (run_log_op r o).
Proof.
  destruct o as [[a|org id now|[]]|]; cbn [run_log_op run_admin_op run_member_op];
    unfold initialize, repairInitialOwnerMembership, provision, replaceRoles, changeLifecycle, resetCredentials,
      PostgresAuthorizationDecisionSink.record, insertMember, appendAdministrationRecords, appendAuditRecord, serialize;
    unfold prepareAdministrationTransaction, administrationEvent, hashPassword, sealTotp, authorizeActiveOwner,
      lockLocalMember, keepAnOwner, activeOwnerCount, precondition, revokeMemberSessions, invalidActor, serialize; stride; first [apply no_revival_insertRoles|apply no_revival_logs|unrevived].
Qed.

Lemma member_op_ends_sessions o s s' :
  (forall actor e, o <> Provision actor e) -> run_member_op r o s = (Ok tt, s') ->
  forall k row, sessions (db_tables s') !! k = Some row -> Session.identity row = op_member o -> active row = false.
Proof.
  intros Hnew Hrun k row Hk Hid. apply bool_decide_eq_false. revert Hk Hid.
  destruct o as [actor e|actor c|actor c|actor c]; cbn [run_member_op] in Hrun; [by destruct (Hnew actor e)| | |].
  - apply replaceRoles_ok in Hrun as (_ & _ & Hq). apply quiet_tables in Hq as (_ & _ & Hs & _). rewrite Hs. apply ended_sessions.
  - apply changeLifecycle_ok in Hrun as (_ & member & next & _ & _ & _ & Hq). apply quiet_tables in Hq as (_ & _ & Hs & _).
    rewrite Hs. apply ended_sessions.
  - apply resetCredentials_ok in Hrun as (_ & owner & hash & seed & _ & _ & _ & _ & _ & Hq).
    apply quiet_tables in Hq as (_ & _ & Hs & _). rewrite Hs. apply ended_sessions.
Qed.

(** *** Sessions *)

Lemma lease_tables s : db_tables (lease s).2 = db_tables s.
Proof. unfold lease. by destruct (db_busy _). Qed.

Lemma lease_ok s x s' : lease s = (Ok x, s') -> db_tables s' = db_tables s.
Proof. intros H. rewrite <- (lease_tables s), H. done. Qed.

Lemma sessionFromRow_ok row value : sessionFromRow row = Ok value -> value = row.
Proof. unfold sessionFromRow, Session.restore. destruct (_ || _); [done|]. intros [= <-]. by destruct row. Qed.

(** What a token opens, whatever the server fails: an active row with that
    digest, before its deadlines, seen now. *)
Lemma use_ok token now s value s' :
  use token now s = (Ok value, s') ->
  exists k row, sessions (db_tables s) !! k = Some row /\ active row = true /\ Session.tokenDigest row = token /\
    now < Session.absoluteExpiresAt row /\ now < Session.lastSeenAt row + Session.idleTimeout row /\
    value = Session.set_lastSeenAt row now.
Proof.
  unfold use. intros Hrun. apply prog_bind_ok in Hrun as ([] & s1 & E1%lease_ok & Hrun).
  apply prog_bind_ok in Hrun as (rows & s2 & Hup & Hrun). apply execute_ok in Hup as (t & Hup & _).
  apply update_ok in Hup as (Erows & _). rewrite E1 in Erows. clear E1.
  destruct rows as [|row' [|]]; [done| |done]. symmetry in Erows.
  destruct (matching _ _) as [|row [|]] eqn:Hm in Erows; [done| |done]. injection Erows as <-.
  assert (row ∈ matching (fun row => bool_decide (Session.tokenDigest row = token) && active row) (sessions (db_tables s)))
    as [Hp [k Hk]]%elem_of_matching by (rewrite Hm; by left).
  apply andb_true_iff in Hp as [Hdig%bool_decide_eq_true Hact].
  apply prog_bind_ok in Hrun as (restored & s3 & [Hrest ->]%lift_ok & Hrun). apply sessionFromRow_ok in Hrest as ->.
  destruct (active (touch now row)) eqn:Hact'; [|done]. injection Hrun as <- <-. exists k, row.
  unfold touch, lasts, Session.set_lastSeenAt in *. cbn in *.
  destruct (_ || _) eqn:Hdead; [done|]. bool_prop.
  rewrite (proj2 (Z.ltb_lt _ _)), (proj2 (Z.ltb_lt _ _)) by lia. cbn. done.
Qed.

(** Operations on the table, and everything administration does. *)
Inductive table_op :=
  | Logged (o : log_op)
  | OnSession (o : session_op).

Definition table_step (o : table_op) s : state :=
  match o with Logged o => (run_log_op r o s).2 | OnSession o => session_table_step o s end.

Definition table_run (os : list table_op) s : state := foldl (fun s o => table_step o s) s os.

Lemma lease_along : advances (S:=state) (tables_along no_revival) lease.
Proof. apply along_still; [exact _|apply lease_tables]. Qed.

Lemma session_op_revives_nothing o s :
  (forall value, o <> SAdd value) -> no_revival (db_tables s) (db_tables (session_table_step o s)).
Proof.
  intros Hadd. destruct o as [value|token now|id e d now|id now|identity now|now]; cbn [session_table_step];
    [by destruct (Hadd value)|..].
  - revert s. change (advances (S:=state) (tables_along no_revival) (use token now)). unfold use. stride; [apply lease_along|].
    apply no_revival_update; [done|]. by intros row [_ ?]%andb_true_iff.
  - revert s. change (advances (S:=state) (tables_along no_revival) (rotate id e d now)). unfold rotate. stride; [apply lease_along|].
    apply no_revival_update; [done|]. intros row. unfold rotates. by rewrite !andb_true_iff.
  - revert s. change (advances (S:=state) (tables_along no_revival) (revoke id now)). unfold revoke. stride; [apply lease_along|].
    apply no_revival_update; [done|]. by intros row [_ ?]%andb_true_iff.
  - revert s. change (advances (S:=state) (tables_along no_revival) (revokeAll identity now)). unfold revokeAll.
    stride; [apply lease_along|]. apply no_revival_update; [done|]. by intros row [_ ?]%andb_true_iff.
  - unfold purgeExpired. rewrite counted_state. revert s.
    change (advances (S:=state) (tables_along no_revival)
      (_ ← lease; execute "purge sessions" (deleteRows (fun row => Session.isExpiredAt row now)))).
    stride; [apply lease_along|]. intros k row Hk Ha. cbn in Hk. apply map_lookup_filter_Some in Hk as [Hk _].
    by exists row.
Qed.

(** An identity without an active session. *)
Definition signed_out (id : IdentityId) t : Prop :=
  forall k row, sessions t !! k = Some row -> Session.identity row = id -> active row = false.

Lemma no_revival_signed_out id t t' : no_revival t t' -> signed_out id t -> signed_out id t'.
Proof.
  intros Hno Hout k row' Hk Hid. destruct (active row') eqn:Ha; [|done].
  destruct (Hno k row' Hk Ha) as (row & Hk0 & Ha0 & E). rewrite <- E in Hid. by rewrite (Hout k row Hk0 Hid) in Ha0.
Qed.

Lemma add_tables value s :
  db_tables (add value s).2 = db_tables s \/
  sessions (db_tables s) !! Session.id value = None /\
  db_tables (add value s).2 = with_sessions <[Session.id value := rowOf value]> (db_tables s).
Proof.
  unfold add, mbind, prog_bind. pose proof (lease_tables s) as El. destruct (lease s) as [[[]|e|] s1]; cbn in *; [|by left..].
  unfold execute, request. destruct (db_fault _); [by left|]. unfold on_tables, zoom, insert. cbn [db_tables count_request].
  rewrite El. destruct (negb (row_checks _)); [by left|]. destruct (_ || _) eqn:Hu; [by left|]. destruct (negb _); [by left|].
  apply orb_false_iff in Hu as [Hu _]. apply bool_decide_eq_false in Hu. rewrite <- eq_None_not_Some in Hu. by right.
Qed.

Lemma table_step_signed_out id o s :
  (forall value, o = OnSession (SAdd value) -> Session.identity value <> id) ->
  signed_out id (db_tables s) -> signed_out id (db_tables (table_step o s)).
Proof.
  intros Hadd. destruct o as [o|o]; cbn [table_step].
  - apply no_revival_signed_out, log_op_revives_nothing.
  - destruct o as [value| | | | |]; try (apply no_revival_signed_out; by apply session_op_revives_nothing).
    intros Hout. cbn [session_table_step]. destruct (add_tables value s) as [->|[_ ->]]; [done|].
    intros k row. cbn. rewrite lookup_insert. case_decide; [|by apply Hout]. intros [= <-] Hid. by destruct (Hadd value).
Qed.

(** C22: Who was signed out stays signed out. When an administrator replaced
    the roles of a member, suspended, reinstated or removed it, or reset its
    credentials, and that succeeded, then whatever operations of administration,
    records of denials and operations on sessions follow, and whatever request
    the server fails, no token at any time opens a session of that member,
    unless a session was added for it since. *)
Theorem signed_out_member_stays_out o s0 s os token now value s' :
  (forall actor e, o <> Provision actor e) -> run_member_op r o s0 = (Ok tt, s) ->
  Forall (fun o' => forall added, o' = OnSession (SAdd added) -> Session.identity added <> op_member o) os ->
  use token now (table_run os s) = (Ok value, s') ->
  Session.identity value <> op_member o.
Proof.
  intros Hnew Hrun Hos Huse Hid.
  assert (signed_out (op_member o) (db_tables (table_run os s))) as Hout.
  { pose proof (member_op_ends_sessions o s0 s Hnew Hrun) as Hstart. clear Hrun Huse. revert s Hstart.
    induction Hos as [|o' os Ho _ IH]; intros s Hstart; cbn; [done|]. by apply IH, table_step_signed_out. }
  apply use_ok in Huse as (k & row & Hk & Hact & _ & _ & _ & ->). by rewrite (Hout k row Hk Hid) in Hact.
Qed.
End sign_out.

(** ** A run *)

Module SessionTableWitnesses.
Import TestPlatform TestCipher CredentialWitnesses AdministrationWitnesses.

Definition digest_of (n : Z) : TokenDigest := replicate 32 (toByte n).
Definition sign_in (name : string) (id : IdentityId) (digest : Z) (now : Instant) : Session.t :=
  match Session.create (mkId name) id local_provider Ial2 (AuthenticationStrength.mk 1 true) now (digest_of digest) now
          10000 1000 (Some "browser") (Some "") with
  | Ok session => session
  | _ => rowOf (Session.mk (mkId "") id local_provider Ial2 (AuthenticationStrength.mk 0 true) SessionState.Revoked 0 [] 0 0 0 0 None None None)
  end.

(** Bob and Ada sign in, Bob's token is replaced, a stale one is refused. *)
Definition signing_in : list session_op :=
  [SAdd (sign_in "s1" bob 1 250); SAdd (sign_in "s2" ada 2 260); SRotate (mkId "s1") (digest_of 1) (digest_of 3) 270;
   SUse (digest_of 1) 280; SRevokeAll (mkId "nobody") 290; SPurge 300].

Abbreviation opened_by token now s := (use (W:=world (Platform:=test)) token now s).
Definition signed_in := session_table_run signing_in enrolled.
Definition suspended := (run_member_op (Plat:=test) (A:=test_cipher) AdministrationWitnesses.repository
  (ChangeLifecycle ada (suspension bob)) signed_in).2.

Lemma signed_in_storable :
  storable (sign_in "s1" bob 1 250) /\ storable (sign_in "s2" ada 2 260).
Proof.
  split; (split; [|vm_compute; done]).
  - exists (mkId "s1"), bob, local_provider, Ial2, (AuthenticationStrength.mk 1 true), 250, (digest_of 1), 250, 10000, 1000,
      (Some "browser"), (Some ""). reflexivity.
  - exists (mkId "s2"), ada, local_provider, Ial2, (AuthenticationStrength.mk 1 true), 260, (digest_of 2), 260, 10000, 1000,
      (Some "browser"), (Some ""). reflexivity.
Qed.

Lemma session_table_refines_store_witness :
  agree (Ok (Session.set_lastSeenAt (sign_in "s2" ada 2 260) 310)) (opened_by (digest_of 2) 310 signed_in).1.
Proof.
  apply (session_table_refines_store (Plat:=test) 0 310 signing_in enrolled (digest_of 2)).
  - vm_compute. reflexivity.
  - vm_compute. repeat split; discriminate.
  - destruct signed_in_storable as [H1 H2].
    do 2 (apply Forall_cons; split; [split; [done|eexists; vm_compute; reflexivity]|]).
    apply Forall_cons; split; [split; [discriminate|reflexivity]|]. by repeat constructor.
Defined.

(** Bob's token opens his session until Ada suspends him; hers still does. *)
Example suspension_signs_out :
  is_ok (opened_by (digest_of 3) 310 signed_in).1 = true /\
  (opened_by (digest_of 3) 410 suspended).1 = Err (authenticationFailure "Session is unknown or inactive.") /\
  is_ok (opened_by (digest_of 2) 410 suspended).1 = true.
Proof. split_and!; vm_compute; reflexivity. Qed.

(** Ada's session, seen again after Bob's suspension. *)
Definition seen_again : Session.t := Session.set_lastSeenAt (sign_in "s2" ada 2 260) 410.

Lemma signed_out_member_stays_out_witness :
  sessionFromRow (rowOf seen_again) = (opened_by (digest_of 2) 410 suspended).1 /\ Session.identity (rowOf seen_again) <> bob.
Proof.
  split; [vm_compute; reflexivity|].
  eapply (signed_out_member_stays_out (Plat:=test) (A:=test_cipher) AdministrationWitnesses.repository
            (ChangeLifecycle ada (suspension bob)) signed_in suspended [] (digest_of 2) 410 (rowOf seen_again)).
  - discriminate.
  - vm_compute. reflexivity.
  - constructor.
  - vm_compute. reflexivity.
Defined.
End SessionTableWitnesses.
