(* ===== verification/TransactionTable.v ===== *)
(** * openproof.storage.postgres: the table of authentication transactions

    Models [PostgresAuthenticationTransactionStore] of
    [src/src/storage/postgres/postgres.cpp] with the tables
    [authentication_transactions] and [authentication_transaction_metadata] of
    [src/migrations/0001_identity_auth_gateway.sql]. It keeps the contract that
    the broker relies on, whatever request the server fails, so that the
    theorems about the broker hold over these tables too. *)
From S2P Require Import Prelude Foundation Database Encoding Security Provider Transaction SessionTable.

Module TransactionRow.
(** A row without its key. The rows of the second table refer to one of the
    first and go with it ([ON DELETE CASCADE]): they are the metadata of the
    transaction they belong to. *)
Record t := mk {
  provider : ProviderId;
  interaction : InteractionModel;
  nonce_digest : Sha256Digest;
  binding_digest : BindingDigest;
  correlation : CorrelationId;
  state : TransactionState;
  created_at : Instant;
  expires_at : Instant;
  metadata : AttributeMap;
}.

Definition of_transaction (tx : AuthenticationTransaction.t) : t :=
  mk (AuthenticationTransaction.provider tx) (AuthenticationTransaction.interactionModel tx)
     (AuthenticationTransaction.nonceDigest tx) (AuthenticationTransaction.binding tx)
     (AuthenticationTransaction.correlation tx) (AuthenticationTransaction.state tx)
     (AuthenticationTransaction.createdAt tx) (AuthenticationTransaction.expiresAt tx) ∅.

Definition transaction (id : TransactionId) (row : t) : AuthenticationTransaction.t :=
  AuthenticationTransaction.mk id (provider row) (interaction row) (nonce_digest row) (binding_digest row)
    (correlation row) (state row) (created_at row) (expires_at row) (metadata row).

Definition with_state (s : TransactionState) (row : t) : t :=
  mk (provider row) (interaction row) (nonce_digest row) (binding_digest row) (correlation row) s
     (created_at row) (expires_at row) (metadata row).
Definition with_metadata (m : AttributeMap) (row : t) : t :=
  mk (provider row) (interaction row) (nonce_digest row) (binding_digest row) (correlation row) (state row)
     (created_at row) (expires_at row) m.
End TransactionRow.

Module PostgresAuthenticationTransactionStore.
Import TransactionRow(nonce_digest, binding_digest, expires_at, with_state, with_metadata).

(** The rows by their primary key. *)
Abbreviation tables := (gmap TransactionId TransactionRow.t).
Implicit Types (t : tables) (row : TransactionRow.t).

Definition row_checks (id : TransactionId) row : bool :=
  PostgresSessionRepository.between_1_and 200 (id_value id)
  && PostgresSessionRepository.between_1_and 200 (id_value (TransactionRow.provider row))
  && PostgresSessionRepository.between_1_and 200 (id_value (TransactionRow.correlation row))
  && (length (nonce_digest row) =? 32)%nat && (length (binding_digest row) =? 32)%nat
  && (TransactionRow.created_at row <? expires_at row).

(** *** Statements *)

Definition insert (operation : string) (id : TransactionId) row : prog tables Error unit := fun t =>
  if negb (row_checks id row) then (Err (databaseError check_violation operation), t)
  else if bool_decide (is_Some (t !! id)) then (Err (databaseError unique_violation operation), t)
  else (ok, <[id := row]> t).

Definition insertMetadata (operation : string) (id : TransactionId) (key value : string) : prog tables Error unit := fun t =>
  if negb (PostgresSessionRepository.between_1_and 200 key && (characters value <=? 8192)%nat) then
    (Err (databaseError check_violation operation), t)
  else
    match t !! id with
    | None => (Err (databaseError foreign_key_violation operation), t)
    | Some row =>
        if bool_decide (is_Some (TransactionRow.metadata row !! key)) then
          (Err (databaseError unique_violation operation), t)
        else (ok, <[id := with_metadata (<[key := value]> (TransactionRow.metadata row)) row]> t)
    end.

(** The [CASE] of the update in [consume]. *)
Definition verdict (nonce : Sha256Digest) (binding : BindingDigest) (now : Instant) row : TransactionState :=
  if expires_at row <=? now then Expired
  else if negb (bool_decide (nonce_digest row = nonce)) || negb (bool_decide (binding_digest row = binding)) then Failed
  else Consumed.

(** The update: the row as it is then, when there was a pending one. *)
Definition decideRow (id : TransactionId) (nonce : Sha256Digest) (binding : BindingDigest) (now : Instant)
    : prog tables Error (option TransactionRow.t) := fun t =>
  match t !! id with
  | None => (Ok None, t)
  | Some row =>
      if bool_decide (TransactionRow.state row = Pending) then
        let row := with_state (verdict nonce binding now row) row in (Ok (Some row), <[id := row]> t)
      else (Ok None, t)
  end.

Section store.
Context `{Plat : Platform} `{Db : Database} {W : Type}.
Abbreviation state := (database tables W).
Abbreviation session B := (prog state Error B).

(** [metadata] and [transactionFromRow]: the numbers of a row are in the ranges
    it checks. *)
Definition metadata (id : TransactionId) : session AttributeMap :=
  select "read transaction metadata" (fun t => from_option TransactionRow.metadata ∅ (t !! id)).

Definition transactionFromRow (id : TransactionId) row : session AuthenticationTransaction.t :=
  values ← attempt (metadata id);
  match values with
  | Ok values =>
      lift (AuthenticationTransaction.restore id (TransactionRow.provider row) (TransactionRow.interaction row)
              (nonce_digest row) (binding_digest row) (TransactionRow.correlation row) (TransactionRow.state row)
              (TransactionRow.created_at row) (expires_at row) values)
  | _ => throw (Error_ofMessage Internal "PostgreSQL returned invalid transaction data.")
  end.

(** One statement for each entry, in the order of the keys. *)
Fixpoint insertEntries (id : TransactionId) (entries : list (string * string)) : session unit :=
  match entries with
  | [] => mret tt
  | (key, value) :: entries =>
      _ ← execute "insert transaction metadata" (insertMetadata "insert transaction metadata" id key value);
      insertEntries id entries
  end.

Definition begin (transaction : AuthenticationTransaction.t) : session unit :=
  Database.transaction (
    _ ← execute "insert authentication transaction"
          (insert "insert authentication transaction" (AuthenticationTransaction.id transaction)
             (TransactionRow.of_transaction transaction));
    insertEntries (AuthenticationTransaction.id transaction)
      (map_iter (AuthenticationTransaction.metadata transaction))).

(** The answer is decided after the commit: an attempt that fails ends the
    transaction all the same. *)
Definition answerOf (restored : AuthenticationTransaction.t) : Result AuthenticationTransaction.t :=
  if bool_decide (AuthenticationTransaction.state restored = Expired) then
    fail FailedPrecondition "This authentication request has expired."
  else if negb (bool_decide (AuthenticationTransaction.state restored = Consumed)) then
    Err (authenticationFailure "Transaction verification failed.")
  else Ok restored.

Definition consume (id : TransactionId) (presentedNonce : string) (presentedBinding : BindingDigest) (now : Instant)
    : session AuthenticationTransaction.t :=
  nonce ← lift (sha256Text presentedNonce);
  restored ← Database.transaction (
    row ← execute "consume authentication transaction" (decideRow id nonce presentedBinding now);
    match row with
    | None => throw (authenticationFailure "Transaction is unknown or no longer pending.")
    | Some row => transactionFromRow id row
    end);
  lift (answerOf restored).

Definition find (id : TransactionId) : session (option AuthenticationTransaction.t) :=
  _ ← lease;
  row ← select "find authentication transaction" (fun t => t !! id);
  match row with
  | None => mret None
  | Some row => value ← transactionFromRow id row; mret (Some value)
  end.

Definition purgeExpired (now : Instant) : state -> nat * state :=
  counted (
    _ ← lease;
    execute "purge authentication transactions" (fun t =>
      (Ok (length (matching (fun row => expires_at row <=? now) t)),
       filter (fun entry : TransactionId * TransactionRow.t => (expires_at entry.2 <=? now) = false) t))).

Definition size : state -> nat * state :=
  counted (_ ← lease; select "count authentication transactions" (fun t => base.size t)).

#[global] Instance store : AuthenticationTransactionStore state := {
  ts_begin := begin;
  ts_consume := consume;
  ts_find s id := (find id s).1;
  ts_purgeExpired := purgeExpired;
  ts_size s := (size s).1;
}.
End store.
End PostgresAuthenticationTransactionStore.

(** ** The contract of a store *)

Import PostgresAuthenticationTransactionStore.
Implicit Types (t : tables).

Section contract.
Context `{Plat : Platform} `{Db : Database} {W : Type}.
Abbreviation state := (database tables W).
Implicit Types (s : state) (tx : AuthenticationTransaction.t).

(** The content of the tables. *)
Definition view s (id : TransactionId) : option AuthenticationTransaction.t :=
  TransactionRow.transaction id <$> db_tables s !! id.

(** The entries one after the other. *)
Definition put_all (entries : list (string * string)) (m : AttributeMap) : AttributeMap :=
  foldl (fun m entry => <[entry.1 := entry.2]> m) m entries.

Lemma put_all_lookup entries m k :
  NoDup entries.*1 ->
  put_all entries m !! k = match list_to_map (M:=gmap string string) entries !! k with Some v => Some v | None => m !! k end.
Proof.
  revert m. induction entries as [|[k' v] entries IH]; intros m Hnd; cbn.
  { by rewrite lookup_empty. }
  rewrite fmap_cons in Hnd. apply NoDup_cons in Hnd as [Hk Hnd]. unfold put_all in IH. rewrite IH by done.
  cbn in Hk. destruct (decide (k' = k)) as [->|Hne].
  - rewrite !lookup_insert_eq. by rewrite (proj1 (not_elem_of_list_to_map _ _) Hk).
  - by rewrite !lookup_insert_ne.
Qed.

Lemma put_all_map m : put_all (map_iter m) ∅ = m.
Proof.
  apply map_eq. intros k. rewrite put_all_lookup by apply NoDup_map_iter_fst. rewrite lookup_empty.
  destruct (m !! k) as [v|] eqn:Hk.
  - rewrite (elem_of_list_to_map_1 _ k v); [done|apply NoDup_map_iter_fst|by apply elem_of_map_iter].
  - destruct (list_to_map (map_iter m) !! k) as [v|] eqn:E; [|done].
    apply elem_of_list_to_map_2, elem_of_map_iter in E. congruence.
Qed.

Lemma insertEntries_ok id entries s row s' :
  db_tables s !! id = Some row -> insertEntries id entries s = (Ok tt, s') ->
  db_tables s' = <[id := TransactionRow.with_metadata (put_all entries (TransactionRow.metadata row)) row]> (db_tables s).
Proof.
  revert s row. induction entries as [|[key value] entries IH]; intros s row Hrow Hrun; cbn [insertEntries] in Hrun.
  - injection Hrun as <-. cbn. rewrite insert_id; [done|]. by destruct row.
  - apply prog_bind_ok in Hrun as ([] & s1 & Hins & Hrun). apply execute_ok in Hins as (t & Hins & ->).
    unfold insertMetadata in Hins. branch Hins Hc; [done|]. rewrite Hrow in Hins. case_bool_decide; [done|].
    injection Hins as <-. eapply IH in Hrun; [|apply lookup_insert_eq]. cbn in Hrun. rewrite Hrun, insert_insert_eq. done.
Qed.

Lemma begun_ok tx s s' :
  begin tx s = (Ok tt, s') ->
  db_tables s !! AuthenticationTransaction.id tx = None /\
  db_tables s' = <[AuthenticationTransaction.id tx :=
      TransactionRow.with_metadata (AuthenticationTransaction.metadata tx) (TransactionRow.of_transaction tx)]> (db_tables s).
Proof.
  intros (s1 & s2 & E1 & _ & Hbody & E2 & _)%transaction_ok.
  apply prog_bind_ok in Hbody as ([] & s3 & Hins & Hrun). apply execute_ok in Hins as (t & Hins & ->).
  unfold insert in Hins. branch Hins Hc; [done|]. branch Hins Hu; [done|]. injection Hins as <-.
  apply bool_decide_eq_false in Hu. rewrite <- eq_None_not_Some, E1 in Hu. split; [done|].
  eapply insertEntries_ok in Hrun; [|apply lookup_insert_eq]. cbn in Hrun. by rewrite E2, Hrun, insert_insert_eq, put_all_map, E1.
Qed.

Lemma begin_not_ok tx s : is_ok (begin tx s).1 = false -> db_tables (begin tx s).2 = db_tables s.
Proof. destruct (begin tx s) as [r s'] eqn:E. cbn. intros Hr. by eapply transaction_not_ok. Qed.

(** What the two tables say when a redemption succeeds. *)
Lemma redeemed_ok id nonce bound now s tx s' :
  consume id nonce bound now s = (Ok tx, s') ->
  exists row, db_tables s !! id = Some row /\
    AuthenticationTransaction.redeemable (TransactionRow.transaction id row) nonce bound now /\
    tx = AuthenticationTransaction.set_state (TransactionRow.transaction id row) Consumed /\
    db_tables s' = <[id := TransactionRow.with_state Consumed row]> (db_tables s).
Proof.
  intros Hrun. apply prog_bind_ok in Hrun as (digest & s0 & [Hdig ->]%lift_ok & Hrun).
  apply prog_bind_ok in Hrun as (restored & s1 & Htx & Hrun). apply lift_ok in Hrun as [Hans ->].
  apply transaction_ok in Htx as (s2 & s3 & E2 & _ & Hbody & E3 & _).
  apply prog_bind_ok in Hbody as (row' & s4 & Hdec & Hbody). apply execute_ok in Hdec as (t & Hdec & ->).
  rewrite E2 in Hdec. unfold decideRow in Hdec. destruct (db_tables s !! id) as [row|] eqn:Hrow; [|by injection Hdec as <- <-].
  case_bool_decide as Hpending; [|by injection Hdec as <- <-]. injection Hdec as <- <-.
  apply prog_bind_ok in Hbody as (values & s5 & Hmeta & Hbody). apply attempt_ok in Hmeta.
  destruct values as [values| |]; [|done..]. apply select_ok in Hmeta as [-> ->].
  apply lift_ok in Hbody as [Hres ->]. cbn in Hres, E3. rewrite lookup_insert_eq in Hres. cbn in Hres.
  unfold AuthenticationTransaction.restore in Hres. branch Hres Hg; [done|]. injection Hres as <-.
  unfold answerOf in Hans. cbn in Hans. branch Hans He; [done|]. branch Hans Hcons; [done|]. injection Hans as <-.
  apply negb_false_iff, bool_decide_eq_true in Hcons. exists row.
  clear Hg He. unfold verdict in *. destruct (_ <=? now) eqn:Hexp; [done|]. destruct (_ || _) eqn:Hmatch; [done|]. bool_prop.
  unfold AuthenticationTransaction.redeemable. cbn. split_and!; try done; congruence.
Qed.

Lemma consume_tables id nonce bound now s :
  db_tables (consume id nonce bound now s).2 = db_tables s \/
  exists row, db_tables s !! id = Some row /\ TransactionRow.state row = Pending /\
    exists verdict, verdict <> Pending /\
    db_tables (consume id nonce bound now s).2 = <[id := TransactionRow.with_state verdict row]> (db_tables s).
Proof.
  destruct (consume id nonce bound now s) as [res s'] eqn:Hrun. cbn. unfold consume in Hrun.
  apply prog_bind_inv in Hrun as [(digest & s0 & [_ ->]%lift_ok & Hrun)|(_ & _ & ->)]; [|by left].
  apply prog_bind_inv in Hrun as [(restored & s1 & Htx & Hrun)|(_ & Hno & ->)].
  - injection Hrun as _ <-. apply transaction_ok in Htx as (s2 & s3 & E2 & _ & Hbody & E3 & _).
    apply prog_bind_ok in Hbody as (row' & s4 & Hdec & Hbody). apply execute_ok in Hdec as (t & Hdec & ->).
    rewrite E2 in Hdec. unfold decideRow in Hdec. destruct (db_tables s !! id) as [row|] eqn:Hrow; [|by injection Hdec as <- <-].
    case_bool_decide as Hpending; [|by injection Hdec as <- <-]. injection Hdec as <- <-. right. exists row.
    split_and!; [done..|]. exists (verdict digest bound now row). split.
    { unfold verdict. by repeat case_match. }
    apply prog_bind_ok in Hbody as (values & s5 & Hmeta & Hbody). apply attempt_ok in Hmeta.
    destruct values as [values| |]; [|done..]. apply select_ok in Hmeta as [-> ->]. apply lift_ok in Hbody as [_ ->].
    by rewrite E3.
  - left. destruct (Database.transaction _ s) as [r s1] eqn:Htx. by eapply transaction_not_ok.
Qed.

(** The tables keep the contract the broker relies on, whatever request the
    server fails. *)
#[global] Instance tables_laws : AuthenticationTransactionStoreLaws state.
Proof.
  refine {| ts_view := view |}; cbn [ts_begin ts_consume store].
  - intros s id nonce bound now tx s' (row & Hrow & Hred & -> & E)%redeemed_ok. unfold view. rewrite Hrow. cbn.
    eexists. split_and!; [done..|]. intros id'. rewrite E. case_decide as Hid; [subst; by rewrite lookup_insert_eq|].
    by rewrite lookup_insert_ne by congruence.
  - intros s tx s' [Hnone E]%begun_ok. unfold view. rewrite Hnone. split; [done|]. intros id'. rewrite E.
    case_decide as Hid; [subst; rewrite lookup_insert_eq; cbn; by destruct tx|]. by rewrite lookup_insert_ne by congruence.
  - intros s tx Hr. unfold view. by rewrite begin_not_ok.
Defined.
End contract.

(** ** Single use *)

Section single_use.
Context `{Plat : Platform} `{Db : Database} {W : Type}.
Abbreviation state := (database tables W).
Implicit Types (s : state).

Definition transaction_table_step (o : store_op) s : state :=
  match o with
  | OpBegin tx => (ts_begin tx s).2
  | OpConsume id nonce bound now => (ts_consume id nonce bound now s).2
  | OpPurge now => (ts_purgeExpired now s).2
  end.

Definition table_starts (id : TransactionId) (o : store_op) s : bool :=
  match o with
  | OpBegin tx => bool_decide (AuthenticationTransaction.id tx = id) && is_ok (ts_begin tx s).1
  | _ => false
  end.

Definition table_redeems (id : TransactionId) (o : store_op) s : bool :=
  match o with
  | OpConsume id' nonce bound now => bool_decide (id' = id) && is_ok (ts_consume id' nonce bound now s).1
  | _ => false
  end.

Definition pending_row (id : TransactionId) s : nat :=
  match db_tables s !! id with
  | Some row => if bool_decide (TransactionRow.state row = Pending) then 1 else 0
  | None => 0
  end.

Lemma pending_row_insert id id' row s s' :
  db_tables s' = <[id' := row]> (db_tables s) ->
  pending_row id s' = if decide (id' = id) then (if bool_decide (TransactionRow.state row = Pending) then 1 else 0)%nat
                      else pending_row id s.
Proof.
  intros E. unfold pending_row. rewrite E. case_decide as Hid; [subst; by rewrite lookup_insert_eq|].
  by rewrite lookup_insert_ne by congruence.
Qed.

Lemma pending_row_same id s s' : db_tables s' = db_tables s -> pending_row id s' = pending_row id s.
Proof. unfold pending_row. by intros ->. Qed.

Lemma purge_tables now s :
  db_tables (purgeExpired now s).2 = db_tables s \/
  db_tables (purgeExpired now s).2 =
    filter (fun entry : TransactionId * TransactionRow.t => (TransactionRow.expires_at entry.2 <=? now) = false) (db_tables s).
Proof.
  unfold purgeExpired. rewrite counted_state. unfold mbind, prog_bind, lease, execute, request, on_tables, zoom.
  destruct (db_busy _); [by left|]. destruct (db_fault _); [by left|by right].
Qed.

Lemma table_count_step id o s :
  ((if table_redeems id o s then 1 else 0) + pending_row id (transaction_table_step o s)
   <= (if table_starts id o s then 1 else 0) + pending_row id s)%nat.
Proof.
  destruct o as [tx|id' nonce bound now|now]; cbn [table_redeems table_starts transaction_table_step ts_begin ts_consume
    ts_purgeExpired store].
  - destruct (is_ok (begin tx s).1) eqn:Hok.
    + destruct (begin tx s) as [[[]| |] s'] eqn:Hrun; [|done..]. apply begun_ok in Hrun as [Hnone E]. cbn.
      rewrite andb_true_r, (pending_row_insert _ _ _ _ _ E).
      case_decide as Hid; [rewrite (bool_decide_eq_true_2 _ Hid)|rewrite (bool_decide_eq_false_2 _ Hid)];
        [case_bool_decide; lia|lia].
    + rewrite andb_false_r, (pending_row_same _ _ _ (begin_not_ok _ _ Hok)). lia.
  - destruct (is_ok (consume id' nonce bound now s).1) eqn:Hok.
    + destruct (consume id' nonce bound now s) as [[tx| |] s'] eqn:Hrun; [|done..].
      apply redeemed_ok in Hrun as (row & Hrow & (Hpend & _) & _ & E). cbn. rewrite andb_true_r, (pending_row_insert _ _ _ _ _ E).
      case_decide as Hid; [rewrite (bool_decide_eq_true_2 _ Hid)|rewrite (bool_decide_eq_false_2 _ Hid); lia].
      subst id'. unfold pending_row. cbn in Hpend. rewrite Hrow, Hpend. by repeat case_bool_decide.
    + rewrite andb_false_r. destruct (consume_tables id' nonce bound now s) as [E|(row & Hrow & Hpend & v & Hv & E)].
      * rewrite (pending_row_same _ _ _ E). lia.
      * rewrite (pending_row_insert _ _ _ _ _ E). case_decide as Hid; [|lia]. cbn.
        rewrite bool_decide_eq_false_2 by done. lia.
  - destruct (purge_tables now s) as [E|E]; [rewrite (pending_row_same _ _ _ E); lia|].
    unfold pending_row. rewrite E, map_lookup_filter. destruct (db_tables s !! id) as [row|]; cbn; [|lia].
    case_guard; cbn; lia.
Qed.

(** What a redemption answers when the transaction went on being pending. *)
Lemma transaction_never_refuses id bound now digest :
  raises (fun e => e <> authenticationFailure "Transaction verification failed.")
    (Database.transaction (
       row ← execute "consume authentication transaction" (decideRow id digest bound now);
       match row with
       | None => throw (authenticationFailure "Transaction is unknown or no longer pending.")
       | Some row => transactionFromRow id row
       end) : prog state Error AuthenticationTransaction.t).
Proof.
  assert (forall st op, databaseError st op <> authenticationFailure "Transaction verification failed.") as Hdb.
  { intros st op E. apply (databaseError_code st op). by rewrite E. }
  apply raises_transaction; [done|done|done|]. apply raises_bind.
  { apply raises_execute; [done|]. intros t e t'. unfold decideRow. destruct (t !! id); [|done]. by case_bool_decide. }
  intros [row|]; [|by apply raises_throw]. apply raises_bind; [apply raises_attempt|].
  intros [values| |]; [|by apply raises_throw..]. apply raises_lift. intros e. unfold AuthenticationTransaction.restore.
  by destruct (_ || _); [intros [= <-]|].
Qed.

Lemma refusal_ends id nonce bound now s :
  (consume id nonce bound now s).1 = Err (authenticationFailure "Transaction verification failed.") ->
  db_tables (consume id nonce bound now s).2 <> db_tables s \/ pending_row id s = 0%nat.
Proof.
  destruct (consume id nonce bound now s) as [r s'] eqn:Hrun. cbn. intros ->. unfold consume in Hrun.
  apply prog_bind_err in Hrun as [[= Hdig _]|(digest & s0 & [_ ->]%lift_ok & Hrun)].
  { unfold sha256Text, sha256 in Hdig. by repeat case_match. }
  apply prog_bind_err in Hrun as [Hrun|(restored & s1 & Htx & Hrun)].
  { by apply transaction_never_refuses in Hrun. }
  injection Hrun as _ <-. apply transaction_ok in Htx as (s2 & s3 & E2 & _ & Hbody & E3 & _).
  apply prog_bind_ok in Hbody as (row' & s4 & Hdec & Hbody). apply execute_ok in Hdec as (t & Hdec & ->).
  rewrite E2 in Hdec. unfold decideRow in Hdec. unfold pending_row.
  destruct (db_tables s !! id) as [row|] eqn:Hrow; [|by right].
  case_bool_decide as Hpending; [|by right]. injection Hdec as <- <-. left.
  apply prog_bind_ok in Hbody as (values & s5 & Hmeta & Hbody). apply attempt_ok in Hmeta.
  destruct values as [values| |]; [|done..]. apply select_ok in Hmeta as [-> ->]. apply lift_ok in Hbody as [_ ->].
  rewrite E3. cbn. intros E. assert (Some (TransactionRow.with_state (verdict digest bound now row) row) = Some row) as [= Es].
  { by rewrite <- Hrow, <- E, lookup_insert_eq. }
  assert (TransactionRow.state (TransactionRow.with_state (verdict digest bound now row) row) = Pending) as Hv by congruence.
  revert Hv. cbn. unfold verdict. by repeat case_match.
Qed.

(** C20: An authentication transaction of the tables is redeemed at most once, and
    a refused guess ends it. In every sequence of starts, redemptions (with any
    nonce, binding and time) and purges, whatever request the server fails, the
    successful redemptions of an identifier never outnumber its successful
    starts and the one that was pending before; and after a redemption that is
    refused for its nonce or its binding, the transaction is not pending. *)
Theorem table_redeems_at_most_once id ops s :
  (count_steps transaction_table_step (table_redeems id) ops s
   <= count_steps transaction_table_step (table_starts id) ops s + pending_row id s)%nat /\
  forall nonce bound now,
    (ts_consume id nonce bound now s).1 = Err (authenticationFailure "Transaction verification failed.") ->
    pending_row id (ts_consume id nonce bound now s).2 = 0%nat.
Proof.
  split; [exact (taken_within_given transaction_table_step (table_redeems id) (table_starts id) (pending_row id) ops s
                   (fun o s => table_count_step id o s))|].
  intros nonce bound now Hrefused. cbn [ts_consume store] in *.
  destruct (consume_tables id nonce bound now s) as [E|(row & _ & _ & v & Hv & E)].
  - destruct (refusal_ends _ _ _ _ _ Hrefused) as [?|H0]; [done|]. by rewrite (pending_row_same _ _ _ E).
  - rewrite (pending_row_insert _ _ _ _ _ E), decide_True by done. by rewrite bool_decide_eq_false_2.
Qed.
End single_use.
