(* ===== verification/TokenTable.v ===== *)
(** * openproof.storage.postgres: the tables of tokens

    Models the token part of [PostgresIdentityProviderStore] of
    [src/src/storage/postgres/postgres.cpp] with the tables
    [oauth_token_families], [oauth_access_tokens] and [oauth_refresh_tokens] of
    [src/migrations/0003_identity_provider.sql], the audiences of
    [0006_resource_consent.sql] and the sender constraints of
    [0010_oauth_sender_constraints.sql]. It is a repository of the token
    service. Each transaction is one step; what the server makes of two that
    overlap is not modelled. *)
From S2P Require Import Prelude Foundation Database Encoding Security Provider IdentityCore Session SessionService Client Token SessionTable.

Module TokenFamilyRow.
(** A row without its key. The rows of the tables of scopes and audiences refer
    to one of the families and go with it: they are sets of texts here. *)
Record t := mk {
  client_id : ClientId;
  identity_id : IdentityId;
  provider : ProviderId;
  assurance : AssuranceLevel;
  strength : AuthenticationStrength.t;
  authenticated_at : Instant;
  sender_constraint_kind : option SenderConstraintKind.t;
  sender_constraint_value : option string;
  revoked_at : option Instant;
  scopes : gset string;
  audiences : gset string;
}.

Definition of_context (c : TokenContext.t) : t :=
  mk (TokenContext.client c) (TokenContext.identity c) (TokenContext.provider c) (TokenContext.assurance c)
     (TokenContext.strength c) (TokenContext.authenticatedAt c)
     (SenderConstraint.kind <$> TokenContext.senderConstraint c)
     (PostgresSessionRepository.nullif (SenderConstraint.value <$> TokenContext.senderConstraint c))
     None ∅ ∅.

(** [COALESCE(revoked_at_ms, $2)]. *)
Definition revoke (now : Instant) (row : t) : t :=
  mk (client_id row) (identity_id row) (provider row) (assurance row) (strength row) (authenticated_at row)
     (sender_constraint_kind row) (sender_constraint_value row)
     (Some (default now (revoked_at row))) (scopes row) (audiences row).
Definition with_scope (scope : string) (row : t) : t :=
  mk (client_id row) (identity_id row) (provider row) (assurance row) (strength row) (authenticated_at row)
     (sender_constraint_kind row) (sender_constraint_value row) (revoked_at row) ({[scope]} ∪ scopes row) (audiences row).
Definition with_audience (audience : string) (row : t) : t :=
  mk (client_id row) (identity_id row) (provider row) (assurance row) (strength row) (authenticated_at row)
     (sender_constraint_kind row) (sender_constraint_value row) (revoked_at row) (scopes row) ({[audience]} ∪ audiences row).
End TokenFamilyRow.

Module AccessTokenRow.
Record t := mk {
  family_id : TokenFamilyId;
  state : AccessTokenState.t;
  issued_at : Instant;
  expires_at : Instant;
  revoked_at : option Instant;
}.

Definition revoke (now : Instant) (row : t) : t :=
  mk (family_id row) AccessTokenState.Revoked (issued_at row) (expires_at row) (Some (default now (revoked_at row))).
End AccessTokenRow.

Module RefreshTokenRow.
Record t := mk {
  family_id : TokenFamilyId;
  sequence : Z;
  state : RefreshTokenState.t;
  issued_at : Instant;
  expires_at : Instant;
  changed_at : option Instant;
}.

Definition use (now : Instant) (row : t) : t :=
  mk (family_id row) (sequence row) RefreshTokenState.Used (issued_at row) (expires_at row) (Some now).
Definition revoke (now : Instant) (row : t) : t :=
  mk (family_id row) (sequence row) RefreshTokenState.Revoked (issued_at row) (expires_at row)
     (Some (default now (changed_at row))).
End RefreshTokenRow.

Module TokenTables.
(** The rows by their primary keys, and the keys of the two tables that a
    family refers to. *)
Record t := mk {
  clients : gset ClientId;
  identities : gset IdentityId;
  families : gmap TokenFamilyId TokenFamilyRow.t;
  access : gmap TokenDigest AccessTokenRow.t;
  refresh : gmap TokenDigest RefreshTokenRow.t;
}.

(** No token yet. *)
Definition unused (clients : gset ClientId) (identities : gset IdentityId) : t := mk clients identities ∅ ∅ ∅.

Definition with_families (f : gmap TokenFamilyId TokenFamilyRow.t -> gmap TokenFamilyId TokenFamilyRow.t) (r : t) : t :=
  mk (clients r) (identities r) (f (families r)) (access r) (refresh r).
Definition with_access (f : gmap TokenDigest AccessTokenRow.t -> gmap TokenDigest AccessTokenRow.t) (r : t) : t :=
  mk (clients r) (identities r) (families r) (f (access r)) (refresh r).
Definition with_refresh (f : gmap TokenDigest RefreshTokenRow.t -> gmap TokenDigest RefreshTokenRow.t) (r : t) : t :=
  mk (clients r) (identities r) (families r) (access r) (f (refresh r)).
End TokenTables.

Module PostgresTokens.
Import TokenTables(clients, identities, families, access, refresh, with_families, with_access, with_refresh).
Import PostgresSessionRepository(between_1_and).
Implicit Types (t : TokenTables.t).

(** *** Statements *)

Abbreviation statement B := (prog TokenTables.t Error B).

(** The enumerations are within their ranges. *)
Definition family_checks (id : TokenFamilyId) (row : TokenFamilyRow.t) : bool :=
  between_1_and 200 (id_value id) && between_1_and 200 (id_value (TokenFamilyRow.provider row))
  && match TokenFamilyRow.sender_constraint_value row with None => true | Some value => between_1_and 256 value end
  && Bool.eqb (bool_decide (TokenFamilyRow.sender_constraint_kind row = None))
              (bool_decide (TokenFamilyRow.sender_constraint_value row = None)).

Definition insertFamily (operation : string) (id : TokenFamilyId) (row : TokenFamilyRow.t) : statement unit := fun t =>
  insertRow operation (family_checks id row) (bool_decide (families t !! id = None))
    (bool_decide (TokenFamilyRow.client_id row ∈ clients t) && bool_decide (TokenFamilyRow.identity_id row ∈ identities t))
    (with_families <[id := row]>) t.

Definition insertScope (operation : string) (id : TokenFamilyId) (scope : string) : statement unit := fun t =>
  insertRow operation (between_1_and 128 scope)
    (match families t !! id with None => true | Some row => bool_decide (scope ∉ TokenFamilyRow.scopes row) end)
    (bool_decide (is_Some (families t !! id)))
    (with_families (alter (TokenFamilyRow.with_scope scope) id)) t.

Definition insertAudience (operation : string) (id : TokenFamilyId) (audience : string) : statement unit := fun t =>
  insertRow operation (between_1_and 2048 audience)
    (match families t !! id with None => true | Some row => bool_decide (audience ∉ TokenFamilyRow.audiences row) end)
    (bool_decide (is_Some (families t !! id)))
    (with_families (alter (TokenFamilyRow.with_audience audience) id)) t.

Definition insertAccess (operation : string) (digest : TokenDigest) (row : AccessTokenRow.t) : statement unit := fun t =>
  insertRow operation
    ((length digest =? 32)%nat && (AccessTokenRow.issued_at row <? AccessTokenRow.expires_at row)
     && Bool.eqb (bool_decide (AccessTokenRow.state row = AccessTokenState.Revoked))
                 (bool_decide (is_Some (AccessTokenRow.revoked_at row))))
    (bool_decide (access t !! digest = None))
    (bool_decide (is_Some (families t !! AccessTokenRow.family_id row)))
    (with_access <[digest := row]>) t.

(** [UNIQUE (family_id, sequence)]. *)
Definition sequence_taken (row : RefreshTokenRow.t) t : bool :=
  existsb (fun other : TokenDigest * RefreshTokenRow.t =>
    bool_decide (RefreshTokenRow.family_id other.2 = RefreshTokenRow.family_id row)
    && (RefreshTokenRow.sequence other.2 =? RefreshTokenRow.sequence row)) (map_to_list (refresh t)).

Definition insertRefresh (operation : string) (digest : TokenDigest) (row : RefreshTokenRow.t) : statement unit := fun t =>
  insertRow operation
    ((length digest =? 32)%nat && (0 <=? RefreshTokenRow.sequence row)
     && (RefreshTokenRow.issued_at row <? RefreshTokenRow.expires_at row))
    (bool_decide (refresh t !! digest = None) && negb (sequence_taken row t))
    (bool_decide (is_Some (families t !! RefreshTokenRow.family_id row)))
    (with_refresh <[digest := row]>) t.

Section store.
Context `{Db : Database} {W : Type}.
Abbreviation state := (database TokenTables.t W).
Abbreviation session B := (prog state Error B).

(** *** Storing *)

(** The loops over the scopes and the audiences of a context. *)
Fixpoint insertEach (operation : string) (insert : string -> string -> statement unit) (values : list string)
    : session unit :=
  match values with
  | [] => mret tt
  | value :: values => _ ← execute operation (insert operation value); insertEach operation insert values
  end.

(** The family of an access token, with its scopes and audiences. *)
Definition storeFamily (operation : string) (record : AccessTokenRecord.t) : session unit :=
  let id := AccessTokenRecord.family record in
  let context := AccessTokenRecord.context record in
  _ ← execute operation (insertFamily operation id (TokenFamilyRow.of_context context));
  _ ← insertEach "insert token family scope" (fun op => insertScope op id) (TokenContext.scopes context);
  insertEach "insert token family audience" (fun op => insertAudience op id) (TokenContext.audiences context).

(** The columns of an inserted token: it is active. *)
Definition accessRow (family : TokenFamilyId) (record : AccessTokenRecord.t) : AccessTokenRow.t :=
  AccessTokenRow.mk family AccessTokenState.Active (AccessTokenRecord.issuedAt record)
    (AccessTokenRecord.expiresAt record) None.

(** [static_cast<std::int64_t>] of an unsigned sequence. *)
Definition to_i64 (z : Z) : Z := (z + 2 ^ 63) mod 2 ^ 64 - 2 ^ 63.

Definition refreshRow (family : TokenFamilyId) (record : RefreshTokenRecord.t) : RefreshTokenRow.t :=
  RefreshTokenRow.mk family (to_i64 (RefreshTokenRecord.sequence record)) RefreshTokenState.Active
    (RefreshTokenRecord.issuedAt record) (RefreshTokenRecord.expiresAt record) None.

Definition storeInitial (accessRecord : AccessTokenRecord.t) (refreshRecord : RefreshTokenRecord.t) : session unit :=
  let accessContext := AccessTokenRecord.context accessRecord in
  let refreshContext := RefreshTokenRecord.context refreshRecord in
  if negb (bool_decide (AccessTokenRecord.family accessRecord = RefreshTokenRecord.family refreshRecord))
     || negb (bool_decide (TokenContext.client accessContext = TokenContext.client refreshContext))
     || negb (bool_decide (TokenContext.identity accessContext = TokenContext.identity refreshContext)) then
    throw (Error_ofMessage InvalidArgument "OAuth token records disagree.")
  else
    transaction (
      _ ← storeFamily "insert token family" accessRecord;
      _ ← execute "insert access token"
            (insertAccess "insert access token" (AccessTokenRecord.digest accessRecord)
               (accessRow (AccessTokenRecord.family accessRecord) accessRecord));
      execute "insert refresh token"
        (insertRefresh "insert refresh token" (RefreshTokenRecord.digest refreshRecord)
           (refreshRow (RefreshTokenRecord.family refreshRecord) refreshRecord))).

Definition storeAccessOnly (accessRecord : AccessTokenRecord.t) : session unit :=
  transaction (
    _ ← storeFamily "insert access-only token family" accessRecord;
    execute "insert access-only token"
      (insertAccess "insert access-only token" (AccessTokenRecord.digest accessRecord)
         (accessRow (AccessTokenRecord.family accessRecord) accessRecord))).

(** *** Finding *)

(** The texts come in the order of the server, and the context sorts them. *)
Definition loadTokenContext (family : TokenFamilyId) : session TokenContext.t :=
  base ← select "load OAuth token family" (fun t => families t !! family);
  match base with
  | None => throw (authenticationFailure "OAuth token family is unavailable.")
  | Some base =>
      scopes ← select "load OAuth token scopes" (fun t =>
        from_option (fun row => elements (TokenFamilyRow.scopes row)) [] (families t !! family));
      audiences ← select "load OAuth token audiences" (fun t =>
        from_option (fun row => elements (TokenFamilyRow.audiences row)) [] (families t !! family));
      senderConstraint ←
        match TokenFamilyRow.sender_constraint_kind base, TokenFamilyRow.sender_constraint_value base with
        | None, None => mret None
        | Some kind, Some value => constraint ← lift (SenderConstraint.create kind value); mret (Some constraint)
        | _, _ => throw (Error_ofMessage Internal "PostgreSQL returned malformed OAuth sender constraint.")
        end;
      mret (TokenContext.create (TokenFamilyRow.client_id base) (TokenFamilyRow.identity_id base)
              (TokenFamilyRow.provider base) (TokenFamilyRow.assurance base) (TokenFamilyRow.strength base) scopes
              (TokenFamilyRow.authenticated_at base) audiences senderConstraint)
  end.

Definition findAccess (digest : TokenDigest) : session AccessTokenRecord.t :=
  _ ← lease;
  row ← select "find access token" (fun t => access t !! digest);
  match row with
  | None => throw (authenticationFailure "Unknown access token.")
  | Some row =>
      context ← loadTokenContext (AccessTokenRow.family_id row);
      mret (AccessTokenRecord.mk digest (AccessTokenRow.family_id row) context (AccessTokenRow.issued_at row)
              (AccessTokenRow.expires_at row) (AccessTokenRow.state row) (AccessTokenRow.revoked_at row))
  end.

Definition findRefresh (digest : TokenDigest) : session RefreshTokenRecord.t :=
  _ ← lease;
  row ← select "find refresh token" (fun t => refresh t !! digest);
  match row with
  | None => throw (authenticationFailure "Unknown refresh token.")
  | Some row =>
      context ← loadTokenContext (RefreshTokenRow.family_id row);
      mret (RefreshTokenRecord.mk digest (RefreshTokenRow.family_id row) (RefreshTokenRow.sequence row) context
              (RefreshTokenRow.issued_at row) (RefreshTokenRow.expires_at row) (RefreshTokenRow.state row)
              (RefreshTokenRow.changed_at row))
  end.

(** *** Revocation *)

Definition in_family (family : TokenFamilyId) (row : AccessTokenRow.t) : bool :=
  bool_decide (AccessTokenRow.family_id row = family) && bool_decide (AccessTokenRow.state row = AccessTokenState.Active).

Definition refresh_in_family (family : TokenFamilyId) (row : RefreshTokenRow.t) : bool :=
  bool_decide (RefreshTokenRow.family_id row = family)
  && negb (bool_decide (RefreshTokenRow.state row = RefreshTokenState.Revoked)).

Definition revokeTokenFamilySql (family : TokenFamilyId) (now : Instant) : session unit :=
  _ ← execute "revoke OAuth token family" (fun t =>
        (ok, with_families (alter (TokenFamilyRow.revoke now) family) t));
  _ ← execute "revoke OAuth family access tokens" (fun t =>
        (ok, with_access (change_rows (in_family family) (AccessTokenRow.revoke now)) t));
  execute "revoke OAuth family refresh tokens" (fun t =>
    (ok, with_refresh (change_rows (refresh_in_family family) (RefreshTokenRow.revoke now)) t)).

Definition revokeFamily (family : TokenFamilyId) (now : Instant) : session unit :=
  transaction (revokeTokenFamilySql family now).

Definition revokeToken (digest : TokenDigest) (now : Instant) : session unit :=
  transaction (
    found ← select "find token to revoke" (fun t => access t !! digest);
    match found with
    | Some _ =>
        execute "revoke access token" (fun t => (ok, with_access (alter (AccessTokenRow.revoke now) digest) t))
    | None =>
        found ← select "find refresh token to revoke" (fun t => refresh t !! digest);
        match found with
        | Some row => revokeTokenFamilySql (RefreshTokenRow.family_id row) now
        | None => mret tt
        end
    end).

(** *** Rotation *)

(** [UPDATE ... SET state=1 WHERE token_digest=... AND state=0]. *)
Definition consumeRefresh (digest : TokenDigest) (now : Instant) : statement unit := fun t =>
  (ok, with_refresh (alter (fun row =>
     if bool_decide (RefreshTokenRow.state row = RefreshTokenState.Active) then RefreshTokenRow.use now row else row)
     digest) t).

(** The statements of the transaction. The second insertion is sent even when
    the first fails, and fails then with it. *)
Definition rotationBody (presented : TokenDigest) (now : Instant) (replacementAccess : AccessTokenRecord.t)
    (replacementRefresh : RefreshTokenRecord.t) : session Status :=
  current ← select "lock refresh token" (fun t => refresh t !! presented);
  match current with
  | None => throw (authenticationFailure "Unknown refresh token.")
  | Some current =>
      let family := RefreshTokenRow.family_id current in
      if negb (bool_decide (RefreshTokenRow.state current = RefreshTokenState.Active))
         || (RefreshTokenRow.expires_at current <=? now) then
        _ ← revokeTokenFamilySql family now;
        mret (Err (authenticationFailure "Refresh token reuse or expiry detected; family revoked."))
      else if negb (bool_decide (AccessTokenRecord.family replacementAccess = family))
              || negb (bool_decide (RefreshTokenRecord.family replacementRefresh = family))
              || negb (RefreshTokenRecord.sequence replacementRefresh =? u64 (RefreshTokenRow.sequence current + 1)) then
        throw (Error_ofMessage InvalidArgument "The refresh rotation replacement is inconsistent.")
      else
        _ ← execute "consume refresh token" (consumeRefresh presented now);
        accessStatus ← attempt (execute "rotate access token"
          (insertAccess "rotate access token" (AccessTokenRecord.digest replacementAccess)
             (accessRow family replacementAccess)));
        refreshStatus ← attempt (execute "rotate refresh token"
          (insertRefresh "rotate refresh token" (RefreshTokenRecord.digest replacementRefresh)
             (refreshRow family replacementRefresh)));
        _ ← lift accessStatus;
        _ ← lift refreshStatus;
        mret ok
  end.

(** The answer to a reuse comes after the commit of the revocation. *)
Definition rotateRefresh (presented : TokenDigest) (now : Instant) (replacementAccess : AccessTokenRecord.t)
    (replacementRefresh : RefreshTokenRecord.t) : session unit :=
  answer ← transaction (rotationBody presented now replacementAccess replacementRefresh);
  lift answer.

#[global] Instance repository : TokenRepository state := {
  tr_storeInitial := storeInitial;
  tr_storeAccessOnly := storeAccessOnly;
  tr_findAccess s digest := (findAccess digest s).1;
  tr_findRefresh s digest := (findRefresh digest s).1;
  tr_rotateRefresh := rotateRefresh;
  tr_revokeFamily := revokeFamily;
  tr_revokeToken := revokeToken;
}.
End store.
End PostgresTokens.

(** ** The moves of the tables

    What an operation that succeeds, or that answers to a reuse, does to the
    tables. Every other outcome leaves them alone. *)

Import TokenTables(clients, identities, families, access, refresh, with_families, with_access, with_refresh).
Import PostgresTokens.
Implicit Types (t : TokenTables.t).

Definition revoked_family (family : TokenFamilyId) (now : Instant) t : TokenTables.t :=
  with_refresh (change_rows (refresh_in_family family) (RefreshTokenRow.revoke now))
    (with_access (change_rows (in_family family) (AccessTokenRow.revoke now))
       (with_families (alter (TokenFamilyRow.revoke now) family) t)).

Definition open_family (row : TokenFamilyRow.t) : Prop := TokenFamilyRow.revoked_at row = None.
Definition revoked_row (row : RefreshTokenRow.t) : Prop := RefreshTokenRow.state row = RefreshTokenState.Revoked.
Definition active_row (row : RefreshTokenRow.t) : Prop := RefreshTokenRow.state row = RefreshTokenState.Active.

(** A family with its first access token. *)
Record fresh_family (f : TokenFamilyId) (row : TokenFamilyRow.t) (a : TokenDigest) (ra : AccessTokenRow.t) t : Prop := {
  fresh_absent : families t !! f = None;
  fresh_unrevoked : open_family row;
  fresh_access : access t !! a = None;
  fresh_belongs : AccessTokenRow.family_id ra = f;
}.

(** The rotation of [old], under the digest [d], into [new] under [d']. *)
Record rotates_row (d : TokenDigest) (old : RefreshTokenRow.t) (d' : TokenDigest) (new : RefreshTokenRow.t)
    (a : TokenDigest) (ra : AccessTokenRow.t) (now : Instant) t : Prop := {
  rotates_old : refresh t !! d = Some old;
  rotates_active : active_row old;
  rotates_in_time : now < RefreshTokenRow.expires_at old;
  rotates_fresh : refresh t !! d' = None;
  rotates_new : active_row new;
  rotates_family : RefreshTokenRow.family_id new = RefreshTokenRow.family_id old;
  rotates_access : access t !! a = None;
  rotates_access_family : AccessTokenRow.family_id ra = RefreshTokenRow.family_id old;
}.

Definition rotated d old d' new a ra now t : TokenTables.t :=
  with_refresh <[d' := new]> (with_access <[a := ra]> (with_refresh <[d := RefreshTokenRow.use now old]> t)).

Inductive token_move t : TokenTables.t -> Prop :=
| move_open f row a ra :
    fresh_family f row a ra t -> token_move t (with_access <[a := ra]> (with_families <[f := row]> t))
| move_open_refresh f row a ra d rr :
    fresh_family f row a ra t -> refresh t !! d = None -> RefreshTokenRow.family_id rr = f -> active_row rr ->
    token_move t (with_refresh <[d := rr]> (with_access <[a := ra]> (with_families <[f := row]> t)))
| move_rotate d old d' new a ra now :
    rotates_row d old d' new a ra now t -> token_move t (rotated d old d' new a ra now t)
| move_revoke f now : token_move t (revoked_family f now t)
| move_revoke_access d row now :
    access t !! d = Some row -> token_move t (with_access <[d := AccessTokenRow.revoke now row]> t).

(** *** The statements *)

Lemma insertFamily_ok operation id row t b t' :
  insertFamily operation id row t = (Ok b, t') ->
  families t !! id = None /\ t' = with_families <[id := row]> t.
Proof. intros (_ & Hu & _ & ->)%insertRow_ok. by bool_prop. Qed.

Lemma insertAccess_ok operation d row t b t' :
  insertAccess operation d row t = (Ok b, t') -> access t !! d = None /\ t' = with_access <[d := row]> t.
Proof. intros (_ & Hu & _ & ->)%insertRow_ok. by bool_prop. Qed.

Lemma insertRefresh_ok operation d row t b t' :
  insertRefresh operation d row t = (Ok b, t') -> refresh t !! d = None /\ t' = with_refresh <[d := row]> t.
Proof. intros (_ & Hu & _ & ->)%insertRow_ok. by bool_prop. Qed.

Lemma consumeRefresh_ok d now old t b t' :
  refresh t !! d = Some old -> RefreshTokenRow.state old = RefreshTokenState.Active ->
  consumeRefresh d now t = (Ok b, t') -> t' = with_refresh <[d := RefreshTokenRow.use now old]> t.
Proof.
  unfold consumeRefresh. intros Hold Hactive [= _ <-]. unfold with_refresh. f_equal.
  rewrite <- (insert_id _ _ _ Hold) at 1. by rewrite alter_insert_eq, bool_decide_eq_true_2.
Qed.

(** The insertions that succeeded so far. *)
Ltac inserted :=
  repeat match goal with
  | H : insertFamily _ _ _ _ = (Ok _, _) |- _ => apply insertFamily_ok in H as [? ->]
  | H : insertAccess _ _ _ _ = (Ok _, _) |- _ => apply insertAccess_ok in H as [? ->]
  | H : insertRefresh _ _ _ _ = (Ok _, _) |- _ => apply insertRefresh_ok in H as [? ->]
  end.

Section effects.
Context `{Db : Database} {W : Type}.
Abbreviation state := (database TokenTables.t W).
Implicit Types (s : state).

(** The row of a family once its scopes and audiences are in. *)
Definition stored_row (c : TokenContext.t) : TokenFamilyRow.t :=
  let row := TokenFamilyRow.of_context c in
  TokenFamilyRow.mk (TokenFamilyRow.client_id row) (TokenFamilyRow.identity_id row) (TokenFamilyRow.provider row)
    (TokenFamilyRow.assurance row) (TokenFamilyRow.strength row) (TokenFamilyRow.authenticated_at row)
    (TokenFamilyRow.sender_constraint_kind row) (TokenFamilyRow.sender_constraint_value row) None
    (list_to_set (TokenContext.scopes c)) (list_to_set (TokenContext.audiences c)).

Lemma insertEach_yields operation insert f (put : string -> TokenFamilyRow.t -> TokenFamilyRow.t) values t :
  (forall op v t b t', insert op v t = (Ok b, t') -> t' = with_families (alter (put v) f) t) ->
  yields (insertEach operation insert values : prog state Error unit) t (fun _ t' =>
    t' = with_families (alter (fun row => foldl (fun row v => put v row) row values) f) t).
Proof.
  intros Hput. revert t. induction values as [|v values IH]; intros t; cbn [insertEach]; reason.
  - destruct t as [? ? fs ? ?]. unfold with_families. cbn. f_equal. symmetry. by apply alter_id.
  - eapply yields_mono; [apply IH|]. cbn. intros _ t1 ->. apply Hput in H as ->. unfold with_families. cbn. f_equal.
    by rewrite alter_alter_eq.
Qed.

Lemma scopes_put values row :
  foldl (fun row v => TokenFamilyRow.with_scope v row) row values
  = TokenFamilyRow.mk (TokenFamilyRow.client_id row) (TokenFamilyRow.identity_id row) (TokenFamilyRow.provider row)
      (TokenFamilyRow.assurance row) (TokenFamilyRow.strength row) (TokenFamilyRow.authenticated_at row)
      (TokenFamilyRow.sender_constraint_kind row) (TokenFamilyRow.sender_constraint_value row)
      (TokenFamilyRow.revoked_at row) (list_to_set values ∪ TokenFamilyRow.scopes row) (TokenFamilyRow.audiences row).
Proof.
  revert row. induction values as [|v values IH]; intros row; cbn; [destruct row; cbn; f_equal; set_solver|].
  rewrite IH. cbn. f_equal. set_solver.
Qed.

Lemma audiences_put values row :
  foldl (fun row v => TokenFamilyRow.with_audience v row) row values
  = TokenFamilyRow.mk (TokenFamilyRow.client_id row) (TokenFamilyRow.identity_id row) (TokenFamilyRow.provider row)
      (TokenFamilyRow.assurance row) (TokenFamilyRow.strength row) (TokenFamilyRow.authenticated_at row)
      (TokenFamilyRow.sender_constraint_kind row) (TokenFamilyRow.sender_constraint_value row)
      (TokenFamilyRow.revoked_at row) (TokenFamilyRow.scopes row) (list_to_set values ∪ TokenFamilyRow.audiences row).
Proof.
  revert row. induction values as [|v values IH]; intros row; cbn; [destruct row; cbn; f_equal; set_solver|].
  rewrite IH. cbn. f_equal. set_solver.
Qed.

Lemma storeFamily_yields operation record t :
  yields (storeFamily operation record : prog state Error unit) t (fun _ t' =>
    families t !! AccessTokenRecord.family record = None /\
    t' = with_families <[AccessTokenRecord.family record := stored_row (AccessTokenRecord.context record)]> t).
Proof.
  unfold storeFamily. reason. inserted.
  eapply yields_mono; [apply (insertEach_yields _ _ (AccessTokenRecord.family record) TokenFamilyRow.with_scope)|].
  { intros op v t1 b1 t' (_ & _ & _ & ->)%insertRow_ok. done. }
  cbn. intros _ t1 ->.
  eapply yields_mono; [apply (insertEach_yields _ _ (AccessTokenRecord.family record) TokenFamilyRow.with_audience)|].
  { intros op v t1 b1 t' (_ & _ & _ & ->)%insertRow_ok. done. }
  cbn. intros _ t1 ->. split; [done|]. unfold with_families. cbn. f_equal.
  rewrite !alter_insert_eq, scopes_put, audiences_put. cbn. unfold stored_row. f_equal. f_equal; set_solver.
Qed.

Lemma stored_row_open c : open_family (stored_row c).
Proof. done. Qed.

Lemma revokeTokenFamilySql_yields f now t :
  yields (revokeTokenFamilySql f now : prog state Error unit) t (fun _ t' => t' = revoked_family f now t).
Proof. unfold revokeTokenFamilySql. reason. by simplify_eq. Qed.

(** *** The operations *)

Definition run_token_table_op (o : token_op) : prog state Error unit :=
  match o with
  | StoreInitial a x => tr_storeInitial a x
  | StoreAccessOnly a => tr_storeAccessOnly a
  | RotateRefresh d now a x => tr_rotateRefresh d now a x
  | RevokeFamily f now => tr_revokeFamily f now
  | RevokeToken d now => tr_revokeToken d now
  end.

Definition token_table_step (o : token_op) s : state := (run_token_table_op o s).2.
Definition token_table_run (ops : list token_op) s : state := foldl (fun s o => token_table_step o s) s ops.

(** The tables after an initial grant, or after a machine grant. *)
Definition granted (a : AccessTokenRecord.t) t : TokenTables.t :=
  with_access <[AccessTokenRecord.digest a := accessRow (AccessTokenRecord.family a) a]>
    (with_families <[AccessTokenRecord.family a := stored_row (AccessTokenRecord.context a)]> t).
Definition granted_refresh (a : AccessTokenRecord.t) (x : RefreshTokenRecord.t) t : TokenTables.t :=
  with_refresh <[RefreshTokenRecord.digest x := refreshRow (RefreshTokenRecord.family x) x]> (granted a t).

Definition fresh_record (a : AccessTokenRecord.t) t : Prop :=
  fresh_family (AccessTokenRecord.family a) (stored_row (AccessTokenRecord.context a)) (AccessTokenRecord.digest a)
    (accessRow (AccessTokenRecord.family a) a) t.

Lemma storeInitial_effect a x s : let t := db_tables s in let t' := db_tables (storeInitial a x s).2 in
  (is_ok (storeInitial a x s).1 = true /\ fresh_record a t /\ refresh t !! RefreshTokenRecord.digest x = None /\
   RefreshTokenRecord.family x = AccessTokenRecord.family a /\ t' = granted_refresh a x t) \/
  (is_ok (storeInitial a x s).1 = false /\ t' = t).
Proof.
  cbn zeta. unfold storeInitial. destruct (_ || _) eqn:G; [by right|]. bool_prop.
  match goal with |- context [transaction ?body s] =>
    destruct (transaction_effect body s (fun _ t' => fresh_record a (db_tables s) /\
      refresh (db_tables s) !! RefreshTokenRecord.digest x = None /\ t' = granted_refresh a x (db_tables s)))
      as [(b & -> & Ho & Hx & E)|?] end; [| |by right].
  { reason. eapply yields_mono; [apply storeFamily_yields|]. cbn. intros _ t [Hf ->]. reason. inserted. done. }
  left. done.
Qed.

Lemma storeAccessOnly_effect a s : let t := db_tables s in let t' := db_tables (storeAccessOnly a s).2 in
  (is_ok (storeAccessOnly a s).1 = true /\ fresh_record a t /\ t' = granted a t) \/
  (is_ok (storeAccessOnly a s).1 = false /\ t' = t).
Proof.
  cbn zeta. unfold storeAccessOnly.
  match goal with |- context [transaction ?body s] =>
    destruct (transaction_effect body s (fun _ t' => fresh_record a (db_tables s) /\ t' = granted a (db_tables s)))
      as [(b & -> & Ho & E)|?] end; [|by left|by right].
  reason. eapply yields_mono; [apply storeFamily_yields|]. cbn. intros _ t [Hf ->]. reason. inserted. done.
Qed.

Lemma revokeFamily_effect f now s : let t := db_tables s in let t' := db_tables (revokeFamily f now s).2 in
  (is_ok (revokeFamily f now s).1 = true /\ t' = revoked_family f now t) \/
  (is_ok (revokeFamily f now s).1 = false /\ t' = t).
Proof.
  cbn zeta. unfold revokeFamily.
  destruct (transaction_effect _ s _ (revokeTokenFamilySql_yields f now (db_tables s))) as [(b & -> & E)|?]; [by left|by right].
Qed.

(** What a revocation of a token does. *)
Definition revoked_token (d : TokenDigest) (now : Instant) t : TokenTables.t :=
  match access t !! d, refresh t !! d with
  | Some row, _ => with_access <[d := AccessTokenRow.revoke now row]> t
  | None, Some row => revoked_family (RefreshTokenRow.family_id row) now t
  | None, None => t
  end.

Lemma revokeToken_effect d now s : let t := db_tables s in let t' := db_tables (revokeToken d now s).2 in
  (is_ok (revokeToken d now s).1 = true /\ t' = revoked_token d now t) \/
  (is_ok (revokeToken d now s).1 = false /\ t' = t).
Proof.
  cbn zeta. unfold revokeToken.
  match goal with |- context [transaction ?body s] =>
    destruct (transaction_effect body s (fun _ t' => t' = revoked_token d now (db_tables s))) as [(b & -> & E)|?] end;
    [|by left|by right].
  unfold revoked_token. reason.
  - simplify_eq. unfold with_access. f_equal.
    match goal with G : access _ !! d = Some _ |- _ => rewrite <- (insert_id _ _ _ G) at 1 end.
    by rewrite alter_insert_eq.
  - eapply yields_mono; [apply revokeTokenFamilySql_yields|]. done.
  - done.
Qed.

Definition reuse : Error := authenticationFailure "Refresh token reuse or expiry detected; family revoked.".

Definition rotation_of (d : TokenDigest) (now : Instant) (a : AccessTokenRecord.t) (x : RefreshTokenRecord.t)
    (old : RefreshTokenRow.t) t t' : Prop :=
  let f := RefreshTokenRow.family_id old in
  let new := refreshRow f x in
  let ra := accessRow f a in
  rotates_row d old (RefreshTokenRecord.digest x) new (AccessTokenRecord.digest a) ra now t /\
  RefreshTokenRecord.family x = f /\ AccessTokenRecord.family a = f /\
  t' = rotated d old (RefreshTokenRecord.digest x) new (AccessTokenRecord.digest a) ra now t.

Lemma rotation_yields d now a x t :
  yields (rotationBody d now a x : prog state Error Status) t (fun answer t' => exists old, refresh t !! d = Some old /\
    ((answer = Err reuse /\ (active_row old -> RefreshTokenRow.expires_at old <= now) /\
      t' = revoked_family (RefreshTokenRow.family_id old) now t) \/
     (answer = ok /\ rotation_of d now a x old t t'))).
Proof.
  unfold rotationBody. reason.
  - eapply yields_mono; [apply revokeTokenFamilySql_yields|]. cbn. intros _ t2 ->. reason. eexists. split; [done|]. left.
    split_and!; [done| |done]. intros Hactive. unfold active_row in Hactive. rewrite Hactive in *.
    by apply Z.leb_le.
  - bool_prop.
    match goal with Hc : consumeRefresh _ _ _ = _ |- _ => eapply consumeRefresh_ok in Hc as ->; [|done..] end.
    apply yields_attempt; [|intros e t2; apply yields_bind, yields_attempt; reason; done].
    reason. apply yields_attempt; [|intros e t2; reason; done]. reason. inserted. cbn in *.
    match goal with Hx : _ !! _ = None |- _ => apply lookup_insert_None in Hx as [Hx _] end.
    eexists. split; [done|]. right. done.
Qed.

(** The transaction fails otherwise. *)
Lemma rotation_raises d now a x :
  raises (fun e => e <> reuse) (transaction (rotationBody d now a x) : prog state Error Status).
Proof.
  assert (forall st op, databaseError st op <> reuse) as Hdb.
  { intros st op E. apply (databaseError_code st op). by rewrite E. }
  apply raises_transaction; [done|auto|auto|]. unfold rotationBody. apply raises_bind; [auto using raises_select|].
  intros [row|]; [|by apply raises_throw]. cbn zeta. destruct (_ || _).
  - apply raises_bind; [|intros _; apply raises_ret]. unfold revokeTokenFamilySql.
    repeat (apply raises_bind; [|intros _]); apply raises_execute; auto; done.
  - destruct (_ || _); [by apply raises_throw|]. apply raises_bind; [apply raises_execute; auto; done|intros _].
    apply raises_inspect; [apply raises_execute; [auto|intros t; apply raises_insertRow; auto]|intros r1 Hr1].
    apply raises_inspect; [apply raises_execute; [auto|intros t; apply raises_insertRow; auto]|intros r2 Hr2].
    repeat (apply raises_bind; [by apply raises_lift|intros _]). apply raises_ret.
Qed.

Lemma rotateRefresh_effect d now a x s : let t := db_tables s in let t' := db_tables (rotateRefresh d now a x s).2 in
  match (rotateRefresh d now a x s).1 with
  | Ok _ => exists old, rotation_of d now a x old t t'
  | _ => (t' = t /\ (rotateRefresh d now a x s).1 <> Err reuse) \/
      exists old, refresh t !! d = Some old /\ (active_row old -> RefreshTokenRow.expires_at old <= now) /\
        (rotateRefresh d now a x s).1 = Err reuse /\ t' = revoked_family (RefreshTokenRow.family_id old) now t
  end.
Proof.
  cbn zeta. destruct (rotateRefresh d now a x s) as [r s'] eqn:Hrun. cbn. unfold rotateRefresh in Hrun.
  pose proof Hrun as Hrun0. apply prog_bind_inv in Hrun as [(answer & s1 & Htx & Hlift)|(Hr & Hbody & ->)].
  - injection Hlift as <- <-. apply (yields_transaction _ _ _ (rotation_yields d now a x (db_tables s)) _ _ _ eq_refl) in Htx
      as (old & Hold & [(-> & Hin & E)|[-> Hrot]]); cbn.
    + right. by exists old.
    + by exists old.
  - assert (db_tables (transaction (rotationBody d now a x) s).2 = db_tables s) as E.
    { destruct (transaction (rotationBody d now a x) s) as [r1 s1] eqn:Htx. by eapply transaction_not_ok. }
    destruct r as [u|e|]; [done| |by left]. left. split; [done|]. intros [= ->].
    apply prog_bind_err in Hrun0 as [H|(answer & s1 & H & _)].
    + by apply rotation_raises in H.
    + by rewrite H in Hbody.
Qed.

Lemma token_table_moves o s :
  db_tables (token_table_step o s) = db_tables s \/ token_move (db_tables s) (db_tables (token_table_step o s)).
Proof.
  unfold token_table_step. destruct o as [a x|a|d now a x|f now|d now]; cbn -[storeInitial storeAccessOnly rotateRefresh revokeFamily revokeToken].
  - destruct (storeInitial_effect a x s) as [(_ & Ho & Hx & Hf & ->)|[_ ->]]; [right|by left].
    by apply (move_open_refresh _ _ _ _ _ _ _ Ho).
  - destruct (storeAccessOnly_effect a s) as [(_ & Ho & ->)|[_ ->]]; [right|by left]. by apply (move_open _ _ _ _ _ Ho).
  - pose proof (rotateRefresh_effect d now a x s) as H. cbn zeta in H.
    destruct (rotateRefresh d now a x s).1 as [u|e|].
    + right. destruct H as (old & Hrot & _ & _ & ->). by constructor.
    + destruct H as [[H _]|(old & _ & _ & _ & ->)]; [by left|right; constructor].
    + destruct H as [[H _]|(old & _ & _ & _ & ->)]; [by left|right; constructor].
  - destruct (revokeFamily_effect f now s) as [(_ & ->)|[_ ->]]; [right; constructor|by left].
  - destruct (revokeToken_effect d now s) as [(_ & ->)|[_ ->]]; [|by left]. unfold revoked_token.
    destruct (access _ !! d) eqn:Ha; [right; by constructor|]. destruct (refresh _ !! d); [right; constructor|by left].
Qed.
End effects.

(** ** What the tables keep *)

(** Every token belongs to a family on record; the tokens of a revoked family
    are revoked; and a family has one active refresh token at most. *)
Record sound_tokens t : Prop := {
  sound_access d row : access t !! d = Some row -> is_Some (families t !! AccessTokenRow.family_id row);
  sound_refresh d row : refresh t !! d = Some row -> is_Some (families t !! RefreshTokenRow.family_id row);
  sound_revoked_access d row family :
    access t !! d = Some row -> families t !! AccessTokenRow.family_id row = Some family -> ~ open_family family ->
    AccessTokenRow.state row = AccessTokenState.Revoked;
  sound_revoked_refresh d row family :
    refresh t !! d = Some row -> families t !! RefreshTokenRow.family_id row = Some family -> ~ open_family family ->
    revoked_row row;
  sound_single d1 d2 row1 row2 :
    refresh t !! d1 = Some row1 -> refresh t !! d2 = Some row2 -> active_row row1 -> active_row row2 ->
    RefreshTokenRow.family_id row1 = RefreshTokenRow.family_id row2 -> d1 = d2;
}.

Lemma unused_sound clients identities : sound_tokens (TokenTables.unused clients identities).
Proof. by split. Qed.

(** The tokens of a family are in the tables under this predicate. *)
Definition family_revoked (f : TokenFamilyId) t : Prop := exists row, families t !! f = Some row /\ ~ open_family row.

Lemma family_revoked_run f now t : is_Some (families t !! f) -> family_revoked f (revoked_family f now t).
Proof. intros [row Hrow]. exists (TokenFamilyRow.revoke now row). cbn. by rewrite lookup_alter_eq, Hrow. Qed.

(** Rows after the revocation of a family. *)
Lemma revoked_access_row f now row :
  let row' := if in_family f row then AccessTokenRow.revoke now row else row in
  AccessTokenRow.family_id row' = AccessTokenRow.family_id row /\
  (AccessTokenRow.state row = AccessTokenState.Revoked \/ AccessTokenRow.family_id row = f ->
   AccessTokenRow.state row' = AccessTokenState.Revoked).
Proof.
  cbn. unfold in_family. repeat case_bool_decide; cbn; try tauto. split; [done|]. by destruct (AccessTokenRow.state row).
Qed.

Lemma revoked_refresh_row f now row :
  let row' := if refresh_in_family f row then RefreshTokenRow.revoke now row else row in
  RefreshTokenRow.family_id row' = RefreshTokenRow.family_id row /\
  (revoked_row row \/ RefreshTokenRow.family_id row = f -> revoked_row row') /\
  (active_row row' -> active_row row).
Proof.
  cbn. unfold refresh_in_family, revoked_row, active_row. repeat case_bool_decide; cbn; naive_solver.
Qed.

Lemma access_revoked f now t d row : access (revoked_family f now t) !! d = Some row ->
  exists row0, access t !! d = Some row0 /\ AccessTokenRow.family_id row = AccessTokenRow.family_id row0 /\
    (AccessTokenRow.state row0 = AccessTokenState.Revoked \/ AccessTokenRow.family_id row0 = f ->
     AccessTokenRow.state row = AccessTokenState.Revoked).
Proof.
  unfold revoked_family. cbn [access with_refresh with_access]. rewrite lookup_change_rows.
  intros (row0 & Hd & ->)%fmap_Some. exists row0. split; [done|]. apply revoked_access_row.
Qed.

Lemma refresh_revoked f now t d row : refresh (revoked_family f now t) !! d = Some row ->
  exists row0, refresh t !! d = Some row0 /\ RefreshTokenRow.family_id row = RefreshTokenRow.family_id row0 /\
    (revoked_row row0 \/ RefreshTokenRow.family_id row0 = f -> revoked_row row) /\ (active_row row -> active_row row0).
Proof.
  unfold revoked_family. cbn [refresh with_refresh with_access with_families]. rewrite lookup_change_rows.
  intros (row0 & Hd & ->)%fmap_Some. exists row0. split; [done|]. apply revoked_refresh_row.
Qed.

Lemma families_revoked f now t g : families (revoked_family f now t) !! g =
  if decide (f = g) then TokenFamilyRow.revoke now <$> families t !! g else families t !! g.
Proof. cbn. rewrite lookup_alter. by case_decide; subst. Qed.

Lemma families_revoked_some f now t g : is_Some (families t !! g) -> is_Some (families (revoked_family f now t) !! g).
Proof. rewrite families_revoked. case_decide; [by rewrite fmap_is_Some|done]. Qed.

(** A family that is revoked afterwards was revoked before, or is the one. *)
Lemma families_revoked_inv f now t g row : families (revoked_family f now t) !! g = Some row -> ~ open_family row ->
  g = f \/ exists row0, families t !! g = Some row0 /\ ~ open_family row0.
Proof. rewrite families_revoked. case_decide as E; [left; congruence|]. intros; right; by exists row. Qed.

Lemma sound_revoke f now t : sound_tokens t -> sound_tokens (revoked_family f now t).
Proof.
  intros Hs. split.
  - intros d row (row0 & Hd & -> & _)%access_revoked. by eapply families_revoked_some, (sound_access t Hs).
  - intros d row (row0 & Hd & -> & _)%refresh_revoked. by eapply families_revoked_some, (sound_refresh t Hs).
  - intros d row g (row0 & Hd & -> & Hst)%access_revoked Hg Hno.
    destruct (families_revoked_inv _ _ _ _ _ Hg Hno) as [E|(g0 & Hg0 & Hno0)]; apply Hst; [by right|left].
    by eapply (sound_revoked_access t Hs).
  - intros d row g (row0 & Hd & -> & Hst & _)%refresh_revoked Hg Hno.
    destruct (families_revoked_inv _ _ _ _ _ Hg Hno) as [E|(g0 & Hg0 & Hno0)]; apply Hst; [by right|left].
    by eapply (sound_revoked_refresh t Hs).
  - intros d1 d2 row1 row2 (old1 & H1 & -> & _ & A1)%refresh_revoked (old2 & H2 & -> & _ & A2)%refresh_revoked Hr1 Hr2.
    apply (sound_single t Hs d1 d2 old1 old2); auto.
Qed.

Lemma sound_open f row a ra t :
  fresh_family f row a ra t -> sound_tokens t -> sound_tokens (with_access <[a := ra]> (with_families <[f := row]> t)).
Proof.
  intros Ho Hs.
  assert (forall g, is_Some (families t !! g) -> is_Some (<[f := row]> (families t) !! g)) as Hkeep.
  { intros g. rewrite lookup_insert. case_decide; [by eexists|done]. }
  assert (forall g g', <[f := row]> (families t) !! g = Some g' -> ~ open_family g' -> families t !! g = Some g') as Hold.
  { intros g g'. rewrite lookup_insert. case_decide; [|done]. intros [= <-]. by pose proof (fresh_unrevoked _ _ _ _ _ Ho). }
  split; cbn.
  - intros d r. rewrite lookup_insert. case_decide as E.
    + intros [= <-]. rewrite (fresh_belongs _ _ _ _ _ Ho), lookup_insert_eq. by eexists.
    + intros Hd. by eapply Hkeep, (sound_access t Hs).
  - intros d r Hd. by eapply Hkeep, (sound_refresh t Hs).
  - intros d r g Hd Hg Hno. apply Hold in Hg; [|done]. rewrite lookup_insert in Hd. case_decide as E.
    + injection Hd as <-. rewrite (fresh_belongs _ _ _ _ _ Ho), (fresh_absent _ _ _ _ _ Ho) in Hg. done.
    + by eapply (sound_revoked_access t Hs).
  - intros d r g Hd Hg Hno. apply Hold in Hg; [|done]. by eapply (sound_revoked_refresh t Hs).
  - apply (sound_single t Hs).
Qed.

(** A new active token in a family that has no other. *)
Lemma sound_insert_refresh d new t :
  sound_tokens t -> refresh t !! d = None ->
  (exists family, families t !! RefreshTokenRow.family_id new = Some family /\ open_family family) ->
  (forall d' row, refresh t !! d' = Some row -> RefreshTokenRow.family_id row = RefreshTokenRow.family_id new -> ~ active_row row) ->
  sound_tokens (with_refresh <[d := new]> t).
Proof.
  intros Hs Hnone (g & Hg & Hopen) Hlone. split; cbn.
  - apply (sound_access t Hs).
  - intros d' row. rewrite lookup_insert. case_decide as E; [|apply (sound_refresh t Hs)]. intros [= <-]. by eexists.
  - apply (sound_revoked_access t Hs).
  - intros d' row g'. rewrite lookup_insert. case_decide as E; [|apply (sound_revoked_refresh t Hs)].
    intros [= <-]. rewrite Hg. by intros [= <-].
  - intros d1 d2 row1 row2. rewrite !lookup_insert. repeat case_decide; subst; intros; simplify_eq; try done.
    + by destruct (Hlone d2 row2).
    + by destruct (Hlone d1 row1).
    + by eapply (sound_single t Hs).
Qed.

(** The family of an active token is open. *)
Lemma active_family d row t : sound_tokens t -> refresh t !! d = Some row -> active_row row ->
  exists family, families t !! RefreshTokenRow.family_id row = Some family /\ open_family family.
Proof.
  intros Hs Hd Hactive. destruct (sound_refresh t Hs _ _ Hd) as [g Hg]. exists g. split; [done|].
  destruct (decide (open_family g)) as [|Hno]; [done|].
  pose proof (sound_revoked_refresh t Hs _ _ _ Hd Hg Hno). unfold revoked_row, active_row in *. congruence.
Qed.

Lemma sound_put_access a ra t :
  sound_tokens t -> is_Some (families t !! AccessTokenRow.family_id ra) ->
  (forall family, families t !! AccessTokenRow.family_id ra = Some family -> ~ open_family family ->
     AccessTokenRow.state ra = AccessTokenState.Revoked) ->
  sound_tokens (with_access <[a := ra]> t).
Proof.
  intros Hs Hf Hst. split; cbn; try apply Hs.
  - intros d row. rewrite lookup_insert. case_decide; [by intros [= <-]|apply (sound_access t Hs)].
  - intros d row g. rewrite lookup_insert. case_decide; [intros [= <-]; apply Hst|apply (sound_revoked_access t Hs)].
Qed.

(** A token that is used goes on belonging to its family. *)
Lemma sound_use d old now t : sound_tokens t -> refresh t !! d = Some old -> active_row old ->
  sound_tokens (with_refresh <[d := RefreshTokenRow.use now old]> t).
Proof.
  intros Hs Hd Hactive. destruct (active_family _ _ _ Hs Hd Hactive) as (g & Hg & Hopen).
  split; cbn; try apply Hs.
  - intros d' row. rewrite lookup_insert. case_decide; [intros [= <-]; by eexists|apply (sound_refresh t Hs)].
  - intros d' row g'. rewrite lookup_insert. case_decide; [|apply (sound_revoked_refresh t Hs)].
    intros [= <-]. cbn. rewrite Hg. by intros [= <-].
  - intros d1 d2 row1 row2. rewrite !lookup_insert. repeat case_decide; intros; simplify_eq; try done.
    by eapply (sound_single t Hs).
Qed.

Lemma sound_rotate d old d' new a ra now t :
  rotates_row d old d' new a ra now t -> sound_tokens t -> sound_tokens (rotated d old d' new a ra now t).
Proof.
  intros [Hold Hactive _ Hfresh Hnew Hfam Ha Hafam] Hs.
  destruct (active_family _ _ _ Hs Hold Hactive) as (g & Hg & Hopen).
  apply sound_insert_refresh; cbn.
  - apply sound_put_access; cbn; [by apply sound_use|rewrite Hafam; by eexists|].
    rewrite Hafam, Hg. by intros ? [= <-].
  - rewrite lookup_insert_ne by congruence. done.
  - rewrite Hfam. by exists g.
  - intros d1 row. rewrite lookup_insert. case_decide as E; [by intros [= <-]|]. intros H1 Hf Hact. apply E.
    eapply (sound_single t Hs); [exact Hold|exact H1|done|done|congruence].
Qed.

Lemma sound_move t t' : token_move t t' -> sound_tokens t -> sound_tokens t'.
Proof.
  intros [f row a ra Ho|f row a ra d rr Ho Hd Hf Hact|d old d' new a ra now Hrot|f now|d row now Hd] Hs.
  - by apply sound_open.
  - apply sound_insert_refresh; cbn; [by apply sound_open|done| |].
    + rewrite Hf, lookup_insert_eq. eexists. split; [done|]. by apply Ho.
    + intros d' row' Hd' Hf' _. destruct (sound_refresh t Hs _ _ Hd') as [g Hg].
      rewrite Hf', Hf, (fresh_absent _ _ _ _ _ Ho) in Hg. done.
  - by apply sound_rotate.
  - by apply sound_revoke.
  - apply sound_put_access; [done|by apply (sound_access t Hs _ _ Hd)|done].
Qed.

Section promises.
Context `{Db : Database} {W : Type}.
Abbreviation state := (database TokenTables.t W).
Implicit Types (s : state).

Lemma token_table_sound ops s : sound_tokens (db_tables s) -> sound_tokens (db_tables (token_table_run ops s)).
Proof.
  revert s. induction ops as [|o ops IH]; intros s Hs; cbn; [done|]. apply IH.
  destruct (token_table_moves o s) as [->|Hmove]; [done|by eapply sound_move].
Qed.

(** C4: The token tables stay consistent. From tables without a token, along every
    sequence of grants, rotations and revocations, with any records, digests and
    times and whatever request the server fails: a token belongs to a family on
    record, the tokens of a family that was revoked are all revoked, and a
    family has at most one active refresh token. *)
Theorem token_tables_stay_sound clients identities n requests (w : W) ops :
  sound_tokens (db_tables (token_table_run ops (mkDatabase (TokenTables.unused clients identities) n requests w))).
Proof. apply token_table_sound, unused_sound. Qed.

(** *** Revocation *)

Lemma family_revoked_move f t t' : token_move t t' -> family_revoked f t -> family_revoked f t'.
Proof.
  intros Hmove (row & Hrow & Hno). destruct Hmove as [g row' a ra Ho|g row' a ra d rr Ho Hd Hf Hact|d old d' new a ra now Hrot|g now|d row' now Hd];
    cbn; try by exists row.
  1,2: exists row; cbn; rewrite lookup_insert_ne; [done|]; intros ->; rewrite (fresh_absent _ _ _ _ _ Ho) in Hrow; done.
  unfold family_revoked. rewrite families_revoked. case_decide; [|by exists row].
  exists (TokenFamilyRow.revoke now row). by rewrite Hrow.
Qed.

Lemma family_revoked_stays f ops s :
  family_revoked f (db_tables s) -> family_revoked f (db_tables (token_table_run ops s)).
Proof.
  revert s. induction ops as [|o ops IH]; intros s Hs; cbn; [done|]. apply IH.
  destruct (token_table_moves o s) as [->|Hmove]; [done|by eapply family_revoked_move].
Qed.

(** The operations that end a family that is on record: its revocation, the
    revocation of one of its refresh tokens, and a reuse that is detected. *)
Definition ends_family (f : TokenFamilyId) (o : token_op) s : Prop :=
  let t := db_tables s in
  match o with
  | RevokeFamily g now => g = f /\ is_Some (families t !! f) /\ is_ok (tr_revokeFamily f now s).1 = true
  | RevokeToken d now =>
      access t !! d = None /\ RefreshTokenRow.family_id <$> refresh t !! d = Some f /\
      is_ok (tr_revokeToken d now s).1 = true
  | RotateRefresh d now a x =>
      RefreshTokenRow.family_id <$> refresh t !! d = Some f /\ (tr_rotateRefresh d now a x s).1 = Err reuse
  | _ => False
  end.

Lemma ends_family_revoked f o s :
  sound_tokens (db_tables s) -> ends_family f o s -> family_revoked f (db_tables (token_table_step o s)).
Proof.
  intros Hs. unfold token_table_step. destruct o as [a x|a|d now a x|g now|d now]; [done|done|..];
    cbn -[storeInitial storeAccessOnly rotateRefresh revokeFamily revokeToken].
  - intros [(row & Hd & ->)%fmap_Some Hreuse]. pose proof (rotateRefresh_effect d now a x s) as H. cbn zeta in H.
    rewrite Hreuse in H. destruct H as [[_ []]|(old & Hold & _ & _ & ->)]; [done|].
    simplify_eq. by apply family_revoked_run, (sound_refresh _ Hs _ _ Hd).
  - intros (-> & Hf & Hok). destruct (revokeFamily_effect f now s) as [(_ & ->)|[Hno _]]; [|congruence].
    by apply family_revoked_run.
  - intros (Hnone & (row & Hd & ->)%fmap_Some & Hok).
    destruct (revokeToken_effect d now s) as [(_ & ->)|[Hno _]]; [|congruence].
    unfold revoked_token. rewrite Hnone, Hd. by apply family_revoked_run, (sound_refresh _ Hs _ _ Hd).
Qed.

(** What a token that is found says about its row. *)
Lemma findAccess_ok s d a : tr_findAccess s d = Ok a ->
  exists row, access (db_tables s) !! d = Some row /\ AccessTokenRecord.family a = AccessTokenRow.family_id row /\
    AccessTokenRecord.state a = AccessTokenRow.state row.
Proof.
  intros H%run_as. cbn [tr_findAccess repository] in H. revert H.
  assert (yields (findAccess d : prog state Error AccessTokenRecord.t) (db_tables s) (fun a _ =>
    exists row, access (db_tables s) !! d = Some row /\ AccessTokenRecord.family a = AccessTokenRow.family_id row /\
      AccessTokenRecord.state a = AccessTokenRow.state row)) as Hy; [|by apply Hy].
  unfold findAccess. reason. intros s1 c s2 _ _. reason. by eexists.
Qed.

Lemma findRefresh_ok s d x : tr_findRefresh s d = Ok x ->
  exists row, refresh (db_tables s) !! d = Some row /\ RefreshTokenRecord.family x = RefreshTokenRow.family_id row /\
    RefreshTokenRecord.state x = RefreshTokenRow.state row.
Proof.
  intros H%run_as. cbn [tr_findRefresh repository] in H. revert H.
  assert (yields (findRefresh d : prog state Error RefreshTokenRecord.t) (db_tables s) (fun x _ =>
    exists row, refresh (db_tables s) !! d = Some row /\ RefreshTokenRecord.family x = RefreshTokenRow.family_id row /\
      RefreshTokenRecord.state x = RefreshTokenRow.state row)) as Hy; [|by apply Hy].
  unfold findRefresh. reason. intros s1 c s2 _ _. reason. by eexists.
Qed.

(** C5: Revocation of a token family is final. Take any history of the tables that
    starts without tokens, whatever request the server fails, in which a family
    on record is ended: it is revoked, or one of its refresh tokens is revoked,
    or a refresh token is presented that was used before or has expired, and the
    answer says so. Whatever comes afterwards, no access token and no refresh
    token of that family is ever usable, and none of them can be rotated. *)
Theorem family_revocation_is_final f clients identities n requests (w : W) ops1 o ops2 :
  let s1 := token_table_run ops1 (mkDatabase (TokenTables.unused clients identities) n requests w) in
  ends_family f o s1 ->
  let s := token_table_run ops2 (token_table_step o s1) in
  (forall d a now, tr_findAccess s d = Ok a -> AccessTokenRecord.family a = f ->
     AccessTokenRecord.usableAt a now = false) /\
  (forall d x now, tr_findRefresh s d = Ok x -> RefreshTokenRecord.family x = f ->
     RefreshTokenRecord.usableAt x now = false) /\
  (forall d now a x, RefreshTokenRow.family_id <$> refresh (db_tables s) !! d = Some f ->
     is_ok (tr_rotateRefresh d now a x s).1 = false).
Proof.
  intros s1 Hends s.
  assert (sound_tokens (db_tables s1)) as Hs1 by apply token_table_sound, unused_sound.
  assert (sound_tokens (db_tables s)) as Hs.
  { change s with (token_table_run (o :: ops2) s1). by apply token_table_sound. }
  assert (family_revoked f (db_tables s)) as (g & Hg & Hno) by (apply family_revoked_stays; by apply ends_family_revoked).
  split_and!.
  - intros d a now (row & Hd & -> & Est)%findAccess_ok Hf. subst f. unfold AccessTokenRecord.usableAt.
    by rewrite Est, (sound_revoked_access _ Hs _ _ _ Hd Hg Hno).
  - intros d x now (row & Hd & -> & Est)%findRefresh_ok Hf. subst f. unfold RefreshTokenRecord.usableAt.
    pose proof (sound_revoked_refresh _ Hs _ _ _ Hd Hg Hno) as Hr. unfold revoked_row in Hr. by rewrite Est, Hr.
  - intros d now a x (row & Hd & ->)%fmap_Some. pose proof (rotateRefresh_effect d now a x s) as H. cbn zeta in H.
    cbn [tr_rotateRefresh repository]. destruct (rotateRefresh d now a x s).1 as [u|e|]; [|done|done]. exfalso.
    destruct H as (old & [Hold Hactive _ _ _ _ _ _] & _). simplify_eq.
    pose proof (sound_revoked_refresh _ Hs _ _ _ Hd Hg Hno) as Hr. unfold revoked_row, active_row in *. congruence.
Qed.

(** *** Rotation *)

Definition rotates_token (d : TokenDigest) (o : token_op) s : bool :=
  match o with
  | RotateRefresh d' now a x => bool_decide (d' = d) && is_ok (tr_rotateRefresh d' now a x s).1
  | _ => false
  end.

(** A digest that is not used up. *)
Definition unspent (d : TokenDigest) t : nat :=
  match refresh t !! d with
  | Some row => if bool_decide (RefreshTokenRow.state row = RefreshTokenState.Active) then 1 else 0
  | None => 1
  end.

Lemma unspent_move d t t' : token_move t t' -> (unspent d t' <= unspent d t)%nat.
Proof.
  intros [f row a ra Ho|f row a ra d' rr Ho Hd Hf Hact|d1 old d' new a ra now Hrot|f now|d' row now Hd]; unfold unspent.
  - done.
  - cbn. rewrite lookup_insert. case_decide as E; [|done]. subst d'. rewrite Hd. case_bool_decide; lia.
  - cbn. destruct Hrot as [Hold Hactive _ Hfresh Hnew _ _ _]. rewrite lookup_insert. case_decide as E.
    + subst d'. rewrite Hfresh. case_bool_decide; lia.
    + rewrite lookup_insert. case_decide as E1; [|done]. cbn. case_bool_decide; [done|lia].
  - destruct (refresh (revoked_family f now t) !! d) as [row|] eqn:Hd.
    + apply refresh_revoked in Hd as (row0 & -> & _ & _ & Hact). unfold active_row in Hact.
      repeat case_bool_decide; try lia. tauto.
    + unfold revoked_family in Hd. cbn [refresh with_refresh with_access with_families] in Hd.
      rewrite lookup_change_rows in Hd. apply fmap_None in Hd. by rewrite Hd.
  - done.
Qed.

(** A refresh token is rotated once. In every history of the tables, with any
    records, digests and times and whatever request the server fails, at most
    one rotation of a digest succeeds. *)
Theorem refresh_token_rotates_once d ops s :
  (count_steps token_table_step (rotates_token d) ops s <= 1)%nat.
Proof.
  pose proof (taken_within_given token_table_step (rotates_token d) (fun _ _ => false) (fun s => unspent d (db_tables s)) ops s) as H.
  assert (count_steps token_table_step (fun _ _ => false) ops s = 0%nat) as E.
  { clear H. revert s. induction ops; intros s; cbn; [done|]. by rewrite IHops. }
  rewrite E in H. etrans; [apply H|].
  - clear. intros o s. destruct (rotates_token d o s) eqn:Hr; cbn.
    + destruct o as [| |d' now a x| |]; [done|done| |done|done]. cbn in Hr. apply andb_true_iff in Hr as [->%bool_decide_eq_true Hok].
      pose proof (rotateRefresh_effect d now a x s) as Heff. cbn zeta in Heff. unfold token_table_step. cbn.
      destruct (rotateRefresh d now a x s).1 as [u|e|]; [|done|done].
      destruct Heff as (old & [Hold Hactive _ Hfresh _ _ _ _] & _ & _ & ->). unfold unspent. cbn.
      rewrite lookup_insert_ne by congruence. rewrite lookup_insert_eq, Hold. cbn.
      unfold active_row in Hactive. rewrite Hactive. by repeat case_bool_decide.
    + destruct (token_table_moves o s) as [->|Hmove]; [done|by apply unspent_move].
  - unfold unspent. repeat case_match; lia.
Qed.
End promises.

(** ** A grant reads back *)

Module StoredGrants.
Import ReliableServer.
Section reads.
Context {W : Type}.
Abbreviation state := (database TokenTables.t W).
Implicit Types (s : state).

(** The constraint of a context was made by its constructor. *)
Definition made (constraint : option SenderConstraint.t) : Prop :=
  match constraint with
  | None => True
  | Some c => SenderConstraint.create (SenderConstraint.kind c) (SenderConstraint.value c) = Ok c
  end.

Lemma loadTokenContext_stored f client identity provider assurance strength scopes authenticatedAt audiences constraint s :
  let c := TokenContext.create client identity provider assurance strength scopes authenticatedAt audiences constraint in
  made constraint -> families (db_tables s) !! f = Some (stored_row c) ->
  (loadTokenContext f s).1 = Ok c.
Proof.
  intros c Hmade Hf. unfold loadTokenContext, select, execute, request, on_tables, zoom, mbind, prog_bind. cbn.
  rewrite !Hf. cbn. rewrite !Hf. cbn.
  assert (TokenContext.create client identity provider assurance strength
    (elements (list_to_set (C:=gset string) (sort_unique scopes))) authenticatedAt
    (elements (list_to_set (C:=gset string) (sort_unique audiences))) constraint = c) as E.
  { unfold c, TokenContext.create. by rewrite !sort_unique_stored. }
  destruct constraint as [[kind value]|]; cbn in *; [|by rewrite E]. destruct value as [|ch value]; [done|].
  cbn. rewrite Hmade. cbn. by rewrite E.
Qed.

(** C29: A grant reads back as it was stored. On a server that fails no request, once
    the first tokens of a family are stored, with any identifiers, scopes,
    audiences, constraint and times that the service may give them, both tokens
    are found under their digests, exactly as they were handed in. *)
Theorem stored_grant_reads_back da dx f seq client identity provider assurance strength scopes authenticatedAt audiences
    constraint issuedAt accessEnd refreshEnd s s' :
  let c := TokenContext.create client identity provider assurance strength scopes authenticatedAt audiences constraint in
  let a := AccessTokenRecord.create da f c issuedAt accessEnd in
  let x := RefreshTokenRecord.create dx f seq c issuedAt refreshEnd in
  made constraint -> 0 <= seq < 2 ^ 63 ->
  tr_storeInitial a x s = (ok, s') ->
  tr_findAccess s' da = Ok a /\ tr_findRefresh s' dx = Ok x.
Proof.
  intros c a x Hmade Hseq Hstore. pose proof (storeInitial_effect a x s) as H. cbn zeta in H.
  cbn [tr_storeInitial repository] in Hstore. rewrite Hstore in H.
  destruct H as [(_ & _ & _ & _ & E)|[[=] _]]. cbn in E.
  assert (forall s1, db_tables s1 = db_tables s' -> (loadTokenContext f s1).1 = Ok c) as Hload.
  { intros s1 E1. apply loadTokenContext_stored; [done|]. rewrite E1, E. cbn. apply lookup_insert_eq. }
  split; cbn [tr_findAccess tr_findRefresh repository].
  - unfold findAccess, select, execute, request, on_tables, zoom, mbind, prog_bind. cbn. rewrite E. cbn.
    rewrite lookup_insert_eq. cbn.
    match goal with |- context [loadTokenContext f ?s1] => specialize (Hload s1); destruct (loadTokenContext f s1) as [r s2] end.
    cbn in Hload. rewrite Hload by done. done.
  - unfold findRefresh, select, execute, request, on_tables, zoom, mbind, prog_bind. cbn. rewrite E. cbn.
    rewrite lookup_insert_eq. cbn.
    match goal with |- context [loadTokenContext f ?s1] => specialize (Hload s1); destruct (loadTokenContext f s1) as [r s2] end.
    cbn in Hload. rewrite Hload by done. cbn. unfold x, RefreshTokenRecord.create. do 2 f_equal. unfold to_i64.
    rewrite Z.mod_small; lia.
Qed.
End reads.
End StoredGrants.

(** ** Witnesses *)

Module TokenTableWitnesses.
Import ReliableServer.

Definition digest_of (b : byte) : TokenDigest := replicate 32 b.
Definition family : TokenFamilyId := mkId "family".
Definition reader : TokenContext.t :=
  TokenContext.create (mkId "client") (mkId "alice") (mkId "local") Ial1 (AuthenticationStrength.mk Knowledge false)
    ["read"; "openid"; "read"] 5 ["api"] (Some (SenderConstraint.mk SenderConstraintKind.Dpop "thumb")).
Definition first_access : AccessTokenRecord.t := AccessTokenRecord.create (digest_of Byte.x01) family reader 10 100.
Definition first_refresh : RefreshTokenRecord.t := RefreshTokenRecord.create (digest_of Byte.x02) family 0 reader 10 1000.
Definition second_access : AccessTokenRecord.t := AccessTokenRecord.create (digest_of Byte.x03) family reader 20 110.
Definition second_refresh : RefreshTokenRecord.t := RefreshTokenRecord.create (digest_of Byte.x04) family 1 reader 20 1000.

Definition fresh_tables : database TokenTables.t unit :=
  mkDatabase (TokenTables.unused {[mkId "client"]} {[mkId "alice"]}) 0 0 tt.
Definition grant_and_rotate : list token_op :=
  [StoreInitial first_access first_refresh; RotateRefresh (digest_of Byte.x02) 20 second_access second_refresh].

(** The first token is presented again after its rotation. *)
Definition replay : token_op := RotateRefresh (digest_of Byte.x02) 30 second_access second_refresh.

Lemma family_revocation_is_final_witness :
  (tr_findRefresh (token_table_run grant_and_rotate fresh_tables) (digest_of Byte.x04) = Ok second_refresh /\
   ends_family family replay (token_table_run grant_and_rotate fresh_tables)) /\
  let s := token_table_run [] (token_table_step replay (token_table_run grant_and_rotate fresh_tables)) in
  (forall d a now, tr_findAccess s d = Ok a -> AccessTokenRecord.family a = family ->
     AccessTokenRecord.usableAt a now = false) /\
  (forall d x now, tr_findRefresh s d = Ok x -> RefreshTokenRecord.family x = family ->
     RefreshTokenRecord.usableAt x now = false) /\
  (forall d now a x, RefreshTokenRow.family_id <$> refresh (db_tables s) !! d = Some family ->
     is_ok (tr_rotateRefresh d now a x s).1 = false).
Proof.
  split; [split; [vm_compute; reflexivity|split; vm_compute; reflexivity]|].
  apply (family_revocation_is_final family {[mkId "client"]} {[mkId "alice"]} 0 0 tt grant_and_rotate replay []).
  split; vm_compute; reflexivity.
Defined.

(** Two transactions that overlap are not steps of the model. Under READ COMMITTED,
    which a plain [BEGIN] asks for, the rows that a rotation inserts are not
    visible to a revocation that runs before it commits. These are the tables
    they leave: the family and the token that was presented are revoked, the new
    tokens are not, and nothing asks the family whether it was revoked. *)
Definition overlapped : database TokenTables.t unit :=
  let t := revoked_family family 25
    (with_refresh (alter (RefreshTokenRow.use 20) (digest_of Byte.x02))
       (db_tables (token_table_run [StoreInitial first_access first_refresh] fresh_tables))) in
  mkDatabase
    (with_refresh <[digest_of Byte.x04 := refreshRow family second_refresh]>
       (with_access <[digest_of Byte.x03 := accessRow family second_access]> t)) 0 0 tt.

Definition third_access : AccessTokenRecord.t := AccessTokenRecord.create (digest_of Byte.x05) family reader 30 120.
Definition third_refresh : RefreshTokenRecord.t := RefreshTokenRecord.create (digest_of Byte.x06) family 2 reader 30 1000.

Example an_overlapping_rotation_escapes :
  family_revoked family (db_tables overlapped) /\
  tr_findRefresh overlapped (digest_of Byte.x04) = Ok second_refresh /\
  (tr_rotateRefresh (digest_of Byte.x04) 30 third_access third_refresh overlapped).1 = ok.
Proof.
  split; [|split; vm_compute; reflexivity].
  eexists. split; [vm_compute; reflexivity|]. vm_compute. discriminate.
Qed.

Lemma stored_grant_reads_back_witness :
  let s' := (tr_storeInitial first_access first_refresh fresh_tables).2 in
  tr_findAccess s' (digest_of Byte.x01) = Ok first_access /\ tr_findRefresh s' (digest_of Byte.x02) = Ok first_refresh.
Proof.
  apply (StoredGrants.stored_grant_reads_back (digest_of Byte.x01) (digest_of Byte.x02) family 0 (mkId "client") (mkId "alice")
    (mkId "local") Ial1 (AuthenticationStrength.mk Knowledge false) ["read"; "openid"; "read"] 5 ["api"]
    (Some (SenderConstraint.mk SenderConstraintKind.Dpop "thumb")) 10 100 1000 fresh_tables).
  - vm_compute. reflexivity.
  - lia.
  - vm_compute. reflexivity.
Defined.
End TokenTableWitnesses.
