(* ===== verification/CodeTable.v ===== *)
(** * openproof.storage.postgres: the table of authorization codes

    Models the codes of [PostgresIdentityProviderStore] of
    [src/src/storage/postgres/postgres.cpp] with the tables
    [oauth_authorization_codes] and [oauth_authorization_code_scopes] of
    [src/migrations/0003_identity_provider.sql] and the resource of
    [0006_resource_consent.sql]: a code store of the authorization service in
    which a redemption is one transaction. *)
From S2P Require Import Prelude Foundation Database Encoding Security Provider IdentityCore Client Authorization SessionTable.

(** [ORDER BY] a text, by the collation of the database. *)
Class Collation := { order_by : list string -> list string }.
Class CollationLaws `(C : Collation) : Prop := { order_by_permutes l : order_by l ≡ₚ l }.

Module CodeRow.
(** A row without its key; its scopes are the rows that refer to it. *)
Record t := mk {
  client_id : ClientId;
  identity_id : IdentityId;
  redirect_uri : string;
  code_challenge : string;
  nonce : option string;
  provider : ProviderId;
  assurance : AssuranceLevel;
  strength : AuthenticationStrength.t;
  authenticated_at : Instant;
  issued_at : Instant;
  expires_at : Instant;
  resource : option string;
  scopes : gset string;
}.

Definition of_code (c : AuthorizationCode.t) : t :=
  mk (AuthorizationCode.clientId c) (AuthorizationCode.identity c) (AuthorizationCode.redirectUri c)
     (PkceChallenge.value (AuthorizationCode.codeChallenge c))
     (PostgresSessionRepository.nullif (AuthorizationCode.nonce c)) (AuthorizationCode.provider c)
     (AuthorizationCode.assurance c) (AuthorizationCode.strength c) (AuthorizationCode.authenticatedAt c)
     (AuthorizationCode.issuedAt c) (AuthorizationCode.expiresAt c)
     (PostgresSessionRepository.nullif (AuthorizationCode.resource c)) ∅.

Definition with_scope (scope : string) (row : t) : t :=
  mk (client_id row) (identity_id row) (redirect_uri row) (code_challenge row) (nonce row) (provider row)
     (assurance row) (strength row) (authenticated_at row) (issued_at row) (expires_at row) (resource row)
     ({[scope]} ∪ scopes row).
End CodeRow.

Module CodeTables.
(** The codes, and the keys of the two tables they refer to. *)
Record t := mk { clients : gset ClientId; identities : gset IdentityId; codes : gmap CodeDigest CodeRow.t }.

Definition with_codes (f : gmap CodeDigest CodeRow.t -> gmap CodeDigest CodeRow.t) (r : t) : t :=
  mk (clients r) (identities r) (f (codes r)).
End CodeTables.

Module PostgresCodes.
Import CodeTables(clients, identities, codes, with_codes).
Import PostgresSessionRepository(between_1_and, at_most).
Implicit Types (t : CodeTables.t).
Abbreviation statement B := (prog CodeTables.t Error B).

(** The enumerations are within their ranges. *)
Definition code_checks (digest : CodeDigest) (row : CodeRow.t) : bool :=
  (length digest =? 32)%nat && between_1_and 2048 (CodeRow.redirect_uri row)
  && (characters (CodeRow.code_challenge row) =? 43)%nat && at_most 512 (CodeRow.nonce row)
  && between_1_and 200 (id_value (CodeRow.provider row))
  && (CodeRow.issued_at row <? CodeRow.expires_at row)
  && match CodeRow.resource row with None => true | Some value => between_1_and 2048 value end.

Definition insertCode (operation : string) (digest : CodeDigest) (row : CodeRow.t) : statement unit := fun t =>
  insertRow operation (code_checks digest row) (bool_decide (codes t !! digest = None))
    (bool_decide (CodeRow.client_id row ∈ clients t) && bool_decide (CodeRow.identity_id row ∈ identities t))
    (with_codes <[digest := row]>) t.

Definition insertScope (operation : string) (digest : CodeDigest) (scope : string) : statement unit := fun t =>
  insertRow operation (between_1_and 128 scope)
    (match codes t !! digest with None => true | Some row => bool_decide (scope ∉ CodeRow.scopes row) end)
    (bool_decide (is_Some (codes t !! digest)))
    (with_codes (alter (CodeRow.with_scope scope) digest)) t.

(** The scopes go with their code ([ON DELETE CASCADE]). *)
Definition deleteCode (digest : CodeDigest) : statement unit := fun t => (ok, with_codes (delete digest) t).

(** The loop that parses the rows of scopes. *)
Fixpoint parseScopes (rows : list string) : Result (list Scope.t) :=
  match rows with
  | [] => Ok []
  | row :: rows => parsed ← Scope.create row; scopes ← parseScopes rows; Ok (parsed :: scopes)
  end.

Definition unavailable : Error :=
  authenticationFailure "Authorization code was not found or was already consumed.".

Section store.
Context `{Db : Database} `{Col : Collation} {W : Type}.
Abbreviation state := (database CodeTables.t W).
Abbreviation session B := (prog state Error B).

Fixpoint insertScopes (digest : CodeDigest) (scopes : list Scope.t) : session unit :=
  match scopes with
  | [] => mret tt
  | scope :: scopes =>
      _ ← execute "insert authorization code scope"
            (insertScope "insert authorization code scope" digest (Scope.value scope));
      insertScopes digest scopes
  end.

Definition add (value : AuthorizationCode.t) : session unit :=
  transaction (
    _ ← execute "insert OAuth authorization code"
          (insertCode "insert OAuth authorization code" (AuthorizationCode.digest value) (CodeRow.of_code value));
    insertScopes (AuthorizationCode.digest value) (AuthorizationCode.scopes value)).

(** The statements of a redemption. An expired code is deleted for good, and
    the transaction that deletes it commits; any other refusal rolls back. *)
Definition redemption (digest : CodeDigest) (now : Instant)
    (expectedClientId expectedRedirectUri expectedCodeChallenge : string) : session (option AuthorizationCode.t) :=
  base ← select "consume authorization code" (fun t => codes t !! digest);
  match base with
  | None => throw unavailable
  | Some base =>
      scopeRows ← select "load authorization code scopes" (fun t =>
        order_by (from_option (fun row => elements (CodeRow.scopes row)) [] (codes t !! digest)));
      scopes ← lift (parseScopes scopeRows);
      challenge ← lift (PkceChallenge.create (CodeRow.code_challenge base));
      code ← lift (AuthorizationCode.restore digest (CodeRow.client_id base) (CodeRow.identity_id base)
               (CodeRow.redirect_uri base) scopes challenge (CodeRow.nonce base) (CodeRow.provider base)
               (CodeRow.assurance base) (CodeRow.strength base) (CodeRow.authenticated_at base)
               (CodeRow.issued_at base) (CodeRow.expires_at base) (CodeRow.resource base));
      if AuthorizationCode.expiredAt code now then
        _ ← execute "delete expired authorization code" (deleteCode digest);
        mret None
      else if negb (bool_decide (id_value (AuthorizationCode.clientId code) = expectedClientId))
              || negb (bool_decide (AuthorizationCode.redirectUri code = expectedRedirectUri))
              || negb (bool_decide (PkceChallenge.value (AuthorizationCode.codeChallenge code)
                                    = expectedCodeChallenge)) then
        throw unavailable
      else
        _ ← execute "delete consumed authorization code" (deleteCode digest);
        mret (Some code)
  end.

Definition consumeBound (digest : CodeDigest) (now : Instant)
    (expectedClientId expectedRedirectUri expectedCodeChallenge : string) : session AuthorizationCode.t :=
  code ← transaction (redemption digest now expectedClientId expectedRedirectUri expectedCodeChallenge);
  match code with
  | None => throw unavailable
  | Some code => mret code
  end.

#[global] Instance store : AuthorizationCodeStore state := { acs_add := add; acs_consumeBound := consumeBound }.
End store.
End PostgresCodes.

(** ** What an operation does to the table *)

Import CodeTables(clients, identities, codes, with_codes).
Import PostgresCodes.
Implicit Types (t : CodeTables.t).

(** The row of a code once its scopes are in. *)
Definition stored_code (c : AuthorizationCode.t) : CodeRow.t :=
  let row := CodeRow.of_code c in
  CodeRow.mk (CodeRow.client_id row) (CodeRow.identity_id row) (CodeRow.redirect_uri row) (CodeRow.code_challenge row)
    (CodeRow.nonce row) (CodeRow.provider row) (CodeRow.assurance row) (CodeRow.strength row)
    (CodeRow.authenticated_at row) (CodeRow.issued_at row) (CodeRow.expires_at row) (CodeRow.resource row)
    (list_to_set (Scope.value <$> AuthorizationCode.scopes c)).

(** The code that a row stands for. *)
Definition row_binds (row : CodeRow.t) (c : AuthorizationCode.t) : Prop :=
  CodeRow.client_id row = AuthorizationCode.clientId c /\ CodeRow.identity_id row = AuthorizationCode.identity c /\
  CodeRow.redirect_uri row = AuthorizationCode.redirectUri c /\
  CodeRow.code_challenge row = PkceChallenge.value (AuthorizationCode.codeChallenge c) /\
  CodeRow.expires_at row = AuthorizationCode.expiresAt c.

Lemma restore_code_ok d client identity uri scopes challenge nonce provider assurance strength at_ issued expires resource c :
  AuthorizationCode.restore d client identity uri scopes challenge nonce provider assurance strength at_ issued expires
    resource = Ok c ->
  c = AuthorizationCode.mk d client identity uri scopes challenge nonce resource provider assurance strength at_ issued
        expires.
Proof.
  unfold AuthorizationCode.restore, AuthorizationCode.create. intros H. branch H He; [done|].
  destruct (_ || _); [done|]. injection H as <-. f_equal. lia.
Qed.

Lemma challenge_ok value c : PkceChallenge.create value = Ok c -> PkceChallenge.value c = value.
Proof. unfold PkceChallenge.create. destruct (_ || _); [done|]. by intros [= <-]. Qed.

Section effects.
Context `{Db : Database} `{Col : Collation} {W : Type}.
Abbreviation state := (database CodeTables.t W).
Implicit Types (s : state).

Definition add_scopes (scopes : list Scope.t) (row : CodeRow.t) : CodeRow.t :=
  foldl (fun row scope => CodeRow.with_scope (Scope.value scope) row) row scopes.

Lemma add_scopes_row scopes row :
  add_scopes scopes row =
  CodeRow.mk (CodeRow.client_id row) (CodeRow.identity_id row) (CodeRow.redirect_uri row) (CodeRow.code_challenge row)
    (CodeRow.nonce row) (CodeRow.provider row) (CodeRow.assurance row) (CodeRow.strength row)
    (CodeRow.authenticated_at row) (CodeRow.issued_at row) (CodeRow.expires_at row) (CodeRow.resource row)
    (list_to_set (Scope.value <$> scopes) ∪ CodeRow.scopes row).
Proof.
  revert row. induction scopes as [|scope scopes IH]; intros row; cbn; [destruct row; cbn; f_equal; set_solver|].
  unfold add_scopes in IH. rewrite IH. cbn. f_equal. set_solver.
Qed.

(** The scopes go in one after the other, and none twice. *)
Lemma code_scopes_yield digest scopes row t :
  codes t !! digest = Some row ->
  yields (insertScopes digest scopes : prog state Error unit) t (fun _ t' =>
    t' = with_codes <[digest := add_scopes scopes row]> t /\
    NoDup (Scope.value <$> scopes) /\ forall scope, scope ∈ scopes -> Scope.value scope ∉ CodeRow.scopes row).
Proof.
  revert t row. induction scopes as [|scope scopes IH]; intros t row Hrow; cbn [insertScopes]; reason.
  - split_and!; [|constructor|set_solver]. destruct t as [? ? cs]. unfold with_codes. cbn in *. by rewrite insert_id.
  - unfold insertScope in H. rewrite Hrow in H. apply insertRow_ok in H as (_ & Hfresh & _ & ->). bool_prop.
    eapply yields_mono; [apply (IH _ (CodeRow.with_scope (Scope.value scope) row)); cbn; by rewrite lookup_alter_eq, Hrow|].
    cbn. intros _ t2 (-> & Hnd & Hall). split_and!.
    + unfold with_codes. cbn. f_equal. by rewrite <- (insert_id _ _ _ Hrow) at 1; rewrite alter_insert_eq, insert_insert_eq.
    + constructor; [|done]. intros (other & E & Hin)%list_elem_of_fmap. apply (Hall _ Hin). set_solver.
    + intros other [->|Hin]%elem_of_cons; [done|]. specialize (Hall _ Hin). set_solver.
Qed.

Lemma code_add_effect c s : let t := db_tables s in let t' := db_tables (add c s).2 in
  (is_ok (add c s).1 = true /\ codes t !! AuthorizationCode.digest c = None /\
   NoDup (Scope.value <$> AuthorizationCode.scopes c) /\
   t' = with_codes <[AuthorizationCode.digest c := stored_code c]> t) \/
  (is_ok (add c s).1 = false /\ t' = t).
Proof.
  cbn zeta. unfold add.
  match goal with |- context [transaction ?body s] =>
    destruct (transaction_effect body s (fun _ t' => codes (db_tables s) !! AuthorizationCode.digest c = None /\
      NoDup (Scope.value <$> AuthorizationCode.scopes c) /\
      t' = with_codes <[AuthorizationCode.digest c := stored_code c]> (db_tables s))) as [(b & -> & ?)|?] end; [|by left|by right].
  reason. apply insertRow_ok in H as (_ & Hfresh & _ & ->). bool_prop.
  eapply yields_mono; [apply code_scopes_yield, lookup_insert_eq|]. cbn. intros _ t2 (-> & Hnd & _).
  split_and!; [done|done|]. unfold with_codes. cbn. f_equal. rewrite insert_insert_eq. f_equal.
  rewrite add_scopes_row. cbn. unfold stored_code. cbn. f_equal. set_solver.
Qed.

(** A redemption that commits: the code is gone, and was handed out only when
    it was in time and everything matched. *)
Lemma redemption_yields d now c r p t :
  yields (redemption d now c r p : prog state Error (option AuthorizationCode.t)) t (fun answer t' =>
    t' = with_codes (delete d) t /\ exists row, codes t !! d = Some row /\
    match answer with
    | None => CodeRow.expires_at row <= now
    | Some code => row_binds row code /\ AuthorizationCode.digest code = d /\ now < AuthorizationCode.expiresAt code /\
        id_value (AuthorizationCode.clientId code) = c /\ AuthorizationCode.redirectUri code = r /\
        PkceChallenge.value (AuthorizationCode.codeChallenge code) = p
    end).
Proof.
  unfold redemption. reason.
  all: match goal with H : AuthorizationCode.restore _ _ _ _ _ _ _ _ _ _ _ _ _ _ = Ok _ |- _ =>
    apply restore_code_ok in H as -> end.
  all: match goal with H : PkceChallenge.create _ = Ok _ |- _ => apply challenge_ok in H end.
  all: match goal with H : deleteCode _ _ = _ |- _ => injection H as _ <- end; split; [done|]; eexists; split; [done|].
  - by apply Z.leb_le.
  - unfold AuthorizationCode.expiredAt in *. bool_prop. done.
Qed.

Lemma consumeBound_effect d now c r p s : let t := db_tables s in let t' := db_tables (consumeBound d now c r p s).2 in
  match (consumeBound d now c r p s).1 with
  | Ok code => t' = with_codes (delete d) t /\ exists row, codes t !! d = Some row /\
      row_binds row code /\ AuthorizationCode.digest code = d /\ now < AuthorizationCode.expiresAt code /\
      id_value (AuthorizationCode.clientId code) = c /\ AuthorizationCode.redirectUri code = r /\
      PkceChallenge.value (AuthorizationCode.codeChallenge code) = p
  | _ => t' = t \/ t' = with_codes (delete d) t /\ exists row, codes t !! d = Some row /\ CodeRow.expires_at row <= now
  end.
Proof.
  cbn zeta. unfold consumeBound.
  destruct (transaction_effect _ s _ (redemption_yields d now c r p (db_tables s))) as [([code|] & Hok & H)|[Hno H]].
  - unfold mbind, prog_bind. destruct (transaction _ s) as [res s1]. cbn in *. subst res. cbn.
    destruct H as (-> & row & Hrow & H). split; [done|]. by exists row.
  - unfold mbind, prog_bind. destruct (transaction _ s) as [res s1]. cbn in *. subst res. cbn. by right.
  - unfold mbind, prog_bind. destruct (transaction _ s) as [res s1]. cbn in *. destruct res; [done|by left..].
Qed.
End effects.

(** ** Single use *)

Section single_use.
Context `{Db : Database} `{Col : Collation} {W : Type}.
Abbreviation state := (database CodeTables.t W).
Implicit Types (s : state).

Definition code_table_step (o : code_op) s : state :=
  match o with
  | AddCode code => (acs_add code s).2
  | ConsumeBound d now c r p => (acs_consumeBound d now c r p s).2
  end.

Definition table_stores_code (d : CodeDigest) (o : code_op) s : bool :=
  match o with
  | AddCode code => bool_decide (AuthorizationCode.digest code = d) && is_ok (acs_add code s).1
  | _ => false
  end.

Definition table_hands_out_code (d : CodeDigest) (o : code_op) s : bool :=
  match o with
  | ConsumeBound d' now c r p => bool_decide (d' = d) && is_ok (acs_consumeBound d' now c r p s).1
  | _ => false
  end.

Definition stored_codes (d : CodeDigest) s : nat := if codes (db_tables s) !! d then 1 else 0.

Lemma code_table_count d o s :
  ((if table_hands_out_code d o s then 1 else 0) + stored_codes d (code_table_step o s)
   <= (if table_stores_code d o s then 1 else 0) + stored_codes d s)%nat.
Proof.
  unfold stored_codes. destruct o as [c|d' now c r p]; cbn -[add consumeBound].
  - destruct (code_add_effect c s) as [(-> & Hnone & _ & ->)|[-> ->]]; [|by rewrite andb_false_r].
    cbn. rewrite lookup_insert, andb_true_r. case_decide as E; case_bool_decide; try done; try lia.
  - pose proof (consumeBound_effect d' now c r p s) as H. cbn zeta in H.
    destruct (consumeBound d' now c r p s).1 as [code|e|]; cbn [is_ok].
    + destruct H as (-> & row & Hrow & _). cbn. rewrite lookup_delete, andb_true_r.
      case_bool_decide; case_decide; subst; try done. by rewrite Hrow.
    + rewrite andb_false_r. destruct H as [->|(-> & _)]; [done|]. cbn. rewrite lookup_delete. case_decide; [lia|done].
    + rewrite andb_false_r. destruct H as [->|(-> & _)]; [done|]. cbn. rewrite lookup_delete. case_decide; [lia|done].
Qed.

End single_use.
