(* ===== verification/DeviceTable.v ===== *)
(** * openproof.storage.postgres: the table of device authorizations

    Models the device grants of [PostgresIdentityProviderStore] of
    [src/src/storage/postgres/postgres.cpp] with the tables
    [oauth_device_authorizations] and [oauth_device_authorization_scopes] of
    [src/migrations/0007_oauth_device_flow.sql]: a store of the device flow in
    which each operation but the search is one transaction on a locked row. *)
From S2P Require Import Prelude Foundation Database Encoding Security Provider IdentityCore Session SessionService Client Device Authorization SessionTable CodeTable.

Module DeviceRow.
(** A row without its key, with its scopes; [factors] and [phishing_resistant]
    are one strength. *)
Record t := mk {
  user_code : DeviceUserCodeDigest;
  client_id : ClientId;
  resource : option string;
  status : DeviceAuthorizationStatus.t;
  issued_at : Instant;
  expires_at : Instant;
  poll_interval : Duration;
  identity_id : option IdentityId;
  provider : option ProviderId;
  assurance : option AssuranceLevel;
  strength : option AuthenticationStrength.t;
  authenticated_at : option Instant;
  last_poll_at : option Instant;
  scopes : gset string;
}.

(** The columns of an insertion: pending, without claims or polls. *)
Definition of_authorization (a : DeviceAuthorization.t) : t :=
  mk (DeviceAuthorization.userCode a) (DeviceAuthorization.clientId a)
     (PostgresSessionRepository.nullif (DeviceAuthorization.resource a)) DeviceAuthorizationStatus.Pending
     (DeviceAuthorization.issuedAt a) (DeviceAuthorization.expiresAt a) (DeviceAuthorization.pollInterval a)
     None None None None None None ∅.

Definition with_scope (scope : string) (row : t) : t :=
  mk (user_code row) (client_id row) (resource row) (status row) (issued_at row) (expires_at row) (poll_interval row)
     (identity_id row) (provider row) (assurance row) (strength row) (authenticated_at row) (last_poll_at row)
     ({[scope]} ∪ scopes row).

Definition with_poll (status' : DeviceAuthorizationStatus.t) (interval : Duration) (polled : option Instant) (row : t) : t :=
  mk (user_code row) (client_id row) (resource row) status' (issued_at row) (expires_at row) interval
     (identity_id row) (provider row) (assurance row) (strength row) (authenticated_at row) polled (scopes row).

(** [SET status=1, identity_id=$2, ...]. *)
Definition approve (session : Session.t) (row : t) : t :=
  mk (user_code row) (client_id row) (resource row) DeviceAuthorizationStatus.Approved (issued_at row) (expires_at row)
     (poll_interval row) (Some (Session.identity session)) (Some (Session.provider session))
     (Some (Session.assurance session)) (Some (Session.strength session)) (Some (Session.authenticatedAt session))
     (last_poll_at row) (scopes row).
End DeviceRow.

Module DeviceTables.
(** The rows, and the keys of the two tables they refer to. *)
Record t := mk { clients : gset ClientId; identities : gset IdentityId; devices : gmap DeviceCodeDigest DeviceRow.t }.

Definition with_devices (f : gmap DeviceCodeDigest DeviceRow.t -> gmap DeviceCodeDigest DeviceRow.t) (r : t) : t :=
  mk (clients r) (identities r) (f (devices r)).
End DeviceTables.

Module PostgresDevices.
Import DeviceTables(clients, identities, devices, with_devices).
Import DeviceRow(user_code, status, poll_interval, expires_at).
Import DeviceAuthorizationStatus(Pending, Approved, Denied, Consumed).
Implicit Types (t : DeviceTables.t) (row : DeviceRow.t).
Abbreviation statement B := (prog DeviceTables.t Error B).

(** *** Statements *)

Definition claims_present row : bool :=
  bool_decide (is_Some (DeviceRow.identity_id row)) && bool_decide (is_Some (DeviceRow.provider row))
  && bool_decide (is_Some (DeviceRow.assurance row)) && bool_decide (is_Some (DeviceRow.strength row))
  && bool_decide (is_Some (DeviceRow.authenticated_at row)).

Definition claims_absent row : bool :=
  bool_decide (DeviceRow.identity_id row = None) && bool_decide (DeviceRow.provider row = None)
  && bool_decide (DeviceRow.assurance row = None) && bool_decide (DeviceRow.strength row = None)
  && bool_decide (DeviceRow.authenticated_at row = None).

Definition row_checks row : bool :=
  (0 <? poll_interval row) && (DeviceRow.issued_at row <? expires_at row)
  && match status row with Pending | Denied => claims_absent row | Approved | Consumed => claims_present row end.

Definition user_code_taken (code : DeviceUserCodeDigest) t : bool :=
  existsb (fun other : DeviceCodeDigest * DeviceRow.t => bool_decide (user_code other.2 = code)) (map_to_list (devices t)).

Definition insertDevice (operation : string) (device : DeviceCodeDigest) row : statement unit := fun t =>
  insertRow operation (row_checks row)
    (bool_decide (devices t !! device = None) && negb (user_code_taken (user_code row) t))
    (bool_decide (DeviceRow.client_id row ∈ clients t)) (with_devices <[device := row]>) t.

Definition insertScope (operation : string) (device : DeviceCodeDigest) (scope : string) : statement unit := fun t =>
  insertRow operation true
    (match devices t !! device with None => true | Some row => bool_decide (scope ∉ DeviceRow.scopes row) end)
    (bool_decide (is_Some (devices t !! device))) (with_devices (alter (DeviceRow.with_scope scope) device)) t.

(** [UPDATE ... SET ... WHERE ...]: the rows it changes pass the checks, and
    refer to identities that there are. *)
Definition changed (matches : DeviceCodeDigest -> DeviceRow.t -> bool) (change : DeviceRow.t -> DeviceRow.t) t
    : gmap DeviceCodeDigest DeviceRow.t :=
  map_imap (fun device row => if matches device row then Some (change row) else None) (devices t).

Definition identity_known t row : bool :=
  match DeviceRow.identity_id row with None => true | Some identity => bool_decide (identity ∈ identities t) end.

Definition update (operation : string) (matches : DeviceCodeDigest -> DeviceRow.t -> bool)
    (change : DeviceRow.t -> DeviceRow.t) : statement unit := fun t =>
  let rows := changed matches change t in
  insertRow operation (forallb row_checks (map_to_list rows).*2) true (forallb (identity_known t) (map_to_list rows).*2)
    (with_devices (fun all => rows ∪ all)) t.

Definition pending_of (userCode : DeviceUserCodeDigest) (_ : DeviceCodeDigest) row : bool :=
  bool_decide (user_code row = userCode) && bool_decide (status row = Pending).
Definition device_in (device : DeviceCodeDigest) (allowed : DeviceAuthorizationStatus.t -> bool)
    (key : DeviceCodeDigest) row : bool :=
  bool_decide (key = device) && allowed (status row).

(** [WHERE user_code_digest=...]. *)
Definition rows_of_user (userCode : DeviceUserCodeDigest) t : list (DeviceCodeDigest * DeviceRow.t) :=
  filter (fun entry => user_code entry.2 = userCode) (map_to_list (devices t)).

Section store.
Context `{Db : Database} `{Col : Collation} {W : Type}.
Abbreviation state := (database DeviceTables.t W).
Abbreviation session B := (prog state Error B).

Fixpoint insertScopes (device : DeviceCodeDigest) (scopes : list Scope.t) : session unit :=
  match scopes with
  | [] => mret tt
  | scope :: scopes =>
      _ ← execute "insert device authorization scope"
            (insertScope "insert device authorization scope" device (Scope.value scope));
      insertScopes device scopes
  end.

Definition add (authorization : DeviceAuthorization.t) : session unit :=
  transaction (
    _ ← execute "insert device authorization"
          (insertDevice "insert device authorization" (DeviceAuthorization.deviceCode authorization)
             (DeviceRow.of_authorization authorization));
    insertScopes (DeviceAuthorization.deviceCode authorization) (DeviceAuthorization.scopes authorization)).

(** [deviceAuthorizationFromRow]: the numbers are in the ranges it checks. *)
Definition deviceAuthorizationFromRow (device : DeviceCodeDigest) row : session DeviceAuthorization.t :=
  scopeRows ← select "load device authorization scopes" (fun t =>
    order_by (from_option (fun row => elements (DeviceRow.scopes row)) [] (devices t !! device)));
  scopes ← lift (PostgresCodes.parseScopes scopeRows);
  let restore identity provider assurance strength authenticatedAt :=
    lift (DeviceAuthorization.restore device (user_code row) (DeviceRow.client_id row) scopes (DeviceRow.resource row)
            (DeviceRow.issued_at row) (expires_at row) (poll_interval row) (status row) identity provider assurance
            strength authenticatedAt (DeviceRow.last_poll_at row)) in
  match DeviceRow.identity_id row with
  | None => restore None None None None None
  | Some identity =>
      match DeviceRow.provider row, DeviceRow.assurance row, DeviceRow.strength row, DeviceRow.authenticated_at row with
      | Some provider, Some assurance, Some strength, Some authenticatedAt =>
          restore (Some identity) (Some provider) (Some assurance) (Some strength) (Some authenticatedAt)
      | _, _, _, _ => throw (Error_ofMessage Internal "PostgreSQL returned incomplete device authorization claims.")
      end
  end.

Definition notFound : Error := Error_ofCode NotFound.

Definition findByUserCode (userCode : DeviceUserCodeDigest) (now : Instant) : session DeviceAuthorization.t :=
  _ ← lease;
  rows ← select "find device user code" (rows_of_user userCode);
  match rows with
  | [(device, row)] =>
      authorization ← deviceAuthorizationFromRow device row;
      if DeviceAuthorization.expiredAt authorization now
         || negb (bool_decide (DeviceAuthorization.status authorization = Pending)) then throw notFound
      else mret authorization
  | _ => throw notFound
  end.

Definition approve (userCode : DeviceUserCodeDigest) (authenticated : AuthenticatedSession.t) (now : Instant)
    : session DeviceAuthorization.t :=
  transaction (
    rows ← select "lock device authorization for approval" (rows_of_user userCode);
    match rows with
    | [(device, row)] =>
        authorization ← deviceAuthorizationFromRow device row;
        authorization ← lift (mutate (DeviceAuthorization.approve authenticated now) authorization);
        _ ← execute "approve device authorization"
              (update "approve device authorization" (pending_of userCode)
                 (DeviceRow.approve (AuthenticatedSession.session authenticated)));
        mret authorization
    | _ => throw notFound
    end).

Definition deny (userCode : DeviceUserCodeDigest) (now : Instant) : session unit :=
  transaction (
    rows ← select "lock device authorization for denial" (rows_of_user userCode);
    match rows with
    | [(device, row)] =>
        authorization ← deviceAuthorizationFromRow device row;
        _ ← lift (mutate (DeviceAuthorization.deny now) authorization);
        execute "deny device authorization"
          (update "deny device authorization" (pending_of userCode)
             (fun row => DeviceRow.with_poll Denied (poll_interval row) (DeviceRow.last_poll_at row) row))
    | _ => throw notFound
    end).

Definition poll (device : DeviceCodeDigest) (expectedClient : ClientId) (now : Instant) : session DevicePollResult.t :=
  transaction (
    row ← select "lock device authorization for poll" (fun t => devices t !! device);
    match row with
    | None => throw (authenticationFailure "Unknown device code.")
    | Some row =>
        value ← deviceAuthorizationFromRow device row;
        let interval := DeviceAuthorization.pollInterval value in
        if negb (bool_decide (DeviceAuthorization.clientId value = expectedClient)) then
          throw (authenticationFailure "The device code is not bound to this client.")
        else if DeviceAuthorization.expiredAt value now then
          mret (DevicePollResult.mk DevicePollDisposition.Expired None interval)
        else if bool_decide (DeviceAuthorization.status value = Denied) then
          mret (DevicePollResult.mk DevicePollDisposition.Denied None interval)
        else if bool_decide (DeviceAuthorization.status value = Consumed) then
          throw (authenticationFailure "The device code has already been consumed.")
        else if present_and (fun last => now <? last + interval) (DeviceAuthorization.lastPollAt value) then
          value ← lift (mutate (DeviceAuthorization.slowDown now) value);
          let interval := DeviceAuthorization.pollInterval value in
          _ ← execute "slow device authorization polling"
                (update "slow device authorization polling" (device_in device (fun _ => true))
                   (fun row => DeviceRow.with_poll (status row) interval (Some now) row));
          mret (DevicePollResult.mk DevicePollDisposition.SlowDown None interval)
        else if bool_decide (DeviceAuthorization.status value = Approved) then
          value ← lift (mutate (DeviceAuthorization.consume now) value);
          _ ← execute "consume device authorization"
                (update "consume device authorization" (device_in device (fun s => bool_decide (s = Approved)))
                   (fun row => DeviceRow.with_poll Consumed (poll_interval row) (Some now) row));
          mret (DevicePollResult.mk DevicePollDisposition.Approved (Some value) (DeviceAuthorization.pollInterval value))
        else
          _ ← lift (mutate (DeviceAuthorization.markPolled now) value);
          _ ← execute "record device authorization poll"
                (update "record device authorization poll" (device_in device (fun s => bool_decide (s = Pending)))
                   (fun row => DeviceRow.with_poll (status row) (poll_interval row) (Some now) row));
          mret (DevicePollResult.mk DevicePollDisposition.Pending None interval)
    end).

#[global] Instance store : DeviceAuthorizationStore state := {
  das_add := add;
  das_findByUserCode s userCode now := (findByUserCode userCode now s).1;
  das_approve := approve;
  das_deny := deny;
  das_poll := poll;
}.
End store.
End PostgresDevices.

(** ** What an operation does to the table *)

Import DeviceTables(clients, identities, devices, with_devices).
Import DeviceRow(user_code, status, poll_interval, expires_at).
Import DeviceAuthorizationStatus(Pending, Approved, Denied, Consumed).
Import PostgresDevices.
Implicit Types (t : DeviceTables.t) (row : DeviceRow.t).

Lemma rows_of_user_one u t k row :
  rows_of_user u t = [(k, row)] ->
  devices t !! k = Some row /\ user_code row = u /\
  forall k' row', devices t !! k' = Some row' -> user_code row' = u -> k' = k.
Proof.
  intros E. assert (forall k' row', (k', row') ∈ rows_of_user u t <-> user_code row' = u /\ devices t !! k' = Some row') as Hin.
  { intros k' row'. unfold rows_of_user. by rewrite list_elem_of_filter, elem_of_map_to_list. }
  rewrite E in Hin. destruct (proj1 (Hin k row)) as [Hu Hk]; [by left|]. split_and!; [done..|].
  intros k' row' Hk' Hu'. assert ((k', row') ∈ [(k, row)]) as H%list_elem_of_singleton by by apply Hin. by simplify_eq.
Qed.

(** A row that alone matches is replaced. *)
Lemma update_one operation matches change t k row b t' :
  devices t !! k = Some row -> matches k row = true ->
  (forall k' row', devices t !! k' = Some row' -> k' <> k -> matches k' row' = false) ->
  update operation matches change t = (Ok b, t') -> t' = with_devices <[k := change row]> t.
Proof.
  intros Hk Hm Hother (_ & _ & _ & ->)%insertRow_ok. unfold with_devices. f_equal. apply map_eq. intros k'.
  rewrite lookup_union. unfold changed. rewrite map_lookup_imap, lookup_insert. case_decide as E.
  - subst k'. rewrite Hk. cbn. by rewrite Hm.
  - destruct (devices t !! k') as [row'|] eqn:Hk'; cbn; [|done]. by rewrite (Hother _ _ Hk') by done.
Qed.

(** No row matches. *)
Lemma update_none operation matches change t b t' :
  (forall k row, devices t !! k = Some row -> matches k row = false) ->
  update operation matches change t = (Ok b, t') -> t' = t.
Proof.
  intros Hno (_ & _ & _ & ->)%insertRow_ok. destruct t as [cs ids ds]. unfold with_devices. cbn. f_equal.
  apply map_eq. intros k. rewrite lookup_union. unfold changed. rewrite map_lookup_imap. cbn.
  destruct (ds !! k) as [row|] eqn:Hk; cbn; [|done]. by rewrite (Hno k row).
Qed.

(** The authorization that a row is read as. *)
Record read_as (k : DeviceCodeDigest) row (a : DeviceAuthorization.t) : Prop := {
  read_device : DeviceAuthorization.deviceCode a = k;
  read_user : DeviceAuthorization.userCode a = user_code row;
  read_client : DeviceAuthorization.clientId a = DeviceRow.client_id row;
  read_expires : DeviceAuthorization.expiresAt a = expires_at row;
  read_interval : DeviceAuthorization.pollInterval a = poll_interval row;
  read_status : DeviceAuthorization.status a = status row;
  read_polled : DeviceAuthorization.lastPollAt a = DeviceRow.last_poll_at row;
  read_claims : is_Some (DeviceAuthorization.identity a) ->
    DeviceAuthorization.identity a = DeviceRow.identity_id row /\
    DeviceAuthorization.provider a = DeviceRow.provider row /\
    DeviceAuthorization.assurance a = DeviceRow.assurance row /\
    DeviceAuthorization.strength a = DeviceRow.strength row /\
    DeviceAuthorization.authenticatedAt a = DeviceRow.authenticated_at row;
  read_approved : status row = Approved -> is_Some (DeviceAuthorization.identity a);
}.

Section effects.
Context `{Db : Database} `{Col : Collation} {W : Type}.
Abbreviation state := (database DeviceTables.t W).
Implicit Types (s : state).

Lemma fromRow_yields k row t :
  yields (deviceAuthorizationFromRow k row : prog state Error DeviceAuthorization.t) t
    (fun a t' => t' = t /\ read_as k row a).
Proof.
  unfold deviceAuthorizationFromRow. reason.
  all: match goal with H : DeviceAuthorization.restore _ _ _ _ _ _ _ _ _ _ _ _ _ _ _ = Ok _ |- _ =>
    unfold DeviceAuthorization.restore in H; destruct (normalizeScopes _); [|done..];
    let Hc := fresh "Hc" in branch H Hc; [done|]; injection H as <- end; split; [done|].
  all: bool_prop; split; cbn; try done; try (by eauto); intros Hst.
  all: try (by destruct Hst).
  all: rewrite Hst in *; cbn in *; done.
Qed.

Lemma device_scopes_yield k scopes row t :
  devices t !! k = Some row ->
  yields (insertScopes k scopes : prog state Error unit) t (fun _ t' => exists texts,
    t' = with_devices <[k := DeviceRow.mk (user_code row) (DeviceRow.client_id row) (DeviceRow.resource row) (status row)
      (DeviceRow.issued_at row) (expires_at row) (poll_interval row) (DeviceRow.identity_id row) (DeviceRow.provider row)
      (DeviceRow.assurance row) (DeviceRow.strength row) (DeviceRow.authenticated_at row) (DeviceRow.last_poll_at row)
      texts]> t).
Proof.
  revert t row. induction scopes as [|scope scopes IH]; intros t row Hrow; cbn [insertScopes]; reason.
  - exists (DeviceRow.scopes row). destruct t as [? ? ds]. unfold with_devices. cbn in *. rewrite insert_id; [done|].
    by destruct row.
  - apply insertRow_ok in H as (_ & _ & _ & ->).
    eapply yields_mono; [apply (IH _ (DeviceRow.with_scope (Scope.value scope) row)); cbn; by rewrite lookup_alter_eq, Hrow|].
    cbn. intros _ t2 (texts & ->). exists texts. unfold with_devices. cbn. f_equal.
    by rewrite <- (insert_id _ _ _ Hrow) at 1; rewrite alter_insert_eq, insert_insert_eq.
Qed.

Definition issued_row (a : DeviceAuthorization.t) row : Prop :=
  status row = Pending /\ user_code row = DeviceAuthorization.userCode a /\
  DeviceRow.client_id row = DeviceAuthorization.clientId a /\ expires_at row = DeviceAuthorization.expiresAt a.

Lemma device_add_effect a s : let t := db_tables s in let t' := db_tables (add a s).2 in
  (is_ok (add a s).1 = true /\ devices t !! DeviceAuthorization.deviceCode a = None /\ exists row, issued_row a row /\
   t' = with_devices <[DeviceAuthorization.deviceCode a := row]> t) \/
  (is_ok (add a s).1 = false /\ t' = t).
Proof.
  cbn zeta. unfold add.
  match goal with |- context [transaction ?body s] =>
    destruct (transaction_effect body s (fun _ t' => devices (db_tables s) !! DeviceAuthorization.deviceCode a = None /\
      exists row, issued_row a row /\ t' = with_devices <[DeviceAuthorization.deviceCode a := row]> (db_tables s)))
      as [(b & -> & ?)|?] end; [|by left|by right].
  reason. apply insertRow_ok in H as (_ & Hfresh & _ & ->). bool_prop.
  eapply yields_mono; [apply device_scopes_yield, lookup_insert_eq|]. cbn. intros _ t2 (texts & ->).
  split; [done|]. eexists. split; [|unfold with_devices; cbn; by rewrite insert_insert_eq]. done.
Qed.

Lemma pending_alone u t k row k' row' : rows_of_user u t = [(k, row)] ->
  devices t !! k' = Some row' -> k' <> k -> pending_of u k' row' = false.
Proof.
  intros (_ & _ & Hone)%rows_of_user_one Hk' Hne. unfold pending_of. rewrite bool_decide_eq_false_2; [done|].
  intros Hu. by destruct Hne; apply (Hone _ row').
Qed.

(** What is read from a row in time and pending. *)
Lemma approve_mutated authenticated now a a' : mutate (DeviceAuthorization.approve authenticated now) a = Ok a' ->
  DeviceAuthorization.status a = Pending /\ now < DeviceAuthorization.expiresAt a.
Proof.
  intros H%mutate_ok. unfold DeviceAuthorization.approve in H. branch H G; [done|]. bool_prop. split; [done|].
  match goal with Hx : DeviceAuthorization.expiredAt _ _ = false |- _ => by apply Z.leb_gt in Hx end.
Qed.

Lemma deny_mutated now a a' : mutate (DeviceAuthorization.deny now) a = Ok a' -> DeviceAuthorization.status a = Pending.
Proof. intros H%mutate_ok. unfold DeviceAuthorization.deny in H. branch H G; [done|]. by bool_prop. Qed.

Lemma approve_effect u authenticated now s :
  let t := db_tables s in let t' := db_tables (approve u authenticated now s).2 in
  t' = t \/ exists k row, devices t !! k = Some row /\ user_code row = u /\ status row = Pending /\ now < expires_at row /\
    t' = with_devices <[k := DeviceRow.approve (AuthenticatedSession.session authenticated) row]> t.
Proof.
  cbn zeta. unfold approve.
  match goal with |- context [transaction ?body s] =>
    destruct (transaction_effect body s (fun _ t' => exists k row, devices (db_tables s) !! k = Some row /\
      user_code row = u /\ status row = Pending /\ now < expires_at row /\
      t' = with_devices <[k := DeviceRow.approve (AuthenticatedSession.session authenticated) row]> (db_tables s)))
      as [(b & _ & ?)|[_ ?]] end; [|by right|by left].
  reason. eapply yields_mono; [apply fromRow_yields|]. cbn. intros a t2 [-> Hread]. reason. subst.
  match goal with Hm : mutate _ _ = _ |- _ => apply approve_mutated in Hm as [Hst Hexp] end.
  rewrite (read_status _ _ _ Hread) in Hst. rewrite (read_expires _ _ _ Hread) in Hexp.
  match goal with Hr : rows_of_user _ _ = _ |- _ => rename Hr into Hone end.
  pose proof (rows_of_user_one _ _ _ _ Hone) as (Hk & Hu & _). eexists _, _. split_and!; try done.
  match goal with Hup : update _ _ _ _ = _ |- _ => refine (update_one _ _ _ _ _ _ _ _ Hk _ _ Hup) end.
  - unfold pending_of. by rewrite !bool_decide_eq_true_2.
  - intros k' row' Hk' Hne. by apply (pending_alone _ _ _ _ _ _ Hone).
Qed.

Lemma deny_effect u now s : let t := db_tables s in let t' := db_tables (deny u now s).2 in
  t' = t \/ exists k row, devices t !! k = Some row /\ status row = Pending /\
    t' = with_devices <[k := DeviceRow.with_poll Denied (poll_interval row) (DeviceRow.last_poll_at row) row]> t.
Proof.
  cbn zeta. unfold deny.
  match goal with |- context [transaction ?body s] =>
    destruct (transaction_effect body s (fun _ t' => exists k row, devices (db_tables s) !! k = Some row /\
      status row = Pending /\
      t' = with_devices <[k := DeviceRow.with_poll Denied (poll_interval row) (DeviceRow.last_poll_at row) row]> (db_tables s)))
      as [(b & _ & ?)|[_ ?]] end; [|by right|by left].
  reason. eapply yields_mono; [apply fromRow_yields|]. cbn. intros a t2 [-> Hread]. reason. subst.
  match goal with Hm : mutate _ _ = _ |- _ => apply deny_mutated in Hm as Hst end.
  rewrite (read_status _ _ _ Hread) in Hst.
  match goal with Hr : rows_of_user _ _ = _ |- _ => rename Hr into Hone end.
  pose proof (rows_of_user_one _ _ _ _ Hone) as (Hk & Hu & _). eexists _, _. split_and!; try done.
  match goal with Hup : update _ _ _ _ = _ |- _ => refine (update_one _ _ _ _ _ _ _ _ Hk _ _ Hup) end.
  - unfold pending_of. by rewrite !bool_decide_eq_true_2.
  - intros k' row' Hk' Hne. by apply (pending_alone _ _ _ _ _ _ Hone).
Qed.

(** The row of a poll is the only one its updates match. *)
Lemma update_device operation d allowed change t row b t' :
  devices t !! d = Some row -> allowed (status row) = true ->
  update operation (device_in d allowed) change t = (Ok b, t') -> t' = with_devices <[d := change row]> t.
Proof.
  intros Hd Hall Hup. refine (update_one _ _ _ _ _ _ _ _ Hd _ _ Hup).
  - unfold device_in. by rewrite bool_decide_eq_true_2, Hall.
  - intros k' row' _ Hne. unfold device_in. by rewrite bool_decide_eq_false_2.
Qed.

(** What a poll that is handed an authorization found and left. *)
Definition handed (d : DeviceCodeDigest) (c : ClientId) (now : Instant) t (a : DeviceAuthorization.t) t' : Prop :=
  exists row old, devices t !! d = Some row /\ read_as d row old /\ status row = Approved /\ now < expires_at row /\
    DeviceRow.client_id row = c /\
    a = DeviceAuthorization.set old (DeviceAuthorization.pollInterval old) Consumed (Some now) /\
    t' = with_devices <[d := DeviceRow.with_poll Consumed (poll_interval row) (Some now) row]> t.

Definition poll_leaves (d : DeviceCodeDigest) (c : ClientId) (now : Instant) t (res : DevicePollResult.t) t' : Prop :=
  match DevicePollResult.authorization res with
  | Some a => handed d c now t a t' /\ DevicePollResult.disposition res = DevicePollDisposition.Approved
  | None => t' = t \/ exists row interval polled, devices t !! d = Some row /\
      t' = with_devices <[d := DeviceRow.with_poll (status row) interval polled row]> t
  end.

Lemma poll_effect d c now s : let t := db_tables s in let t' := db_tables (poll d c now s).2 in
  match (poll d c now s).1 with Ok res => poll_leaves d c now t res t' | _ => t' = t end.
Proof.
  cbn zeta. unfold poll.
  match goal with |- context [transaction ?body s] =>
    destruct (transaction_effect body s (poll_leaves d c now (db_tables s))) as [(b & -> & ?)|[Hno E]] end; [|done|].
  2: { by destruct (transaction _ s).1. }
  reason. eapply yields_mono; [apply fromRow_yields|]. cbn. intros a t2 [-> Hread]. reason; bool_prop.
  - by left.
  - by left.
  - match goal with Hup : update _ _ _ _ = _ |- _ => eapply update_device in Hup as ->; [|done..] end.
    right. by eexists _, _, _.
  - match goal with Hup : update _ _ _ _ = _ |- _ => eapply update_device in Hup as ->; [|done|] end;
      rewrite (read_status _ _ _ Hread) in *; [|by rewrite bool_decide_eq_true_2].
    match goal with Hm : mutate _ _ = _ |- _ => apply mutate_ok in Hm; unfold DeviceAuthorization.consume in Hm;
      let Hg := fresh in branch Hm Hg; [done|]; injection Hm as <- end.
    split; [|done]. eexists _, a. rewrite <- (read_client _ _ _ Hread), <- (read_expires _ _ _ Hread).
    split_and!; try done. by apply Z.leb_gt.
  - match goal with Hup : update _ _ _ _ = _ |- _ => eapply update_device in Hup as ->; [|done|] end.
    + right. by eexists _, _, _.
    + rewrite (read_status _ _ _ Hread) in *. apply bool_decide_eq_true_2. by destruct (status _).
Qed.
End effects.

(** ** Approved, and once *)

Section promises.
Context `{Db : Database} `{Col : Collation} {W : Type}.
Abbreviation state := (database DeviceTables.t W).
Implicit Types (s : state).

Definition device_table_step (o : device_op) s : state :=
  match o with
  | Issue d u c sc res at_ life int =>
      match DeviceAuthorization.create d u c sc res at_ life int with Ok a => (das_add a s).2 | _ => s end
  | Approve u authenticated now => (das_approve u authenticated now s).2
  | Deny u now => (das_deny u now s).2
  | Poll d c now => (das_poll d c now s).2
  end.

Definition device_table_run (ops : list device_op) s : state := foldl (fun s o => device_table_step o s) s ops.

Definition table_issues (d : DeviceCodeDigest) (o : device_op) s : bool :=
  match o with
  | Issue d' u c sc res at_ life int =>
      match DeviceAuthorization.create d' u c sc res at_ life int with
      | Ok a => bool_decide (d' = d) && is_ok (das_add a s).1
      | _ => false
      end
  | _ => false
  end.

Definition table_hands_out (d : DeviceCodeDigest) (o : device_op) s : bool :=
  match o with
  | Poll d' c now =>
      bool_decide (d' = d) &&
      match (das_poll d' c now s).1 with
      | Ok res => bool_decide (is_Some (DevicePollResult.authorization res))
      | _ => false
      end
  | _ => false
  end.

Definition open_row (d : DeviceCodeDigest) t : nat :=
  match devices t !! d with Some row => if bool_decide (status row = Consumed) then 0 else 1 | None => 0 end.

Lemma open_row_put d k row row' t : devices t !! k = Some row -> (status row = Consumed -> status row' = Consumed) ->
  (open_row d (with_devices <[k := row']> t) <= open_row d t)%nat.
Proof.
  intros Hk Hst. unfold open_row. cbn. rewrite lookup_insert. case_decide as E; [|done]. subst k. rewrite Hk.
  repeat case_bool_decide; naive_solver lia.
Qed.

Lemma device_table_count d o s :
  ((if table_hands_out d o s then 1 else 0) + open_row d (db_tables (device_table_step o s))
   <= (if table_issues d o s then 1 else 0) + open_row d (db_tables s))%nat.
Proof.
  destruct o as [d' u c sc res at_ life int|u authenticated now|u now|d' c now]; cbn [table_hands_out table_issues device_table_step].
  - destruct (DeviceAuthorization.create d' u c sc res at_ life int) as [a|e|] eqn:Hcr; [|cbn; lia..].
    apply create_pending in Hcr as (Ed & _). cbn [das_add store].
    destruct (device_add_effect a s) as [(-> & Hnone & row & (Hst & _) & ->)|[-> ->]]; [|by rewrite andb_false_r].
    rewrite andb_true_r. unfold open_row. cbn. rewrite lookup_insert, Ed. case_decide; repeat case_bool_decide; try done; try lia; congruence.
  - cbn [das_approve store]. destruct (approve_effect u authenticated now s) as [->|(k & row & Hk & _ & Hst & _ & ->)]; [done|].
    rewrite Nat.add_0_l. apply (open_row_put _ _ _ _ _ Hk). congruence.
  - cbn [das_deny store]. destruct (deny_effect u now s) as [->|(k & row & Hk & Hst & ->)]; [done|].
    rewrite Nat.add_0_l. apply (open_row_put _ _ _ _ _ Hk). congruence.
  - cbn [das_poll store]. pose proof (poll_effect d' c now s) as H. cbn zeta in H.
    destruct (poll d' c now s).1 as [res|e|]; [|rewrite H, andb_false_r; done..].
    unfold poll_leaves in H. destruct (DevicePollResult.authorization res) as [a|]; cbn.
    + destruct H as [(row & old & Hd & Hread & Hst & _ & _ & _ & ->) _]. rewrite andb_true_r.
      case_bool_decide as E; [subst d'|by apply (open_row_put _ _ _ _ _ Hd)].
      unfold open_row. cbn. by rewrite lookup_insert_eq, Hd, Hst.
    + rewrite andb_false_r. destruct H as [->|(row & interval & polled & Hd & ->)]; [done|].
      by apply (open_row_put _ _ _ _ _ Hd).
Qed.

(** A row that is approved carries a session that approved it, in time. *)
Definition row_carries row (authenticated : AuthenticatedSession.t) : Prop :=
  let session := AuthenticatedSession.session authenticated in
  DeviceRow.identity_id row = Some (Session.identity session) /\ DeviceRow.provider row = Some (Session.provider session) /\
  DeviceRow.assurance row = Some (Session.assurance session) /\ DeviceRow.strength row = Some (Session.strength session) /\
  DeviceRow.authenticated_at row = Some (Session.authenticatedAt session).

Definition row_justified (ops : list device_op) row : Prop :=
  status row = Approved \/ status row = Consumed ->
  exists authenticated now, Approve (user_code row) authenticated now ∈ ops /\ now < expires_at row /\
    row_carries row authenticated.

Definition rows_justified ops t : Prop := forall k row, devices t !! k = Some row -> row_justified ops row.

Lemma rows_justified_put ops k row t : rows_justified ops t -> row_justified ops row -> rows_justified ops (with_devices <[k := row]> t).
Proof. intros Ht Hrow k' row'. cbn. rewrite lookup_insert. case_decide; [by intros [= <-]|apply Ht]. Qed.

Lemma rows_justified_step ops o s :
  rows_justified ops (db_tables s) -> rows_justified (ops ++ [o]) (db_tables (device_table_step o s)).
Proof.
  intros Hj0. assert (rows_justified (ops ++ [o]) (db_tables s)) as Hj.
  { intros k row Hk Hst. destruct (Hj0 k row Hk Hst) as (a & now & Hin & ?). exists a, now. split; [|done].
    apply elem_of_app. by left. }
  clear Hj0. destruct o as [d u c sc res at_ life int|u authenticated now|u now|d c now]; cbn [device_table_step].
  - destruct (DeviceAuthorization.create d u c sc res at_ life int) as [a|e|]; [|done|done]. cbn [das_add store].
    destruct (device_add_effect a s) as [(_ & _ & row & (Hst & _) & ->)|[_ ->]]; [|done].
    apply rows_justified_put; [done|]. intros [?|?]; congruence.
  - cbn [das_approve store]. destruct (approve_effect u authenticated now s) as [->|(k & row & Hk & Hu & _ & Hexp & ->)]; [done|].
    apply rows_justified_put; [done|]. intros _. exists authenticated, now. cbn. rewrite Hu. split_and!; [|done|done].
    apply elem_of_app. right. by left.
  - cbn [das_deny store]. destruct (deny_effect u now s) as [->|(k & row & Hk & Hst & ->)]; [done|].
    apply rows_justified_put; [done|]. by intros [?|?].
  - cbn [das_poll store]. pose proof (poll_effect d c now s) as H. cbn zeta in H.
    destruct (poll d c now s).1 as [r|e|]; [|by rewrite H..]. unfold poll_leaves in H.
    destruct (DevicePollResult.authorization r) as [a|].
    + destruct H as [(row & old & Hd & _ & Hst & _ & _ & _ & ->) _]. apply rows_justified_put; [done|].
      intros _. apply (Hj _ _ Hd). by left.
    + destruct H as [->|(row & interval & polled & Hd & ->)]; [done|]. apply rows_justified_put; [done|]. apply (Hj _ _ Hd).
Qed.

Lemma rows_justified_run ops s : devices (db_tables s) = ∅ -> rows_justified ops (db_tables (device_table_run ops s)).
Proof.
  intros Hempty. induction ops as [|o ops IH] using rev_ind.
  - intros k row. cbn. by rewrite Hempty, lookup_empty.
  - unfold device_table_run. rewrite foldl_app. by apply rows_justified_step.
Qed.

(** C12: A device of the tables gets what its user approved, once. In every history
    that starts without device authorizations, whatever request the server
    fails, the authorizations handed out for a device code never outnumber the
    issues of that code; and a poll hands one out only to the client it was
    issued to, before it expires, when its user code was approved, in time, by
    the session whose identity, provider, assurance, strength and time of
    authentication it carries. *)
Theorem table_device_grant_was_approved d clients identities n requests (w : W) ops :
  let s0 := mkDatabase (DeviceTables.mk clients identities ∅) n requests w in
  let s := device_table_run ops s0 in
  (count_steps device_table_step (table_hands_out d) ops s0 <= count_steps device_table_step (table_issues d) ops s0)%nat /\
  forall c now res a, (das_poll d c now s).1 = Ok res -> DevicePollResult.authorization res = Some a ->
    DevicePollResult.disposition res = DevicePollDisposition.Approved /\
    DeviceAuthorization.status a = Consumed /\ DeviceAuthorization.deviceCode a = d /\
    DeviceAuthorization.clientId a = c /\ now < DeviceAuthorization.expiresAt a /\
    exists authenticated approvedAt, Approve (DeviceAuthorization.userCode a) authenticated approvedAt ∈ ops /\
      approvedAt < DeviceAuthorization.expiresAt a /\ carries a authenticated.
Proof.
  intros s0 s. split.
  - pose proof (taken_within_given device_table_step (table_hands_out d) (table_issues d) (fun s => open_row d (db_tables s))
      ops s0 (fun o s => device_table_count d o s)) as H.
    unfold open_row in H at 1. cbn [db_tables s0 devices] in H. rewrite lookup_empty in H. lia.
  - intros c now res a Hres Ha. assert (rows_justified ops (db_tables s)) as Hj by by apply rows_justified_run.
    cbn [das_poll store] in Hres. pose proof (poll_effect d c now s) as H. cbn zeta in H. rewrite Hres in H.
    unfold poll_leaves in H. rewrite Ha in H. destruct H as [(row & old & Hd & Hread & Hst & Hlt & Hcl & -> & _) Hdisp].
    destruct (Hj _ _ Hd) as (authenticated & approvedAt & Hin & Ht & Hcarry); [by left|].
    pose proof (read_claims _ _ _ Hread (read_approved _ _ _ Hread Hst)) as (E1 & E2 & E3 & E4 & E5).
    destruct Hread as [Edev Euser Ecl Eexp _ _ _ _ _]. cbn. split_and!; try done; try congruence; try lia.
    exists authenticated, approvedAt. unfold carries, row_carries in *. cbn. rewrite E1, E2, E3, E4, E5, Euser, Eexp. done.
Qed.
End promises.
