(* ===== verification/Telemetry.v ===== *)
(** * openproof.telemetry: metrics, trace contexts and spans

    Models [src/src/telemetry/telemetry.cpp]: the registry of counters and
    histograms with its ceiling on series, the text that names a series, W3C
    trace contexts, and spans that are recorded when they end. The registry and
    the sink hold their mutex for the whole of an operation, so each operation
    is one step. The shortest text of a [double] is a parameter of the
    exposition. *)
From Stdlib Require Import SpecFloat.
From S2P Require Import Prelude Foundation Json Double Encoding Security Wire Application.

Abbreviation Labels := (gmap string string).

(** ** Names and labels *)

Definition letter (symbol : ascii) : bool :=
  let byte := N_of_ascii symbol in lower_letter symbol || ((65 <=? byte)%N && (byte <=? 90)%N).
Definition metric_first (symbol : ascii) : bool :=
  letter symbol || bool_decide (symbol = "_"%char) || bool_decide (symbol = ":"%char).
Definition metric_octet (symbol : ascii) : bool := metric_first symbol || decimal_digit symbol.
Definition label_first (symbol : ascii) : bool := letter symbol || bool_decide (symbol = "_"%char).
Definition label_octet (symbol : ascii) : bool := label_first symbol || decimal_digit symbol.

Definition validMetricName (name : string) : bool :=
  match name with "" => false | String first rest => metric_first first && all_octets metric_octet rest end.

Definition validLabelName (name : string) : bool :=
  negb (String.prefix "__" name)
  && match name with "" => false | String first rest => label_first first && all_octets label_octet rest end.

Definition line_break (symbol : ascii) : bool :=
  bool_decide (symbol = "010"%char) || bool_decide (symbol = "013"%char).

Definition valid_label (entry : string * string) : bool :=
  validLabelName entry.1 && (String.length entry.2 <=? 200)%nat && negb (any_octet line_break entry.2).

Definition validateLabels (labels : Labels) : Status :=
  if (16 <? size labels)%nat then fail InvalidArgument "A metric has too many labels."
  else if negb (forallb valid_label (map_iter labels)) then fail InvalidArgument "A metric label is invalid."
  else ok.

Fixpoint escapeLabel (value : string) : string :=
  match value with
  | "" => ""
  | String symbol value =>
      if bool_decide (symbol = backslash) || bool_decide (symbol = dquote)
      then String backslash (String symbol (escapeLabel value))
      else String symbol (escapeLabel value)
  end.

(** The loop over the labels; [first] is the flag of the code. *)
Fixpoint labelEntries (first : bool) (entries : list (string * string)) : string :=
  match entries with
  | [] => ""
  | (name, value) :: entries =>
      (if first then "" else ",") +:+ name +:+ "=" +:+ String dquote (escapeLabel value)
      +:+ String dquote (labelEntries false entries)
  end.

Definition labelText (labels : Labels) : string :=
  if (size labels =? 0)%nat then "" else "{" +:+ labelEntries true (map_iter labels) +:+ "}".

Definition seriesKey (name : string) (labels : Labels) : string := name +:+ labelText labels.

(** ** Metrics *)

Module Counter.
Record t := mk { name : string; labels : Labels; value : double }.
End Counter.

Module Histogram.
Record t := mk {
  name : string;
  labels : Labels;
  boundaries : list double;
  counts : list Z;
  totalCount : Z;
  sum : double;
}.
End Histogram.

Definition deqb : double -> double -> bool := SFeqb.

Section buckets.
(** [std::ranges::is_sorted]: no element is below the one before it. *)
Fixpoint is_sorted (values : list double) : bool :=
  match values with
  | x :: rest => match rest with y :: _ => negb (dltb y x) && is_sorted rest | [] => true end
  | [] => true
  end.

(** [erase(std::unique(...), end)]: of equal neighbours the first stays. *)
Fixpoint uniqueFrom (last : double) (values : list double) : list double :=
  match values with
  | [] => []
  | x :: values => if deqb last x then uniqueFrom last values else x :: uniqueFrom x values
  end.
Definition unique (values : list double) : list double :=
  match values with [] => [] | x :: values => x :: uniqueFrom x values end.

(** [==] on vectors. *)
Fixpoint same_values (xs ys : list double) : bool :=
  match xs, ys with
  | [], [] => true
  | x :: xs, y :: ys => deqb x y && same_values xs ys
  | _, _ => false
  end.
End buckets.

Module MetricRegistry.
(** The two marks of a metric family. *)
Inductive family := FamilyCounter | FamilyHistogram.
#[global] Instance family_eq_dec : EqDecision family.
Proof. solve_decision. Defined.

Record t := mk {
  m_maximumSeries : nat;
  m_counters : gmap string Counter.t;
  m_histograms : gmap string Histogram.t;
  m_metricTypes : gmap string family;
}.

Definition create (maximumSeries : nat) : t := mk maximumSeries ∅ ∅ ∅.

Definition seriesCount (r : t) : nat := size (m_counters r) + size (m_histograms r).

(** The family of a name is another. *)
Definition other_family (r : t) (name : string) (mine : family) : bool :=
  match m_metricTypes r !! name with Some kind => negb (bool_decide (kind = mine)) | None => false end.

Definition increment (name : string) (labels : Labels) (amount : double) : prog t Error unit := fun r =>
  if negb (validMetricName name) || negb (is_ok (validateLabels labels)) || negb (isfinite amount)
     || dltb amount dzero then
    (fail InvalidArgument "The counter update is invalid.", r)
  else
    let key := seriesKey name labels in
    if other_family r name FamilyCounter then
      (fail Conflict "A histogram already uses this metric family.", r)
    else
      match m_counters r !! key with
      | Some found =>
          (ok, mk (m_maximumSeries r)
                 (<[key := Counter.mk (Counter.name found) (Counter.labels found) (dadd (Counter.value found) amount)]>
                    (m_counters r)) (m_histograms r) (m_metricTypes r))
      | None =>
          if (m_maximumSeries r <=? seriesCount r)%nat then
            (fail FailedPrecondition "The metric series limit has been reached.", r)
          else
            (ok, mk (m_maximumSeries r) (<[key := Counter.mk name labels (dadd dzero amount)]> (m_counters r))
                   (m_histograms r) (<[name := FamilyCounter]> (m_metricTypes r)))
      end.

(** One observation of a histogram. *)
Definition record_value (value : double) (h : Histogram.t) : Histogram.t :=
  Histogram.mk (Histogram.name h) (Histogram.labels h) (Histogram.boundaries h)
    (zip_with (fun boundary count => if dleb value boundary then u64 (count + 1) else count)
       (Histogram.boundaries h) (Histogram.counts h))
    (u64 (Histogram.totalCount h + 1)) (dadd (Histogram.sum h) value).

Definition put_histogram (key : string) (h : Histogram.t) (types : gmap string family) (r : t) : t :=
  mk (m_maximumSeries r) (m_counters r) (<[key := h]> (m_histograms r)) types.

Definition observe (name : string) (buckets : list double) (value : double) (labels : Labels)
    : prog t Error unit := fun r =>
  if negb (validMetricName name) || negb (is_ok (validateLabels labels)) || bool_decide (is_Some (labels !! "le"))
     || negb (isfinite value) || bool_decide (buckets = []) || negb (is_sorted buckets)
     || existsb (fun boundary => negb (isfinite boundary)) buckets then
    (fail InvalidArgument "The histogram observation is invalid.", r)
  else
    let buckets := unique buckets in
    let key := seriesKey name labels in
    if other_family r name FamilyHistogram then
      (fail Conflict "A counter already uses this metric family.", r)
    else
      match m_histograms r !! key with
      | Some found =>
          if negb (same_values (Histogram.boundaries found) buckets) then
            (fail Conflict "Histogram bucket boundaries cannot change.", r)
          else (ok, put_histogram key (record_value value found) (m_metricTypes r) r)
      | None =>
          if (m_maximumSeries r <=? seriesCount r)%nat then
            (fail FailedPrecondition "The metric series limit has been reached.", r)
          else
            (ok, put_histogram key
                   (record_value value (Histogram.mk name labels buckets (replicate (length buckets) 0) 0 dzero))
                   (<[name := FamilyHistogram]> (m_metricTypes r)) r)
      end.

(** *** The exposition *)

(** [std::format("{}", x)] of a [double]. *)
Section exposition.
Context (format_double : double -> string).
Definition newline : string := String "010" "".

Definition counterLine (c : Counter.t) : string :=
  Counter.name c +:+ labelText (Counter.labels c) +:+ " " +:+ format_double (Counter.value c) +:+ newline.

Definition bucketLine (h : Histogram.t) (bound : string) (count : Z) : string :=
  let labels := match Histogram.labels h !! "le" with
                | Some _ => Histogram.labels h | None => <["le" := bound]> (Histogram.labels h) end in
  Histogram.name h +:+ "_bucket" +:+ labelText labels +:+ " " +:+ to_string count +:+ newline.

Definition histogramLines (h : Histogram.t) : string :=
  String.concat "" (zip_with (fun boundary count => bucketLine h (format_double boundary) count)
    (Histogram.boundaries h) (Histogram.counts h))
  +:+ bucketLine h "+Inf" (Histogram.totalCount h)
  +:+ Histogram.name h +:+ "_sum" +:+ labelText (Histogram.labels h) +:+ " " +:+ format_double (Histogram.sum h) +:+ newline
  +:+ Histogram.name h +:+ "_count" +:+ labelText (Histogram.labels h) +:+ " " +:+ to_string (Histogram.totalCount h) +:+ newline.

Definition prometheus (r : t) : string :=
  String.concat "" (map counterLine (map_iter (m_counters r)).*2)
  +:+ String.concat "" (map histogramLines (map_iter (m_histograms r)).*2).
End exposition.
End MetricRegistry.

(** ** Trace contexts *)

Definition lowercaseHex : string -> bool :=
  all_octets (fun symbol => decimal_digit symbol
    || (let byte := N_of_ascii symbol in (97 <=? byte)%N && (byte <=? 102)%N)).
Definition allZero : string -> bool := all_octets (fun symbol => bool_decide (symbol = "0"%char)).

Definition octet_is (index : nat) (symbol : ascii) (value : string) : bool :=
  bool_decide (String.get index value = Some symbol).

Module TraceContext.
Record t := mk { m_traceId : string; m_spanId : string; m_sampled : bool }.

#[global] Instance eq_dec : EqDecision t.
Proof. solve_decision. Defined.

Definition odd_digit (symbol : ascii) : bool :=
  bool_decide (symbol ∈ ["1"; "3"; "5"; "7"; "9"; "b"; "d"; "f"]%char).

Definition parseTraceParent (value : string) : Result t :=
  if negb (String.length value =? 55)%nat || negb (octet_is 2 "-" value) || negb (octet_is 35 "-" value)
     || negb (octet_is 52 "-" value) || negb (bool_decide (String.substring 0 2 value = "00")) then
    fail InvalidArgument "The traceparent header is invalid."
  else
    let trace := String.substring 3 32 value in
    let span := String.substring 36 16 value in
    let flags := String.substring 53 2 value in
    if negb (lowercaseHex trace) || negb (lowercaseHex span) || negb (lowercaseHex flags) || allZero trace || allZero span then
      fail InvalidArgument "The traceparent header is invalid."
    else Ok (mk trace span match String.get 1 flags with Some symbol => odd_digit symbol | None => false end).

Definition traceParent (c : t) : string :=
  "00-" +:+ m_traceId c +:+ "-" +:+ m_spanId c +:+ (if m_sampled c then "-01" else "-00").

Section platform.
Context `{Plat : Platform}.

Definition randomHex (bytes : nat) : prog world Error string :=
  random ← randomBytes bytes;
  mret (toHex random).

Definition generate (sampled : bool) : prog world Error t :=
  trace ← attempt (randomHex 16);
  span ← attempt (randomHex 8);
  trace ← lift trace;
  span ← lift span;
  mret (mk trace span sampled).
End platform.
End TraceContext.

(** ** Spans *)

Module SpanRecord.
Record t := mk {
  m_context : TraceContext.t;
  m_parentSpanId : option string;
  m_name : string;
  m_startedAt : Instant;
  m_endedAt : Instant;
  m_outcome : string;
  m_attributes : Labels;
}.
End SpanRecord.

Module Span.
Record live := mk {
  m_context : TraceContext.t;
  m_parentSpanId : option string;
  m_name : string;
  m_startedAt : Instant;
  m_attributes : Labels;
}.

(** A span that is attached to its clock and sink, or one that was finished or
    moved from, whose other members are unspecified and never read by [finish]. *)
Inductive t := Attached (span : live) | Detached.
End Span.

(** The sink and the platform of a tracer. *)
Record tracing `{Plat : Platform} := mkTracing { m_spans : list SpanRecord.t; m_platform : world }.

Section spans.
Context `{Plat : Platform}.
Abbreviation handler B := (prog tracing Error B).

Definition on_clock {B} (m : prog world Error B) : handler B :=
  zoom m_platform (fun w s => mkTracing Plat (m_spans s) w) m.

(** [Span::finish] on the span [span]; it is detached afterwards. An exception
    of the sink is swallowed there, and none is modelled. *)
Definition finish (outcome : string) (span : Span.t) : tracing -> Span.t * tracing := fun s =>
  match span with
  | Span.Detached => (Span.Detached, s)
  | Span.Attached span =>
      let '(endedAt, w) := clock_now (m_platform s) in
      (Span.Detached,
       mkTracing Plat
         (m_spans s ++ [SpanRecord.mk (Span.m_context span) (Span.m_parentSpanId span) (Span.m_name span)
                          (Span.m_startedAt span) endedAt outcome (Span.m_attributes span)]) w)
  end.

(** [Tracer::start]. *)
Definition start (name : string) (parent : option TraceContext.t) (attributes : Labels) : handler Span.t :=
  if bool_decide (name = "") || (200 <? String.length name)%nat || negb (is_ok (validateLabels attributes)) then
    throw (Error_ofMessage InvalidArgument "The span is invalid.")
  else
    generated ← attempt (on_clock (TraceContext.generate false));
    generated ←
      match parent with
      | None => mret generated
      | Some parent =>
          spanId ← on_clock (TraceContext.randomHex 8);
          mret (Ok (TraceContext.mk (TraceContext.m_traceId parent) spanId (TraceContext.m_sampled parent)))
      end;
    context ← lift generated;
    startedAt ← on_clock now;
    mret (Span.Attached (Span.mk context (TraceContext.m_spanId <$> parent) name startedAt attributes)).
End spans.

(** ** A series is its name and its labels *)

Lemma escapeLabel_inj a b x y :
  escapeLabel a +:+ String dquote x = escapeLabel b +:+ String dquote y -> a = b /\ x = y.
Proof.
  revert b. induction a as [|c a IH]; intros b E.
  - destruct b as [|d b]; cbn in E; [by injection E|]. exfalso.
    destruct (bool_decide (d = backslash) || bool_decide (d = dquote)) eqn:G; cbn in E; injection E as E _; [done|].
    subst d. by cbn in G.
  - destruct b as [|d b]; cbn in E.
    { destruct (bool_decide (c = backslash) || bool_decide (c = dquote)) eqn:G; cbn in E; injection E as E _; [done|].
      subst c. by cbn in G. }
    destruct (bool_decide (c = backslash) || bool_decide (c = dquote)) eqn:Gc,
      (bool_decide (d = backslash) || bool_decide (d = dquote)) eqn:Gd; cbn in E.
    + injection E as <- E. apply IH in E as [-> ->]. done.
    + injection E as <- E. by cbn in Gd.
    + injection E as -> E. by cbn in Gc.
    + injection E as <- E. apply IH in E as [-> ->]. done.
Qed.

Lemma octets_any p q s : (forall c, p c = true -> q c = false) -> all_octets p s = true -> any_octet q s = false.
Proof.
  intros Hpq. induction s as [|c s IH]; cbn; [done|]. intros [Hc Hs]%andb_true_iff. by rewrite (Hpq c Hc), IH.
Qed.

(** An octet that no name holds. *)
Lemma metric_name_any name c : validMetricName name = true -> metric_octet c = false ->
  any_octet (fun d => bool_decide (d = c)) name = false.
Proof.
  destruct name as [|first rest]; [done|]. cbn. intros [Hf Hr]%andb_true_iff Hc.
  assert (forall d, metric_octet d = true -> bool_decide (d = c) = false) as H.
  { intros d Hd. apply bool_decide_eq_false. intros ->. congruence. }
  rewrite (octets_any metric_octet _ rest H Hr), H; [done|]. unfold metric_octet. by rewrite Hf.
Qed.

Lemma label_name_any name c : validLabelName name = true -> label_octet c = false ->
  any_octet (fun d => bool_decide (d = c)) name = false.
Proof.
  intros [_ Hn]%andb_true_iff Hc. destruct name as [|first rest]; [done|]. apply andb_true_iff in Hn as [Hf Hr]. cbn.
  assert (forall d, label_octet d = true -> bool_decide (d = c) = false) as H.
  { intros d Hd. apply bool_decide_eq_false. intros ->. congruence. }
  rewrite (octets_any label_octet _ rest H Hr), H; [done|]. unfold label_octet. by rewrite Hf.
Qed.

(** A text is split at the first octet of a kind in one way. *)
Lemma split_unique p a b x y : any_octet p a = false -> any_octet p b = false ->
  (x = "" \/ starts_with_octet p x = true) -> (y = "" \/ starts_with_octet p y = true) ->
  a +:+ x = b +:+ y -> a = b /\ x = y.
Proof.
  intros Ha Hb Hx Hy E.
  pose proof (proj2 (split_first_spec p (a +:+ x) a x) (conj eq_refl (conj Ha Hx))) as H1.
  pose proof (proj2 (split_first_spec p (a +:+ x) b y) (conj E (conj Hb Hy))) as H2. rewrite H1 in H2. by injection H2.
Qed.

Definition label_sep (d : ascii) : bool := bool_decide (d = "="%char).
Definition brace (d : ascii) : bool := bool_decide (d = "{"%char).

Lemma labelEntries_inj first es es' :
  Forall (fun e => valid_label e = true) es -> Forall (fun e => valid_label e = true) es' ->
  labelEntries first es +:+ "}" = labelEntries first es' +:+ "}" -> es = es'.
Proof.
  revert first es'. induction es as [|[n v] es IH]; intros first [|[n' v'] es'] H1 H2 E; [done|exfalso..|].
  - apply Forall_cons in H2 as [Hv _]. cbn in E. destruct first; [|done]. cbn in E.
    destruct n' as [|c n']; [by apply andb_true_iff in Hv as [[[_ ?]%andb_true_iff _]%andb_true_iff _]|].
    cbn in E. injection E as <- _.
    apply andb_true_iff in Hv as [[Hv _]%andb_true_iff _]. by apply (label_name_any _ "}"%char) in Hv.
  - apply Forall_cons in H1 as [Hv _]. cbn in E. destruct first; [|done]. cbn in E.
    destruct n as [|c n]; [by apply andb_true_iff in Hv as [[[_ ?]%andb_true_iff _]%andb_true_iff _]|].
    cbn in E. injection E as -> _.
    apply andb_true_iff in Hv as [[Hv _]%andb_true_iff _]. by apply (label_name_any _ "}"%char) in Hv.
  - apply Forall_cons in H1 as [Hv H1], H2 as [Hv' H2]. cbn [labelEntries] in E.
    apply andb_true_iff in Hv as [[Hv _]%andb_true_iff _], Hv' as [[Hv' _]%andb_true_iff _]. cbn in Hv, Hv'.
    rewrite !sapp_assoc in E. apply (inj (String.append (if first then "" else ","))) in E.
    apply (split_unique label_sep) in E as [<- E]; [|by apply (label_name_any _ "=")|by apply (label_name_any _ "=")|by right..].
    cbn in E. injection E as E. apply escapeLabel_inj in E as [<- E].
    apply (IH false) in E; [by subst|done..].
Qed.

Definition valid_labels (labels : Labels) : Prop := is_ok (validateLabels labels) = true.

Lemma valid_labels_entries labels : valid_labels labels -> Forall (fun e => valid_label e = true) (map_iter labels).
Proof.
  unfold valid_labels, validateLabels. destruct (_ <? _)%nat; [done|].
  destruct (forallb valid_label (map_iter labels)) eqn:E; [|done]. intros _. apply Forall_forall. intros e He.
  rewrite forallb_forall in E. apply E. by apply list_elem_of_In.
Qed.

Lemma labelText_inj l l' : valid_labels l -> valid_labels l' -> labelText l = labelText l' -> l = l'.
Proof.
  intros Hl Hl'. unfold labelText. destruct (size l =? 0)%nat eqn:E, (size l' =? 0)%nat eqn:E'; [|done..|].
  - apply Nat.eqb_eq, map_size_empty_iff in E, E'. by subst.
  - intros H. apply (inj (String.append "{")) in H. apply labelEntries_inj in H; [|by apply valid_labels_entries..].
    apply map_eq. intros k. apply option_eq. intros v. by rewrite <- !elem_of_map_iter, H.
Qed.

Lemma labelText_brace l : labelText l = "" \/ starts_with_octet brace (labelText l) = true.
Proof. unfold labelText. destruct (_ =? _)%nat; [by left|by right]. Qed.

(** Two series are one only if they agree. Among metric names and labels that
    the registry accepts, with any label values, quotes and backslashes included,
    the text that names a series determines its name and every label: no choice of
    label values makes two different series share a counter or a histogram. *)
Theorem series_never_merge name name' labels labels' :
  validMetricName name = true -> validMetricName name' = true -> valid_labels labels -> valid_labels labels' ->
  seriesKey name labels = seriesKey name' labels' -> name = name' /\ labels = labels'.
Proof.
  intros Hn Hn' Hl Hl' E. unfold seriesKey in E.
  apply (split_unique brace) in E as [<- E]; [|by apply (metric_name_any _ "{")|by apply (metric_name_any _ "{")|apply labelText_brace..].
  split; [done|]. by apply labelText_inj.
Qed.

(** ** The registry *)

Import MetricRegistry(FamilyCounter, FamilyHistogram, m_maximumSeries, m_counters, m_histograms, m_metricTypes,
  seriesCount, increment, observe, record_value, put_histogram).
Implicit Types (r : MetricRegistry.t).

Inductive metric_op :=
| Increment (name : string) (labels : Labels) (amount : double)
| Observe (name : string) (buckets : list double) (value : double) (labels : Labels).

Definition run_metric_op (o : metric_op) : prog MetricRegistry.t Error unit :=
  match o with
  | Increment name labels amount => increment name labels amount
  | Observe name buckets value labels => observe name buckets value labels
  end.
Definition metric_step (o : metric_op) r : MetricRegistry.t := (run_metric_op o r).2.
Definition metric_run (ops : list metric_op) r : MetricRegistry.t := foldl (fun r o => metric_step o r) r ops.

(** What the updates that succeeded brought to a series, in their order. *)
Definition amount_for (k : string) (o : metric_op) r : list double :=
  match o with
  | Increment name labels amount =>
      if bool_decide (seriesKey name labels = k) && is_ok (increment name labels amount r).1 then [amount] else []
  | _ => []
  end.
Definition value_for (k : string) (o : metric_op) r : list double :=
  match o with
  | Observe name buckets value labels =>
      if bool_decide (seriesKey name labels = k) && is_ok (observe name buckets value labels r).1 then [value] else []
  | _ => []
  end.
Fixpoint gathered (what : metric_op -> MetricRegistry.t -> list double) (ops : list metric_op) r : list double :=
  match ops with [] => [] | o :: ops => what o r ++ gathered what ops (metric_step o r) end.

Lemma gathered_snoc what ops o r : gathered what (ops ++ [o]) r = gathered what ops r ++ what o (metric_run ops r).
Proof.
  revert r. induction ops as [|o' ops IH]; intros r; cbn; [by rewrite app_nil_r|]. by rewrite IH, app_assoc.
Qed.

(** A histogram after these values: each bucket counts those at or below its
    boundary, in 64 bits. *)
Definition holds_values (values : list double) (h : Histogram.t) : Prop :=
  Histogram.counts h = map (fun b => u64 (Z.of_nat (length (List.filter (fun v => dleb v b) values)))) (Histogram.boundaries h) /\
  Histogram.totalCount h = u64 (Z.of_nat (length values)) /\ Histogram.sum h = foldl dadd dzero values.

Record sound_registry r : Prop := {
  sound_counter k c : m_counters r !! k = Some c ->
    validMetricName (Counter.name c) = true /\ valid_labels (Counter.labels c) /\
    k = seriesKey (Counter.name c) (Counter.labels c) /\ m_metricTypes r !! Counter.name c = Some FamilyCounter;
  sound_histogram k h : m_histograms r !! k = Some h ->
    validMetricName (Histogram.name h) = true /\ valid_labels (Histogram.labels h) /\
    Histogram.labels h !! "le" = None /\ Forall (fun b => isfinite b = true) (Histogram.boundaries h) /\
    k = seriesKey (Histogram.name h) (Histogram.labels h) /\ m_metricTypes r !! Histogram.name h = Some FamilyHistogram;
  sound_limit : (seriesCount r <= m_maximumSeries r)%nat;
}.

(** The outcomes of an update. *)
Definition valid_series (name : string) (labels : Labels) : Prop := validMetricName name = true /\ valid_labels labels.

Inductive increment_case (name : string) (labels : Labels) (amount : double) r : Status * MetricRegistry.t -> Prop :=
| increment_refused e : increment_case name labels amount r (Err e, r)
| increment_old c : valid_series name labels -> m_counters r !! seriesKey name labels = Some c ->
    increment_case name labels amount r (ok, MetricRegistry.mk (m_maximumSeries r)
      (<[seriesKey name labels := Counter.mk (Counter.name c) (Counter.labels c) (dadd (Counter.value c) amount)]> (m_counters r))
      (m_histograms r) (m_metricTypes r))
| increment_new : valid_series name labels -> m_counters r !! seriesKey name labels = None ->
    m_metricTypes r !! name <> Some FamilyHistogram -> (seriesCount r < m_maximumSeries r)%nat ->
    increment_case name labels amount r (ok, MetricRegistry.mk (m_maximumSeries r)
      (<[seriesKey name labels := Counter.mk name labels (dadd dzero amount)]> (m_counters r))
      (m_histograms r) (<[name := FamilyCounter]> (m_metricTypes r))).

Lemma other_family_spec r name mine other : mine <> other ->
  MetricRegistry.other_family r name mine = false -> m_metricTypes r !! name <> Some other.
Proof.
  unfold MetricRegistry.other_family. intros Hne. destruct (m_metricTypes r !! name) as [k|]; [|done].
  rewrite negb_false_iff, bool_decide_eq_true. congruence.
Qed.

Lemma increment_cases name labels amount r : increment_case name labels amount r (increment name labels amount r).
Proof.
  unfold increment. destruct (_ || _) eqn:G; [constructor|]. bool_prop.
  destruct (MetricRegistry.other_family _ _ _) eqn:Ht; [constructor|]. apply (other_family_spec _ _ _ FamilyHistogram) in Ht; [|done].
  destruct (m_counters r !! _) eqn:Hk; [by apply increment_old|].
  destruct (_ <=? _)%nat eqn:Hm; [constructor|]. apply Nat.leb_gt in Hm. by apply increment_new.
Qed.

Inductive observe_case (name : string) (buckets : list double) (value : double) (labels : Labels) r
    : Status * MetricRegistry.t -> Prop :=
| observe_refused e : observe_case name buckets value labels r (Err e, r)
| observe_old h : valid_series name labels -> m_histograms r !! seriesKey name labels = Some h ->
    observe_case name buckets value labels r
      (ok, put_histogram (seriesKey name labels) (record_value value h) (m_metricTypes r) r)
| observe_new bounds : valid_series name labels -> m_histograms r !! seriesKey name labels = None ->
    labels !! "le" = None -> Forall (fun b => isfinite b = true) bounds ->
    m_metricTypes r !! name <> Some FamilyCounter -> (seriesCount r < m_maximumSeries r)%nat ->
    observe_case name buckets value labels r
      (ok, put_histogram (seriesKey name labels)
         (record_value value (Histogram.mk name labels bounds (replicate (length bounds) 0) 0 dzero))
         (<[name := FamilyHistogram]> (m_metricTypes r)) r).

Lemma uniqueFrom_incl x values y : y ∈ uniqueFrom x values -> y ∈ values.
Proof.
  revert x. induction values as [|z values IH]; intros x; cbn; [done|]. destruct (deqb x z); [intros H; right; by eapply IH|].
  rewrite !elem_of_cons. intros [->|H]; [by left|right; by eapply IH].
Qed.

Lemma unique_incl values y : y ∈ unique values -> y ∈ values.
Proof. destruct values as [|x values]; [done|]. cbn. rewrite !elem_of_cons. intros [->|H%uniqueFrom_incl]; auto. Qed.

Lemma observe_cases name buckets value labels r :
  observe_case name buckets value labels r (observe name buckets value labels r).
Proof.
  unfold observe. destruct (_ || _) eqn:G; [constructor|]. bool_prop.
  destruct (MetricRegistry.other_family _ _ _) eqn:Ht; [constructor|]. apply (other_family_spec _ _ _ FamilyCounter) in Ht; [|done].
  destruct (m_histograms r !! _) as [h|] eqn:Hk; [destruct (negb _); [constructor|by apply observe_old]|].
  destruct (_ <=? _)%nat eqn:Hm; [constructor|]. apply Nat.leb_gt in Hm.
  apply observe_new; try done.
  - match goal with H : ~ is_Some _ |- _ => by apply eq_None_not_Some in H end.
  - apply Forall_forall. intros b Hb%unique_incl.
    match goal with H : existsb _ _ = false |- _ => rename H into Hfin end.
    destruct (isfinite b) eqn:Eb; [done|]. exfalso. revert Hfin. apply not_false_iff_true, existsb_exists.
    exists b. split; [by apply list_elem_of_In|]. by rewrite Eb.
Qed.

(** The type of a family never changes. *)
Lemma family_kept (types : gmap string MetricRegistry.family) name kind other n :
  types !! name <> Some other -> kind <> other -> types !! n = Some other -> <[name := kind]> types !! n = Some other.
Proof. intros Hno Hne Hn. rewrite lookup_insert_ne; [done|]. intros ->. done. Qed.

Lemma sound_increment name labels amount r : sound_registry r -> sound_registry (increment name labels amount r).2.
Proof.
  intros Hs. destruct (increment_cases name labels amount r) as [e|c Hv Hk|Hv Hk Ht Hm]; cbn [snd]; [done| |].
  - split; cbn; [|apply (sound_histogram r Hs)|].
    + intros k d. rewrite lookup_insert. case_decide as E; [|apply (sound_counter r Hs)]. subst k. intros [= <-]. cbn.
      apply (sound_counter r Hs _ _ Hk).
    + unfold seriesCount. cbn. rewrite map_size_insert_Some by (by eexists). apply (sound_limit r Hs).
  - destruct Hv as [Hn Hl]. split; cbn.
    + intros k d. rewrite lookup_insert. case_decide as E.
      * subst k. intros [= <-]. cbn. split_and!; try done. apply lookup_insert_eq.
      * intros Hd. destruct (sound_counter r Hs _ _ Hd) as (? & ? & ? & Ht'). split_and!; try done.
        rewrite lookup_insert. by case_decide.
    + intros k h Hh. destruct (sound_histogram r Hs _ _ Hh) as (? & ? & ? & ? & ? & Ht'). split_and!; try done.
      by eapply family_kept.
    + unfold seriesCount in *. cbn. rewrite map_size_insert_None by done. lia.
Qed.

Lemma sound_observe name buckets value labels r : sound_registry r -> sound_registry (observe name buckets value labels r).2.
Proof.
  intros Hs. destruct (observe_cases name buckets value labels r) as [e|h Hv Hk|bounds Hv Hk Hle Hfin Ht Hm]; cbn [snd]; [done| |].
  - split; cbn; [apply (sound_counter r Hs)| |].
    + intros k d. rewrite lookup_insert. case_decide as E; [|apply (sound_histogram r Hs)]. subst k. intros [= <-]. cbn.
      apply (sound_histogram r Hs _ _ Hk).
    + unfold seriesCount. cbn. rewrite map_size_insert_Some by (by eexists). apply (sound_limit r Hs).
  - destruct Hv as [Hn Hl]. split; cbn.
    + intros k c Hc. destruct (sound_counter r Hs _ _ Hc) as (? & ? & ? & Ht'). split_and!; try done. by eapply family_kept.
    + intros k d. rewrite lookup_insert. case_decide as E.
      * subst k. intros [= <-]. cbn. split_and!; try done. apply lookup_insert_eq.
      * intros Hd. destruct (sound_histogram r Hs _ _ Hd) as (? & ? & ? & ? & ? & Ht'). split_and!; try done.
        rewrite lookup_insert. by case_decide.
    + unfold seriesCount in *. cbn. rewrite map_size_insert_None by done. lia.
Qed.

Lemma sound_metric_run ops r : sound_registry r -> sound_registry (metric_run ops r).
Proof.
  revert r. induction ops as [|o ops IH]; intros r Hs; cbn; [done|]. apply IH.
  destruct o; [by apply sound_increment|by apply sound_observe].
Qed.

(** *** What a series adds up to *)

Definition counter_value (k : string) r : double := from_option Counter.value dzero (m_counters r !! k).

Lemma counter_step k o r : counter_value k (metric_step o r) = foldl dadd (counter_value k r) (amount_for k o r).
Proof.
  destruct o as [name labels amount|name buckets value labels]; cbn [amount_for]; unfold metric_step; cbn [run_metric_op].
  - destruct (increment_cases name labels amount r) as [e|c Hv Hk|Hv Hk Ht Hm]; cbn [fst snd is_ok ok].
    + by rewrite andb_false_r.
    + rewrite andb_true_r. unfold counter_value. cbn. rewrite lookup_insert. case_decide; case_bool_decide; try done.
      subst k. by rewrite Hk.
    + rewrite andb_true_r. unfold counter_value. cbn. rewrite lookup_insert. case_decide; case_bool_decide; try done.
      subst k. by rewrite Hk.
  - by destruct (observe_cases name buckets value labels r).
Qed.

Lemma counter_run k ops r : counter_value k (metric_run ops r) = foldl dadd (counter_value k r) (gathered (amount_for k) ops r).
Proof.
  revert r. induction ops as [|o ops IH]; intros r; [done|]. cbn [gathered]. rewrite foldl_app, <- counter_step. apply IH.
Qed.

Lemma holds_record values value h : holds_values values h -> holds_values (values ++ [value]) (record_value value h).
Proof.
  intros (Hc & Ht & Hsum). unfold record_value. split_and!; cbn.
  - rewrite Hc. clear Hc. induction (Histogram.boundaries h) as [|b bs IH]; [done|]. cbn. f_equal; [|apply IH].
    rewrite List.filter_app, length_app. cbn. destruct (dleb value b); cbn; [|f_equal; lia].
    unfold u64. rewrite Zplus_mod_idemp_l. f_equal. lia.
  - rewrite Ht, length_app. cbn. unfold u64. rewrite Zplus_mod_idemp_l. f_equal. lia.
  - by rewrite Hsum, foldl_app.
Qed.

Lemma holds_nothing name labels bounds : holds_values [] (Histogram.mk name labels bounds (replicate (length bounds) 0) 0 dzero).
Proof. split_and!; cbn; [|done..]. induction bounds as [|b bs IH]; [done|]. cbn. by f_equal. Qed.

Lemma histogram_run k ops r : m_histograms r !! k = None ->
  match m_histograms (metric_run ops r) !! k with
  | Some h => holds_values (gathered (value_for k) ops r) h
  | None => gathered (value_for k) ops r = []
  end.
Proof.
  intros Hnone. induction ops as [|o ops IH] using rev_ind; [cbn; by rewrite Hnone|].
  unfold metric_run in *. rewrite foldl_app, gathered_snoc. cbn [foldl]. fold (metric_run ops r) in *.
  set (r1 := metric_run ops r) in *. unfold metric_step.
  destruct o as [name labels amount|name buckets value labels]; cbn [value_for run_metric_op].
  - rewrite app_nil_r. destruct (increment_cases name labels amount r1); exact IH.
  - destruct (observe_cases name buckets value labels r1) as [e|h Hv Hk|bounds Hv Hk Hle Hfin Ht Hm]; cbn [fst snd is_ok ok].
    + by rewrite andb_false_r, app_nil_r.
    + rewrite andb_true_r. cbn. rewrite lookup_insert. case_decide as E; case_bool_decide; try done.
      * subst k. rewrite Hk in IH. by apply holds_record.
      * by rewrite app_nil_r.
    + rewrite andb_true_r. cbn. rewrite lookup_insert. case_decide as E; case_bool_decide; try done.
      * subst k. rewrite Hk in IH. rewrite IH. apply (holds_record []), holds_nothing.
      * by rewrite app_nil_r.
Qed.

Lemma metric_limit ops r : m_maximumSeries (metric_run ops r) = m_maximumSeries r.
Proof.
  revert r. induction ops as [|o ops IH]; intros r; [done|]. change (metric_run (o :: ops) r) with (metric_run ops (metric_step o r)). rewrite IH. unfold metric_step.
  destruct o as [name labels amount|name buckets value labels]; cbn [run_metric_op].
  - by destruct (increment_cases name labels amount r).
  - by destruct (observe_cases name buckets value labels r).
Qed.


(** ** Trace contexts round-trip *)

(** What the two identifiers of a context look like. *)
Definition trace_ids (c : TraceContext.t) : Prop :=
  String.length (TraceContext.m_traceId c) = 32%nat /\ String.length (TraceContext.m_spanId c) = 16%nat /\
  lowercaseHex (TraceContext.m_traceId c) = true /\ lowercaseHex (TraceContext.m_spanId c) = true /\
  allZero (TraceContext.m_traceId c) = false /\ allZero (TraceContext.m_spanId c) = false.

Lemma parsed_ids value c : TraceContext.parseTraceParent value = Ok c -> trace_ids c.
Proof.
  unfold TraceContext.parseTraceParent. intros H. branch H G; [done|]. branch H G'; [done|]. injection H as <-. bool_prop.
  match goal with H : (String.length _ =? 55)%nat = true |- _ => apply Nat.eqb_eq in H; rename H into Hlen end.
  unfold trace_ids. cbn. rewrite !substring_length by lia. done.
Qed.

(** The four parts of a header in their places. *)
Lemma header_parts t s f : String.length t = 32%nat -> String.length s = 16%nat -> String.length f = 2%nat ->
  let v := "00-" +:+ t +:+ "-" +:+ s +:+ "-" +:+ f in
  String.length v = 55%nat /\ octet_is 35 "-" v = true /\ octet_is 52 "-" v = true /\
  String.substring 3 32 v = t /\ String.substring 36 16 v = s /\ String.substring 53 2 v = f.
Proof.
  intros Ht Hs Hf v.
  assert (v = ("00-" +:+ t) +:+ ("-" +:+ s +:+ "-" +:+ f)) as E1 by (unfold v; by rewrite sapp_assoc).
  assert (v = ("00-" +:+ t +:+ "-" +:+ s) +:+ ("-" +:+ f)) as E2 by (unfold v; by rewrite !sapp_assoc).
  assert (String.length ("00-" +:+ t) = 35%nat) as L1 by (by rewrite slength_app, Ht).
  assert (String.length ("00-" +:+ t +:+ "-" +:+ s) = 52%nat) as L2 by (by rewrite !slength_app, Ht, Hs).
  split_and!.
  - unfold v. by rewrite !slength_app, Ht, Hs, Hf.
  - unfold octet_is. rewrite E1. rewrite <- (Nat.add_0_r 35), <- L1, get_app. done.
  - unfold octet_is. rewrite E2. rewrite <- (Nat.add_0_r 52), <- L2, get_app. done.
  - unfold v. change 3%nat with (String.length "00-" + 0)%nat. rewrite substring_app. by apply substring_prefix.
  - rewrite E1. change 36%nat with (35 + 1)%nat. rewrite <- L1, substring_app.
    change 1%nat with (String.length "-" + 0)%nat. rewrite substring_app. by apply substring_prefix.
  - rewrite E2. change 53%nat with (52 + 1)%nat. rewrite <- L2, substring_app.
    change 1%nat with (String.length "-" + 0)%nat. rewrite substring_app. rewrite <- (sapp_nil_r f) at 1. by apply substring_prefix.
Qed.

(** A trace context travels unchanged. Whatever header a context was read from,
    the header written for it is accepted, and reads back as the same context; and
    a context that is read has a trace identifier of 32 and a span identifier of
    16 lower-case hexadecimal digits, neither of them zero. *)
Theorem trace_parent_round_trip value c :
  TraceContext.parseTraceParent value = Ok c ->
  trace_ids c /\ TraceContext.parseTraceParent (TraceContext.traceParent c) = Ok c.
Proof.
  intros Hids%parsed_ids. split; [done|]. destruct Hids as (Ht & Hs & Hxt & Hxs & Hzt & Hzs). destruct c as [t s sampled]. cbn in *.
  set (f := if sampled then "01" else "00").
  assert (TraceContext.traceParent (TraceContext.mk t s sampled) = "00-" +:+ t +:+ "-" +:+ s +:+ "-" +:+ f) as E.
  { unfold TraceContext.traceParent, f. cbn. by destruct sampled. }
  assert (String.length f = 2%nat) as Hf by (unfold f; by destruct sampled).
  destruct (header_parts t s f Ht Hs Hf) as (L & O1 & O2 & P1 & P2 & P3). rewrite E.
  unfold TraceContext.parseTraceParent. rewrite L, O1, O2, P1, P2, P3, Hxt, Hxs, Hzt, Hzs. unfold f. by destruct sampled.
Qed.

(** ** A span is recorded once *)

Section span_uses.
Context `{Plat : Platform}.

(** Spans live in variables. A name may be bound once at a time. *)
Record scope := mkScope { variables : gmap nat Span.t; tracer : tracing }.

Inductive span_op :=
| StartSpan (v : nat) (name : string) (parent : option TraceContext.t) (attributes : Labels)
| EndSpan (v : nat) (outcome : string)
| MoveSpan (to from : nat)
| AssignSpan (to from : nat)
| DestroySpan (v : nat).

Definition bound (v : nat) (s : scope) : option Span.t := variables s !! v.

(** [Span(Span&&)], [operator=], [end] and the destructor. *)
Definition span_step (o : span_op) (s : scope) : scope :=
  match o with
  | StartSpan v name parent attributes =>
      match bound v s, start name parent attributes (tracer s) with
      | None, (Ok span, t) => mkScope (<[v := span]> (variables s)) t
      | None, (_, t) => mkScope (variables s) t
      | Some _, _ => s
      end
  | EndSpan v outcome =>
      match bound v s with
      | Some span => let '(span, t) := finish outcome span (tracer s) in mkScope (<[v := span]> (variables s)) t
      | None => s
      end
  | MoveSpan to from =>
      match bound to s, bound from s with
      | None, Some span => mkScope (<[to := span]> (<[from := Span.Detached]> (variables s))) (tracer s)
      | _, _ => s
      end
  | AssignSpan to from =>
      match bound to s, bound from s with
      | Some old, Some span =>
          if bool_decide (to = from) then s
          else
            let '(_, t) := finish "abandoned" old (tracer s) in
            mkScope (<[to := span]> (<[from := Span.Detached]> (variables s))) t
      | _, _ => s
      end
  | DestroySpan v =>
      match bound v s with
      | Some span => let '(_, t) := finish "abandoned" span (tracer s) in mkScope (delete v (variables s)) t
      | None => s
      end
  end.

Definition span_run (ops : list span_op) (s : scope) : scope := foldl (fun s o => span_step o s) s ops.

Definition attached_to (c : TraceContext.t) (span : Span.t) : Prop :=
  match span with Span.Attached live => Span.m_context live = c | Span.Detached => False end.
#[local] Instance attached_to_dec c span : Decision (attached_to c span).
Proof. destruct span; cbn; apply _. Defined.

(** The records of a context, the variables that hold it, and the starts that gave it. *)
Definition recorded (c : TraceContext.t) (s : scope) : nat :=
  length (filter (fun span => SpanRecord.m_context span = c) (m_spans (tracer s))).
Definition held (c : TraceContext.t) (s : scope) : nat := count_entries (attached_to c) (variables s).
Definition starts_span (c : TraceContext.t) (o : span_op) (s : scope) : bool :=
  match o with
  | StartSpan v name parent attributes =>
      match bound v s, (start name parent attributes (tracer s)).1 with
      | None, Ok span => bool_decide (attached_to c span)
      | _, _ => false
      end
  | _ => false
  end.

(** Starting a span records nothing. *)
Definition same_spans (t t' : tracing) : Prop := m_spans t' = m_spans t.
#[local] Instance same_spans_preorder : PreOrder same_spans.
Proof. split; [by intros t|]. intros t1 t2 t3. unfold same_spans. congruence. Qed.

Lemma still_spans {B} (m : prog tracing Error B) : (forall t, (m t).2 = t) -> advances same_spans m.
Proof. intros Hm t. unfold same_spans. by rewrite Hm. Qed.

Lemma start_records_nothing name parent attributes : advances same_spans (start name parent attributes).
Proof.
  assert (forall B (m : prog world Error B), advances same_spans (on_clock m)) as Hclock.
  { intros B m t. unfold same_spans, on_clock, zoom. by destruct (m _). }
  unfold start. destruct (_ || _); [by apply still_spans|].
  apply advances_bind; [exact _|by apply advances_attempt|intros generated].
  apply advances_bind; [exact _| |intros context].
  - destruct parent; [|by apply still_spans]. apply advances_bind; [exact _|done|]. intros spanId. by apply still_spans.
  - apply advances_bind; [exact _|by apply still_spans|intros c]. apply advances_bind; [exact _|done|]. intros startedAt.
    by apply still_spans.
Qed.

(** Finishing a span records it if it was attached. *)
Lemma finish_effect c outcome span t :
  (finish outcome span t).1 = Span.Detached /\
  (length (filter (fun span => SpanRecord.m_context span = c) (m_spans (finish outcome span t).2))
   = length (filter (fun span => SpanRecord.m_context span = c) (m_spans t)) + (if decide (attached_to c span) then 1 else 0))%nat.
Proof.
  destruct span as [live|]; cbn; [|split; [done|]].
  - destruct (clock_now (m_platform t)) as [endedAt w]. cbn. split; [done|].
    rewrite filter_app, length_app, filter_cons. cbn. repeat case_decide; done.
  - case_decide; [done|lia].
Qed.

Lemma held_insert c v span s t : bound v s = None ->
  held c (mkScope (<[v := span]> (variables s)) t) = ((if decide (attached_to c span) then 1 else 0) + held c s)%nat.
Proof. apply count_entries_insert. Qed.

Lemma held_replace c v old span s t : bound v s = Some old ->
  (held c (mkScope (<[v := span]> (variables s)) t) + (if decide (attached_to c old) then 1 else 0)
   = (if decide (attached_to c span) then 1 else 0) + held c s)%nat.
Proof. apply count_entries_replace. Qed.

Lemma nothing_attached c : (if decide (attached_to c Span.Detached) then 1 else 0)%nat = 0%nat.
Proof. by case_decide. Qed.

(** A step keeps the balance. *)
Lemma span_balance c o s :
  (recorded c (span_step o s) + held c (span_step o s)
   = (if starts_span c o s then 1 else 0) + (recorded c s + held c s))%nat.
Proof.
  destruct o as [v name parent attributes|v outcome|to from|to from|v]; cbn [span_step starts_span].
  - destruct (bound v s) as [old|] eqn:Hv; [done|].
    pose proof (start_records_nothing name parent attributes (tracer s)) as Hsame. unfold same_spans in Hsame.
    destruct (start name parent attributes (tracer s)) as [[span|e|] t]; cbn in *; unfold recorded; cbn; rewrite Hsame; [|done..].
    rewrite (held_insert c v span s t Hv). case_bool_decide; case_decide; try done; lia.
  - destruct (bound v s) as [old|] eqn:Hv; [|done]. pose proof (finish_effect c outcome old (tracer s)) as [Hd Hlen].
    destruct (finish outcome old (tracer s)) as [span t]. cbn in Hd, Hlen. subst span. unfold recorded at 1. cbn. rewrite Hlen.
    pose proof (held_replace c v old Span.Detached s t Hv) as Hh. rewrite nothing_attached in Hh. unfold recorded. lia.
  - destruct (bound to s) as [|] eqn:Hto; [done|]. destruct (bound from s) as [span|] eqn:Hfrom; [|done].
    pose proof (held_replace c from span Span.Detached s (tracer s) Hfrom) as Hh. rewrite nothing_attached in Hh.
    set (s1 := mkScope (<[from := Span.Detached]> (variables s)) (tracer s)) in *.
    assert (bound to s1 = None) as Hto1.
    { unfold bound, s1. cbn. rewrite lookup_insert_ne; [done|]. intros ->. unfold bound in *. congruence. }
    pose proof (held_insert c to span s1 (tracer s) Hto1) as Hi. cbn in Hi. unfold recorded. cbn. lia.
  - destruct (bound to s) as [old|] eqn:Hto; [|done]. destruct (bound from s) as [span|] eqn:Hfrom; [|done].
    case_bool_decide as Hne; [done|]. pose proof (finish_effect c "abandoned" old (tracer s)) as [_ Hlen].
    destruct (finish "abandoned" old (tracer s)) as [gone t]. cbn in Hlen.
    pose proof (held_replace c from span Span.Detached s t Hfrom) as Hh. rewrite nothing_attached in Hh.
    set (s1 := mkScope (<[from := Span.Detached]> (variables s)) t) in *.
    assert (bound to s1 = Some old) as Hto1.
    { unfold bound, s1. cbn. by rewrite lookup_insert_ne by done. }
    pose proof (held_replace c to old span s1 t Hto1) as Hi. cbn in Hi. unfold recorded at 1. cbn. rewrite Hlen. unfold recorded. lia.
  - destruct (bound v s) as [old|] eqn:Hv; [|done]. pose proof (finish_effect c "abandoned" old (tracer s)) as [_ Hlen].
    destruct (finish "abandoned" old (tracer s)) as [gone t]. cbn in Hlen. unfold recorded at 1. cbn. rewrite Hlen.
    pose proof (count_entries_delete (attached_to c) (variables s) v old Hv) as Hh.
    change (count_entries (attached_to c) (delete v (variables s))) with (held c (mkScope (delete v (variables s)) t)) in Hh.
    change (count_entries (attached_to c) (variables s)) with (held c s) in Hh. unfold recorded. lia.
Qed.

(** A span is recorded once. In every history of spans that are started, ended,
    moved, assigned and destroyed, in any order and as often as one likes: the
    records of a trace context and the spans that still hold it together are as
    many as the starts that gave it. So a span is never recorded twice, and once
    no variable holds it, it was recorded. *)
Theorem span_is_recorded_once c ops s :
  (recorded c (span_run ops s) + held c (span_run ops s)
   = count_steps span_step (starts_span c) ops s + (recorded c s + held c s))%nat.
Proof.
  revert s. induction ops as [|o ops IH]; intros s; [done|].
  change (span_run (o :: ops) s) with (span_run ops (span_step o s)). rewrite IH. cbn [count_steps].
  pose proof (span_balance c o s). lia.
Qed.
End span_uses.

(** ** Witnesses *)

(** The example header of the W3C recommendation. *)
Lemma trace_parent_round_trip_witness :
  let value := "00-4bf92f3577b34da6a3ce929d0e0e4736-00f067aa0ba902b7-01" in
  let c := TraceContext.mk "4bf92f3577b34da6a3ce929d0e0e4736" "00f067aa0ba902b7" true in
  TraceContext.parseTraceParent value = Ok c /\
  (trace_ids c /\ TraceContext.parseTraceParent (TraceContext.traceParent c) = Ok c).
Proof.
  intros value c. assert (TraceContext.parseTraceParent value = Ok c) as H by (vm_compute; reflexivity).
  split; [exact H|]. exact (trace_parent_round_trip value c H).
Defined.

(** A quote in a label value is not the end of it. *)
Lemma series_never_merge_witness :
  let labels : Labels := {["path" := String dquote ",method=" +:+ String dquote "GET"]} in
  seriesKey "http_requests" labels = seriesKey "http_requests" labels /\
  ("http_requests" = "http_requests" /\ labels = labels).
Proof.
  intros labels. assert (valid_labels labels) as Hl by (vm_compute; reflexivity).
  assert (validMetricName "http_requests" = true) as Hn by (vm_compute; reflexivity).
  split; [reflexivity|].
  exact (series_never_merge "http_requests" "http_requests" labels labels Hn Hn Hl Hl eq_refl).
Defined.

(** The ceiling holds across families. *)
Example a_full_registry_refuses :
  (increment "b" ∅ dzero (increment "a" ∅ dzero (MetricRegistry.create 1)).2).1
  = fail FailedPrecondition "The metric series limit has been reached.".
Proof. vm_compute. reflexivity. Qed.
