(* ===== verification/Keccak.v ===== *)
(** * openproof.provider.web3: Keccak-256

    Models the hash function that [src/src/providers/web3/web3.cpp] implements
    for itself, lane by lane and loop by loop, and proves it equal to the sponge
    of the Keccak reference, which is written here bit by bit: the step mappings
    and the padding of FIPS 202 with rotation offsets and round constants
    that are generated rather than tabulated, and without the domain bits that
    SHA-3 adds. The self-test the source runs before the first hash passes. *)
From Stdlib Require Import Strings.Byte.
From S2P Require Import Prelude Foundation Encoding.

(** ** Lanes *)

(** An element of an array of lanes; every index of the source is in range. *)
Definition lane (state : list Z) (index : nat) : Z := default 0 (state !! index).

(** [std::rotl] on 64 bits, for shifts between 0 and 63. *)
Definition rotateLeft64 (value : Z) (shift : Z) : Z :=
  if shift =? 0 then value else u64 (Z.lor (Z.shiftl value shift) (Z.shiftr value (64 - shift))).

Definition roundConstants : list Z :=
  [0x0000000000000001; 0x0000000000008082; 0x800000000000808a; 0x8000000080008000;
   0x000000000000808b; 0x0000000080000001; 0x8000000080008081; 0x8000000000008009;
   0x000000000000008a; 0x0000000000000088; 0x0000000080008009; 0x000000008000000a;
   0x000000008000808b; 0x800000000000008b; 0x8000000000008089; 0x8000000000008003;
   0x8000000000008002; 0x8000000000000080; 0x000000000000800a; 0x800000008000000a;
   0x8000000080008081; 0x8000000000008080; 0x0000000080000001; 0x8000000080008008].

Definition rotation : list Z :=
  [ 0;  1; 62; 28; 27;
   36; 44;  6; 55; 20;
    3; 10; 43; 25; 39;
   41; 45; 15; 21;  8;
   18;  2; 61; 56; 14].

(** The double loop of the permutation, [y] outside and [x] inside. *)
Definition for_lanes (body : nat -> nat -> list Z -> list Z) (state : list Z) : list Z :=
  foldl (fun state y => foldl (fun state x => body x y state) state (seq 0 5)) state (seq 0 5).

Definition columns (state : list Z) : list Z :=
  map (fun x => Z.lxor (Z.lxor (Z.lxor (Z.lxor (lane state x) (lane state (x + 5)))
                  (lane state (x + 10))) (lane state (x + 15))) (lane state (x + 20))) (seq 0 5).

Definition delta (columns : list Z) : list Z :=
  map (fun x => Z.lxor (lane columns ((x + 4) mod 5)) (rotateLeft64 (lane columns ((x + 1) mod 5)) 1)) (seq 0 5).

Definition mixColumns (state : list Z) : list Z :=
  let delta := delta (columns state) in
  for_lanes (fun x y state => <[(x + 5 * y)%nat := Z.lxor (lane state (x + 5 * y)) (lane delta x)]> state) state.

Definition permuted (state : list Z) : list Z :=
  for_lanes (fun x y permuted =>
    let targetX := y in
    let targetY := ((2 * x + 3 * y) mod 5)%nat in
    <[(targetX + 5 * targetY)%nat := rotateLeft64 (lane state (x + 5 * y)) (lane rotation (x + 5 * y))]> permuted)
    (replicate 25 0).

Definition mixRows (permuted state : list Z) : list Z :=
  for_lanes (fun x y state =>
    <[(x + 5 * y)%nat :=
        Z.lxor (lane permuted (x + 5 * y))
          (Z.land (u64 (Z.lnot (lane permuted ((x + 1) mod 5 + 5 * y)))) (lane permuted ((x + 2) mod 5 + 5 * y)))]> state)
    state.

Definition keccakRound (state : list Z) (roundConstant : Z) : list Z :=
  let state := mixColumns state in
  let state := mixRows (permuted state) state in
  <[0%nat := Z.lxor (lane state 0) roundConstant]> state.

Definition keccakF1600 (state : list Z) : list Z := foldl keccakRound state roundConstants.

(** ** The sponge *)

Definition loadLittleEndian64 (input : list byte) : Z :=
  foldl (fun value index => Z.lor value (u64 (Z.shiftl (byteValue (default x00 (input !! index))) (Z.of_nat index * 8))))
    0 (seq 0 8).

Definition rateBytes : nat := 136.

(** The lambda [absorb]. *)
Definition absorb (state : list Z) (block : list byte) : list Z :=
  keccakF1600
    (foldl (fun state lane_index =>
       <[lane_index := Z.lxor (lane state lane_index) (loadLittleEndian64 (take 8 (drop (lane_index * 8) block)))]> state)
       state (seq 0 (rateBytes / 8))).

(** The loop over the full blocks: what is left, and the state. *)
Fixpoint absorbBlocks (fuel : nat) (input : list byte) (state : list Z) : list byte * list Z :=
  match fuel with
  | O => (input, state)
  | S fuel =>
      if (rateBytes <=? length input)%nat
      then absorbBlocks fuel (drop rateBytes input) (absorb state (take rateBytes input))
      else (input, state)
  end.

(** [finalBlock], of the octets that are left. *)
Definition finalBlock (input : list byte) : list byte :=
  let block := input ++ replicate (rateBytes - length input) x00 in
  let block := <[length input := toByte (Z.lxor (byteValue (default x00 (block !! length input))) 0x01)]> block in
  <[(rateBytes - 1)%nat := toByte (Z.lxor (byteValue (default x00 (block !! (rateBytes - 1)%nat))) 0x80)]> block.

Definition squeeze (state : list Z) : list byte :=
  map (fun index => toByte (Z.land (Z.shiftr (lane state (index / 8)) (Z.of_nat (index mod 8) * 8)) 0xff)) (seq 0 32).

(** The loop takes one block a round: the length of the input is enough. *)
Definition keccak256Raw (input : list byte) : list byte :=
  let '(input, state) := absorbBlocks (length input) input (replicate 25 0) in
  squeeze (absorb state (finalBlock input)).

Definition selfTestPassed : bool :=
  bool_decide (toHex (keccak256Raw []) = "c5d2460186f7233c927e7db2dcc703c0e500b653ca82273b7bfad8045d85a470")
  && bool_decide (toHex (keccak256Raw (as_bytes "hello"))
                  = "1c8aff950685c2ed4bc3174f3472287b56d9517b9c948127319a09a7a36deac8").

Definition keccak256 (input : list byte) : Result (list byte) :=
  if negb selfTestPassed then fail Internal "The built-in Keccak-256 self-test failed."
  else Ok (keccak256Raw input).

(** [keccak256(std::string_view)]. *)
Definition keccak256Text (input : string) : Result (list byte) := keccak256 (as_bytes input).

Lemma self_test_passes : selfTestPassed = true.
Proof. vm_compute. reflexivity. Qed.

(** ** The reference *)

Module Reference.
(** The state array of FIPS 202, at a column, a row and a bit of a lane. *)
Definition array : Type := nat -> nat -> nat -> bool.

Definition parity (a : array) (x z : nat) : bool :=
  xorb (a x 0%nat z) (xorb (a x 1%nat z) (xorb (a x 2%nat z) (xorb (a x 3%nat z) (a x 4%nat z)))).
Definition theta (a : array) : array := fun x y z =>
  xorb (a x y z) (xorb (parity a ((x + 4) mod 5)%nat z) (parity a ((x + 1) mod 5)%nat ((z + 63) mod 64)%nat)).

(** The walk that visits every lane but the first, and the offset it gives each. *)
Definition walk (t : nat) : nat * nat :=
  Nat.iter t (fun '(x, y) => (y, (2 * x + 3 * y) mod 5)%nat) (1%nat, 0%nat).
Definition offset (x y : nat) : nat :=
  match List.find (fun t => bool_decide (walk t = (x, y))) (seq 0 24) with
  | Some t => ((t + 1) * (t + 2) / 2)%nat
  | None => 0
  end.
Definition rho (a : array) : array := fun x y z => a x y ((z + 64 - offset x y mod 64) mod 64)%nat.

Definition pi (a : array) : array := fun x y z => a ((x + 3 * y) mod 5)%nat x z.

Definition chi (a : array) : array := fun x y z =>
  xorb (a x y z) (negb (a ((x + 1) mod 5)%nat y z) && a ((x + 2) mod 5)%nat y z).

(** The shift register that generates the round constants. *)
Definition shift_register (r : list bool) : list bool :=
  match r with
  | [r0; r1; r2; r3; r4; r5; r6; r7] => [r7; r0; r1; r2; xorb r3 r7; xorb r4 r7; xorb r5 r7; r6]
  | _ => r
  end.
Definition rc (t : nat) : bool :=
  nth 0 (Nat.iter (t mod 255) shift_register [true; false; false; false; false; false; false; false]) false.
(** Bit [2 ^ j - 1] of the constant of a round, and no other. *)
Definition round_constant (round z : nat) : bool :=
  match List.find (fun j => (2 ^ j - 1 =? z)%nat) (seq 0 7) with
  | Some j => rc (j + 7 * round)
  | None => false
  end.
Definition iota (round : nat) (a : array) : array := fun x y z =>
  xorb (a x y z) ((x =? 0)%nat && (y =? 0)%nat && round_constant round z).

Definition rnd (a : array) (round : nat) : array := iota round (chi (pi (rho (theta a)))).

(** A state is a string of 1600 bits. *)
Definition state : Type := nat -> bool.
Definition keccak_f (s : state) : state :=
  let a := foldl rnd (fun x y z => s (64 * (5 * y + x) + z)%nat) (seq 0 24) in
  fun i => a (i / 64 mod 5)%nat (i / 64 / 5)%nat (i mod 64)%nat.

Definition pad (rate length : nat) : list bool :=
  true :: replicate ((rate - (length + 2) mod rate) mod rate) false ++ [true].

Definition rate : nat := 1088.

(** The sponge, with 256 bits squeezed out. *)
Definition keccak256 (message : list bool) : list bool :=
  let padded := message ++ pad rate (length message) in
  let blocks := map (fun i => take rate (drop (i * rate) padded)) (seq 0 (length padded / rate)) in
  let s := foldl (fun (s : state) block => keccak_f (fun i => xorb (s i) (nth i block false))) (fun _ => false) blocks in
  map s (seq 0 256).
End Reference.

(** The bits of an octet string, the least significant of an octet first. *)
Definition byte_bits (b : byte) : list bool := map (fun i => Z.testbit (byteValue b) (Z.of_nat i)) (seq 0 8).
Definition bits (input : list byte) : list bool := flat_map byte_bits input.

(** ** Lanes hold the bits of the state array *)

Definition word (v : Z) : Prop := 0 <= v < 2 ^ 64.

(** Twenty-five words. *)
Record lanes (state : list Z) : Prop := {
  lanes_length : length state = 25%nat;
  lanes_words : Forall word state;
}.

Record holds (a : Reference.array) (state : list Z) : Prop := {
  holds_lanes : lanes state;
  holds_bits x y z : (x < 5)%nat -> (y < 5)%nat -> (z < 64)%nat ->
    Z.testbit (lane state (x + 5 * y)) (Z.of_nat z) = a x y z;
}.

Lemma word_bits v z : word v -> 64 <= z -> Z.testbit v z = false.
Proof.
  intros [H0 H1] Hz. rewrite <- (Z.mod_small v (2 ^ 64)) by done. by apply Z.mod_pow2_bits_high.
Qed.

Lemma word_of_bits v : 0 <= v -> (forall z, 64 <= z -> Z.testbit v z = false) -> word v.
Proof.
  intros H0 Hz. split; [done|]. destruct (Z.lt_ge_cases v (2 ^ 64)) as [|Hge]; [done|].
  assert (v <> 0) as Hv by lia. pose proof (Z.bit_log2 v ltac:(lia)) as Hb.
  rewrite Hz in Hb; [done|]. apply Z.log2_le_pow2; lia.
Qed.

Lemma word_lxor v w : word v -> word w -> word (Z.lxor v w).
Proof.
  intros Hv Hw. apply word_of_bits; [apply Z.lxor_nonneg; unfold word in *; lia|].
  intros z Hz. by rewrite Z.lxor_spec, !word_bits.
Qed.

Lemma word_land v w : word v -> word w -> word (Z.land v w).
Proof.
  intros Hv Hw. apply word_of_bits; [apply Z.land_nonneg; unfold word in *; lia|].
  intros z Hz. by rewrite Z.land_spec, !word_bits.
Qed.

Lemma word_u64 v : word (u64 v).
Proof. by apply Z.mod_pos_bound. Qed.

Lemma word_rotate v shift : word v -> word (rotateLeft64 v shift).
Proof. intros Hv. unfold rotateLeft64. case_match; [done|apply word_u64]. Qed.

Lemma u64_bits v z : 0 <= z < 64 -> Z.testbit (u64 v) z = Z.testbit v z.
Proof. intros Hz. apply Z.mod_pow2_bits_low. lia. Qed.

(** A rotated word at a bit. *)
Lemma rotate_bits v shift z : word v -> (shift < 64)%nat -> (z < 64)%nat ->
  Z.testbit (rotateLeft64 v (Z.of_nat shift)) (Z.of_nat z) = Z.testbit v (Z.of_nat ((z + 64 - shift) mod 64)).
Proof.
  intros Hv Hs Hz. unfold rotateLeft64. destruct (Z.eqb_spec (Z.of_nat shift) 0) as [E|E].
  - assert (shift = 0%nat) as -> by lia. rewrite Nat.sub_0_r. f_equal. f_equal.
    replace (z + 64)%nat with (z + 1 * 64)%nat by lia. rewrite Nat.Div0.mod_add. by rewrite Nat.mod_small.
  - rewrite u64_bits, Z.lor_spec, Z.shiftl_spec, Z.shiftr_spec by lia. destruct (decide (shift <= z)%nat) as [Hle|Hgt].
    + rewrite (word_bits v (Z.of_nat z + (64 - Z.of_nat shift))) by (done || lia). rewrite orb_false_r. f_equal.
      replace (z + 64 - shift)%nat with ((z - shift) + 1 * 64)%nat by lia. rewrite Nat.Div0.mod_add, Nat.mod_small by lia. lia.
    + rewrite (Z.testbit_neg_r v (Z.of_nat z - Z.of_nat shift)) by lia. rewrite orb_false_l. f_equal. rewrite Nat.mod_small by lia. lia.
Qed.

(** An array is the list of its lanes. *)
Lemma lanes_map state : length state = 25%nat -> state = map (lane state) (seq 0 25).
Proof.
  intros Hlen. apply list_eq. intros i. rewrite list_lookup_fmap. destruct (decide (i < 25)%nat) as [Hi|Hi].
  - rewrite lookup_seq_lt by done. cbn. unfold lane. destruct (lookup_lt_is_Some_2 state i) as [v Hv]; [lia|]. by rewrite Hv.
  - rewrite lookup_seq_ge by lia. apply lookup_ge_None. lia.
Qed.

Lemma lanes_words_at state i : lanes state -> word (lane state i).
Proof.
  intros Hs. unfold lane. destruct (state !! i) as [v|] eqn:Hi; [|by split; cbn].
  pose proof (lanes_words _ Hs) as Hw. rewrite Forall_forall in Hw. eapply Hw, list_elem_of_lookup_2, Hi.
Qed.

(** Every lane of the array, one after the other. *)
Ltac each_lane x y :=
  do 5 (destruct x as [|x]; [do 5 (destruct y as [|y]; [cbv -[Z.lxor Z.land Z.lnot u64 rotateLeft64]; reflexivity|]); lia|]); lia.

Definition column (f : nat -> Z) (x : nat) : Z :=
  Z.lxor (Z.lxor (Z.lxor (Z.lxor (f x) (f (x + 5)%nat)) (f (x + 10)%nat)) (f (x + 15)%nat)) (f (x + 20)%nat).

Lemma mixColumns_lane f x y : (x < 5)%nat -> (y < 5)%nat ->
  lane (mixColumns (map f (seq 0 25))) (x + 5 * y)
  = Z.lxor (f (x + 5 * y)%nat)
      (Z.lxor (column f ((x + 4) mod 5)%nat) (rotateLeft64 (column f ((x + 1) mod 5)%nat) 1)).
Proof. intros Hx Hy. each_lane x y. Qed.

Lemma permuted_lane f x y : (x < 5)%nat -> (y < 5)%nat ->
  lane (permuted (map f (seq 0 25))) (x + 5 * y)
  = rotateLeft64 (f (((x + 3 * y) mod 5) + 5 * x)%nat) (lane rotation (((x + 3 * y) mod 5) + 5 * x)).
Proof. intros Hx Hy. each_lane x y. Qed.

Lemma mixRows_lane f g x y : (x < 5)%nat -> (y < 5)%nat ->
  lane (mixRows (map f (seq 0 25)) (map g (seq 0 25))) (x + 5 * y)
  = Z.lxor (f (x + 5 * y)%nat) (Z.land (u64 (Z.lnot (f ((x + 1) mod 5 + 5 * y)%nat))) (f ((x + 2) mod 5 + 5 * y)%nat)).
Proof. intros Hx Hy. each_lane x y. Qed.

(** A loop of the permutation implements a step mapping when each lane does. *)
Lemma holds_intro a state : length state = 25%nat ->
  (forall x y, (x < 5)%nat -> (y < 5)%nat -> word (lane state (x + 5 * y)) /\
     forall z, (z < 64)%nat -> Z.testbit (lane state (x + 5 * y)) (Z.of_nat z) = a x y z) ->
  holds a state.
Proof.
  intros Hlen Hl. split; [split; [done|]|].
  - apply Forall_forall. intros v [i Hi]%list_elem_of_lookup. pose proof (lookup_lt_Some _ _ _ Hi) as Hlt.
    pose proof (Nat.div_mod_eq i 5) as Hdm. pose proof (Nat.mod_upper_bound i 5 ltac:(lia)) as Hm.
    destruct (Hl (i mod 5)%nat (i / 5)%nat) as [Hw _]; [done|lia|]. unfold lane in Hw.
    replace (i mod 5 + 5 * (i / 5))%nat with i in Hw by lia. by rewrite Hi in Hw.
  - intros x y z Hx Hy Hz. by apply Hl.
Qed.

Lemma mod5 n : (n mod 5 < 5)%nat.
Proof. by apply Nat.mod_upper_bound. Qed.
Lemma mod64 n : (n mod 64 < 64)%nat.
Proof. by apply Nat.mod_upper_bound. Qed.
#[local] Hint Resolve mod5 mod64 lanes_words_at holds_lanes word_lxor word_land word_u64 word_rotate : core.

Section step_mappings.
Context (a : Reference.array) (state : list Z) (Hholds : holds a state).

Let state_map : state = map (lane state) (seq 0 25) := lanes_map state (lanes_length _ (holds_lanes _ _ Hholds)).

Lemma word_at i : word (lane state i).
Proof. eauto. Qed.
#[local] Hint Resolve word_at : core.

Lemma word_column x : word (column (lane state) x).
Proof. unfold column. repeat apply word_lxor; apply word_at. Qed.
#[local] Hint Resolve word_column : core.

Lemma column_bits x z : (x < 5)%nat -> (z < 64)%nat ->
  Z.testbit (column (lane state) x) (Z.of_nat z) = Reference.parity a x z.
Proof.
  intros Hx Hz. unfold column, Reference.parity. rewrite !Z.lxor_spec.
  rewrite <- !(holds_bits _ _ Hholds) by lia. rewrite !xorb_assoc.
  repeat f_equal; lia.
Qed.

Lemma theta_holds : holds (Reference.theta a) (mixColumns state).
Proof.
  apply holds_intro; [by rewrite state_map|]. intros x y Hx Hy. rewrite state_map, mixColumns_lane by done.
  split; [eauto 6|]. intros z Hz. rewrite !Z.lxor_spec, (rotate_bits _ 1) by (eauto || lia).
  rewrite (holds_bits _ _ Hholds), !column_bits by eauto. unfold Reference.theta. repeat f_equal. lia.
Qed.

Lemma rotation_offset x y : (x < 5)%nat -> (y < 5)%nat ->
  lane rotation (x + 5 * y) = Z.of_nat (Reference.offset x y mod 64).
Proof.
  intros Hx Hy.
  do 5 (destruct x as [|x]; [do 5 (destruct y as [|y]; [vm_compute; reflexivity|]); lia|]); lia.
Qed.

Lemma rho_pi_holds : holds (Reference.pi (Reference.rho a)) (permuted state).
Proof.
  apply holds_intro; [by rewrite state_map|]. intros x y Hx Hy. rewrite state_map, permuted_lane by done.
  split; [eauto|]. intros z Hz. rewrite rotation_offset by eauto. rewrite rotate_bits by eauto.
  by rewrite (holds_bits _ _ Hholds) by eauto.
Qed.

Lemma chi_holds other : length other = 25%nat -> holds (Reference.chi a) (mixRows state other).
Proof.
  intros Ho. rewrite (lanes_map other Ho). apply holds_intro; [by rewrite state_map|].
  intros x y Hx Hy. rewrite state_map, mixRows_lane by done. split; [eauto 6|].
  intros z Hz. rewrite Z.lxor_spec, Z.land_spec, u64_bits, Z.lnot_spec by lia. by rewrite !(holds_bits _ _ Hholds) by eauto.
Qed.

Lemma iota_holds round c : roundConstants !! round = Some c ->
  holds (Reference.iota round a) (<[0%nat := Z.lxor (lane state 0) c]> state).
Proof.
  intros Hc. pose proof (lanes_length _ (holds_lanes _ _ Hholds)) as Hlen.
  assert (word c /\ forall z, (z < 64)%nat -> Z.testbit c (Z.of_nat z) = Reference.round_constant round z) as [Hw Hbits].
  { pose proof (lookup_lt_Some _ _ _ Hc) as Hr. cbn in Hr.
    assert (forallb (fun round => let c := lane roundConstants round in
              bool_decide (0 <= c < 2 ^ 64)
              && forallb (fun z => bool_decide (Z.testbit c (Z.of_nat z) = Reference.round_constant round z)) (seq 0 64))
              (seq 0 24) = true) as Hall by (vm_compute; reflexivity).
    rewrite forallb_forall in Hall. specialize (Hall round ltac:(apply in_seq; lia)). cbv zeta in Hall.
    unfold lane in Hall. rewrite Hc in Hall. cbn [default] in Hall. apply andb_true_iff in Hall as [Hw Hz].
    split; [by apply bool_decide_eq_true in Hw|]. intros z Hz'. rewrite forallb_forall in Hz.
    specialize (Hz z ltac:(apply in_seq; lia)). by apply bool_decide_eq_true in Hz. }
  apply holds_intro; [by rewrite length_insert|]. intros x y Hx Hy. unfold Reference.iota.
  destruct (decide (x = 0 /\ y = 0)%nat) as [[-> ->]|Hne].
  - cbn [Nat.add Nat.mul]. unfold lane at 1 3. rewrite list_lookup_insert_eq by lia. unfold from_option, id. split; [eauto|].
    intros z Hz. rewrite Z.lxor_spec, Hbits by done. f_equal. by apply (holds_bits _ _ Hholds 0 0 z).
  - unfold lane. rewrite list_lookup_insert_ne by lia. fold (lane state (x + 5 * y)). split; [eauto|]. intros z Hz.
    replace ((x =? 0)%nat && (y =? 0)%nat) with false.
    + rewrite xorb_false_r. by apply (holds_bits _ _ Hholds).
    + symmetry. apply andb_false_iff. rewrite !Nat.eqb_neq. lia.
Qed.
End step_mappings.

(** ** The permutation *)

Lemma round_holds a state round c : holds a state -> roundConstants !! round = Some c ->
  holds (Reference.rnd a round) (keccakRound state c).
Proof.
  intros Hs Hc. apply iota_holds; [|done]. apply chi_holds; [by apply rho_pi_holds, theta_holds|].
  apply lanes_length. eapply holds_lanes, theta_holds, Hs.
Qed.

Lemma rounds_hold a state n : holds a state -> (n <= 24)%nat ->
  holds (foldl Reference.rnd a (seq 0 n)) (foldl keccakRound state (take n roundConstants)).
Proof.
  intros Hs. induction n as [|n IH]; intros Hn; [done|].
  destruct (lookup_lt_is_Some_2 roundConstants n) as [c Hc]; [cbn; lia|].
  rewrite (take_S_r _ _ c) by done. rewrite seq_S, !foldl_app. cbn [foldl Nat.add]. apply round_holds; [apply IH; lia|done].
Qed.

(** The words hold the 1600 bits of a string. *)
Definition holds_string (s : Reference.state) (state : list Z) : Prop :=
  holds (fun x y z => s (64 * (5 * y + x) + z)%nat) state.

Lemma string_bits s state i : holds_string s state -> (i < 1600)%nat ->
  Z.testbit (lane state (i / 64)) (Z.of_nat (i mod 64)) = s i.
Proof.
  intros Hs Hi. pose proof (Nat.div_mod_eq i 64). pose proof (mod64 i). pose proof (Nat.div_mod_eq (i / 64) 5).
  pose proof (mod5 (i / 64)).
  replace (i / 64)%nat with ((i / 64) mod 5 + 5 * (i / 64 / 5))%nat at 1 by lia.
  rewrite (holds_bits _ _ Hs) by lia. f_equal. lia.
Qed.

Lemma lane_index x y z : (x < 5)%nat -> (z < 64)%nat ->
  ((64 * (5 * y + x) + z) / 64 = 5 * y + x /\ (64 * (5 * y + x) + z) mod 64 = z
   /\ (5 * y + x) mod 5 = x /\ (5 * y + x) / 5 = y)%nat.
Proof.
  intros Hx Hz. replace (64 * (5 * y + x) + z)%nat with (z + (5 * y + x) * 64)%nat by lia.
  replace (5 * y + x)%nat with (x + y * 5)%nat by lia.
  rewrite !Nat.Div0.mod_add, !Nat.div_add, !Nat.mod_small, !Nat.div_small by lia. lia.
Qed.

Lemma keccak_f_implemented s state : holds_string s state -> holds_string (Reference.keccak_f s) (keccakF1600 state).
Proof.
  intros Hs. pose proof (rounds_hold _ _ 24 Hs ltac:(lia)) as Hr. destruct Hr as [Hl Hb]. split; [exact Hl|].
  intros x y z Hx Hy Hz. unfold Reference.keccak_f. destruct (lane_index x y z Hx Hz) as (-> & -> & -> & ->). by apply Hb.
Qed.

(** ** Octets and bits *)

Lemma byte_high b i : 8 <= i -> Z.testbit (byteValue b) i = false.
Proof.
  intros Hi. pose proof (byteValue_range b) as Hb. rewrite <- (Z.mod_small (byteValue b) (2 ^ 8)) by lia.
  apply Z.mod_pow2_bits_high. lia.
Qed.

Definition octet (input : list byte) (index : nat) : Z := byteValue (default x00 (input !! index)).

Lemma bits_length input : length (bits input) = (8 * length input)%nat.
Proof. unfold bits. induction input as [|b input IH]; [done|]. cbn [flat_map]. rewrite length_app, IH. cbn. lia. Qed.

Lemma bits_app a b : bits (a ++ b) = bits a ++ bits b.
Proof. apply flat_map_app. Qed.

Lemma bits_nth input i : nth i (bits input) false = Z.testbit (octet input (i / 8)) (Z.of_nat (i mod 8)).
Proof.
  revert i. induction input as [|b input IH]; intros i.
  - unfold octet. cbn [bits flat_map]. rewrite nth_overflow by (cbn; lia). change (byteValue (default x00 ([] !! _))) with 0. by rewrite Z.bits_0.
  - change (bits (b :: input)) with (byte_bits b ++ bits input). destruct (decide (i < 8)%nat) as [Hi|Hi].
    + rewrite app_nth1 by done. rewrite Nat.div_small, Nat.mod_small by done. unfold octet. cbn [lookup list_lookup default].
      do 8 (destruct i as [|i]; [reflexivity|]). lia.
    + rewrite app_nth2 by (cbn; lia). change (length (byte_bits b)) with 8%nat. rewrite IH. unfold octet.
      replace i with ((i - 8) + 1 * 8)%nat at 3 4 by lia. rewrite Nat.Div0.mod_add, Nat.div_add by lia. by rewrite Nat.add_1_r.
Qed.

Lemma take_drop_nth {A} (l : list A) (d : A) n k i : (i < n)%nat -> nth i (take n (drop k l)) d = nth (k + i) l d.
Proof.
  intros Hi. rewrite !nth_lookup, lookup_take_lt, lookup_drop by done. done.
Qed.

Lemma shifted_octet input k z :
  Z.testbit (octet input k) (Z.of_nat z - Z.of_nat k * 8)
  = (z / 8 =? k)%nat && Z.testbit (octet input (z / 8)) (Z.of_nat (z mod 8)).
Proof.
  pose proof (Nat.div_mod_eq z 8) as Hdm. pose proof (Nat.mod_upper_bound z 8 ltac:(lia)) as Hm.
  destruct (Nat.eqb_spec (z / 8) k) as [<-|Hne]; [cbn [andb]; f_equal; lia|].
  destruct (decide (z / 8 < k)%nat); [by rewrite Z.testbit_neg_r by lia|]. apply byte_high. lia.
Qed.

Lemma load_bits input z : (z < 64)%nat ->
  Z.testbit (loadLittleEndian64 input) (Z.of_nat z) = Z.testbit (octet input (z / 8)) (Z.of_nat (z mod 8)).
Proof.
  intros Hz. unfold loadLittleEndian64. cbn [seq foldl].
  rewrite !Z.lor_spec, !u64_bits, !Z.shiftl_spec, Z.bits_0 by lia. fold (octet input 0) (octet input 1) (octet input 2)
    (octet input 3) (octet input 4) (octet input 5) (octet input 6) (octet input 7).
  rewrite !shifted_octet. set (b := Z.testbit _ _). assert (z / 8 < 8)%nat as Hk by (apply Nat.Div0.div_lt_upper_bound; lia).
  revert Hk. generalize (z / 8)%nat. intros k Hk. do 8 (destruct k as [|k]; [cbn; by rewrite ?orb_false_r|]). lia.
Qed.

Lemma word_lor v w : word v -> word w -> word (Z.lor v w).
Proof.
  intros Hv Hw. apply word_of_bits; [apply Z.lor_nonneg; unfold word in *; lia|].
  intros z Hz. by rewrite Z.lor_spec, !word_bits.
Qed.

Lemma word_load input : word (loadLittleEndian64 input).
Proof. unfold loadLittleEndian64. cbn [seq foldl]. by repeat apply word_lor; try apply word_u64. Qed.

(** ** Absorbing *)

Lemma absorbed_lane f block j : (j < 25)%nat ->
  lane (foldl (fun state index =>
          <[index := Z.lxor (lane state index) (loadLittleEndian64 (take 8 (drop (index * 8) block)))]> state)
          (map f (seq 0 25)) (seq 0 (rateBytes / 8))) j
  = if (j <? 17)%nat then Z.lxor (f j) (loadLittleEndian64 (take 8 (drop (j * 8) block))) else f j.
Proof.
  intros Hj. do 25 (destruct j as [|j]; [cbv -[Z.lxor loadLittleEndian64 take drop]; reflexivity|]). lia.
Qed.

Lemma octet_slice block j k : (k < 8)%nat -> octet (take 8 (drop (j * 8) block)) k = octet block (j * 8 + k).
Proof. intros Hk. unfold octet. by rewrite lookup_take_lt, lookup_drop by done. Qed.

Lemma absorb_implemented s state block : holds_string s state -> length block = rateBytes ->
  holds_string (Reference.keccak_f (fun i => xorb (s i) (nth i (bits block) false))) (absorb state block).
Proof.
  intros Hs Hlen. apply keccak_f_implemented. pose proof (lanes_length _ (holds_lanes _ _ Hs)) as Hl.
  rewrite (lanes_map state Hl). apply holds_intro; [done|]. intros x y Hx Hy. rewrite absorbed_lane by lia.
  assert (word (lane state (x + 5 * y))) as Hw by (apply lanes_words_at, (holds_lanes _ _ Hs)).
  assert (forall z, (z < 64)%nat ->
    nth (64 * (5 * y + x) + z) (bits block) false
    = Z.testbit (octet block ((x + 5 * y) * 8 + z / 8)) (Z.of_nat (z mod 8))) as Hbit.
  { intros z Hz. rewrite bits_nth. replace (64 * (5 * y + x) + z)%nat with (z + ((x + 5 * y) * 8) * 8)%nat by lia.
    rewrite Nat.Div0.mod_add, Nat.div_add by lia. by rewrite Nat.add_comm. }
  destruct (Nat.ltb_spec (x + 5 * y) 17) as [Hin|Hout].
  - split; [by apply word_lxor, word_load|]. intros z Hz.
    rewrite Z.lxor_spec, load_bits, octet_slice, Hbit by (done || apply Nat.Div0.div_lt_upper_bound; lia).
    f_equal. by apply (holds_bits _ _ Hs).
  - split; [done|]. intros z Hz. rewrite Hbit by done.
    assert (octet block ((x + 5 * y) * 8 + z / 8) = 0) as ->.
    { unfold octet. rewrite lookup_ge_None_2; [done|]. rewrite Hlen. unfold rateBytes. lia. }
    rewrite Z.bits_0, xorb_false_r. by apply (holds_bits _ _ Hs).
Qed.

(** ** Padding *)

Lemma octet_insert input k v i : (k < length input)%nat ->
  octet (<[k := toByte v]> input) i = if (i =? k)%nat then v mod 256 else octet input i.
Proof.
  intros Hk. unfold octet. destruct (Nat.eqb_spec i k) as [->|Hne].
  - rewrite list_lookup_insert_eq by done. apply byteValue_toByte.
  - by rewrite list_lookup_insert_ne by done.
Qed.

Lemma octet_zeros input n i : octet (input ++ replicate n x00) i = octet input i.
Proof.
  unfold octet. destruct (decide (i < length input)%nat) as [Hi|Hi]; [by rewrite lookup_app_l|].
  rewrite lookup_app_r, (lookup_ge_None_2 input) by lia. cbn.
  destruct (replicate n x00 !! (i - length input)%nat) as [b|] eqn:Hb; [|done]. by apply lookup_replicate in Hb as [-> _].
Qed.

Lemma octet_range input i : 0 <= octet input i < 256.
Proof. apply byteValue_range. Qed.

Lemma lxor_octet v m : 0 <= v < 256 -> 0 <= m < 256 -> Z.lxor v m mod 256 = Z.lxor v m.
Proof.
  intros Hv Hm. apply Z.bits_inj'. intros i Hi. destruct (Z.lt_ge_cases i 8) as [Hlt|Hge].
  - change 256 with (2 ^ 8). by rewrite Z.mod_pow2_bits_low.
  - change 256 with (2 ^ 8). rewrite Z.mod_pow2_bits_high by lia. rewrite Z.lxor_spec.
    rewrite <- (Z.mod_small v (2 ^ 8)), <- (Z.mod_small m (2 ^ 8)) by lia. by rewrite !Z.mod_pow2_bits_high by lia.
Qed.

Lemma finalBlock_length input : (length input < rateBytes)%nat -> length (finalBlock input) = rateBytes.
Proof. intros Hn. unfold finalBlock. rewrite !length_insert, length_app, length_replicate. lia. Qed.

Lemma finalBlock_octet input i : (length input < rateBytes)%nat ->
  octet (finalBlock input) i
  = Z.lxor (Z.lxor (octet input i) (if (i =? length input)%nat then 1 else 0)) (if (i =? 135)%nat then 128 else 0).
Proof.
  intros Hn. unfold finalBlock. set (block := input ++ _).
  assert (length block = rateBytes) as Hl by (unfold block; rewrite length_app, length_replicate; lia).
  assert (forall j, octet block j = octet input j) as Hb by (intros j; apply octet_zeros).
  fold (octet block (length input)). set (marked := <[length input := _]> block).
  assert (forall j, octet marked j = Z.lxor (octet input j) (if (j =? length input)%nat then 1 else 0)) as Hm.
  { intros j. unfold marked. rewrite octet_insert, Hb by lia. destruct (Nat.eqb_spec j (length input)) as [->|];
      [apply lxor_octet; [apply octet_range|lia]|by rewrite Hb, Z.lxor_0_r]. }
  fold (octet marked (rateBytes - 1)). rewrite octet_insert by (unfold marked; rewrite length_insert, Hl; unfold rateBytes; lia).
  change (rateBytes - 1)%nat with 135%nat. rewrite Hm, <- Hm. destruct (Nat.eqb_spec i 135) as [->|]; [|by rewrite Hm, Z.lxor_0_r].
  rewrite Hm. apply lxor_octet; [rewrite <- Hm; apply octet_range|lia].
Qed.

(** The padding of a message that ends in a block of [n] octets. *)
Lemma pad_last q n : (n < rateBytes)%nat ->
  Reference.pad Reference.rate (8 * (q * rateBytes + n)) = true :: replicate (1086 - 8 * n) false ++ [true].
Proof.
  intros Hn. unfold Reference.pad. do 3 f_equal. change Reference.rate with 1088%nat. unfold rateBytes in *.
  replace (8 * (q * 136 + n) + 2)%nat with ((8 * n + 2) + q * 1088)%nat by lia. rewrite Nat.Div0.mod_add.
  rewrite (Nat.mod_small (8 * n + 2)), Nat.mod_small by lia. lia.
Qed.

Lemma finalBlock_bits input : (length input < rateBytes)%nat ->
  bits (finalBlock input) = bits input ++ true :: replicate (1086 - 8 * length input) false ++ [true].
Proof.
  intros Hn. assert (length (bits (finalBlock input)) = 1088%nat) as Hl1 by (rewrite bits_length, finalBlock_length; done).
  apply (nth_ext _ _ false false).
  { rewrite Hl1, length_app, bits_length. cbn [length]. rewrite length_app, length_replicate. cbn [length]. unfold rateBytes in Hn. lia. }
  intros i Hi. rewrite Hl1 in Hi. rewrite bits_nth, finalBlock_octet, !Z.lxor_spec, <- bits_nth by done.
  pose proof (Nat.div_mod_eq i 8) as Hdm. pose proof (Nat.mod_upper_bound i 8 ltac:(lia)) as Hm. unfold rateBytes in Hn.
  assert (Z.testbit (if (i / 8 =? length input)%nat then 1 else 0) (Z.of_nat (i mod 8)) = (i =? 8 * length input)%nat) as ->.
  { destruct (Nat.eqb_spec (i / 8) (length input)) as [E|E].
    - revert Hdm Hm. generalize (i mod 8)%nat. intros m -> Hm. rewrite E. do 8 (destruct m as [|m]; [cbn [Z.testbit Z.of_nat]; symmetry; first [apply Nat.eqb_eq|apply Nat.eqb_neq]; lia|]). lia.
    - rewrite Z.bits_0. symmetry. apply Nat.eqb_neq. lia. }
  assert (Z.testbit (if (i / 8 =? 135)%nat then 128 else 0) (Z.of_nat (i mod 8)) = (i =? 1087)%nat) as ->.
  { destruct (Nat.eqb_spec (i / 8) 135) as [E|E].
    - revert Hdm Hm. generalize (i mod 8)%nat. intros m -> Hm. rewrite E. do 8 (destruct m as [|m]; [reflexivity|]). lia.
    - rewrite Z.bits_0. symmetry. apply Nat.eqb_neq. lia. }
  destruct (decide (i < 8 * length input)%nat) as [Hlt|Hge].
  - rewrite app_nth1 by (rewrite bits_length; lia). replace (i =? 8 * length input)%nat with false by (symmetry; apply Nat.eqb_neq; lia).
    replace (i =? 1087)%nat with false by (symmetry; apply Nat.eqb_neq; lia). by rewrite !xorb_false_r.
  - rewrite (nth_overflow (bits input)) by (rewrite bits_length; lia). rewrite app_nth2 by (rewrite bits_length; lia). rewrite bits_length.
    destruct (Nat.eqb_spec i (8 * length input)) as [->|Hne].
    + rewrite Nat.sub_diag. replace (8 * length input =? 1087)%nat with false by (symmetry; apply Nat.eqb_neq; lia). done.
    + replace (i - 8 * length input)%nat with (S (i - 8 * length input - 1)) by lia. cbn [nth].
      destruct (Nat.eqb_spec i 1087) as [->|Hne'].
      * rewrite app_nth2 by (rewrite length_replicate; lia). rewrite length_replicate.
        replace (1087 - 8 * length input - 1 - (1086 - 8 * length input))%nat with 0%nat by lia. done.
      * rewrite app_nth1 by (rewrite length_replicate; lia). by rewrite nth_lookup, lookup_replicate_2 by lia.
Qed.

(** ** The sponge *)

Definition chunks (q : nat) (input : list byte) : list (list byte) :=
  map (fun i => take rateBytes (drop (i * rateBytes) input)) (seq 0 q).

Definition absorb_bits (s : Reference.state) (block : list bool) : Reference.state :=
  Reference.keccak_f (fun i => xorb (s i) (nth i block false)).

Lemma chunks_cons q input : chunks (S q) input = take rateBytes input :: chunks q (drop rateBytes input).
Proof.
  unfold chunks. cbn [seq map]. rewrite Nat.mul_0_l, drop_0. f_equal. rewrite <- seq_shift, map_map.
  apply map_ext. intros i. by rewrite drop_drop, Nat.mul_succ_l, Nat.add_comm.
Qed.

Lemma absorbBlocks_chunks q rest fuel input state : (q <= fuel)%nat -> length input = (q * rateBytes + rest)%nat -> (rest < rateBytes)%nat ->
  absorbBlocks fuel input state = (drop (q * rateBytes) input, foldl absorb state (chunks q input)).
Proof.
  revert fuel input state. induction q as [|q IH]; intros fuel input state Hf Hl Hr.
  - rewrite Nat.mul_0_l, drop_0. destruct fuel; [done|]. cbn [absorbBlocks].
    destruct (Nat.leb_spec rateBytes (length input)); [lia|done].
  - destruct fuel as [|fuel]; [lia|]. cbn [absorbBlocks]. destruct (Nat.leb_spec rateBytes (length input)); [|lia].
    rewrite IH by (rewrite ?length_drop; lia). rewrite chunks_cons, drop_drop. do 2 f_equal; lia.
Qed.

Lemma absorb_all s state blocks : holds_string s state -> Forall (fun block => length block = rateBytes) blocks ->
  holds_string (foldl absorb_bits s (map bits blocks)) (foldl absorb state blocks).
Proof.
  intros Hs Hb. revert s state Hs. induction Hb as [|block blocks Hl _ IH]; intros s state Hs; [done|].
  cbn [map foldl]. by apply IH, absorb_implemented.
Qed.

Lemma bits_take n input : bits (take n input) = take (8 * n) (bits input).
Proof.
  revert n. induction input as [|b input IH]; intros n; [rewrite take_nil; change (bits []) with (@nil bool); by rewrite take_nil|]. destruct n as [|n]; [done|].
  cbn [take]. change (bits (b :: ?l)) with (byte_bits b ++ bits l). rewrite IH.
  replace (8 * S n)%nat with (8 + 8 * n)%nat by lia. done.
Qed.

Lemma bits_drop n input : bits (drop n input) = drop (8 * n) (bits input).
Proof.
  revert n. induction input as [|b input IH]; intros n; [rewrite drop_nil; change (bits []) with (@nil bool); by rewrite drop_nil|]. destruct n as [|n]; [done|].
  cbn [drop]. rewrite IH. replace (8 * S n)%nat with (8 + 8 * n)%nat by lia. done.
Qed.

Lemma chunks_bits q input :
  map bits (chunks q input)
  = map (fun i => take Reference.rate (drop (i * Reference.rate) (bits input))) (seq 0 q).
Proof.
  unfold chunks. rewrite map_map. apply map_ext. intros i. rewrite bits_take, bits_drop.
  change (8 * rateBytes)%nat with Reference.rate. do 2 f_equal. change Reference.rate with (8 * rateBytes)%nat. lia.
Qed.

Lemma zero_state : holds_string (fun _ => false) (replicate 25 0).
Proof.
  apply holds_intro; [done|]. intros x y Hx Hy.
  assert (lane (replicate 25 0) (x + 5 * y) = 0) as ->.
  { unfold lane. destruct (replicate 25 0 !! (x + 5 * y)%nat) as [v|] eqn:Hv; [by apply lookup_replicate in Hv as [-> _]|done]. }
  split; [by split; cbn|]. intros z _. apply Z.bits_0.
Qed.

Lemma squeeze_bits s state : holds_string s state -> bits (squeeze state) = map s (seq 0 256).
Proof.
  intros Hs. apply (nth_ext _ _ false (s 0%nat)); [by rewrite bits_length, length_map, length_seq|].
  intros i Hi. rewrite bits_length in Hi. change (8 * length (squeeze state))%nat with 256%nat in Hi.
  rewrite bits_nth, (map_nth s), seq_nth by done. cbn [Nat.add]. rewrite <- (string_bits s state) by (done || lia).
  pose proof (Nat.mod_upper_bound i 8 ltac:(lia)) as Hm.
  assert (i / 8 < 32)%nat as Hk by (apply Nat.Div0.div_lt_upper_bound; lia).
  unfold octet, squeeze. rewrite list_lookup_fmap, lookup_seq_lt by done. cbn [fmap option_fmap option_map default].
  unfold from_option, id. rewrite byteValue_toByte, Nat.add_0_l. change 256 with (2 ^ 8). rewrite Z.mod_pow2_bits_low by lia.
  rewrite Z.land_spec, Z.shiftr_spec by lia. change 0xff with (Z.ones 8). rewrite Z.ones_spec_low, andb_true_r by lia.
  rewrite Nat.Div0.div_div. change (8 * 8)%nat with 64%nat. f_equal.
  change 64%nat with (8 * 8)%nat. rewrite Nat.Div0.mod_mul_r. lia.
Qed.

(** C28: The hash is Keccak-256. For every input the digest is, bit for bit, what the
    sponge of the reference gives: the theta, rho, pi, chi and iota mappings with
    generated offsets and constants, 24 rounds, a rate of 1088 bits and the
    multi-rate padding; the self-test never refuses to hash. *)
Theorem keccak256_is_keccak input :
  exists digest, keccak256 input = Ok digest /\ length digest = 32%nat /\ bits digest = Reference.keccak256 (bits input).
Proof.
  exists (keccak256Raw input). unfold keccak256. rewrite self_test_passes. split; [done|].
  pose proof (Nat.div_mod_eq (length input) rateBytes) as Hdm. pose proof (Nat.mod_upper_bound (length input) rateBytes ltac:(done)) as Hm.
  set (q := (length input / rateBytes)%nat) in *. set (n := (length input mod rateBytes)%nat) in *.
  assert (length input = q * rateBytes + n)%nat as Hl by lia. unfold keccak256Raw.
  rewrite (absorbBlocks_chunks q n) by (done || unfold rateBytes in *; lia). split; [done|].
  set (rest := drop (q * rateBytes) input). assert (length rest = n) as Hr by (unfold rest; rewrite length_drop; lia).
  assert (bits input ++ Reference.pad Reference.rate (length (bits input))
          = bits (take (q * rateBytes) input ++ finalBlock rest)) as Hpad.
  { rewrite bits_length, Hl, pad_last, bits_app, finalBlock_bits by lia. rewrite Hr, app_assoc, <- bits_app.
    unfold rest. by rewrite take_drop. }
  rewrite (squeeze_bits (foldl absorb_bits (fun _ => false) (map bits (chunks (S q) (take (q * rateBytes) input ++ finalBlock rest))))).
  - unfold Reference.keccak256. rewrite Hpad, chunks_bits. do 3 f_equal. rewrite bits_length, length_app, length_take, finalBlock_length by lia.
    replace (8 * ((q * rateBytes) `min` length input + rateBytes))%nat with (S q * Reference.rate)%nat
      by (change Reference.rate with (8 * rateBytes)%nat; unfold rateBytes in *; lia). by rewrite Nat.div_mul.
  - assert (chunks (S q) (take (q * rateBytes) input ++ finalBlock rest) = chunks q input ++ [finalBlock rest]) as ->.
    { unfold chunks. rewrite seq_S, map_app. cbn [map Nat.add]. f_equal.
      - apply map_ext_in. intros i Hi%in_seq. rewrite drop_app_le by (rewrite length_take; nia).
        rewrite take_app_le by (rewrite length_drop, length_take; nia). rewrite !take_drop_commute, take_take.
        do 2 f_equal. nia.
      - rewrite drop_app_length' by (rewrite length_take; lia). by rewrite take_ge by (rewrite finalBlock_length; lia). }
    rewrite <- (foldl_snoc absorb).
    apply absorb_all; [apply zero_state|]. apply Forall_app. split; [|constructor; [apply finalBlock_length; lia|done]].
    unfold chunks. apply Forall_map, Forall_seq. intros i Hi. rewrite length_take, length_drop. nia.
Qed.
