(* ===== verification/Calendar.v ===== *)
(** * openproof.foundation:time: instants as text

    Models [toIso8601] of [src/src/foundation/time.cpp] and the two functions of
    [src/src/providers/web3/web3.cpp] that read such a text back, over the civil
    calendar of [std::chrono]: the proleptic Gregorian calendar, by the day
    counts of its eras of 400 years. Reading inverts writing for
    every instant of the years 0 to 9999. *)
From S2P Require Import Prelude Foundation Encoding Wire.

(** ** [std::chrono::year_month_day] *)

Record year_month_day := { ymd_year : Z; ymd_month : Z; ymd_day : Z }.

Definition is_leap (year : Z) : bool :=
  (year mod 4 =? 0) && (negb (year mod 100 =? 0) || (year mod 400 =? 0)).

Definition last_day (year month : Z) : Z :=
  if month =? 2 then if is_leap year then 29 else 28
  else if (month =? 4) || (month =? 6) || (month =? 9) || (month =? 11) then 30 else 31.

Definition ymd_ok (date : year_month_day) : bool :=
  (1 <=? ymd_month date) && (ymd_month date <=? 12) && (1 <=? ymd_day date)
  && (ymd_day date <=? last_day (ymd_year date) (ymd_month date)).

(** The days of a year that begins in March and of the years of an era before it. *)
Definition days_before (year_of_era : Z) : Z := 365 * year_of_era + year_of_era / 4 - year_of_era / 100.
Definition day_of_year (month day : Z) : Z := (153 * (if 2 <? month then month - 3 else month + 9) + 2) / 5 + day - 1.

(** [std::chrono::sys_days] of a date, and the date of a day: days since 1970-01-01. *)
Definition sys_days (date : year_month_day) : Z :=
  let year := if ymd_month date <=? 2 then ymd_year date - 1 else ymd_year date in
  year / 400 * 146097 + days_before (year mod 400) + day_of_year (ymd_month date) (ymd_day date) - 719468.

Definition year_of_era (day_of_era : Z) : Z :=
  (day_of_era - day_of_era / 1460 + day_of_era / 36524 - day_of_era / 146096) / 365.

Definition civil (days : Z) : year_month_day :=
  let era := (days + 719468) / 146097 in
  let day_of_era := (days + 719468) mod 146097 in
  let year := year_of_era day_of_era in
  let day := day_of_era - days_before year in
  let month := (5 * day + 2) / 153 in
  let civil_month := if month <? 10 then month + 3 else month - 9 in
  {| ymd_year := year + era * 400 + (if civil_month <=? 2 then 1 else 0);
     ymd_month := civil_month;
     ymd_day := day - (153 * month + 2) / 5 + 1 |}.

Section civil.
Variable day_of_era : Z.
Hypothesis Hday : 0 <= day_of_era < 146097.

Lemma year_of_era_range : 0 <= year_of_era day_of_era < 400.
Proof. unfold year_of_era. Z.to_euclidean_division_equations. lia. Qed.

Lemma year_of_era_start : 0 <= day_of_era - days_before (year_of_era day_of_era).
Proof. pose proof year_of_era_range. unfold days_before, year_of_era in *. Z.to_euclidean_division_equations. lia. Qed.

Lemma year_of_era_end : day_of_era - days_before (year_of_era day_of_era) <= 365.
Proof. pose proof year_of_era_range. unfold days_before, year_of_era in *. Z.to_euclidean_division_equations. lia. Qed.

(** Only a year that ends in a leap February has 366 days. *)
Lemma year_of_era_leap : day_of_era - days_before (year_of_era day_of_era) = 365 -> is_leap (year_of_era day_of_era + 1) = true.
Proof.
  intros H. pose proof year_of_era_range. unfold is_leap.
  assert ((year_of_era day_of_era + 1) mod 4 = 0 /\
          ((year_of_era day_of_era + 1) mod 100 <> 0 \/ (year_of_era day_of_era + 1) mod 400 = 0)) as [-> Hc].
  { unfold days_before, year_of_era in *. Z.to_euclidean_division_equations. lia. }
  rewrite Z.eqb_refl. cbn [andb]. apply orb_true_iff. rewrite negb_true_iff, Z.eqb_neq, Z.eqb_eq. done.
Qed.
End civil.

(** The months of a year, day by day. *)
Lemma months_of_year day : 0 <= day <= 365 ->
  let month := (5 * day + 2) / 153 in
  let civil_month := if month <? 10 then month + 3 else month - 9 in
  let d := day - (153 * month + 2) / 5 + 1 in
  1 <= civil_month <= 12 /\ 1 <= d /\ day_of_year civil_month d = day /\
  (if civil_month =? 2 then d <= (if day =? 365 then 29 else 28)
   else d <= (if (civil_month =? 4) || (civil_month =? 6) || (civil_month =? 9) || (civil_month =? 11) then 30 else 31)).
Proof.
  intros Hday. rewrite <- (Z2Nat.id day) by lia. assert (Z.to_nat day < 366)%nat as Hn by lia. revert Hn.
  generalize (Z.to_nat day). clear. intros n Hn.
  assert (forallb (fun n => let day := Z.of_nat n in
    let month := (5 * day + 2) / 153 in
    let civil_month := if month <? 10 then month + 3 else month - 9 in
    let d := day - (153 * month + 2) / 5 + 1 in
    (1 <=? civil_month) && (civil_month <=? 12) && (1 <=? d) && (day_of_year civil_month d =? day)
    && (d <=? if civil_month =? 2 then (if day =? 365 then 29 else 28)
        else if (civil_month =? 4) || (civil_month =? 6) || (civil_month =? 9) || (civil_month =? 11) then 30 else 31))
    (seq 0 366) = true) as Hall by (vm_compute; reflexivity).
  rewrite forallb_forall in Hall. specialize (Hall n ltac:(apply in_seq; lia)). cbv zeta in *. bool_prop.
  repeat split; try lia. case_match; lia.
Qed.

(** Every day has a date that exists, and the date gives the day back. *)
Lemma civil_sys_days days : sys_days (civil days) = days /\ ymd_ok (civil days) = true.
Proof.
  pose proof (Z.mod_pos_bound (days + 719468) 146097 ltac:(lia)) as Hd.
  pose proof (Z.div_mod (days + 719468) 146097 ltac:(lia)) as Hdm.
  unfold civil. set (era := (days + 719468) / 146097) in *. set (doe := (days + 719468) mod 146097) in *.
  pose proof (year_of_era_range doe Hd) as Hy. pose proof (year_of_era_start doe Hd) as Hs.
  pose proof (year_of_era_end doe Hd) as He. pose proof (year_of_era_leap doe Hd) as Hleap.
  set (year := year_of_era doe) in *. set (day := doe - days_before year) in *.
  destruct (months_of_year day ltac:(lia)) as (Hm & H1 & Hdoy & Hlast).
  set (month := (5 * day + 2) / 153) in *. set (cm := if month <? 10 then month + 3 else month - 9) in *.
  set (d := day - (153 * month + 2) / 5 + 1) in *. split.
  - unfold sys_days. cbn [ymd_year ymd_month ymd_day]. rewrite Hdoy.
    replace (if cm <=? 2 then _ else _) with (year + era * 400) by (destruct (Z.leb_spec cm 2); lia).
    rewrite Z.div_add, Z.mod_add, Z.div_small, Z.mod_small by lia. unfold day. lia.
  - unfold ymd_ok. cbn [ymd_year ymd_month ymd_day]. rewrite !andb_true_iff, !Z.leb_le. repeat split; [lia..|].
    unfold last_day. destruct (Z.eqb_spec cm 2) as [->|Hne]; [|exact Hlast]. cbn [Z.leb Z.compare Pos.compare Pos.compare_cont].
    revert Hlast. destruct (Z.eqb_spec day 365) as [E|E]; intros Hlast; [|etrans; [exact Hlast|case_match; lia]].
    assert (is_leap (year + era * 400 + 1) = is_leap (year + 1)) as ->; [|by rewrite Hleap].
    unfold is_leap. replace (year + era * 400 + 1) with (year + 1 + era * 100 * 4) by lia. rewrite Z.mod_add by lia.
    replace (year + 1 + era * 100 * 4) with (year + 1 + era * 4 * 100) by lia. rewrite Z.mod_add by lia.
    replace (year + 1 + era * 4 * 100) with (year + 1 + era * 400) by lia. by rewrite Z.mod_add by lia.
Qed.

(** ** [toIso8601] *)

Definition day_length : Z := 86400000.

(** A signed number in a field of a width. *)
Definition padded (width n : Z) : string :=
  if n <? 0 then String "-" (zero_padded (width - 1) (- n)) else zero_padded width n.

Definition toIso8601 (instant : Instant) : string :=
  let dayBoundary := instant / day_length in
  let date := civil dayBoundary in
  let timeOfDay := instant - dayBoundary * day_length in
  padded 4 (ymd_year date) +:+ "-" +:+ padded 2 (ymd_month date) +:+ "-" +:+ padded 2 (ymd_day date)
  +:+ "T" +:+ padded 2 (timeOfDay / 3600000) +:+ ":" +:+ padded 2 (timeOfDay / 60000 mod 60)
  +:+ ":" +:+ padded 2 (timeOfDay / 1000 mod 60) +:+ "." +:+ padded 3 (timeOfDay mod 1000) +:+ "Z".

(** ** Reading it back *)

(** The digits of a number that takes up the whole of a part of the text. *)
Definition fixedDecimal (text : string) (begin count : nat) : option Z :=
  if (String.length text <? begin + count)%nat then None
  else from_chars_unsigned (String.substring begin count text).

(** [text[index] == symbol]. *)
Definition symbol_at (text : string) (index : nat) (symbol : ascii) : bool :=
  bool_decide (String.get index text = Some symbol).

Definition parseSiweInstant (text : string) : option Instant :=
  let milliseconds := (String.length text =? 24)%nat in
  if (negb (String.length text =? 20)%nat && negb milliseconds)
     || negb (symbol_at text 4 "-") || negb (symbol_at text 7 "-") || negb (symbol_at text 10 "T")
     || negb (symbol_at text 13 ":") || negb (symbol_at text 16 ":")
     || negb (symbol_at text (String.length text - 1) "Z")
     || (milliseconds && negb (symbol_at text 19 ".")) then None
  else
    match fixedDecimal text 0 4, fixedDecimal text 5 2, fixedDecimal text 8 2, fixedDecimal text 11 2,
          fixedDecimal text 14 2, fixedDecimal text 17 2,
          (if milliseconds then fixedDecimal text 20 3 else Some 0) with
    | Some year, Some month, Some day, Some hour, Some minute, Some second, Some fraction =>
        if (23 <? hour) || (59 <? minute) || (59 <? second) then None
        else
          let date := {| ymd_year := year; ymd_month := month; ymd_day := day |} in
          if negb (ymd_ok date) then None
          else Some (sys_days date * day_length + hour * 3600000 + minute * 60000 + second * 1000 + fraction)
    | _, _, _, _, _, _, _ => None
    end.

(** ** Reading inverts writing *)

(** The instants of the years that have four digits. *)
Definition four_digit_year (instant : Instant) : Prop :=
  0 <= ymd_year (civil (instant / day_length)) <= 9999.

(** From the first day of 1970 to the last of 9999. *)
Lemma four_digit_years instant : 0 <= instant < 253402300800000 -> four_digit_year instant.
Proof.
  intros Hi. unfold four_digit_year, day_length. assert (0 <= instant / 86400000 < 2932897) as Hd.
  { split; [apply Z.div_pos; lia|apply Z.div_lt_upper_bound; lia]. }
  revert Hd. generalize (instant / 86400000). clear. intros days Hd.
  destruct (civil_sys_days days) as [Hsys Hok]. revert Hsys Hok. generalize (civil days). intros [y m d] Hsys Hok.
  unfold ymd_ok, sys_days in *. cbn [ymd_year ymd_month ymd_day] in *. bool_prop.
  assert (d <= 31) as Hd31 by (unfold last_day in *; repeat case_match; lia).
  unfold days_before, day_of_year in Hsys. destruct (Z.leb_spec m 2), (Z.ltb_spec 2 m); try lia;
    Z.to_euclidean_division_equations; lia.
Qed.

(** The fields of a text, when each has its width. *)
Lemma parse_fields year month day hour minute second fraction :
  0 <= year <= 9999 -> 0 <= month <= 99 -> 0 <= day <= 99 -> 0 <= hour <= 23 -> 0 <= minute <= 59 ->
  0 <= second <= 59 -> 0 <= fraction <= 999 ->
  ymd_ok {| ymd_year := year; ymd_month := month; ymd_day := day |} = true ->
  let text := padded 4 year +:+ "-" +:+ padded 2 month +:+ "-" +:+ padded 2 day +:+ "T" +:+ padded 2 hour +:+ ":"
    +:+ padded 2 minute +:+ ":" +:+ padded 2 second +:+ "." +:+ padded 3 fraction +:+ "Z" in
  String.length text = 24%nat /\
  parseSiweInstant text
  = Some (sys_days {| ymd_year := year; ymd_month := month; ymd_day := day |} * day_length
          + hour * 3600000 + minute * 60000 + second * 1000 + fraction).
Proof.
  intros Hy Hm Hd Hh Hmi Hs Hf Hok text. unfold text, padded. rewrite !(proj2 (Z.ltb_ge _ 0)) by lia.
  pose proof (zero_padded_length 4 year ltac:(lia) ltac:(lia)) as Ly. pose proof (from_chars_zero_padded 4 year ltac:(lia)) as Vy.
  pose proof (zero_padded_length 2 month ltac:(lia) ltac:(lia)) as Lm. pose proof (from_chars_zero_padded 2 month ltac:(lia)) as Vm.
  pose proof (zero_padded_length 2 day ltac:(lia) ltac:(lia)) as Ld. pose proof (from_chars_zero_padded 2 day ltac:(lia)) as Vd.
  pose proof (zero_padded_length 2 hour ltac:(lia) ltac:(lia)) as Lh. pose proof (from_chars_zero_padded 2 hour ltac:(lia)) as Vh.
  pose proof (zero_padded_length 2 minute ltac:(lia) ltac:(lia)) as Lmi. pose proof (from_chars_zero_padded 2 minute ltac:(lia)) as Vmi.
  pose proof (zero_padded_length 2 second ltac:(lia) ltac:(lia)) as Ls. pose proof (from_chars_zero_padded 2 second ltac:(lia)) as Vs.
  pose proof (zero_padded_length 3 fraction ltac:(lia) ltac:(lia)) as Lf. pose proof (from_chars_zero_padded 3 fraction ltac:(lia)) as Vf.
  revert Ly Vy Lm Vm Ld Vd Lh Vh Lmi Vmi Ls Vs Lf Vf.
  generalize (zero_padded 4 year) (zero_padded 2 month) (zero_padded 2 day) (zero_padded 2 hour) (zero_padded 2 minute)
    (zero_padded 2 second) (zero_padded 3 fraction). intros y m d h mi s f Ly Vy Lm Vm Ld Vd Lh Vh Lmi Vmi Ls Vs Lf Vf.
  destruct y as [|y0 [|y1 [|y2 [|y3 [|]]]]], m as [|m0 [|m1 [|]]], d as [|d0 [|d1 [|]]]; try discriminate.
  destruct h as [|h0 [|h1 [|]]], mi as [|mi0 [|mi1 [|]]], s as [|se0 [|se1 [|]]], f as [|f0 [|f1 [|f2 [|]]]]; try discriminate.
  split; [reflexivity|]. unfold parseSiweInstant, fixedDecimal, symbol_at. rewrite !sapp_cons, !sapp_nil_l.
  cbn [String.length Nat.eqb Nat.ltb Nat.leb Nat.add Nat.sub negb andb orb String.get String.substring].
  rewrite !bool_decide_eq_true_2 by done. cbn [negb orb]. rewrite Vy, Vm, Vd, Vh, Vmi, Vs, Vf.
  rewrite (proj2 (Z.ltb_ge 23 hour)), (proj2 (Z.ltb_ge 59 minute)), (proj2 (Z.ltb_ge 59 second)) by lia. cbn [orb].
  by rewrite Hok.
Qed.

(** The instant from its fields. *)
Lemma time_fields time : 0 <= time < day_length ->
  0 <= time / 3600000 <= 23 /\ 0 <= time / 60000 mod 60 <= 59 /\ 0 <= time / 1000 mod 60 <= 59 /\ 0 <= time mod 1000 <= 999 /\
  time / 3600000 * 3600000 + time / 60000 mod 60 * 60000 + time / 1000 mod 60 * 1000 + time mod 1000 = time.
Proof. unfold day_length. intros Ht. Z.to_euclidean_division_equations. lia. Qed.

(** A time stamp reads back as the instant it was written for. For every
    millisecond of the years 0 to 9999 the text is 24 octets long, names a date of
    the Gregorian calendar that exists, and is read back to the same millisecond. *)
Theorem iso8601_reads instant : four_digit_year instant ->
  String.length (toIso8601 instant) = 24%nat /\ parseSiweInstant (toIso8601 instant) = Some instant.
Proof.
  intros Hy. unfold four_digit_year in Hy. unfold toIso8601. set (days := instant / day_length) in *.
  set (time := instant - days * day_length).
  assert (0 <= time < day_length) as Ht.
  { unfold time, days. pose proof (Z.mod_pos_bound instant day_length ltac:(done)). pose proof (Z.div_mod instant day_length ltac:(done)). lia. }
  destruct (time_fields time Ht) as (Hh & Hmi & Hs & Hf & Hsum). destruct (civil_sys_days days) as [Hsys Hok].
  revert Hy Hsys Hok. generalize (civil days). intros [y m d] Hy Hsys Hok. cbn [ymd_year ymd_month ymd_day] in *.
  assert (1 <= m <= 12 /\ 1 <= d <= 31) as [Hm Hd].
  { unfold ymd_ok in Hok. cbn [ymd_year ymd_month ymd_day] in Hok. bool_prop. unfold last_day in *. repeat case_match; lia. }
  destruct (parse_fields y m d (time / 3600000) (time / 60000 mod 60) (time / 1000 mod 60) (time mod 1000)) as [Hl Hp]; try lia; [done|].
  split; [exact Hl|]. rewrite Hp, Hsys. f_equal. unfold time in *. lia.
Qed.

(** A time stamp is one line. *)
Lemma toIso8601_octets p instant : four_digit_year instant -> (forall d, 0 <= d < 10 -> p (digit d) = true) ->
  p "-"%char = true -> p "T"%char = true -> p ":"%char = true -> p "."%char = true -> p "Z"%char = true ->
  all_octets p (toIso8601 instant) = true.
Proof.
  intros Hy Hp Hm Ht Hc Hd Hz. unfold four_digit_year in Hy. unfold toIso8601, padded. set (days := instant / day_length) in *.
  destruct (civil_sys_days days) as [_ Hok]. unfold ymd_ok in Hok. bool_prop.
  pose proof (Z.mod_pos_bound instant day_length ltac:(done)) as Hmod. pose proof (Z.div_mod instant day_length ltac:(done)).
  destruct (time_fields (instant - days * day_length)) as (Hh & Hmi & Hs & Hf & _); [unfold days; lia|].
  rewrite !(proj2 (Z.ltb_ge _ 0)) by lia. rewrite !all_octets_app, !zero_padded_octets by (done || lia). cbn [all_octets].
  by rewrite Hm, Ht, Hc, Hd, Hz.
Qed.

(** The leap day of the year 2000. *)
Example leap_day : toIso8601 951827696789 = "2000-02-29T12:34:56.789Z".
Proof. vm_compute. reflexivity. Qed.
