(* ===== verification/Web3.v ===== *)
(** * openproof.provider.web3: Ethereum wallets and Farcaster

    Models [src/src/providers/web3/web3.cpp]: the texts and addresses it
    validates, the message hash, the recovery of a signer, the calls to a
    chain, challenges and the messages that are signed for them, and the
    two providers. The arithmetic of the curve is the class [Secp256k1] and the
    exchange of one request over TLS the class [RpcTransport]: OpenSSL and
    Boost. Keccak-256 is in the file Keccak, time stamps are in Calendar. *)
From Stdlib Require Import Strings.Byte.
From S2P Require Import Prelude Foundation Encoding Security Provider Wire Http Calendar Keccak.

(** ** Texts *)

Definition kWalletStatement : string := "Sign in to OpenProof with your Ethereum account.".
Definition kFarcasterStatement : string := "Farcaster Auth".
Definition kErc1271Magic : string := "0x1626ba7e".
Definition kOptimismMainnetChainId : Z := 10.
Definition kFarcasterAuthAddressKeyType : Z := 2.

Definition backslash : ascii := "\".
Definition newline : ascii := "010".
Definition carriage_return : ascii := "013".

Definition authenticationFailure (detail : string) : Error :=
  Error_ofDetail AuthenticationFailed (defaultErrorMessage AuthenticationFailed) detail.
Definition failAuthentication {A} (detail : string) : Result A := Err (authenticationFailure detail).

Definition safeText (value : string) (maximum : nat) : bool :=
  negb (bool_decide (value = "")) && (String.length value <=? maximum)%nat && negb (any_octet control_octet value).

(** [std::isalnum] in the C locale. *)
Definition isalnum (symbol : ascii) : bool :=
  between "0" "9" symbol || between "a" "z" symbol || between "A" "Z" symbol.

Definition ends_with (value : string) (symbol : ascii) : bool :=
  match split_last symbol value with Some (_, rest) => bool_decide (rest = "") | None => false end.

(** [value.contains("..")]. *)
Fixpoint has_double_dot (value : string) : bool :=
  match value with "" => false | String _ rest => starts_with value ".." || has_double_dot rest end.

Definition validDomain (value : string) : bool :=
  if negb (safeText value 253) || contains value "/" || contains value "@" || contains value backslash
     || starts_with value "." || ends_with value "." then false
  else all_octets (fun symbol => isalnum symbol || bool_decide (symbol = "."%char) || bool_decide (symbol = "-"%char)
                                 || bool_decide (symbol = ":"%char)) value.

Definition validHttpsHost (value : string) : bool :=
  if negb (safeText value 253) || starts_with value "." || ends_with value "." || has_double_dot value
     || contains value ":" then false
  else all_octets (fun symbol => isalnum symbol || bool_decide (symbol = "."%char) || bool_decide (symbol = "-"%char)) value.

Module HttpsUrl.
Record t := mk { host : string; port : string; target : string }.
End HttpsUrl.

(** A space, a control octet or DEL. *)
Definition blank_or_control (symbol : ascii) : bool :=
  let byte := Z.of_N (N_of_ascii symbol) in (byte <=? 32) || (byte =? 127).
Definition path_start (symbol : ascii) : bool := bool_decide (symbol = "/"%char) || bool_decide (symbol = "?"%char).

(** The host and the port of an authority. *)
Definition parseAuthority (authority : string) : Result (string * string) :=
  match split_last ":" authority with
  | None => Ok (authority, "443")
  | Some (host, portText) =>
      if contains host ":" then fail InvalidArgument "A Web3 endpoint has an invalid HTTPS authority."
      else
        match from_chars_unsigned portText with
        | Some port =>
            if (port =? 0) || (65535 <? port) then fail InvalidArgument "A Web3 endpoint has an invalid HTTPS port."
            else Ok (host, portText)
        | None => fail InvalidArgument "A Web3 endpoint has an invalid HTTPS port."
        end
  end.

Definition parseHttpsUrl (raw : string) : Result HttpsUrl.t :=
  match strip_prefix "https://" raw with
  | None => fail InvalidArgument "A Web3 endpoint must be a structurally valid HTTPS URL."
  | Some rest =>
      if (4096 <? String.length raw)%nat || contains raw "#" || contains raw backslash
         || any_octet blank_or_control raw then
        fail InvalidArgument "A Web3 endpoint must be a structurally valid HTTPS URL."
      else
        let '(authority, rest) := split_first path_start rest in
        if bool_decide (authority = "") || contains authority "@" || contains authority "["
           || contains authority "]" then
          fail InvalidArgument "A Web3 endpoint has an invalid HTTPS authority."
        else
          host_port ← parseAuthority authority;
          if negb (validHttpsHost host_port.1) then fail InvalidArgument "A Web3 endpoint has an invalid HTTPS host."
          else Ok (HttpsUrl.mk host_port.1 host_port.2
                     (if bool_decide (rest = "") then "/" else if starts_with rest "/" then rest else "/" +:+ rest))
  end.

(** ** Hexadecimal *)

Definition isHex (value : ascii) : bool := between "0" "9" value || between "a" "f" value || between "A" "F" value.

Definition hexNibble (value : ascii) : Z :=
  let v := Z.of_N (N_of_ascii value) in
  if between "0" "9" value then v - 48 else if between "a" "f" value then 10 + (v - 97) else 10 + (v - 65).

Fixpoint hexOctets (value : string) : list byte :=
  match value with
  | String high (String low rest) => toByte (Z.lor (Z.shiftl (hexNibble high) 4) (hexNibble low)) :: hexOctets rest
  | _ => []
  end.

Definition decodeHex (value : string) : option (list byte) :=
  let value := default value (strip_prefix "0x" value) in
  if negb (String.length value mod 2 =? 0)%nat || negb (all_octets isHex value) then None else Some (hexOctets value).

(** [encodeHex]: its loop over the octets is that of [toHex]. *)
Definition encodeHex (input : list byte) (prefix : bool) : string := (if prefix then "0x" else "") +:+ toHex input.

Definition normalizeAddress (value : string) : option string :=
  match strip_prefix "0x" value with
  | Some rest => if negb (String.length value =? 42)%nat || negb (all_octets isHex rest) then None else Some (lowercase value)
  | None => None
  end.

Definition ethereumMessageHash (message : string) : Result (list byte) :=
  let prefix := String "025" ("Ethereum Signed Message:" +:+ String newline "")
                +:+ to_string (Z.of_nat (String.length message)) in
  keccak256 (as_bytes prefix ++ as_bytes message).

(** ** Recovering a signer *)

(** OpenSSL on the curve secp256k1. *)
Class Secp256k1 := {
  point : Type;
  (** [EC_GROUP_get_order] and the prime of [EC_GROUP_get_curve]. *)
  curve_order : Z;
  field_prime : Z;
  (** [EC_POINT_set_compressed_coordinates]: the point with an abscissa and a parity. *)
  set_compressed_coordinates : Z -> Z -> option point;
  (** [EC_POINT_mul] by a point, and by the generator. *)
  mul_point : point -> Z -> option point;
  mul_generator : Z -> option point;
  (** [EC_POINT_add], [EC_POINT_is_at_infinity], [EC_POINT_point2oct], uncompressed. *)
  add_points : point -> point -> option point;
  is_at_infinity : point -> bool;
  point2oct : point -> list byte;
  (** [BN_mod_inverse]. *)
  mod_inverse : Z -> Z -> option Z;
}.

(** [BN_bin2bn]. *)
Definition bin2bn (octets : list byte) : Z := foldl (fun n b => n * 256 + byteValue b) 0 octets.

Section signer.
Context `{Curve : Secp256k1}.

(** [r^-1 (s R - e G)], or the first operation that fails. *)
Definition recoverPublicKey (rPoint : point) (r s e : Z) : option point :=
  let eReduced := e mod curve_order in
  let negativeE := (curve_order - eReduced) mod curve_order in
  inverseR ← mod_inverse r curve_order;
  sTimesR ← mul_point rPoint s;
  eTimesG ← mul_generator negativeE;
  sum ← add_points sTimesR eTimesG;
  mul_point sum inverseR.

(** The recovery identifier, from the last octet of a signature. *)
Definition recoveryIdentifier (rawV : Z) : option Z :=
  if (rawV =? 27) || (rawV =? 28) then Some (rawV - 27) else if rawV <=? 1 then Some rawV else None.

(** The point the abscissa [r] names, when its order is that of the curve. *)
Definition recoveryPoint (r recoveryId : Z) : option point :=
  rPoint ← set_compressed_coordinates r recoveryId;
  nTimesR ← mul_point rPoint curve_order;
  if is_at_infinity nTimesR then Some rPoint else None.

Definition recoverAddress (digest : list byte) (signatureText : string) : Result string :=
  match decodeHex signatureText with
  | None => failAuthentication "The Ethereum signature has an invalid encoding."
  | Some decoded =>
      if negb (length decoded =? 65)%nat then failAuthentication "The Ethereum signature has an invalid encoding."
      else
        match recoveryIdentifier (byteValue (default x00 (decoded !! 64%nat))) with
        | None => failAuthentication "The Ethereum recovery identifier is invalid."
        | Some recoveryId =>
            let r := bin2bn (take 32 decoded) in
            let s := bin2bn (take 32 (drop 32 decoded)) in
            let e := bin2bn digest in
            if (r =? 0) || (s =? 0) || (curve_order <=? r) || (curve_order <=? s) then
              failAuthentication "The Ethereum signature scalars are invalid."
            else if Z.shiftr curve_order 1 <? s then
              failAuthentication "The Ethereum signature is not canonical low-s form."
            else if field_prime <=? r then
              failAuthentication "The Ethereum signature recovery point is invalid."
            else
              match recoveryPoint r recoveryId with
              | None => failAuthentication "The Ethereum signature recovery point is invalid."
              | Some rPoint =>
                  match recoverPublicKey rPoint r s e with
                  | None => failAuthentication "The Ethereum public key could not be recovered."
                  | Some publicKey =>
                      let publicBytes := point2oct publicKey in
                      if negb (length publicBytes =? 65)%nat
                         || negb (bool_decide (head publicBytes = Some (toByte 4))) then
                        failAuthentication "The recovered Ethereum public key is malformed."
                      else
                        addressDigest ← keccak256 (tail publicBytes);
                        Ok (encodeHex (take 20 (drop 12 addressDigest)) true)
                  end
              end
        end
  end.
End signer.

(** ** Calls to a chain *)

(** A parameter of a call: a text, or an object of texts. *)
Inductive rpc_parameter := TextParameter (value : string) | ObjectParameter (members : list (string * string)).

(** What a response holds, as far as the code looks into it. *)
Inductive json_result := ResultString (value : string) | ResultOther.
Inductive json_body :=
| NotAnObject
| ErrorObject
| ResultObject (value : option json_result).

(** One exchange: a peer that could not be configured, an exception, or a response. *)
Inductive rpc_exchange :=
| NoPeer
| Raised
| Responded (status : Z) (body : json_body).

(** The HTTPS client of Boost: a request with a method and parameters, under
    the certificates of a file and with an authorization header. *)
Class RpcTransport `{Plat : Platform} := {
  rpc_post : HttpsUrl.t -> string -> list rpc_parameter -> string -> string -> world -> rpc_exchange * world;
}.

Definition kUniversalSignatureValidatorByteCode : string := Eval cbv in
  ("0x608060405234801561001057600080fd5b5060405161069438038061069483398101604081905261002f9161051e565b600061003c8484" +:+
   "84610048565b9050806000526001601ff35b60007f6492649264926492649264926492649264926492649264926492649264926492610074" +:+
   "8361040c565b036101e7576000606080848060200190518101906100929190610577565b60405192955090935091506000906001600160a0" +:+
   "1b038516906100b69085906105dd565b6000604051808303816000865af19150503d80600081146100f3576040519150601f19603f3d0116" +:+
   "82016040523d82523d6000602084013e6100f8565b606091505b50509050876001600160a01b03163b600003610160578061016057604051" +:+
   "62461bcd60e51b815260206004820152601e60248201527f5369676e617475726556616c696461746f723a206465706c6f796d656e740000" +:+
   "60448201526064015b60405180910390fd5b604051630b135d3f60e11b808252906001600160a01b038a1690631626ba7e90610190908b90" +:+
   "87906004016105f9565b602060405180830381865afa1580156101ad573d6000803e3d6000fd5b505050506040513d601f19601f82011682" +:+
   "0180604052508101906101d19190610633565b6001600160e01b03191614945050505050610405565b6001600160a01b0384163b1561027a" +:+
   "57604051630b135d3f60e11b808252906001600160a01b03861690631626ba7e9061022790879087906004016105f9565b60206040518083" +:+
   "0381865afa158015610244573d6000803e3d6000fd5b505050506040513d601f19601f820116820180604052508101906102689190610633" +:+
   "565b6001600160e01b031916149050610405565b81516041146102df5760405162461bcd60e51b815260206004820152603a602482015260" +:+
   "008051602061067483398151915260448201527f3a20696e76616c6964207369676e6174757265206c656e67746800000000000060648201" +:+
   "52608401610157565b6102e7610425565b5060208201516040808401518451859392600091859190811061030c5761030c61065d565b0160" +:+
   "20015160f81c9050601b811480159061032b57508060ff16601c14155b1561038c5760405162461bcd60e51b815260206004820152603b60" +:+
   "2482015260008051602061067483398151915260448201527f3a20696e76616c6964207369676e617475726520762076616c756500000000" +:+
   "006064820152608401610157565b60408051600081526020810180835289905260ff83169181019190915260608101849052608081018390" +:+
   "526001600160a01b0389169060019060a0016020604051602081039080840390855afa1580156103ea573d6000803e3d6000fd5b50505060" +:+
   "2060405103516001600160a01b0316149450505050505b9392505050565b600060208251101561041d57600080fd5b508051015190565b60" +:+
   "405180606001604052806003906020820280368337509192915050565b6001600160a01b038116811461045857600080fd5b50565b634e48" +:+
   "7b7160e01b600052604160045260246000fd5b60005b8381101561048c578181015183820152602001610474565b50506000910152565b60" +:+
   "0082601f8301126104a657600080fd5b81516001600160401b038111156104bf576104bf61045b565b604051601f8201601f19908116603f" +:+
   "011681016001600160401b03811182821017156104ed576104ed61045b565b60405281815283820160200185101561050557600080fd5b61" +:+
   "0516826020830160208701610471565b949350505050565b60008060006060848603121561053357600080fd5b835161053e81610443565b" +:+
   "6020850151604086015191945092506001600160401b0381111561056157600080fd5b61056d86828701610495565b915050925092509256" +:+
   "5b60008060006060848603121561058c57600080fd5b835161059781610443565b60208501519093506001600160401b038111156105b357" +:+
   "600080fd5b6105bf86828701610495565b604086015190935090506001600160401b0381111561056157600080fd5b600082516105ef8184" +:+
   "60208701610471565b9190910192915050565b828152604060208201526000825180604084015261061e816060850160208701610471565b" +:+
   "601f01601f1916919091016060019392505050565b60006020828403121561064557600080fd5b81516001600160e01b0319811681146104" +:+
   "0557600080fd5b634e487b7160e01b600052603260045260246000fdfe5369676e617475726556616c696461746f72237265636f76657253" +:+
   "69676e6572").

(** [std::from_chars] in base 16 on the whole text, for [std::uint64_t]. *)
Fixpoint hex_digits_value (text : string) (acc : Z) : option Z :=
  match text with
  | "" => Some acc
  | String c rest => if isHex c then hex_digits_value rest (acc * 16 + hexNibble c) else None
  end.
Definition from_chars_hex (text : string) : option Z :=
  if bool_decide (text = "") then None
  else v ← hex_digits_value text 0; if v <? 2 ^ 64 then Some v else None.
Definition from_chars_u64 : string -> option Z := from_chars false 0 18446744073709551615.

(** [remove_prefix] while there is a zero in front and the text is longer than [size]. *)
Fixpoint drop_zeros (size : nat) (text : string) : string :=
  match text with
  | String c rest => if (size <? String.length text)%nat && bool_decide (c = "0"%char) then drop_zeros size rest else text
  | "" => text
  end.

Definition uint256Hex (value : Z) : string :=
  encodeHex (replicate 24 x00 ++ map (fun i => toByte (Z.land (Z.shiftr value (Z.of_nat i * 8)) 255)) (rev (seq 0 8))) false.

Definition functionSelector (signature : string) : Result string :=
  digest ← keccak256Text signature;
  Ok (encodeHex (take 4 digest) false).

(** [data.append(n, '0')]. *)
Definition zeros (n : nat) : string := Nat.iter n (String "0") "".

(** [address.substr(2)] of an address, which has 42 octets. *)
Definition without_0x (address : string) : string := default "" (strip_prefix "0x" address).

(** An octet string after its length, filled up to whole words. *)
Definition paddedOctets (octets : list byte) : string :=
  uint256Hex (Z.of_nat (length octets)) +:+ encodeHex octets false
  +:+ (let remainder := (length octets mod 32)%nat in
       if (remainder =? 0)%nat then "" else zeros ((32 - remainder) * 2)).

Section rpc.
Context `{Plat : Platform} `{Transport : !RpcTransport} `{Curve : Secp256k1}.
Abbreviation handler A := (prog world Error A).

(** What the code makes of a response. *)
Definition rpcResult (exchange : rpc_exchange) : Result json_result :=
  match exchange with
  | NoPeer => fail Unavailable "The Web3 RPC TLS peer could not be configured."
  | Raised => fail Unavailable "The Web3 RPC HTTPS request failed."
  | Responded status body =>
      if negb (status =? 200) then fail Unavailable "The Web3 RPC endpoint returned a non-success status."
      else
        match body with
        | NotAnObject => fail Unavailable "The Web3 RPC response is malformed."
        | ErrorObject => fail Unavailable "The Web3 RPC endpoint reported an error."
        | ResultObject None => fail Unavailable "The Web3 RPC response has no result."
        | ResultObject (Some result) => Ok result
        end
  end.

Definition post (url : HttpsUrl.t) (method : string) (parameters : list rpc_parameter) (caFile authorization : string)
    : handler json_result :=
  fun w => let '(exchange, w) := rpc_post url method parameters caFile authorization w in (rpcResult exchange, w).

Definition rpc (endpoint method : string) (parameters : list rpc_parameter) (caFile authorization : string) : handler json_result :=
  parsed ← lift (parseHttpsUrl endpoint);
  post parsed method parameters caFile authorization.

Definition rpcString (endpoint method : string) (parameters : list rpc_parameter) (caFile authorization : string) : handler string :=
  response ← attempt (rpc endpoint method parameters caFile authorization);
  match response with
  | Ok (ResultString result) => mret result
  | _ => lift (fail Unavailable "The Web3 RPC result is not a string.")
  end.

Definition rpcChainMatches (endpoint : string) (expected : Z) (caFile authorization : string) : handler bool :=
  chain ← rpcString endpoint "eth_chainId" [] caFile authorization;
  match strip_prefix "0x" chain with
  | None => lift (failCode Unavailable)
  | Some text =>
      if (34 <? String.length chain)%nat then lift (failCode Unavailable)
      else
        match from_chars_hex text with
        | Some parsed => mret (parsed =? expected)
        | None => lift (failCode Unavailable)
        end
  end.

Definition universalSignatureValid (endpoint address : string) (digest : list byte) (signature caFile authorization : string)
    : handler bool :=
  match decodeHex signature with
  | None => throw (authenticationFailure "The universal signature encoding is invalid.")
  | Some signatureBytes =>
      if bool_decide (signatureBytes = []) || (8192 <? length signatureBytes)%nat then
        throw (authenticationFailure "The universal signature encoding is invalid.")
      else
        let data := kUniversalSignatureValidatorByteCode +:+ zeros 24 +:+ without_0x address +:+ encodeHex digest false
                    +:+ uint256Hex 96 +:+ paddedOctets signatureBytes in
        result ← rpcString endpoint "eth_call" [ObjectParameter [("data", data)]; TextParameter "latest"] caFile authorization;
        match strip_prefix "0x" result with
        | None => lift (fail Unavailable "The universal signature verifier returned malformed data.")
        | Some value =>
            if (66 <? String.length result)%nat then
              lift (fail Unavailable "The universal signature verifier returned malformed data.")
            else mret (bool_decide (drop_zeros 1 value = "1"))
        end
  end.

(** The direct paths, for a chain that refused the universal verifier. *)
Definition directSignatureValid (endpoint address : string) (digest : list byte) (signature caFile authorization : string)
    : handler bool :=
  code ← rpcString endpoint "eth_getCode" [TextParameter address; TextParameter "latest"] caFile authorization;
  let contract := negb (bool_decide (code = "0x")) && negb (bool_decide (code = "0x0")) && negb (bool_decide (code = "0x00")) in
  if negb contract then
    recovered ← lift (recoverAddress digest signature);
    mret (constantTimeEquals (as_bytes recovered) (as_bytes address))
  else
    match decodeHex signature with
    | None => throw (authenticationFailure "The ERC-1271 signature encoding is invalid.")
    | Some signatureBytes =>
        if bool_decide (signatureBytes = []) || (4096 <? length signatureBytes)%nat then
          throw (authenticationFailure "The ERC-1271 signature encoding is invalid.")
        else
          selector ← lift (functionSelector "isValidSignature(bytes32,bytes)");
          let data := "0x" +:+ selector +:+ encodeHex digest false +:+ uint256Hex 64 +:+ paddedOctets signatureBytes in
          result ← rpcString endpoint "eth_call" [ObjectParameter [("to", address); ("data", data)]; TextParameter "latest"]
                     caFile authorization;
          mret (starts_with (lowercase result) kErc1271Magic)
    end.

Definition contractWalletValid (endpoint address : string) (digest : list byte) (signature caFile authorization : string)
    : handler bool :=
  universal ← attempt (universalSignatureValid endpoint address digest signature caFile authorization);
  match universal with
  | Ok valid => mret valid
  | _ => directSignatureValid endpoint address digest signature caFile authorization
  end.

(** Up to 64 bits of a word of an answer, in hexadecimal. *)
Definition wordValue (text : string) (tooLong : Error) : Result Z :=
  let text := drop_zeros 16 text in
  if (16 <? String.length text)%nat then Err tooLong
  else if bool_decide (text = "") then Ok 0
  else match from_chars_hex text with Some value => Ok value | None => failCode Unavailable end.

Definition farcasterIdOf (endpoint registry address caFile authorization : string) : handler Z :=
  selector ← lift (functionSelector "idOf(address)");
  let data := "0x" +:+ selector +:+ zeros 24 +:+ without_0x address in
  result ← rpcString endpoint "eth_call" [ObjectParameter [("to", registry); ("data", data)]; TextParameter "latest"]
             caFile authorization;
  match strip_prefix "0x" result with
  | None => lift (failCode Unavailable)
  | Some text =>
      if (66 <? String.length result)%nat then lift (failCode Unavailable)
      else lift (wordValue text (Error_ofMessage InvalidArgument "The Farcaster FID exceeds the supported 64-bit range."))
  end.

Definition abiUint64 (result : string) (word : nat) : Result Z :=
  match strip_prefix "0x" result with
  | None => failCode Unavailable
  | Some result =>
      let begin := (word * 64)%nat in
      if (String.length result <? begin + 64)%nat then failCode Unavailable
      else wordValue (String.substring begin 64 result) (Error_ofCode InvalidArgument)
  end.

Definition farcasterAuthAddressValid (endpoint registry : string) (fid : Z) (address caFile authorization : string) : handler bool :=
  selector ← lift (functionSelector "keyDataOf(uint256,bytes)");
  let data := "0x" +:+ selector +:+ uint256Hex fid +:+ uint256Hex 64 +:+ uint256Hex 32 +:+ zeros 24 +:+ without_0x address in
  result ← rpcString endpoint "eth_call" [ObjectParameter [("to", registry); ("data", data)]; TextParameter "latest"]
             caFile authorization;
  match abiUint64 result 0, abiUint64 result 1 with
  | Ok state, Ok keyType => mret ((state =? 1) && (keyType =? kFarcasterAuthAddressKeyType))
  | Ok _, keyType => _ ← lift keyType; mret false
  | state, _ => _ ← lift state; mret false
  end.
End rpc.

(** ** Challenges and messages *)

Definition parseDecimal (text : string) (maximum : Z) : Result Z :=
  if bool_decide (text = "") || (20 <? String.length text)%nat then failCode InvalidArgument
  else
    match from_chars_u64 text with
    | Some value => if maximum <? value then failCode InvalidArgument else Ok value
    | None => failCode InvalidArgument
    end.
Definition kMaximumUint64 : Z := 18446744073709551615.

Definition underscore (symbol : ascii) : bool := bool_decide (symbol = "_"%char).

(** The field before the first underscore, and what follows the underscore. *)
Definition take_field (value : string) : option (string * string) :=
  match split_first underscore value with
  | (field, String _ rest) => Some (field, rest)
  | (_, "") => None
  end.

Definition challengeTimestamp (challenge : ChallengeId) (prefix : string) : Result Z :=
  match strip_prefix prefix (id_value challenge) with
  | None => failAuthentication "The Web3 challenge identifier is invalid."
  | Some value =>
      match take_field value with
      | None => failAuthentication "The Web3 challenge identifier is invalid."
      | Some (timestamp, _) =>
          match from_chars_int64 timestamp with
          | Some milliseconds =>
              if milliseconds <? 0 then failAuthentication "The Web3 challenge timestamp is invalid." else Ok milliseconds
          | None => failAuthentication "The Web3 challenge timestamp is invalid."
          end
      end
  end.

Definition walletChallengeChainId (challenge : ChallengeId) : Result Z :=
  match strip_prefix "siwe_" (id_value challenge) with
  | None => failAuthentication "The SIWE challenge identifier is invalid."
  | Some value =>
      match take_field value with
      | None => failAuthentication "The SIWE challenge identifier is invalid."
      | Some (_, value) =>
          match take_field value with
          | None => failAuthentication "The SIWE challenge identifier is invalid."
          | Some (chainText, _) =>
              match from_chars_u64 chainText with
              | Some chainId =>
                  if chainId =? 0 then failAuthentication "The SIWE challenge chain id is invalid." else Ok chainId
              | None => failAuthentication "The SIWE challenge chain id is invalid."
              end
          end
      end
  end.

Definition buildSiweMessage (domain address statement uri : string) (chainId : Z) (nonce : string)
    (issuedAt expiresAt : Instant) : string :=
  domain +:+ " wants you to sign in with your Ethereum account:" +:+ String newline ""
  +:+ address +:+ String newline (String newline "") +:+ statement
  +:+ String newline (String newline "URI: ") +:+ uri
  +:+ String newline "Version: 1" +:+ String newline "Chain ID: " +:+ to_string chainId
  +:+ String newline "Nonce: " +:+ nonce
  +:+ String newline "Issued At: " +:+ toIso8601 issuedAt
  +:+ String newline "Expiration Time: " +:+ toIso8601 expiresAt.

Definition buildFarcasterMessage (domain address uri nonce : string) (issuedAt expiresAt : Instant) (fid : Z) : string :=
  buildSiweMessage domain address kFarcasterStatement uri kOptimismMainnetChainId nonce issuedAt expiresAt
  +:+ String newline "Resources:" +:+ String newline "- farcaster://fid/" +:+ to_string fid.

Module ParsedSiwe.
Record t := mk { address : string; chainId : Z }.
End ParsedSiwe.

Module ParsedFarcasterSiwe.
Record t := mk { address : string; fid : Z }.
End ParsedFarcasterSiwe.

(** [lines[index]], in range. *)
Definition line (lines : list string) (index : nat) : string := default "" (lines !! index).

(** The index of the one line that opens the resources. *)
Fixpoint findResources (index : nat) (lines : list string) (found : option nat) : Result (option nat) :=
  match lines with
  | [] => Ok found
  | text :: lines =>
      if bool_decide (text = "Resources:") then
        match found with
        | Some _ => failAuthentication "The SIWF message contains duplicate resource sections."
        | None => findResources (S index) lines (Some index)
        end
      else findResources (S index) lines found
  end.

(** [text.remove_suffix(1)] when the text ends with the symbol. *)
Definition without_suffix (text : string) (symbol : ascii) : string :=
  match split_last symbol text with Some (before, "") => before | _ => text end.

(** What follows the prefix of a resource that names a FID. *)
Definition fid_text (resource : string) : option string :=
  match strip_prefix "- farcaster://fid/" resource with
  | Some text => Some text
  | None => strip_prefix "- farcaster://fids/" resource
  end.

(** The one FID among the resources. *)
Fixpoint findFid (resources : list string) (fid : option Z) : Result (option Z) :=
  match resources with
  | [] => Ok fid
  | resource :: resources =>
      match fid_text resource with
      | None => findFid resources fid
      | Some text =>
          match parseDecimal (without_suffix text "/") kMaximumUint64 with
          | Ok parsedFid =>
              if (parsedFid =? 0) || bool_decide (is_Some fid) then failAuthentication "The SIWF Farcaster FID is invalid."
              else findFid resources (Some parsedFid)
          | _ => failAuthentication "The SIWF Farcaster FID is invalid."
          end
      end
  end.

(** The fields between the time of issue and the resources. *)
Record optional_fields := mkFields { expirationText : option string; notBeforeText : option string; requestIdSeen : bool }.

Fixpoint optionalFields (lines : list string) (fields : optional_fields) : Result optional_fields :=
  match lines with
  | [] => Ok fields
  | text :: lines =>
      match strip_prefix "Expiration Time: " text with
      | Some value =>
          if bool_decide (is_Some (expirationText fields)) then
            failAuthentication "The SIWF message contains duplicate expiration fields."
          else optionalFields lines (mkFields (Some value) (notBeforeText fields) (requestIdSeen fields))
      | None =>
          match strip_prefix "Not Before: " text with
          | Some value =>
              if bool_decide (is_Some (notBeforeText fields)) then
                failAuthentication "The SIWF message contains duplicate not-before fields."
              else optionalFields lines (mkFields (expirationText fields) (Some value) (requestIdSeen fields))
          | None =>
              if starts_with text "Request ID: " then
                if requestIdSeen fields then failAuthentication "The SIWF message contains duplicate request-id fields."
                else optionalFields lines (mkFields (expirationText fields) (notBeforeText fields) true)
              else failAuthentication "The SIWF message contains an unsupported optional field."
          end
      end
  end.

Definition clockSkew : Duration := 60000.

Section messages.
Context `{Plat : Platform}.

Definition challengeNonce (key : string) (challenge : ChallengeId) : Result string :=
  digest ← hmacSha256 key ("openproof/siwe/nonce/v1:" +:+ id_value challenge);
  Ok (encodeHex (take 16 digest) false).

Definition makeChallengeId (prefix : string) (now : Instant) : prog world Error ChallengeId :=
  random ← randomTokenBase64Url 18;
  mret (mkId (prefix +:+ to_string now +:+ "_" +:+ random)).

Definition makeWalletChallengeId (now : Instant) (chainId : Z) : prog world Error ChallengeId :=
  random ← randomTokenBase64Url 18;
  mret (mkId ("siwe_" +:+ to_string now +:+ "_" +:+ to_string chainId +:+ "_" +:+ random)).

(** A message that is present, of a bounded size and without carriage returns. *)
Definition messageReadable (message : string) : bool :=
  negb (bool_decide (message = "")) && (String.length message <=? 8192)%nat && negb (contains message carriage_return).

Definition validateSiweMessage (message : string) (challenge : ChallengeId) (challengePrefix domain uri statement derivationKey : string)
    (lifetime : Duration) (now : Instant) : Result ParsedSiwe.t :=
  if negb (messageReadable message) then failAuthentication "The SIWE message encoding is invalid."
  else
    let lines := split_on message newline in
    let chain := strip_prefix "Chain ID: " (line lines 7) in
    if negb (length lines =? 11)%nat
       || negb (bool_decide (line lines 0 = domain +:+ " wants you to sign in with your Ethereum account:"))
       || negb (bool_decide (line lines 2 = "")) || negb (bool_decide (line lines 3 = statement))
       || negb (bool_decide (line lines 4 = "")) || negb (bool_decide (line lines 5 = "URI: " +:+ uri))
       || negb (bool_decide (line lines 6 = "Version: 1")) || negb (bool_decide (is_Some chain)) then
      failAuthentication "The SIWE message is not bound to this relying party."
    else
      match from_chars_u64 (default "" chain) with
      | None => failAuthentication "The SIWE chain id is invalid."
      | Some chainId =>
          if chainId =? 0 then failAuthentication "The SIWE chain id is invalid."
          else if negb (bool_decide (walletChallengeChainId challenge = Ok chainId)) then
            failAuthentication "The SIWE chain id is not bound to this challenge."
          else
            match normalizeAddress (line lines 1) with
            | None => failAuthentication "The SIWE address is invalid."
            | Some address =>
                nonce ← challengeNonce derivationKey challenge;
                timestamp ← challengeTimestamp challenge challengePrefix;
                let issuedAt := timestamp in
                let expiresAt := issuedAt + lifetime in
                if negb (bool_decide (line lines 8 = "Nonce: " +:+ nonce))
                   || negb (bool_decide (line lines 9 = "Issued At: " +:+ toIso8601 issuedAt))
                   || negb (bool_decide (line lines 10 = "Expiration Time: " +:+ toIso8601 expiresAt)) then
                  failAuthentication "The SIWE challenge binding is invalid."
                else if expiresAt <=? now then failAuthentication "The SIWE time window is expired."
                else Ok (ParsedSiwe.mk address chainId)
            end
      end.

(** The window of a Farcaster message: when it was issued, when it ends, and,
    if it says so, when it starts. *)
Definition timeWindowValid (issuedAt expiresAt : option Instant) (notBeforeText : option string)
    (challengeStart challengeEnd now : Instant) : bool :=
  let notBefore := notBeforeText ≫= parseSiweInstant in
  match issuedAt, expiresAt with
  | Some issuedAt, Some expiresAt =>
      negb (bool_decide (is_Some notBeforeText) && negb (bool_decide (is_Some notBefore)))
      && (challengeStart - clockSkew <=? issuedAt) && (issuedAt <=? now + clockSkew)
      && (expiresAt =? challengeEnd) && (issuedAt <? expiresAt) && (now <? challengeEnd)
      && match notBefore with Some notBefore => notBefore <=? now | None => true end
  | _, _ => false
  end.

Definition validateFarcasterMessage (message : string) (challenge : ChallengeId) (domain uri derivationKey : string)
    (lifetime : Duration) (now : Instant) : Result ParsedFarcasterSiwe.t :=
  if negb (messageReadable message) then failAuthentication "The SIWF message encoding is invalid."
  else
    let lines := split_on message newline in
    if (length lines <? 13)%nat
       || negb (bool_decide (line lines 0 = domain +:+ " wants you to sign in with your Ethereum account:"))
       || negb (bool_decide (line lines 2 = ""))
       || negb (bool_decide (line lines 3 = kFarcasterStatement) || bool_decide (line lines 3 = "Farcaster Connect"))
       || negb (bool_decide (line lines 4 = "")) || negb (bool_decide (line lines 5 = "URI: " +:+ uri))
       || negb (bool_decide (line lines 6 = "Version: 1")) || negb (bool_decide (line lines 7 = "Chain ID: 10")) then
      failAuthentication "The SIWF message is not a Farcaster FIP-11 message for this relying party."
    else
      resourcesIndex ← findResources 10 (drop 10 lines) None;
      match resourcesIndex with
      | None => failAuthentication "The SIWF message is missing Farcaster resources."
      | Some resourcesIndex =>
          if (length lines <=? resourcesIndex + 1)%nat then
            failAuthentication "The SIWF message is missing Farcaster resources."
          else
            let address := normalizeAddress (line lines 1) in
            fid ← findFid (drop (resourcesIndex + 1) lines) None;
            match address, fid with
            | Some address, Some fid =>
                match challengeNonce derivationKey challenge, challengeTimestamp challenge "fcsiwf_",
                      strip_prefix "Nonce: " (line lines 8), strip_prefix "Issued At: " (line lines 9) with
                | Ok nonce, Ok timestamp, Some nonceText, Some issuedText =>
                    if negb (bool_decide (nonceText = nonce)) then failAuthentication "The SIWF challenge binding is invalid."
                    else
                      fields ← optionalFields (take (resourcesIndex - 10) (drop 10 lines)) (mkFields None None false);
                      match expirationText fields with
                      | None => failAuthentication "The SIWF message is missing its expiration time."
                      | Some expirationText =>
                          if negb (timeWindowValid (parseSiweInstant issuedText) (parseSiweInstant expirationText)
                                     (notBeforeText fields) timestamp (timestamp + lifetime) now) then
                            failAuthentication "The SIWF time window is invalid."
                          else Ok (ParsedFarcasterSiwe.mk address fid)
                      end
                | _, _, _, _ => failAuthentication "The SIWF challenge binding is invalid."
                end
            | _, _ => failAuthentication "The SIWF signer or FID resource is invalid."
            end
      end.
End messages.

(** ** The wallet provider *)

Definition lifetimeAllowed (lifetime : Duration) : bool := (30000 <=? lifetime) && (lifetime <=? 900000).

Module WalletProviderConfig.
Record t := mk {
  m_domain : string;
  m_uri : string;
  m_rpcEndpoints : gmap Z string;
  m_derivationKey : string;
  m_challengeLifetime : Duration;
  m_caFile : string;
  m_authorizationHeader : string;
}.

Definition create (domain uri : string) (rpcEndpoints : gmap Z string) (derivationKey : string)
    (challengeLifetime : Duration) (caFile authorizationHeader : string) : Result t :=
  if negb (validDomain domain) || negb (is_ok (parseHttpsUrl uri)) || (String.length derivationKey <? 32)%nat
     || negb (lifetimeAllowed challengeLifetime) then
    fail InvalidArgument "The Ethereum wallet provider configuration is invalid."
  else if existsb (fun '(chainId, endpoint) => (chainId =? 0) || negb (is_ok (parseHttpsUrl endpoint))) (map_to_list rpcEndpoints) then
    fail InvalidArgument "An Ethereum smart-wallet RPC mapping is invalid."
  else Ok (mk domain uri rpcEndpoints derivationKey challengeLifetime caFile authorizationHeader).

(** The overload for one chain. *)
Definition createSingle (domain uri : string) (chainId : Z) (rpcEndpoint derivationKey : string)
    (challengeLifetime : Duration) (caFile authorizationHeader : string) : Result t :=
  if (chainId =? 0) || bool_decide (rpcEndpoint = "") then
    fail InvalidArgument "The Ethereum wallet RPC configuration is invalid."
  else create domain uri {[chainId := rpcEndpoint]} derivationKey challengeLifetime caFile authorizationHeader.

Definition rpcEndpoint (config : t) (chainId : Z) : option string := m_rpcEndpoints config !! chainId.
End WalletProviderConfig.

(** [publicParameter], [credential]. *)
Definition parameter_of (values : AttributeMap) (name : string) : option string := values !! name.

Module WalletAuthenticationProvider.
Section provider.
Context `{Plat : Platform} `{Transport : !RpcTransport} `{Curve : Secp256k1}.
Abbreviation handler A := (prog world Error A).
Import WalletProviderConfig.

Definition id : ProviderId := mkId "ethereum-wallet".
Definition interactionModel : InteractionModel := ChallengeResponse.
Definition maximumClaimableAssurance : AssuranceLevel := Ial1.

Definition invalidRequest : Error :=
  Error_ofMessage InvalidArgument "Wallet authentication requires a valid Ethereum address and chain id.".

Definition beginAuthentication (config : t) (request : AuthenticationRequest.t) : handler AuthenticationChallenge.t :=
  if negb (bool_decide (AuthenticationRequest.provider request = id)) then lift (failCode InvalidArgument)
  else
    match parameter_of (AuthenticationRequest.parameters request) "address" ≫= normalizeAddress,
          parameter_of (AuthenticationRequest.parameters request) "chain_id" with
    | Some address, Some chainValue =>
        match parseDecimal chainValue kMaximumUint64 with
        | Ok chainId =>
            if chainId =? 0 then throw invalidRequest
            else
              now ← now;
              challengeId ← makeWalletChallengeId now chainId;
              nonce ← lift (challengeNonce (m_derivationKey config) challengeId);
              let expiresAt := now + m_challengeLifetime config in
              let challenge := AuthenticationChallenge.create challengeId expiresAt in
              let challenge := AuthenticationChallenge.setParameter challenge "message"
                (buildSiweMessage (m_domain config) address kWalletStatement (m_uri config) chainId nonce now expiresAt) in
              let challenge := AuthenticationChallenge.setParameter challenge "address" address in
              mret (AuthenticationChallenge.setParameter challenge "chain_id" (to_string chainId))
        | _ => throw invalidRequest
        end
    | _, _ => throw invalidRequest
    end.

(** Whether the signer of the digest is the address: by recovery, or by asking the chain. *)
Definition verifySignature (config : t) (parsed : ParsedSiwe.t) (digest : list byte) (signature : string) : handler bool :=
  let direct := match recoverAddress digest signature with
                | Ok recovered => constantTimeEquals (as_bytes recovered) (as_bytes (ParsedSiwe.address parsed))
                | _ => false
                end in
  if direct then mret true
  else
    match rpcEndpoint config (ParsedSiwe.chainId parsed) with
    | None => mret false
    | Some endpoint =>
        matchingChain ← rpcChainMatches endpoint (ParsedSiwe.chainId parsed) (m_caFile config) (m_authorizationHeader config);
        if negb matchingChain then
          lift (fail FailedPrecondition "The configured smart-wallet RPC reports the wrong chain.")
        else
          contractWalletValid endpoint (ParsedSiwe.address parsed) digest signature (m_caFile config) (m_authorizationHeader config)
    end.

(** The claims and the evidence of a wallet. *)
Definition walletClaims (parsed : ParsedSiwe.t) : VerifiedClaims.t :=
  VerifiedClaims.setExtension
    (VerifiedClaims.setExtension VerifiedClaims.create "wallet_address" (ParsedSiwe.address parsed))
    "chain_id" (to_string (ParsedSiwe.chainId parsed)).
Definition walletEvidence (parsed : ParsedSiwe.t) : ProviderEvidence.t :=
  ProviderEvidence.add
    (ProviderEvidence.add (ProviderEvidence.add ProviderEvidence.create "protocol" "erc4361_siwe")
       "chain_id" (to_string (ParsedSiwe.chainId parsed)))
    "wallet_address" (ParsedSiwe.address parsed).

Definition completeAuthentication (config : t) (response : AuthenticationResponse.t) : handler AuthenticationOutcome.t :=
  match parameter_of (AuthenticationResponse.parameters response) "message",
        parameter_of (AuthenticationResponse.parameters response) "signature" with
  | Some message, Some signature =>
      if (8192 <? String.length signature)%nat then throw (authenticationFailure "The SIWE completion is incomplete.")
      else
        validatedAt ← now;
        parsed ← lift (validateSiweMessage message (AuthenticationResponse.challengeId response) "siwe_" (m_domain config)
                         (m_uri config) kWalletStatement (m_derivationKey config) (m_challengeLifetime config) validatedAt);
        digest ← lift (ethereumMessageHash message);
        verified ← verifySignature config parsed digest signature;
        if negb (verified : bool) then
          throw (authenticationFailure "The SIWE signature is invalid, or this smart-account chain has no configured RPC.")
        else
          verifiedAt ← now;
          lift (AuthenticationOutcome.create id (mkId (ParsedSiwe.address parsed)) (walletClaims parsed) Ial1
                  (AuthenticationStrength.mk Possession false) (walletEvidence parsed) verifiedAt)
  | _, _ => throw (authenticationFailure "The SIWE completion is incomplete.")
  end.
End provider.
End WalletAuthenticationProvider.

(** ** The Farcaster provider *)

Inductive FarcasterSignerKind := Custody | AuthAddress.
#[global] Instance FarcasterSignerKind_eq_dec : EqDecision FarcasterSignerKind.
Proof. solve_decision. Defined.

(** The interface of the chain to the provider. *)
Class FarcasterChainVerifier `{Plat : Platform} := {
  chainMatches : prog world Error bool;
  (** The address, the message and the signature. *)
  fcv_verifySignature : string -> string -> string -> prog world Error bool;
  authorizeSigner : Z -> string -> prog world Error (option FarcasterSignerKind);
}.

Module FarcasterProviderConfig.
Record t := mk {
  m_domain : string;
  m_uri : string;
  m_chainId : Z;
  m_rpcEndpoint : string;
  m_idRegistryAddress : string;
  m_keyRegistryAddress : string;
  m_derivationKey : string;
  m_challengeLifetime : Duration;
  m_caFile : string;
  m_authorizationHeader : string;
}.

Definition create (domain uri : string) (optimismChainId : Z) (optimismRpcEndpoint idRegistryAddress derivationKey : string)
    (challengeLifetime : Duration) (caFile authorizationHeader keyRegistryAddress : string) : Result t :=
  let registry := normalizeAddress idRegistryAddress in
  let keyRegistry := if bool_decide (keyRegistryAddress = "") then Some "" else normalizeAddress keyRegistryAddress in
  match registry, keyRegistry with
  | Some registry, Some keyRegistry =>
      if negb (validDomain domain) || negb (is_ok (parseHttpsUrl uri)) || negb (is_ok (parseHttpsUrl optimismRpcEndpoint))
         || negb (optimismChainId =? kOptimismMainnetChainId) || (String.length derivationKey <? 32)%nat
         || negb (lifetimeAllowed challengeLifetime) then
        fail InvalidArgument "The Farcaster provider configuration is invalid."
      else Ok (mk domain uri optimismChainId optimismRpcEndpoint registry keyRegistry derivationKey challengeLifetime caFile
                 authorizationHeader)
  | _, _ => fail InvalidArgument "The Farcaster provider configuration is invalid."
  end.
End FarcasterProviderConfig.

Module RpcFarcasterChainVerifier.
Section verifier.
Context `{Plat : Platform} `{Transport : !RpcTransport} `{Curve : Secp256k1}.
Import FarcasterProviderConfig.

Definition verifySignature (config : t) (address message signature : string) : prog world Error bool :=
  digest ← lift (ethereumMessageHash message);
  contractWalletValid (m_rpcEndpoint config) address digest signature (m_caFile config) (m_authorizationHeader config).

Definition authorize (config : t) (fid : Z) (address : string) : prog world Error (option FarcasterSignerKind) :=
  custodyFid ← farcasterIdOf (m_rpcEndpoint config) (m_idRegistryAddress config) address (m_caFile config)
                 (m_authorizationHeader config);
  if custodyFid =? fid then mret (Some Custody)
  else if bool_decide (m_keyRegistryAddress config = "") then mret None
  else
    valid ← farcasterAuthAddressValid (m_rpcEndpoint config) (m_keyRegistryAddress config) fid address (m_caFile config)
              (m_authorizationHeader config);
    mret (if valid : bool then Some AuthAddress else None).

Definition verifier (config : t) : FarcasterChainVerifier := {|
  chainMatches := rpcChainMatches (m_rpcEndpoint config) (m_chainId config) (m_caFile config) (m_authorizationHeader config);
  fcv_verifySignature := verifySignature config;
  authorizeSigner := authorize config;
|}.
End verifier.
End RpcFarcasterChainVerifier.

Module FarcasterAuthenticationProvider.
Section provider.
Context `{Plat : Platform} `{Verifier : !FarcasterChainVerifier}.
Abbreviation handler A := (prog world Error A).
Import FarcasterProviderConfig.

Definition id : ProviderId := mkId "farcaster".
Definition interactionModel : InteractionModel := ChallengeResponse.
Definition maximumClaimableAssurance : AssuranceLevel := Ial1.

Definition signerKindName (kind : FarcasterSignerKind) : string :=
  match kind with Custody => "custody" | AuthAddress => "auth_address" end.

(** The signer a request names, when the chain authorizes it. *)
Definition requestedSigner (addressValue fidValue : option string)
    : handler (option (string * Z * FarcasterSignerKind)) :=
  match addressValue, fidValue with
  | Some addressValue, Some fidValue =>
      match normalizeAddress addressValue, parseDecimal fidValue kMaximumUint64 with
      | Some address, Ok fid =>
          if fid =? 0 then lift (fail InvalidArgument "The direct SIWF address or FID is invalid.")
          else
            authorized ← authorizeSigner fid address;
            match authorized with
            | Some kind => mret (Some (address, fid, kind))
            | None => throw (authenticationFailure "The address is not an active custody or auth address for that FID.")
            end
      | _, _ => lift (fail InvalidArgument "The direct SIWF address or FID is invalid.")
      end
  | _, _ => mret None
  end.

(** The parameters of a challenge for a signer that is known. *)
Definition signerParameters (config : t) (nonce : string) (now : Instant) (signer : option (string * Z * FarcasterSignerKind))
    (challenge : AuthenticationChallenge.t) : AuthenticationChallenge.t :=
  match signer with
  | None => challenge
  | Some (address, fid, kind) =>
      let challenge := AuthenticationChallenge.setParameter challenge "message"
        (buildFarcasterMessage (m_domain config) address (m_uri config) nonce now (now + m_challengeLifetime config) fid) in
      let challenge := AuthenticationChallenge.setParameter challenge "address" address in
      let challenge := AuthenticationChallenge.setParameter challenge "fid" (to_string fid) in
      AuthenticationChallenge.setParameter challenge "signer_kind" (signerKindName kind)
  end.

Definition beginAuthentication (config : t) (request : AuthenticationRequest.t) : handler AuthenticationChallenge.t :=
  if negb (bool_decide (AuthenticationRequest.provider request = id)) then lift (failCode InvalidArgument)
  else
    let addressValue := parameter_of (AuthenticationRequest.parameters request) "address" in
    let fidValue := parameter_of (AuthenticationRequest.parameters request) "fid" in
    if negb (eqb (bool_decide (is_Some addressValue)) (bool_decide (is_Some fidValue))) then
      lift (fail InvalidArgument "A direct SIWF request must provide both address and FID.")
    else
      chain ← chainMatches;
      if negb (chain : bool) then lift (failCode FailedPrecondition)
      else
        signer ← requestedSigner addressValue fidValue;
        now ← now;
        challengeId ← makeChallengeId "fcsiwf_" now;
        nonce ← lift (challengeNonce (m_derivationKey config) challengeId);
        let challenge := AuthenticationChallenge.create challengeId (now + m_challengeLifetime config) in
        let challenge := AuthenticationChallenge.setParameter challenge "nonce" nonce in
        let challenge := AuthenticationChallenge.setParameter challenge "domain" (m_domain config) in
        let challenge := AuthenticationChallenge.setParameter challenge "uri" (m_uri config) in
        let challenge := AuthenticationChallenge.setParameter challenge "statement" kFarcasterStatement in
        let challenge := AuthenticationChallenge.setParameter challenge "resource_prefix" "farcaster://fid/" in
        let challenge := AuthenticationChallenge.setParameter challenge "chain_id" (to_string (m_chainId config)) in
        mret (signerParameters config nonce now signer challenge).

Definition farcasterClaims (config : t) (parsed : ParsedFarcasterSiwe.t) (kind : FarcasterSignerKind) : VerifiedClaims.t :=
  let address := ParsedFarcasterSiwe.address parsed in
  let claims := VerifiedClaims.setExtension VerifiedClaims.create "fid" (to_string (ParsedFarcasterSiwe.fid parsed)) in
  let claims := VerifiedClaims.setExtension claims "signer_address" address in
  let claims := VerifiedClaims.setExtension claims "signer_kind" (signerKindName kind) in
  let claims := if bool_decide (kind = Custody) then VerifiedClaims.setExtension claims "custody_address" address else claims in
  VerifiedClaims.setExtension claims "chain_id" (to_string (m_chainId config)).

Definition farcasterEvidence (config : t) (parsed : ParsedFarcasterSiwe.t) (kind : FarcasterSignerKind) : ProviderEvidence.t :=
  let evidence := ProviderEvidence.add ProviderEvidence.create "protocol" "farcaster_fip11_siwf" in
  let evidence := ProviderEvidence.add evidence "fid" (to_string (ParsedFarcasterSiwe.fid parsed)) in
  let evidence := ProviderEvidence.add evidence "signer_address" (ParsedFarcasterSiwe.address parsed) in
  let evidence := ProviderEvidence.add evidence "signer_kind" (signerKindName kind) in
  let evidence := ProviderEvidence.add evidence "id_registry" (m_idRegistryAddress config) in
  if bool_decide (m_keyRegistryAddress config = "") then evidence
  else ProviderEvidence.add evidence "key_registry" (m_keyRegistryAddress config).

Definition completeAuthentication (config : t) (response : AuthenticationResponse.t) : handler AuthenticationOutcome.t :=
  match parameter_of (AuthenticationResponse.parameters response) "message",
        parameter_of (AuthenticationResponse.parameters response) "signature" with
  | Some message, Some signature =>
      if (8192 <? String.length signature)%nat then throw (authenticationFailure "The Farcaster SIWF completion is incomplete.")
      else
        validatedAt ← now;
        parsed ← lift (validateFarcasterMessage message (AuthenticationResponse.challengeId response) (m_domain config)
                         (m_uri config) (m_derivationKey config) (m_challengeLifetime config) validatedAt);
        signatureValid ← fcv_verifySignature (ParsedFarcasterSiwe.address parsed) message signature;
        if negb (signatureValid : bool) then throw (authenticationFailure "The Farcaster SIWF signature is invalid.")
        else
          authorized ← authorizeSigner (ParsedFarcasterSiwe.fid parsed) (ParsedFarcasterSiwe.address parsed);
          match authorized with
          | None => throw (authenticationFailure "The Farcaster signer was revoked or changed before verification completed.")
          | Some kind =>
              verifiedAt ← now;
              lift (AuthenticationOutcome.create id (mkId (to_string (ParsedFarcasterSiwe.fid parsed)))
                      (farcasterClaims config parsed kind) Ial1 (AuthenticationStrength.mk Possession false)
                      (farcasterEvidence config parsed kind) verifiedAt)
          end
  | _, _ => throw (authenticationFailure "The Farcaster SIWF completion is incomplete.")
  end.
End provider.
End FarcasterAuthenticationProvider.
