(* ===== verification/WalletSignIn.v ===== *)
(** * Signing in with an Ethereum wallet

    The theorems about the providers of the file Web3: an accepted signature
    verifies under the key whose address signs in; a wallet signs in only with
    a signature over the message of its own challenge; a wallet that signs
    what it was given in time does sign in. *)
From Stdlib Require Import Strings.Byte.
From S2P Require Import Prelude Foundation Encoding Security Provider Wire Http Calendar Keccak Web3.

(** ** Recovered keys verify *)

(** What the code relies on of the curve: the points of order [curve_order] are a
    cyclic group that the operations compute in. *)
Class Secp256k1Laws (C : Secp256k1) := {
  zero : point;
  generator : point;
  plus : point -> point -> point;
  smul : Z -> point -> point;
  plus_assoc p q r : plus p (plus q r) = plus (plus p q) r;
  plus_comm p q : plus p q = plus q p;
  plus_zero p : plus p zero = p;
  smul_plus a b p : smul (a + b) p = plus (smul a p) (smul b p);
  smul_smul a b p : smul a (smul b p) = smul (a * b) p;
  smul_one p : smul 1 p = p;
  order_positive : 0 < curve_order;
  smul_order p : smul curve_order p = zero;
  smul_zero a : smul a zero = zero;
  mul_point_smul p k q : mul_point p k = Some q -> q = smul k p;
  mul_generator_smul k q : mul_generator k = Some q -> q = smul k generator;
  add_points_plus p q r : add_points p q = Some r -> r = plus p q;
  mod_inverse_spec a i : mod_inverse a curve_order = Some i -> (a * i) mod curve_order = 1 mod curve_order;
}.

Section curve.
Context `{Laws : Secp256k1Laws}.

Lemma smul_mod a p : smul (a mod curve_order) p = smul a p.
Proof.
  pose proof order_positive as Hn. rewrite (Z.div_mod a curve_order) at 2 by lia.
  rewrite smul_plus, (Z.mul_comm curve_order), <- smul_smul, smul_order, smul_zero, plus_comm. symmetry. apply plus_zero.
Qed.

Lemma smul_congruent a b p : a mod curve_order = b mod curve_order -> smul a p = smul b p.
Proof. intros E. by rewrite <- (smul_mod a), E, smul_mod. Qed.

(** The equation of verification: the key [Q] explains the point [R]. *)
Definition verifies (Q R : point) (r s e : Z) : Prop := smul s R = plus (smul e generator) (smul r Q).

Lemma recovered_verifies R r s e Q : recoverPublicKey R r s e = Some Q -> verifies Q R r s e.
Proof.
  unfold recoverPublicKey. intros H. pose proof order_positive as Hn.
  destruct (mod_inverse r curve_order) as [i|] eqn:Hi; cbn in H; [|done].
  destruct (mul_point R s) as [sR|] eqn:HsR; cbn in H; [|done].
  destruct (mul_generator _) as [eG|] eqn:HeG; cbn in H; [|done].
  destruct (add_points sR eG) as [sum|] eqn:Hsum; cbn in H; [|done].
  apply mul_point_smul in H, HsR. apply mul_generator_smul in HeG. apply add_points_plus in Hsum. subst.
  unfold verifies. rewrite smul_smul. rewrite (smul_congruent (r * i) 1) by (by apply mod_inverse_spec).
  rewrite smul_one, smul_mod, (plus_comm (smul s R)), plus_assoc, <- smul_plus.
  assert (smul (e + (curve_order - e mod curve_order)) generator = zero) as ->.
  { rewrite (smul_congruent _ (0 * curve_order)); [by rewrite <- smul_smul, smul_order, smul_zero|].
    rewrite Z.mod_mul by lia. rewrite (Z.div_mod e curve_order) at 1 by lia.
    replace (curve_order * (e / curve_order) + e mod curve_order + (curve_order - e mod curve_order))
      with ((e / curve_order + 1) * curve_order) by lia. apply Z.mod_mul. lia. }
  by rewrite plus_comm, plus_zero.
Qed.

(** The address of a public key: the last 20 octets of the hash of its coordinates. *)
Definition address_of (Q : point) : string := encodeHex (take 20 (drop 12 (keccak256Raw (tail (point2oct Q))))) true.

(** C25: An address is accepted only for a signature that verifies. When an address is
    recovered from a digest and a signature, the signature is 65 octets r, s and v
    with both scalars in the range of the order and s in its lower half; v and r
    name a point R of the curve whose order is that of the curve; and the address is that of a public
    key Q with s R = e G + r Q, which is the equation of ECDSA verification. *)
Theorem recovered_signer_verifies digest signature address :
  recoverAddress digest signature = Ok address ->
  exists octets recoveryId R Q,
    let r := bin2bn (take 32 octets) in
    let s := bin2bn (take 32 (drop 32 octets)) in
    decodeHex signature = Some octets /\ length octets = 65%nat /\
    recoveryIdentifier (byteValue (default x00 (octets !! 64%nat))) = Some recoveryId /\
    0 < r < curve_order /\ 0 < s <= curve_order / 2 /\
    recoveryPoint r recoveryId = Some R /\
    verifies Q R r s (bin2bn digest) /\ address = address_of Q.
Proof.
  unfold recoverAddress. destruct (decodeHex signature) as [octets|] eqn:Hdec; [|done].
  destruct (Nat.eqb_spec (length octets) 65) as [Hlen|]; cbn [negb]; [|done].
  destruct (recoveryIdentifier _) as [recoveryId|] eqn:Hv; [|done]. cbv zeta.
  set (r := bin2bn (take 32 octets)). set (s := bin2bn (take 32 (drop 32 octets))).
  destruct ((r =? 0) || _ || _ || _) eqn:Hrange; [done|]. destruct (Z.shiftr curve_order 1 <? s) eqn:Hlow; [done|].
  destruct (field_prime <=? r); [done|]. destruct (recoveryPoint r recoveryId) as [R|] eqn:HR; [|done].
  destruct (recoverPublicKey R r s (bin2bn digest)) as [Q|] eqn:HQ; [|done].
  destruct (negb _ || _) eqn:Hform; [done|]. unfold keccak256. rewrite self_test_passes. cbn [negb]. intros [= <-].
  exists octets, recoveryId, R, Q. fold r s. bool_prop.
  assert (forall l, 0 <= bin2bn l) as Hpos.
  { intros l. unfold bin2bn. assert (forall a, 0 <= a -> 0 <= foldl (fun n b => n * 256 + byteValue b) a l) as Hfold.
    { induction l as [|b l IH]; intros a Ha; [done|]. cbn. apply IH. pose proof (byteValue_range b). lia. }
    by apply Hfold. }
  pose proof (Hpos (take 32 octets)). pose proof (Hpos (take 32 (drop 32 octets))). rewrite Z.shiftr_div_pow2 in * by lia.
  split_and!; try done; try (unfold r, s in *; lia).
  by apply recovered_verifies.
Qed.
End curve.

(** ** Messages are their lines *)

Definition joined (lines : list string) : string := String.concat (String newline "") lines.

Lemma split_on_joined s : joined (split_on s newline) = s.
Proof.
  unfold joined. induction s as [|c s IH]; [done|]. cbn [split_on]. case_bool_decide as Hc.
  - subst c. destruct (split_on s newline) as [|l ls] eqn:E; [by destruct s|].
    cbn [String.concat]. rewrite <- IH. by destruct ls.
  - destruct (split_on s newline) as [|l ls] eqn:E; [by destruct s; cbn in E; repeat case_match|].
    rewrite <- IH. by destruct ls.
Qed.

Definition one_line (s : string) : Prop := any_octet (fun c => bool_decide (c = newline)) s = false.

Lemma split_on_lines lines : lines <> [] -> Forall one_line lines -> split_on (joined lines) newline = lines.
Proof.
  intros Hne Hl. unfold joined. induction Hl as [|l lines Hl Hls IH]; [done|]. destruct lines as [|l' lines].
  - cbn. by apply split_on_last.
  - cbn [String.concat]. rewrite sapp_cons, sapp_nil_l. rewrite split_on_app by done. f_equal. by apply IH.
Qed.

(** The eleven lines of a wallet message, with the text of the chain. *)
Definition siwe_lines (domain address statement uri chain nonce : string) (issuedAt expiresAt : Instant) : list string :=
  [domain +:+ " wants you to sign in with your Ethereum account:"; address; ""; statement; ""; "URI: " +:+ uri;
   "Version: 1"; "Chain ID: " +:+ chain; "Nonce: " +:+ nonce; "Issued At: " +:+ toIso8601 issuedAt;
   "Expiration Time: " +:+ toIso8601 expiresAt].

Lemma buildSiweMessage_lines domain address statement uri chainId nonce issuedAt expiresAt :
  buildSiweMessage domain address statement uri chainId nonce issuedAt expiresAt
  = joined (siwe_lines domain address statement uri (to_string chainId) nonce issuedAt expiresAt).
Proof.
  unfold buildSiweMessage, joined, siwe_lines. cbn [String.concat]. autorewrite with sapp. done.
Qed.

(** Eleven lines, one by one. *)
Lemma eleven_lines (lines : list string) : length lines = 11%nat ->
  lines = [line lines 0; line lines 1; line lines 2; line lines 3; line lines 4; line lines 5; line lines 6; line lines 7;
           line lines 8; line lines 9; line lines 10].
Proof. intros H. do 11 (destruct lines as [|? lines]; [done|]). by destruct lines. Qed.

Section messages.
Context `{Plat : Platform}.

(** What a valid message is: the lines of its challenge, whatever the spelling
    of the address and of the chain. *)
Lemma validated_message message challenge domain uri statement key lifetime now parsed :
  validateSiweMessage message challenge "siwe_" domain uri statement key lifetime now = Ok parsed ->
  exists address_text chain_text nonce issuedAt,
    message = joined (siwe_lines domain address_text statement uri chain_text nonce issuedAt (issuedAt + lifetime)) /\
    normalizeAddress address_text = Some (ParsedSiwe.address parsed) /\
    from_chars_u64 chain_text = Some (ParsedSiwe.chainId parsed) /\ ParsedSiwe.chainId parsed <> 0 /\
    walletChallengeChainId challenge = Ok (ParsedSiwe.chainId parsed) /\
    challengeNonce key challenge = Ok nonce /\ challengeTimestamp challenge "siwe_" = Ok issuedAt /\
    now < issuedAt + lifetime.
Proof.
  unfold validateSiweMessage. intros H. destruct (messageReadable message); [|done]. cbn [negb] in H. cbv zeta in H.
  pose proof (split_on_joined message) as Hjoin. set (lines := split_on message newline) in *.
  destruct (negb (length lines =? 11)%nat || _ || _ || _ || _ || _ || _ || _) eqn:Hform; [done|]. bool_prop.
  destruct (strip_prefix "Chain ID: " (line lines 7)) as [chain_text|] eqn:Hchain;
    [|match goal with H : is_Some None |- _ => by destruct H end].
  cbn [default from_option id] in H. destruct (from_chars_u64 chain_text) as [chainId|] eqn:Hid; [|done].
  destruct (Z.eqb_spec chainId 0) as [|Hne]; [done|].
  destruct (negb (bool_decide (walletChallengeChainId challenge = Ok chainId))) eqn:Hbound; [done|]. bool_prop.
  destruct (normalizeAddress (line lines 1)) as [address|] eqn:Haddr; [|done].
  destruct (challengeNonce key challenge) as [nonce|e|] eqn:Hnonce; [|done..].
  destruct (challengeTimestamp challenge "siwe_") as [issuedAt|e|] eqn:Htime; [|done..].
  cbn in H. destruct (negb (bool_decide (line lines 8 = _)) || _ || _) eqn:Hbinding; [done|]. bool_prop.
  destruct (Z.leb_spec (issuedAt + lifetime) now) as [|Hnow]; [done|]. injection H as <-.
  exists (line lines 1), chain_text, nonce, issuedAt. split; [|by split_and!].
  rewrite <- Hjoin. apply (f_equal joined). apply strip_prefix_some in Hchain.
  etrans; [apply eleven_lines; by apply Nat.eqb_eq|]. unfold siwe_lines. congruence.
Qed.
End messages.

(** ** A wallet signs in with its own challenge *)

Section wallet.
Context `{Plat : Platform} `{Laws : !PlatformLaws Plat} `{Transport : !RpcTransport} `{Curve : Secp256k1}.
Import WalletProviderConfig WalletAuthenticationProvider.

Lemma equal_addresses a b : constantTimeEquals (as_bytes a) (as_bytes b) = true <-> a = b.
Proof.
  rewrite constant_time_equals_spec, bool_decide_eq_true. split; [|by intros ->].
  intros E. rewrite <- (String.string_of_list_byte_of_string a), <- (String.string_of_list_byte_of_string b).
  unfold as_bytes in E. by rewrite E.
Qed.

(** A signature over a digest by the owner of an address: it recovers to the
    address, or the chain, which is the one configured, vouches for it. *)
Inductive signed_by (config : WalletProviderConfig.t) (address : string) (chainId : Z) (digest : list byte) (signature : string)
    : world -> world -> Prop :=
| signed_by_key w : recoverAddress digest signature = Ok address -> signed_by config address chainId digest signature w w
| signed_by_contract endpoint w1 w2 w3 : rpcEndpoint config chainId = Some endpoint ->
    rpcChainMatches endpoint chainId (m_caFile config) (m_authorizationHeader config) w1 = (Ok true, w2) ->
    contractWalletValid endpoint address digest signature (m_caFile config) (m_authorizationHeader config) w2 = (Ok true, w3) ->
    signed_by config address chainId digest signature w1 w3.

Lemma verified_signature config parsed digest signature w w' :
  verifySignature config parsed digest signature w = (Ok true, w') ->
  signed_by config (ParsedSiwe.address parsed) (ParsedSiwe.chainId parsed) digest signature w w'.
Proof.
  unfold verifySignature. destruct (recoverAddress digest signature) as [recovered|e|] eqn:Hr;
    [destruct (constantTimeEquals _ _) eqn:Heq|..].
  { intros [= <-]. apply equal_addresses in Heq as ->. by apply signed_by_key. }
  all: destruct (rpcEndpoint config (ParsedSiwe.chainId parsed)) as [endpoint|] eqn:He; [|done];
    intros ([|] & w1 & Hchain & Hvalid)%prog_bind_ok; [|done]; by eapply signed_by_contract.
Qed.

Lemma by_key config parsed digest signature w : recoverAddress digest signature = Ok (ParsedSiwe.address parsed) ->
  verifySignature config parsed digest signature w = (Ok true, w).
Proof. intros Hr. unfold verifySignature. rewrite Hr. by rewrite (proj2 (equal_addresses _ _) eq_refl). Qed.

(** C24: A wallet sign-in is earned. When the provider answers with an outcome, the
    response holds a message and a signature; the message is the one of this
    relying party for this challenge: its domain, its address of 20 octets, the
    statement, the URI, the chain that the challenge names, the nonce that only
    the server can compute from the challenge, and the times that follow from it, with
    nothing else in it; the challenge had not expired; the signature over that message is
    by the owner of the address; and the outcome names this provider and this
    address, with the lowest assurance. *)
Theorem wallet_sign_in_is_earned config response w outcome w' :
  completeAuthentication config response w = (Ok outcome, w') ->
  exists message signature address_text address chain_text chainId nonce issuedAt digest w1 w2,
    AuthenticationResponse.parameters response !! "message" = Some message /\
    AuthenticationResponse.parameters response !! "signature" = Some signature /\
    message = joined (siwe_lines (m_domain config) address_text kWalletStatement (m_uri config) chain_text nonce
                        issuedAt (issuedAt + m_challengeLifetime config)) /\
    normalizeAddress address_text = Some address /\
    from_chars_u64 chain_text = Some chainId /\ chainId <> 0 /\
    walletChallengeChainId (AuthenticationResponse.challengeId response) = Ok chainId /\
    challengeNonce (m_derivationKey config) (AuthenticationResponse.challengeId response) = Ok nonce /\
    challengeTimestamp (AuthenticationResponse.challengeId response) "siwe_" = Ok issuedAt /\
    (clock_now w).1 < issuedAt + m_challengeLifetime config /\
    ethereumMessageHash message = Ok digest /\
    signed_by config address chainId digest signature w1 w2 /\
    AuthenticationOutcome.provider outcome = id /\ AuthenticationOutcome.subject outcome = mkId address /\
    AuthenticationOutcome.claimedAssurance outcome = Ial1.
Proof.
  unfold completeAuthentication, parameter_of. intros H.
  destruct (AuthenticationResponse.parameters response !! "message") as [message|] eqn:Hm; [|done].
  destruct (AuthenticationResponse.parameters response !! "signature") as [signature|] eqn:Hsig; [|done].
  destruct (_ <? _)%nat; [done|].
  apply prog_bind_ok in H as (validatedAt & w1 & Hnow & H). apply prog_bind_ok in H as (parsed & w2 & [Hp ->]%lift_ok & H).
  apply prog_bind_ok in H as (digest & w3 & [Hd ->]%lift_ok & H). apply prog_bind_ok in H as ([|] & w4 & Hv & H); [|done].
  cbn [negb] in H. apply prog_bind_ok in H as (verifiedAt & w5 & _ & [Hout _]%lift_ok).
  destruct (validated_message _ _ _ _ _ _ _ _ _ Hp)
    as (address_text & chain_text & nonce & issuedAt & Hmsg & Haddr & Hchain & Hne & Hwc & Hnonce & Htime & Hlt).
  exists message, signature, address_text, (ParsedSiwe.address parsed), chain_text, (ParsedSiwe.chainId parsed), nonce, issuedAt, digest, w1, w4.
  assert (validatedAt = (clock_now w).1) as -> by (unfold now in Hnow; destruct (clock_now w); by injection Hnow).
  apply verified_signature in Hv. unfold AuthenticationOutcome.create in Hout.
  repeat (destruct (id_empty _); [done|]). injection Hout as <-. by split_and!.
Qed.

(** *** The message of a challenge is accepted *)

Lemma one_line_app a b : one_line (a +:+ b) <-> one_line a /\ one_line b.
Proof. unfold one_line. rewrite any_octet_app. apply orb_false_iff. Qed.

(** Octets that are not a line break make one line. *)
Lemma one_line_octets p s : all_octets p s = true -> p newline = false -> one_line s.
Proof.
  intros Hs Hp. unfold one_line. induction s as [|c s IH]; [done|]. cbn in *. apply andb_true_iff in Hs as [Hc Hs].
  rewrite IH by done. rewrite orb_false_r. apply bool_decide_eq_false. intros ->. congruence.
Qed.

Lemma no_octet_app p a b : any_octet p (a +:+ b) = false <-> any_octet p a = false /\ any_octet p b = false.
Proof. rewrite any_octet_app. apply orb_false_iff. Qed.

(** A text of printed octets: no line break and no carriage return. *)
Definition printed (s : string) : Prop := any_octet control_octet s = false.

Lemma printed_app a b : printed (a +:+ b) <-> printed a /\ printed b.
Proof. apply no_octet_app. Qed.

Lemma printed_octets p s : all_octets p s = true -> (forall c, p c = true -> control_octet c = false) -> printed s.
Proof.
  intros Hs Hp. unfold printed. induction s as [|c s IH]; [done|]. cbn in *. apply andb_true_iff in Hs as [Hc Hs].
  by rewrite Hp, IH.
Qed.

Lemma printed_one_line s : printed s -> one_line s.
Proof.
  unfold printed, one_line. induction s as [|c s IH]; [done|]. cbn. intros [Hc Hs]%orb_false_iff. rewrite IH by done.
  rewrite orb_false_r. apply bool_decide_eq_false. intros ->. by cbn in Hc.
Qed.

Lemma printed_no_return s : printed s -> contains s carriage_return = false.
Proof.
  unfold printed, contains. induction s as [|c s IH]; [done|]. cbn. intros [Hc Hs]%orb_false_iff. rewrite IH by done.
  rewrite orb_false_r. apply bool_decide_eq_false. intros ->. by cbn in Hc.
Qed.

Lemma digit_not_control d : 0 <= d < 10 -> negb (control_octet (digit d)) = true.
Proof.
  intros Hd. rewrite <- (Z2Nat.id d) by lia. assert (Hn : (Z.to_nat d < 10)%nat) by lia. revert Hn. generalize (Z.to_nat d). clear.
  do 10 (intros [|n]; [vm_compute; reflexivity|]; revert n). lia.
Qed.

Lemma printed_negb s : all_octets (fun c => negb (control_octet c)) s = true -> printed s.
Proof. intros H. apply (printed_octets _ s H). intros c. by destruct (control_octet c). Qed.

Lemma printed_number n : printed (to_string n).
Proof. apply printed_negb, to_string_octets; [done|apply digit_not_control]. Qed.

Lemma printed_time instant : four_digit_year instant -> printed (toIso8601 instant).
Proof. intros H. by apply printed_negb, toIso8601_octets; [|apply digit_not_control|..]. Qed.

Lemma printed_hex bytes : printed (toHex bytes).
Proof.
  assert (forall n, control_octet (at_ kHexDigitsLower (Z.land n 15)) = false) as Hd.
  { intros n. change 15 with (Z.ones 4). rewrite Z.land_ones by lia. pose proof (Z.mod_pos_bound n (2 ^ 4) ltac:(lia)) as Hr.
    revert Hr. generalize (n mod 2 ^ 4). clear. intros d Hd. rewrite <- (Z2Nat.id d) by lia.
    assert (Hn : (Z.to_nat d < 16)%nat) by lia. revert Hn. generalize (Z.to_nat d). clear.
    do 16 (intros [|n]; [vm_compute; reflexivity|]; revert n). lia. }
  unfold printed. induction bytes as [|b bytes IH]; [done|]. cbn [toHex any_octet]. by rewrite !Hd, IH.
Qed.

(** An address that is normalized stays as it is. *)
Lemma isHex_lower c : isHex c = true -> isHex (lower_octet c) = true /\ control_octet (lower_octet c) = false.
Proof.
  intros Hc. assert (forall c, implb (isHex c) (isHex (lower_octet c) && negb (control_octet (lower_octet c))) = true) as Hall
    by (apply forall_ascii; vm_compute; reflexivity).
  specialize (Hall c). rewrite Hc in Hall. cbn in Hall. apply andb_true_iff in Hall as [H1 H2]. by apply negb_true_iff in H2.
Qed.

Lemma lowercase_app a b : lowercase (a +:+ b) = lowercase a +:+ lowercase b.
Proof. induction a as [|c a IH]; [done|]. rewrite sapp_cons. cbn. by rewrite IH. Qed.

Lemma lowercase_idempotent a : lowercase (lowercase a) = lowercase a.
Proof. induction a as [|c a IH]; [done|]. cbn. by rewrite lower_octet_idem, IH. Qed.

Lemma lowercase_size a : String.length (lowercase a) = String.length a.
Proof. induction a as [|c a IH]; [done|]. cbn. by rewrite IH. Qed.

Lemma normalizeAddress_idempotent value address : normalizeAddress value = Some address ->
  normalizeAddress address = Some address /\ printed address /\ String.length address = 42%nat.
Proof.
  unfold normalizeAddress. destruct (strip_prefix "0x" value) as [rest|] eqn:Hs; [|done]. apply strip_prefix_some in Hs as ->.
  destruct (Nat.eqb_spec (String.length ("0x" +:+ rest)) 42) as [Hlen|]; cbn [negb orb]; [|done].
  destruct (all_octets isHex rest) eqn:Hx; [|done]. intros Ha. apply Some_inj in Ha as <-.
  assert (forall t, lowercase ("0x" +:+ t) = "0x" +:+ lowercase t) as Hlow by done. rewrite Hlow.
  assert (all_octets isHex (lowercase rest) = true /\ printed (lowercase rest)) as [Hxl Hpl].
  { clear Hlen. unfold printed. induction rest as [|c rest IH]; [done|]. cbn in Hx |- *. apply andb_true_iff in Hx as [Hc Hx].
    destruct (isHex_lower c Hc) as [-> ->]. by apply IH. }
  rewrite (proj2 (strip_prefix_some "0x" _ (lowercase rest))) by done.
  assert (String.length ("0x" +:+ lowercase rest) = 42%nat) as Hl by (rewrite slength_app, lowercase_size, <- slength_app; exact Hlen).
  rewrite Hl, Hxl. cbn [Nat.eqb negb orb]. split_and!; [|by apply printed_app|done].
  by rewrite Hlow, lowercase_idempotent.
Qed.

Lemma take_field_app a b : any_octet underscore a = false -> take_field (a +:+ "_" +:+ b) = Some (a, b).
Proof.
  intros Ha. unfold take_field. rewrite (proj2 (split_first_spec underscore (a +:+ "_" +:+ b) a ("_" +:+ b))); [done|].
  split_and!; [done..|by right].
Qed.

(** A number has neither separators nor slashes. *)
Lemma number_avoids p n : p "-"%char = false -> forallb (fun d => negb (p (digit (Z.of_nat d)))) (seq 0 10) = true ->
  any_octet p (to_string n) = false.
Proof.
  intros Hm Hp. assert (all_octets (fun c => negb (p c)) (to_string n) = true) as Hall.
  { apply to_string_octets; [by rewrite Hm|]. intros d Hd. rewrite forallb_forall in Hp.
    specialize (Hp (Z.to_nat d) ltac:(apply in_seq; lia)). by rewrite Z2Nat.id in Hp by lia. }
  revert Hall. generalize (to_string n). clear. induction s as [|c s IH]; [done|]. cbn. intros [Hc Hs]%andb_true_iff.
  apply negb_true_iff in Hc. by rewrite Hc, IH.
Qed.

Lemma number_no_underscore n : any_octet underscore (to_string n) = false.
Proof. by apply number_avoids; [|vm_compute; reflexivity]. Qed.

(** What a challenge identifier says of its time and of its chain. *)
Lemma challenge_fields now chainId random : 0 <= now <= 9223372036854775807 -> 0 < chainId <= kMaximumUint64 ->
  let challenge : ChallengeId := mkId ("siwe_" +:+ to_string now +:+ "_" +:+ to_string chainId +:+ "_" +:+ random) in
  challengeTimestamp challenge "siwe_" = Ok now /\ walletChallengeChainId challenge = Ok chainId.
Proof.
  intros Hn Hc challenge. unfold challengeTimestamp, walletChallengeChainId. cbn [id_value challenge].
  set (rest := to_string now +:+ _). rewrite (proj2 (strip_prefix_some "siwe_" ("siwe_" +:+ rest) rest)) by done. unfold rest.
  rewrite !take_field_app by apply number_no_underscore. unfold from_chars_int64, from_chars_u64, kMaximumUint64 in *.
  rewrite !from_chars_to_string by lia. destruct (Z.ltb_spec now 0); [lia|]. by destruct (Z.eqb_spec chainId 0); [lia|].
Qed.

Lemma joined_contains lines c : c <> newline -> Forall (fun l => contains l c = false) lines -> contains (joined lines) c = false.
Proof.
  intros Hc Hl. unfold joined. induction Hl as [|l lines Hl Hls IH]; [done|]. destruct lines as [|l' lines]; [done|].
  change (String.concat ?d (?a :: ?b :: ?ls)) with (a +:+ d +:+ String.concat d (b :: ls)).
  unfold contains in *. rewrite !any_octet_app, Hl, IH. cbn. rewrite !orb_false_r.
  apply bool_decide_eq_false. congruence.
Qed.

Lemma nonce_text key challenge nonce : challengeNonce key challenge = Ok nonce -> printed nonce /\ String.length nonce = 32%nat.
Proof.
  unfold challengeNonce. destruct (hmacSha256 _ _) as [digest|e|] eqn:Hh; [|done..]. intros [= <-].
  apply hmac_deterministic_length in Hh. unfold encodeHex. rewrite sapp_nil_l, toHex_length, length_take, Hh. by split; [apply printed_hex|].
Qed.

(** Printed lines make a message that can be read, and are read back. *)
Lemma printed_lines lines : (1 < length lines)%nat -> Forall printed lines -> (String.length (joined lines) <= 8192)%nat ->
  messageReadable (joined lines) = true /\ split_on (joined lines) newline = lines.
Proof.
  intros Hlen Hprinted Hsize. assert (split_on (joined lines) newline = lines) as Hsplit.
  { apply split_on_lines; [intros ->; cbn in Hlen; lia|]. eapply Forall_impl; [exact Hprinted|]. apply printed_one_line. }
  split; [|done]. unfold messageReadable. rewrite (proj2 (Nat.leb_le _ _) Hsize), joined_contains.
  - rewrite bool_decide_eq_false_2; [done|]. intros E. rewrite E in Hsplit. cbn in Hsplit. subst lines. cbn in Hlen. lia.
  - done.
  - eapply Forall_impl; [exact Hprinted|apply printed_no_return].
Qed.

Lemma few_octets n : (n <= 4900)%nat -> (n <= 8192)%nat.
Proof. intros Hn. etrans; [exact Hn|]. apply (proj1 (Nat.leb_le 4900 8192)). vm_compute. reflexivity. Qed.

(** The message of a challenge validates until it expires. *)
Lemma built_message_validates config random chainId address value nonce now later :
  printed (m_domain config) -> (String.length (m_domain config) <= 253)%nat ->
  printed (m_uri config) -> (String.length (m_uri config) <= 4096)%nat ->
  normalizeAddress value = Some address -> 0 < chainId <= kMaximumUint64 ->
  0 <= now -> now + m_challengeLifetime config < 253402300800000 -> 0 <= m_challengeLifetime config ->
  let challenge : ChallengeId := mkId ("siwe_" +:+ to_string now +:+ "_" +:+ to_string chainId +:+ "_" +:+ random) in
  challengeNonce (m_derivationKey config) challenge = Ok nonce -> later < now + m_challengeLifetime config ->
  validateSiweMessage
    (buildSiweMessage (m_domain config) address kWalletStatement (m_uri config) chainId nonce now (now + m_challengeLifetime config))
    challenge "siwe_" (m_domain config) (m_uri config) kWalletStatement (m_derivationKey config) (m_challengeLifetime config) later
  = Ok (ParsedSiwe.mk address chainId).
Proof.
  intros Hpd Hld Hpu Hlu Haddr Hchain Hnow Hend Hlife challenge Hnonce Hlater.
  destruct (normalizeAddress_idempotent _ _ Haddr) as (Hidem & Hpa & Hla).
  destruct (challenge_fields now chainId random ltac:(lia) Hchain) as [Htime Hwc]. fold challenge in Htime, Hwc.
  assert (four_digit_year now) as Hy1 by (apply four_digit_years; lia).
  assert (four_digit_year (now + m_challengeLifetime config)) as Hy2 by (apply four_digit_years; lia).
  destruct (iso8601_reads now Hy1) as [Hl1 _]. destruct (iso8601_reads _ Hy2) as [Hl2 _].
  destruct (nonce_text _ _ _ Hnonce) as [Hpn Hln].
  pose proof (to_string_length chainId 20 ltac:(unfold kMaximumUint64 in *; lia) ltac:(lia)) as Hlc.
  unfold validateSiweMessage. rewrite buildSiweMessage_lines. set (lines := siwe_lines _ _ _ _ _ _ _ _).
  assert (Forall printed lines) as Hprinted.
  { unfold lines, siwe_lines. rewrite !Forall_cons, !printed_app. split_and!;
      first [done | apply printed_number | by apply printed_time | by apply Forall_nil]. }
  destruct (printed_lines lines) as [-> Hsplit]; [cbn; lia|done| |].
  { apply few_octets. unfold lines, siwe_lines, joined. cbn [String.concat]. rewrite !slength_app. cbn [String.length].
    pose proof (eq_refl : String.length kWalletStatement = 48%nat) as ->. lia. }
  cbn [negb]. cbv zeta. rewrite Hsplit. unfold lines, siwe_lines, line. cbn [length lookup list_lookup from_option Datatypes.id Nat.eqb negb orb].
  rewrite (proj2 (strip_prefix_some "Chain ID: " ("Chain ID: " +:+ to_string chainId) (to_string chainId))) by done.
  rewrite !bool_decide_eq_true_2 by done. cbn [negb orb from_option Datatypes.id]. unfold from_chars_u64, kMaximumUint64 in *.
  rewrite from_chars_to_string by lia. destruct (Z.eqb_spec chainId 0); [lia|]. rewrite (bool_decide_eq_true_2 (walletChallengeChainId _ = _)) by done.
  cbn [negb]. rewrite Hidem, Hnonce, Htime. cbn [mbind result_bind]. rewrite !bool_decide_eq_true_2 by done. cbn [negb orb].
  destruct (Z.leb_spec (now + m_challengeLifetime config) later); [lia|done].
Qed.

(** What a configuration guarantees. *)
Lemma domain_text value : validDomain value = true -> printed value /\ (String.length value <= 253)%nat.
Proof.
  unfold validDomain, safeText. intros H. destruct (negb _ || _ || _ || _ || _ || _) eqn:Hf; [done|]. bool_prop.
  split; [done|]. by apply Nat.leb_le.
Qed.

Lemma url_text raw : is_ok (parseHttpsUrl raw) = true -> printed raw /\ (String.length raw <= 4096)%nat.
Proof.
  unfold parseHttpsUrl. destruct (strip_prefix _ _); [|done]. destruct (_ || any_octet blank_or_control raw) eqn:Hf; [done|].
  intros _. bool_prop. split; [|by apply Nat.ltb_ge].
  match goal with H : any_octet blank_or_control _ = false |- _ => revert H end. unfold printed. clear. induction raw as [|c raw IH]; [done|].
  cbn. intros [Hc Hr]%orb_false_iff. rewrite IH by done. rewrite orb_false_r. unfold blank_or_control, control_octet in *.
  apply orb_false_iff in Hc as [H1 H2]. apply orb_false_iff. split; [|done]. lia.
Qed.

Lemma created_config domain uri endpoints key lifetime caFile authorization config :
  create domain uri endpoints key lifetime caFile authorization = Ok config ->
  printed (m_domain config) /\ (String.length (m_domain config) <= 253)%nat /\
  printed (m_uri config) /\ (String.length (m_uri config) <= 4096)%nat /\ 0 <= m_challengeLifetime config.
Proof.
  unfold create. destruct (_ || _ || _ || _) eqn:Hf; [done|]. destruct (existsb _ _); [done|]. intros [= <-].
  unfold lifetimeAllowed in Hf. bool_prop. cbn.
  match goal with H : validDomain _ = true |- _ => destruct (domain_text _ H) end.
  match goal with H : is_ok _ = true |- _ => destruct (url_text _ H) end. split_and!; try done. lia.
Qed.

Lemma hexOctets_length s : (String.length s <= S (2 * length (hexOctets s)))%nat.
Proof.
  assert (forall n s, (String.length s <= n)%nat -> (String.length s <= S (2 * length (hexOctets s)))%nat) as H.
  { induction n as [|n IH]; intros [|c [|d t]] Hn; cbn in *; try lia. specialize (IH t ltac:(lia)). lia. }
  by apply (H (String.length s)).
Qed.

(** A signature that recovers is short. *)
Lemma recoverable_signature digest signature address :
  recoverAddress digest signature = Ok address -> (String.length signature <= 133)%nat.
Proof.
  unfold recoverAddress, decodeHex. destruct (_ || _); [done|].
  destruct (Nat.eqb_spec (length (hexOctets (default signature (strip_prefix "0x" signature)))) 65) as [Hl|]; cbn [negb]; [|done].
  intros _. pose proof (hexOctets_length (default signature (strip_prefix "0x" signature))) as Hs. rewrite Hl in Hs.
  destruct (strip_prefix "0x" signature) as [rest|] eqn:Hp; cbn in Hs; [|lia].
  apply strip_prefix_some in Hp as ->. rewrite slength_app. cbn. lia.
Qed.

Lemma parseDecimal_range text maximum n : parseDecimal text maximum = Ok n -> 0 <= n <= maximum.
Proof.
  unfold parseDecimal. destruct (_ || _); [done|]. destruct (from_chars_u64 text) as [v|] eqn:Hv; [|done].
  destruct (Z.ltb_spec maximum v); [done|]. intros [= <-]. split; [|done].
  unfold from_chars_u64, from_chars in Hv. destruct text as [|c rest]; [done|].
  cbn [andb] in Hv. destruct (digits_value _ 0) as [u|]; [|done]. cbn in Hv. destruct (Z.leb_spec 0 u); [|done].
  destruct (_ && _); [by injection Hv as <-|done].
Qed.

(** A challenge and what it was made of. *)
Lemma begun_challenge config request w challenge w1 : beginAuthentication config request w = (Ok challenge, w1) ->
  exists value address chainId random nonce,
    let now := (clock_now w).1 in
    let expiresAt := now + m_challengeLifetime config in
    let id : ChallengeId := mkId ("siwe_" +:+ to_string now +:+ "_" +:+ to_string chainId +:+ "_" +:+ random) in
    normalizeAddress value = Some address /\ 0 < chainId <= kMaximumUint64 /\
    AuthenticationChallenge.id challenge = id /\ AuthenticationChallenge.expiresAt challenge = expiresAt /\
    challengeNonce (m_derivationKey config) id = Ok nonce /\
    AuthenticationChallenge.parameters challenge !! "address" = Some address /\
    AuthenticationChallenge.parameters challenge !! "message"
    = Some (buildSiweMessage (m_domain config) address kWalletStatement (m_uri config) chainId nonce now expiresAt).
Proof.
  unfold beginAuthentication. intros H. destruct (negb _); [done|].
  destruct (parameter_of (AuthenticationRequest.parameters request) "address") as [value|]; cbn in H; [|done].
  destruct (normalizeAddress value) as [address|] eqn:Ha; [|done]. destruct (parameter_of _ "chain_id") as [chainValue|]; [|done].
  destruct (parseDecimal chainValue kMaximumUint64) as [chainId|e|] eqn:Hc; [|done..].
  destruct (Z.eqb_spec chainId 0) as [|Hne]; [done|].
  apply prog_bind_ok in H as (now & w2 & Hnow & H). apply prog_bind_ok in H as (challengeId & w3 & Hid & H).
  apply prog_bind_ok in H as (nonce & w4 & [Hnonce ->]%lift_ok & [= <- <-]).
  apply prog_bind_ok in Hid as (random & w5 & _ & [= <- _]).
  assert (now = (clock_now w).1) as -> by (unfold Security.now in Hnow; destruct (clock_now w); by injection Hnow).
  exists value, address, chainId, random, nonce. cbv zeta. split_and!; try done.
  all: pose proof (parseDecimal_range _ _ _ Hc); lia.
Qed.

(** C27: A wallet that signs what it was given signs in. Under every configuration the
    provider accepts, for every challenge it hands out until the year 9999: the message of
    the challenge, with a signature over its hash that recovers to the address of the
    challenge, completes the authentication at any time before the challenge
    expires, and signs in the address. *)
Theorem honest_wallet_signs_in domain uri endpoints key lifetime caFile authorization config request w challenge w1
    message address digest signature client w2 :
  create domain uri endpoints key lifetime caFile authorization = Ok config ->
  beginAuthentication config request w = (Ok challenge, w1) ->
  0 <= (clock_now w).1 -> AuthenticationChallenge.expiresAt challenge < 253402300800000 ->
  AuthenticationChallenge.parameters challenge !! "message" = Some message ->
  AuthenticationChallenge.parameters challenge !! "address" = Some address ->
  ethereumMessageHash message = Ok digest -> recoverAddress digest signature = Ok address ->
  (clock_now w2).1 < AuthenticationChallenge.expiresAt challenge ->
  exists outcome w3,
    completeAuthentication config
      (AuthenticationResponse.setParameter
         (AuthenticationResponse.setParameter
            (AuthenticationResponse.create (AuthenticationChallenge.id challenge) client) "message" message)
         "signature" signature) w2 = (Ok outcome, w3) /\
    AuthenticationOutcome.provider outcome = id /\ AuthenticationOutcome.subject outcome = mkId address.
Proof.
  intros Hconfig Hbegin Hnow Hend Hmsg Haddr Hdigest Hrec Hlater.
  destruct (created_config _ _ _ _ _ _ _ _ Hconfig) as (Hpd & Hld & Hpu & Hlu & Hlife).
  destruct (begun_challenge _ _ _ _ _ Hbegin) as (value & address' & chainId & random & nonce & Hnorm & Hchain & Hid & Hexp & Hnonce & Ha & Hm).
  rewrite Haddr in Ha. injection Ha as <-. rewrite Hmsg in Hm. injection Hm as ->. rewrite Hexp in *.
  pose proof (built_message_validates config random chainId address value nonce _ (clock_now w2).1
                Hpd Hld Hpu Hlu Hnorm Hchain Hnow Hend Hlife Hnonce Hlater) as Hvalid.
  pose proof (recoverable_signature _ _ _ Hrec) as Hsize.
  unfold completeAuthentication, parameter_of, AuthenticationResponse.setParameter, AuthenticationResponse.create.
  cbn [AuthenticationResponse.parameters AuthenticationResponse.challengeId].
  rewrite lookup_insert_ne, !lookup_insert_eq by done.
  rewrite (proj2 (Nat.ltb_ge 8192 _)) by (etrans; [exact Hsize|]; apply (proj1 (Nat.leb_le 133 8192)); vm_compute; reflexivity).
  destruct (clock_now w2) as [later w3] eqn:Hclock. rewrite (bind_run now _ w2 later w3) by (unfold now; by rewrite Hclock).
  rewrite Hid. cbn [fst] in Hvalid. erewrite bind_run by (apply lift_ok; split; [exact Hvalid|reflexivity]).
  erewrite bind_run by (apply lift_ok; split; [exact Hdigest|reflexivity]).
  erewrite bind_run by (apply by_key; exact Hrec). cbn [negb].
  destruct (clock_now w3) as [verifiedAt w4] eqn:Hclock'. rewrite (bind_run now _ w3 verifiedAt w4) by (unfold now; by rewrite Hclock').
  unfold AuthenticationOutcome.create, lift. change (id_empty id) with false. cbn iota.
  assert (id_empty (mkId (Tag:=ExternalSubjectTag) (ParsedSiwe.address (ParsedSiwe.mk address chainId))) = false) as ->.
  { destruct (normalizeAddress_idempotent _ _ Hnorm) as (_ & _ & Hl). cbn. unfold id_empty. cbn. by destruct address. }
  eexists (AuthenticationOutcome.mk _ _ _ _ _ _ _), w4. split; [reflexivity|split; reflexivity].
Qed.
End wallet.

(** ** A Farcaster sign-in *)

Lemma findFid_some resources fid fid' : findFid resources (Some fid) = Ok fid' -> omap fid_text resources = [] /\ fid' = Some fid.
Proof.
  induction resources as [|r resources IH]; cbn [findFid omap list_omap]; [by intros [= <-]|].
  destruct (fid_text r) as [text|]; [|exact IH]. destruct (parseDecimal _ _); [|done..]. rewrite bool_decide_eq_true_2 by done. by rewrite orb_true_r.
Qed.

Lemma findFid_found resources fid : findFid resources None = Ok (Some fid) ->
  exists text, omap fid_text resources = [text] /\ parseDecimal (without_suffix text "/") kMaximumUint64 = Ok fid /\ fid <> 0.
Proof.
  induction resources as [|r resources IH]; cbn [findFid omap list_omap]; [done|].
  destruct (fid_text r) as [text|]; [|exact IH]. destruct (parseDecimal _ _) as [v|e|] eqn:Hv; [|done..].
  destruct (Z.eqb_spec v 0) as [|Hne]; [done|]. cbn [orb]. rewrite bool_decide_eq_false_2 by (by intros []).
  intros [-> [= ->]]%findFid_some. by exists text.
Qed.

Lemma findResources_some index lines found k : findResources index lines (Some found) = Ok (Some k) ->
  k = found /\ "Resources:" ∉ lines.
Proof.
  revert index. induction lines as [|l lines IH]; intros index; cbn; [intros [= <-]; by split; [|apply not_elem_of_nil]|].
  case_bool_decide as Hl; [done|]. intros [-> Hn]%IH. split; [done|]. by apply not_elem_of_cons.
Qed.

(** The one line that opens the resources. *)
Lemma findResources_found index lines k : findResources index lines None = Ok (Some k) ->
  exists n, k = (index + n)%nat /\ lines !! n = Some "Resources:" /\ forall m, lines !! m = Some "Resources:" -> m = n.
Proof.
  revert index. induction lines as [|l lines IH]; intros index; cbn; [done|]. case_bool_decide as Hl.
  - intros [-> Hn]%findResources_some. exists 0%nat. subst l. split_and!; [lia|done|]. intros [|m] Hm; [done|].
    destruct Hn. by eapply list_elem_of_lookup_2.
  - intros (n & -> & Hn & Hu)%IH. exists (S n). split_and!; [lia|done|]. intros [|m] Hm; [by injection Hm|]. f_equal. by apply Hu.
Qed.

(** What binds a Farcaster message to a relying party and a challenge. *)
Record farcaster_message (config : FarcasterProviderConfig.t) (nonce message address : string) (fid : Z) : Prop := {
  fm_domain : split_on message newline !! 0%nat
    = Some (FarcasterProviderConfig.m_domain config +:+ " wants you to sign in with your Ethereum account:");
  fm_address : exists text, split_on message newline !! 1%nat = Some text /\ normalizeAddress text = Some address;
  fm_statement : split_on message newline !! 3%nat = Some kFarcasterStatement \/ split_on message newline !! 3%nat = Some "Farcaster Connect";
  fm_uri : split_on message newline !! 5%nat = Some ("URI: " +:+ FarcasterProviderConfig.m_uri config);
  fm_chain : split_on message newline !! 7%nat = Some "Chain ID: 10";
  fm_nonce : split_on message newline !! 8%nat = Some ("Nonce: " +:+ nonce);
  fm_fid : exists k text, (forall m, (10 <= m)%nat -> split_on message newline !! m = Some "Resources:" <-> m = k) /\
    omap fid_text (drop (k + 1) (split_on message newline)) = [text] /\
    parseDecimal (without_suffix text "/") kMaximumUint64 = Ok fid;
  fm_present : fid <> 0;
}.

Lemma line_lookup lines index text : (index < length lines)%nat -> line lines index = text -> lines !! index = Some text.
Proof. intros Hi. unfold line. destruct (lookup_lt_is_Some_2 lines index Hi) as [l Hl]. rewrite Hl. cbn. congruence. Qed.

Section farcaster.
Context `{Plat : Platform}.

Lemma validated_farcaster config message challenge now parsed :
  validateFarcasterMessage message challenge (FarcasterProviderConfig.m_domain config) (FarcasterProviderConfig.m_uri config)
    (FarcasterProviderConfig.m_derivationKey config) (FarcasterProviderConfig.m_challengeLifetime config) now = Ok parsed ->
  exists nonce start,
    farcaster_message config nonce message (ParsedFarcasterSiwe.address parsed) (ParsedFarcasterSiwe.fid parsed) /\
    challengeNonce (FarcasterProviderConfig.m_derivationKey config) challenge = Ok nonce /\
    challengeTimestamp challenge "fcsiwf_" = Ok start /\
    now < start + FarcasterProviderConfig.m_challengeLifetime config.
Proof.
  unfold validateFarcasterMessage. intros H. destruct (messageReadable message); [|done]. cbn [negb] in H. cbv zeta in H.
  set (lines := split_on message newline) in *.
  destruct ((length lines <? 13)%nat || _ || _ || _ || _ || _ || _ || _) eqn:Hform; [done|]. bool_prop.
  apply result_bind_ok in H as ([k|] & Hk & H); [|done]. destruct (Nat.leb_spec (length lines) (k + 1)) as [|Hkl]; [done|].
  apply result_bind_ok in H as ([fid|] & Hfid & H); [|by destruct (normalizeAddress _)].
  destruct (normalizeAddress (line lines 1)) as [address|] eqn:Haddr; [|done].
  destruct (challengeNonce _ challenge) as [nonce|e|] eqn:Hnonce; [|done..].
  destruct (challengeTimestamp challenge "fcsiwf_") as [start|e|] eqn:Htime; [|done..].
  destruct (strip_prefix "Nonce: " (line lines 8)) as [nonceText|] eqn:Hn; [|done].
  destruct (strip_prefix "Issued At: " (line lines 9)) as [issuedText|]; [|done].
  destruct (negb (bool_decide (nonceText = nonce))) eqn:Hnn; [done|]. bool_prop. subst nonceText.
  apply result_bind_ok in H as (fields & _ & H). destruct (expirationText fields) as [expiration|]; [|done].
  destruct (timeWindowValid _ _ _ _ _ _) eqn:Hw; [|done]. cbn [negb] in H. injection H as <-.
  assert (13 <= length lines)%nat as Hlen by (by apply Nat.ltb_ge).
  apply strip_prefix_some in Hn. destruct (findFid_found _ _ Hfid) as (text & Hone & Hparse & Hne).
  destruct (findResources_found _ _ _ Hk) as (n & -> & Hat & Huniq). exists nonce, start. split_and!; [|done..|].
  - split; fold lines; try (apply line_lookup; [lia|done]); [| | |done].
    + exists (line lines 1). split; [by apply line_lookup; [lia|]|done].
    + match goal with H : _ || _ = true |- _ => apply orb_true_iff in H as [H|H]; apply bool_decide_eq_true in H end;
        [left|right]; by apply line_lookup; [lia|].
    + exists (10 + n)%nat, text. split_and!; [|done..]. intros m Hm. rewrite lookup_drop in Hat. split; [|by intros ->].
      intros Hres. specialize (Huniq (m - 10)%nat). rewrite lookup_drop in Huniq. replace (10 + (m - 10))%nat with m in Huniq by lia.
      specialize (Huniq Hres). lia.
  - unfold timeWindowValid in Hw. destruct (parseSiweInstant issuedText); [|done]. destruct (parseSiweInstant expiration); [|done].
    bool_prop. done.
Qed.

Context `{Verifier : !FarcasterChainVerifier}.
Import FarcasterProviderConfig FarcasterAuthenticationProvider.

(** C26: A Farcaster sign-in is earned. When the provider answers with an outcome: the
    message of the response is bound to the domain and the URI of this relying party
    and to the challenge, by the nonce that only the server can compute from it; it
    names one address and, in its one resource section, one FID; the
    challenge had not expired; the chain verified the signature of that address
    over that message, and authorized the address for the FID after that; and
    the outcome names this provider and that FID, with the lowest assurance. *)
Theorem farcaster_sign_in_is_earned config response w outcome w' :
  completeAuthentication config response w = (Ok outcome, w') ->
  exists message signature address fid nonce start kind w1 w2 w3,
    AuthenticationResponse.parameters response !! "message" = Some message /\
    AuthenticationResponse.parameters response !! "signature" = Some signature /\
    farcaster_message config nonce message address fid /\
    challengeNonce (m_derivationKey config) (AuthenticationResponse.challengeId response) = Ok nonce /\
    challengeTimestamp (AuthenticationResponse.challengeId response) "fcsiwf_" = Ok start /\
    (clock_now w).1 < start + m_challengeLifetime config /\
    fcv_verifySignature address message signature w1 = (Ok true, w2) /\
    authorizeSigner fid address w2 = (Ok (Some kind), w3) /\
    AuthenticationOutcome.provider outcome = id /\ AuthenticationOutcome.subject outcome = mkId (to_string fid) /\
    AuthenticationOutcome.claimedAssurance outcome = Ial1.
Proof.
  unfold completeAuthentication, parameter_of. intros H.
  destruct (AuthenticationResponse.parameters response !! "message") as [message|] eqn:Hm; [|done].
  destruct (AuthenticationResponse.parameters response !! "signature") as [signature|] eqn:Hsig; [|done].
  destruct (_ <? _)%nat; [done|].
  apply prog_bind_ok in H as (validatedAt & w1 & Hnow & H). apply prog_bind_ok in H as (parsed & w2 & [Hp ->]%lift_ok & H).
  apply prog_bind_ok in H as ([|] & w3 & Hv & H); [|done]. cbn [negb] in H.
  apply prog_bind_ok in H as ([kind|] & w4 & Ha & H); [|done]. apply prog_bind_ok in H as (verifiedAt & w5 & _ & [Hout _]%lift_ok).
  destruct (validated_farcaster _ _ _ _ _ Hp) as (nonce & start & Hmsg & Hnonce & Htime & Hlt).
  exists message, signature, (ParsedFarcasterSiwe.address parsed), (ParsedFarcasterSiwe.fid parsed), nonce, start, kind, w1, w3, w4.
  assert (validatedAt = (clock_now w).1) as -> by (unfold now in Hnow; destruct (clock_now w); by injection Hnow).
  unfold AuthenticationOutcome.create in Hout. repeat (destruct (id_empty _); [done|]). injection Hout as <-. by split_and!.
Qed.

(** *** The message of a challenge is accepted *)

Lemma without_suffix_same text c : contains text c = false -> without_suffix text c = text.
Proof. unfold contains, without_suffix. intros H. apply split_last_none in H. by rewrite H. Qed.

Lemma number_no_slash n : contains (to_string n) "/" = false.
Proof. by apply number_avoids; [|vm_compute; reflexivity]. Qed.

Lemma parse_number n : 0 <= n <= kMaximumUint64 -> parseDecimal (to_string n) kMaximumUint64 = Ok n.
Proof.
  intros Hn. unfold parseDecimal, kMaximumUint64 in *. rewrite bool_decide_eq_false_2.
  - rewrite (proj2 (Nat.ltb_ge 20 _)) by (apply to_string_length; lia). cbn [orb]. unfold from_chars_u64.
    rewrite from_chars_to_string by lia. destruct (Z.ltb_spec 18446744073709551615 n); [lia|done].
  - intros E. pose proof (from_chars_to_string false 0 18446744073709551615 n ltac:(lia) ltac:(lia)) as H. by rewrite E in H.
Qed.

(** The thirteen lines of the message of a challenge. *)
Definition farcaster_lines (domain address uri nonce : string) (issuedAt expiresAt : Instant) (fid : Z) : list string :=
  siwe_lines domain address kFarcasterStatement uri "10" nonce issuedAt expiresAt
  ++ ["Resources:"; "- farcaster://fid/" +:+ to_string fid].

Lemma buildFarcasterMessage_lines domain address uri nonce issuedAt expiresAt fid :
  buildFarcasterMessage domain address uri nonce issuedAt expiresAt fid
  = joined (farcaster_lines domain address uri nonce issuedAt expiresAt fid).
Proof.
  unfold buildFarcasterMessage. rewrite buildSiweMessage_lines. unfold joined, farcaster_lines, siwe_lines. change (to_string kOptimismMainnetChainId) with "10".
  cbn [String.concat app]. autorewrite with sapp. done.
Qed.

Context `{Laws : !PlatformLaws Plat}.

Lemma farcaster_timestamp now random : 0 <= now <= 9223372036854775807 ->
  challengeTimestamp (mkId ("fcsiwf_" +:+ to_string now +:+ "_" +:+ random)) "fcsiwf_" = Ok now.
Proof.
  intros Hn. unfold challengeTimestamp. cbn [id_value].
  rewrite (proj2 (strip_prefix_some "fcsiwf_" _ (to_string now +:+ "_" +:+ random))) by done.
  rewrite take_field_app by apply number_no_underscore. unfold from_chars_int64. rewrite from_chars_to_string by lia.
  by destruct (Z.ltb_spec now 0); [lia|].
Qed.

Lemma built_farcaster_validates config random fid address value nonce now later :
  printed (m_domain config) -> (String.length (m_domain config) <= 253)%nat ->
  printed (m_uri config) -> (String.length (m_uri config) <= 4096)%nat ->
  normalizeAddress value = Some address -> 0 < fid <= kMaximumUint64 ->
  0 <= now -> now + m_challengeLifetime config < 253402300800000 -> 0 < m_challengeLifetime config ->
  let challenge : ChallengeId := mkId ("fcsiwf_" +:+ to_string now +:+ "_" +:+ random) in
  challengeNonce (m_derivationKey config) challenge = Ok nonce ->
  now - clockSkew <= later -> later < now + m_challengeLifetime config ->
  validateFarcasterMessage
    (buildFarcasterMessage (m_domain config) address (m_uri config) nonce now (now + m_challengeLifetime config) fid)
    challenge (m_domain config) (m_uri config) (m_derivationKey config) (m_challengeLifetime config) later
  = Ok (ParsedFarcasterSiwe.mk address fid).
Proof.
  intros Hpd Hld Hpu Hlu Haddr Hfid Hnow Hend Hlife challenge Hnonce Hskew Hlater.
  destruct (normalizeAddress_idempotent _ _ Haddr) as (Hidem & Hpa & Hla).
  pose proof (farcaster_timestamp now random ltac:(lia)) as Htime. fold challenge in Htime.
  assert (four_digit_year now) as Hy1 by (apply four_digit_years; lia).
  assert (four_digit_year (now + m_challengeLifetime config)) as Hy2 by (apply four_digit_years; lia).
  destruct (iso8601_reads now Hy1) as [Hl1 Hr1]. destruct (iso8601_reads _ Hy2) as [Hl2 Hr2].
  destruct (nonce_text _ _ _ Hnonce) as [Hpn Hln].
  pose proof (to_string_length fid 20 ltac:(unfold kMaximumUint64 in *; lia) ltac:(lia)) as Hlf.
  unfold validateFarcasterMessage. rewrite buildFarcasterMessage_lines. set (lines := farcaster_lines _ _ _ _ _ _ _).
  assert (Forall printed lines) as Hprinted.
  { unfold lines, farcaster_lines, siwe_lines. cbn [app]. rewrite !Forall_cons, !printed_app. split_and!;
      first [done | apply printed_number | by apply printed_time | by apply Forall_nil]. }
  destruct (printed_lines lines) as [-> Hsplit]; [cbn; lia|done| |].
  { apply few_octets. unfold lines, farcaster_lines, siwe_lines, joined. cbn [app String.concat]. rewrite !slength_app. cbn [String.length].
    pose proof (eq_refl : String.length kFarcasterStatement = 14%nat) as ->. change (String.length "10") with 2%nat. lia. }
  cbn [negb]. cbv zeta. rewrite Hsplit. unfold lines, farcaster_lines, siwe_lines, line.
  cbn [app length lookup list_lookup from_option Datatypes.id drop]. rewrite !(bool_decide_eq_true_2 (_ = _)) by done.
  cbn [Nat.ltb Nat.leb negb orb findResources]. rewrite (bool_decide_eq_false_2 ("Expiration Time: " +:+ _ = _)) by done.
  rewrite (bool_decide_eq_true_2 ("Resources:" = "Resources:")) by done.
  rewrite (bool_decide_eq_false_2 ("- farcaster://fid/" +:+ _ = _)) by done. cbn [mbind result_bind Nat.leb Nat.add drop take Nat.sub].
  rewrite Hidem. cbn [findFid]. assert (fid_text ("- farcaster://fid/" +:+ to_string fid) = Some (to_string fid)) as ->.
  { unfold fid_text. by rewrite (proj2 (strip_prefix_some "- farcaster://fid/" _ (to_string fid))). }
  rewrite without_suffix_same, parse_number by (apply number_no_slash || lia). destruct (Z.eqb_spec fid 0); [lia|].
  rewrite (bool_decide_eq_false_2 (is_Some None)) by (by intros []). cbn [orb mbind result_bind findFid].
  rewrite Hnonce, Htime. rewrite (proj2 (strip_prefix_some "Nonce: " _ nonce)), (proj2 (strip_prefix_some "Issued At: " _ (toIso8601 now))) by done.
  rewrite (bool_decide_eq_true_2 (nonce = nonce)) by done. cbn [negb optionalFields].
  rewrite (proj2 (strip_prefix_some "Expiration Time: " _ (toIso8601 (now + m_challengeLifetime config)))) by done.
  cbn [expirationText notBeforeText requestIdSeen]. rewrite (bool_decide_eq_false_2 (is_Some None)) by (by intros []). cbn [mbind result_bind expirationText notBeforeText].
  rewrite Hr1, Hr2. assert (timeWindowValid (Some now) (Some (now + m_challengeLifetime config)) None now (now + m_challengeLifetime config) later = true) as ->; [|by rewrite !(bool_decide_eq_true_2 (_ = _)) by done].
  unfold timeWindowValid. cbn [mbind option_bind]. rewrite (bool_decide_eq_false_2 (is_Some None)) by (by intros []). unfold clockSkew in *. cbn [andb negb]. rewrite !andb_true_iff. lia.
Qed.

(** A configuration the provider accepts. *)
Lemma created_farcaster domain uri chainId endpoint registry key lifetime caFile authorization keyRegistry config :
  create domain uri chainId endpoint registry key lifetime caFile authorization keyRegistry = Ok config ->
  printed (m_domain config) /\ (String.length (m_domain config) <= 253)%nat /\
  printed (m_uri config) /\ (String.length (m_uri config) <= 4096)%nat /\ 0 < m_challengeLifetime config.
Proof.
  unfold create. destruct (normalizeAddress registry); [|done].
  destruct (if bool_decide (keyRegistry = "") then Some "" else normalizeAddress keyRegistry); [|done].
  destruct (_ || _ || _ || _ || _ || _) eqn:Hf; [done|]. intros [= <-]. unfold lifetimeAllowed in Hf. bool_prop. cbn.
  match goal with H : validDomain _ = true |- _ => destruct (domain_text _ H) end.
  match goal with H : is_ok (parseHttpsUrl uri) = true |- _ => destruct (url_text _ H) end. split_and!; try done. lia.
Qed.

(** The signer of a request is an address and an FID that exist. *)
Lemma requested_signer addressValue fidValue w address fid kind w' :
  requestedSigner addressValue fidValue w = (Ok (Some (address, fid, kind)), w') ->
  exists value, normalizeAddress value = Some address /\ 0 < fid <= kMaximumUint64.
Proof.
  unfold requestedSigner. destruct addressValue as [value|]; [|done]. destruct fidValue as [text|]; [|done].
  destruct (normalizeAddress value) as [address'|] eqn:Ha; [|done].
  destruct (parseDecimal text kMaximumUint64) as [fid'|e|] eqn:Hf; [|done..].
  destruct (Z.eqb_spec fid' 0); [done|]. intros ([kind'|] & w1 & _ & H)%prog_bind_ok; [|done]. injection H as <- <- <- _.
  exists value. apply parseDecimal_range in Hf. split; [done|lia].
Qed.

(** A challenge that holds a message, and what it was made of. *)
Lemma begun_farcaster config request w challenge w1 message :
  beginAuthentication config request w = (Ok challenge, w1) ->
  AuthenticationChallenge.parameters challenge !! "message" = Some message ->
  exists now random value address fid nonce,
    let id : ChallengeId := mkId ("fcsiwf_" +:+ to_string now +:+ "_" +:+ random) in
    let expiresAt := now + m_challengeLifetime config in
    normalizeAddress value = Some address /\ 0 < fid <= kMaximumUint64 /\
    AuthenticationChallenge.id challenge = id /\ AuthenticationChallenge.expiresAt challenge = expiresAt /\
    challengeNonce (m_derivationKey config) id = Ok nonce /\
    AuthenticationChallenge.parameters challenge !! "address" = Some address /\
    AuthenticationChallenge.parameters challenge !! "fid" = Some (to_string fid) /\
    message = buildFarcasterMessage (m_domain config) address (m_uri config) nonce now expiresAt fid.
Proof.
  unfold beginAuthentication. intros H Hm. destruct (negb _); [done|]. destruct (negb _); [done|].
  apply prog_bind_ok in H as ([|] & w2 & _ & H); [|done]. cbn [negb] in H.
  apply prog_bind_ok in H as (signer & w3 & Hs & H). apply prog_bind_ok in H as (now & w4 & _ & H).
  apply prog_bind_ok in H as (challengeId & w5 & Hid & H). apply prog_bind_ok in H as (nonce & w6 & [Hn ->]%lift_ok & [= <- <-]).
  apply prog_bind_ok in Hid as (random & w7 & _ & [= <- _]).
  destruct signer as [[[address fid] kind]|]; cbn [signerParameters] in Hm; [|vm_compute in Hm; done].
  destruct (requested_signer _ _ _ _ _ _ _ Hs) as (value & Ha & Hf).
  exists now, random, value, address, fid, nonce. cbv zeta.
  assert (Some (buildFarcasterMessage (m_domain config) address (m_uri config) nonce now (now + m_challengeLifetime config) fid)
          = Some message) as [= <-] by (rewrite <- Hm; done).
  split_and!; done || by apply Hf.
Qed.

(** A Farcaster user that signs what it was given signs in. Under every
    configuration the provider accepts, for every challenge with a message that it
    hands out until the year 9999: when the chain verifies the signature of the
    address of the challenge over that message, and then still authorizes the address
    for the FID of the challenge, the completion succeeds at any time
    before the challenge expires, and signs in the FID. *)
Theorem honest_farcaster_signs_in domain uri chainId endpoint registry key lifetime caFile authorization keyRegistry
    config request w challenge w1 message address fid signature kind client w2 later w3 w4 w5 :
  create domain uri chainId endpoint registry key lifetime caFile authorization keyRegistry = Ok config ->
  beginAuthentication config request w = (Ok challenge, w1) ->
  m_challengeLifetime config <= AuthenticationChallenge.expiresAt challenge < 253402300800000 ->
  AuthenticationChallenge.parameters challenge !! "message" = Some message ->
  AuthenticationChallenge.parameters challenge !! "address" = Some address ->
  AuthenticationChallenge.parameters challenge !! "fid" = Some (to_string fid) ->
  (String.length signature <= 8192)%nat -> 0 <= fid <= kMaximumUint64 -> clock_now w2 = (later, w3) ->
  AuthenticationChallenge.expiresAt challenge - m_challengeLifetime config <= later < AuthenticationChallenge.expiresAt challenge ->
  fcv_verifySignature address message signature w3 = (Ok true, w4) ->
  authorizeSigner fid address w4 = (Ok (Some kind), w5) ->
  exists outcome w6,
    completeAuthentication config
      (AuthenticationResponse.setParameter
         (AuthenticationResponse.setParameter
            (AuthenticationResponse.create (AuthenticationChallenge.id challenge) client) "message" message)
         "signature" signature) w2 = (Ok outcome, w6) /\
    AuthenticationOutcome.provider outcome = id /\ AuthenticationOutcome.subject outcome = mkId (to_string fid).
Proof.
  intros Hconfig Hbegin Hexpiry Hmsg Haddr Hfidp Hsize Hfid Hclock Hlater Hsig Hauth.
  destruct (created_farcaster _ _ _ _ _ _ _ _ _ _ _ Hconfig) as (Hpd & Hld & Hpu & Hlu & Hlife).
  destruct (begun_farcaster _ _ _ _ _ _ Hbegin Hmsg) as (now & random & value & address' & fid' & nonce & Hnorm & Hf & Hid & Hexp & Hnonce & Ha & Hft & ->).
  rewrite Haddr in Ha. injection Ha as <-. rewrite Hfidp in Hft. injection Hft as Hft.
  assert (fid = fid') as <-.
  { pose proof (parse_number fid Hfid) as H1. rewrite Hft, parse_number in H1 by lia. by injection H1. }
  rewrite Hexp in *.
  pose proof (built_farcaster_validates config random fid address value nonce now later Hpd Hld Hpu Hlu Hnorm Hf
                ltac:(lia) ltac:(lia) Hlife Hnonce ltac:(unfold clockSkew; lia) ltac:(lia)) as Hvalid.
  unfold completeAuthentication, parameter_of, AuthenticationResponse.setParameter, AuthenticationResponse.create.
  cbn [AuthenticationResponse.parameters AuthenticationResponse.challengeId].
  rewrite lookup_insert_ne, !lookup_insert_eq by done. rewrite (proj2 (Nat.ltb_ge 8192 _)) by exact Hsize.
  rewrite (bind_run Security.now _ w2 later w3) by (unfold Security.now; by rewrite Hclock).
  rewrite Hid. erewrite bind_run by (apply lift_ok; split; [exact Hvalid|reflexivity]).
  cbn [ParsedFarcasterSiwe.address ParsedFarcasterSiwe.fid]. erewrite bind_run by exact Hsig. cbn [negb].
  erewrite bind_run by exact Hauth.
  destruct (clock_now w5) as [verifiedAt w6] eqn:Hclock'. rewrite (bind_run Security.now _ w5 verifiedAt w6) by (unfold Security.now; by rewrite Hclock').
  unfold AuthenticationOutcome.create, lift. change (id_empty id) with false. cbn iota.
  assert (id_empty (mkId (Tag:=ExternalSubjectTag) (to_string fid)) = false) as ->.
  { pose proof (parse_number fid Hfid) as H1. unfold id_empty. cbn. by destruct (to_string fid). }
  eexists (AuthenticationOutcome.mk _ _ _ _ _ _ _), w6. split; [reflexivity|split; reflexivity].
Qed.
End farcaster.

(** ** Witnesses

    A group of three points in place of the curve, and transports that reach nothing. *)
Module WalletWitnesses.
Import TestPlatform.

Inductive triple := T0 | T1 | T2.
Definition of_residue (n : Z) : triple := if n mod 3 =? 0 then T0 else if n mod 3 =? 1 then T1 else T2.
Definition residue (p : triple) : Z := match p with T0 => 0 | T1 => 1 | T2 => 2 end.

(** The two points other than the neutral one share the abscissa 1. *)
#[local] Instance triple_curve : Secp256k1 := {
  point := triple;
  curve_order := 3;
  field_prime := 7;
  set_compressed_coordinates x parity := if x =? 1 then Some (if parity =? 0 then T1 else T2) else None;
  mul_point p k := Some (of_residue (k * residue p));
  mul_generator k := Some (of_residue k);
  add_points p q := Some (of_residue (residue p + residue q));
  is_at_infinity p := match p with T0 => true | _ => false end;
  point2oct p := match p with T0 => [toByte 0] | _ => toByte 4 :: replicate 63 (toByte 0) ++ [toByte (residue p)] end;
  mod_inverse a n := if a mod n =? 0 then None else Some (a mod n);
}.

Lemma of_residue_congruent a b : a mod 3 = b mod 3 -> of_residue a = of_residue b.
Proof. unfold of_residue. by intros ->. Qed.
Lemma residue_of_residue a : residue (of_residue a) = a mod 3.
Proof.
  pose proof (Z.mod_pos_bound a 3 ltac:(lia)). unfold of_residue.
  destruct (Z.eqb_spec (a mod 3) 0); [done|]. destruct (Z.eqb_spec (a mod 3) 1); [done|]. cbn. lia.
Qed.
Lemma of_residue_residue p : of_residue (residue p) = p.
Proof. by destruct p. Qed.

#[local] Instance triple_curve_laws : Secp256k1Laws triple_curve.
Proof.
  refine {| zero := (T0 : @point triple_curve); generator := T1; plus := fun p q => of_residue (residue p + residue q);
            smul := fun k p => of_residue (k * residue p) |}.
  - by intros [] [] [].
  - by intros [] [].
  - by intros [].
  - intros a b p. rewrite !residue_of_residue. apply of_residue_congruent. by rewrite <- Zplus_mod, Z.mul_add_distr_r.
  - intros a b p. rewrite !residue_of_residue. apply of_residue_congruent. by rewrite Zmult_mod_idemp_r, Z.mul_assoc.
  - intros p. by rewrite Z.mul_1_l, of_residue_residue.
  - done.
  - by intros [].
  - intros a. cbn [residue]. by rewrite Z.mul_0_r.
  - intros p k q [= <-]. done.
  - intros k q [= <-]. cbn [residue]. by rewrite Z.mul_1_r.
  - intros p q r [= <-]. done.
  - intros a i. cbn [mod_inverse curve_order triple_curve]. pose proof (Z.mod_pos_bound a 3 ltac:(lia)) as Ha.
    destruct (Z.eqb_spec (a mod 3) 0); [done|]. intros [= <-]. rewrite Zmult_mod_idemp_r, Zmult_mod.
    assert (a mod 3 = 1 \/ a mod 3 = 2) as [-> | ->] by lia; done.
Defined.

#[local] Instance unreachable : RpcTransport := { rpc_post _ _ _ _ _ w := (Raised, w) }.

(** A signature of a digest: r and s are one, and the last octet names the point. *)
Definition one_32 : string := "0000000000000000000000000000000000000000000000000000000000000001".
Definition signature_of (parity : string) : string := "0x" +:+ one_32 +:+ one_32 +:+ parity.

(** A digest: the number 255. *)
Definition message_digest : list byte := replicate 31 (toByte 0) ++ [toByte 255].
Definition wallet_address : string := "0x7f7915573c7e97b47efa546f5f6e3230263bcb49".
Definition wallet_config : WalletProviderConfig.t :=
  WalletProviderConfig.mk "login.example" "https://login.example/wallet" ∅ "0123456789abcdef0123456789abcdef" 300000 "" "".
Definition wallet_request : AuthenticationRequest.t :=
  AuthenticationRequest.setParameter
    (AuthenticationRequest.setParameter
       (AuthenticationRequest.create WalletAuthenticationProvider.id ClientContext.create) "address" wallet_address)
    "chain_id" "1".
(** The challenge of the first instant of 2025. *)
Definition wallet_begun : Result AuthenticationChallenge.t * Z :=
  WalletAuthenticationProvider.beginAuthentication (Plat:=test) wallet_config wallet_request 1735689600000.
Definition challenge_of (r : Result AuthenticationChallenge.t) : AuthenticationChallenge.t :=
  match r with Ok challenge => challenge | _ => AuthenticationChallenge.create (mkId "") 0 end.
Definition wallet_challenge : AuthenticationChallenge.t := challenge_of wallet_begun.1.
Definition parameter_in (challenge : AuthenticationChallenge.t) (name : string) : string :=
  default "" (AuthenticationChallenge.parameters challenge !! name).
Definition digest_of (r : Result (list byte)) : list byte := match r with Ok digest => digest | _ => [] end.
Definition wallet_digest : list byte := digest_of (ethereumMessageHash (parameter_in wallet_challenge "message")).

Definition wallet_response : AuthenticationResponse.t :=
  AuthenticationResponse.setParameter
    (AuthenticationResponse.setParameter
       (AuthenticationResponse.create (AuthenticationChallenge.id wallet_challenge) ClientContext.create)
       "message" (parameter_in wallet_challenge "message")) "signature" (signature_of "00").
Definition wallet_completed : Result AuthenticationOutcome.t * Z :=
  WalletAuthenticationProvider.completeAuthentication (Plat:=test) wallet_config wallet_response 1735689630000.
Definition outcome_of (r : Result AuthenticationOutcome.t) : option AuthenticationOutcome.t :=
  match r with Ok outcome => Some outcome | _ => None end.

Lemma recovered_signer_verifies_witness : exists octets R Q,
  decodeHex (signature_of "00") = Some octets /\ verifies (C:=triple_curve) Q R 1 1 255 /\ wallet_address = address_of Q.
Proof.
  destruct (recovered_signer_verifies (Laws:=triple_curve_laws) message_digest (signature_of "00") wallet_address
              ltac:(vm_compute; reflexivity)) as (octets & recoveryId & R & Q & Hd & _ & _ & _ & _ & _ & Hv & Ha).
  exists octets, R, Q. split; [exact Hd|]. split; [|exact Ha].
  assert (octets = default [] (decodeHex (signature_of "00"))) as -> by (by rewrite Hd). exact Hv.
Defined.

Lemma wallet_completes : exists outcome, wallet_completed = (Ok outcome, 1735689630002).
Proof. eexists. vm_compute. reflexivity. Qed.

Lemma wallet_sign_in_is_earned_witness : exists outcome w' message,
  wallet_completed = (Ok outcome, w') /\ AuthenticationResponse.parameters wallet_response !! "message" = Some message /\
  AuthenticationOutcome.provider outcome = WalletAuthenticationProvider.id.
Proof.
  destruct wallet_completes as [outcome H].
  destruct (wallet_sign_in_is_earned (Plat:=test) (Transport:=unreachable) (Curve:=triple_curve) wallet_config wallet_response 1735689630000 outcome 1735689630002 H)
    as (message & ? & ? & ? & ? & ? & ? & ? & ? & ? & ? & Hm & _ & _ & _ & _ & _ & _ & _ & _ & _ & _ & _ & Hp & _).
  exists outcome, 1735689630002, message. split; [exact H|]. split; [exact Hm|exact Hp].
Defined.

Lemma honest_wallet_signs_in_witness : exists outcome w3,
  wallet_completed = (Ok outcome, w3) /\ AuthenticationOutcome.subject outcome = mkId wallet_address.
Proof.
  destruct (honest_wallet_signs_in (Plat:=test) "login.example" "https://login.example/wallet" ∅ "0123456789abcdef0123456789abcdef"
              300000 "" "" wallet_config wallet_request 1735689600000 wallet_challenge wallet_begun.2
              (parameter_in wallet_challenge "message") wallet_address wallet_digest (signature_of "00") ClientContext.create
              1735689630000) as (outcome & w3 & H & _ & Hs); try (vm_compute; reflexivity).
  - vm_compute. discriminate.
  - exists outcome, w3. split; [exact H|exact Hs].
Defined.

(** A tampered message is refused, whatever its signature. *)
Example tampered_message_is_refused :
  (WalletAuthenticationProvider.completeAuthentication (Plat:=test) wallet_config
     (AuthenticationResponse.setParameter wallet_response "message" (parameter_in wallet_challenge "message" +:+ " "))
     1735689630000).1 = failAuthentication "The SIWE challenge binding is invalid.".
Proof. vm_compute. reflexivity. Qed.

(** A chain that verifies every signature and authorizes every custody address. *)
#[local] Instance trusting : FarcasterChainVerifier (Plat:=test) := {
  chainMatches w := (Ok true, w);
  fcv_verifySignature _ _ _ w := (Ok true, w);
  authorizeSigner _ _ w := (Ok (Some Custody), w);
}.
Definition farcaster_config : FarcasterProviderConfig.t :=
  FarcasterProviderConfig.mk "login.example" "https://login.example/cast" 10 "https://rpc.example/" wallet_address ""
    "0123456789abcdef0123456789abcdef" 300000 "" "".
Definition farcaster_request : AuthenticationRequest.t :=
  AuthenticationRequest.setParameter
    (AuthenticationRequest.setParameter
       (AuthenticationRequest.create FarcasterAuthenticationProvider.id ClientContext.create) "address" wallet_address)
    "fid" "3621".
Definition farcaster_begun : Result AuthenticationChallenge.t * Z :=
  FarcasterAuthenticationProvider.beginAuthentication (Plat:=test) farcaster_config farcaster_request 1735689600000.
Definition farcaster_challenge : AuthenticationChallenge.t := challenge_of farcaster_begun.1.
Definition farcaster_response : AuthenticationResponse.t :=
  AuthenticationResponse.setParameter
    (AuthenticationResponse.setParameter
       (AuthenticationResponse.create (AuthenticationChallenge.id farcaster_challenge) ClientContext.create)
       "message" (parameter_in farcaster_challenge "message")) "signature" "0x".
Definition farcaster_completed : Result AuthenticationOutcome.t * Z :=
  FarcasterAuthenticationProvider.completeAuthentication (Plat:=test) farcaster_config farcaster_response 1735689630000.

Lemma farcaster_completes : exists outcome, farcaster_completed = (Ok outcome, 1735689630002).
Proof. eexists. vm_compute. reflexivity. Qed.

Lemma farcaster_sign_in_is_earned_witness : exists outcome w' fid,
  farcaster_completed = (Ok outcome, w') /\ AuthenticationOutcome.subject outcome = mkId (to_string fid).
Proof.
  destruct farcaster_completes as [outcome H].
  destruct (farcaster_sign_in_is_earned (Plat:=test) (Verifier:=trusting) farcaster_config farcaster_response 1735689630000 outcome 1735689630002 H)
    as (? & ? & ? & fid & ? & ? & ? & ? & ? & ? & _ & _ & _ & _ & _ & _ & _ & _ & _ & Hs & _).
  exists outcome, 1735689630002, fid. split; [exact H|exact Hs].
Defined.

Lemma honest_farcaster_signs_in_witness : exists outcome w6,
  farcaster_completed = (Ok outcome, w6) /\ AuthenticationOutcome.subject outcome = mkId "3621".
Proof.
  destruct (honest_farcaster_signs_in (Plat:=test) "login.example" "https://login.example/cast" 10 "https://rpc.example/"
              wallet_address "0123456789abcdef0123456789abcdef" 300000 "" "" "" farcaster_config farcaster_request
              1735689600000 farcaster_challenge farcaster_begun.2 (parameter_in farcaster_challenge "message") wallet_address 3621
              "0x" Custody ClientContext.create 1735689630000 1735689630000 1735689630001 1735689630001 1735689630001)
    as (outcome & w6 & H & _ & Hs); try (vm_compute; reflexivity).
  - vm_compute. split; [discriminate|reflexivity].
  - apply (proj1 (Nat.leb_le _ _)). vm_compute. reflexivity.
  - vm_compute. split; discriminate.
  - vm_compute. split; [discriminate|reflexivity].
  - exists outcome, w6. split; [exact H|exact Hs].
Defined.
End WalletWitnesses.
